(* ===== verification/_CoqProject ===== *)
-Q . S2P
Prelude.v
Float64.v
FloatFacts.v
FloatBounds.v
Rands.v
Corpus.v
Metadata.v
State.v
FrontierSets.v
MaskSelection.v
Str.v
NumParse.v
Format.v
Files.v
FeaturesMap.v
Factor.v
WeightRefresh.v
MapObserver.v
MapFeedback.v
CreditFeedback.v
AccountingStage.v
Feedbacks.v
Mutations.v
Tokens.v
Havoc.v
MOpt.v
Stages.v
Tpe.v
TpeFacts.v
TpeSpec.v
RuntimeData.v
TpeStage.v
TpeStageFacts.v
TpeStageSafe.v
TestcaseScore.v
Weighted.v
Minimizer.v
Fuzzer.v
Calibrate.v
Mutational.v
CmpLog.v
Monitor.v
Restart.v
DiskCorpus.v
DiskFacts.v
DiskCache.v
DiskRename.v
Initial.v
Generators.v
System.v
Startup.v
