(* ===== verification/Prelude.v ===== *)
(** * A verification of BOFuzz

    BOFuzz is a coverage-guided fuzzer on top of LibAFL.  A static analysis gives every
    instrumented site (a _sancov_ site) of the program under test a vector of features; BOFuzz
    combines the features with a weight vector into one weight per site, turns the sites a corpus
    entry covers into a factor for its selection or its energy, and searches for a good weight
    vector during the campaign with a tree-structured Parzen estimator (TPE).  The code is
    [fuzzers/inprocess/bofuzz/src] (the program itself) and the crates [libafl] and
    [libafl_bolts] of the same repository.

    ** The parts of the program and their files

    Data and foundations:
    - [Prelude]: outcomes ([Ok], [Err], [Panic]), the state and error monad [ME] with its rules for
      relations ([keeps]) and Hoare triples ([triple]), saturating and wrapping integers, record
      updates, generic lemmas, the tactics and hint databases.
    - [Float64], [FloatFacts], [FloatBounds]: Rust's [f64] as the binary64 of [SpecFloat], bit for bit,
      with comparison, rounding, [ceil] and casts; the order and bound lemmas all other files use,
      and the error bounds of sums and products that the swarm of [MOpt] needs.
    - [Str], [NumParse], [Format]: the operations of [str] the program calls, on ASCII text,
      [str::parse::<f64>], and the text of a number or a message as [format!] prints it.
    - [Files]: the file system, every operation of which can fail, and [libafl_bolts/src/fs.rs].
    - [Rands]: [libafl_bolts/src/rands/mod.rs], the trait [Rand] as a class and its seven generators.
    - [Corpus]: [libafl/src/corpus/inmemory.rs], the linked hash map with its sorted keys.
    - [Metadata], [State]: the metadata structs ([feature_sched/metadata.rs], the LibAFL ones the
      scheduler reads), the fuzzer state with one optional field per metadata type, and the
      accessors of [feature_sched/mod.rs], among them the installation of a mask.

    The feature scheduler ([feature_sched]), one file per source file:
    - [FrontierSets] (frontier.rs): covered sites, and the frontier between covered and uncovered.
    - [MaskSelection] (mask_selection.rs): the features with the largest credits.
    - [FeaturesMap] (features_map.rs): schema, feature map, mask argument, candidate vectors, and
      the combination to weights.
    - [Factor] (factor.rs, stats.rs): running statistics and the factor of an entry.
    - [WeightRefresh] (weight_refresh.rs): snapshot, worker computation, publication.
    - [CreditFeedback] (sancov_index_feedback.rs, frontier_credit_feedback.rs): the two feedbacks.
    - [AccountingStage] (accounting_stage.rs): the stage that stores the multiplier of an entry; its [should_restart] always
      answers no, so that in a tuple it is never performed ([Stages.refusing_never_performs]).
    - [Tpe] (tpe.rs), with [TpeFacts] and [TpeSpec]: the optimizer and what it promises.
    - [RuntimeData] (runtime_data.rs): the export of the run, as file operations that can fail.
    - [TpeStage] (tpe_stage.rs), with [TpeStageFacts] and [TpeStageSafe]: the stage that drives the
      optimizer through the phases Explore, PendingRecompute, ActiveWindow and LockedBest.

    Coverage maps in LibAFL:
    - [MapObserver] (observers/map/mod.rs, hitcount_map.rs): the map of counters and the
      classification of the counters after an execution.
    - [MapFeedback] (feedbacks/map.rs): reducers, novelty filters, the generic and the vectorised
      search for novelties, and the history.

    - [Feedbacks] (feedbacks/mod.rs): the trait [Feedback] as a class, its logical combinations, the
      feedbacks on exit kind and time, and the feedback BOFuzz builds from all of them.

    The mutators of LibAFL:
    - [Mutations] (mutators/mutations.rs): every byte mutator, on the bytes of an input and with
      [buffer_copy] and [buffer_set] checked against the buffer.
    - [Tokens] (mutators/token_mutations.rs, observers/cmp.rs): dictionaries and their parsers, the token
      mutators and the replacement of logged operands.
    - [Havoc] (mutators/mod.rs, scheduled.rs, havoc_mutations.rs): the lists of mutators and the stack of
      mutations; each mutator is given the relation of edits it stands for.
    - [MOpt] (mutators/mopt_mutator.rs): the particle swarm that learns which mutators find something.

    The stages of LibAFL:
    - [Stages] (stages/mod.rs, state/stack.rs): tuples of stages, the stack of stage ids that survives a
      restart, and whether a stage is to run: most count their retries, the two of BOFuzz decide by themselves.
    - [Calibrate] (stages/calibrate.rs): the stage that runs a new entry several times.
    - [Mutational] (stages/mutational.rs, power.rs): the stages that mutate and evaluate, proved against
      the class [MutatorLaws], of which the stacked and the MOpt mutator are instances.
    - [CmpLog] (stages/tracing.rs, libafl_targets/src/cmps, observers/cmp.rs): the stage that runs the target
      with the comparison log, and how the log becomes the metadata [Tokens] reads.

    The schedulers of LibAFL that BOFuzz extends:
    - [TestcaseScore] (schedulers/testcase_score.rs): weight and energy of an entry, with the
      multiplier of BOFuzz.
    - [Weighted] (schedulers/weighted.rs, mod.rs, powersched.rs): the weighted scheduler with its
      alias table, the metadata hooks, and the random and power queue schedulers; proved against
      the class [TestcaseScore].
    - [Minimizer] (schedulers/minimizer.rs): the scheduler around the weighted one, which prefers a
      set of favoured entries that covers the map; proved against the class [BaseLaws] of base
      schedulers, which the weighted scheduler satisfies, and the class [CostLaws] of scores.

    The whole:
    - [Fuzzer] (fuzzer/mod.rs): execution, judgement, storage, events and rounds of the loop, for any
      target, feedback, base scheduler and stages ([stages_ok]) that keep their promises.
    - [Monitor] (custom_monitor.rs, monitors/mod.rs, events/simple.rs): the event manager, the statistics and what the
      monitor prints, with its readers of the messages of the stages.
    - [Restart] (libafl_bolts/src/staterestore.rs, events/simple.rs): the page through which a dying process hands
      its state on, and the parent process.
    - [DiskCorpus] (corpus/inmemory_ondisk.rs, cached.rs, ondisk.rs, inputs/value.rs), with [DiskFacts], [DiskCache] and
      [DiskRename]: the corpora in files, with and without a cache.
    - [Initial] (state/mod.rs): the walk over the input directories and the division of the files among cores, for any
      evaluator; [StdFuzzer] is an instance.
    - [Generators] (generators/mod.rs, state/mod.rs): inputs that are generated, and their evaluation; proved against the
      class [GeneratorLaws], which iterators and the random generators satisfy.
    - [System]: stage with its [should_restart], worker thread, feedbacks and accounting as one transition system with every
      interleaving.  The rest of the fuzzer is its environment: it changes the rest of the state, and its own failures are
      not this system's ([StepOf] tells its steps from the others).
    - [Startup] (src/lib.rs): from the command line to the first step of that system.

    ** How the code is represented

    A function that can fail returns an [outcome]: a value, an error of the code ([Err]) or a panic
    ([unwrap], [assert!], an index out of range, [clamp] with crossed bounds).  Stateful code runs in
    [ME], which threads the fuzzer state (or the optimizer's, the stage's, the scheduler's object
    together with it) through both outcomes, so that what an error leaves behind is part of the
    statements.  [u64] is [Z] with its wrap-around and saturation written out, [usize] is [nat] where
    it counts or indexes, [f64] is the IEEE value.  A [HashMap] is a [gmap]; where its iteration order
    can be observed, the order is an answer of the environment.  Code outside the repository is a
    parameter with laws: [Libm] (exp, ln, tanh, cos, powf ...), [Json] and [JsonOut] ([serde_json]),
    [AcfgJson], [Process] (paths of the process), [Env] (clock, failing I/O, the event manager),
    [Target] (the program under test), [Tracer] (the same with the log of sizes [CmpLogSizes]), [Manager] (the event
    manager as the loop sees it), [Stopwatch] (the system's clock, which can be set back: the theorems that need it steady say so),
    [Faults] (when the disk fails), [Dirs] (directories), [Postcard] and [DiskEnv]
    (serialization and hashes), [TempDir];
    each has an instance that satisfies the laws, used by the witnesses.  An error message is its
    format string with the arguments.

    ** What the theorems show

    - The system: [Startup.campaign_safe] (from the arguments on, with parameters in order, no step of the feature scheduler panics),
      [System.system_safe], [System.system_refines] (every run is a run of the abstract machine of
      phases and iterations), [System.system_mask_fixed] (a committed mask never changes).
    - The stage: [TpeStageSafe.perform_safe] and [TpeStageSafe.commit_spec], [TpeStageFacts.perform_refines],
      [resumed_first_recompute_stuck] (a run resumed during its first recompute never leaves the
      active window).
    - The optimizer: [TpeSpec.optimizer_run_safe] for every sequence of operations, and the
      behaviour of observation, split and choice of the best trial.
    - Weights: [WeightRefresh.weight_refresh_correct], [Factor.compute_factor_exact],
      [FeaturesMap.apply_v_to_features_spec], the credit feedback (when and how much is paid), the mask selection.
    - The frontier: equality with its declarative definition, and its growth.
    - Input: exactness and soundness of the checks of schema, feature map, graph and mask argument,
      the round trip of the mask, the checks of a resumed run.
    - Files: an interrupted or failing export never damages the output file.
    - Coverage maps: the vectorised search equals the generic one, the history is the maximum of all
      maps seen, the classification is exact except for unaligned maps of even length.
    - The minimizer: who holds an index and why ([update_score_spec], [remove_spec]), and over whole
      campaigns no failure and every covered index reached by a favoured entry ([minimizer_run]).
    - Schedulers and corpus: termination and completeness of the alias table, the pick, the bounds
      of the energy, insertion and removal.
    - The loop: [Fuzzer.evaluate_spec] (where an input is stored) and [Mutational.campaign_covers] (rounds of the loop with the
      mutational stage: no coverage is lost, and at every pick a favoured entry reaches each covered index).
    - Events: [Monitor.manager_run] (what is printed, event by event, and the panic when the clock is set back),
      [Monitor.executions_add_up] (the count over restarts),
      [Monitor.features_info_exact] and [Monitor.tpe_info_exact] (which messages the monitor understands).
    - Restarts: [Restart.save_restore], [Restart.restart_chain] (a chain of processes is a direct hand-over of the
      state), [Restart.exit_outlives_reset].
    - Corpora on disk: [DiskFacts.disk_corpus_refines] (a table of inputs, also when the disk fails),
      [DiskCache.cached_corpus_refines], [DiskCache.get_loads], [DiskCache.replaced_never_cached],
      [DiskRename.rename_spec].
    - Initial inputs: [Initial.load_initial_exact], [Initial.multicore_chunks], [Generators.generate_initial_counts].
    - Mutators: [Havoc.mutate_spec] and [Havoc.havoc_safe] (no panic, no copy outside a buffer, sizes
      within the limit, a skip leaves the input alone, given a dictionary without empty tokens and a log of operands of
      equal length), [MOpt.mopt_mutate_safe],
      [MOpt.mopt_post_exec_safe] (the floating-point swarm passes its own checks),
      [Havoc.swap_exact_iff] (when a swap loses bytes), [Tokens.autodict_roundtrip].
    - Stages: [Calibrate.calibrate_spec], [Mutational.std_mutational_safe] and
      [Mutational.power_mutational_safe] (how many rounds of mutation and evaluation run, and that none fails),
      [CmpLog.add_from_exact] and
      [CmpLog.traced_mutational_safe] (tracing, then mutation), [Stages.resume_exact] and
      [Stages.crash_loop_ends] (a fuzzer that dies and is restarted).
    - Random numbers: ranges of the derived methods, termination of [choose].

    ** Fuel and bounds

    Loops over data are structural.  These functions take fuel: [choose_loop] runs as long as its
    iterator has items; [pair_loop] of the alias table is run with the number of entries, which
    [alias_table_complete] shows to be enough; [find_root] is the ten rounds of the source; the
    iterators of the corpus follow the linked list, whose length bounds the walk; [autodict_loop] is
    run with one round more than the section has bytes; [cal_loop] with the limit on the runs of a
    calibration, which [cal_loop_ends] shows to be enough; [lock_name] with one round more than there are files, enough by
    [lock_name_spec] since every round that goes on has met another file; [evict] with the sizes of the cache and its
    limit, enough by [evict_spec]; [next_file] and [load_files] with any number above that of the paths below the input
    directories, which the theorems ask for; [launch] with the number of processes looked at; [skip_loop] of the
    minimizer is a random search that need not end, and answers [None] when its fuel is used up
    ([fuzz_one] hands its fuel on to it).  The theorems on
    floating-point vectors ask for fewer than 2^53 features ([small]), so that a count is exact;
    those on the stages ask for room in the corpus for the inputs they can add ([space]).

    ** Not modelled

    [clap], executors, shared memory, signals and LLMP are I/O: an execution is an answer of the target, the death of a
    process one of three ends.  Lines printed to standard error and logs are left out.  Of LibAFL, [ShadowTracingStage] and the log
    of AFL++, [AFLppRedQueen], the multi-part and string inputs, nested stages, the other monitors and the
    introspection, and the generation of inputs from grammars are not modelled; nor are the back ends for QEMU,
    Frida and the rest, which BOFuzz does not use.  The laws of the weighted scheduler as
    a base of the minimizer are proved for entries that are not calibrated yet.  Serialization of the
    metadata between runs is the identity.  Lock poisoning and memory exhaustion do not occur. *)

From Stdlib Require Import ZArith Lia SpecFloat.
From stdpp Require Export gmap strings list fin_maps sorting.

#[export] Set Default Goal Selector "!".
#[export] Set Warnings "-clear-no-such-hyp,-level-tolerance".

Declare Scope bofuzz_scope.
Delimit Scope bofuzz_scope with bofuzz.
#[global] Open Scope bofuzz_scope.

(** ** Record update

    [r <| f := v |>] is the Rust assignment [r.f = v] on a value.  [Eta] names
    the eta-expansion of a record type; the setter of a projection is found by
    abstracting that projection in the eta-expansion. *)

Class Eta (R : Type) := eta : R → R.

Class Updater {R T : Type} (proj : R → T) := upd : (T → T) → R → R.

Ltac solve_updater :=
  lazymatch goal with
  | |- @Updater ?R ?T ?proj =>
    let inst := constr:(_ : Eta R) in
    let body := eval hnf in inst in
    let abs := eval pattern proj in body in
    lazymatch abs with
    | ?k proj => exact (λ (h : T → T) (r : R), k (λ q : R, h (proj q)) r)
    end
  end.

#[export] Hint Extern 1 (Updater _) => solve_updater : typeclass_instances.

Notation "r <| p := v |>" := (upd (proj := p) (λ _, v) r)
  (at level 1, left associativity, p constr, v at level 200,
   format "r <| p  :=  v |>") : bofuzz_scope.

(** ** Machine integers

    [usize] lengths and indices are [nat]; [u64] counters, identifiers of TPE
    iterations and millisecond time stamps are [Z] with the wrap-around and the
    saturation of the Rust operators written out. *)

Abbreviation u64 := Z (only parsing).
Abbreviation usize := nat (only parsing).

Definition u64_max : u64 := (2 ^ 64 - 1)%Z.
Definition wrap64 (x : Z) : u64 := (x mod 2 ^ 64)%Z.
Definition sat_sub (a b : u64) : u64 := Z.max 0 (a - b).
Definition sat_add (a b : u64) : u64 := Z.min u64_max (a + b).
Definition sat_mul (a b : u64) : u64 := Z.min u64_max (a * b).
Definition is_u64 (x : Z) : Prop := (0 ≤ x ≤ u64_max)%Z.

Lemma u64_max_pos : (0 < u64_max)%Z.
Proof. reflexivity. Qed.

Lemma wrap64_is_u64 x : is_u64 (wrap64 x).
Proof.
  unfold is_u64, wrap64, u64_max. pose proof (Z.mod_pos_bound x (2 ^ 64)). lia.
Qed.

Lemma wrap64_small x : is_u64 x → wrap64 x = x.
Proof. unfold is_u64, wrap64, u64_max. intros ?. apply Z.mod_small. lia. Qed.

Lemma sat_sub_is_u64 a b : is_u64 a → is_u64 b → is_u64 (sat_sub a b).
Proof. unfold is_u64, sat_sub. lia. Qed.

Lemma sat_add_is_u64 a b : is_u64 a → is_u64 b → is_u64 (sat_add a b).
Proof. unfold is_u64, sat_add. pose proof u64_max_pos. lia. Qed.

Lemma sat_add_ge a b : is_u64 a → is_u64 b → (a ≤ sat_add a b)%Z.
Proof. unfold is_u64, sat_add. lia. Qed.

Create HintDb u64.
#[export] Hint Resolve wrap64_is_u64 sat_sub_is_u64 sat_add_is_u64 : u64.

(** ** Errors, panics and effects

    [libafl_bolts::Error] with a formatted message.  [fmt t args] is Rust's
    [format!(t, args..)]: the template with the values of its holes ([AFloat d x]
    is [{:.d}] of [x], [ADisplay x] is [{}] of it, [AJoin sep parts] the join of the formatted parts). *)

Inductive Arg :=
| ANat (n : nat)
| AInt (z : Z)
| ABool (b : bool)
| AStr (s : string)
| AFloat (digits : nat) (x : spec_float)
| ADisplay (x : spec_float)
| AMsg (m : Msg)
| AJoin (sep : string) (parts : list Arg)
with Msg := fmt (template : string) (args : list Arg).

Inductive Error :=
| Serialize (m : Msg)
| Compression
| EmptyOptional (m : Msg)
| KeyNotFound (m : Msg)
| Empty (m : Msg)
| IteratorEnd (m : Msg)
| NotImplemented (m : Msg)
| IllegalState (m : Msg)
| IllegalArgument (m : Msg)
| Unsupported (m : Msg)
| ShuttingDown
| OsError (m : Msg)
| Unknown (m : Msg)
| InvalidCorpus (m : Msg)
| Runtime (m : Msg).

Definition newline : string := String (Ascii.ascii_of_nat 10) "".

Definition illegal_state (t : string) (args : list Arg) : Error := IllegalState (fmt t args).
Definition illegal_argument (t : string) (args : list Arg) : Error := IllegalArgument (fmt t args).
Definition key_not_found (t : string) (args : list Arg) : Error := KeyNotFound (fmt t args).
Definition unknown (t : string) (args : list Arg) : Error := Unknown (fmt t args).

(** The result of a Rust function: a value, an [Err], or a panic (an [unwrap] on
    [None], an index out of range, a failed [assert!]). *)
Inductive outcome (E A : Type) :=
| Ok (a : A)
| Err (e : E)
| Panic.
Arguments Ok {E A} a.
Arguments Err {E A} e.
Arguments Panic {E A}.

Definition obind {E A B} (r : outcome E A) (k : A → outcome E B) : outcome E B :=
  match r with
  | Ok a => k a
  | Err e => Err e
  | Panic => Panic
  end.

Definition map_err {E F A} (f : E → F) (r : outcome E A) : outcome F A :=
  match r with
  | Ok a => Ok a
  | Err e => Err (f e)
  | Panic => Panic
  end.

(** [Result::ok] on a result that did not panic. *)
Definition ok_or_none {E A} (r : outcome E A) : option A :=
  match r with
  | Ok a => Some a
  | _ => None
  end.

(** [Option::ok_or] and [Option::unwrap]. *)
Definition ok_or {E A} (o : option A) (e : E) : outcome E A :=
  match o with Some a => Ok a | None => Err e end.

Definition unwrap {E A} (o : option A) : outcome E A :=
  match o with Some a => Ok a | None => Panic end.

Definition unwrap_or {A} (o : option A) (d : A) : A := default d o.

Notation "'let?' x ':=' r 'in' k" := (obind r (λ x, k))
  (at level 10, x binder, r at level 100, k at level 200) : bofuzz_scope.

Fixpoint mapM {E A B} (f : A → outcome E B) (l : list A) : outcome E (list B) :=
  match l with
  | [] => Ok []
  | x :: l => let? y := f x in let? ys := mapM f l in Ok (y :: ys)
  end.

(** Stateful code: a step from a state to a result and the state it leaves,
    also when the result is an error (Rust keeps the mutations made before [?]). *)
Definition ME (E S A : Type) : Type := S → outcome E A * S.
Abbreviation M S A := (ME Error S A) (only parsing).

Definition ret {E S A} (a : A) : ME E S A := λ s, (Ok a, s).
Definition throw {E S A} (e : E) : ME E S A := λ s, (Err e, s).
Definition panic {E S A} : ME E S A := λ s, (Panic, s).
Definition gets {E S A} (f : S → A) : ME E S A := λ s, (Ok (f s), s).
Definition modify {E S} (f : S → S) : ME E S () := λ s, (Ok (), f s).
Definition lift {E S A} (r : outcome E A) : ME E S A := λ s, (r, s).
Definition bind {E S A B} (m : ME E S A) (k : A → ME E S B) : ME E S B := λ s,
  match m s with
  | (Ok a, s') => k a s'
  | (Err e, s') => (Err e, s')
  | (Panic, s') => (Panic, s')
  end.
(** [m.map_err(f)] and [m.ok()] on a step. *)
Definition with_err {E F S A} (f : E → F) (m : ME E S A) : ME F S A := λ s,
  let '(r, s') := m s in (map_err f r, s').

Notation "x <- m ;; k" := (bind m (λ x, k))
  (at level 100, m at next level, right associativity) : bofuzz_scope.
Notation "m ;;; k" := (bind m (λ _, k))
  (at level 100, right associativity) : bofuzz_scope.

(** [keeps R m]: every run of [m], successful or not, relates its start and end
    state by [R].  An invariant [P] is the relation [λ s s', P s → P s']. *)
Definition keeps {E S A} (R : S → S → Prop) (m : ME E S A) : Prop := ∀ s, R s (m s).2.

Section Keeps.
Context {E S : Type} (R : S → S → Prop) `{!PreOrder R}.

Lemma keeps_ret {A} (a : A) : keeps R (ret (E := E) a).
Proof. intros s. simpl. reflexivity. Qed.
Lemma keeps_throw {A} e : keeps R (throw (E := E) (A := A) e).
Proof. intros s. simpl. reflexivity. Qed.
Lemma keeps_panic {A} : keeps R (panic (E := E) (A := A)).
Proof. intros s. simpl. reflexivity. Qed.
Lemma keeps_gets {A} (f : S → A) : keeps R (gets (E := E) f).
Proof. intros s. simpl. reflexivity. Qed.
Lemma keeps_lift {A} (r : outcome E A) : keeps R (lift r).
Proof. intros s. simpl. reflexivity. Qed.
Lemma keeps_modify f : (∀ s, R s (f s)) → keeps R (modify (E := E) f).
Proof. intros H s. apply H. Qed.
Lemma keeps_bind {A B} (m : ME E S A) (k : A → ME E S B) :
  keeps R m → (∀ a, keeps R (k a)) → keeps R (bind m k).
Proof.
  intros Hm Hk s. unfold bind. specialize (Hm s).
  destruct (m s) as [[a|e|] s'] eqn:Em; simpl in *; [|done..].
  etrans; [exact Hm|]. apply Hk.
Qed.
Lemma keeps_with_err {F A} (f : E → F) (m : ME E S A) : keeps R m → keeps R (with_err f m).
Proof. intros Hm s. unfold with_err. specialize (Hm s). by destruct (m s). Qed.
Lemma keeps_if {A} (b : bool) (m1 m2 : ME E S A) :
  keeps R m1 → keeps R m2 → keeps R (if b then m1 else m2).
Proof. by destruct b. Qed.
End Keeps.

Create HintDb keeps.
#[export] Hint Resolve keeps_ret keeps_throw keeps_panic keeps_gets keeps_lift
  keeps_modify keeps_bind keeps_with_err keeps_if : keeps.

(** [triple P m Q X]: from a state in [P], [m] does not panic; a value ends in [Q],
    an error in [X]. *)
Definition triple {E S A} (P : S → Prop) (m : ME E S A) (Q : A → S → Prop) (X : S → Prop) : Prop :=
  ∀ s, P s → match m s with
             | (Ok a, s') => Q a s'
             | (Err _, s') => X s'
             | (Panic, _) => False
             end.

Section Triple.
Context {E S : Type}.

Lemma triple_ret {A} (P : S → Prop) (a : A) (Q : A → S → Prop) X :
  (∀ s, P s → Q a s) → triple P (ret (E := E) a) Q X.
Proof. intros HQ s. apply HQ. Qed.
Lemma triple_throw {A} (P : S → Prop) (e : E) (Q : A → S → Prop) X :
  (∀ s, P s → X s) → triple P (throw e) Q X.
Proof. intros HX s. apply HX. Qed.
Lemma triple_gets {A} (P : S → Prop) (f : S → A) (Q : A → S → Prop) X :
  (∀ s, P s → Q (f s) s) → triple P (gets (E := E) f) Q X.
Proof. intros HQ s. apply HQ. Qed.
Lemma triple_modify (P : S → Prop) f (Q : () → S → Prop) X :
  (∀ s, P s → Q () (f s)) → triple P (modify (E := E) f) Q X.
Proof. intros HQ s. apply HQ. Qed.
Lemma triple_bind {A B} (P : S → Prop) (m : ME E S A) (k : A → ME E S B) R Q X :
  triple P m R X → (∀ a, triple (R a) (k a) Q X) → triple P (bind m k) Q X.
Proof.
  intros Hm Hk s HP. unfold bind. specialize (Hm s HP). destruct (m s) as [[a|e|] s']; [|done..].
  by apply Hk.
Qed.
Lemma triple_with_err {F A} (f : E → F) (P : S → Prop) (m : ME E S A) Q X :
  triple P m Q X → triple P (with_err f m) Q X.
Proof.
  intros Hm s HP. specialize (Hm s HP). unfold with_err. by destruct (m s) as [[a|e|] s'].
Qed.
Lemma triple_lift_value {A} (P : S → Prop) (r : outcome E A) (Q : A → S → Prop) (X : S → Prop) :
  r ≠ Panic → (∀ a s, r = Ok a → P s → Q a s) → (∀ s, P s → X s) → triple P (lift r) Q X.
Proof. intros Hr HQ HX s Hs. unfold lift. destruct r; [by apply HQ|by apply HX|done]. Qed.
Lemma triple_if {A} (b : bool) (P : S → Prop) (m1 m2 : ME E S A) Q X :
  triple P m1 Q X → triple P m2 Q X → triple P (if b then m1 else m2) Q X.
Proof. by destruct b. Qed.
Lemma triple_weaken {A} (P P' : S → Prop) (m : ME E S A) (Q Q' : A → S → Prop) (X X' : S → Prop) :
  triple P' m Q' X' → (∀ s, P s → P' s) → (∀ a s, Q' a s → Q a s) → (∀ s, X' s → X s) →
  triple P m Q X.
Proof.
  intros Hm HP HQ HX s Hs. specialize (Hm s (HP s Hs)). destruct (m s) as [[a|e|] s']; auto.
Qed.
End Triple.

Lemma bind_Ok_inv {E S A B} (m : ME E S A) (k : A → ME E S B) s b s'' :
  bind m k s = (Ok b, s'') → ∃ a s', m s = (Ok a, s') ∧ k a s' = (Ok b, s'').
Proof. unfold bind. destruct (m s) as [[a|e|] s'] eqn:Em; naive_solver. Qed.

Lemma bind_modify {E S B} (f : S → S) (k : ME E S B) s : (modify f ;;; k) s = k (f s).
Proof. done. Qed.
Lemma bind_lift {E S A B} (a : A) (k : A → ME E S B) s : bind (lift (Ok a)) k s = k a s.
Proof. done. Qed.
(** Two steps whose result is known, and what follows them. *)
Lemma bind_seq {E S A B C} (m : ME E S A) (k : A → ME E S B) (l : B → ME E S C) s b s' :
  bind m k s = (Ok b, s') → bind m (λ a, bind (k a) l) s = l b s'.
Proof. unfold bind. destruct (m s) as [[a|e|] s1]; [|done..]. by intros ->. Qed.
Lemma bind_gets {E S A B} (f : S → A) (k : A → ME E S B) s : bind (gets f) k s = k (f s) s.
Proof. done. Qed.

Lemma obind_Ok_inv {E A B} (r : outcome E A) (k : A → outcome E B) b :
  obind r k = Ok b → ∃ a, r = Ok a ∧ k a = Ok b.
Proof. destruct r; naive_solver. Qed.

Lemma map_err_Ok {E F A} (f : E → F) (r : outcome E A) a :
  map_err f r = Ok a ↔ r = Ok a.
Proof. destruct r; naive_solver. Qed.

(** Decompose a successful run into its steps. *)
Ltac inv_ok :=
  repeat match goal with
  | H : bind _ _ _ = (Ok _, _) |- _ =>
    let a := fresh "a" in let s := fresh "s" in
    apply bind_Ok_inv in H as (a & s & ? & H)
  | H : obind _ _ = Ok _ |- _ =>
    let a := fresh "a" in apply obind_Ok_inv in H as (a & ? & H)
  | H : map_err _ _ = Ok _ |- _ => apply map_err_Ok in H
  | H : ret _ _ = (_, _) |- _ => unfold ret in H; injection H as <- <-
  | H : Ok _ = Ok _ |- _ => injection H as <-
  | H : (Ok _, _) = (Ok _, _) |- _ => injection H as <- <-
  end.

Lemma mapM_Ok_Forall2 {E A B} (f : A → outcome E B) l l' :
  mapM f l = Ok l' ↔ Forall2 (λ x y, f x = Ok y) l l'.
Proof.
  revert l'. induction l as [|x l IH]; intros l'; simpl.
  { split; [intros [= <-]; constructor | intros H; by inversion H]. }
  split.
  - intros H. inv_ok. subst. constructor; [done|]. by apply IH.
  - intros H. inversion H as [|? y ? ys Hy Hys]; subst. rewrite Hy. simpl.
    apply IH in Hys. by rewrite Hys.
Qed.

Lemma mapM_length {E A B} (f : A → outcome E B) l l' :
  mapM f l = Ok l' → length l' = length l.
Proof. intros ?%mapM_Ok_Forall2%Forall2_length. done. Qed.

Lemma mapM_total {E A B} (f : A → outcome E B) l :
  (∀ x, x ∈ l → ∃ y, f x = Ok y) → ∃ l', mapM f l = Ok l'.
Proof.
  induction l as [|x l IH]; intros Hf; [by eexists|].
  destruct (Hf x) as [y Hy]; [by left|]. destruct IH as [l' Hl]; [intros z Hz; apply Hf; by right|].
  exists (y :: l'). simpl. by rewrite Hy, Hl.
Qed.

(** ** Lists *)

Lemma filter_all {A} (P : A → Prop) `{!∀ x, Decision (P x)} (l : list A) :
  Forall P l → filter P l = l.
Proof. induction 1; [done|]. rewrite filter_cons, decide_True by done. by f_equal. Qed.

(** ** Sorted lists of indexes *)

Lemma sorted_filter {A} (R : A → A → Prop) (P : A → Prop) `{!∀ x, Decision (P x)} l :
  StronglySorted R l → StronglySorted R (filter P l).
Proof.
  induction 1 as [|x l Hl IH Hx]; [constructor|]. rewrite filter_cons. case_decide; [|done].
  constructor; [done|]. apply Forall_forall. intros y [_ Hy]%list_elem_of_filter.
  rewrite Forall_forall in Hx. auto.
Qed.
Lemma sorted_seq i n : StronglySorted lt (seq i n).
Proof.
  revert i. induction n as [|n IH]; intros i; [constructor|]. constructor; [done|].
  apply Forall_forall. intros j Hj%elem_of_seq. lia.
Qed.


(** [slice::sort_by] is stable: insertion after the elements that compare as less
    or equal. *)
Section SortBy.
Context {A : Type} (cmp : A → A → comparison).

Fixpoint insert_by (x : A) (l : list A) : list A :=
  match l with
  | [] => [x]
  | y :: l => match cmp x y with Gt => y :: insert_by x l | _ => x :: y :: l end
  end.
Definition sort_by (l : list A) : list A := foldr insert_by [] l.

Definition cmp_le (x y : A) : Prop := cmp x y ≠ Gt.

Lemma insert_by_perm x l : insert_by x l ≡ₚ x :: l.
Proof.
  induction l as [|y l IH]; simpl; [done|].
  destruct (cmp x y); [done..|]. rewrite IH. apply Permutation_swap.
Qed.

Lemma sort_by_perm l : sort_by l ≡ₚ l.
Proof. induction l as [|x l IH]; simpl; [done|]. by rewrite insert_by_perm, IH. Qed.

(** Sortedness only needs the order on the elements of the list. *)
Context (P : A → Prop).
Context (le_trans : ∀ x y z, P x → P y → P z → cmp_le x y → cmp_le y z → cmp_le x z).
Context (gt_le : ∀ x y, P x → P y → cmp x y = Gt → cmp_le y x).

Lemma insert_by_sorted x l : P x → Forall P l →
  StronglySorted cmp_le l → StronglySorted cmp_le (insert_by x l).
Proof.
  intros Hx. induction l as [|y l IH]; intros HF Hs; simpl.
  { repeat constructor. }
  apply Forall_cons in HF as [Hy HF]. apply StronglySorted_inv in Hs as [Hs Hyl].
  assert (cmp_le x y → StronglySorted cmp_le (x :: y :: l)) as Hcons.
  { intros Hxy. constructor; [by constructor|]. constructor; [done|].
    apply Forall_forall. intros z Hz. rewrite Forall_forall in Hyl, HF. eauto. }
  unfold cmp_le in Hcons. destruct (cmp x y) eqn:E; [by apply Hcons..|].
  constructor; [by apply IH|]. rewrite insert_by_perm. constructor; [by apply gt_le|done].
Qed.

Lemma sort_by_sorted l : Forall P l → StronglySorted cmp_le (sort_by l).
Proof.
  induction l as [|x l IH]; intros HF; simpl; [constructor|].
  apply Forall_cons in HF as [Hx HF]. apply insert_by_sorted; [done| |by apply IH].
  by rewrite sort_by_perm.
Qed.
End SortBy.

(** The first [k] elements of a sorted list are a top-[k] selection: nothing left
    out is before something taken. *)
Lemma sorted_take_drop {A} (R : A → A → Prop) k (l : list A) x y :
  StronglySorted R l → x ∈ take k l → y ∈ drop k l → R x y.
Proof.
  intros Hs. rewrite <-(take_drop k l) in Hs. revert Hs.
  generalize (take k l) (drop k l). intros l1 l2. induction l1 as [|z l1 IH]; simpl.
  { intros _ H. by apply elem_of_nil in H. }
  intros [Hs Hz]%StronglySorted_inv [->|Hx]%elem_of_cons Hy; [|by apply IH].
  rewrite Forall_forall in Hz. apply Hz. apply elem_of_app. by right.
Qed.
