(* ===== verification/Float64.v ===== *)
(** * Float64: IEEE 754 binary64 as Rust's [f64] *)

From Stdlib Require Import ZArith Lia.
From Stdlib Require Export SpecFloat.
From S2P Require Import Prelude.

Local Open Scope Z_scope.

Abbreviation f64 := spec_float (only parsing).
Definition prec : Z := 53.
Definition emax : Z := 1024.

Definition fadd (a b : f64) : f64 := SFadd prec emax a b.
Definition fsub (a b : f64) : f64 := SFsub prec emax a b.
Definition fmul (a b : f64) : f64 := SFmul prec emax a b.
Definition fdiv (a b : f64) : f64 := SFdiv prec emax a b.
Definition fsqrt (a : f64) : f64 := SFsqrt prec emax a.
Definition fneg (a : f64) : f64 := SFopp a.
Definition fabs (a : f64) : f64 := SFabs a.

Declare Scope f64_scope.
Delimit Scope f64_scope with f64.
Infix "+" := fadd : f64_scope.
Infix "-" := fsub : f64_scope.
Infix "*" := fmul : f64_scope.
Infix "/" := fdiv : f64_scope.
Notation "- x" := (fneg x) : f64_scope.

Definition is_nan (x : f64) : bool :=
  match x with S754_nan => true | _ => false end.
Definition is_finite (x : f64) : bool :=
  match x with S754_zero _ | S754_finite _ _ _ => true | _ => false end.
(** [f64::is_normal]: not zero, subnormal, infinite or NaN. *)
Definition is_normal (x : f64) : bool :=
  match x with
  | S754_finite _ m _ => Zpos (digits2_pos m) =? prec
  | _ => false
  end.

Definition partial_cmp (a b : f64) : option comparison := SFcompare a b.
Definition flt (a b : f64) : bool := SFltb a b.
Definition fle (a b : f64) : bool := SFleb a b.
Definition feq (a b : f64) : bool := SFeqb a b.
Abbreviation fgt a b := (flt b a) (only parsing).
Abbreviation fge a b := (fle b a) (only parsing).

Infix "<?" := flt : f64_scope.
Infix "<=?" := fle : f64_scope.

(** [f64::max]: a NaN operand is ignored; of two equal operands the first. *)
Definition fmax (a b : f64) : f64 :=
  if is_nan a then b else if flt a b then b else a.

(** [f64::clamp] asserts [min <= max] (false when one of them is NaN). *)
Definition clamp {E} (x lo hi : f64) : outcome E f64 :=
  if fle lo hi then
    let x := if flt x lo then lo else x in
    Ok (if flt hi x then hi else x)
  else Panic.

(** [n as f64] for an integer [n]. *)
Definition of_Z (n : Z) : f64 := binary_normalize prec emax n 0 false.
Definition of_nat (n : nat) : f64 := of_Z (Z.of_nat n).

(** [x.ceil()] and the saturating cast [x as usize]. *)
Definition fceil (x : f64) : f64 :=
  match x with
  | S754_finite s m e =>
    if 0 <=? e then x
    else binary_normalize prec emax (- ((cond_Zopp (negb s) (Zpos m)) / 2 ^ (- e))) 0 s
  | _ => x
  end.
Definition as_usize (x : f64) : nat :=
  match x with
  | S754_finite false m e =>
    Z.to_nat (Z.min u64_max (if 0 <=? e then Zpos m * 2 ^ e else Zpos m / 2 ^ (- e)))
  | S754_infinity false => Z.to_nat u64_max
  | _ => O
  end.

(** Literals, as the nearest binary64 value. *)
Definition f0 : f64 := S754_zero false.
Definition fneg0 : f64 := S754_zero true.
Definition f_inf : f64 := S754_infinity false.
Definition f_neg_inf : f64 := S754_infinity true.
Definition f_nan : f64 := S754_nan.

(** [iter.sum::<f64>()]: the fold starts from [-0.0]. *)
Definition fsum (l : list f64) : f64 := foldl fadd fneg0 l.

Definition f1 : f64 := S754_finite false 4503599627370496 (-52).
Definition f2 : f64 := S754_finite false 4503599627370496 (-51).
Definition f_half : f64 := S754_finite false 4503599627370496 (-53).
Definition f_1e_6 : f64 := S754_finite false 4722366482869645 (-72).
Definition f_1e_9 : f64 := S754_finite false 4835703278458517 (-82).
Definition f_1e_12 : f64 := S754_finite false 4951760157141521 (-92).
Definition f_1e_3 : f64 := S754_finite false 4611686018427388 (-62).
Definition f_0_85 : f64 := S754_finite false 7656119366529843 (-53).
Definition f_0_6 : f64 := S754_finite false 5404319552844595 (-53).
Definition f_0_15 : f64 := S754_finite false 5404319552844595 (-55).
Definition f_0_05 : f64 := S754_finite false 7205759403792794 (-57).

Example of_Z_1 : of_Z 1 = f1. Proof. reflexivity. Qed.
Example add_1 : (f1 + f1)%f64 = f2. Proof. reflexivity. Qed.
Example ceil_1 : fceil (fmul (of_nat 4) f_0_15) = f1. Proof. vm_compute. reflexivity. Qed.
Example ceil_2 : fceil (fneg f_half) = fneg0. Proof. vm_compute. reflexivity. Qed.
Example third : as_usize (fceil (fmul (of_nat 30) f_0_15)) = 5%nat. Proof. vm_compute. reflexivity. Qed.
