(* ===== verification/FloatFacts.v ===== *)
(** * FloatFacts: the theory of binary64 the components rely on *)

From Stdlib Require Import ZArith Lia.
From S2P Require Import Prelude Float64.

Local Open Scope Z_scope.

(** ** Digits and shifts *)

Lemma digits2_pos_bound m :
  2 ^ (Zpos (digits2_pos m) - 1) ≤ Zpos m < 2 ^ Zpos (digits2_pos m).
Proof.
  induction m as [m IH|m IH|]; cbn [digits2_pos].
  - rewrite Pos2Z.inj_succ. replace (Z.succ _ - 1) with (Zpos (digits2_pos m) - 1 + 1) by lia.
    rewrite Z.pow_succ_r, Z.pow_add_r by lia. lia.
  - rewrite Pos2Z.inj_succ. replace (Z.succ _ - 1) with (Zpos (digits2_pos m) - 1 + 1) by lia.
    rewrite Z.pow_succ_r, Z.pow_add_r by lia. lia.
  - simpl. lia.
Qed.

Lemma Zdigits2_bound m : 0 < m → 2 ^ (Zdigits2 m - 1) ≤ m < 2 ^ Zdigits2 m.
Proof. destruct m as [|p|p]; [lia| |lia]. intros _. apply digits2_pos_bound. Qed.

Lemma Zdigits2_pos m : 0 < m → 0 < Zdigits2 m.
Proof. destruct m; simpl; lia. Qed.

Lemma Zdigits2_le m k : 0 ≤ k → 0 ≤ m < 2 ^ k → Zdigits2 m ≤ k.
Proof.
  intros Hk [Hm Hlt]. destruct (Z.eq_dec m 0) as [->|]; [done|].
  destruct (Zdigits2_bound m); [lia|]. destruct (Z.le_gt_cases (Zdigits2 m) k); [done|].
  assert (2 ^ k ≤ 2 ^ (Zdigits2 m - 1)) by (apply Z.pow_le_mono_r; lia). lia.
Qed.

Lemma Zdigits2_ge m k : 0 ≤ k → 2 ^ k ≤ m → k + 1 ≤ Zdigits2 m.
Proof.
  intros Hk Hle. assert (0 < 2 ^ k) by (apply Z.pow_pos_nonneg; lia).
  destruct (Zdigits2_bound m); [lia|].
  destruct (Z.le_gt_cases (k + 1) (Zdigits2 m)); [done|].
  assert (2 ^ Zdigits2 m ≤ 2 ^ k) by (apply Z.pow_le_mono_r; lia). lia.
Qed.

Lemma iter_pos_iter {A} (f : A → A) p x : iter_pos f p x = Nat.iter (Pos.to_nat p) f x.
Proof.
  revert x. induction p as [p IH|p IH|]; intros x; cbn [iter_pos].
  - rewrite !IH, Pos2Nat.inj_xI, Nat.mul_comm.
    replace (S (Pos.to_nat p * 2)) with (Pos.to_nat p + (Pos.to_nat p + 1))%nat by lia.
    rewrite !Nat.iter_add. done.
  - rewrite !IH, Pos2Nat.inj_xO. replace (2 * Pos.to_nat p)%nat with (Pos.to_nat p + Pos.to_nat p)%nat by lia.
    by rewrite Nat.iter_add.
  - done.
Qed.

Lemma shr_1_m mrs : 0 ≤ shr_m mrs → shr_m (shr_1 mrs) = shr_m mrs / 2.
Proof.
  destruct mrs as [m r s]. simpl. intros Hm.
  destruct m as [|[p|p|]|p]; simpl; try lia; try done.
  - rewrite Pos2Z.inj_xI. apply Z.div_unique with 1; lia.
  - rewrite Pos2Z.inj_xO. apply Z.div_unique with 0; lia.
Qed.

Lemma shr_1_rs m : 0 ≤ m → m mod 2 = 0 →
  shr_1 (Build_shr_record m false false) = Build_shr_record (m / 2) false false.
Proof.
  intros Hm H2. destruct m as [|[p|p|]|p]; simpl; try done; try lia.
  - rewrite Pos2Z.inj_xI in H2. exfalso. revert H2.
    rewrite Z.add_comm, Z.mul_comm, Z_mod_plus_full. done.
  - rewrite Pos2Z.inj_xO. f_equal. apply Z.div_unique with 0; lia.
Qed.

(** Shifting right by [n] bits divides the mantissa by [2^n]. *)
Lemma shr_iter_m n mrs : 0 ≤ shr_m mrs →
  shr_m (Nat.iter n shr_1 mrs) = shr_m mrs / 2 ^ Z.of_nat n.
Proof.
  intros Hm. induction n as [|n IH]; simpl Nat.iter.
  - rewrite Z.pow_0_r, Z.div_1_r. done.
  - rewrite shr_1_m by (rewrite IH; apply Z.div_pos; [done|apply Z.pow_pos_nonneg; lia]).
    rewrite IH, Z.div_div by (try apply Z.pow_pos_nonneg; lia).
    f_equal. rewrite Nat2Z.inj_succ, Z.pow_succ_r by lia. lia.
Qed.

Lemma shr_iter_exact n m : 0 ≤ m → m mod 2 ^ Z.of_nat n = 0 →
  Nat.iter n shr_1 (Build_shr_record m false false)
  = Build_shr_record (m / 2 ^ Z.of_nat n) false false.
Proof.
  intros Hm. induction n as [|n IH]; intros Hmod; simpl Nat.iter.
  - by rewrite Z.pow_0_r, Z.div_1_r.
  - rewrite Nat2Z.inj_succ, Z.pow_succ_r in * by lia.
    assert (H2n : 0 < 2 ^ Z.of_nat n) by (apply Z.pow_pos_nonneg; lia).
    apply Z.mod_divide in Hmod as [k ->]; [|lia].
    rewrite (Z.div_mul k) by lia.
    replace (k * (2 * 2 ^ Z.of_nat n)) with (k * 2 * 2 ^ Z.of_nat n) in * by ring.
    rewrite IH by (apply Z.mod_mul; lia).
    rewrite Z.div_mul by lia. rewrite shr_1_rs; [by rewrite Z.div_mul by lia|nia|].
    apply Z.mod_mul. lia.
Qed.

(** The bit that is shifted out last decides the rounding; it is clear when less than half was cut off. *)
Lemma shr_1_r mrs : 0 ≤ shr_m mrs → shr_r (shr_1 mrs) = Z.odd (shr_m mrs).
Proof. destruct mrs as [m r s]. by destruct m as [|[p|p|]|p]; simpl; try lia. Qed.
Lemma low_half_even m n : 0 ≤ n → 0 ≤ m → 2 * (m mod 2 ^ (n + 1)) < 2 ^ (n + 1) → Z.odd (m / 2 ^ n) = false.
Proof.
  intros Hn Hm Hlt. rewrite Z.pow_add_r, Z.pow_1_r in Hlt by lia.
  assert (0 < 2 ^ n) as Hp by (apply Z.pow_pos_nonneg; lia).
  rewrite Z.rem_mul_r in Hlt by lia. pose proof (Z.mod_pos_bound m (2 ^ n) Hp).
  pose proof (Z.mod_pos_bound (m / 2 ^ n) 2 ltac:(lia)). rewrite Zmod_odd in *. destruct (Z.odd (m / 2 ^ n)); [nia|done].
Qed.
Lemma shr_iter_low n m : 0 ≤ m → 2 * (m mod 2 ^ Z.of_nat (S n)) < 2 ^ Z.of_nat (S n) →
  shr_r (Nat.iter (S n) shr_1 (Build_shr_record m false false)) = false.
Proof.
  intros Hm Hlt. cbn [Nat.iter nat_rect]. change (nat_rect _ _ _ n) with (Nat.iter n shr_1 (Build_shr_record m false false)).
  rewrite shr_1_r; rewrite shr_iter_m by done; cbn [shr_m].
  - apply low_half_even; [lia|done|]. by replace (Z.of_nat n + 1) with (Z.of_nat (S n)) by lia.
  - apply Z.div_pos; [done|]. apply Z.pow_pos_nonneg; lia.
Qed.

#[export] Instance comparison_eq_dec : EqDecision comparison.
Proof. solve_decision. Defined.
#[export] Instance location_eq_dec : EqDecision location.
Proof. solve_decision. Defined.

(** ** Rounding

    [round_nearest_even] moves a truncated mantissa up by at most one, and not
    at all when nothing was cut off. *)

Definition inexact (l : location) : Z := match l with loc_Exact => 0 | _ => 1 end.

Lemma round_nearest_even_bounds m l :
  m ≤ round_nearest_even m l ≤ m + inexact l.
Proof. destruct l as [|[]]; simpl; try lia. destruct (Z.even m); lia. Qed.

Lemma shr_fexp_spec m e l : 0 ≤ m →
  let n := Z.max 0 (fexp prec emax (Zdigits2 m + e) - e) in
  let '(mrs, e') := shr_fexp prec emax m e l in
  e' = e + n ∧ shr_m mrs = m / 2 ^ n ∧
  (l = loc_Exact → m mod 2 ^ n = 0 → loc_of_shr_record mrs = loc_Exact) ∧
  (n = 0 → loc_of_shr_record mrs = l) ∧
  (l = loc_Exact → 2 * (m mod 2 ^ n) < 2 ^ n → shr_r mrs = false).
Proof.
  intros Hm. cbv zeta. unfold shr_fexp, shr.
  assert (Hr : shr_m (shr_record_of_loc m l) = m) by (destruct l as [|[]]; done).
  assert (Hl : loc_of_shr_record (shr_record_of_loc m l) = l) by (destruct l as [|[]]; done).
  destruct (fexp prec emax (Zdigits2 m + e) - e) as [|p|p] eqn:En.
  - rewrite Z.max_id, Z.pow_0_r, Z.div_1_r. split_and!; [lia|done|by intros ->|done|by intros ->].
  - rewrite Z.max_r by lia. split_and!; [done| | |done|].
    + rewrite iter_pos_iter, shr_iter_m by lia. by rewrite positive_nat_Z, Hr.
    + intros -> Hmod. rewrite iter_pos_iter. simpl shr_record_of_loc.
      rewrite shr_iter_exact; [done|done|]. by rewrite positive_nat_Z.
    + intros -> Hlt. rewrite iter_pos_iter. simpl shr_record_of_loc.
      destruct (Pos2Nat.is_succ p) as [k Hk]. rewrite Hk. apply shr_iter_low; [done|].
      by rewrite <-Hk, positive_nat_Z.
  - rewrite Z.max_l by lia. rewrite Z.pow_0_r, Z.div_1_r. split_and!; [lia|done|by intros ->|done|by intros ->].
Qed.

Lemma fexp_eq d : fexp prec emax d = Z.max (d - 53) (-1074).
Proof. reflexivity. Qed.

(** A mantissa and exponent in the normal form of binary64. *)
Definition canon (m e : Z) : Prop :=
  0 < m < 2 ^ 53 ∧ -1074 ≤ e ∧ (-1074 < e → 2 ^ 52 ≤ m).

Lemma canon_canonical m e : canonical_mantissa prec emax m e = true ↔ canon (Zpos m) e.
Proof.
  unfold canonical_mantissa. rewrite fexp_eq, Z.eqb_eq.
  pose proof (digits2_pos_bound m) as [Hl Hu]. unfold canon. split.
  - intros He. split_and!; [lia| |lia|].
    + eapply Z.lt_le_trans; [exact Hu|]. apply Z.pow_le_mono_r; lia.
    + intros ?. etrans; [|exact Hl]. apply Z.pow_le_mono_r; lia.
  - intros ([_ Hm] & He & Hn).
    pose proof (Zdigits2_le (Zpos m) 53 ltac:(lia) ltac:(lia)) as Hd. simpl in Hd.
    destruct (Z.eq_dec e (-1074)) as [->|Hne]; [lia|].
    pose proof (Zdigits2_ge (Zpos m) 52 ltac:(lia) ltac:(lia)) as Hd'. simpl in Hd'. lia.
Qed.

Lemma valid_finite s m e :
  valid_binary prec emax (S754_finite s m e) = true ↔ canon (Zpos m) e ∧ e ≤ 971.
Proof.
  simpl. unfold bounded. rewrite andb_true_iff, canon_canonical, Z.leb_le. done.
Qed.

(** Value of a rounded result with sign [s], in normal form or an infinity. *)
Definition pack (s : bool) (m e : Z) (r : f64) : Prop :=
  (m = 0 ∧ r = S754_zero s) ∨
  (canon m e ∧ r = if e <=? 971 then S754_finite s (Z.to_pos m) e else S754_infinity s).

Lemma mantissa_cut m n k : 0 ≤ n → 0 ≤ k → 0 ≤ m →
  (m < 2 ^ (k + n) → m / 2 ^ n < 2 ^ k) ∧ (2 ^ (k + n) ≤ m → 2 ^ k ≤ m / 2 ^ n).
Proof.
  intros Hn Hk Hm. assert (0 < 2 ^ n) by (apply Z.pow_pos_nonneg; lia).
  rewrite Z.pow_add_r by lia. split; intros H'.
  - apply Z.div_lt_upper_bound; lia.
  - apply Z.div_le_lower_bound; lia.
Qed.

Lemma shr_fexp_again m E : 0 ≤ m ≤ 2 ^ 53 → -1074 ≤ E → (-1074 < E → 2 ^ 52 ≤ m) →
  let '(mrs, e2) := shr_fexp prec emax m E loc_Exact in
  m = shr_m mrs * 2 ^ (e2 - E) ∧ E ≤ e2 ∧
  (shr_m mrs = 0 ∨ canon (shr_m mrs) e2).
Proof.
  intros [Hm0 Hm] HE Hn. pose proof (shr_fexp_spec m E loc_Exact Hm0) as H.
  cbv zeta in H. destruct (shr_fexp _ _ _ _ _) as [mrs e2]. rewrite fexp_eq in H.
  destruct H as (-> & -> & _). destruct (Z.eq_dec m (2 ^ 53)) as [->|Hne].
  - replace (Z.max (Zdigits2 (2 ^ 53) + E - 53) (-1074)) with (E + 1)
      by (change (Zdigits2 (2 ^ 53)) with 54; lia).
    replace (Z.max 0 (E + 1 - E)) with 1 by lia.
    replace (E + 1 - E) with 1 by lia.
    change (2 ^ 53 / 2 ^ 1) with (2 ^ 52). split_and!; [done|lia|].
    right. unfold canon. lia.
  - pose proof (Zdigits2_le m 53 ltac:(lia) ltac:(lia)) as Hd.
    replace (Z.max 0 _) with 0 by lia.
    rewrite Z.pow_0_r, Z.div_1_r, Z.add_0_r, Z.sub_diag, Z.mul_1_r.
    split_and!; [done|lia|]. destruct (Z.eq_dec m 0); [by left|]. right.
    unfold canon. lia.
Qed.

(** The rounding step of every operation: the exact mantissa [m] (with the
    location [l] of what lies beyond it) is cut to the exponent [E] of the
    format, moved up by at most one and put in normal form. *)
Lemma binary_round_aux_spec s m e l : 0 ≤ m →
  let E := fexp prec emax (Zdigits2 m + e) in
  e ≤ E →
  ∃ m1 m2 e2,
    m / 2 ^ (E - e) ≤ m1 ∧
    (m1 ≤ m / 2 ^ (E - e) + 1) ∧
    (l = loc_Exact → 2 * (m mod 2 ^ (E - e)) < 2 ^ (E - e) → m1 = m / 2 ^ (E - e)) ∧
    m1 = m2 * 2 ^ (e2 - E) ∧ E ≤ e2 ∧ pack s m2 e2 (binary_round_aux prec emax s m e l).
Proof.
  intros Hm E He. unfold binary_round_aux.
  pose proof (shr_fexp_spec m e l Hm) as H1. cbv zeta in H1. fold E in H1.
  destruct (shr_fexp prec emax m e l) as [mrs e1].
  rewrite Z.max_r in H1 by lia. destruct H1 as (-> & Hmm & _ & _ & Hex).
  replace (e + (E - e)) with E by lia.
  set (m1 := round_nearest_even (shr_m mrs) (loc_of_shr_record mrs)).
  pose proof (round_nearest_even_bounds (shr_m mrs) (loc_of_shr_record mrs)) as Hb.
  fold m1 in Hb. rewrite Hmm in Hb.
  assert (Hin : 0 ≤ inexact (loc_of_shr_record mrs) ≤ 1)
    by (destruct (loc_of_shr_record mrs); simpl; lia).
  assert (HE : E = Z.max (Zdigits2 m + e - 53) (-1074)) by apply fexp_eq.
  assert (Hcut : 0 ≤ m / 2 ^ (E - e) < 2 ^ 53 ∧ (-1074 < E → 2 ^ 52 ≤ m / 2 ^ (E - e))).
  { destruct (Z.eq_dec m 0) as [->|Hm0].
    { rewrite Z.div_0_l by (apply Z.pow_nonzero; lia). split; [lia|].
      simpl in HE. intros; lia. }
    pose proof (Zdigits2_bound m ltac:(lia)) as [Hl Hu].
    destruct (mantissa_cut m (E - e) 53) as [Hc _]; [lia..|].
    destruct (mantissa_cut m (E - e) 52) as [_ Hc']; [lia..|]. split.
    - split; [apply Z.div_pos; [lia|apply Z.pow_pos_nonneg; lia]|].
      apply Hc. eapply Z.lt_le_trans; [exact Hu|]. apply Z.pow_le_mono_r; lia.
    - intros ?. apply Hc'. etrans; [|exact Hl]. apply Z.pow_le_mono_r; lia. }
  destruct Hcut as [Hc1 Hc2].
  pose proof (shr_fexp_again m1 E ltac:(lia) ltac:(lia) ltac:(intros; lia)) as H2.
  destruct (shr_fexp prec emax m1 E loc_Exact) as [mrs2 e2].
  destruct H2 as (Hm2 & HEe2 & Hcan).
  exists m1, (shr_m mrs2), e2. split_and!; [lia|lia| |done|done|].
  - intros Hl Hlow. specialize (Hex Hl Hlow). unfold m1. rewrite <-Hmm.
    destruct mrs as [mm rr ss]. cbn [shr_r] in Hex. subst rr. by destruct ss.
  - unfold pack. destruct Hcan as [->|Hcan]; [by left|]. right. split; [done|].
    change (emax - prec) with 971. destruct Hcan as [[Hpos _] _].
    destruct (shr_m mrs2) as [|p|p]; [lia|done|lia].
Qed.

(** ** Values and order

    Every finite binary64 value is a multiple of 2^-1074, the least subnormal:
    [fv] is the value in that unit.  The comparison of two valid floats is the
    comparison of these integers. *)

Definition fvalid (x : f64) : Prop := valid_binary prec emax x = true.

Definition fv (x : f64) : Z :=
  match x with
  | S754_finite s m e => cond_Zopp s (Zpos m * 2 ^ (e + 1074))
  | _ => 0
  end.

Lemma pow2_pos n : 0 ≤ n → 0 < 2 ^ n.
Proof. intros. apply Z.pow_pos_nonneg; lia. Qed.


Lemma pow2_split a b c : a ≤ b → b ≤ c → 2 ^ (c - a) = 2 ^ (c - b) * 2 ^ (b - a).
Proof. intros. rewrite <- Z.pow_add_r by lia. f_equal. lia. Qed.

Lemma canon_lt m1 e1 m2 e2 b : canon m1 e1 → canon m2 e2 → b ≤ e1 → e1 < e2 →
  m1 * 2 ^ (e1 - b) < m2 * 2 ^ (e2 - b).
Proof.
  intros ([_ Hm1] & He1 & _) (_ & He2 & Hn2) Hb Hlt.
  rewrite (pow2_split b e1 e2) by lia.
  pose proof (pow2_pos (e1 - b) ltac:(lia)).
  assert (2 ^ 1 ≤ 2 ^ (e2 - e1)) by (apply Z.pow_le_mono_r; lia).
  specialize (Hn2 ltac:(lia)). rewrite Z.mul_assoc.
  apply Z.mul_lt_mono_pos_r; [done|]. nia.
Qed.

Lemma canon_compare m1 e1 m2 e2 : canon (Zpos m1) e1 → canon (Zpos m2) e2 →
  (Zpos m1 * 2 ^ (e1 + 1074) ?= Zpos m2 * 2 ^ (e2 + 1074)) =
  match e1 ?= e2 with Lt => Lt | Gt => Gt | Eq => Pos.compare_cont Eq m1 m2 end.
Proof.
  intros H1 H2. change (e1 + 1074) with (e1 - -1074). change (e2 + 1074) with (e2 - -1074).
  pose proof H1 as (_ & Hb1 & _). pose proof H2 as (_ & Hb2 & _).
  destruct (Z.compare_spec e1 e2) as [->|Hlt|Hlt].
  - change (Pos.compare_cont Eq m1 m2) with (Zpos m1 ?= Zpos m2).
    symmetry. apply Zmult_compare_compat_r. apply Z.lt_gt, pow2_pos. lia.
  - apply Z.compare_lt_iff. by apply canon_lt.
  - apply Z.compare_gt_iff. by apply canon_lt.
Qed.

Lemma fcompare_fv x y : fvalid x → fvalid y → is_finite x = true → is_finite y = true →
  SFcompare x y = Some (fv x ?= fv y).
Proof.
  unfold fvalid.
  assert (Hp : ∀ m e, canon (Zpos m) e → 0 < Zpos m * 2 ^ (e + 1074)).
  { intros m e (_ & ? & _). apply Z.mul_pos_pos; [lia|]. apply pow2_pos. lia. }
  destruct x as [sx|sx| |sx mx ex]; try done; destruct y as [sy|sy| |sy my ey]; try done;
    rewrite ?valid_finite; intros Hx Hy _ _; cbn [SFcompare fv cond_Zopp].
  - destruct Hy as [Hy _]. specialize (Hp _ _ Hy). destruct sy; unfold cond_Zopp; f_equal; symmetry;
      [apply Z.compare_gt_iff|apply Z.compare_lt_iff]; lia.
  - destruct Hx as [Hx _]. specialize (Hp _ _ Hx). destruct sx; unfold cond_Zopp; f_equal; symmetry;
      [apply Z.compare_lt_iff|apply Z.compare_gt_iff]; lia.
  - destruct Hx as [Hx _], Hy as [Hy _].
    pose proof (Hp _ _ Hx). pose proof (Hp _ _ Hy).
    pose proof (canon_compare _ _ _ _ Hx Hy) as Hc.
    destruct sx, sy; unfold cond_Zopp; f_equal.
    + rewrite Z.compare_opp, (Z.compare_antisym (Zpos mx * 2 ^ (ex + 1074))), Hc.
      by destruct (ex ?= ey).
    + symmetry. apply Z.compare_lt_iff. lia.
    + symmetry. apply Z.compare_gt_iff. lia.
    + done.
Qed.

(** Rounding is monotone: it never crosses a representable value. *)
Section Round.
Context (s : bool) (m e : Z) (l : location).
Context (Hm : 0 ≤ m) (He : e ≤ fexp prec emax (Zdigits2 m + e)).
Context (mv ev b : Z) (Hv : canon mv ev) (Hb : b ≤ e) (Hb' : b ≤ -1074).

Lemma round_le : (m + inexact l) * 2 ^ (e - b) ≤ mv * 2 ^ (ev - b) →
  ∃ m2 e2, pack s m2 e2 (binary_round_aux prec emax s m e l) ∧ -1074 ≤ e2 ∧
    0 ≤ m2 ∧ m2 * 2 ^ (e2 - b) ≤ mv * 2 ^ (ev - b).
Proof.
  intros Hle.
  destruct (binary_round_aux_spec s m e l Hm He) as (m1 & m2 & e2 & Hlo & Hhi & Hex & Hm1 & HE & Hp).
  set (E := fexp prec emax (Zdigits2 m + e)) in *.
  assert (HEb : -1074 ≤ E) by (unfold E; rewrite fexp_eq; lia).
  exists m2, e2. split_and!; [done|lia| |].
  { assert (0 ≤ m1). { etrans; [|exact Hlo]. apply Z.div_pos; [lia|]. apply pow2_pos; lia. }
    pose proof (pow2_pos (e2 - E) ltac:(lia)). nia. }
  rewrite (pow2_split b E e2), Z.mul_assoc, <- Hm1 by lia.
  pose proof (pow2_pos (E - e) ltac:(lia)) as HpE.
  pose proof (pow2_pos (e - b) ltac:(lia)) as Hpe.
  destruct Hv as ([Hv0 Hv1] & Hve & _).
  assert (Hin : 0 ≤ inexact l ≤ 1) by (destruct l; simpl; lia).
  destruct (Z.le_gt_cases E ev) as [HEv|HEv].
  - rewrite (pow2_split b E ev), Z.mul_assoc in * by lia.
    set (V := mv * 2 ^ (ev - E)) in *.
    apply Z.mul_le_mono_nonneg_r; [pose proof (pow2_pos (E - b) ltac:(lia)); lia|].
    rewrite (pow2_split b e E), Z.mul_assoc in Hle by lia.
    apply Z.mul_le_mono_pos_r in Hle; [|done].
    destruct (decide (l = loc_Exact ∧ m mod 2 ^ (E - e) = 0)) as [[-> Hmod]|Hnot].
    + rewrite Hex by (done || lia). apply Z.div_le_upper_bound; [done|]. simpl in Hle. lia.
    + assert (Hlt : m < V * 2 ^ (E - e)).
      { destruct (decide (l = loc_Exact)) as [->|Hl].
        - simpl in Hle. destruct (Z.eq_dec m (V * 2 ^ (E - e))) as [Heq|]; [|lia].
          exfalso. apply Hnot. split; [done|]. rewrite Heq. apply Z.mod_mul. lia.
        - destruct l; [done|]. simpl in Hle. lia. }
      assert (m / 2 ^ (E - e) < V) by (apply Z.div_lt_upper_bound; lia). lia.
  - exfalso.
    assert (H52 : 2 ^ 52 * 2 ^ (E - e) ≤ m).
    { assert (Hm0 : 0 < m).
      { destruct (Z.eq_dec m 0) as [Hz|]; [|lia]. unfold E in HEv, He. rewrite Hz in *.
        rewrite fexp_eq in *. simpl in *. lia. }
      pose proof (Zdigits2_bound m Hm0) as [Hl _]. rewrite <- Z.pow_add_r by lia.
      etrans; [|exact Hl]. apply Z.pow_le_mono_r; [lia|].
      unfold E in *. rewrite fexp_eq in *. lia. }
    assert (HV : mv * 2 ^ (ev - b) < 2 ^ 52 * 2 ^ (E - b)).
    { rewrite (pow2_split b ev E) by lia. pose proof (pow2_pos (ev - b) ltac:(lia)).
      assert (2 ^ 1 ≤ 2 ^ (E - ev)) by (apply Z.pow_le_mono_r; lia). rewrite Z.mul_assoc.
      apply Z.mul_lt_mono_pos_r; [done|]. nia. }
    rewrite (pow2_split b e E), Z.mul_assoc in HV by lia. nia.
Qed.

Lemma round_ge : mv * 2 ^ (ev - b) ≤ m * 2 ^ (e - b) →
  ∃ m2 e2, pack s m2 e2 (binary_round_aux prec emax s m e l) ∧ -1074 ≤ e2 ∧
    mv * 2 ^ (ev - b) ≤ m2 * 2 ^ (e2 - b).
Proof.
  intros Hle.
  destruct (binary_round_aux_spec s m e l Hm He) as (m1 & m2 & e2 & Hlo & Hhi & Hex & Hm1 & HE & Hp).
  set (E := fexp prec emax (Zdigits2 m + e)) in *.
  assert (HEb : -1074 ≤ E) by (unfold E; rewrite fexp_eq; lia).
  exists m2, e2. split_and!; [done|lia|].
  rewrite (pow2_split b E e2), Z.mul_assoc, <- Hm1 by lia.
  pose proof (pow2_pos (E - e) ltac:(lia)) as HpE.
  pose proof (pow2_pos (e - b) ltac:(lia)) as Hpe.
  destruct Hv as ([Hv0 Hv1] & Hve & _).
  destruct (Z.le_gt_cases E ev) as [HEv|HEv].
  - rewrite (pow2_split b E ev), Z.mul_assoc in * by lia.
    apply Z.mul_le_mono_nonneg_r; [pose proof (pow2_pos (E - b) ltac:(lia)); lia|].
    rewrite (pow2_split b e E), Z.mul_assoc in Hle by lia.
    apply Z.mul_le_mono_pos_r in Hle; [|done].
    etrans; [|exact Hlo]. apply Z.div_le_lower_bound; lia.
  - assert (Hm1' : 2 ^ 52 ≤ m1).
    { etrans; [|exact Hlo]. apply Z.div_le_lower_bound; [done|].
      assert (Hm0 : 0 < m) by (pose proof (pow2_pos (ev - b) ltac:(lia)); nia).
      pose proof (Zdigits2_bound m Hm0) as [Hl _]. rewrite Z.mul_comm, <- Z.pow_add_r by lia.
      etrans; [|exact Hl]. apply Z.pow_le_mono_r; [lia|].
      unfold E in *. rewrite fexp_eq in *. lia. }
    rewrite (pow2_split b ev E) by lia. pose proof (pow2_pos (ev - b) ltac:(lia)).
    assert (2 ^ 1 ≤ 2 ^ (E - ev)) by (apply Z.pow_le_mono_r; lia). rewrite Z.mul_assoc.
    apply Z.mul_le_mono_pos_r; [done|]. nia.
Qed.
End Round.

Lemma pack_valid s m e r : pack s m e r → fvalid r.
Proof.
  intros [[_ ->]|[Hc ->]]; [done|]. destruct (Z.leb_spec e 971); [|done].
  unfold fvalid. rewrite valid_finite. destruct Hc as [[Hm ?] ?].
  rewrite Z2Pos.id by lia. done.
Qed.

(** A packed result below a finite bound is finite and has the packed value. *)
Lemma pack_bounded s m e r mv ev : pack s m e r → -1074 ≤ e → canon mv ev → ev ≤ 971 →
  m * 2 ^ (e + 1074) ≤ mv * 2 ^ (ev + 1074) →
  is_finite r = true ∧ fv r = cond_Zopp s (m * 2 ^ (e + 1074)).
Proof.
  intros Hp He Hv Hev Hle. destruct Hp as [[-> ->]|[Hc ->]]; [by destruct s|].
  destruct (Z.leb_spec e 971) as [|Hbig].
  - destruct Hc as [[Hm _] _]. simpl. by rewrite Z2Pos.id by lia.
  - exfalso. pose proof (canon_lt mv ev m e (-1074) Hv Hc ltac:(destruct Hv; lia) ltac:(lia)) as Hlt.
    replace (e + 1074) with (e - -1074) in Hle by lia.
    replace (ev + 1074) with (ev - -1074) in Hle by lia. lia.
Qed.

Lemma pack_finite s m e r : pack s m e r → is_finite r = true →
  fv r = cond_Zopp s (m * 2 ^ (e + 1074)).
Proof.
  intros [[-> ->]|[Hc ->]]; [by destruct s|].
  destruct (e <=? 971); [|done]. intros _. destruct Hc as [[Hm _] _]. simpl.
  by rewrite Z2Pos.id by lia.
Qed.

(** ** Alignment *)

Lemma pos_iter_xO m d : Zpos (Pos.iter xO m d) = Zpos m * 2 ^ Zpos d.
Proof.
  induction d as [|d IH] using Pos.peano_ind; [simpl; lia|].
  rewrite Pos.iter_succ, Pos2Z.inj_xO, IH, Pos2Z.inj_succ, Z.pow_succ_r by lia. lia.
Qed.

Lemma shl_align_spec m e e' :
  let '(mz, ez) := shl_align m e e' in ez = Z.min e e' ∧ Zpos mz = Zpos m * 2 ^ (e - ez).
Proof.
  unfold shl_align. destruct (e' - e) as [|d|d] eqn:E.
  - split; [lia|]. rewrite Z.sub_diag. simpl. lia.
  - split; [lia|]. rewrite Z.sub_diag. simpl. lia.
  - split; [lia|]. rewrite pos_iter_xO. do 2 f_equal. lia.
Qed.

Lemma Zdigits2_unique m d : 0 < d → 2 ^ (d - 1) ≤ m < 2 ^ d → Zdigits2 m = d.
Proof.
  intros Hd [Hl Hu]. assert (0 < 2 ^ (d - 1)) by (apply pow2_pos; lia).
  pose proof (Zdigits2_le m d ltac:(lia) ltac:(lia)).
  pose proof (Zdigits2_ge m (d - 1) ltac:(lia) ltac:(lia)). lia.
Qed.

Lemma Zdigits2_shift m k : 0 < m → 0 ≤ k → Zdigits2 (m * 2 ^ k) = Zdigits2 m + k.
Proof.
  intros Hm Hk. pose proof (Zdigits2_bound m Hm) as [Hl Hu]. pose proof (Zdigits2_pos m Hm).
  pose proof (pow2_pos k Hk). apply Zdigits2_unique; [lia|].
  replace (Zdigits2 m + k - 1) with (Zdigits2 m - 1 + k) by lia.
  rewrite !Z.pow_add_r by lia. nia.
Qed.

(** [binary_round] of an exact mantissa and exponent, at least the least exponent. *)
Lemma binary_round_aux_of s m e : -1074 ≤ e →
  ∃ mz ez, binary_round prec emax s m e = binary_round_aux prec emax s (Zpos mz) ez loc_Exact ∧
    -1074 ≤ ez ≤ e ∧ ez ≤ fexp prec emax (Zdigits2 (Zpos mz) + ez) ∧
    Zpos mz * 2 ^ (ez + 1074) = Zpos m * 2 ^ (e + 1074).
Proof.
  intros He. unfold binary_round.
  pose proof (shl_align_spec m e (fexp prec emax (Zpos (digits2_pos m) + e))) as H.
  destruct (shl_align _ _ _) as [mz ez]. destruct H as [Hez Hmz].
  rewrite fexp_eq in Hez. exists mz, ez. split_and!; [done|lia|lia| |].
  - rewrite Hmz, Zdigits2_shift, fexp_eq by lia. simpl Zdigits2. lia.
  - rewrite Hmz, <- Z.mul_assoc, <- Z.pow_add_r by lia. do 2 f_equal. lia.
Qed.

Lemma binary_normalize_valid n e z : -1074 ≤ e →
  fvalid (binary_normalize prec emax n e z) ∧ is_nan (binary_normalize prec emax n e z) = false.
Proof.
  intros He. destruct n as [|m|m]; [done| |].
  all: simpl; edestruct (binary_round_aux_of) as (mz & ez & -> & ? & ? & _); [done|].
  all: edestruct (binary_round_aux_spec) as (? & m2 & e2 & _ & _ & _ & _ & _ & Hp); [| |split; [by eapply pack_valid|]]; [lia|done|].
  all: destruct Hp as [[_ ->]|[_ ->]]; [done|by destruct (e2 <=? 971)].
Qed.

Lemma of_Z_valid n : fvalid (of_Z n).
Proof. apply binary_normalize_valid. lia. Qed.

Lemma of_Z_not_nan n : is_nan (of_Z n) = false.
Proof. apply binary_normalize_valid. lia. Qed.

Lemma fvalid_exp s m e : fvalid (S754_finite s m e) → -1074 ≤ e.
Proof. unfold fvalid. rewrite valid_finite. intros [(_ & ? & _) _]. done. Qed.

Lemma fadd_valid a b : fvalid a → fvalid b → fvalid (fadd a b).
Proof.
  destruct a as [[]|[]| |sa ma ea], b as [[]|[]| |sb mb eb]; try done.
  all: intros Ha%fvalid_exp Hb%fvalid_exp; simpl; apply binary_normalize_valid; lia.
Qed.

Lemma fsub_valid a b : fvalid a → fvalid b → fvalid (fsub a b).
Proof.
  destruct a as [[]|[]| |sa ma ea], b as [[]|[]| |[] mb eb]; try done.
  all: intros Ha%fvalid_exp Hb%fvalid_exp; simpl; apply binary_normalize_valid; lia.
Qed.

Lemma mul_aux_pre m1 e1 m2 e2 : canon (Zpos m1) e1 → canon (Zpos m2) e2 →
  e1 + e2 ≤ fexp prec emax (Zdigits2 (Zpos (m1 * m2)) + (e1 + e2)).
Proof.
  intros ([_ ?] & ? & Hn1) ([_ ?] & ? & Hn2). rewrite fexp_eq.
  destruct (Z.le_gt_cases (e1 + e2) (-1074)); [lia|].
  assert (2 ^ 52 ≤ Zpos m1 ∨ 2 ^ 52 ≤ Zpos m2) by lia.
  assert (H52 : 2 ^ 52 ≤ Zpos (m1 * m2)) by (rewrite Pos2Z.inj_mul; nia).
  pose proof (Zdigits2_ge _ 52 ltac:(lia) H52). lia.
Qed.

Lemma fmul_valid a b : fvalid a → fvalid b → fvalid (fmul a b).
Proof.
  unfold fvalid. destruct a as [[]|[]| |sa ma ea], b as [[]|[]| |sb mb eb]; try done.
  rewrite !valid_finite. intros [Ha _] [Hb _]. unfold fmul, SFmul.
  edestruct (binary_round_aux_spec (xorb sa sb) (Zpos (ma * mb)) (ea + eb) loc_Exact)
    as (? & m2 & e2 & _ & _ & _ & _ & _ & Hp); [lia|by apply mul_aux_pre|].
  exact (pack_valid _ _ _ _ Hp).
Qed.

(** The quotient of two mantissas keeps 53 significant bits, or is at the least
    exponent. *)
Lemma div_core_spec m1 e1 m2 e2 :
  let '(q, e', l) := SFdiv_core_binary prec emax (Zpos m1) e1 (Zpos m2) e2 in
  0 ≤ q ∧ e' ≤ e1 - e2 ∧ e' ≤ fexp prec emax (Zdigits2 q + e') ∧
  q = Zpos m1 * 2 ^ (e1 - e2 - e') / Zpos m2 ∧
  (inexact l = if (Zpos m1 * 2 ^ (e1 - e2 - e')) mod Zpos m2 =? 0 then 0 else 1).
Proof.
  unfold SFdiv_core_binary.
  set (d1 := Zdigits2 (Zpos m1)). set (d2 := Zdigits2 (Zpos m2)).
  set (e' := Z.min (fexp prec emax (d1 + e1 - (d2 + e2))) (e1 - e2)).
  assert (Hs : 0 ≤ e1 - e2 - e') by lia.
  replace (match e1 - e2 - e' with
           | 0 => Zpos m1 | Zpos _ => Z.shiftl (Zpos m1) (e1 - e2 - e') | Zneg _ => 0 end)
    with (Zpos m1 * 2 ^ (e1 - e2 - e')).
  2:{ rewrite <- Z.shiftl_mul_pow2 by done.
      destruct (e1 - e2 - e') as [|p|p]; [by rewrite Z.shiftl_0_r|done|lia]. }
  set (M := Zpos m1 * 2 ^ (e1 - e2 - e')).
  assert (HM : 0 ≤ M) by (pose proof (pow2_pos _ Hs); nia).
  pose proof (Z_div_mod M (Zpos m2) ltac:(lia)) as Hdm.
  destruct (Z.div_eucl M (Zpos m2)) as [q r] eqn:Eq. cbv beta iota. fold M.
  unfold Z.div, Z.modulo. rewrite Eq.
  destruct Hdm as [Hdm Hr]. assert (Hq : 0 ≤ q) by nia.
  split_and!; [done|lia| |done|].
  - rewrite fexp_eq. destruct (Z.le_gt_cases e' (-1074)); [lia|].
    assert (H52 : 2 ^ 52 ≤ q).
    { pose proof (Zdigits2_bound (Zpos m1) ltac:(lia)) as [Hl _].
      pose proof (Zdigits2_bound (Zpos m2) ltac:(lia)) as [_ Hu]. fold d1 in Hl. fold d2 in Hu.
      pose proof (Zdigits2_pos (Zpos m1) ltac:(lia)) as Hd1. fold d1 in Hd1.
      pose proof (Zdigits2_pos (Zpos m2) ltac:(lia)) as Hd2. fold d2 in Hd2.
      assert (Hbig : 2 ^ (52 + d2) ≤ M).
      { unfold M. etrans; [|apply Z.mul_le_mono_nonneg_r; [pose proof (pow2_pos _ Hs); lia|exact Hl]].
        rewrite <- Z.pow_add_r by lia. apply Z.pow_le_mono_r; [lia|].
        unfold e' in *. rewrite fexp_eq in *. lia. }
      rewrite Z.pow_add_r in Hbig by lia. nia. }
    pose proof (Zdigits2_ge q 52 ltac:(lia) H52). lia.
  - unfold new_location, new_location_even, new_location_odd.
    destruct (Z.even (Zpos m2)), (r =? 0); done.
Qed.

(** The quotient of any two mantissas is rounded to a binary64 value. *)
Lemma div_exact_valid sa ma ea sb mb eb :
  fvalid (fdiv (S754_finite sa ma ea) (S754_finite sb mb eb)).
Proof.
  unfold fdiv, SFdiv. pose proof (div_core_spec ma ea mb eb) as H.
  destruct (SFdiv_core_binary _ _ _ _ _ _) as [[q e'] l]. destruct H as (? & ? & ? & _).
  edestruct (binary_round_aux_spec (xorb sa sb) q e' l)
    as (? & m2 & e2 & _ & _ & _ & _ & _ & Hp); [done|done|].
  exact (pack_valid _ _ _ _ Hp).
Qed.

Lemma fdiv_valid a b : fvalid a → fvalid b → fvalid (fdiv a b).
Proof.
  unfold fvalid. destruct a as [[]|[]| |sa ma ea], b as [[]|[]| |sb mb eb]; try done.
  intros _ _. apply div_exact_valid.
Qed.

Create HintDb f64.
#[export] Hint Resolve fadd_valid fsub_valid fmul_valid fdiv_valid of_Z_valid of_Z_not_nan : f64.

Lemma flt_fv a b : fvalid a → fvalid b → is_finite a = true → is_finite b = true →
  flt a b = true ↔ fv a < fv b.
Proof.
  intros. unfold flt, SFltb. rewrite fcompare_fv by done.
  destruct (Z.compare_spec (fv a) (fv b)); split; done || lia.
Qed.

Lemma fle_fv a b : fvalid a → fvalid b → is_finite a = true → is_finite b = true →
  fle a b = true ↔ fv a ≤ fv b.
Proof.
  intros. unfold fle, SFleb. rewrite fcompare_fv by done.
  destruct (Z.compare_spec (fv a) (fv b)); split; done || lia.
Qed.

(** ** Non-negative floats: valid, not NaN, not below zero *)

Definition fnn (x : f64) : Prop :=
  fvalid x ∧ match x with
             | S754_zero _ => True
             | S754_infinity s | S754_finite s _ _ => s = false
             | S754_nan => False
             end.

Lemma fnn_valid x : fnn x → fvalid x.
Proof. by intros [? _]. Qed.

Lemma fnn_not_nan x : fnn x → is_nan x = false.
Proof. intros [_ H]. by destruct x. Qed.

Lemma fnn_fv x : fnn x → 0 ≤ fv x.
Proof.
  intros [Hv Hx]. destruct x as [| | |s m e]; simpl; try lia. subst s.
  apply fvalid_exp in Hv. pose proof (pow2_pos (e + 1074) ltac:(lia)). simpl. lia.
Qed.

(** The guard of the code, [x < 0.0] false and [x] not NaN. *)
Lemma fnn_guard x : fvalid x → is_nan x = false → flt x f0 = false → fnn x.
Proof. intros Hv Hn Hf. split; [done|]. destruct x as [|[]| |[] m e]; done. Qed.

Lemma fnn_not_neg x : fnn x → flt x f0 = false.
Proof. intros [_ H]. destruct x as [|[]| |[] m e]; done. Qed.

Lemma fnn_le x : fnn x → fle f0 x = true.
Proof. intros [_ H]. destruct x as [|[]| |[] m e]; done. Qed.

Lemma fnn_max0 x : fvalid x → fnn (fmax x f0).
Proof.
  intros Hv. unfold fmax. destruct (is_nan x) eqn:Hn; [done|].
  destruct (flt x f0) eqn:Hf; [done|]. by apply fnn_guard.
Qed.

Lemma pack_fnn m e r : pack false m e r → fnn r.
Proof.
  intros Hp. split; [by eapply pack_valid|].
  destruct Hp as [[_ ->]|[_ ->]]; [done|]. by destruct (e <=? 971).
Qed.

(** The sum of two positive finite floats, before rounding. *)
Lemma fadd_pos_aux ma ea mb eb :
  -1074 ≤ ea → -1074 ≤ eb →
  ∃ mz ez, fadd (S754_finite false ma ea) (S754_finite false mb eb)
           = binary_round_aux prec emax false (Zpos mz) ez loc_Exact ∧
    -1074 ≤ ez ∧ ez ≤ fexp prec emax (Zdigits2 (Zpos mz) + ez) ∧
    Zpos mz * 2 ^ (ez + 1074) = fv (S754_finite false ma ea) + fv (S754_finite false mb eb).
Proof.
  intros Ha Hb. unfold fadd, SFadd.
  pose proof (shl_align_spec ma ea (Z.min ea eb)) as H1.
  pose proof (shl_align_spec mb eb (Z.min ea eb)) as H2.
  destruct (shl_align ma ea _) as [m1 e1], (shl_align mb eb _) as [m2 e2].
  destruct H1 as [He1 Hm1], H2 as [He2 Hm2]. simpl cond_Zopp. simpl fst.
  change (Zpos m1 + Zpos m2) with (Zpos (m1 + m2)). unfold binary_normalize.
  destruct (binary_round_aux_of false (m1 + m2) (Z.min ea eb)) as (mz & ez & -> & ? & ? & Heq); [lia|].
  exists mz, ez. split_and!; [done|lia|done|]. rewrite Heq, Pos2Z.inj_add, Hm1, Hm2. simpl fv.
  rewrite Z.mul_add_distr_r, <- !Z.mul_assoc, <- !Z.pow_add_r by lia.
  do 2 f_equal; f_equal; lia.
Qed.

Lemma fadd_fnn a b : fnn a → fnn b → fnn (fadd a b).
Proof.
  intros [Va Sa] [Vb Sb].
  destruct a as [sa|sa| |sa ma ea], b as [sb|sb| |sb mb eb]; try done; subst;
    try (by destruct sa, sb); try (split; [exact Va|done]); try (split; [exact Vb|done]).
  apply fvalid_exp in Va, Vb.
  destruct (fadd_pos_aux ma ea mb eb Va Vb) as (mz & ez & -> & ? & Hpre & _).
  edestruct (binary_round_aux_spec false (Zpos mz) ez loc_Exact)
    as (? & m2 & e2 & _ & _ & _ & _ & _ & Hp); [lia|done|]. by eapply pack_fnn.
Qed.

(** A finite sum of non-negative floats is at least each of its summands. *)
Lemma fadd_ge a b : fnn a → fnn b → is_finite (fadd a b) = true →
  is_finite a = true ∧ is_finite b = true ∧ fv a ≤ fv (fadd a b) ∧ fv b ≤ fv (fadd a b).
Proof.
  intros Ha Hb Hf. pose proof (fnn_fv _ Ha). pose proof (fnn_fv _ Hb).
  destruct Ha as [Va Sa], Hb as [Vb Sb].
  destruct a as [sa|sa| |sa ma ea], b as [sb|sb| |sb mb eb]; try done; subst;
    try (by destruct sa, sb); try (split_and!; [done..|simpl in *; lia|simpl in *; lia]).
  pose proof (fvalid_exp _ _ _ Va) as Ea. pose proof (fvalid_exp _ _ _ Vb) as Eb.
  destruct (fadd_pos_aux ma ea mb eb Ea Eb) as (mz & ez & Hadd & ? & Hpre & Heq).
  unfold fvalid in Va, Vb. rewrite valid_finite in Va, Vb.
  rewrite Hadd in Hf |- *.
  assert (Hge : ∀ m e, canon (Zpos m) e → Zpos m * 2 ^ (e + 1074) ≤ Zpos mz * 2 ^ (ez + 1074) →
    Zpos m * 2 ^ (e + 1074) ≤ fv (binary_round_aux prec emax false (Zpos mz) ez loc_Exact)).
  { intros m e Hc Hle. edestruct (round_ge false (Zpos mz) ez loc_Exact) with (b := -1074)
      as (m2 & e2 & Hp & _ & Hres); [lia|done|exact Hc|lia|lia|exact Hle|].
    rewrite (pack_finite _ _ _ _ Hp Hf). exact Hres. }
  split_and!; [done|done| |].
  - apply Hge; [apply Va|]. simpl fv in *. lia.
  - apply Hge; [apply Vb|]. simpl fv in *. lia.
Qed.

Lemma fmul_fnn a b : fnn a → fnn b → is_finite a = true → is_finite b = true → fnn (fmul a b).
Proof.
  intros [Va Sa] [Vb Sb] Fa Fb. pose proof (fmul_valid _ _ Va Vb) as V.
  destruct a as [sa|sa| |sa ma ea], b as [sb|sb| |sb mb eb]; try done; subst.
  unfold fvalid in Va, Vb. rewrite valid_finite in Va, Vb. unfold fmul, SFmul in *.
  edestruct (binary_round_aux_spec (xorb false false) (Zpos (ma * mb)) (ea + eb) loc_Exact)
    as (? & m2 & e2 & _ & _ & _ & _ & _ & Hp); [lia|apply mul_aux_pre; [apply Va|apply Vb]|]. by eapply pack_fnn.
Qed.

Lemma rebase_le m e n f b : b ≤ -1074 → -1074 ≤ e → -1074 ≤ f →
  m * 2 ^ (e - b) ≤ n * 2 ^ (f - b) ↔ m * 2 ^ (e + 1074) ≤ n * 2 ^ (f + 1074).
Proof.
  intros Hb He Hf. rewrite (pow2_split b (-1074) e), (pow2_split b (-1074) f), !Z.mul_assoc by lia.
  replace (e - -1074) with (e + 1074) by lia. replace (f - -1074) with (f + 1074) by lia.
  symmetry. apply Z.mul_le_mono_pos_r. apply pow2_pos. lia.
Qed.

(** The quotient of two positive finite floats rounds to at most a power of two
    [2^k] (in the range of normal numbers) that bounds it. *)
Lemma fdiv_pos_le ma ea mb eb :
  canon (Zpos ma) ea → canon (Zpos mb) eb →
  Zpos ma * 2 ^ (ea + 1074) ≤ Zpos mb * 2 ^ (eb + 1074) →
  let r := fdiv (S754_finite false ma ea) (S754_finite false mb eb) in
  fnn r ∧ is_finite r = true ∧ fv r ≤ fv f1.
Proof.
  intros Ca Cb Hle. cbv zeta. unfold fdiv, SFdiv.
  pose proof (div_core_spec ma ea mb eb) as H.
  destruct (SFdiv_core_binary _ _ _ _ _ _) as [[q e'] l].
  destruct H as (Hq & He' & Hpre & Hqe & Hin).
  assert (Hea : ea ≤ eb).
  { destruct (Z.le_gt_cases ea eb); [done|].
    pose proof (canon_lt _ _ _ _ (-1074) Cb Ca ltac:(destruct Cb; lia) ltac:(lia)) as Hlt.
    replace (ea + 1074) with (ea - -1074) in Hle by lia.
    replace (eb + 1074) with (eb - -1074) in Hle by lia. lia. }
  set (M := Zpos ma * 2 ^ (ea - eb - e')) in *.
  assert (HM : M ≤ Zpos mb * 2 ^ (- e')).
  { pose proof Ca as (_ & ? & _). pose proof Cb as (_ & ? & _).
    apply (Z.mul_le_mono_pos_r _ _ (2 ^ (eb + 1074))); [apply pow2_pos; lia|].
    unfold M. rewrite <- !Z.mul_assoc, <- !Z.pow_add_r by lia.
    replace (ea - eb - e' + (eb + 1074)) with ((- e') + (ea + 1074)) by lia.
    rewrite !(Z.pow_add_r 2 (- e')), !(Z.mul_comm (2 ^ (- e'))), !Z.mul_assoc by lia.
    apply Z.mul_le_mono_nonneg_r; [|done]. pose proof (pow2_pos (- e') ltac:(lia)). lia. }
  assert (Hceil : q + inexact l ≤ 2 ^ (- e')).
  { rewrite Hin, Hqe. pose proof (Z.div_mod M (Zpos mb) ltac:(lia)).
    pose proof (Z.mod_pos_bound M (Zpos mb) ltac:(lia)).
    destruct (Z.eqb_spec (M mod Zpos mb) 0); nia. }
  set (b := Z.min e' (-1074)).
  edestruct (round_le (xorb false false) q e' l) with (b := b) (mv := 2 ^ 52) (ev := -52)
    as (m2 & e2 & Hp & He2 & Hm2 & Hres); [done|done|unfold canon; lia|lia|lia| |].
  { rewrite <- Z.pow_add_r by lia.
    replace (52 + (-52 - b)) with (- e' + (e' - b)) by lia. rewrite Z.pow_add_r by lia.
    apply Z.mul_le_mono_nonneg_r; [|done]. pose proof (pow2_pos (e' - b) ltac:(lia)). lia. }
  rewrite rebase_le in Hres by lia.
  destruct (pack_bounded _ _ _ _ (2 ^ 52) (-52) Hp) as [Hf Hv]; [lia|unfold canon; lia|lia|done|].
  split_and!; [by eapply pack_fnn|done|]. rewrite Hv. simpl xorb. simpl cond_Zopp.
  etrans; [exact Hres|]. done.
Qed.

(** Normalisation by a total that bounds the summand lands in the unit interval. *)
Lemma fdiv_unit a b : fnn a → fnn b → is_finite a = true → is_finite b = true →
  fv a ≤ fv b → 0 < fv b →
  fnn (fdiv a b) ∧ is_finite (fdiv a b) = true ∧ fle (fdiv a b) f1 = true.
Proof.
  intros [Va Sa] [Vb Sb] Fa Fb Hle Hpos.
  destruct b as [sb|sb| |sb mb eb]; try done. subst sb.
  destruct a as [sa|sa| |sa ma ea]; try done; subst.
  assert (Ca := Va). assert (Cb := Vb). unfold fvalid in Ca, Cb.
  rewrite valid_finite in Ca, Cb.
  destruct (fdiv_pos_le ma ea mb eb (proj1 Ca) (proj1 Cb) Hle) as (H1 & H2 & H3).
  split_and!; [done|done|]. apply fle_fv; [apply H1|done|done|done|done].
Qed.

(** ** Integers below 2^53 are exact *)

Lemma canon_of_Z n : 0 < n < 2 ^ 53 → ∃ m e, canon m e ∧ -52 ≤ e ≤ 0 ∧ m = n * 2 ^ (- e).
Proof.
  intros Hn. pose proof (Zdigits2_bound n ltac:(lia)) as [Hl Hu].
  pose proof (Zdigits2_pos n ltac:(lia)). pose proof (Zdigits2_le n 53 ltac:(lia) ltac:(lia)).
  exists (n * 2 ^ (53 - Zdigits2 n)), (Zdigits2 n - 53).
  assert (H1 : 2 ^ 53 = 2 ^ Zdigits2 n * 2 ^ (53 - Zdigits2 n))
    by (rewrite <- Z.pow_add_r by lia; f_equal; lia).
  assert (H2 : 2 ^ 52 = 2 ^ (Zdigits2 n - 1) * 2 ^ (53 - Zdigits2 n))
    by (rewrite <- Z.pow_add_r by lia; f_equal; lia).
  pose proof (pow2_pos (53 - Zdigits2 n) ltac:(lia)). split_and!; [|lia|lia|].
  - unfold canon. split_and!; [nia|rewrite H1; nia|lia|]. intros _. rewrite H2. nia.
  - do 2 f_equal. lia.
Qed.

Lemma of_Z_exact n : 0 ≤ n < 2 ^ 53 →
  fnn (of_Z n) ∧ is_finite (of_Z n) = true ∧ fv (of_Z n) = n * 2 ^ 1074.
Proof.
  intros [H0 Hn]. destruct n as [|p|p]; [done| |lia].
  unfold of_Z, binary_normalize.
  destruct (binary_round_aux_of false p 0 ltac:(lia)) as (mz & ez & -> & He & Hpre & Heq).
  rewrite Z.add_0_l in Heq.
  destruct (canon_of_Z (Zpos p) ltac:(lia)) as (m & e & Hc & Hee & Hme).
  assert (Hval : m * 2 ^ (e + 1074) = Zpos p * 2 ^ 1074).
  { rewrite Hme, <- Z.mul_assoc, <- Z.pow_add_r by lia. do 2 f_equal. lia. }
  edestruct (round_le false (Zpos mz) ez loc_Exact) with (b := -1074)
    as (m2 & e2 & Hp & ? & ? & Hle); [lia|done|exact Hc|lia|lia| |].
  { simpl inexact. rewrite Z.add_0_r. replace (ez - -1074) with (ez + 1074) by lia.
    replace (e - -1074) with (e + 1074) by lia. lia. }
  rewrite rebase_le in Hle by lia.
  destruct (pack_bounded _ _ _ _ m e Hp) as [Hf Hv]; [lia|done|lia|done|].
  edestruct (round_ge false (Zpos mz) ez loc_Exact) with (b := -1074)
    as (m3 & e3 & Hp' & ? & Hge); [lia|done|exact Hc|lia|lia| |].
  { replace (ez - -1074) with (ez + 1074) by lia.
    replace (e - -1074) with (e + 1074) by lia. lia. }
  rewrite rebase_le in Hge by lia. pose proof (pack_finite _ _ _ _ Hp' Hf) as Hv'.
  simpl cond_Zopp in *. split_and!; [by eapply pack_fnn|done|lia].
Qed.

(** ** The order, infinities included *)

Lemma partial_cmp_swap a b : partial_cmp b a = CompOpp <$> partial_cmp a b.
Proof.
  destruct a as [[]|[]| |[] ma ea], b as [[]|[]| |[] mb eb]; try done;
    unfold partial_cmp, SFcompare; simpl; f_equal;
    rewrite (Z.compare_antisym ea eb); destruct (ea ?= eb); simpl; try done;
    change (Pos.compare_cont Eq) with Pos.compare; by rewrite (Pos.compare_antisym ma mb).
Qed.

Lemma partial_cmp_refl a : is_nan a = false → partial_cmp a a = Some Eq.
Proof.
  destruct a as [[]|[]| |[] m e]; try done; intros _; unfold partial_cmp; simpl;
    rewrite Z.compare_refl; change (Pos.compare_cont Eq) with Pos.compare; by rewrite Pos.compare_refl.
Qed.

Lemma partial_cmp_Some a b : is_nan a = false → is_nan b = false → is_Some (partial_cmp a b).
Proof. destruct a, b; done || eauto. Qed.

Lemma partial_cmp_not_nan a b c : partial_cmp a b = Some c → is_nan a = false ∧ is_nan b = false.
Proof. destruct a as [[]|[]| |], b as [[]|[]| |]; done. Qed.

Lemma flt_not_nan a b : flt a b = true → is_nan a = false ∧ is_nan b = false.
Proof.
  unfold flt, SFltb. destruct (SFcompare a b) eqn:E; [|done].
  intros _. by eapply partial_cmp_not_nan.
Qed.

Lemma fle_not_nan a b : fle a b = true → is_nan a = false ∧ is_nan b = false.
Proof.
  unfold fle, SFleb. destruct (SFcompare a b) eqn:E; [|done].
  intros _. by eapply partial_cmp_not_nan.
Qed.

Lemma fle_refl a : is_nan a = false → fle a a = true.
Proof. intros Ha. unfold fle, SFleb. pose proof (partial_cmp_refl a Ha) as H. unfold partial_cmp in H. by rewrite H. Qed.

Lemma flt_total a b : is_nan a = false → is_nan b = false → fle b a = negb (flt a b).
Proof.
  intros Ha Hb. unfold fle, flt, SFleb, SFltb.
  pose proof (partial_cmp_swap a b) as Hs. destruct (partial_cmp_Some a b Ha Hb) as [c Hc].
  unfold partial_cmp in *. rewrite Hs, Hc. by destruct c.
Qed.

Lemma flt_le a b : flt a b = true → fle a b = true.
Proof. unfold flt, fle, SFltb, SFleb. by destruct (SFcompare a b) as [[]|]. Qed.

(** An order key in [Z]: the value, with the infinities beyond every finite one. *)
Definition inf_key : Z := 2 ^ 2100.
Definition fkey (x : f64) : Z :=
  match x with
  | S754_infinity s => cond_Zopp s inf_key
  | _ => fv x
  end.

Lemma fv_bound x : fvalid x → Z.abs (fv x) < inf_key.
Proof.
  unfold inf_key. destruct x as [| | |s m e]; try (simpl; lia). unfold fvalid. rewrite valid_finite.
  intros [([_ Hm] & He & _) He']. simpl fv.
  assert (Hb : Zpos m * 2 ^ (e + 1074) < 2 ^ 2100).
  { assert (2 ^ (e + 1074) ≤ 2 ^ 2045) by (apply Z.pow_le_mono_r; lia).
    pose proof (pow2_pos (e + 1074) ltac:(lia)).
    replace (2 ^ 2100) with (2 ^ 55 * 2 ^ 2045) by (by rewrite <- Z.pow_add_r). nia. }
  pose proof (pow2_pos (e + 1074) ltac:(lia)). destruct s; simpl; lia.
Qed.

Lemma partial_cmp_key a b : fvalid a → fvalid b → is_nan a = false → is_nan b = false →
  partial_cmp a b = Some (fkey a ?= fkey b).
Proof.
  intros Va Vb Na Nb.
  destruct (is_finite a) eqn:Fa, (is_finite b) eqn:Fb.
  - unfold partial_cmp. rewrite fcompare_fv by done. by destruct a, b.
  - pose proof (fv_bound a Va). destruct b as [|[]| |]; try done;
      destruct a; try done; cbn [partial_cmp SFcompare fkey cond_Zopp]; f_equal; symmetry;
      (apply Z.compare_lt_iff || apply Z.compare_gt_iff); cbn [fv] in *; lia.
  - pose proof (fv_bound b Vb). destruct a as [|[]| |]; try done;
      destruct b; try done; cbn [partial_cmp SFcompare fkey cond_Zopp]; f_equal; symmetry;
      (apply Z.compare_lt_iff || apply Z.compare_gt_iff); cbn [fv] in *; lia.
  - destruct a as [|[]| |], b as [|[]| |]; try done.
Qed.

Lemma fle_key a b : fvalid a → fvalid b → is_nan a = false → is_nan b = false →
  fle a b = (fkey a <=? fkey b).
Proof.
  intros Va Vb Na Nb. unfold fle, SFleb, Z.leb.
  pose proof (partial_cmp_key a b Va Vb Na Nb) as H. unfold partial_cmp in H. rewrite H.
  by destruct (fkey a ?= fkey b).
Qed.

Lemma flt_key a b : fvalid a → fvalid b → is_nan a = false → is_nan b = false →
  flt a b = (fkey a <? fkey b).
Proof.
  intros Va Vb Na Nb. unfold flt, SFltb, Z.ltb.
  pose proof (partial_cmp_key a b Va Vb Na Nb) as H. unfold partial_cmp in H. rewrite H.
  by destruct (fkey a ?= fkey b).
Qed.

(** [clamp] returns a value of the interval, or panics on an empty one. *)
Lemma clamp_bounds {E} x lo hi (r : f64) : is_nan x = false →
  clamp (E := E) x lo hi = Ok r → fle lo r = true ∧ fle r hi = true.
Proof.
  intros Hx. unfold clamp. destruct (fle lo hi) eqn:Hlh; [|done].
  destruct (fle_not_nan _ _ Hlh) as [Hl Hh].
  pose proof (flt_total hi lo Hh Hl) as Ht. rewrite Hlh in Ht.
  destruct (flt x lo) eqn:Hxl; intros [= <-].
  - destruct (flt hi lo); [done|]. split; [by apply fle_refl|done].
  - destruct (flt hi x) eqn:Hhx; [split; [done|by apply fle_refl]|].
    split; [by rewrite (flt_total x lo), Hxl|by rewrite (flt_total hi x), Hhx].
Qed.

Lemma clamp_ok {E} x lo hi : fle lo hi = true → ∃ r, clamp (E := E) x lo hi = Ok r.
Proof. unfold clamp. intros ->. eauto. Qed.

(** ** Sums and the unit interval *)

Definition in_unit (x : f64) : Prop := fnn x ∧ is_finite x = true ∧ fle x f1 = true.

Lemma fold_fadd_fnn l acc : fnn acc → Forall fnn l → fnn (foldl fadd acc l).
Proof.
  revert acc. induction l as [|x l IH]; intros acc Ha HF; simpl; [done|].
  apply Forall_cons in HF as [Hx HF]. apply IH; [by apply fadd_fnn|done].
Qed.

(** A finite sum of non-negative floats bounds its start and each of its terms. *)
Lemma fold_fadd_ge l acc : fnn acc → Forall fnn l →
  is_finite (foldl fadd acc l) = true →
  (is_finite acc = true ∧ fv acc ≤ fv (foldl fadd acc l)) ∧
  Forall (λ x, is_finite x = true ∧ fv x ≤ fv (foldl fadd acc l)) l.
Proof.
  revert acc. induction l as [|x l IH]; intros acc Ha HF Hf; simpl in *.
  { split; [split; [done|lia]|constructor]. }
  apply Forall_cons in HF as [Hx HF].
  destruct (IH (fadd acc x) (fadd_fnn _ _ Ha Hx) HF Hf) as [[Hfa Hle] HF'].
  destruct (fadd_ge acc x Ha Hx Hfa) as (? & ? & ? & ?).
  split; [split; [done|lia]|]. constructor; [split; [done|lia]|done].
Qed.

Lemma fdiv_inf a : fnn a → is_finite a = true → in_unit (fdiv a f_inf).
Proof. intros [Va Sa] Fa. destruct a as [[]| | |[]]; try done; repeat split; done. Qed.

(** Dividing a term by the (possibly overflowing) positive total. *)
Lemma fdiv_total a t : fnn a → fnn t → is_finite a = true →
  (is_finite t = true → fv a ≤ fv t ∧ 0 < fv t) → in_unit (fdiv a t).
Proof.
  intros Ha Ht Fa H. destruct (is_finite t) eqn:Ft.
  - destruct (H eq_refl). by apply fdiv_unit.
  - destruct Ht as [Vt St]. destruct t as [|[]| |]; try done. by apply fdiv_inf.
Qed.

Lemma fgt0_fv x : fvalid x → is_finite x = true → flt f0 x = true → 0 < fv x.
Proof. intros V F H. by apply flt_fv in H. Qed.

Lemma f1_fnn : fnn f1. Proof. done. Qed.
Lemma f0_fnn : fnn f0. Proof. done. Qed.
Lemma fneg0_fnn : fnn fneg0. Proof. done. Qed.
#[export] Hint Resolve f1_fnn f0_fnn fneg0_fnn fadd_fnn fnn_valid fnn_not_nan fold_fadd_fnn fnn_max0 : f64.

(** [1.0 / n as f64] for a positive [n] below [2^53]. *)
Lemma recip_unit n : (0 < n < 2 ^ 53)%Z → in_unit (fdiv f1 (of_Z n)).
Proof.
  intros Hn. destruct (of_Z_exact n ltac:(lia)) as (Hf & Hfin & Hv).
  assert (fv f1 = 1 * 2 ^ 1074) as H1 by done. pose proof (pow2_pos 1074 ltac:(lia)).
  apply fdiv_unit; [done|done|done|done| |]; rewrite ?H1, ?Hv; nia.
Qed.

(** ** When an operation does not produce NaN *)

Lemma shr_fexp_nonneg m e l : 0 ≤ m → 0 ≤ shr_m (fst (shr_fexp prec emax m e l)).
Proof.
  intros Hm. pose proof (shr_fexp_spec m e l Hm) as H. cbv zeta in H.
  destruct (shr_fexp _ _ _ _ _) as [mrs e']. destruct H as (_ & H & _). cbn [fst]. rewrite H.
  apply Z.div_pos; [done|]. apply pow2_pos. lia.
Qed.

Lemma binary_round_aux_not_nan s m e l : 0 ≤ m → is_nan (binary_round_aux prec emax s m e l) = false.
Proof.
  intros Hm. unfold binary_round_aux. pose proof (shr_fexp_nonneg m e l Hm) as H1.
  destruct (shr_fexp prec emax m e l) as [mrs e'].
  pose proof (round_nearest_even_bounds (shr_m mrs) (loc_of_shr_record mrs)).
  pose proof (shr_fexp_nonneg (round_nearest_even (shr_m mrs) (loc_of_shr_record mrs)) e' loc_Exact
                ltac:(simpl in *; lia)) as H2.
  destruct (shr_fexp prec emax (round_nearest_even _ _) e' loc_Exact) as [mrs' e''].
  simpl in H2. destruct (shr_m mrs'); [done| |lia]. by destruct (_ <=? _).
Qed.

Lemma binary_normalize_not_nan n e z : is_nan (binary_normalize prec emax n e z) = false.
Proof.
  destruct n as [|m|m]; [done|..]; unfold binary_normalize, binary_round;
    destruct (shl_align _ _ _); by apply binary_round_aux_not_nan.
Qed.

Lemma fadd_not_nan a b : is_finite a = true → is_nan b = false → is_nan (fadd a b) = false.
Proof.
  intros Fa Nb. destruct a as [[]| | |], b as [[]|[]| |]; try done. apply binary_normalize_not_nan.
Qed.

Lemma fsub_not_nan a b : is_finite a = true → is_nan b = false → is_nan (fsub a b) = false.
Proof.
  intros Fa Nb. destruct a as [[]| | |], b as [[]|[]| |]; try done. apply binary_normalize_not_nan.
Qed.

Lemma fmul_not_nan a b : is_finite a = true → is_finite b = true → is_nan (fmul a b) = false.
Proof.
  intros Fa Fb. destruct a as [[]| | |], b as [[]| | |]; try done.
  unfold fmul, SFmul. by apply binary_round_aux_not_nan.
Qed.

(** ** Differences of non-negative floats stay finite *)

Lemma binary_normalize_bounded n e z mv ev : -1074 ≤ e → canon mv ev → ev ≤ 971 →
  Z.abs n * 2 ^ (e + 1074) ≤ mv * 2 ^ (ev + 1074) →
  is_finite (binary_normalize prec emax n e z) = true.
Proof.
  intros He Hc Hev Hle. destruct n as [|m|m]; [done|..]; unfold binary_normalize.
  all: edestruct binary_round_aux_of as (mz & ez & -> & Hez & Hpre & Heq); [exact He|].
  all: edestruct (round_le) with (b := -1074) (mv := mv) (ev := ev) (l := loc_Exact)
      as (m2 & e2 & Hp & He2 & Hm2 & Hres);
      [|exact Hpre|exact Hc|..]; [lia|lia|lia| |].
  1,3: replace (ez - -1074) with (ez + 1074) by lia;
       replace (ev - -1074) with (ev + 1074) by lia; simpl inexact; rewrite Z.add_0_r, Heq;
       simpl Z.abs in Hle; lia.
  all: rewrite rebase_le in Hres by (destruct Hc; lia);
       edestruct (pack_bounded _ _ _ _ mv ev Hp) as [Hf _]; [lia|done|done|exact Hres|done].
Qed.

Lemma fsub_fin a b : fnn a → fnn b → is_finite a = true → is_finite b = true →
  is_finite (fsub a b) = true.
Proof.
  intros [Va Sa] [Vb Sb] Fa Fb.
  destruct a as [sa|sa| |sa ma ea], b as [sb|sb| |sb mb eb]; try done; subst;
    try (by destruct sa, sb); try (by destruct sa); try (by destruct sb).
  pose proof (fvalid_exp _ _ _ Va) as Ea. pose proof (fvalid_exp _ _ _ Vb) as Eb.
  unfold fvalid in Va, Vb. rewrite valid_finite in Va, Vb. destruct Va as [Ca ?], Vb as [Cb ?].
  unfold fsub, SFsub.
  pose proof (shl_align_spec ma ea (Z.min ea eb)) as H1.
  pose proof (shl_align_spec mb eb (Z.min ea eb)) as H2.
  destruct (shl_align ma ea _) as [m1 e1], (shl_align mb eb _) as [m2 e2].
  destruct H1 as [He1 Hm1], H2 as [He2 Hm2]. simpl cond_Zopp. cbn [fst].
  assert (Hv : ∀ m m' e', Z.min ea eb ≤ e' → Zpos m' = Zpos m * 2 ^ (e' - Z.min ea eb) →
    Zpos m' * 2 ^ (Z.min ea eb + 1074) = Zpos m * 2 ^ (e' + 1074)).
  { intros m m' e' Hle ->. rewrite <-Z.mul_assoc, <-Z.pow_add_r by lia. do 2 f_equal. lia. }
  pose proof (pow2_pos (Z.min ea eb + 1074) ltac:(lia)).
  destruct (Z.le_ge_cases (Zpos m2) (Zpos m1)).
  - apply (binary_normalize_bounded _ _ _ (Zpos ma) ea); [lia|done|done|].
    rewrite <-(Hv ma m1 ea) by (try lia; rewrite Hm1; do 2 f_equal; lia).
    apply Z.mul_le_mono_nonneg_r; lia.
  - apply (binary_normalize_bounded _ _ _ (Zpos mb) eb); [lia|done|done|].
    rewrite <-(Hv mb m2 eb) by (try lia; rewrite Hm2; do 2 f_equal; lia).
    apply Z.mul_le_mono_nonneg_r; lia.
Qed.

Lemma binary_normalize_fnn n e z : -1074 ≤ e → 0 ≤ n → fnn (binary_normalize prec emax n e z).
Proof.
  intros He Hn. destruct n as [|m|m]; [done| |lia]. unfold binary_normalize.
  edestruct binary_round_aux_of as (mz & ez & -> & Hez & Hpre & Heq); [exact He|].
  edestruct (binary_round_aux_spec false (Zpos mz) ez loc_Exact)
    as (? & m2 & e2 & _ & _ & _ & _ & _ & Hp); [lia|done|]. by eapply pack_fnn.
Qed.

(** [1.0 + t] for a [t] not below [-1.0]. *)
Lemma one_plus_fnn t : fvalid t → fle (fneg f1) t = true → fnn (fadd f1 t).
Proof.
  intros Vt Hle. destruct t as [s|[]| |[] m e]; try done.
  - pose proof (fvalid_exp _ _ _ Vt) as He. apply fle_fv in Hle; [|done..].
    assert (fv f1 = 2 ^ 52 * 2 ^ (-52 + 1074)) as Hf1 by done.
    assert (fv (fneg f1) = - fv f1) as Hn by done. rewrite Hn, Hf1 in Hle.
    simpl fv in Hle. unfold fadd, SFadd, f1.
    pose proof (shl_align_spec 4503599627370496 (-52) (Z.min (-52) e)) as H1.
    pose proof (shl_align_spec m e (Z.min (-52) e)) as H2.
    destruct (shl_align 4503599627370496 _ _) as [m1 e1], (shl_align m e _) as [m2 e2].
    destruct H1 as [He1 Hm1], H2 as [He2 Hm2]. cbn [fst cond_Zopp].
    apply binary_normalize_fnn; [lia|].
    set (k := Z.min (-52) e) in *.
    assert (Zpos m2 * 2 ^ (k + 1074) ≤ Zpos m1 * 2 ^ (k + 1074)) as Hm.
    { rewrite Hm1, Hm2, <-!Z.mul_assoc, <-!Z.pow_add_r by lia.
      replace (-52 - e1 + (k + 1074)) with (-52 + 1074) by lia.
      replace (e - e2 + (k + 1074)) with (e + 1074) by lia.
      change (Zpos 4503599627370496) with (2 ^ 52). lia. }
    apply Z.mul_le_mono_pos_r in Hm; [lia|]. apply pow2_pos. lia.
  - by apply fadd_fnn.
Qed.

(** ** Square roots are binary64 values *)

Lemma fsqrt_valid a : fvalid a → fvalid (fsqrt a).
Proof.
  destruct a as [[]|[]| |[] m e]; try done. unfold fvalid at 1. rewrite valid_finite.
  intros [(_ & He & _) _]. unfold fsqrt, SFsqrt, SFsqrt_core_binary.
  set (d := Zdigits2 (Zpos m)). set (e' := Z.min (fexp prec emax (Z.div2 (d + e + 1))) (Z.div2 e)).
  pose proof (Z.div2_odd e) as Hde. pose proof (Z.div2_odd (d + e + 1)) as Hdd.
  assert (0 ≤ Z.b2z (Z.odd e) ≤ 1) by (destruct (Z.odd e); simpl; lia).
  assert (0 ≤ Z.b2z (Z.odd (d + e + 1)) ≤ 1) by (destruct (Z.odd (d + e + 1)); simpl; lia).
  assert (Hs : 0 ≤ e - 2 * e') by lia.
  set (m' := match e - 2 * e' with Z0 => _ | Zpos _ => _ | Zneg _ => _ end).
  assert (Hm' : m' = Zpos m * 2 ^ (e - 2 * e')).
  { unfold m'. rewrite <-Z.shiftl_mul_pow2 by done.
    destruct (e - 2 * e') as [|p|p]; [by rewrite Z.shiftl_0_r|done|lia]. }
  pose proof (pow2_pos _ Hs).
  pose proof (Z.sqrtrem_spec m' ltac:(nia)) as Hsq. destruct (Z.sqrtrem m') as [q r].
  destruct Hsq as [Hqr Hr]. assert (Hq : 0 ≤ q) by lia.
  assert (Hpre : e' ≤ fexp prec emax (Zdigits2 q + e')).
  { rewrite fexp_eq. destruct (Z.le_gt_cases e' (-1074)); [lia|].
    assert (H104 : 2 ^ 104 ≤ m').
    { pose proof (Zdigits2_bound (Zpos m) ltac:(lia)) as [Hl _]. fold d in Hl.
      pose proof (Zdigits2_pos (Zpos m) ltac:(lia)). fold d in H3.
      rewrite Hm'. etrans; [|apply Z.mul_le_mono_nonneg_r; [lia|exact Hl]].
      rewrite <-Z.pow_add_r by lia. apply Z.pow_le_mono_r; [lia|].
      unfold e' in *. rewrite fexp_eq in *. lia. }
    assert (H52 : 2 ^ 52 ≤ q) by nia.
    pose proof (Zdigits2_ge q 52 ltac:(lia) H52). lia. }
  match goal with |- context [binary_round_aux _ _ _ _ _ ?l] =>
    edestruct (binary_round_aux_spec false q e' l) as (? & m2 & e2 & _ & _ & _ & _ & _ & Hp);
      [done|done|exact (pack_valid _ _ _ _ Hp)] end.
Qed.
#[export] Hint Resolve fsqrt_valid : f64.

Lemma of_Z_fnn n : 0 ≤ n → fnn (of_Z n).
Proof. intros Hn. apply binary_normalize_fnn; lia. Qed.

Lemma fdiv_fnn a b : fnn a → fnn b → is_finite b = true → 0 < fv b → fnn (fdiv a b).
Proof.
  intros [Va Sa] [Vb Sb] Fb Pb. destruct b as [sb|sb| |sb mb eb]; try done.
  destruct a as [sa|sa| |sa ma ea]; try done; subst; [done..|].
  unfold fvalid in Va, Vb. rewrite valid_finite in Va, Vb. destruct Va as [Ha _], Vb as [Hb _].
  unfold fdiv, SFdiv. pose proof (div_core_spec ma ea mb eb) as H.
  destruct (SFdiv_core_binary _ _ _ _ _ _) as [[q e'] l]. destruct H as (? & ? & ? & _).
  edestruct (binary_round_aux_spec (xorb false false) q e' l)
    as (? & m2 & e2 & _ & _ & _ & _ & _ & Hp); [done|done|]. by eapply pack_fnn.
Qed.

Lemma fmul_fnn_pos a b : fnn a → is_finite a = true → 0 < fv a → fnn b → fnn (fmul a b).
Proof.
  intros Ha Fa Pa Hb. destruct (is_finite b) eqn:Fb; [by apply fmul_fnn|].
  destruct Hb as [Vb Sb], Ha as [Va Sa]. destruct b as [| | |]; try done. subst.
  destruct a as [sa| | |sa ma ea]; try done. by subst.
Qed.

(** From here on the operations are opaque to [simpl]. *)
#[global] Arguments fadd : simpl never.
#[global] Arguments fsub : simpl never.
#[global] Arguments fmul : simpl never.
#[global] Arguments fdiv : simpl never.
#[global] Arguments fsqrt : simpl never.
#[global] Arguments of_Z : simpl never.
