(* ===== verification/FloatBounds.v ===== *)
(** * FloatBounds: ranges and rounding errors of binary64 operations

    [fbnd x B]: [x] is a finite float of magnitude at most [B] (in units of the least subnormal, as
    [fv]).  Sums, differences and products stay below every representable bound of their exact value
    ([fadd_bnd], [fsub_bnd], [fmul_bnd]), and they are off by at most one unit in the last place
    ([fadd_near], [fdiv_near]).  [fmul_lt]: a product with a factor below one is below the other
    factor, although it is rounded. *)

From Stdlib Require Import ZArith SpecFloat Lia.
From S2P Require Import Prelude Float64 FloatFacts.

Local Open Scope Z_scope.

(** The value one. *)
Definition fone : Z := 2 ^ 1074.
(** Magnitudes that a float can have. *)
Definition repr (B : Z) : Prop := ∃ m e, canon m e ∧ e ≤ 971 ∧ B = m * 2 ^ (e + 1074).
Definition fbnd (x : f64) (B : Z) : Prop := fvalid x ∧ is_finite x = true ∧ Z.abs (fv x) ≤ B.

Lemma fbnd_weaken x B C : fbnd x B → B ≤ C → fbnd x C.
Proof. intros (? & ? & ?) ?. split_and!; [done|done|lia]. Qed.

Lemma repr_small n : 0 < n < 2 ^ 53 → repr (n * fone).
Proof.
  intros Hn. destruct (canon_of_Z n Hn) as (m & e & Hc & He & Hm). exists m, e. split_and!; [done|lia|].
  unfold fone. rewrite Hm, <-Z.mul_assoc, <-Z.pow_add_r by lia. do 2 f_equal. lia.
Qed.
Lemma repr_fv x : fvalid x → is_finite x = true → fv x ≠ 0 → repr (Z.abs (fv x)).
Proof.
  destruct x as [| | |s m e]; try done. unfold fvalid. rewrite valid_finite. intros [Hc He] _ _.
  exists (Zpos m), e. split_and!; [done|done|]. pose proof Hc as (_ & ? & _).
  pose proof (pow2_pos (e + 1074) ltac:(lia)). destruct s; cbn [fv cond_Zopp]; lia.
Qed.

(** ** Rounding once more *)

Section Round.
Context (s : bool) (m e : Z) (l : location).
Context (Hm : 0 ≤ m) (He : e ≤ fexp prec emax (Zdigits2 m + e)).
Context (b : Z) (Hb : b ≤ e) (Hb' : b ≤ -1074).

(** The result of a rounding, bounded by a representable value. *)
Lemma round_bnd B : repr B → (m + inexact l) * 2 ^ (e - b) ≤ B * 2 ^ (-1074 - b) →
  fbnd (binary_round_aux prec emax s m e l) B.
Proof.
  intros (mv & ev & Hc & Hev & ->) Hle.
  assert (mv * 2 ^ (ev + 1074) * 2 ^ (-1074 - b) = mv * 2 ^ (ev - b)) as E.
  { pose proof Hc as (_ & ? & _). rewrite <-Z.mul_assoc, <-Z.pow_add_r by lia. do 2 f_equal. lia. }
  rewrite E in Hle.
  destruct (round_le s m e l Hm He mv ev b Hc Hb Hb' Hle) as (m2 & e2 & Hp & He2 & Hm2 & Hres).
  rewrite rebase_le in Hres by (destruct Hc; lia).
  destruct (pack_bounded _ _ _ _ mv ev Hp) as [Hf Hv]; [lia|done|done|done|].
  split_and!; [by eapply pack_valid|done|]. rewrite Hv. pose proof (pow2_pos (e2 + 1074) ltac:(lia)).
  destruct s; cbn [cond_Zopp]; nia.
Qed.

(** The error of a rounding: one unit in the last place. *)
Lemma round_near k : -1074 ≤ k → m * 2 ^ (e - b) < 2 ^ (53 + k - b) →
  is_finite (binary_round_aux prec emax s m e l) = true →
  Z.abs (cond_Zopp s (fv (binary_round_aux prec emax s m e l)) * 2 ^ (-1074 - b) - m * 2 ^ (e - b)) ≤ 2 ^ (k - b).
Proof.
  intros Hk Hlt Hf.
  destruct (binary_round_aux_spec s m e l Hm He) as (m1 & m2 & e2 & Hlo & Hhi & _ & Hm1 & HE & Hp).
  rewrite (pack_finite _ _ _ _ Hp Hf). set (E := fexp prec emax (Zdigits2 m + e)) in *.
  replace (cond_Zopp s (cond_Zopp s (m2 * 2 ^ (e2 + 1074)))) with (m2 * 2 ^ (e2 + 1074)) by (destruct s; cbn [cond_Zopp]; lia).
  assert (-1074 ≤ E ≤ k) as [HE0 HEk].
  { unfold E. rewrite fexp_eq. split; [lia|]. apply Z.max_lub; [|done].
    destruct (Z.eq_dec m 0) as [->|Hm0]; [unfold E in *; rewrite fexp_eq in *; cbn in *; lia|].
    pose proof (Zdigits2_bound m ltac:(lia)) as [Hl _]. pose proof (Zdigits2_pos m ltac:(lia)).
    assert (2 ^ (Zdigits2 m - 1 + (e - b)) < 2 ^ (53 + k - b)) as Hp2.
    { rewrite Z.pow_add_r by lia. eapply Z.le_lt_trans; [|exact Hlt].
      apply Z.mul_le_mono_nonneg_r; [|done]. pose proof (pow2_pos (e - b) ltac:(lia)). lia. }
    apply Z.pow_lt_mono_r_iff in Hp2; lia. }
  assert (m2 * 2 ^ (e2 + 1074) * 2 ^ (-1074 - b) = m1 * 2 ^ (E - b)) as ->.
  { rewrite Hm1, <-!Z.mul_assoc, <-!Z.pow_add_r by lia. do 2 f_equal. lia. }
  rewrite (pow2_split b e E) by lia. assert (2 ^ (E - b) ≤ 2 ^ (k - b)) by (apply Z.pow_le_mono_r; lia).
  rewrite (pow2_split b e E) in H by lia.
  pose proof (pow2_pos (E - e) ltac:(lia)) as HpE. pose proof (pow2_pos (e - b) ltac:(lia)) as Hpe.
  pose proof (Z.div_mod m (2 ^ (E - e)) ltac:(lia)) as Hdm. pose proof (Z.mod_pos_bound m (2 ^ (E - e)) HpE) as Hmod.
  set (q := m / 2 ^ (E - e)) in *. set (r := m mod 2 ^ (E - e)) in *. set (P := 2 ^ (E - e)) in *. set (Q := 2 ^ (e - b)) in *.
  assert (Z.abs (m1 * P - m) ≤ P) by (rewrite Hdm; nia).
  replace (m1 * (P * Q) - m * Q) with ((m1 * P - m) * Q) by ring. rewrite Z.abs_mul, (Z.abs_eq Q) by lia. nia.
Qed.
End Round.

(** ** Sums *)

Lemma normalize_bnd n e z B : -1074 ≤ e → repr B → Z.abs n * 2 ^ (e + 1074) ≤ B →
  fbnd (binary_normalize prec emax n e z) B.
Proof.
  intros He HB Hle. assert (0 ≤ B) as HB0 by (pose proof (pow2_pos (e + 1074) ltac:(lia)); nia).
  destruct n as [|m|m]; [by split_and!|..]; unfold binary_normalize.
  all: edestruct binary_round_aux_of as (mz & ez & -> & Hez & Hpre & Heq); [exact He|].
  all: apply (round_bnd _ (Zpos mz) ez loc_Exact ltac:(lia) Hpre (-1074)); [lia|lia|done|].
  all: replace (ez - -1074) with (ez + 1074) by lia; cbn [inexact]; rewrite Z.add_0_r, Heq, Z.sub_diag, Z.pow_0_r, Z.mul_1_r; exact Hle.
Qed.
Lemma normalize_near n e z k : -1074 ≤ e → -1074 ≤ k → Z.abs n * 2 ^ (e + 1074) < 2 ^ (53 + k + 1074) →
  is_finite (binary_normalize prec emax n e z) = true →
  Z.abs (fv (binary_normalize prec emax n e z) - n * 2 ^ (e + 1074)) ≤ 2 ^ (k + 1074).
Proof.
  intros He Hk Hlt. pose proof (pow2_pos (k + 1074) ltac:(lia)).
  destruct n as [|m|m]; [cbn; lia|..]; unfold binary_normalize.
  all: edestruct binary_round_aux_of as (mz & ez & -> & Hez & Hpre & Heq); [exact He|]; intros Hf.
  all: assert (Zpos mz * 2 ^ (ez - -1074) < 2 ^ (53 + k - -1074)) as Hlt'
    by (replace (53 + k - -1074) with (53 + k + 1074) by lia; replace (ez - -1074) with (ez + 1074) by lia; rewrite Heq; exact Hlt).
  all: pose proof (round_near _ (Zpos mz) ez loc_Exact ltac:(lia) Hpre (-1074) ltac:(lia) ltac:(lia) k Hk Hlt' Hf) as Hn.
  all: replace (ez - -1074) with (ez + 1074) in Hn by lia; rewrite Heq in Hn;
    replace (k - -1074) with (k + 1074) in Hn by lia; rewrite Z.sub_diag, Z.pow_0_r, Z.mul_1_r in Hn; cbn [cond_Zopp] in Hn.
  - exact Hn.
  - rewrite <-Z.abs_opp. etrans; [|exact Hn]. apply Z.eq_le_incl. f_equal.
    change (Zneg m) with (- Zpos m). ring.
Qed.

(** A sum of finite floats is rounded once, or exact. *)
Lemma fadd_cases a b : fvalid a → fvalid b → is_finite a = true → is_finite b = true →
  (fvalid (fadd a b) ∧ is_finite (fadd a b) = true ∧ fv (fadd a b) = fv a + fv b) ∨
  ∃ n e, fadd a b = binary_normalize prec emax n e false ∧ -1074 ≤ e ∧ n * 2 ^ (e + 1074) = fv a + fv b.
Proof.
  intros Va Vb Fa Fb. destruct a as [sa| | |sa ma ea], b as [sb| | |sb mb eb]; try done.
  1: by left; destruct sa, sb.
  1: left; split_and!; [done|done|change (fv (S754_finite sb mb eb) = 0 + fv (S754_finite sb mb eb)); lia].
  1: left; split_and!; [done|done|change (fv (S754_finite sa ma ea) = fv (S754_finite sa ma ea) + 0); lia].
  right. pose proof (fvalid_exp _ _ _ Va) as Ha. pose proof (fvalid_exp _ _ _ Vb) as Hb. unfold fadd, SFadd.
  pose proof (shl_align_spec ma ea (Z.min ea eb)) as H1. pose proof (shl_align_spec mb eb (Z.min ea eb)) as H2.
  destruct (shl_align ma ea _) as [m1 e1], (shl_align mb eb _) as [m2 e2]. destruct H1 as [He1 Hm1], H2 as [He2 Hm2].
  cbn [fst]. eexists _, (Z.min ea eb). split; [done|]. split; [lia|].
  assert (∀ sg m m' ee, Z.min ea eb ≤ ee → Zpos m' = Zpos m * 2 ^ (ee - Z.min ea eb) →
    cond_Zopp sg (Zpos m') * 2 ^ (Z.min ea eb + 1074) = cond_Zopp sg (Zpos m * 2 ^ (ee + 1074))) as Hal.
  { intros sg m m' ee Hee ->. replace (ee + 1074) with (ee - Z.min ea eb + (Z.min ea eb + 1074)) by lia.
    rewrite (Z.pow_add_r 2 (ee - Z.min ea eb)) by lia. destruct sg; cbn [cond_Zopp]; ring. }
  rewrite Z.mul_add_distr_r. cbn [fv]. f_equal; apply Hal; try lia; [rewrite Hm1|rewrite Hm2]; do 2 f_equal; lia.
Qed.

Lemma fadd_bnd a b B : fvalid a → fvalid b → is_finite a = true → is_finite b = true → repr B →
  Z.abs (fv a + fv b) ≤ B → fbnd (fadd a b) B.
Proof.
  intros Va Vb Fa Fb HB Hle. destruct (fadd_cases a b Va Vb Fa Fb) as [(? & ? & E)|(n & e & -> & He & E)].
  - split_and!; [done|done|by rewrite E].
  - apply normalize_bnd; [done|done|]. rewrite <-E, Z.abs_mul in Hle.
    by rewrite (Z.abs_eq (2 ^ (e + 1074))) in Hle by (apply Z.pow_nonneg; lia).
Qed.
Lemma fadd_near a b k : fvalid a → fvalid b → is_finite a = true → is_finite b = true → -1074 ≤ k ≤ 900 →
  Z.abs (fv a + fv b) < 2 ^ (53 + k + 1074) →
  is_finite (fadd a b) = true ∧ Z.abs (fv (fadd a b) - (fv a + fv b)) ≤ 2 ^ (k + 1074).
Proof.
  intros Va Vb Fa Fb Hk Hlt. pose proof (pow2_pos (k + 1074) ltac:(lia)).
  assert (is_finite (fadd a b) = true) as Hf.
  { apply (fadd_bnd a b (2 ^ (53 + k + 1074))); [done|done|done|done| |lia].
    exists (2 ^ 52), (k + 1). split_and!; [unfold canon; lia|lia|]. rewrite <-Z.pow_add_r by lia. f_equal. lia. }
  split; [done|]. destruct (fadd_cases a b Va Vb Fa Fb) as [(? & ? & E)|(n & e & Ef & He & E)].
  - rewrite E. lia.
  - rewrite Ef in *. rewrite <-E. rewrite <-E, Z.abs_mul in Hlt. apply normalize_near; [done|lia| |done].
    by rewrite (Z.abs_eq (2 ^ (e + 1074))) in Hlt by (apply Z.pow_nonneg; lia).
Qed.

Lemma fneg_facts a : fvalid a → is_finite a = true → fvalid (fneg a) ∧ is_finite (fneg a) = true ∧ fv (fneg a) = - fv a.
Proof.
  destruct a as [[]| | |s m e]; try done. intros Hv _. split_and!; [done|done|]. destruct s; cbn [fneg SFopp fv negb cond_Zopp]; lia.
Qed.
Lemma fsub_fadd a b : is_finite b = true → fsub a b = fadd a (fneg b).
Proof.
  destruct a as [[]|[]| |sa ma ea], b as [[]|[]| |sb mb eb]; try done. intros _.
  unfold fsub, fadd, fneg, SFsub, SFadd, SFopp. cbv zeta. f_equal.
  destruct sb; cbn [negb cond_Zopp]; lia.
Qed.
Lemma fsub_bnd a b B : fvalid a → fvalid b → is_finite a = true → is_finite b = true → repr B →
  Z.abs (fv a - fv b) ≤ B → fbnd (fsub a b) B.
Proof.
  intros Va Vb Fa Fb HB Hle. rewrite fsub_fadd by done. destruct (fneg_facts b Vb Fb) as (? & ? & E).
  apply fadd_bnd; [done..|]. rewrite E. by rewrite Z.add_opp_r.
Qed.

(** A difference that is not negative. *)
Lemma fsub_fnn a b : fvalid a → fvalid b → is_finite a = true → is_finite b = true → fv b ≤ fv a → fnn (fsub a b).
Proof.
  intros Va Vb Fa Fb Hle. rewrite fsub_fadd by done. destruct (fneg_facts b Vb Fb) as (Vn & Fn & E).
  destruct (fadd_cases a (fneg b) Va Vn Fa Fn) as [(V & F & Ev)|(n & e & -> & He & Ev)].
  - split; [done|]. rewrite E in Ev. destruct (fadd a (fneg b)) as [| | |s m e]; try done. destruct s; [|done].
    apply fvalid_exp in V. pose proof (pow2_pos (e + 1074) ltac:(lia)). cbn [fv cond_Zopp] in Ev. lia.
  - apply binary_normalize_fnn; [done|]. rewrite E in Ev. pose proof (pow2_pos (e + 1074) ltac:(lia)). nia.
Qed.

(** ** Products *)

(** A product of two finite floats before it is rounded. *)
Lemma fmul_exact sa ma ea sb mb eb : fvalid (S754_finite sa ma ea) → fvalid (S754_finite sb mb eb) →
  -2148 ≤ ea + eb ∧ ea + eb ≤ fexp prec emax (Zdigits2 (Zpos (ma * mb)) + (ea + eb)) ∧
  Zpos (ma * mb) * 2 ^ (ea + eb + 2148) = Z.abs (fv (S754_finite sa ma ea)) * Z.abs (fv (S754_finite sb mb eb)).
Proof.
  unfold fvalid. rewrite !valid_finite. intros [Ca _] [Cb _]. split_and!; [destruct Ca, Cb; lia|by apply mul_aux_pre|].
  destruct Ca as (_ & ? & _), Cb as (_ & ? & _).
  pose proof (pow2_pos (ea + 1074) ltac:(lia)). pose proof (pow2_pos (eb + 1074) ltac:(lia)).
  replace (ea + eb + 2148) with ((ea + 1074) + (eb + 1074)) by lia. rewrite Z.pow_add_r, Pos2Z.inj_mul by lia.
  cbn [fv].
  assert (∀ s x, 0 ≤ x → Z.abs (cond_Zopp s x) = x) as Habs by (intros [] x Hx; cbn [cond_Zopp]; lia).
  rewrite !Habs by nia. ring.
Qed.

Lemma fmul_bnd a b B : fvalid a → fvalid b → is_finite a = true → is_finite b = true → repr B →
  Z.abs (fv a) * Z.abs (fv b) ≤ B * fone → fbnd (fmul a b) B.
Proof.
  intros Va Vb Fa Fb HB Hle. assert (0 < B) as HB0.
  { destruct HB as (m & e & [[? _] [? _]] & _ & ->). pose proof (pow2_pos (e + 1074) ltac:(lia)). nia. }
  destruct a as [sa| | |sa ma ea], b as [sb| | |sb mb eb]; try done.
  1-3: split_and!; [by destruct sa, sb|done|change (0 ≤ B); lia].
  destruct (fmul_exact _ _ _ _ _ _ Va Vb) as (He & Hpre & E).
  apply (round_bnd (xorb sa sb) (Zpos (ma * mb)) (ea + eb) loc_Exact ltac:(lia) Hpre (Z.min (ea + eb) (-1074)));
    [lia|lia|done|].
  set (b := Z.min (ea + eb) (-1074)). apply (Z.mul_le_mono_pos_r _ _ (2 ^ (b + 2148))); [apply pow2_pos; lia|].
  cbn [inexact]. rewrite Z.add_0_r, <-!Z.mul_assoc, <-!Z.pow_add_r by lia.
  replace (ea + eb - b + (b + 2148)) with (ea + eb + 2148) by lia. replace (-1074 - b + (b + 2148)) with 1074 by lia.
  rewrite E. exact Hle.
Qed.

(** The floats below one end at [1 - 2^-53]. *)
Lemma below_one m e : canon m e → m * 2 ^ (e + 1074) < fone → e ≤ -53.
Proof.
  intros (Hm & He & Hn) Hlt. destruct (Z.le_gt_cases e (-53)); [done|]. exfalso. specialize (Hn ltac:(lia)).
  unfold fone in Hlt. assert (2 ^ 52 * 2 ^ (e + 1074) ≤ m * 2 ^ (e + 1074)) as Hmul by (pose proof (pow2_pos (e + 1074)); nia).
  rewrite <-(Z.pow_add_r 2 52) in Hmul by lia. assert (2 ^ 1074 ≤ 2 ^ (52 + (e + 1074))) by (apply Z.pow_le_mono_r; lia). lia.
Qed.

Section Below.
Context (m e mq eq : Z) (Hc : canon m e) (Hq : canon mq eq) (He : -1074 < e) (Heq : eq ≤ -53).

(** The exact product lies above the float before [m * 2^e]: less than half of a unit is cut off. *)
Lemma product_low : 2 ^ 52 < m → (m - 1) * 2 ^ (- eq) < m * mq →
  Zdigits2 (m * mq) + (e + eq) = 53 + e ∧ m * mq / 2 ^ (- eq) = m - 1 ∧
  2 * ((m * mq) mod 2 ^ (- eq)) < 2 ^ (- eq).
Proof using Hc Hq Heq.
  intros Hm Hlo. destruct Hc as ([_ Hm53] & _ & _), Hq as ([Hq0 Hq53] & _ & _).
  pose proof (pow2_pos (- eq) ltac:(lia)) as HP.
  assert (2 ^ (- eq) = 2 ^ 53 * 2 ^ (- eq - 53)) as EP by (rewrite <-Z.pow_add_r by lia; f_equal; lia).
  pose proof (pow2_pos (- eq - 53) ltac:(lia)) as HT. set (T := 2 ^ (- eq - 53)) in *. set (P := 2 ^ (- eq)) in *.
  assert (mq ≤ (2 ^ 53 - 1) * T) as Hmq by nia.
  assert (m * mq < m * P) as Hhi by nia.
  assert (m * mq / P = m - 1) as Ed by (symmetry; apply Z.div_unique with (m * mq - (m - 1) * P); [left; nia|nia]).
  split_and!; [|done|].
  - assert (Zdigits2 (m * mq) = 53 - eq); [|lia]. apply Zdigits2_unique; [lia|].
    replace (53 - eq - 1) with (52 + - eq) by lia. replace (53 - eq) with (53 + - eq) by lia.
    rewrite !Z.pow_add_r by lia. fold P. split; nia.
  - rewrite Z.mod_eq by lia. rewrite Ed. nia.
Qed.
End Below.

Lemma cancel_pow N es B b : -2148 ≤ es → b = Z.min es (-1074) →
  N * 2 ^ (es + 2148) ≤ B * 2 ^ 1074 → N * 2 ^ (es - b) ≤ B * 2 ^ (-1074 - b).
Proof.
  intros He -> Hle. set (b := Z.min es (-1074)). apply (Z.mul_le_mono_pos_r _ _ (2 ^ (b + 2148))); [apply pow2_pos; lia|].
  rewrite <-!Z.mul_assoc, <-!Z.pow_add_r by lia.
  by replace (es - b + (b + 2148)) with (es + 2148) by lia; replace (-1074 - b + (b + 2148)) with 1074 by lia.
Qed.

(** A product with a factor below one is smaller, also after rounding. *)
Lemma fmul_lt p q : fvalid p → is_finite p = true → 2 ^ 200 ≤ fv p → fnn q → is_finite q = true → fv q < fone →
  is_finite (fmul p q) = true ∧ fv (fmul p q) < fv p.
Proof.
  intros Vp Fp Hbig [Vq Sq] Fq Hq1.
  assert (0 < fv p) as Hp0 by (pose proof (pow2_pos 200); lia).
  destruct p as [| | |sp m e]; try done. destruct q as [sq| | |sq mq eq]; try done. subst sq.
  assert (sp = false) as -> by (destruct sp; [cbn [fv cond_Zopp] in Hp0; pose proof (fvalid_exp _ _ _ Vp);
    pose proof (pow2_pos (e + 1074)); lia|done]).
  destruct (fmul_exact _ _ _ _ _ _ Vp Vq) as (Hes & Hpre & _). unfold fvalid in Vp, Vq. rewrite valid_finite in Vp, Vq.
  destruct Vp as [Cp Hp971], Vq as [Cq _]. cbn [fv cond_Zopp] in *.
  pose proof (below_one _ _ Cq Hq1) as Heq.
  assert (-1074 < e) as He.
  { destruct (Z.le_gt_cases e (-1074)) as [Hle|]; [|lia]. exfalso. destruct Cp as ([_ ?] & ? & _).
    replace e with (-1074) in Hbig by lia. rewrite Z.pow_0_r in Hbig. lia. }
  set (N := Zpos m * Zpos mq). unfold fmul, SFmul. change (xorb false false) with false.
  (* The bound [(m', e')] is the float before [p]. *)
  assert (∀ B, repr B → B < Zpos m * 2 ^ (e + 1074) → N * 2 ^ (e + eq + 2148) ≤ B * 2 ^ 1074 →
    is_finite (binary_round_aux prec emax false (Zpos (m * mq)) (e + eq) loc_Exact) = true ∧
    fv (binary_round_aux prec emax false (Zpos (m * mq)) (e + eq) loc_Exact) < Zpos m * 2 ^ (e + 1074)) as Hround.
  { intros B HB Hlt Hle. destruct (round_bnd false (Zpos (m * mq)) (e + eq) loc_Exact ltac:(lia) Hpre
      (Z.min (e + eq) (-1074)) ltac:(lia) ltac:(lia) B HB) as (_ & Hf & Hab).
    - cbn [inexact]. rewrite Z.add_0_r. by apply cancel_pow.
    - split; [done|lia]. }
  pose proof Cp as ([Hm0 Hm53] & _ & Hm52). specialize (Hm52 He). pose proof Cq as ([Hmq0 Hmq53] & Heq1 & _).
  pose proof (pow2_pos (e + 1074) ltac:(lia)) as HQ.
  destruct (Z.eq_dec (Zpos m) (2 ^ 52)) as [Em|Hm].
  { assert (2 ^ (e + 1074) = 2 * 2 ^ (e + 1073)) as Epow by (rewrite <-Z.pow_succ_r by lia; f_equal; lia).
    apply (Hround ((2 ^ 53 - 1) * 2 ^ (e + 1073))).
    - exists (2 ^ 53 - 1), (e - 1). split_and!; [unfold canon; lia|lia|]. do 2 f_equal. lia.
    - rewrite Em, Epow. lia.
    - replace (e + eq + 2148) with (eq + 1075 + (e + 1073)) by lia. unfold N. rewrite Em, Z.pow_add_r by lia.
      assert (2 ^ 52 * 2 ^ (eq + 1075) ≤ 2 ^ 1074) as H1.
      { rewrite <-(Z.pow_add_r 2 52) by lia. apply Z.pow_le_mono_r; lia. }
      pose proof (pow2_pos (e + 1073) ltac:(lia)). pose proof (pow2_pos (eq + 1075) ltac:(lia)).
      set (X := 2 ^ (eq + 1075)) in *. set (Y := 2 ^ (e + 1073)) in *. set (W := 2 ^ 1074) in *.
      assert (Zpos mq * (2 ^ 52 * X) ≤ (2 ^ 53 - 1) * W) by (apply Z.mul_le_mono_nonneg; lia). nia. }
  assert (2 ^ (e + eq + 2148) * 2 ^ (- eq) = 2 ^ (e + 1074) * 2 ^ 1074) as Eexp by (rewrite <-!Z.pow_add_r by lia; f_equal; lia).
  pose proof (pow2_pos (e + eq + 2148) ltac:(lia)) as HX. destruct (Z.le_gt_cases N ((Zpos m - 1) * 2 ^ (- eq))) as [Hle|Hgt].
  { apply (Hround ((Zpos m - 1) * 2 ^ (e + 1074))).
    - exists (Zpos m - 1), e. split_and!; [unfold canon; lia|lia|done].
    - nia.
    - rewrite <-(Z.mul_assoc (Zpos m - 1)), <-Eexp. nia. }
  destruct (product_low (Zpos m) e (Zpos mq) eq Cp Cq Heq ltac:(lia) Hgt) as (Hd & Hdiv & Hlow).
  destruct (binary_round_aux_spec false (Zpos (m * mq)) (e + eq) loc_Exact ltac:(lia) Hpre)
    as (m1 & m2 & e2 & _ & _ & Hex & Hm1 & HE & Hp).
  change (Zpos (m * mq)) with (Zpos m * Zpos mq) in Hex, Hm1, HE. rewrite Hd in Hex, Hm1, HE.
  assert (fexp prec emax (53 + e) = e) as EE by (rewrite fexp_eq; lia). rewrite EE in Hex, Hm1, HE.
  replace (e - (e + eq)) with (- eq) in Hex by lia. specialize (Hex eq_refl Hlow). rewrite Hdiv in Hex.
  assert (m2 * 2 ^ (e2 + 1074) = (Zpos m - 1) * 2 ^ (e + 1074)) as Ev.
  { rewrite <-Hex, Hm1, <-Z.mul_assoc, <-Z.pow_add_r by lia. do 2 f_equal. lia. }
  destruct (pack_bounded _ _ _ _ (Zpos m) e Hp) as [Hf Hv]; [lia|done|done|nia|].
  split; [done|]. rewrite Hv. cbn [cond_Zopp]. nia.
Qed.

(** ** Quotients *)

(** A quotient of positive floats is off by two units in the last place at most, if it is below [2^(53 + k)]. *)
Lemma fdiv_near a b k : fnn a → fnn b → is_finite a = true → is_finite b = true → 0 < fv b → -1074 ≤ k →
  fv a * fone < 2 ^ (53 + k + 1074) * fv b → is_finite (fdiv a b) = true →
  Z.abs (fv (fdiv a b) * fv b - fv a * fone) ≤ 2 * 2 ^ (k + 1074) * fv b.
Proof.
  intros [Va Sa] [Vb Sb] Fa Fb Hb0 Hk Hlt. pose proof (pow2_pos (k + 1074) ltac:(lia)) as Hk0.
  destruct b as [| | |sb mb eb]; try done. subst sb. destruct a as [sa| | |sa ma ea]; try done.
  { intros _. cbn [fdiv SFdiv]. change (fv (S754_zero _)) with 0. rewrite !Z.mul_0_l, Z.sub_diag. cbn [Z.abs]. nia. }
  subst sa. pose proof (fvalid_exp _ _ _ Va) as Ea. pose proof (fvalid_exp _ _ _ Vb) as Eb. cbn [fv cond_Zopp] in *.
  unfold fdiv, SFdiv. change (xorb false false) with false. pose proof (div_core_spec ma ea mb eb) as H.
  destruct (SFdiv_core_binary _ _ _ _ _ _) as [[q e'] l]. destruct H as (Hq & He' & Hpre & Hqe & _). intros Hf.
  set (M := Zpos ma * 2 ^ (ea - eb - e')) in *. set (b := Z.min e' (-1074)).
  pose proof (Z.div_mod M (Zpos mb) ltac:(lia)) as Hdm. rewrite <-Hqe in Hdm.
  pose proof (Z.mod_pos_bound M (Zpos mb) ltac:(lia)) as Hmod.
  set (B := 2 ^ (eb + 1074)) in *. assert (0 < B) as HB by (apply pow2_pos; lia).
  assert (M * 2 ^ (e' - b) * B = Zpos ma * 2 ^ (ea + 1074) * fone * 2 ^ (-1074 - b)) as EM.
  { unfold M, B, fone. rewrite <-!Z.mul_assoc, <-!Z.pow_add_r by lia. do 2 f_equal. lia. }
  pose proof (pow2_pos (-1074 - b) ltac:(lia)) as HR. pose proof (pow2_pos (e' - b) ltac:(lia)) as HS.
  assert (2 ^ (k - b) = 2 ^ (k + 1074) * 2 ^ (-1074 - b)) as Ek by (rewrite <-Z.pow_add_r by lia; f_equal; lia).
  assert (2 ^ (53 + k - b) = 2 ^ (53 + k + 1074) * 2 ^ (-1074 - b)) as Ek'
    by (rewrite <-Z.pow_add_r by lia; f_equal; lia).
  set (R := 2 ^ (-1074 - b)) in *. set (S := 2 ^ (e' - b)) in *. set (K := 2 ^ (k + 1074)) in *.
  assert (q * S < 2 ^ (53 + k - b)) as Hqs.
  { rewrite Ek'. apply (Z.mul_lt_mono_pos_r (Zpos mb * B)); [nia|].
    eapply Z.le_lt_trans; [|apply (Z.mul_lt_mono_pos_r R) in Hlt; [|done]; eapply Z.lt_le_trans; [exact Hlt|]; nia].
    rewrite <-EM. replace (q * S * (Zpos mb * B)) with (Zpos mb * q * (S * B)) by ring.
    rewrite <-(Z.mul_assoc M). apply Z.mul_le_mono_nonneg_r; [nia|lia]. }
  pose proof (round_near false q e' l Hq Hpre b ltac:(lia) ltac:(lia) k Hk Hqs Hf) as Hn. cbn [cond_Zopp] in Hn.
  assert (e' ≤ k) as Hek.
  { etrans; [exact Hpre|]. rewrite fexp_eq. apply Z.max_lub; [|done]. destruct (Z.eq_dec q 0) as [Eq0|Hq0].
    { rewrite Eq0, fexp_eq in Hpre. rewrite Eq0. cbn in Hpre |- *. lia. }
    pose proof (Zdigits2_bound q ltac:(lia)) as [Hl _]. pose proof (Zdigits2_pos q ltac:(lia)).
    assert (2 ^ (Zdigits2 q - 1 + (e' - b)) < 2 ^ (53 + k - b)) as Hp2.
    { rewrite Z.pow_add_r by lia. fold S. eapply Z.le_lt_trans; [|exact Hqs]. nia. }
    apply Z.pow_lt_mono_r_iff in Hp2; lia. }
  assert (S ≤ 2 ^ (k - b)) as HSk by (apply Z.pow_le_mono_r; lia). rewrite Ek in Hn, HSk.
  set (r := fv _) in *. apply (Z.mul_le_mono_pos_r _ _ R); [done|].
  rewrite <-(Z.abs_eq R) at 1 by lia. rewrite <-Z.abs_mul, Z.mul_sub_distr_r, <-EM.
  replace (r * (Zpos mb * B) * R - M * S * B) with ((r * R * Zpos mb - M * S) * B) by ring.
  rewrite Z.abs_mul, (Z.abs_eq B) by lia.
  replace (2 * K * (Zpos mb * B) * R) with (2 * (K * R) * Zpos mb * B) by ring.
  apply Z.mul_le_mono_nonneg_r; [lia|].
  assert (Z.abs (r * R - q * S) * Zpos mb ≤ K * R * Zpos mb) by (apply Z.mul_le_mono_nonneg_r; [lia|done]).
  assert (0 ≤ (M - Zpos mb * q) * S ≤ Zpos mb * (K * R)) by (split; [nia|]; apply Z.mul_le_mono_nonneg; lia).
  replace (r * R * Zpos mb - M * S) with ((r * R - q * S) * Zpos mb - (M - Zpos mb * q) * S) by ring.
  assert (Z.abs ((r * R - q * S) * Zpos mb) ≤ K * R * Zpos mb) by (rewrite Z.abs_mul, (Z.abs_eq (Zpos mb)) by lia; done). lia.
Qed.


(** ** Sums of numbers in the unit interval *)

Lemma unit_facts x : in_unit x → fvalid x ∧ is_finite x = true ∧ 0 ≤ fv x ≤ fone.
Proof.
  intros (Hn & Hf & Hle). pose proof (fnn_fv x Hn). apply fle_fv in Hle; [|apply Hn|done|done|done].
  split_and!; [apply Hn|done|done|exact Hle].
Qed.

Definition zsum (l : list f64) : Z := foldr (λ x a, fv x + a) 0 l.
Lemma zsum_bounds l lo hi : Forall (λ x, lo ≤ fv x ≤ hi) l →
  lo * Z.of_nat (length l) ≤ zsum l ≤ hi * Z.of_nat (length l).
Proof. induction 1 as [|x l Hx _ IH]; cbn [zsum foldr length] in *; [lia|]. fold (zsum l). lia. Qed.

(** Up to a thousand additions lose little. *)
Lemma fold_near l acc : fnn acc → is_finite acc = true → Forall in_unit l →
  fv acc + 2 * Z.of_nat (length l) * fone ≤ 2 ^ 1085 →
  fnn (foldl fadd acc l) ∧ is_finite (foldl fadd acc l) = true ∧
  Z.abs (fv (foldl fadd acc l) - (fv acc + zsum l)) ≤ Z.of_nat (length l) * 2 ^ 1032.
Proof.
  assert (2 ^ 1074 = 2 ^ 42 * 2 ^ 1032) as E by (by rewrite <-Z.pow_add_r).
  assert (0 < 2 ^ 1032) as H0 by (by apply pow2_pos).
  revert acc. induction l as [|x l IH]; intros acc Ha Fa HF Hle; cbn [foldl zsum foldr length] in *.
  { split_and!; [done|done|]. lia. }
  apply Forall_cons in HF as [Hx HF]. destruct (unit_facts x Hx) as (Vx & Fx & Hx1). pose proof (fnn_fv acc Ha) as Ha0.
  destruct (fadd_near acc x (-42) (fnn_valid _ Ha) Vx Fa Fx) as [Hf Hn]; [lia| |].
  { replace (53 + -42 + 1074) with 1085 by done. unfold fone in *. lia. }
  replace (-42 + 1074) with 1032 in Hn by done. fold (zsum l).
  destruct (IH (fadd acc x)) as (Hr1 & Hr2 & Hr3); [apply fadd_fnn; [done|apply Hx]|done|done| |].
  { unfold fone in *. lia. }
  split_and!; [done|done|]. lia.
Qed.
