(* ===== verification/Rands.v ===== *)
(** * Rands: the pseudo random generators of [libafl_bolts/src/rands/mod.rs]

    The trait [Rand] is the class [Rand]: [set_seed] and [next] are its methods,
    the provided methods ([next_float], [coinflip], [below], [zero_upto],
    [between], [choose]) are definitions over it.  [RandLaws] states what they
    rely on, that [next] yields a [u64]; every generator is an instance. *)

From Stdlib Require Import ZArith Zdivisibility Lia.
From S2P Require Import Prelude Float64 FloatFacts.

Local Open Scope Z_scope.

(** ** 64-bit words *)

Definition rotl (x k : Z) : Z := Z.lor (wrap64 (Z.shiftl x k)) (Z.shiftr x (64 - k)).
Definition wadd (a b : Z) : Z := wrap64 (a + b).
Definition wsub (a b : Z) : Z := wrap64 (a - b).
Definition wmul (a b : Z) : Z := wrap64 (a * b).
Definition shl64 (x k : Z) : Z := wrap64 (Z.shiftl x k).

(** ** Seeding and bounding *)

Definition splitmix64 (x : u64) : u64 * u64 :=
  let x := wadd x 0x9e3779b97f4a7c15 in
  let z := x in
  let z := wmul (Z.lxor z (Z.shiftr z 30)) 0xbf58476d1ce4e5b9 in
  let z := wmul (Z.lxor z (Z.shiftr z 27)) 0x94d049bb133111eb in
  (Z.lxor z (Z.shiftr z 31), x).

(** [(u128(rand) * u128(n)) >> 64 as usize] *)
Definition fast_bound (rand : u64) (n : nat) : nat :=
  let mul := (rand * Z.of_nat n) mod 2 ^ 128 in
  Z.to_nat (wrap64 (Z.shiftr mul 64)).

Definition fast_bound_usize (rand : u64) (n : nat) : nat :=
  let mul := (rand * Z.of_nat n) mod 2 ^ 128 in
  Z.to_nat (wrap64 (Z.shiftr mul 64)).

(** [choose] over an exact-size iterator; an index out of range panics. *)
Definition choose_exact {A} (from : list A) (rand : u64) : outcome Error (option A) :=
  match from with
  | [] => Ok None
  | _ => let? x := unwrap (from !! fast_bound rand (length from)) in Ok (Some x)
  end.

(** ** The trait *)

Class Rand (R : Type) := {
  set_seed : u64 → R → R;
  next : R → u64 * R;
}.

Section Methods.
Context {R : Type} `{!Rand R}.

Definition next_float (r : R) : f64 * R :=
  let max := Z.shiftl 1 53 in
  let max_div := fdiv f1 (of_Z max) in
  let '(n, r) := next r in
  let u := Z.land n (wsub max 1) in
  (fmul (of_Z u) max_div, r).

Definition coinflip (success_prob : f64) (r : R) : bool * R :=
  let '(x, r) := next_float r in (flt x success_prob, r).

Definition below (upper_bound_excl : nat) (r : R) : nat * R :=
  let '(n, r) := next r in (fast_bound n upper_bound_excl, r).

Definition zero_upto (n : nat) (r : R) : nat * R :=
  let '(x, r) := next r in (fast_bound_usize x n, r).

Definition between (lower_bound_incl upper_bound_incl : nat) (r : R) : nat * R :=
  let '(x, r) := below (upper_bound_incl - lower_bound_incl + 1) r in
  ((lower_bound_incl + x)%nat, r).

(** The reservoir loop of [choose] for an iterator whose [size_hint] is [hint]:
    [iter] is what the iterator has left. *)
Fixpoint choose_loop {A} (hint : list A → nat * option nat) (fuel : nat)
    (iter : list A) (lower : nat) (upper : option nat) (consumed : nat)
    (result : option A) (r : R) : option (option A) * R :=
  match fuel with
  | O => (None, r)
  | S fuel =>
    if (1 <? lower)%nat then
      let '(ix, r) := below (lower + consumed) r in
      let '(result, skip, iter) :=
        if (ix <? lower)%nat then (iter !! ix, (lower - (ix + 1))%nat, drop (ix + 1) iter)
        else (result, lower, iter) in
      if bool_decide (upper = Some lower) then (Some result, r)
      else
        let consumed := (consumed + lower)%nat in
        let iter := if (0 <? skip)%nat then drop skip iter else iter in
        let '(lower, upper) := hint iter in
        choose_loop hint fuel iter lower upper consumed result r
    else
      match iter with
      | [] => (Some result, r)
      | elem :: iter =>
        let consumed := S consumed in
        let '(k, r) := below consumed r in
        let result := if (k =? 0)%nat then Some elem else result in
        let '(lower, upper) := hint iter in
        choose_loop hint fuel iter lower upper consumed result r
      end
  end.

Definition choose {A} (hint : list A → nat * option nat) (from : list A) (r : R)
    : option (option A) * R :=
  let '(lower, upper) := hint from in
  if bool_decide (upper = Some lower) then
    match lower with
    | O => (Some None, r)
    | _ => let '(i, r) := below lower r in (Some (from !! i), r)
    end
  else choose_loop hint (S (length from)) from lower upper 0 None r.
End Methods.

(** ** The generators *)

Module Xoshiro256PlusPlus.
Record t := mk { s0 : u64; s1 : u64; s2 : u64; s3 : u64 }.

Definition set_seed (seed : u64) (_ : t) : t :=
  let '(a, seed) := splitmix64 seed in
  let '(b, seed) := splitmix64 seed in
  let '(c, seed) := splitmix64 seed in
  let '(d, seed) := splitmix64 seed in
  mk a b c d.

Definition next (r : t) : u64 * t :=
  let ret := wadd (rotl (wadd (s0 r) (s3 r)) 23) (s0 r) in
  let t := shl64 (s1 r) 17 in
  let s2' := Z.lxor (s2 r) (s0 r) in
  let s3' := Z.lxor (s3 r) (s1 r) in
  let s1' := Z.lxor (s1 r) s2' in
  let s0' := Z.lxor (s0 r) s3' in
  let s2'' := Z.lxor s2' t in
  let s3'' := rotl s3' 45 in
  (ret, mk s0' s1' s2'' s3'').

#[global] Instance rand : Rand t := Build_Rand t set_seed next.
Definition with_seed (seed : u64) : t := set_seed seed (mk 0 0 0 0).
End Xoshiro256PlusPlus.

Module XorShift64.
Record t := mk { s : u64 }.

Definition set_seed (seed : u64) (_ : t) : t := mk (Z.lor (splitmix64 seed).1 1).

Definition next (r : t) : u64 * t :=
  let x := s r in
  let x := Z.lxor x (shl64 x 13) in
  let x := Z.lxor x (Z.shiftr x 7) in
  let x := Z.lxor x (shl64 x 17) in
  (x, mk x).

#[global] Instance rand : Rand t := Build_Rand t set_seed next.
Definition with_seed (seed : u64) : t := set_seed seed (mk 0).
End XorShift64.

Module Lehmer64.
(** The state is a [u128]; the multiplication wraps in a release build. *)
Record t := mk { s : Z }.

Definition set_seed (seed : u64) (_ : t) : t :=
  let '(hi, seed) := splitmix64 seed in
  let lo := Z.lor (splitmix64 seed).1 1 in
  mk (Z.lor (Z.shiftl hi 64) lo).

Definition next (r : t) : u64 * t :=
  let s' := (s r * 0xda942042e4dd58b5) mod 2 ^ 128 in
  (wrap64 (Z.shiftr s' 64), mk s').

#[global] Instance rand : Rand t := Build_Rand t set_seed next.
Definition with_seed (seed : u64) : t := set_seed seed (mk 0).
End Lehmer64.

Module RomuTrio.
Record t := mk { x_state : u64; y_state : u64; z_state : u64 }.

Definition set_seed (seed : u64) (_ : t) : t :=
  let '(a, seed) := splitmix64 seed in
  let '(b, seed) := splitmix64 seed in
  let '(c, seed) := splitmix64 seed in
  mk a b c.

Definition next (r : t) : u64 * t :=
  let xp := x_state r in
  let yp := y_state r in
  let zp := z_state r in
  (xp, mk (wmul 15241094284759029579 zp) (rotl (wsub yp xp) 12) (rotl (wsub zp yp) 44)).

#[global] Instance rand : Rand t := Build_Rand t set_seed next.
Definition with_seed (seed : u64) : t := set_seed seed (mk 0 0 0).
End RomuTrio.

Module RomuDuoJr.
Record t := mk { x_state : u64; y_state : u64 }.

Definition set_seed (seed : u64) (_ : t) : t :=
  let '(a, seed) := splitmix64 seed in
  let '(b, seed) := splitmix64 seed in
  mk a b.

Definition next (r : t) : u64 * t :=
  let xp := x_state r in
  (xp, mk (wmul 15241094284759029579 (y_state r)) (rotl (wsub (y_state r) xp) 27)).

#[global] Instance rand : Rand t := Build_Rand t set_seed next.
Definition with_seed (seed : u64) : t := set_seed seed (mk 0 0).
End RomuDuoJr.

Module Sfc64.
Record t := mk { a : u64; b : u64; c : u64; w : u64 }.

Definition next (r : t) : u64 * t :=
  let out := wadd (wadd (a r) (b r)) (w r) in
  (out, mk (Z.lxor (b r) (Z.shiftr (b r) 11)) (wadd (c r) (shl64 (c r) 3))
           (wadd (rotl (c r) 24) out) (wadd (w r) 1)).

Definition set_seed (seed : u64) (_ : t) : t :=
  Nat.iter 12 (λ r, (next r).2) (mk seed seed seed 1).

#[global] Instance rand : Rand t := Build_Rand t set_seed next.
Definition with_seed (seed : u64) : t := set_seed seed (mk 0 0 0 0).
End Sfc64.

Module XkcdRand.
Record t := mk { val : u64 }.
Definition set_seed (seed : u64) (_ : t) : t := mk (splitmix64 seed).1.
Definition next (r : t) : u64 * t := (val r, r).
#[global] Instance rand : Rand t := Build_Rand t set_seed next.
Definition new : t := mk 4.
End XkcdRand.

(** [StdRand] *)
Abbreviation StdRand := RomuDuoJr.t.

(** The golden values of the unit tests of [rands/mod.rs]. *)
Fixpoint outputs {R} `{!Rand R} (n : nat) (r : R) : list u64 :=
  match n with
  | O => []
  | S n => let '(x, r) := next r in x :: outputs n r
  end.

Example romuduojr_golden :
  outputs 9 (RomuDuoJr.mk 0x3c91b13ee3913664 0x863f0e37c2637d1f)
  = [0x3c91b13ee3913664; 0xdc1980b78df3115; 0x1c163b704996d2ad; 0xa000c594bb28313b;
     0xfb6c42e69a523526; 0x1fcebd6988ab21d8; 0x5e0a8abf025f8f02; 0x29554b00ffab0263;
     0xff5b6bb1551cf66].
Proof. vm_compute. reflexivity. Qed.

Example romutrio_golden :
  outputs 4 (RomuTrio.with_seed 0)
  = [16294208416658607535; 13964609475759908645; 4703697494102998476; 3425221541186733346].
Proof. vm_compute. reflexivity. Qed.

Example xoshiro256pp_golden :
  outputs 6 (Xoshiro256PlusPlus.with_seed 0)
  = [0x53175d61490b23df; 0x61da6f3dc380d507; 0x5c0fdf91ec9a7bfc;
     0x02eebf8c3bbe5e1a; 0x7eca04ebaf4a5eea; 0x0543c37757f08d9a].
Proof. vm_compute. reflexivity. Qed.

Example sfc64_golden :
  outputs 4 (Sfc64.with_seed 0)
  = [0x3acfa029e3cc6041; 0xf5b6515bf2ee419c; 0x1259635894a29b61; 0xb6ae75395f8ebd6].
Proof. vm_compute. reflexivity. Qed.

(** ** Words stay words *)

Lemma is_u64_lt x : is_u64 x ↔ 0 ≤ x < 2 ^ 64.
Proof. unfold is_u64, u64_max. lia. Qed.

Lemma lxor_is_u64 a b : is_u64 a → is_u64 b → is_u64 (Z.lxor a b).
Proof.
  rewrite !is_u64_lt. intros [Ha Ha'] [Hb Hb'].
  assert (0 ≤ Z.lxor a b) by (apply Z.lxor_nonneg; tauto). split; [done|].
  destruct (Z.eq_dec (Z.lxor a b) 0) as [->|]; [lia|].
  apply Z.log2_lt_pow2; [lia|]. eapply Z.le_lt_trans; [by apply Z.log2_lxor|].
  destruct (Z.max_spec (Z.log2 a) (Z.log2 b)) as [[_ ->]|[_ ->]];
    destruct (Z.eq_dec a 0), (Z.eq_dec b 0); subst; simpl; try lia;
    apply Z.log2_lt_pow2; lia.
Qed.

Lemma lor_bound n a b : 0 < n → 0 ≤ a < 2 ^ n → 0 ≤ b < 2 ^ n → 0 ≤ Z.lor a b < 2 ^ n.
Proof.
  intros Hn [Ha Ha'] [Hb Hb'].
  assert (0 ≤ Z.lor a b) by (apply Z.lor_nonneg; tauto). split; [done|].
  destruct (Z.eq_dec (Z.lor a b) 0) as [->|]; [lia|].
  apply Z.log2_lt_pow2; [lia|]. rewrite Z.log2_lor by done.
  destruct (Z.max_spec (Z.log2 a) (Z.log2 b)) as [[_ ->]|[_ ->]];
    destruct (Z.eq_dec a 0), (Z.eq_dec b 0); subst; simpl; try lia;
    apply Z.log2_lt_pow2; lia.
Qed.

Lemma lor_is_u64 a b : is_u64 a → is_u64 b → is_u64 (Z.lor a b).
Proof. rewrite !is_u64_lt. by apply lor_bound. Qed.

Lemma shiftr_is_u64 a k : 0 ≤ k → is_u64 a → is_u64 (Z.shiftr a k).
Proof.
  rewrite !is_u64_lt. intros Hk [Ha Ha']. rewrite Z.shiftr_div_pow2 by done.
  pose proof (pow2_pos k Hk). split; [by apply Z.div_pos|].
  apply Z.div_lt_upper_bound; [done|]. nia.
Qed.

Lemma rotl_is_u64 x k : 0 ≤ k ≤ 64 → is_u64 x → is_u64 (rotl x k).
Proof. intros Hk Hx. apply lor_is_u64; [apply wrap64_is_u64|apply shiftr_is_u64; [lia|done]]. Qed.

#[export] Hint Resolve lxor_is_u64 lor_is_u64 shiftr_is_u64 rotl_is_u64 : u64.
#[export] Hint Extern 1 (is_u64 (wadd _ _)) => apply wrap64_is_u64 : u64.
#[export] Hint Extern 1 (is_u64 (wsub _ _)) => apply wrap64_is_u64 : u64.
#[export] Hint Extern 1 (is_u64 (wmul _ _)) => apply wrap64_is_u64 : u64.
#[export] Hint Extern 1 (is_u64 (shl64 _ _)) => apply wrap64_is_u64 : u64.
#[export] Hint Extern 2 (0 ≤ _)%Z => lia : u64.
#[export] Hint Extern 2 (0 ≤ _ ≤ _)%Z => lia : u64.

Lemma splitmix64_is_u64 x : is_u64 (splitmix64 x).1 ∧ is_u64 (splitmix64 x).2.
Proof. unfold splitmix64. simpl. auto with u64. Qed.

(** What the provided methods need of a generator: a state invariant that
    seeding establishes, [next] keeps, and under which it yields a [u64]. *)
Class RandLaws (R : Type) `{!Rand R} := {
  rand_inv : R → Prop;
  seed_inv : ∀ seed r, is_u64 seed → rand_inv (set_seed seed r);
  next_inv : ∀ r, rand_inv r → rand_inv (next r).2;
  next_u64 : ∀ r, rand_inv r → is_u64 (next r).1;
}.

Lemma is_u64_1 : is_u64 1.
Proof. unfold is_u64, u64_max. lia. Qed.
#[export] Hint Resolve is_u64_1 : u64.

(** A left or right xor-shift has no fixed difference: only 0 is sent to 0. *)
Lemma xorshl_nonzero x k : 0 < k < 64 → is_u64 x → x ≠ 0 → Z.lxor x (shl64 x k) ≠ 0.
Proof.
  rewrite is_u64_lt. intros Hk Hx Hne Heq%Z.lxor_eq. unfold shl64, wrap64 in Heq.
  rewrite Z.shiftl_mul_pow2 in Heq by lia.
  assert (Hdiv : (2 ^ 64 | x * (2 ^ k - 1))).
  { exists ((x * 2 ^ k) / 2 ^ 64). pose proof (Z.div_mod (x * 2 ^ k) (2 ^ 64)). lia. }
  assert (Hgcd : Z.gcd (2 ^ 64) (2 ^ k - 1) = 1).
  { apply Z.coprime_pow_l; [lia|]. apply Z.bezout_1_gcd.
    exists (2 ^ (k - 1)), (-1). replace (2 ^ k) with (2 ^ (k - 1) * 2); [lia|].
    rewrite Z.mul_comm, <- Z.pow_succ_r by lia. f_equal. lia. }
  rewrite Z.mul_comm in Hdiv. apply Z.gauss in Hdiv; [|done].
  apply Z.divide_pos_le in Hdiv; lia.
Qed.

Lemma xorshr_nonzero x k : 0 < k → 0 ≤ x → x ≠ 0 → Z.lxor x (Z.shiftr x k) ≠ 0.
Proof.
  intros Hk Hx Hne Heq%Z.lxor_eq. rewrite Z.shiftr_div_pow2 in Heq by lia.
  assert (1 < 2 ^ k) by (apply Z.pow_gt_1; lia).
  pose proof (Z.div_lt x (2 ^ k) ltac:(lia) ltac:(lia)). lia.
Qed.

#[export] Program Instance xoshiro_laws : RandLaws Xoshiro256PlusPlus.t := {|
  rand_inv r := is_u64 (Xoshiro256PlusPlus.s0 r) ∧ is_u64 (Xoshiro256PlusPlus.s1 r) ∧
                is_u64 (Xoshiro256PlusPlus.s2 r) ∧ is_u64 (Xoshiro256PlusPlus.s3 r) |}.
Next Obligation. intros. simpl. split_and!; auto with u64. Qed.
Next Obligation. intros [a b c d]; simpl; intros (? & ? & ? & ?); split_and!; eauto 6 with u64. Qed.
Next Obligation. intros [a b c d]; simpl. eauto with u64. Qed.

#[export] Program Instance xorshift_laws : RandLaws XorShift64.t := {|
  rand_inv r := is_u64 (XorShift64.s r) ∧ XorShift64.s r ≠ 0 |}.
Next Obligation.
  intros seed r _. split; [simpl; auto 10 with u64|]. unfold set_seed. simpl.
  intros H. by apply Z.lor_eq_0_iff in H as [_ ?].
Qed.
Next Obligation.
  intros [x]; simpl. intros [Hx Hne]. split; [eauto 8 with u64|].
  apply xorshl_nonzero; [lia|eauto 8 with u64|].
  assert (is_u64 (Z.lxor x (shl64 x 13))) as [? _] by eauto with u64.
  apply xorshr_nonzero; [lia|done|]. apply xorshl_nonzero; [lia|done|done].
Qed.
Next Obligation. intros [a]; simpl. intros [? _]. eauto 8 with u64. Qed.

#[export] Program Instance lehmer_laws : RandLaws Lehmer64.t := {|
  rand_inv r := 0 ≤ Lehmer64.s r < 2 ^ 128 |}.
Next Obligation.
  intros seed r _. simpl. apply lor_bound; [lia| |].
  - rewrite Z.shiftl_mul_pow2 by lia.
    match goal with |- 0 ≤ ?h * _ < _ => assert (is_u64 h) as Hh%is_u64_lt by auto with u64 end.
    lia.
  - match goal with |- 0 ≤ ?l < _ => assert (is_u64 l) as Hl%is_u64_lt by auto with u64 end.
    lia.
Qed.
Next Obligation. intros [a]; simpl. intros _. apply Z.mod_pos_bound. lia. Qed.
Next Obligation. intros [a]; simpl. intros _. apply wrap64_is_u64. Qed.

#[export] Program Instance romutrio_laws : RandLaws RomuTrio.t := {|
  rand_inv r := is_u64 (RomuTrio.x_state r) ∧ is_u64 (RomuTrio.y_state r) ∧ is_u64 (RomuTrio.z_state r) |}.
Next Obligation. intros. simpl. split_and!; auto with u64. Qed.
Next Obligation. intros [a b c]; simpl; intros (? & ? & ?); split_and!; eauto 6 with u64. Qed.
Next Obligation. intros [a b c]; simpl. tauto. Qed.

#[export] Program Instance romuduojr_laws : RandLaws RomuDuoJr.t := {|
  rand_inv r := is_u64 (RomuDuoJr.x_state r) ∧ is_u64 (RomuDuoJr.y_state r) |}.
Next Obligation. intros. simpl. split_and!; auto with u64. Qed.
Next Obligation. intros [a b]; simpl; intros (? & ?); split_and!; eauto 6 with u64. Qed.
Next Obligation. intros [a b]; simpl. tauto. Qed.

Definition sfc64_words (r : Sfc64.t) : Prop :=
  is_u64 (Sfc64.a r) ∧ is_u64 (Sfc64.b r) ∧ is_u64 (Sfc64.c r) ∧ is_u64 (Sfc64.w r).

Lemma sfc64_next_words r : sfc64_words r → sfc64_words (Sfc64.next r).2.
Proof.
  destruct r as [a b c d]. unfold sfc64_words. simpl. intros (? & ? & ? & ?).
  split_and!; auto with u64.
Qed.

Lemma sfc64_iter_words n r : sfc64_words r → sfc64_words (Nat.iter n (λ r, (Sfc64.next r).2) r).
Proof. intros Hr. induction n as [|n IH]; [done|]. apply sfc64_next_words, IH. Qed.

#[export] Program Instance sfc64_laws : RandLaws Sfc64.t := {| rand_inv := sfc64_words |}.
Next Obligation.
  intros seed r Hs. apply sfc64_iter_words. repeat split; apply Hs || apply is_u64_1.
Qed.
Next Obligation. apply sfc64_next_words. Qed.
Next Obligation. intros [a b c d] _. simpl. auto with u64. Qed.

#[export] Program Instance xkcd_laws : RandLaws XkcdRand.t := {| rand_inv r := is_u64 (XkcdRand.val r) |}.
Next Obligation. intros. simpl. auto with u64. Qed.
Next Obligation. done. Qed.
Next Obligation. done. Qed.

(** ** Correctness of the provided methods *)

Lemma fast_bound_lt rand n : is_u64 rand → (0 < n)%nat → Z.of_nat n ≤ u64_max →
  (fast_bound rand n < n)%nat.
Proof.
  rewrite is_u64_lt. intros Hr Hn Hn'. unfold fast_bound, u64_max in *.
  rewrite Z.mod_small by nia. rewrite Z.shiftr_div_pow2 by lia.
  assert (rand * Z.of_nat n / 2 ^ 64 < Z.of_nat n) by (apply Z.div_lt_upper_bound; nia).
  assert (0 ≤ rand * Z.of_nat n / 2 ^ 64) by (apply Z.div_pos; nia).
  rewrite wrap64_small by (rewrite is_u64_lt; lia). lia.
Qed.

Lemma choose_exact_spec {A} (l : list A) rand : is_u64 rand → Z.of_nat (length l) ≤ u64_max →
  ∃ o, choose_exact l rand = Ok o ∧ (o = None ↔ l = []) ∧ ∀ x, o = Some x → x ∈ l.
Proof.
  intros Hr Hl. destruct l as [|y l]; [by exists None|].
  unfold choose_exact. pose proof (fast_bound_lt rand (length (y :: l)) Hr ltac:(simpl; lia) Hl) as Hlt.
  apply lookup_lt_is_Some in Hlt as [x Hx]. rewrite Hx. simpl. exists (Some x).
  split_and!; [done|done|]. intros z [= ->]. by eapply list_elem_of_lookup_2.
Qed.

Section MethodLaws.
Context {R : Type} `{!Rand R, !RandLaws R}.
Implicit Types r : R.

Lemma below_lt n r : rand_inv r → (0 < n)%nat → Z.of_nat n ≤ u64_max →
  ((below n r).1 < n)%nat ∧ rand_inv (below n r).2.
Proof.
  intros Hr Hn Hn'. unfold below. pose proof (next_u64 r Hr). pose proof (next_inv r Hr).
  destruct (next r) as [x r']. simpl in *. split; [|done]. by apply fast_bound_lt.
Qed.

Lemma zero_upto_spec n r : rand_inv r → Z.of_nat n ≤ u64_max →
  ((zero_upto n r).1 < Nat.max 1 n)%nat ∧ rand_inv (zero_upto n r).2.
Proof.
  intros Hr Hn'. unfold zero_upto. pose proof (next_u64 r Hr). pose proof (next_inv r Hr).
  destruct (next r) as [x r']. simpl in *. split; [|done].
  destruct n as [|n]; [unfold fast_bound_usize; rewrite Z.mul_0_r; vm_compute; lia|].
  replace (Nat.max 1 (S n)) with (S n) by lia. apply fast_bound_lt; [done|lia|done].
Qed.

Lemma between_spec lo hi r : rand_inv r → (lo ≤ hi)%nat → Z.of_nat hi < u64_max →
  (lo ≤ (between lo hi r).1 ≤ hi)%nat ∧ rand_inv (between lo hi r).2.
Proof.
  intros Hr Hle Hhi. unfold between.
  pose proof (below_lt (hi - lo + 1) r Hr ltac:(lia) ltac:(lia)) as [H1 H2].
  destruct (below _ r) as [x r']. simpl in *. split; [lia|done].
Qed.

(** [next_float] multiplies a 53-bit integer by 2^-53: a finite value of [0, 1). *)
Lemma next_float_unit r : rand_inv r →
  let x := (next_float r).1 in
  fnn x ∧ is_finite x = true ∧ flt x f1 = true ∧ rand_inv (next_float r).2.
Proof.
  intros Hr. cbv zeta. unfold next_float.
  pose proof (next_u64 r Hr) as Hn. pose proof (next_inv r Hr) as Hi.
  destruct (next r) as [n r']. simpl in Hn, Hi.
  change (fdiv f1 (of_Z (Z.shiftl 1 53))) with (S754_finite false 4503599627370496 (-105)).
  change (wsub (Z.shiftl 1 53) 1) with (Z.ones 53). rewrite Z.land_ones by lia.
  set (u := n mod 2 ^ 53). assert (Hu : 0 ≤ u < 2 ^ 53) by (apply Z.mod_pos_bound; lia).
  simpl fst. simpl snd. destruct (of_Z_exact u Hu) as (Hnn & Hfin & Hv).
  assert (Hc : canon (2 ^ 52) (-105)) by (unfold canon; lia).
  destruct (of_Z u) as [sz|sz| |sz m e] eqn:Eu; try done.
  destruct Hnn as [Hval ->]. pose proof Hval as Hval'. unfold fvalid in Hval'.
  rewrite valid_finite in Hval'. destruct Hval' as [Hcm _].
  assert (Hmul : fmul (S754_finite false m e) (S754_finite false 4503599627370496 (-105))
    = binary_round_aux prec emax false (Zpos (m * 4503599627370496)) (e + -105) loc_Exact) by done.
  pose proof (mul_aux_pre m e 4503599627370496 (-105) Hcm Hc) as Hpre.
  set (b := Z.min (e + -105) (-1074)).
  edestruct (round_le false (Zpos (m * 4503599627370496)) (e + -105) loc_Exact)
    with (b := b) (mv := 2 ^ 53 - 1) (ev := -53) as (m2 & e2 & Hp & He2 & Hm2 & Hle);
    [lia|exact Hpre|unfold canon; lia|lia|lia| |].
  { pose proof Hcm as (_ & He & _). simpl inexact. rewrite Z.add_0_r, Pos2Z.inj_mul.
    simpl fv in Hv.
    assert (Heq : Zpos m * 2 ^ (e + 1074) * 2 ^ (-53 - b) = u * 2 ^ 1074 * 2 ^ (-53 - b)) by lia.
    change 4503599627370496 with (2 ^ 52).
    apply (Z.mul_le_mono_pos_r _ _ (2 ^ 1074)); [apply pow2_pos; lia|].
    rewrite <- !Z.mul_assoc, <- !Z.pow_add_r in * by lia.
    replace (52 + (e + -105 - b + 1074)) with (e + 1074 + (-53 - b)) by lia.
    rewrite Heq. replace (1074 + (-53 - b)) with (-53 - b + 1074) by lia.
    apply Z.mul_le_mono_nonneg_r; [apply Z.pow_nonneg; lia|lia]. }
  rewrite rebase_le in Hle by lia. rewrite Hmul.
  destruct (pack_bounded _ _ _ _ (2 ^ 53 - 1) (-53) Hp) as [Hf Hv'];
    [lia|unfold canon; lia|lia|done|].
  split_and!; [by eapply pack_fnn|done| |done].
  apply flt_fv; [by eapply pack_valid|done|done|done|].
  rewrite Hv'. simpl cond_Zopp. eapply Z.le_lt_trans; [exact Hle|]. done.
Qed.

(** A [size_hint] is correct when it brackets the number of items left. *)
Definition hint_ok {A} (hint : list A → nat * option nat) : Prop :=
  ∀ l, ((hint l).1 ≤ length l)%nat ∧ ∀ u, (hint l).2 = Some u → (length l ≤ u)%nat.

Lemma choose_loop_spec {A} (hint : list A → nat * option nat) : hint_ok hint →
  ∀ fuel iter lower upper consumed result r,
    (length iter < fuel)%nat → hint iter = (lower, upper) →
    Z.of_nat (consumed + length iter) ≤ u64_max → rand_inv r →
    (consumed = 0%nat ∨ is_Some result) →
    ∃ res, (choose_loop hint fuel iter lower upper consumed result r).1 = Some res ∧
      (res = None ↔ result = None ∧ iter = []) ∧
      (∀ x, res = Some x → result = Some x ∨ x ∈ iter).
Proof.
  intros Hok. induction fuel as [|fuel IH];
    intros iter lower upper consumed result r Hf Hh Hb Hr Hinv; [lia|].
  cbn [choose_loop]. pose proof (Hok iter) as [Hlo _]. rewrite Hh in Hlo. simpl in Hlo.
  destruct (Nat.ltb_spec 1 lower) as [H1|H1].
  - pose proof (below_lt (lower + consumed) r Hr ltac:(lia) ltac:(lia)) as [Hix Hr'].
    destruct (below (lower + consumed) r) as [ix r']. simpl in Hix, Hr'.
    set (step := if (ix <? lower)%nat then _ else _).
    assert (Hstep : ∃ result' skip iter', step = (result', skip, iter') ∧ is_Some result' ∧
      (∀ x, result' = Some x → result = Some x ∨ x ∈ iter) ∧
      (drop skip iter' = drop lower iter) ∧ (skip = 0%nat → iter' = drop lower iter)).
    { unfold step. destruct (Nat.ltb_spec ix lower) as [Hl|Hl].
      - eexists _, _, _. split_and!; [done| | | |].
        + apply lookup_lt_is_Some. lia.
        + intros x Hx. right. by eapply list_elem_of_lookup_2.
        + rewrite drop_drop. f_equal. lia.
        + intros ?. f_equal. lia.
      - eexists _, _, _. split_and!; [done| |tauto|done|lia].
        destruct Hinv as [->|?]; [lia|done]. }
    destruct Hstep as (result' & skip & iter' & -> & [y Hy] & Hres & Hd & Hd0).
    assert (Hne : iter ≠ []) by (intros ->; simpl in *; lia).
    case_bool_decide.
    { exists result'. split_and!; [done| |done]. subst. naive_solver. }
    replace (if (0 <? skip)%nat then drop skip iter' else iter') with (drop lower iter).
    2:{ destruct (Nat.ltb_spec 0 skip); [done|]. symmetry. apply Hd0. lia. }
    destruct (hint (drop lower iter)) as [lower' upper'] eqn:Hh'.
    destruct (IH (drop lower iter) lower' upper' (consumed + lower)%nat result' r') as (res & Hrun & Hn & Hin);
      [rewrite length_drop; lia|done|rewrite length_drop; lia|done|right; eauto|].
    exists res. split_and!; [done| |].
    + rewrite Hn. subst. naive_solver.
    + intros x [?|Hx]%Hin; [by apply Hres|]. right. rewrite <- (take_drop lower iter). set_solver.
  - destruct iter as [|elem iter]; [exists result; naive_solver|].
    pose proof (below_lt (S consumed) r Hr ltac:(lia) ltac:(simpl in *; lia)) as [Hk Hr'].
    destruct (below (S consumed) r) as [k r']. simpl in Hk, Hr'.
    destruct (hint iter) as [lower' upper'] eqn:Hh'.
    set (result' := if (k =? 0)%nat then Some elem else result).
    assert (Hres : is_Some result' ∧ ∀ x, result' = Some x → result = Some x ∨ x = elem).
    { unfold result'. destruct (Nat.eqb_spec k 0); [naive_solver|].
      destruct Hinv as [->|?]; [lia|naive_solver]. }
    destruct Hres as [[y Hy] Hres].
    destruct (IH iter lower' upper' (S consumed) result' r') as (res & Hrun & Hn & Hin);
      [simpl in *; lia|done|simpl in *; lia|done|right; eauto|].
    exists res. split_and!; [done| |].
    + rewrite Hn, Hy. naive_solver.
    + intros x [Hx|Hx]%Hin; [|set_solver]. apply Hres in Hx as [?| ->]; [by left|set_solver].
Qed.

(** The numbers every lawful generator hands out stay in the ranges the methods
    promise ([below], [between], [next_float] in [0, 1)); [zero_upto n] stays below
    [n], although its documentation says that [n] itself can be returned. *)
Theorem rand_ranges r : rand_inv r →
  (∀ n, (0 < n)%nat → Z.of_nat n ≤ u64_max → ((below n r).1 < n)%nat) ∧
  (∀ n, (0 < n)%nat → Z.of_nat n ≤ u64_max → ((zero_upto n r).1 < n)%nat) ∧
  (∀ lo hi, (lo ≤ hi)%nat → Z.of_nat hi < u64_max → (lo ≤ (between lo hi r).1 ≤ hi)%nat) ∧
  (fle f0 (next_float r).1 = true ∧ flt (next_float r).1 f1 = true).
Proof.
  intros Hr. split_and!.
  - intros n Hn Hm. by apply below_lt.
  - intros n Hn Hm. destruct (zero_upto_spec n r Hr Hm) as [? _]. lia.
  - intros lo hi Hl Hh. by apply between_spec.
  - apply fnn_le. by apply next_float_unit.
  - by apply next_float_unit.
Qed.

(** [choose] terminates for every iterator with a correct size hint, and picks an item
    of the iterator; it answers [None] exactly for the empty iterator. *)
Theorem choose_spec {A} (hint : list A → nat * option nat) from r :
  hint_ok hint → Z.of_nat (length from) ≤ u64_max → rand_inv r →
  ∃ res, (choose hint from r).1 = Some res ∧ (res = None ↔ from = []) ∧
    ∀ x, res = Some x → x ∈ from.
Proof.
  intros Hh Hl Hr. unfold choose. destruct (hint from) as [lower upper] eqn:E.
  case_bool_decide as Hu.
  - destruct (Hh from) as [H1 H2]. rewrite E in H1, H2. simpl in H1, H2. apply H2 in Hu.
    destruct lower as [|lower].
    + exists None. destruct from; simpl in *; [done|lia].
    + pose proof (below_lt (S lower) r Hr ltac:(lia) ltac:(lia)) as [Hb _].
      destruct (below (S lower) r) as [i r']. simpl in Hb |- *.
      destruct (lookup_lt_is_Some_2 from i) as [x Hx]; [lia|].
      exists (Some x). rewrite Hx. split_and!; [done| |].
      * split; [done|intros ->; simpl in *; lia].
      * intros y [= <-]. by eapply list_elem_of_lookup_2.
  - destruct (choose_loop_spec hint Hh (S (length from)) from lower upper 0 None r)
      as (res & -> & Hn & Hx); [lia|done|lia|done|by left|].
    exists res. split_and!; [done|naive_solver|]. intros x ?. by destruct (Hx x).
Qed.
End MethodLaws.

(** The generators keep their invariant from the seed on: for [StdRand]. *)
Lemma std_rand_seeded seed : is_u64 seed → rand_inv (RomuDuoJr.with_seed seed).
Proof. intros ?. exact (seed_inv (RandLaws := romuduojr_laws) seed (RomuDuoJr.mk 0 0) ltac:(done)). Qed.

Lemma rand_ranges_witness :
  let r := RomuDuoJr.with_seed 7 in
  ((below 10 r).1 < 10)%nat ∧ (3 ≤ (between 3 9 r).1 ≤ 9)%nat.
Proof.
  assert (rand_inv (RomuDuoJr.with_seed 7)) as Hr by (apply std_rand_seeded; done).
  destruct (rand_ranges (RomuDuoJr.with_seed 7) Hr) as (H1 & _ & H2 & _).
  split; [apply H1|apply H2]; done || lia.
Defined.

Lemma choose_spec_witness : ∃ res,
  (choose (λ l : list nat, (0%nat, None)) [4; 8; 15]%nat (RomuDuoJr.with_seed 7)).1 = Some res ∧
  (res = None ↔ [4; 8; 15]%nat = []) ∧ ∀ x, res = Some x → x ∈ [4; 8; 15]%nat.
Proof.
  apply (choose_spec (λ l : list nat, (0%nat, None))).
  - intros l. split; [simpl; lia|done].
  - done.
  - apply std_rand_seeded. done.
Defined.
