(* ===== verification/Corpus.v ===== *)
(** * Corpus: the in-memory corpus of [libafl/src/corpus/inmemory.rs]

    [StorageMap] is [TestcaseStorageMap] (without the feature [corpus_btreemap]):
    a hash map from ids to items that carry the previous and the next id of a
    doubly linked list in creation order, a sorted vector of keys for [nth], and
    the ends of the list.  [Storage] holds the enabled and the disabled map with
    the progressive id, [InMemoryCorpus] adds the current id.  An [unwrap] on a
    missing entry is a panic. *)

From Stdlib Require Import ZArith Lia.
From S2P Require Import Prelude.

Abbreviation CorpusId := nat (only parsing).

Module InMemory.
Section Corpus.
Context {T : Type}.
Implicit Types (tc : T) (id : CorpusId).

Record Item := mkItem {
  testcase : T;
  prev : option CorpusId;
  next : option CorpusId;
}.

Record StorageMap := mkMap {
  map : gmap CorpusId Item;
  keys : list CorpusId;
  first_id : option CorpusId;
  last_id : option CorpusId;
}.

Record Storage := mkStorage {
  enabled : StorageMap;
  disabled : StorageMap;
  progressive_id : nat;
}.

Record InMemoryCorpus := mkCorpus {
  storage : Storage;
  current : option CorpusId;
}.

#[global] Instance eta_Item : Eta Item := λ r, mkItem (testcase r) (prev r) (next r).
#[global] Instance eta_StorageMap : Eta StorageMap :=
  λ r, mkMap (map r) (keys r) (first_id r) (last_id r).
#[global] Instance eta_Storage : Eta Storage :=
  λ r, mkStorage (enabled r) (disabled r) (progressive_id r).
#[global] Instance eta_InMemoryCorpus : Eta InMemoryCorpus :=
  λ r, mkCorpus (storage r) (current r).

(** [slice::binary_search] on the sorted keys: [inl] the index of the key,
    [inr] where to insert it. *)
Fixpoint binary_search (l : list CorpusId) id : nat + nat :=
  match l with
  | [] => inr 0
  | k :: l =>
    if (k <? id) then
      match binary_search l id with inl i => inl (S i) | inr i => inr (S i) end
    else if (k =? id) then inl 0 else inr 0
  end.

(** [Vec::insert] and [Vec::remove] at an index in range. *)
Definition vec_insert {A} (i : nat) (x : A) (l : list A) : list A := take i l ++ x :: drop i l.
Definition vec_remove {A} (i : nat) (l : list A) : list A := take i l ++ drop (S i) l.

Definition insert_key id (m : StorageMap) : StorageMap :=
  match binary_search (keys m) id with
  | inr idx => m <| keys := vec_insert idx id (keys m) |>
  | inl _ => m
  end.

Definition remove_key id (m : StorageMap) : StorageMap :=
  match binary_search (keys m) id with
  | inl idx => m <| keys := vec_remove idx (keys m) |>
  | inr _ => m
  end.

(** [map.get_mut(id).unwrap()] followed by an update of the item. *)
Definition map_update id (f : Item → Item) (m : StorageMap) : outcome Error StorageMap :=
  let? item := unwrap (map m !! id) in
  Ok (m <| map := <[id := f item]> (map m) |>).

Definition map_replace id tc (m : StorageMap) : option T * StorageMap :=
  match map m !! id with
  | Some entry => (Some (testcase entry), m <| map := <[id := entry <| testcase := tc |>]> (map m) |>)
  | None => (None, m)
  end.

Definition map_remove id (m : StorageMap) : outcome Error (option T * StorageMap) :=
  match map m !! id with
  | Some item =>
    let m := m <| map := delete id (map m) |> in
    let m := remove_key id m in
    let? m := match prev item with
              | Some p => map_update p (λ it, it <| next := next item |>) m
              | None => Ok (m <| first_id := next item |>)
              end in
    let? m := match next item with
              | Some n => map_update n (λ it, it <| prev := prev item |>) m
              | None => Ok (m <| last_id := prev item |>)
              end in
    Ok (Some (testcase item), m)
  | None => Ok (None, m)
  end.

Definition map_get id (m : StorageMap) : option T := testcase <$> map m !! id.
Definition map_next id (m : StorageMap) : option CorpusId :=
  match map m !! id with Some item => next item | None => None end.
Definition map_prev id (m : StorageMap) : option CorpusId :=
  match map m !! id with Some item => prev item | None => None end.
Definition map_first (m : StorageMap) : option CorpusId := first_id m.
Definition map_last (m : StorageMap) : option CorpusId := last_id m.
Definition map_new : StorageMap := mkMap ∅ [] None None.

(** The part of [insert_inner] that works on the chosen map. *)
Definition map_push id tc (m : StorageMap) : outcome Error StorageMap :=
  let? pm := match last_id m with
             | Some l =>
               let? m := map_update l (λ it, it <| next := Some id |>) m in
               Ok (Some l, m)
             | None => Ok (None, m)
             end in
  let '(p, m) := pm in
  let m := match first_id m with None => m <| first_id := Some id |> | Some _ => m end in
  let m := m <| last_id := Some id |> in
  let m := insert_key id m in
  Ok (m <| map := <[id := mkItem tc p None]> (map m) |>).

Definition insert_inner tc (is_disabled : bool) (s : Storage) : outcome Error (CorpusId * Storage) :=
  let id := progressive_id s in
  let s := s <| progressive_id := S id |> in
  if is_disabled then
    let? m := map_push id tc (disabled s) in Ok (id, s <| disabled := m |>)
  else
    let? m := map_push id tc (enabled s) in Ok (id, s <| enabled := m |>).

Definition peek_free_id (s : Storage) : CorpusId := progressive_id s.
Definition storage_new : Storage := mkStorage map_new map_new 0.

(** ** The trait [Corpus] *)

Definition new : InMemoryCorpus := mkCorpus storage_new None.
Definition count (c : InMemoryCorpus) : nat := size (map (enabled (storage c))).
Definition count_disabled (c : InMemoryCorpus) : nat := size (map (disabled (storage c))).
Definition count_all (c : InMemoryCorpus) : nat := count c + count_disabled c.

Definition add tc (c : InMemoryCorpus) : outcome Error (CorpusId * InMemoryCorpus) :=
  let? r := insert_inner tc false (storage c) in Ok (r.1, c <| storage := r.2 |>).
Definition add_disabled tc (c : InMemoryCorpus) : outcome Error (CorpusId * InMemoryCorpus) :=
  let? r := insert_inner tc true (storage c) in Ok (r.1, c <| storage := r.2 |>).

Definition replace id tc (c : InMemoryCorpus) : outcome Error (T * InMemoryCorpus) :=
  let '(old, m) := map_replace id tc (enabled (storage c)) in
  match old with
  | Some old => Ok (old, c <| storage := (storage c) <| enabled := m |> |>)
  | None => Err (key_not_found "Index {id} not found, could not replace." [ANat id])
  end.

Definition remove id (c : InMemoryCorpus) : outcome Error (T * InMemoryCorpus) :=
  let? r := map_remove id (enabled (storage c)) in
  match r.1 with
  | Some tc => Ok (tc, c <| storage := (storage c) <| enabled := r.2 |> |>)
  | None =>
    let? r := map_remove id (disabled (storage c)) in
    match r.1 with
    | Some tc => Ok (tc, c <| storage := (storage c) <| disabled := r.2 |> |>)
    | None => Err (key_not_found "Index {id} not found" [ANat id])
    end
  end.

Definition get id (c : InMemoryCorpus) : outcome Error T :=
  ok_or (map_get id (enabled (storage c))) (key_not_found "Index {id} not found" [ANat id]).

Definition get_from_all id (c : InMemoryCorpus) : outcome Error T :=
  let tc := match map_get id (enabled (storage c)) with
            | Some tc => Some tc
            | None => map_get id (disabled (storage c))
            end in
  ok_or tc (key_not_found "Index {id} not found" [ANat id]).

(** [keys[nth]] panics out of range. *)
Definition nth (n : nat) (c : InMemoryCorpus) : outcome Error CorpusId :=
  unwrap (keys (enabled (storage c)) !! n).

Definition nth_from_all (n : nat) (c : InMemoryCorpus) : outcome Error CorpusId :=
  if (count c <=? n) then unwrap (keys (disabled (storage c)) !! (n - count c))
  else unwrap (keys (enabled (storage c)) !! n).

(** [CorpusIdIterator]: follow the [next] links from the first id, or the
    [prev] links from the last one.  The fuel is the number of entries. *)
Fixpoint iter_next (fuel : nat) (m : StorageMap) (cur : option CorpusId) : list CorpusId :=
  match fuel, cur with
  | S fuel, Some id => id :: iter_next fuel m (map_next id m)
  | _, _ => []
  end.

Fixpoint iter_back (fuel : nat) (m : StorageMap) (cur : option CorpusId) : list CorpusId :=
  match fuel, cur with
  | S fuel, Some id => id :: iter_back fuel m (map_prev id m)
  | _, _ => []
  end.

Definition ids (c : InMemoryCorpus) : list CorpusId :=
  let m := enabled (storage c) in iter_next (S (size (map m))) m (map_first m).
Definition ids_rev (c : InMemoryCorpus) : list CorpusId :=
  let m := enabled (storage c) in iter_back (S (size (map m))) m (map_last m).

(** [get(id)?.borrow_mut()] and an update of the testcase in its cell. *)
Definition update id (f : T → T) (c : InMemoryCorpus) : outcome Error InMemoryCorpus :=
  let m := enabled (storage c) in
  let? item := ok_or (map m !! id) (key_not_found "Index {id} not found" [ANat id]) in
  Ok (c <| storage := (storage c) <| enabled :=
        m <| map := <[id := item <| testcase := f (testcase item) |>]> (map m) |> |> |>).
End Corpus.
Arguments Item : clear implicits.
Arguments StorageMap : clear implicits.
Arguments Storage : clear implicits.
Arguments InMemoryCorpus : clear implicits.
End InMemory.

Module InMemoryFacts.
Import InMemory.

Section Facts.
Context {T : Type}.
Implicit Types (m : StorageMap T) (s : Storage T) (c : InMemoryCorpus T) (tc : T) (id : CorpusId).

(** The id before position [i] of the creation order. *)
Definition before (l : list CorpusId) (i : nat) : option CorpusId :=
  match i with O => None | S j => l !! j end.

(** Well-formedness: the keys are sorted and below [bound], the map has exactly
    the keys, the links of the item at position [i] are its neighbours in the
    key order, and the ends of the list are the first and the last key. *)
Record wf (bound : nat) m : Prop := {
  wf_sorted : StronglySorted lt (keys m);
  wf_bound : ∀ id, id ∈ keys m → id < bound;
  wf_links : ∀ i id, keys m !! i = Some id → ∃ item, map m !! id = Some item ∧
    prev item = before (keys m) i ∧ next item = keys m !! S i;
  wf_dom : ∀ id, is_Some (map m !! id) → id ∈ keys m;
  wf_first : first_id m = keys m !! 0;
  wf_last : last_id m = last (keys m);
}.

(** ** Keys *)

Lemma sorted_lookup (l : list nat) i j x y : StronglySorted lt l →
  l !! i = Some x → l !! j = Some y → i < j → x < y.
Proof.
  intros Hs Hx Hy Hij. revert i j Hx Hy Hij.
  induction Hs as [|a l Hs IH Ha]; intros i j Hx Hy Hij; [done|].
  destruct i as [|i], j as [|j]; simpl in *; [lia| |lia|].
  - simplify_eq. rewrite Forall_forall in Ha. apply Ha. by eapply list_elem_of_lookup_2.
  - eapply IH; [done..|lia].
Qed.

Lemma sorted_inj (l : list nat) i j x : StronglySorted lt l →
  l !! i = Some x → l !! j = Some x → i = j.
Proof.
  intros Hs Hi Hj. destruct (Nat.lt_total i j) as [?|[?|?]]; [|done|].
  - assert (x < x) by (eapply (sorted_lookup l i j); eauto). lia.
  - assert (x < x) by (eapply (sorted_lookup l j i); eauto). lia.
Qed.

Lemma sorted_nodup (l : list nat) : StronglySorted lt l → NoDup l.
Proof. intros S. apply NoDup_alt. intros i j x. by apply sorted_inj. Qed.

Lemma binary_search_above (l : list nat) id : (∀ k, k ∈ l → k < id) →
  binary_search l id = inr (length l).
Proof.
  induction l as [|k l IH]; intros Hl; [done|]. simpl.
  destruct (Nat.ltb_spec k id) as [|Hk]; [|specialize (Hl k); set_solver by lia].
  rewrite IH; [done|]. intros k' ?. apply Hl. by right.
Qed.

Lemma binary_search_found (l : list nat) i id : StronglySorted lt l →
  l !! i = Some id → binary_search l id = inl i.
Proof.
  intros Hs. revert i. induction Hs as [|k l Hs IH Hk]; intros i Hi; [done|].
  destruct i as [|i]; simpl in *.
  - simplify_eq. by rewrite Nat.ltb_irrefl, Nat.eqb_refl.
  - rewrite Forall_forall in Hk. specialize (Hk id ltac:(by eapply list_elem_of_lookup_2)).
    destruct (Nat.ltb_spec k id); [|lia]. by rewrite (IH i).
Qed.

Lemma vec_remove_lookup {A} (l : list A) i j : i < length l →
  vec_remove i l !! j = if decide (j < i) then l !! j else l !! S j.
Proof.
  intros Hi. unfold vec_remove. case_decide.
  - rewrite lookup_app_l by (rewrite length_take; lia). by rewrite lookup_take_lt.
  - rewrite lookup_app_r by (rewrite length_take; lia). rewrite length_take, lookup_drop.
    f_equal. lia.
Qed.

Lemma vec_remove_sorted (l : list nat) i : StronglySorted lt l → StronglySorted lt (vec_remove i l).
Proof.
  intros Hs. revert i. induction Hs as [|k l Hs IH Hk]; intros i.
  - destruct i; constructor.
  - destruct i as [|i]; [done|]. unfold vec_remove in *. simpl. constructor; [apply IH|].
    rewrite Forall_forall in *. intros x [Hx|Hx]%elem_of_app; apply Hk.
    + rewrite <- (take_drop i l). set_solver.
    + rewrite <- (take_drop (S i) l). set_solver.
Qed.

Lemma sorted_app_snoc (l : list nat) x : StronglySorted lt l → (∀ y, y ∈ l → y < x) →
  StronglySorted lt (l ++ [x]).
Proof.
  intros Hs Hx. induction Hs as [|k l Hs IH Hk]; simpl; [repeat constructor|].
  constructor; [apply IH; intros y ?; apply Hx; by right|].
  rewrite Forall_app, Forall_singleton. split; [done|]. apply Hx. by left.
Qed.

(** ** Lookup *)

Lemma wf_lookup bound m id : wf bound m → (is_Some (map m !! id) ↔ id ∈ keys m).
Proof.
  intros W. split; [apply (wf_dom _ _ W)|]. intros [i Hi]%list_elem_of_lookup.
  destruct (wf_links _ _ W i id Hi) as (item & -> & _). eauto.
Qed.

Lemma wf_size bound m : wf bound m → size (map m) = length (keys m).
Proof.
  intros W. rewrite <- size_dom.
  assert (Hd : dom (map m) = list_to_set (keys m)).
  { apply set_eq. intros id. rewrite elem_of_dom, elem_of_list_to_set. by eapply wf_lookup. }
  rewrite Hd. apply size_list_to_set. by apply sorted_nodup, W.
Qed.

Lemma wf_mono b b' m : b ≤ b' → wf b m → wf b' m.
Proof. intros Hb [? Hbnd ? ? ? ?]. split; [done| |done..]. intros id Hid%Hbnd. lia. Qed.

Lemma wf_new : wf 0 (map_new (T := T)).
Proof.
  split; simpl; try done; [constructor|set_solver|].
  intros id [? Hx]. by rewrite lookup_empty in Hx.
Qed.

(** ** Insertion *)

(** Appending a key changes the links of the last item only. *)
Lemma links_snoc (l : list CorpusId) (mp : gmap CorpusId (Item T)) id tc k it :
  StronglySorted lt l → (∀ x, x ∈ l → x < id) → last l = Some k → mp !! k = Some it →
  (∀ i x, l !! i = Some x → ∃ item, mp !! x = Some item ∧
     prev item = before l i ∧ next item = l !! S i) →
  ∀ i x, (l ++ [id]) !! i = Some x →
    ∃ item, <[id := mkItem tc (Some k) None]> (<[k := it <| next := Some id |>]> mp) !! x = Some item ∧
      prev item = before (l ++ [id]) i ∧ next item = (l ++ [id]) !! S i.
Proof.
  intros Hs Hb Hlast Hk Hlinks i x Hi. apply last_Some in Hlast as [ks ->].
  assert (Hkl : (ks ++ [k]) !! length ks = Some k) by (by apply list_lookup_middle).
  rewrite lookup_app_Some in Hi. destruct Hi as [Hi|[Hge Hi]].
  - assert (Hne : x ≠ id) by (intros ->; apply list_elem_of_lookup_2, Hb in Hi; lia).
    assert (Hlen : i < length (ks ++ [k])) by (by eapply lookup_lt_Some).
    destruct (Hlinks i x Hi) as (it' & Hit' & Hp & Hn). rewrite lookup_insert_ne by done.
    assert (Hbef : before ((ks ++ [k]) ++ [id]) i = before (ks ++ [k]) i)
      by (destruct i; simpl; [done|]; rewrite lookup_app_l by lia; done).
    rewrite Hbef, <- Hp. destruct (decide (x = k)) as [->|Hnl].
    + assert (i = length ks) as -> by (by eapply sorted_inj).
      rewrite lookup_insert_eq. eexists. split; [done|]. simpl. simplify_eq. split; [done|].
      symmetry. apply list_lookup_middle. rewrite length_app. simpl. lia.
    + rewrite lookup_insert_ne by done. eexists. split_and!; [done..|].
      rewrite Hn. symmetry. apply lookup_app_l.
      assert (i ≠ length ks) by (intros ->; congruence). rewrite length_app in *. simpl in *. lia.
  - destruct (i - length (ks ++ [k])) as [|j] eqn:Ei; [|done]. injection Hi as <-.
    assert (i = S (length ks)) as -> by (rewrite length_app in *; simpl in *; lia).
    rewrite lookup_insert_eq. eexists. split; [done|]. simpl. split.
    + by rewrite lookup_app_l by (rewrite length_app; simpl; lia).
    + symmetry. apply lookup_ge_None. rewrite !length_app. simpl. lia.
Qed.

Lemma push_last m id tc k : wf id m → last (keys m) = Some k →
  ∃ it, map m !! k = Some it ∧ k < id ∧
    map_push id tc m = Ok (mkMap (<[id := mkItem tc (Some k) None]>
      (<[k := it <| next := Some id |>]> (map m))) (keys m ++ [id]) (first_id m) (Some id)).
Proof.
  intros W Hlast. pose proof Hlast as [ks Hks]%last_Some.
  assert (Hk : keys m !! length ks = Some k) by (rewrite Hks; by apply list_lookup_middle).
  destruct (wf_links _ _ W _ _ Hk) as (it & Hit & _).
  exists it. split; [done|]. split; [apply (wf_bound _ _ W); by eapply list_elem_of_lookup_2|].
  unfold map_push. rewrite (wf_last _ _ W), Hlast. unfold map_update. rewrite Hit. simpl.
  rewrite (wf_first _ _ W).
  assert (is_Some (keys m !! 0)) as [f Hf] by (apply lookup_lt_is_Some; rewrite Hks, length_app; simpl; lia).
  rewrite Hf. unfold insert_key. simpl. rewrite binary_search_above by apply (wf_bound _ _ W).
  unfold vec_insert, upd. rewrite firstn_all, drop_all. simpl. by rewrite (wf_first _ _ W), Hf.
Qed.

Lemma push_empty m id tc : wf id m → keys m = [] →
  map_push id tc m = Ok (mkMap {[id := mkItem tc None None]} [id] (Some id) (Some id)).
Proof.
  intros W El. assert (Hnone : map m = ∅).
  { apply map_eq. intros id'. rewrite lookup_empty. destruct (map m !! id') eqn:E; [|done].
    assert (id' ∈ keys m) by (apply (wf_dom _ _ W); eauto). rewrite El in *. set_solver. }
  unfold map_push. rewrite (wf_last _ _ W), El. simpl. rewrite (wf_first _ _ W), El. simpl. unfold insert_key, upd. simpl.
  by rewrite El, Hnone.
Qed.

Lemma wf_push m id tc : wf id m → ∃ m', map_push id tc m = Ok m' ∧ wf (S id) m' ∧
  keys m' = keys m ++ [id] ∧ map_get id m' = Some tc ∧
  (∀ id', id' ≠ id → map_get id' m' = map_get id' m).
Proof.
  intros W. destruct (last (keys m)) as [k|] eqn:El.
  - destruct (push_last m id tc k W El) as (it & Hit & Hkid & ->). eexists. split; [done|].
    assert (Hk : k ∈ keys m) by (apply (wf_dom _ _ W); eauto).
    split; [split; simpl|split_and!; [done|..]].
    + apply sorted_app_snoc; apply W.
    + intros x [?%(wf_bound _ _ W)| ->%list_elem_of_singleton]%elem_of_app; lia.
    + apply links_snoc; try done; apply W.
    + intros x Hx. rewrite elem_of_app, list_elem_of_singleton.
      destruct (decide (x = id)) as [->|]; [by right|]. left.
      destruct (decide (x = k)) as [->|]; [done|].
      rewrite !lookup_insert_ne in Hx by done. by apply (wf_dom _ _ W).
    + rewrite (wf_first _ _ W), lookup_app_l; [done|]. destruct (keys m); simpl; [set_solver|lia].
    + by rewrite last_snoc.
    + unfold map_get. simpl. by rewrite lookup_insert_eq.
    + intros id' Hne. unfold map_get. simpl. rewrite lookup_insert_ne by done.
      destruct (decide (id' = k)) as [->|]; [by rewrite lookup_insert_eq, Hit|].
      by rewrite lookup_insert_ne.
  - apply last_None in El. rewrite (push_empty m id tc W El). eexists. split; [done|]. rewrite El.
    split; [split; simpl|split_and!; [done|..]]; try done.
    + repeat constructor.
    + intros x ->%list_elem_of_singleton. lia.
    + intros [|i] x Hi; [|done]. injection Hi as <-. rewrite lookup_singleton_eq. eauto.
    + intros x Hx. destruct (decide (x = id)) as [->|]; [set_solver|].
      rewrite lookup_singleton_ne in Hx by done. by destruct Hx.
    + unfold map_get. simpl. by rewrite lookup_singleton_eq.
    + intros id' Hne. unfold map_get. simpl. rewrite lookup_singleton_ne by done.
      destruct (map m !! id') eqn:E; [|done].
      assert (id' ∈ keys m) by (apply (wf_dom _ _ W); eauto). rewrite El in *. set_solver.
Qed.

(** ** Removal *)

(** The map after [map_remove] of the item at position [i]. *)
Definition unlink (mp : gmap CorpusId (Item T)) (it : Item T) id : gmap CorpusId (Item T) :=
  let mp := delete id mp in
  let mp := match prev it with
            | Some p => alter (λ x, x <| next := next it |>) p mp
            | None => mp
            end in
  match next it with
  | Some n => alter (λ x, x <| prev := prev it |>) n mp
  | None => mp
  end.

Lemma unlink_lookup mp it id x : x ≠ id →
  unlink mp it id !! x =
    (λ y, let y := if decide (prev it = Some x) then y <| next := next it |> else y in
          if decide (next it = Some x) then y <| prev := prev it |> else y) <$> mp !! x.
Proof.
  intros Hne. unfold unlink.
  destruct (prev it) as [p|], (next it) as [n|]; rewrite ?lookup_alter;
    repeat case_decide; simplify_eq; rewrite ?lookup_alter, ?lookup_delete_ne by done;
    repeat case_decide; simplify_eq; by destruct (mp !! x).
Qed.

Lemma unlink_self mp it id : prev it ≠ Some id → next it ≠ Some id → unlink mp it id !! id = None.
Proof.
  intros Hp Hn. unfold unlink.
  destruct (prev it) as [p|], (next it) as [n|];
    rewrite ?lookup_alter_ne by congruence; apply lookup_delete_eq.
Qed.

Lemma remove_at bound m i id : wf bound m → keys m !! i = Some id →
  ∃ it, map m !! id = Some it ∧ prev it = before (keys m) i ∧ next it = keys m !! S i ∧
    map_remove id m = Ok (Some (testcase it),
      mkMap (unlink (map m) it id) (vec_remove i (keys m))
            (match before (keys m) i with None => keys m !! S i | Some _ => first_id m end)
            (match keys m !! S i with None => before (keys m) i | Some _ => last_id m end)).
Proof.
  intros W Hi. destruct (wf_links _ _ W i id Hi) as (it & Hit & Hp & Hn).
  exists it. split_and!; [done..|]. unfold map_remove. rewrite Hit.
  unfold remove_key. simpl. rewrite (binary_search_found _ i id (wf_sorted _ _ W) Hi).
  assert (Hneighbour : ∀ j x, keys m !! j = Some x → j ≠ i → is_Some (delete id (map m) !! x)).
  { intros j x Hj Hji. destruct (wf_links _ _ W j x Hj) as (y & Hy & _).
    rewrite lookup_delete_ne, Hy; [eauto|]. intros ->. apply Hji.
    eapply sorted_inj; [apply W|done|done]. }
  rewrite <- Hp, <- Hn. unfold unlink. destruct (prev it) as [p|] eqn:Ep.
  - destruct i as [|i]; [done|]. simpl in Hp. symmetry in Hp.
    destruct (Hneighbour i p Hp ltac:(lia)) as [y Hy]. unfold map_update. simpl. rewrite Hy. simpl.
    destruct (next it) as [n|] eqn:En.
    + symmetry in Hn. destruct (Hneighbour (S (S i)) n Hn ltac:(lia)) as [z Hz]. simpl.
      assert (p ≠ n) by (intros ->; pose proof (sorted_inj _ _ _ _ (wf_sorted _ _ W) Hp Hn); lia).
      rewrite lookup_insert_ne, Hz by done. simpl.
      unfold upd. simpl. do 3 f_equal. apply map_eq. intros x.
      rewrite !lookup_alter, !lookup_insert. repeat case_decide; simplify_eq; by rewrite ?Hy, ?Hz.
    + unfold upd. simpl. do 3 f_equal. apply map_eq. intros x.
      rewrite lookup_alter, lookup_insert. case_decide; simplify_eq; by rewrite ?Hy.
  - simpl. destruct (next it) as [n|] eqn:En; [|done].
    symmetry in Hn. destruct (Hneighbour (S i) n Hn ltac:(lia)) as [z Hz].
    unfold map_update. simpl. rewrite Hz. unfold upd. simpl. do 3 f_equal.
    apply map_eq. intros x. rewrite lookup_alter, lookup_insert. case_decide; simplify_eq; by rewrite ?Hz.
Qed.

(** The links after a removal: the neighbours of the removed item meet. *)
Lemma links_remove bound m i id it : wf bound m → keys m !! i = Some id →
  map m !! id = Some it → prev it = before (keys m) i → next it = keys m !! S i →
  ∀ j x, vec_remove i (keys m) !! j = Some x → ∃ item, unlink (map m) it id !! x = Some item ∧
    prev item = before (vec_remove i (keys m)) j ∧ next item = vec_remove i (keys m) !! S j.
Proof.
  intros W Hi Hit Hp Hn j x Hj. assert (Hlen : i < length (keys m)) by (by eapply lookup_lt_Some).
  pose proof (wf_sorted _ _ W) as Hs.
  assert (Hpos : ∃ k, keys m !! k = Some x ∧ k ≠ i ∧ k = if decide (j < i) then j else S j).
  { rewrite vec_remove_lookup in Hj by done. exists (if decide (j < i) then j else S j).
    destruct (decide (j < i)); split_and!; done || lia. }
  destruct Hpos as (k & Hk & Hki & Hkj). destruct (wf_links _ _ W k x Hk) as (y & Hy & Hyp & Hyn).
  assert (Hxid : x ≠ id) by (intros ->; apply Hki; by eapply sorted_inj).
  rewrite unlink_lookup, Hy by done. eexists. split; [done|]. cbv zeta.
  assert (Hip : prev it = Some x ↔ S k = i).
  { rewrite Hp. destruct i as [|i]; simpl; [split; [done|lia]|]. split; [|intros [= ->]; done].
    intros Hx. f_equal. by eapply sorted_inj. }
  assert (Hin : next it = Some x ↔ k = S i).
  { rewrite Hn. split; [|by intros ->]. intros Hx. by eapply sorted_inj. }
  assert (Hb : before (vec_remove i (keys m)) j = if decide (k = S i) then before (keys m) i else before (keys m) k).
  { destruct j as [|j]; simpl.
    - destruct (decide (0 < i)); subst k; [by rewrite decide_False by lia|].
      destruct i; [|lia]. by rewrite decide_True.
    - rewrite vec_remove_lookup by done. destruct (decide (S j < i)); subst k.
      + rewrite decide_True, decide_False by lia. done.
      + destruct (decide (j < i)).
        * assert (i = S j) as -> by lia. by rewrite decide_True.
        * rewrite decide_False by lia. done. }
  assert (Ha : vec_remove i (keys m) !! S j = if decide (S k = i) then keys m !! S i else keys m !! S k).
  { rewrite vec_remove_lookup by done. destruct (decide (j < i)); subst k.
    - destruct (decide (S j < i)); [rewrite decide_False by lia; done|].
      rewrite decide_True by lia. f_equal. lia.
    - rewrite !decide_False by lia. done. }
  rewrite Hb, Ha. repeat case_decide; try tauto; simpl; split; congruence.
Qed.

Lemma vec_remove_filter (l : list nat) i id : StronglySorted lt l → l !! i = Some id →
  vec_remove i l = filter (λ x, x ≠ id) l.
Proof.
  intros Hs. revert i. induction Hs as [|k l Hs IH Hk]; intros i Hi; [done|].
  rewrite Forall_forall in Hk. destruct i as [|i]; unfold vec_remove in *; simpl in *.
  - simplify_eq. rewrite filter_cons, decide_False by tauto. symmetry. rewrite drop_0.
    apply filter_all. rewrite Forall_forall. intros x Hx%Hk. lia.
  - specialize (Hk id ltac:(by eapply list_elem_of_lookup_2)).
    rewrite filter_cons, decide_True by lia. f_equal. by apply IH.
Qed.

Lemma last_remove (l : list nat) i : i < length l →
  last (vec_remove i l) = match l !! S i with None => before l i | Some _ => last l end.
Proof.
  intros Hi. rewrite !last_lookup. unfold vec_remove. rewrite length_app, length_take, length_drop.
  fold (vec_remove i l). rewrite vec_remove_lookup by done.
  destruct (l !! S i) as [x|] eqn:E.
  - apply lookup_lt_Some in E. case_decide; [lia|]. f_equal. lia.
  - apply lookup_ge_None in E. destruct i as [|i]; simpl before; case_decide; try lia.
    + apply lookup_ge_None. lia.
    + f_equal. lia.
Qed.

Lemma wf_remove bound m id tc : wf bound m → map_get id m = Some tc →
  ∃ m', map_remove id m = Ok (Some tc, m') ∧ wf bound m' ∧
    keys m' = filter (λ x, x ≠ id) (keys m) ∧
    (∀ x, map_get x m' = if decide (x = id) then None else map_get x m).
Proof.
  intros W Hget. pose proof (wf_sorted _ _ W) as Hs.
  assert (is_Some (map m !! id)) as Hsome by (unfold map_get in Hget; by destruct (map m !! id)).
  apply (wf_dom _ _ W), list_elem_of_lookup in Hsome as [i Hi].
  assert (Hlen : i < length (keys m)) by (by eapply lookup_lt_Some).
  destruct (remove_at bound m i id W Hi) as (it & Hit & Hp & Hn & ->).
  unfold map_get in Hget. rewrite Hit in Hget. injection Hget as ->.
  assert (Hself : unlink (map m) it id !! id = None).
  { apply unlink_self.
    - rewrite Hp. destruct i as [|i]; [done|]. simpl. intros Hx.
      pose proof (sorted_inj _ _ _ _ Hs Hx Hi). lia.
    - rewrite Hn. intros Hx. pose proof (sorted_inj _ _ _ _ Hs Hx Hi). lia. }
  eexists. split; [done|]. rewrite <- (vec_remove_filter _ i) by done.
  split; [split; simpl|split; [done|]].
  - by apply vec_remove_sorted.
  - rewrite (vec_remove_filter _ i id) by done. intros x [_ ?]%list_elem_of_filter. by apply (wf_bound _ _ W).
  - by eapply links_remove.
  - intros x Hx. rewrite (vec_remove_filter _ i id), list_elem_of_filter by done.
    assert (x ≠ id) by (intros ->; rewrite Hself in Hx; by destruct Hx).
    split; [done|]. rewrite unlink_lookup in Hx by done. apply (wf_dom _ _ W).
    by destruct (map m !! x); [eauto|destruct Hx].
  - rewrite vec_remove_lookup by done. destruct i as [|i]; simpl.
    + done.
    + rewrite (wf_first _ _ W). apply lookup_lt_Some in Hi.
      by destruct (lookup_lt_is_Some_2 (keys m) i) as [y ->]; [lia|].
  - rewrite last_remove by done. destruct (keys m !! S i); [apply (wf_last _ _ W)|done].
  - intros x. unfold map_get. simpl. case_decide as Hx; [by subst; rewrite Hself|].
    rewrite unlink_lookup by done. destruct (map m !! x); simpl; [|done].
    by repeat case_decide.
Qed.

(** ** Iteration: following the links enumerates the keys *)

Lemma iter_next_keys bound m i fuel : wf bound m → length (keys m) ≤ i + fuel →
  iter_next fuel m (keys m !! i) = drop i (keys m).
Proof.
  intros W. revert i. induction fuel as [|fuel IH]; intros i Hf; simpl.
  { rewrite drop_ge by lia. done. }
  destruct (keys m !! i) as [id|] eqn:Hi.
  - destruct (wf_links _ _ W i id Hi) as (it & Hit & _ & Hn).
    unfold map_next. rewrite Hit, Hn, IH by lia. symmetry. by apply drop_S.
  - apply lookup_ge_None in Hi. by rewrite drop_ge.
Qed.

Lemma iter_back_keys bound m i fuel : wf bound m → i ≤ fuel → i ≤ length (keys m) →
  iter_back fuel m (before (keys m) i) = reverse (take i (keys m)).
Proof.
  intros W. revert i. induction fuel as [|fuel IH]; intros i Hf Hi.
  { by replace i with 0 by lia. }
  destruct i as [|i]; [done|]. simpl.
  destruct (lookup_lt_is_Some_2 (keys m) i ltac:(lia)) as [id Hid]. rewrite Hid.
  destruct (wf_links _ _ W i id Hid) as (it & Hit & Hp & _).
  unfold map_prev. rewrite Hit, Hp, IH by lia.
  rewrite (take_S_r _ _ _ Hid), reverse_app. done.
Qed.

(** ** The corpus *)

Record cwf c : Prop := {
  cwf_enabled : wf (progressive_id (storage c)) (enabled (storage c));
  cwf_disabled : wf (progressive_id (storage c)) (disabled (storage c));
}.

Lemma cwf_new : cwf (new (T := T)).
Proof. split; apply wf_new. Qed.

Lemma ids_keys c : cwf c → ids c = keys (enabled (storage c)).
Proof.
  intros [W _]. unfold ids, map_first. rewrite (wf_first _ _ W), (wf_size _ _ W).
  rewrite (iter_next_keys _ _ _ _ W) by lia. done.
Qed.

Lemma ids_rev_reverse c : cwf c → ids_rev c = reverse (ids c).
Proof.
  intros C. rewrite (ids_keys c C). destruct C as [W _]. unfold ids_rev, map_last.
  rewrite (wf_last _ _ W), (wf_size _ _ W).
  assert (Hl : last (keys (enabled (storage c))) = before (keys (enabled (storage c))) (length (keys (enabled (storage c))))).
  { rewrite last_lookup. by destruct (keys (enabled (storage c))). }
  rewrite Hl, (iter_back_keys _ _ _ _ W), firstn_all by lia. done.
Qed.

Lemma count_ids c : cwf c → count c = length (ids c).
Proof. intros C. rewrite (ids_keys c C). unfold count. eapply wf_size, C. Qed.

Lemma get_ids c id : cwf c → (∃ tc, get id c = Ok tc) ↔ id ∈ ids c.
Proof.
  intros C. rewrite (ids_keys c C), <- (wf_lookup _ _ _ (cwf_enabled _ C)).
  unfold get, map_get. destruct (map (enabled (storage c)) !! id) as [it|]; simpl; [naive_solver|].
  split; [by intros [? ?]|by intros [? ?]].
Qed.

Lemma ids_sorted c : cwf c → StronglySorted lt (ids c).
Proof. intros C. rewrite (ids_keys c C). apply (cwf_enabled _ C). Qed.

Lemma nth_ids c n : cwf c → nth n c = unwrap (ids c !! n).
Proof. intros C. by rewrite (ids_keys c C). Qed.

(** ** Operations of the corpus *)

Definition tc_at c id : option T := map_get id (enabled (storage c)).

Lemma get_tc_at c id tc : get id c = Ok tc ↔ tc_at c id = Some tc.
Proof. unfold get, tc_at. destruct (map_get id _); naive_solver. Qed.

Lemma tc_at_get_eq c c' x : get x c' = get x c → tc_at c' x = tc_at c x.
Proof.
  intros Hg. destruct (tc_at c x) as [t|] eqn:E; [apply get_tc_at; rewrite Hg; by apply get_tc_at|].
  destruct (tc_at c' x) as [t|] eqn:E'; [|done]. apply get_tc_at in E'. rewrite Hg in E'.
  apply get_tc_at in E'. congruence.
Qed.

Lemma tc_at_ids c id : cwf c → is_Some (tc_at c id) ↔ id ∈ ids c.
Proof.
  intros C. rewrite <-(get_ids c id C). setoid_rewrite get_tc_at.
  split; [by intros [tc ?]; exists tc|by intros [tc ?]; exists tc].
Qed.

(** Changing a testcase in its cell changes no id and no other testcase. *)
Lemma update_ok c id f tc : tc_at c id = Some tc →
  ∃ c', update id f c = Ok c' ∧ (cwf c → cwf c') ∧ (cwf c → ids c' = ids c) ∧
    current c' = current c ∧
    ∀ x, tc_at c' x = if decide (x = id) then Some (f tc) else tc_at c x.
Proof.
  unfold tc_at, map_get, update. intros Htc.
  destruct (map (enabled (storage c)) !! id) as [it|] eqn:Hit; [|done]. simpl in Htc. simplify_eq.
  set (mp := <[id := it <| testcase := f (testcase it) |>]> (map (enabled (storage c)))).
  exists (c <| storage := (storage c) <| enabled := (enabled (storage c)) <| map := mp |> |> |>).
  assert (cwf c → cwf (c <| storage := (storage c) <| enabled := (enabled (storage c)) <| map := mp |> |> |>)) as Hc'.
  { intros [[W1 W2 W3 W4 W5 W6] Wd]. split; [|done]. split; try done; simpl.
    - intros i x Hx. destruct (W3 i x Hx) as (it' & Hit' & Hp & Hn).
      unfold mp. destruct (decide (x = id)) as [->|].
      + rewrite lookup_insert_eq. simplify_eq. eauto.
      + rewrite lookup_insert_ne by done. eauto.
    - intros x. unfold mp. destruct (decide (x = id)) as [->|].
      + intros _. apply W4. by rewrite Hit.
      + rewrite lookup_insert_ne by done. apply W4. }
  split_and!; [done|done| |done|].
  - intros C. by rewrite (ids_keys _ (Hc' C)), (ids_keys c C).
  - intros x. simpl. unfold mp. case_decide as Hx.
    + subst x. by rewrite lookup_insert_eq.
    + by rewrite lookup_insert_ne by done.
Qed.

Lemma update_missing c id f : tc_at c id = None → ∃ e, update id f c = Err e.
Proof.
  unfold tc_at, map_get, update. destruct (map _ !! id); [done|]. intros _. simpl. eauto.
Qed.

(** Adding an entry never fails on a well-formed corpus: it gets a fresh id, goes
    to the end of the id order, and no other entry changes. *)
Definition same_disabled (c c' : InMemoryCorpus T) : Prop := disabled (storage c') = disabled (storage c).
Lemma update_disabled c id f c' : update id f c = Ok c' → same_disabled c c'.
Proof. unfold update, same_disabled. destruct (map _ !! id); [|done]. by intros [= <-]. Qed.
Lemma add_same_disabled c tc id c' : add tc c = Ok (id, c') → same_disabled c c'.
Proof.
  unfold add, insert_inner, same_disabled. cbn. destruct (map_push _ _ _); [|done..]. by intros [= <- <-].
Qed.

Lemma corpus_add_ok c tc : cwf c →
  ∃ id c', add tc c = Ok (id, c') ∧ cwf c' ∧ ids c' = ids c ++ [id] ∧ id ∉ ids c ∧
    get id c' = Ok tc ∧ (∀ x, x ≠ id → get x c' = get x c) ∧ count c' = S (count c).
Proof.
  intros C. pose proof C as [We Wd]. unfold add, insert_inner. simpl.
  set (id := progressive_id (storage c)) in *.
  destruct (wf_push (enabled (storage c)) id tc We) as (m' & Hm & W' & Hk & Hg & Hg').
  change (enabled ((storage c) <| progressive_id := S id |>)) with (enabled (storage c)).
  rewrite Hm. simpl. eexists _, _. split; [done|].
  set (c' := c <| storage := _ |>).
  assert (cwf c') as C' by (split; [exact W'|eapply wf_mono; [|exact Wd]; simpl; lia]).
  assert (id ∉ ids c) as Hnot by (rewrite (ids_keys c C); intros ?%(wf_bound _ _ We); lia).
  assert (ids c' = ids c ++ [id]) as Hids by by rewrite (ids_keys c' C'), (ids_keys c C).
  split_and!; [done|done|done| | |].
  - unfold get. simpl. by rewrite Hg.
  - intros x Hx. unfold get. simpl. by rewrite Hg'.
  - rewrite (count_ids c' C'), (count_ids c C), Hids, length_app. simpl. lia.
Qed.

(** Adding an entry never fails on a well-formed corpus: it gets a fresh id, goes
    to the end of the id order, and no other entry changes. *)
Theorem corpus_add_spec c tc : cwf c →
  ∃ id c', add tc c = Ok (id, c') ∧ cwf c' ∧ ids c' = ids c ++ [id] ∧ id ∉ ids c ∧
    get id c' = Ok tc ∧ (∀ x, x ≠ id → get x c' = get x c) ∧ count c' = S (count c).
Proof. apply corpus_add_ok. Qed.

Lemma corpus_remove_ok c id tc : cwf c → tc_at c id = Some tc →
  ∃ c', remove id c = Ok (tc, c') ∧ cwf c' ∧ ids c' = filter (λ x, x ≠ id) (ids c) ∧
    ∀ x, tc_at c' x = if decide (x = id) then None else tc_at c x.
Proof.
  intros C Hg. pose proof C as [We Wd]. destruct (wf_remove _ _ _ _ We Hg) as (m' & Hm & W' & Hk & Hl).
  unfold remove. rewrite Hm. simpl. eexists. split; [done|]. set (c' := c <| storage := _ |>).
  assert (cwf c') as C' by (split; [exact W'|exact Wd]).
  split_and!; [done|by rewrite (ids_keys c' C'), (ids_keys c C)|exact Hl].
Qed.

(** Removing an enabled entry returns it, drops exactly its id from the order and
    keeps the corpus well formed; an unknown id is an error. *)
Theorem corpus_remove_spec c id : cwf c →
  (∀ tc, get id c = Ok tc →
     ∃ c', remove id c = Ok (tc, c') ∧ cwf c' ∧ ids c' = filter (λ x, x ≠ id) (ids c) ∧
       (∀ x, x ≠ id → get x c' = get x c) ∧ (∃ e, get id c' = Err e)) ∧
  (map_get id (enabled (storage c)) = None → map_get id (disabled (storage c)) = None →
     ∃ e, remove id c = Err e).
Proof.
  intros C. split.
  - intros tc Hg%get_tc_at. destruct (corpus_remove_ok c id tc C Hg) as (c' & Hr & C' & Hi & Hl).
    exists c'. split_and!; [done..| |].
    + intros x Hx. unfold get. fold (tc_at c' x) (tc_at c x). by rewrite Hl, decide_False by done.
    + unfold get. fold (tc_at c' id). rewrite Hl, decide_True by done. simpl. eauto.
  - unfold remove, map_remove, map_get. intros He Hd.
    destruct (map (enabled (storage c)) !! id) eqn:E1; [done|]. simpl.
    destruct (map (disabled (storage c)) !! id) eqn:E2; [done|]. simpl. eauto.
Qed.
End Facts.

(** A corpus with the testcases 10, 20 and 30. *)
Definition demo_corpus : InMemoryCorpus nat :=
  Eval vm_compute in
    foldl (λ c tc, match add tc c with Ok (_, c') => c' | _ => c end) new [10; 20; 30].

Lemma demo_corpus_wf : cwf demo_corpus.
Proof.
  destruct (corpus_add_ok (T := nat) new 10 cwf_new) as (i1 & c1 & E1 & W1 & _).
  destruct (corpus_add_ok c1 20 W1) as (i2 & c2 & E2 & W2 & _).
  destruct (corpus_add_ok c2 30 W2) as (i3 & c3 & E3 & W3 & _).
  vm_compute in E1. injection E1 as <- <-. vm_compute in E2. injection E2 as <- <-.
  vm_compute in E3. injection E3 as <- <-. exact W3.
Qed.

Lemma corpus_add_spec_witness : ∃ id c',
  add 40 demo_corpus = Ok (id, c') ∧ cwf c' ∧ ids c' = ids demo_corpus ++ [id] ∧ get id c' = Ok 40.
Proof.
  destruct (corpus_add_spec demo_corpus 40 demo_corpus_wf) as (id & c' & ? & ? & ? & _ & ? & _).
  by exists id, c'.
Defined.

Lemma corpus_remove_spec_witness : ∃ c',
  remove 1 demo_corpus = Ok (20, c') ∧ cwf c' ∧ ids c' = filter (λ x, x ≠ 1) (ids demo_corpus).
Proof.
  destruct (corpus_remove_spec demo_corpus 1 demo_corpus_wf) as [H _].
  destruct (H 20) as (c' & ? & ? & ? & _); [vm_compute; reflexivity|]. by exists c'.
Defined.
End InMemoryFacts.
