(* ===== verification/Metadata.v ===== *)
(** * Metadata: the data the components share

    The metadata structs of [feature_sched/metadata.rs] with their [Default]
    values, [WeightStats] ([feature_sched/stats.rs]) and [FactorParams]
    ([feature_sched/factor.rs]), and the LibAFL metadata the scheduler reads:
    [SchedulerMetadata] and [PowerSchedule] ([schedulers/powersched.rs]),
    [SchedulerTestcaseMetadata] and [Testcase] ([corpus/testcase.rs]),
    [WeightedScheduleMetadata] ([schedulers/weighted.rs]), and what the mutators keep: [Tokens]
    ([mutators/token_mutations.rs]), [CmpValues] ([observers/cmp.rs]) and [MOpt]
    ([mutators/mopt_mutator.rs]).

    Every struct is a record whose fields carry a short prefix, because Rocq's
    projections share one name space.  A [Duration] is its number of
    nanoseconds. *)

From Stdlib Require Import ZArith.
From S2P Require Import Prelude Float64 Rands.

Abbreviation BitSet := (list bool) (only parsing).
Abbreviation CorpusId := nat (only parsing).
Abbreviation Duration := Z (only parsing).

(** ** Statistics and factor parameters *)

Record WeightStats := mkWeightStats { ws_n : u64; ws_mu : f64; ws_m2 : f64 }.
Definition WeightStats_default : WeightStats := mkWeightStats 0 f0 f0.

Record FactorParams := mkFactorParams {
  fp_alpha : f64;
  fp_beta : f64;
  fp_gmin : f64;
  fp_gmax : f64;
  fp_use_tanh : bool;
}.
Definition FactorParams_default : FactorParams :=
  mkFactorParams f_0_85 f_0_6 f_half f2 false.

(** ** Feature maps, frontier and credits *)

Record FeaturesMatrixMeta := mkFeaturesMatrix {
  fmx_matrix : gmap string (list f64);
  fmx_sites : usize;
}.

Record SancovAcfgMeta := mkAcfg {
  ac_iteration : u64;
  n_sancov_sites : usize;
  successors : list (list usize);
  predecessors : list (list usize);
}.

Inductive WeightComputeMode := Frontier | Path.
Definition WeightComputeMode_default : WeightComputeMode := Frontier.

Record TestcaseFeatureWeightMeta := mkTestcaseFeatureWeight {
  tfw_iteration : u64;
  tfw_weight : f64;
  tfw_mode : WeightComputeMode;
}.

Record FrontierMeta := mkFrontier {
  fr_iteration : u64;
  covered : BitSet;
  f_prev : BitSet;
  f_next : BitSet;
}.

Record CoverageDeltaMeta := mkCoverageDelta {
  cd_iteration : u64;
  cd_delta_edges : u64;
  cd_newly_covered_sancov : list usize;
}.
Definition CoverageDeltaMeta_default : CoverageDeltaMeta := mkCoverageDelta 0 0 [].

(** [ExploreCreditMeta] and [RuntimeCreditMeta] have the same fields, and so
    have their history entries but for the phase. *)
Record CreditMeta := mkCredit {
  cr_iteration : u64;
  cr_credits : list f64;
  cr_total_delta_edges : u64;
}.
Abbreviation ExploreCreditMeta := CreditMeta (only parsing).
Abbreviation RuntimeCreditMeta := CreditMeta (only parsing).
Definition CreditMeta_default : CreditMeta := mkCredit 0 [] 0.

Inductive VecMaskMode := Full | Explicit | AutoCredit.

Inductive TpeInitSource :=
| ExternalCandidateFile
| ExploreCreditsExactFirst
| EqualSimplexFallback.

Inductive TpePhase := Explore | PendingRecompute | ActiveWindow | LockedBest.

Record ExploreCreditEntry := mkExploreEntry {
  ee_iteration : u64;
  ee_corpus_id : option CorpusId;
  ee_delta_edges : u64;
  ee_frontier_nodes : list usize;
  ee_credit_delta : list f64;
  ee_cumulative_credits : list f64;
}.

Record RuntimeCreditEntry := mkRuntimeEntry {
  re_iteration : u64;
  re_phase : TpePhase;
  re_corpus_id : option CorpusId;
  re_delta_edges : u64;
  re_frontier_nodes : list usize;
  re_credit_delta : list f64;
  re_cumulative_credits : list f64;
}.

(** ** Mask, vectors and the TPE iteration *)

Record VecMaskRuntimeMeta := mkVecMask {
  vm_mode : VecMaskMode;
  credit_top_k : usize;
  requested_explicit_mask : option (list bool);
  mask_committed : bool;
  tpe_init_committed : bool;
  effective_mask : list bool;
  selected_feature_names : list string;
  selected_schema_indices : list usize;
  candidate_file_path : option string;
  candidate_file_loaded : bool;
  tpe_init_source : option TpeInitSource;
  explore_credits_full : list f64;
  explore_credits_active : list f64;
  normalized_credit_init_v : list f64;
  positive_credit_count : usize;
  positive_credit_sum : f64;
  fallback_reason : option string;
}.
Definition VecMaskRuntimeMeta_default : VecMaskRuntimeMeta :=
  mkVecMask Full 8 None false false [] [] [] None false None [] [] [] 0 f0 None.

Record FeatureVectorMeta := mkFeatureVector {
  fvm_iteration : u64;
  fvm_simplex_weights : list f64;
}.

Record TpeIterationMeta := mkTpeIteration {
  current_iteration : u64;
  active_iteration : option u64;
  pending_iteration : option u64;
  phase : TpePhase;
  active_start_ms : option u64;
  active_start_edges : option u64;
  last_new_edges_ms : option u64;
}.
Definition TpeIterationMeta_default : TpeIterationMeta :=
  mkTpeIteration 0 None None Explore None None None.

Record FeatureSpec := mkFeatureSpec {
  fs_id : string;
  fs_name : string;
  fs_group : option string;
  fs_aliases : option (list string);
}.

Record FeatureSchemaFile := mkSchema {
  sc_schema_version : u64;
  sc_features : list FeatureSpec;
}.

Record FeatureGlobalsMeta := mkGlobals {
  features_active : bool;
  feat_exists : bool;
  tpe_satisfied : bool;
  feat_val0 : f64;
  explore_time_secs : u64;
  tpe_period_secs : u64;
  alpha_init : f64;
  factor_params : FactorParams;
  current_v : list f64;
  v_candidates : list (list f64);
  fuzz_start_epoch_ms : u64;
  g_schema_version : u64;
  schema_features : list FeatureSpec;
  vec_mask : list bool;
  active_features : list FeatureSpec;
  active_feature_names : list string;
  feature_dim : usize;
}.
Definition FeatureGlobalsMeta_default : FeatureGlobalsMeta :=
  mkGlobals false false false f0 43200 600 f_0_85 FactorParams_default [] [] 0 0 [] [] [] [] 0.

Record TpeHistoryMeta := mkTpeHistory {
  th_trials : list (list f64 * f64 * u64);
  th_last_vec : list f64;
  th_last_check_ms : option u64;
  th_last_corpus : option usize;
  th_last_cov : option usize;
  th_max_trials : usize;
}.
Definition TpeHistoryMeta_default : TpeHistoryMeta := mkTpeHistory [] [] None None None 0.

Record RuntimeDataExportMeta := mkExport { output_path : string; last_export_ms : u64 }.
Definition RuntimeDataExportMeta_default : RuntimeDataExportMeta := mkExport "" 0.

(** ** LibAFL: power schedules and testcases *)

Inductive BaseSchedule := EXPLORE | EXPLOIT | FAST | COE | LIN | QUAD.

Record PowerSchedule := mkPowerSchedule { ps_base : BaseSchedule; avoid_crash : bool }.

Record SchedulerMetadata := mkSchedulerMetadata {
  sm_strat : option PowerSchedule;
  sm_exec_time : Duration;
  sm_cycles : u64;
  sm_bitmap_size : u64;
  sm_bitmap_size_log : f64;
  sm_bitmap_entries : u64;
  sm_queue_cycles : u64;
  sm_n_fuzz : list Z;
}.
Definition N_FUZZ_SIZE : usize := Nat.pow 2 21.
Definition SchedulerMetadata_new (strat : option PowerSchedule) : SchedulerMetadata :=
  mkSchedulerMetadata strat 0 0 0 f0 0 0 (replicate N_FUZZ_SIZE 0%Z).

Record WeightedScheduleMetadata := mkWeighted {
  runs_in_current_cycle : usize;
  alias_table : gmap CorpusId CorpusId;
  alias_probability : gmap CorpusId f64;
}.
Definition WeightedScheduleMetadata_new : WeightedScheduleMetadata := mkWeighted 0 ∅ ∅.

Record WeightedAliasTableDirtyMeta := mkDirty { dm_iteration : u64; dirty : bool }.

Record SchedulerTestcaseMetadata := mkSchedulerTestcase {
  tm_bitmap_size : u64;
  handicap : u64;
  depth : u64;
  n_fuzz_entry : usize;
  cycle_and_time : Duration * usize;
}.
Definition with_n_fuzz_entry (depth : u64) (n_fuzz_entry : usize) : SchedulerTestcaseMetadata :=
  mkSchedulerTestcase 0 0 depth n_fuzz_entry (0%Z, 0).

(** [feedbacks/map.rs]: the state of a map feedback over [u8] entries, and the indexes a
    testcase hit with the number of top-rated entries that rely on them. *)
Record MapFeedbackMetadata := mkMapFeedbackMeta {
  history_map : list Z;
  num_covered_map_indexes : usize;
}.
Definition MapFeedbackMetadata_default : MapFeedbackMetadata := mkMapFeedbackMeta [] 0.

Record MapIndexesMetadata := mkMapIndexes { mi_list : list usize; tcref : Z }.
Definition MapIndexesMetadata_new (list : list usize) : MapIndexesMetadata := mkMapIndexes list 0.

(** ** What the mutators keep *)

#[global] Instance byte_eq_dec : EqDecision Byte.byte := Byte.byte_eq_dec.
#[global] Program Instance byte_countable : Countable Byte.byte := inj_countable Byte.to_N Byte.of_N _.
Next Obligation. apply Byte.of_to_N. Qed.

(** A vector for access and a set against duplicates. *)
Record Tokens := mkTokens { tokens_vec : list (list Byte.byte); tokens_set : gset (list Byte.byte) }.
Definition Tokens_default : Tokens := mkTokens [] ∅.

(** Up to 32 bytes of an operand. *)
Record CmplogBytes := mkCmplogBytes { cb_buf : list Byte.byte; cb_len : nat }.
(** The two operands of a comparison, and whether the first is a constant. *)
Inductive CmpValues :=
| CmpU8 (v1 v2 : Z) (v1_is_const : bool)
| CmpU16 (v1 v2 : Z) (v1_is_const : bool)
| CmpU32 (v1 v2 : Z) (v1_is_const : bool)
| CmpU64 (v1 v2 : Z) (v1_is_const : bool)
| CmpBytes (v1 v2 : CmplogBytes).

(** The map entries that differ from run to run ([stages/calibrate.rs]). *)
Record UnstableEntriesMetadata := mkUnstable { unstable_entries : gset nat; filled_entries_count : nat }.
Definition UnstableEntriesMetadata_new : UnstableEntriesMetadata := mkUnstable ∅ 0.

(** The particle swarm that weighs the mutators. *)
Record MOpt := mkMOpt {
  mo_rand : StdRand;
  total_finds : Z;
  finds_until_last_swarm : Z;
  w_init : f64;
  w_end : f64;
  w_now : f64;
  g_now : f64;
  g_max : f64;
  operator_num : nat;
  swarm_num : nat;
  period_pilot : Z;
  period_core : Z;
  pilot_time : Z;
  core_time : Z;
  swarm_now : nat;
  x_now : list (list f64);
  l_best : list (list f64);
  eff_best : list (list f64);
  g_best : list f64;
  v_now : list (list f64);
  probability_now : list (list f64);
  swarm_fitness : list f64;
  pilot_operator_finds : list (list Z);
  pilot_operator_finds_v2 : list (list Z);
  pilot_operator_cycles : list (list Z);
  pilot_operator_cycles_v2 : list (list Z);
  pilot_operator_cycles_v3 : list (list Z);
  operator_finds_puppet : list Z;
  core_operator_finds : list Z;
  core_operator_finds_v2 : list Z;
  core_operator_cycles : list Z;
  core_operator_cycles_v2 : list Z;
  core_operator_cycles_v3 : list Z;
}.


(** A testcase; its [SerdeAnyMap] is the list of metadata types BOFuzz stores in it. *)
Record Testcase := mkTestcase {
  tc_input : option (list Byte.byte);
  tc_filename : option string;
  tc_exec_time : option Duration;
  tc_cached_len : option usize;
  scheduled_count : usize;
  parent_id : option CorpusId;
  tc_disabled : bool;
  objectives_found : usize;
  tc_sched : option SchedulerTestcaseMetadata;
  tc_sancov : option (list usize);
  tc_path_weight : option f64;
  tc_feature_weight : option TestcaseFeatureWeightMeta;
  tc_perf_mult : option f64;
  tc_favored : bool;
  tc_map_indexes : option MapIndexesMetadata;
  tc_novelties : option (list usize);
  tc_file_path : option string;
  tc_metadata_path : option string;
}.
Definition Testcase_new (input : list Byte.byte) : Testcase :=
  mkTestcase (Some input) None None None 0 None false 0 None None None None None false None None None None.

(** ** Updates and decidable equality *)

#[global] Instance eta_WeightStats : Eta WeightStats := λ r, mkWeightStats (ws_n r) (ws_mu r) (ws_m2 r).
#[global] Instance eta_FeaturesMatrix : Eta FeaturesMatrixMeta :=
  λ r, mkFeaturesMatrix (fmx_matrix r) (fmx_sites r).
#[global] Instance eta_Frontier : Eta FrontierMeta :=
  λ r, mkFrontier (fr_iteration r) (covered r) (f_prev r) (f_next r).
#[global] Instance eta_Credit : Eta CreditMeta :=
  λ r, mkCredit (cr_iteration r) (cr_credits r) (cr_total_delta_edges r).
#[global] Instance eta_VecMask : Eta VecMaskRuntimeMeta :=
  λ r, mkVecMask (vm_mode r) (credit_top_k r) (requested_explicit_mask r) (mask_committed r)
         (tpe_init_committed r) (effective_mask r) (selected_feature_names r)
         (selected_schema_indices r) (candidate_file_path r) (candidate_file_loaded r)
         (tpe_init_source r) (explore_credits_full r) (explore_credits_active r)
         (normalized_credit_init_v r) (positive_credit_count r) (positive_credit_sum r)
         (fallback_reason r).
#[global] Instance eta_TpeIteration : Eta TpeIterationMeta :=
  λ r, mkTpeIteration (current_iteration r) (active_iteration r) (pending_iteration r) (phase r)
         (active_start_ms r) (active_start_edges r) (last_new_edges_ms r).
#[global] Instance eta_Globals : Eta FeatureGlobalsMeta :=
  λ r, mkGlobals (features_active r) (feat_exists r) (tpe_satisfied r) (feat_val0 r)
         (explore_time_secs r) (tpe_period_secs r) (alpha_init r) (factor_params r)
         (current_v r) (v_candidates r) (fuzz_start_epoch_ms r) (g_schema_version r)
         (schema_features r) (vec_mask r) (active_features r) (active_feature_names r)
         (feature_dim r).
#[global] Instance eta_Export : Eta RuntimeDataExportMeta :=
  λ r, mkExport (output_path r) (last_export_ms r).
#[global] Instance eta_PowerSchedule : Eta PowerSchedule :=
  λ r, mkPowerSchedule (ps_base r) (avoid_crash r).
#[global] Instance eta_SchedulerMetadata : Eta SchedulerMetadata :=
  λ r, mkSchedulerMetadata (sm_strat r) (sm_exec_time r) (sm_cycles r) (sm_bitmap_size r)
         (sm_bitmap_size_log r) (sm_bitmap_entries r) (sm_queue_cycles r) (sm_n_fuzz r).
#[global] Instance eta_Weighted : Eta WeightedScheduleMetadata :=
  λ r, mkWeighted (runs_in_current_cycle r) (alias_table r) (alias_probability r).
#[global] Instance eta_Dirty : Eta WeightedAliasTableDirtyMeta :=
  λ r, mkDirty (dm_iteration r) (dirty r).
#[global] Instance eta_SchedulerTestcase : Eta SchedulerTestcaseMetadata :=
  λ r, mkSchedulerTestcase (tm_bitmap_size r) (handicap r) (depth r) (n_fuzz_entry r)
         (cycle_and_time r).
#[global] Instance eta_Testcase : Eta Testcase :=
  λ r, mkTestcase (tc_input r) (tc_filename r) (tc_exec_time r) (tc_cached_len r)
         (scheduled_count r) (parent_id r) (tc_disabled r) (objectives_found r) (tc_sched r)
         (tc_sancov r) (tc_path_weight r) (tc_feature_weight r) (tc_perf_mult r) (tc_favored r)
         (tc_map_indexes r) (tc_novelties r) (tc_file_path r) (tc_metadata_path r).
#[global] Instance eta_MapIndexes : Eta MapIndexesMetadata := λ r, mkMapIndexes (mi_list r) (tcref r).
#[global] Instance eta_MapFeedbackMeta : Eta MapFeedbackMetadata :=
  λ r, mkMapFeedbackMeta (history_map r) (num_covered_map_indexes r).

#[global] Instance WeightComputeMode_eq_dec : EqDecision WeightComputeMode.
Proof. solve_decision. Defined.
#[global] Instance VecMaskMode_eq_dec : EqDecision VecMaskMode.
Proof. solve_decision. Defined.
#[global] Instance TpeInitSource_eq_dec : EqDecision TpeInitSource.
Proof. solve_decision. Defined.
#[global] Instance TpePhase_eq_dec : EqDecision TpePhase.
Proof. solve_decision. Defined.
#[global] Instance BaseSchedule_eq_dec : EqDecision BaseSchedule.
Proof. solve_decision. Defined.
#[global] Instance eta_MOpt : Eta MOpt := λ r,
  mkMOpt (mo_rand r) (total_finds r) (finds_until_last_swarm r) (w_init r) (w_end r) (w_now r) (g_now r)
    (g_max r) (operator_num r) (swarm_num r) (period_pilot r) (period_core r) (pilot_time r) (core_time r)
    (swarm_now r) (x_now r) (l_best r) (eff_best r) (g_best r) (v_now r) (probability_now r)
    (swarm_fitness r) (pilot_operator_finds r) (pilot_operator_finds_v2 r) (pilot_operator_cycles r)
    (pilot_operator_cycles_v2 r) (pilot_operator_cycles_v3 r) (operator_finds_puppet r)
    (core_operator_finds r) (core_operator_finds_v2 r) (core_operator_cycles r)
    (core_operator_cycles_v2 r) (core_operator_cycles_v3 r).
