(* ===== verification/State.v ===== *)
(** * State: the fuzzer state and the accessors of [feature_sched/mod.rs]

    [State] is LibAFL's [StdState] as BOFuzz uses it: one optional field per
    metadata type of the [SerdeAnyMap], the named [MapFeedbackMetadata], the corpus, the random number generator, the
    fired events, and the files.  [Env] is what lies outside the program: the
    clock, failures of I/O operations, the event manager's answer to an event,
    the iteration order of a [HashSet]; [Libm] is the floating-point library,
    whose functions have no specified result. *)

From Stdlib Require Import ZArith.
From S2P Require Import Prelude Float64 FloatFacts Rands Corpus Metadata.

Inductive AggregatorOps := AggNone | AggSum | AggAvg | AggMin | AggMax.

Inductive UserStatsValue :=
| StatNumber (n : u64)
| StatFloat (x : f64)
| StatString (m : Msg)
| Ratio (a b : u64)
| Percent (x : f64).

Record UserStats := mkUserStats {
  stat_value : UserStatsValue;
  aggregator_op : AggregatorOps;
}.

(** How an execution of the target ended. *)
Inductive DiffExitKind := DiffOk | DiffCrash | DiffOom | DiffTimeout | DiffDiff.
Inductive ExitKind := ExitOk | Crash | Oom | Timeout | Diff (primary secondary : DiffExitKind).

#[global] Instance DiffExitKind_eq_dec : EqDecision DiffExitKind.
Proof. solve_decision. Defined.
#[global] Instance ExitKind_eq_dec : EqDecision ExitKind.
Proof. solve_decision. Defined.

Inductive LogSeverity := LogDebug | LogInfo | LogWarn | LogError.

(** The events the program fires. *)
Inductive Event :=
| Log (severity_level : LogSeverity) (message : string)
| UpdateExecStats (time : Duration) (executions : u64)
| UpdateUserStats (name : string) (value : UserStats)
| NewTestcase (input : list Byte.byte) (observers_buf : option (list Byte.byte))
    (exit_kind : ExitKind) (corpus_size : usize) (time : u64)
| Objective (objective_size : usize) (time : u64)
| Stop.

Class Libm := mkLibm {
  fexp : f64 → f64;
  fln : f64 → f64;
  ftanh : f64 → f64;
  fcos : f64 → f64;
  fpowf : f64 → f64 → f64;
  flog2 : f64 → f64;
  flog10 : f64 → f64;
}.

(** The binary64 functions return binary64 values; [exp] is not
    negative and [tanh] not below [-1]. *)
Class LibmLaws (L : Libm) := mkLibmLaws {
  fexp_valid : ∀ x, fvalid x → fvalid (fexp x);
  fln_valid : ∀ x, fvalid x → fvalid (fln x);
  ftanh_valid : ∀ x, fvalid x → fvalid (ftanh x);
  fcos_valid : ∀ x, fvalid x → fvalid (fcos x);
  fpowf_valid : ∀ x y, fvalid x → fvalid y → fvalid (fpowf x y);
  flog2_valid : ∀ x, fvalid x → fvalid (flog2 x);
  flog10_valid : ∀ x, fvalid x → fvalid (flog10 x);
  fexp_nonneg : ∀ x, fvalid x → flt (fexp x) f0 = false;
  ftanh_lower : ∀ x, fvalid x → is_nan (ftanh x) = false → fle (fneg f1) (ftanh x) = true;
}.

Class Env := mkEnv {
  clock : nat → u64;
  io_fail : nat → option string;
  io_partial : nat → nat;
  fire_result : Event → outcome Error ();
  hash_order : ∀ {A : Type}, list A → list A;
}.

(** A [HashSet] yields each of its elements once, in some order. *)
Class EnvLaws (E : Env) := mkEnvLaws {
  hash_order_perm : ∀ {A : Type} (l : list A), hash_order l ≡ₚ l;
  clock_u64 : ∀ k, is_u64 (clock k);
}.

(** A concrete environment, for the witnesses: the clock counts seconds, no operation
    fails, every event is accepted, and sets keep the order of insertion. *)
Definition toy_env : Env :=
  mkEnv (λ n, wrap64 (1000 * Z.of_nat n)) (λ _, None) (λ _, 0) (λ _, Ok ()) (λ _ l, l).
#[global] Instance toy_env_laws : EnvLaws toy_env.
Proof. split; [done|]. intros k. apply wrap64_is_u64. Qed.

Abbreviation Corpus := (InMemory.InMemoryCorpus Testcase) (only parsing).

Record State := mkState {
  m_globals : option FeatureGlobalsMeta;
  m_feat_mode : option nat;
  m_mask : option VecMaskRuntimeMeta;
  m_tpe : option TpeIterationMeta;
  m_history : option TpeHistoryMeta;
  m_frontier : option FrontierMeta;
  m_acfg : option SancovAcfgMeta;
  m_feats : option (list f64);
  m_matrix : option FeaturesMatrixMeta;
  m_vector : option FeatureVectorMeta;
  m_progress : option u64;
  m_delta : option CoverageDeltaMeta;
  m_explore : option ExploreCreditMeta;
  m_explore_history : option (list ExploreCreditEntry);
  m_runtime : option RuntimeCreditMeta;
  m_runtime_history : option (list RuntimeCreditEntry);
  m_weight_mode : option WeightComputeMode;
  m_stats : option WeightStats;
  m_export : option RuntimeDataExportMeta;
  m_dirty : option WeightedAliasTableDirtyMeta;
  m_sched : option SchedulerMetadata;
  m_weighted : option WeightedScheduleMetadata;
  m_top_rateds : option (gmap usize CorpusId);
  m_tokens : option Tokens;
  m_cmps : option (list CmpValues);
  m_mopt : option MOpt;
  m_unstable : option UnstableEntriesMetadata;
  named_maps : gmap string MapFeedbackMetadata;
  corpus : Corpus;
  solutions : Corpus;
  executions : u64;
  last_found_time : u64;
  last_report_time : option Duration;
  corpus_id : option CorpusId;
  stop_requested : bool;
  max_size : Z;
  rand : StdRand;
  events : list Event;
  files : gmap string string;
  ticks : nat;
}.

#[global] Instance eta_State : Eta State := λ r,
  mkState (m_globals r) (m_feat_mode r) (m_mask r) (m_tpe r) (m_history r) (m_frontier r)
    (m_acfg r) (m_feats r) (m_matrix r) (m_vector r) (m_progress r) (m_delta r) (m_explore r)
    (m_explore_history r) (m_runtime r) (m_runtime_history r) (m_weight_mode r) (m_stats r)
    (m_export r) (m_dirty r) (m_sched r) (m_weighted r) (m_top_rateds r)
    (m_tokens r) (m_cmps r) (m_mopt r) (m_unstable r) (named_maps r)
    (corpus r) (solutions r) (executions r) (last_found_time r) (last_report_time r) (corpus_id r) (stop_requested r)
    (max_size r) (rand r) (events r) (files r) (ticks r).

(** 1 MB *)
Definition DEFAULT_MAX_SIZE : Z := 1048576.

(** A state without metadata. *)
Definition empty_state (r : StdRand) : State :=
  mkState None None None None None None None None None None None None None None None None
    None None None None None None None None None None None ∅ InMemory.new InMemory.new 0 0 None None false DEFAULT_MAX_SIZE r [] ∅ 0.

(** ** [mod.rs]: the feature globals *)

Definition globals (s : State) : FeatureGlobalsMeta :=
  default FeatureGlobalsMeta_default (m_globals s).

(** [globals_mut(state)] followed by an assignment: [get_or_insert_with]. *)
Definition globals_mut (f : FeatureGlobalsMeta → FeatureGlobalsMeta) (s : State) : State :=
  s <| m_globals := Some (f (globals s)) |>.

Definition vecn_eq (a b : list f64) (eps : f64) : bool :=
  (length a =? length b) &&
  forallb (λ p : f64 * f64, fle (fabs (fsub p.1 p.2)) eps) (zip a b).

Definition get_features_active (s : State) : bool := features_active (globals s).
Definition get_feat_exists (s : State) : bool := feat_exists (globals s).
Definition get_tpe_satisfied (s : State) : bool := tpe_satisfied (globals s).
Definition get_feat0 (s : State) : f64 := feat_val0 (globals s).
Definition get_explore_time (s : State) : u64 := explore_time_secs (globals s).
Definition get_tpe_period (s : State) : u64 := tpe_period_secs (globals s).
Definition get_alpha_init (s : State) : f64 := alpha_init (globals s).
Definition get_current_weight_vec (s : State) : list f64 := current_v (globals s).
Definition get_factor_params (s : State) : FactorParams := factor_params (globals s).
Definition get_fuzz_start (s : State) : u64 := fuzz_start_epoch_ms (globals s).
Definition get_active_dim (s : State) : usize := feature_dim (globals s).
Definition get_active_feature_names (s : State) : list string := active_feature_names (globals s).
Definition get_schema_features (s : State) : list FeatureSpec := schema_features (globals s).
Definition get_schema_version (s : State) : u64 := g_schema_version (globals s).
Definition get_active_features (s : State) : list FeatureSpec := active_features (globals s).
Definition get_vec_mask (s : State) : list bool := vec_mask (globals s).
Definition get_v_candidates (s : State) : list (list f64) := v_candidates (globals s).

Definition get_feat_mode (s : State) : nat := default 1 (m_feat_mode s).
Definition get_features_enabled (s : State) : bool :=
  get_features_active s && get_feat_exists s && negb (get_feat_mode s =? 0).

Definition set_features_active (v : bool) (s : State) : State :=
  globals_mut (λ g, g <| features_active := v |>) s.
Definition set_feat_exists (v : bool) (s : State) : State :=
  globals_mut (λ g, g <| feat_exists := v |>) s.
Definition set_tpe_satisfied (v : bool) (s : State) : State :=
  globals_mut (λ g, g <| tpe_satisfied := v |>) s.
Definition set_feat0 (v : f64) (s : State) : State :=
  globals_mut (λ g, g <| feat_val0 := v |>) s.
Definition set_explore_time (secs : u64) (s : State) : State :=
  globals_mut (λ g, g <| explore_time_secs := secs |>) s.
Definition set_tpe_period (secs : u64) (s : State) : State :=
  globals_mut (λ g, g <| tpe_period_secs := secs |>) s.
Definition set_alpha_init (v : f64) (s : State) : State :=
  globals_mut (λ g, g <| alpha_init := v |>) s.
Definition set_factor_params (p : FactorParams) (s : State) : State :=
  globals_mut (λ g, g <| factor_params := p |>) s.
Definition replace_v_candidates (v : list (list f64)) (s : State) : State :=
  globals_mut (λ g, g <| v_candidates := v |>) s.
Definition set_current_weight_vec (v : list f64) (s : State) : State :=
  globals_mut (λ g, g <| current_v := v |>) s.

Definition set_schema_info (schema_version : u64) (schema_features' : list FeatureSpec)
    (vec_mask' : list bool) (active_features' : list FeatureSpec) (s : State) : State :=
  globals_mut (λ g,
    g <| g_schema_version := schema_version |>
      <| schema_features := schema_features' |>
      <| active_feature_names := fs_name <$> active_features' |>
      <| feature_dim := length active_features' |>
      <| vec_mask := vec_mask' |>
      <| active_features := active_features' |>) s.

Definition push_v_candidate (v : list f64) (s : State) : State :=
  globals_mut (λ g,
    if existsb (λ u, vecn_eq u v f_1e_3) (v_candidates g) then g
    else g <| v_candidates := v_candidates g ++ [v] |>) s.

Definition set_feat_mode (m : nat) (s : State) : State :=
  s <| m_feat_mode := Some (Nat.min m 3) |>.

(** ** Files *)

Inductive FsOp :=
| CreateDirAll (p : string)
| CreateFile (p : string)
| Append (p : string) (text : string)
| Flush (p : string)
| SyncAll (p : string)
| Rename (p q : string).

Definition apply_op (op : FsOp) (fs : gmap string string) : gmap string string :=
  match op with
  | CreateDirAll _ | Flush _ | SyncAll _ => fs
  | CreateFile p => <[p := ""%string]> fs
  | Append p text => <[p := (default ""%string (fs !! p) +:+ text)%string]> fs
  | Rename p q => match fs !! p with
                  | Some c => <[q := c]> (delete p fs)
                  | None => fs
                  end
  end.

(** ** The clock, events and I/O *)

Section Effects.
Context `{Env}.

(** [current_time().as_millis() as u64] *)
Definition now_ms : M State u64 := λ s,
  (Ok (clock (ticks s)), s <| ticks := S (ticks s) |>).

Definition fire (e : Event) : M State () := λ s,
  (fire_result e, s <| events := events s ++ [e] |>).

(** A file-system operation can fail; a write that fails has appended a part of
    its bytes. *)
Definition io (op : FsOp) : M State () := λ s,
  let t := ticks s in
  match io_fail t with
  | Some e =>
    let fs := match op with
              | Append p text =>
                apply_op (Append p (String.substring 0 (io_partial t) text)) (files s)
              | _ => files s
              end in
    (Err (OsError (fmt "io error {}" [AStr e])), s <| files := fs |> <| ticks := S t |>)
  | None => (Ok (), s <| files := apply_op op (files s) |> <| ticks := S t |>)
  end.

Definition set_fuzz_start : M State () :=
  now <- now_ms ;; modify (globals_mut (λ g, g <| fuzz_start_epoch_ms := now |>)).
End Effects.

(** ** The mask of the feature vector *)

Inductive MaskInstallReason :=
| StartupFull | StartupExplicit | AutoCreditCommit | RestoreCommittedMask.

Definition set_vec_mask_runtime_meta (meta : VecMaskRuntimeMeta) (s : State) : State :=
  s <| m_mask := Some meta |>.
Definition vec_mask_runtime_meta (s : State) : VecMaskRuntimeMeta :=
  default VecMaskRuntimeMeta_default (m_mask s).

(** The indices of the set bits: [iter().enumerate().filter_map(then_some)]. *)
Fixpoint set_indices_from (i : nat) (mask : list bool) : list usize :=
  match mask with
  | [] => []
  | b :: mask => if b then i :: set_indices_from (S i) mask else set_indices_from (S i) mask
  end.
Definition set_indices (mask : list bool) : list usize := set_indices_from 0 mask.

Definition install_or_validate_effective_mask (new_mask : list bool)
    (active : list FeatureSpec) (reason : MaskInstallReason) : M State () :=
  runtime <- gets vec_mask_runtime_meta ;;
  let mask_changes :=
    negb (match effective_mask runtime with [] => true | _ => false end) &&
    negb (bool_decide (effective_mask runtime = new_mask)) in
  let refused :=
    mask_committed runtime && mask_changes &&
    match vm_mode runtime, reason with
    | AutoCredit, AutoCreditCommit => tpe_init_committed runtime
    | _, _ => true
    end in
  if refused then
    throw (illegal_state "BOFuzz mask error: attempted to alter a committed vec-mask" [])
  else
    schema_version <- gets get_schema_version ;;
    features <- gets get_schema_features ;;
    modify (set_schema_info schema_version features new_mask active) ;;;
    let runtime := runtime <| effective_mask := new_mask |> in
    let runtime := runtime <| selected_feature_names := fs_name <$> active |> in
    let runtime := runtime <| selected_schema_indices := set_indices (effective_mask runtime) |> in
    let runtime := runtime <| mask_committed :=
      match vm_mode runtime, reason with
      | AutoCredit, (AutoCreditCommit | RestoreCommittedMask) => true
      | AutoCredit, _ => false
      | _, _ => true
      end |> in
    modify (set_vec_mask_runtime_meta runtime).

(** The first element that fails the length check, with its index. *)
Fixpoint first_bad_length (i : nat) (dim : usize) (l : list (list f64)) : option (nat * nat) :=
  match l with
  | [] => None
  | v :: l => if length v =? dim then first_bad_length (S i) dim l else Some (i, length v)
  end.

Definition validate_committed_vector_dimensions (s : State) : outcome Error () :=
  let active_dim := get_active_dim s in
  let g := globals s in
  if negb (match current_v g with [] => true | _ => false end) &&
     negb (length (current_v g) =? active_dim) then
    Err (illegal_state "BOFuzz resume error: current_v length {} != active_dim {}"
           [ANat (length (current_v g)); ANat active_dim])
  else match first_bad_length 0 active_dim (v_candidates g) with
  | Some (idx, len) =>
    Err (illegal_state "BOFuzz resume error: candidate {} length {} != active_dim {}"
           [ANat idx; ANat len; ANat active_dim])
  | None =>
    match
      match m_history s with
      | Some history => first_bad_length 0 active_dim ((λ t, t.1.1) <$> th_trials history)
      | None => None
      end
    with
    | Some (idx, len) =>
      Err (illegal_state "BOFuzz resume error: TPE trial {} length {} != active_dim {}"
             [ANat idx; ANat len; ANat active_dim])
    | None =>
      match m_mask s with
      | Some runtime =>
        if tpe_init_committed runtime &&
           negb (length (normalized_credit_init_v runtime) =? active_dim) then
          Err (illegal_state
                 "BOFuzz resume error: normalized_credit_init_v length {} != active_dim {}"
                 [ANat (length (normalized_credit_init_v runtime)); ANat active_dim])
        else Ok ()
      | None => Ok ()
      end
    end
  end.

(** ** Facts *)

Lemma set_indices_from_spec k mask i :
  i ∈ set_indices_from k mask ↔ k ≤ i ∧ mask !! (i - k) = Some true.
Proof.
  revert k. induction mask as [|b mask IH]; intros k; simpl.
  { rewrite elem_of_nil. split; [done|]. intros [_ ?]. done. }
  destruct (decide (i = k)) as [->|].
  { replace (k - k) with 0 by lia. simpl.
    destruct b; rewrite ?elem_of_cons, IH; naive_solver lia. }
  assert (i ∈ set_indices_from (S k) mask ↔ k ≤ i ∧ (b :: mask) !! (i - k) = Some true) as Hi.
  { rewrite IH. destruct (decide (S k ≤ i)).
    - replace (i - k) with (S (i - S k)) by lia. simpl. naive_solver lia.
    - naive_solver lia. }
  destruct b; rewrite ?elem_of_cons, Hi; naive_solver.
Qed.

(** The selected indices are exactly the positions of the set bits. *)
Lemma set_indices_spec mask i : i ∈ set_indices mask ↔ mask !! i = Some true.
Proof.
  unfold set_indices. rewrite set_indices_from_spec, Nat.sub_0_r.
  split; [naive_solver | intros; split; [lia|done]].
Qed.

(** Number of enabled coordinates. *)
Definition count_true (mask : list bool) : nat := length (filter (λ b, b = true) mask).

Lemma set_indices_from_length k mask : length (set_indices_from k mask) = count_true mask.
Proof.
  unfold count_true. revert k. induction mask as [|[] mask IH]; intros k; [done|..].
  - rewrite filter_cons_True by done. simpl. by rewrite IH.
  - rewrite filter_cons_False by done. simpl. by rewrite IH.
Qed.

Lemma set_indices_from_sorted k mask : StronglySorted lt (set_indices_from k mask).
Proof.
  revert k. induction mask as [|[] mask IH]; intros k; simpl; [constructor|..|done].
  constructor; [done|]. apply Forall_forall. intros i [??]%set_indices_from_spec. lia.
Qed.

Lemma set_indices_sorted mask : StronglySorted lt (set_indices mask).
Proof. apply set_indices_from_sorted. Qed.

Lemma set_indices_length mask : length (set_indices mask) = count_true mask.
Proof. apply set_indices_from_length. Qed.

Lemma first_bad_length_None i dim l :
  first_bad_length i dim l = None ↔ Forall (λ v, length v = dim) l.
Proof.
  revert i. induction l as [|v l IH]; intros i; simpl; [done|].
  rewrite Forall_cons. destruct (Nat.eqb_spec (length v) dim); [rewrite IH|]; naive_solver.
Qed.

Lemma globals_globals_mut f s : globals (globals_mut f s) = f (globals s).
Proof. done. Qed.

(** The dimensions a resumed run depends on. *)
Definition dims_ok (s : State) : Prop :=
  let d := get_active_dim s in
  (current_v (globals s) = [] ∨ length (current_v (globals s)) = d) ∧
  Forall (λ v, length v = d) (v_candidates (globals s)) ∧
  (∀ h, m_history s = Some h → Forall (λ t, length t.1.1 = d) (th_trials h)) ∧
  (∀ r, m_mask s = Some r → tpe_init_committed r = true → length (normalized_credit_init_v r) = d).

(** [validate_committed_vector_dimensions] succeeds exactly on the states in which every
    stored vector has the active dimension. *)
Lemma validate_dims_iff s :
  validate_committed_vector_dimensions s = Ok () ↔ dims_ok s.
Proof.
  unfold validate_committed_vector_dimensions, dims_ok. cbv zeta.
  set (d := get_active_dim s).
  assert ((current_v (globals s) = [] ∨ length (current_v (globals s)) = d) ↔
    (negb (match current_v (globals s) with [] => true | _ => false end) &&
     negb (length (current_v (globals s)) =? d) = false)) as ->.
  { destruct (Nat.eqb_spec (length (current_v (globals s))) d), (current_v (globals s));
      simpl; naive_solver. }
  destruct (_ && _); [naive_solver|].
  rewrite <-(first_bad_length_None 0 d (v_candidates _)).
  destruct (first_bad_length 0 d (v_candidates _)) as [[]|]; [naive_solver|].
  assert ((∀ h, m_history s = Some h → Forall (λ t : list f64 * f64 * u64, length t.1.1 = d) (th_trials h)) ↔
    match m_history s with
    | Some history => first_bad_length 0 d ((λ t, t.1.1) <$> th_trials history)
    | None => None end = None) as ->.
  { destruct (m_history s) as [h|]; [|naive_solver].
    rewrite first_bad_length_None, Forall_fmap. naive_solver. }
  destruct (match m_history s with Some _ => _ | None => _ end) as [[]|]; [naive_solver|].
  destruct (m_mask s) as [r|]; [|naive_solver].
  split.
  - intros Hif. repeat split. intros r' [= <-] Hc. rewrite Hc in Hif.
    by destruct (Nat.eqb_spec (length (normalized_credit_init_v r)) d).
  - intros (_ & _ & _ & Hr). specialize (Hr r eq_refl).
    destruct (tpe_init_committed r); [|done]. by rewrite Hr, Nat.eqb_refl.
Qed.

(** The check before the first trial accepts exactly the states in which every stored
    vector (the current one, the candidates, the trials and the initial vector) has the
    active dimension, and answers every other state with an illegal-state error. *)
Theorem validate_dims_exact s :
  (validate_committed_vector_dimensions s = Ok () ↔ dims_ok s) ∧
  (¬ dims_ok s → ∃ m, validate_committed_vector_dimensions s = Err (IllegalState m)).
Proof.
  split; [apply validate_dims_iff|]. rewrite <-validate_dims_iff.
  unfold validate_committed_vector_dimensions, illegal_state. repeat case_match; naive_solver.
Qed.

(** A request to change a committed, non-empty mask that is not the pending
    auto-credit commit. *)
Definition mask_frozen (new_mask : list bool) (reason : MaskInstallReason) (s : State) : Prop :=
  let runtime := vec_mask_runtime_meta s in
  mask_committed runtime = true ∧ effective_mask runtime ≠ [] ∧ effective_mask runtime ≠ new_mask ∧
  ¬ (vm_mode runtime = AutoCredit ∧ reason = AutoCreditCommit ∧ tpe_init_committed runtime = false).

(** A committed, non-empty mask is only ever replaced by the pending auto-credit
    commit: any other change is an error that leaves the state as it was.  An accepted
    mask is installed in the runtime metadata and in the globals, with the names, the
    indices and the dimension of the selected features; it counts as committed unless
    the mode is auto-credit and the reason is a startup. *)
Theorem install_mask_spec new_mask active reason s :
  let '(r, s') := install_or_validate_effective_mask new_mask active reason s in
  let runtime' := vec_mask_runtime_meta s' in
  (mask_frozen new_mask reason s → (∃ e, r = Err e) ∧ s' = s) ∧
  (¬ mask_frozen new_mask reason s →
     r = Ok () ∧ effective_mask runtime' = new_mask ∧
     selected_schema_indices runtime' = set_indices new_mask ∧
     selected_feature_names runtime' = fs_name <$> active ∧
     get_vec_mask s' = new_mask ∧ get_active_dim s' = length active ∧
     get_active_feature_names s' = fs_name <$> active ∧
     get_schema_features s' = get_schema_features s ∧
     (mask_committed runtime' = false ↔
        vm_mode (vec_mask_runtime_meta s) = AutoCredit ∧ (reason = StartupFull ∨ reason = StartupExplicit))).
Proof.
  unfold install_or_validate_effective_mask, bind, gets, modify, throw, mask_frozen.
  set (rt := vec_mask_runtime_meta s). cbv zeta.
  destruct (mask_committed rt) eqn:Hc, (effective_mask rt) as [|b m] eqn:Hm; simpl;
    try destruct (bool_decide_reflect (b :: m = new_mask)) as [<-|Hn]; simpl;
    destruct (vm_mode rt) eqn:?, reason, (tpe_init_committed rt) eqn:?; simpl;
    rewrite ?Hm; split; intros ?; naive_solver.
Qed.

(** [push_v_candidate] keeps the earlier candidates in order and leaves a candidate
    within the tolerance of the pushed one, or the pushed one itself, in the pool. *)
Lemma push_v_candidate_spec v s :
  v_candidates (globals (push_v_candidate v s)) = get_v_candidates s ∧
    (∃ u, u ∈ get_v_candidates s ∧ vecn_eq u v f_1e_3 = true) ∨
  v_candidates (globals (push_v_candidate v s)) = get_v_candidates s ++ [v] ∧
    Forall (λ u, vecn_eq u v f_1e_3 = false) (get_v_candidates s).
Proof.
  unfold push_v_candidate, get_v_candidates. rewrite globals_globals_mut.
  destruct (existsb _ _) eqn:E.
  - left. split; [done|]. apply existsb_exists in E as (u & Hu & Hv).
    exists u. split; [by apply list_elem_of_In|done].
  - right. split; [done|]. apply Forall_forall. intros u Hu.
    destruct (vecn_eq u v f_1e_3) eqn:Ev; [|done]. exfalso.
    assert (existsb (λ u, vecn_eq u v f_1e_3) (v_candidates (globals s)) = true) by
      (apply existsb_exists; exists u; split; [by apply list_elem_of_In|done]).
    congruence.
Qed.

(** No two candidates of the pool are within the tolerance of each other. *)
Definition pool_distinct (l : list (list f64)) : Prop :=
  ForallOrdPairs (λ u v, vecn_eq u v f_1e_3 = false) l.

Lemma ForallOrdPairs_app_single {A} (R : A → A → Prop) l x :
  ForallOrdPairs R l → Forall (λ y, R y x) l → ForallOrdPairs R (l ++ [x]).
Proof.
  induction 1 as [|y l Hy Hl IH]; intros Hx; simpl.
  { constructor; constructor. }
  apply Forall_cons in Hx as [Hyx Hx]. constructor; [|by apply IH].
  apply Forall_app. split; [by apply Forall_forall; intros ??; eapply List.Forall_forall in Hy; [|by apply list_elem_of_In]|].
  by constructor.
Qed.

Theorem push_v_candidate_distinct v s :
  pool_distinct (get_v_candidates s) → pool_distinct (get_v_candidates (push_v_candidate v s)).
Proof.
  intros Hd. unfold get_v_candidates at 1.
  destruct (push_v_candidate_spec v s) as [[-> _]|[-> HF]]; [done|].
  by apply ForallOrdPairs_app_single.
Qed.

(** Projections of updated records compute; a rewrite base for the accessors. *)
Create Rewrite HintDb state.
#[export] Hint Rewrite globals_globals_mut : state.

(** ** Parts of the state *)

(** What no feedback touches: the schedulers' part of the state. *)
Definition sched_part (s s' : State) : Prop :=
  corpus s' = corpus s ∧ m_top_rateds s' = m_top_rateds s ∧ m_sched s' = m_sched s ∧
  m_weighted s' = m_weighted s ∧ m_dirty s' = m_dirty s ∧ rand s' = rand s.
#[global] Instance sched_part_equivalence : Equivalence sched_part.
Proof. split; unfold sched_part; repeat intro; destruct_and?; split_and!; congruence. Qed.

(** What neither a feedback nor a scheduler touches: the fuzzer's own part and that of the mutators. *)
Definition fuzzer_part (s s' : State) : Prop :=
  solutions s' = solutions s ∧ corpus_id s' = corpus_id s ∧ executions s' = executions s ∧
  last_found_time s' = last_found_time s ∧ stop_requested s' = stop_requested s ∧
  m_tokens s' = m_tokens s ∧ m_cmps s' = m_cmps s ∧ m_mopt s' = m_mopt s ∧ max_size s' = max_size s.
#[global] Instance fuzzer_part_equivalence : Equivalence fuzzer_part.
Proof. split; unfold fuzzer_part; repeat intro; destruct_and?; split_and!; congruence. Qed.

(** What the feedbacks work on. *)
Definition feedback_part (s s' : State) : Prop :=
  named_maps s' = named_maps s ∧ m_matrix s' = m_matrix s ∧ m_acfg s' = m_acfg s ∧
  m_frontier s' = m_frontier s ∧ m_explore s' = m_explore s ∧ m_runtime s' = m_runtime s.
#[global] Instance feedback_part_equivalence : Equivalence feedback_part.
Proof. split; unfold feedback_part; repeat intro; destruct_and?; split_and!; congruence. Qed.

(** What no scheduler touches. *)
Definition outside (s s' : State) : Prop := feedback_part s s' ∧ fuzzer_part s s'.
#[global] Instance outside_equivalence : Equivalence outside.
Proof. split; [by split|by intros ? ? []; split; symmetry|by intros ? ? ? [] []; split; etrans]. Qed.
