(* ===== verification/FrontierSets.v ===== *)
(** * FrontierSets: the coverage frontier ([feature_sched/frontier.rs])

    A bit set is a list of booleans; an index out of range reads as [false].
    [recompute_frontier_sets] marks the covered sites with an uncovered successor
    ([f_prev]) and the uncovered sites with a covered predecessor ([f_next]). *)

From Stdlib Require Import ZArith.
From S2P Require Import Prelude Rands Metadata State.

Definition bitset_from_indices (len : usize) (indices : list usize) : BitSet :=
  foldl (λ out i, if i <? len then <[i := true]> out else out) (replicate len false) indices.

Definition bitset_get (bits : BitSet) (idx : usize) : bool := default false (bits !! idx).

(** [adj.get(u).into_iter().flatten()] *)
Definition adjacent (adj : list (list usize)) (u : usize) : list usize := default [] (adj !! u).

Definition in_f_prev (cov : BitSet) (acfg : SancovAcfgMeta) (u : usize) : bool :=
  bitset_get cov u &&
  existsb (λ v, (v <? n_sancov_sites acfg) && negb (bitset_get cov v)) (adjacent (successors acfg) u).

Definition in_f_next (cov : BitSet) (acfg : SancovAcfgMeta) (u : usize) : bool :=
  negb (bitset_get cov u) &&
  existsb (λ p, (p <? n_sancov_sites acfg) && bitset_get cov p) (adjacent (predecessors acfg) u).

Definition recompute_frontier_sets (cov : BitSet) (acfg : SancovAcfgMeta) : BitSet * BitSet :=
  let n := n_sancov_sites acfg in
  (in_f_prev cov acfg <$> seq 0 n, in_f_next cov acfg <$> seq 0 n).

(** [Vec::resize]. *)
Definition resize {A} (n : nat) (x : A) (l : list A) : list A :=
  take n l ++ replicate (n - length l) x.

(** The loop that marks [newly_covered] and remembers whether a bit changed. *)
Definition mark_covered (n : usize) (newly : list usize) (acc : BitSet * bool) : BitSet * bool :=
  foldl (λ '(cov, changed) idx,
           if (idx <? n) && negb (bitset_get cov idx) then (<[idx := true]> cov, true)
           else (cov, changed)) acc newly.

Definition tpe_current_iteration (s : State) : u64 :=
  default 0%Z (current_iteration <$> m_tpe s).

Definition update_frontier_meta (newly_covered : list usize) : M State bool :=
  oacfg <- gets m_acfg ;;
  match oacfg with
  | None => ret false
  | Some acfg =>
    let n := n_sancov_sites acfg in
    iteration <- gets tpe_current_iteration ;;
    ometa <- gets m_frontier ;;
    let meta := default (mkFrontier iteration (replicate n false) (replicate n false)
                           (replicate n false)) ometa in
    let cov0 := if length (covered meta) =? n then covered meta
                else resize n false (covered meta) in
    let '(cov, changed) := mark_covered n newly_covered (cov0, false) in
    if changed : bool then
      let '(fp, fn) := recompute_frontier_sets cov acfg in
      modify (λ s, s <| m_frontier := Some (mkFrontier iteration cov fp fn) |>) ;;;
      ret true
    else ret false
  end.

(** The updates of a campaign, one per accepted testcase; whether any of them changed
    the coverage. *)
Fixpoint update_all (news : list (list usize)) : M State bool :=
  match news with
  | [] => ret false
  | newly :: news =>
    changed <- update_frontier_meta newly ;;
    later <- update_all news ;;
    ret (changed || later)
  end.

Definition local_step (n : usize) (testcase_bits : BitSet) (acfg : SancovAcfgMeta)
    (out : BitSet) (node : usize) : BitSet :=
  if n <=? node then out
  else
    foldl (λ out p, if (p <? n) && bitset_get testcase_bits p then <[p := true]> out else out)
      (<[node := true]> out) (adjacent (predecessors acfg) node).

Definition local_frontier_nodes (newly_covered testcase_covered : list usize)
    (acfg : SancovAcfgMeta) : list usize :=
  let n := n_sancov_sites acfg in
  let testcase_bits := bitset_from_indices n testcase_covered in
  set_indices (foldl (local_step n testcase_bits acfg) (replicate n false) newly_covered).

(** ** Bit sets *)

Lemma bitset_get_true bits i : bitset_get bits i = true ↔ bits !! i = Some true.
Proof. unfold bitset_get. destruct (bits !! i) as [[]|]; naive_solver. Qed.

Lemma bitset_get_insert bits i j b :
  i < length bits → bitset_get (<[i := b]> bits) j = if decide (i = j) then b else bitset_get bits j.
Proof.
  intros Hi. unfold bitset_get. destruct (decide (i = j)) as [->|].
  - by rewrite list_lookup_insert_eq.
  - by rewrite list_lookup_insert_ne.
Qed.

Lemma bitset_get_replicate n i : bitset_get (replicate n false) i = false.
Proof.
  unfold bitset_get. destruct (replicate n false !! i) as [b|] eqn:E; [|done].
  by apply lookup_replicate in E as [-> _].
Qed.

(** A loop that sets the bits below [n] selected by [f]. *)
Lemma set_loop_spec (n : nat) (f : nat → bool) (l : list nat) (out : BitSet) :
  length out = n →
  let out' := foldl (λ out p, if (p <? n) && f p then <[p := true]> out else out) out l in
  length out' = n ∧
  ∀ i, bitset_get out' i = true ↔ bitset_get out i = true ∨ (i < n ∧ i ∈ l ∧ f i = true).
Proof.
  revert out. induction l as [|p l IH]; intros out Hlen; simpl.
  { split; [done|]. intros i. rewrite elem_of_nil. naive_solver. }
  set (out1 := if (p <? n) && f p then <[p := true]> out else out).
  assert (length out1 = n) as H1 by (unfold out1; destruct (_ && _); by rewrite ?length_insert).
  destruct (IH out1 H1) as [Hl Hi]. split; [done|].
  intros i. rewrite Hi, elem_of_cons. clear IH Hi Hl H1. unfold out1.
  destruct (Nat.ltb_spec p n) as [Hp|Hp]; simpl; [|naive_solver lia].
  destruct (f p) eqn:Ef; [|split; [tauto|intros [?|(?&[->|?]&?)]; [tauto|congruence|tauto]]].
  rewrite bitset_get_insert by lia. case_decide; naive_solver.
Qed.

Lemma bitset_from_indices_spec len indices :
  length (bitset_from_indices len indices) = len ∧
  ∀ i, bitset_get (bitset_from_indices len indices) i = true ↔ i < len ∧ i ∈ indices.
Proof.
  pose proof (set_loop_spec len (λ _, true) indices (replicate len false)) as H.
  rewrite length_replicate in H. destruct (H eq_refl) as [Hl Hi].
  assert (bitset_from_indices len indices =
    foldl (λ out p, if (p <? len) && true then <[p := true]> out else out)
      (replicate len false) indices) as ->.
  { unfold bitset_from_indices. generalize (replicate len false).
    clear. induction indices as [|x l IH]; intros out; simpl; [done|].
    rewrite andb_true_r. apply IH. }
  split; [done|]. intros i. rewrite Hi, bitset_get_replicate. naive_solver.
Qed.

(** ** The frontier sets *)

Definition f_prev_spec (cov : BitSet) (acfg : SancovAcfgMeta) (u : usize) : Prop :=
  bitset_get cov u = true ∧
  ∃ v, v ∈ adjacent (successors acfg) u ∧ v < n_sancov_sites acfg ∧ bitset_get cov v = false.
Definition f_next_spec (cov : BitSet) (acfg : SancovAcfgMeta) (u : usize) : Prop :=
  bitset_get cov u = false ∧
  ∃ p, p ∈ adjacent (predecessors acfg) u ∧ p < n_sancov_sites acfg ∧ bitset_get cov p = true.

Lemma in_f_prev_iff cov acfg u : in_f_prev cov acfg u = true ↔ f_prev_spec cov acfg u.
Proof.
  unfold in_f_prev, f_prev_spec. rewrite andb_true_iff, existsb_exists.
  setoid_rewrite andb_true_iff. setoid_rewrite Nat.ltb_lt. setoid_rewrite negb_true_iff.
  setoid_rewrite list_elem_of_In. naive_solver.
Qed.

Lemma in_f_next_iff cov acfg u : in_f_next cov acfg u = true ↔ f_next_spec cov acfg u.
Proof.
  unfold in_f_next, f_next_spec. rewrite andb_true_iff, negb_true_iff, existsb_exists.
  setoid_rewrite andb_true_iff. setoid_rewrite Nat.ltb_lt.
  setoid_rewrite list_elem_of_In. naive_solver.
Qed.

Lemma bitset_get_map_seq (f : nat → bool) n u :
  bitset_get (f <$> seq 0 n) u = true ↔ u < n ∧ f u = true.
Proof.
  rewrite bitset_get_true, list_lookup_fmap. destruct (decide (u < n)).
  - rewrite lookup_seq_lt by done. simpl. split; [by intros [= ->]|by intros [_ ->]].
  - rewrite lookup_seq_ge by lia. simpl. split; [done|]. intros [? _]. lia.
Qed.

(** [recompute_frontier_sets] computes the frontier of the coverage. *)
Lemma recompute_frontier_sets_spec cov acfg :
  let n := n_sancov_sites acfg in
  let '(fp, fn) := recompute_frontier_sets cov acfg in
  length fp = n ∧ length fn = n ∧
  (∀ u, bitset_get fp u = true ↔ u < n ∧ f_prev_spec cov acfg u) ∧
  (∀ u, bitset_get fn u = true ↔ u < n ∧ f_next_spec cov acfg u).
Proof.
  simpl. rewrite !length_fmap, !length_seq. split; [done|]. split; [done|].
  split; intros u; rewrite bitset_get_map_seq; [by rewrite in_f_prev_iff|by rewrite in_f_next_iff].
Qed.

(** The ACFG's predecessor lists are the transpose of its successor lists. *)
Definition acfg_transposed (acfg : SancovAcfgMeta) : Prop :=
  ∀ u v, u < n_sancov_sites acfg → v < n_sancov_sites acfg →
    v ∈ adjacent (successors acfg) u ↔ u ∈ adjacent (predecessors acfg) v.

(** On a transposed ACFG the two sets are the two ends of the same frontier edges:
    a site is in one set exactly when an edge joins it to a site of the other. *)
Lemma frontier_sets_dual cov acfg :
  acfg_transposed acfg →
  let n := n_sancov_sites acfg in
  let '(fp, fn) := recompute_frontier_sets cov acfg in
  (∀ u, bitset_get fp u = true ↔
        u < n ∧ bitset_get cov u = true ∧ ∃ v, v ∈ adjacent (successors acfg) u ∧ bitset_get fn v = true) ∧
  (∀ v, bitset_get fn v = true ↔
        v < n ∧ bitset_get cov v = false ∧ ∃ u, u ∈ adjacent (predecessors acfg) v ∧ bitset_get fp u = true).
Proof.
  intros Ht. pose proof (recompute_frontier_sets_spec cov acfg) as H. cbv zeta in *.
  destruct (recompute_frontier_sets cov acfg) as [fp fn].
  destruct H as (_ & _ & Hp & Hn).
  split.
  - intros u. rewrite Hp. setoid_rewrite Hn. split.
    + intros (Hu & Hc & v & Hv & Hvn & Hcv). split_and!; [done..|].
      exists v. split_and!; [done..|]. split; [done|]. exists u. split_and!; [by apply Ht|done..].
    + intros (Hu & Hc & v & Hv & Hvn & Hcv & _). split; [done|]. split; [done|]. by exists v.
  - intros v. rewrite Hn. setoid_rewrite Hp. split.
    + intros (Hv & Hc & u & Hu & Hun & Hcu). split_and!; [done..|].
      exists u. split_and!; [done..|]. split; [done|]. exists v. split_and!; [by apply Ht|done..].
    + intros (Hv & Hc & u & Hu & Hun & Hcu & _). split; [done|]. split; [done|]. by exists u.
Qed.

(** ** The frontier of the state *)

Lemma resize_length {A} n (x : A) l : length (resize n x l) = n.
Proof. unfold resize. rewrite length_app, length_take, length_replicate. lia. Qed.

Lemma bitset_get_resize n l i :
  bitset_get (resize n false l) i = if decide (i < n) then bitset_get l i else false.
Proof.
  unfold bitset_get, resize. case_decide as Hi.
  - destruct (decide (i < length l)).
    + rewrite lookup_app_l by (rewrite length_take; lia). by rewrite lookup_take_lt.
    + rewrite lookup_app_r by (rewrite length_take; lia).
      rewrite lookup_replicate_2 by (rewrite length_take; lia).
      by rewrite lookup_ge_None_2 by lia.
  - rewrite lookup_ge_None_2; [done|].
    rewrite length_app, length_take, length_replicate. lia.
Qed.

Lemma mark_covered_spec n newly cov ch :
  length cov = n →
  let '(cov', ch') := mark_covered n newly (cov, ch) in
  length cov' = n ∧
  (∀ i, bitset_get cov' i = true ↔ bitset_get cov i = true ∨ (i < n ∧ i ∈ newly)) ∧
  (ch' = true ↔ ch = true ∨ ∃ i, i < n ∧ i ∈ newly ∧ bitset_get cov i = false).
Proof.
  unfold mark_covered. revert cov ch. induction newly as [|x l IH]; intros cov ch Hlen; cbn [foldl].
  { split_and!; [done| |]; intros; rewrite ?elem_of_nil; [naive_solver|].
    split; [naive_solver|]. intros [?|(i & ? & H & ?)]; [done|]. by apply elem_of_nil in H. }
  destruct ((x <? n) && negb (bitset_get cov x)) eqn:E.
  - apply andb_true_iff in E as [Hx%Nat.ltb_lt Hc%negb_true_iff].
    assert (length (<[x := true]> cov) = n) as Hl by by rewrite length_insert.
    specialize (IH (<[x := true]> cov) true Hl).
    destruct (foldl _ _ l) as [cov' ch']. destruct IH as (H1 & H2 & H3).
    split_and!; [done| |].
    + intros i. rewrite H2, elem_of_cons, bitset_get_insert by lia. clear H2 H3.
      case_decide; naive_solver.
    + rewrite H3. split; [|naive_solver]. intros _. right. exists x.
      split_and!; [done|by left|done].
  - specialize (IH cov ch Hlen). destruct (foldl _ _ l) as [cov' ch'].
    destruct IH as (H1 & H2 & H3).
    assert (x < n → bitset_get cov x = true) as Hxc.
    { intros Hx%Nat.ltb_lt. rewrite Hx in E. by apply negb_false_iff in E. }
    split_and!; [done| |].
    + intros i. rewrite H2, elem_of_cons. clear H2 H3. naive_solver.
    + rewrite H3. clear H2 H3. setoid_rewrite elem_of_cons. split; [naive_solver|].
      intros [?|(i & Hi & [->|?] & Hc)]; [by left| |right; naive_solver].
      rewrite Hxc in Hc; done.
Qed.

(** The stored frontier is the frontier of the stored coverage. *)
Definition frontier_coherent (s : State) : Prop :=
  ∀ acfg fm, m_acfg s = Some acfg → m_frontier s = Some fm →
    length (covered fm) = n_sancov_sites acfg ∧
    (f_prev fm, f_next fm) = recompute_frontier_sets (covered fm) acfg.

Definition is_covered (s : State) (i : usize) : bool :=
  default false (flip bitset_get i ∘ covered <$> m_frontier s).

(** Only the frontier metadata changes. *)
Lemma update_frontier_keeps newly s :
  ∃ fm, (update_frontier_meta newly s).2 = s <| m_frontier := fm |>.
Proof.
  unfold update_frontier_meta, bind, gets.
  destruct (m_acfg s) as [acfg|]; [|exists (m_frontier s); by destruct s].
  destruct (mark_covered _ _ _) as [cov [|]]; [|exists (m_frontier s); by destruct s].
  destruct (recompute_frontier_sets cov acfg). simpl. eauto.
Qed.

(** [update_frontier_meta] never fails; on a coherent state it adds exactly the
    newly covered sites in range to the coverage, reports whether the coverage
    grew, and leaves the frontier coherent. *)
Lemma update_frontier_meta_spec newly s :
  frontier_coherent s →
  ∃ changed s', update_frontier_meta newly s = (Ok changed, s') ∧
    frontier_coherent s' ∧
    (∀ acfg, m_acfg s = Some acfg →
       let n := n_sancov_sites acfg in
       (∀ i, is_covered s' i = true ↔ is_covered s i = true ∨ (i < n ∧ i ∈ newly)) ∧
       (changed = true ↔ ∃ i, i < n ∧ i ∈ newly ∧ is_covered s i = false)) ∧
    (m_acfg s = None → changed = false ∧ s' = s).
Proof.
  intros Hco. unfold update_frontier_meta, bind, gets.
  destruct (m_acfg s) as [acfg|] eqn:Ha; [|by exists false, s].
  set (n := n_sancov_sites acfg).
  set (meta := default _ (m_frontier s)).
  assert (length (covered meta) = n ∧ ∀ i, bitset_get (covered meta) i = is_covered s i) as [Hlen Hcov].
  { unfold meta, is_covered. destruct (m_frontier s) as [fm|] eqn:Hf; simpl.
    - split; [|done]. by apply (Hco acfg fm).
    - split; [by rewrite length_replicate|]. intros i. apply bitset_get_replicate. }
  rewrite Hlen, Nat.eqb_refl.
  pose proof (mark_covered_spec n newly (covered meta) false Hlen) as Hm.
  destruct (mark_covered n newly (covered meta, false)) as [cov changed].
  destruct Hm as (Hl' & Hc' & Hch). setoid_rewrite Hcov in Hc'. setoid_rewrite Hcov in Hch.
  destruct changed.
  - destruct (recompute_frontier_sets cov acfg) as [fp fn] eqn:Hr.
    eexists true, _. split; [done|]. split_and!; [|intros acfg' [= <-]; split|done].
    + intros acfg' fm Ha' Hf'. simpl in *. rewrite Ha in Ha'. simplify_eq. simpl. by rewrite Hr.
    + intros i. unfold is_covered at 1. simpl. apply Hc'.
    + rewrite Hch. naive_solver.
  - exists false, s. split; [done|]. split_and!; [done|intros acfg' [= <-]; split|done].
    + intros i. split; [tauto|]. intros [?|[Hi Hn]]; [done|].
      destruct (is_covered s i) eqn:Ei; [done|].
      assert (false = true) as Hf; [|done]. apply Hch. right. by exists i.
    + rewrite Hch. naive_solver.
Qed.

(** ** Local frontier nodes *)

Lemma local_step_spec n tb acfg out node : length out = n →
  length (local_step n tb acfg out node) = n ∧
  ∀ i, bitset_get (local_step n tb acfg out node) i = true ↔
    bitset_get out i = true ∨
    (node < n ∧ i < n ∧
     (i = node ∨ (i ∈ adjacent (predecessors acfg) node ∧ bitset_get tb i = true))).
Proof.
  intros Hl. unfold local_step. destruct (Nat.leb_spec n node) as [Hn|Hn]; [naive_solver lia|].
  assert (length (<[node := true]> out) = n) as Hl' by by rewrite length_insert.
  destruct (set_loop_spec n (bitset_get tb) (adjacent (predecessors acfg) node) _ Hl') as [H1 H2].
  split; [done|]. intros i. rewrite H2, bitset_get_insert by lia. clear H1 H2.
  case_decide; naive_solver lia.
Qed.

Lemma local_steps_spec n tb acfg newly out : length out = n →
  let out' := foldl (local_step n tb acfg) out newly in
  length out' = n ∧
  ∀ i, bitset_get out' i = true ↔
    bitset_get out i = true ∨
    (i < n ∧ ∃ node, node ∈ newly ∧ node < n ∧
       (i = node ∨ (i ∈ adjacent (predecessors acfg) node ∧ bitset_get tb i = true))).
Proof.
  revert out. induction newly as [|x l IH]; intros out Hl; simpl.
  { split; [done|]. intros i. split; [tauto|]. intros [?|(_ & node & H & _)]; [done|].
    by apply elem_of_nil in H. }
  destruct (local_step_spec n tb acfg out x Hl) as [H1 H2].
  destruct (IH _ H1) as [H3 H4]. split; [done|].
  intros i. rewrite H4, H2. clear IH H1 H2 H3 H4. setoid_rewrite elem_of_cons. naive_solver.
Qed.

(** The local nodes are, in increasing order, the newly covered sites in range and
    those of their predecessors that the testcase covers. *)
Theorem local_frontier_nodes_spec newly tcov acfg :
  let n := n_sancov_sites acfg in
  let nodes := local_frontier_nodes newly tcov acfg in
  StronglySorted lt nodes ∧
  ∀ i, i ∈ nodes ↔
    i < n ∧ ∃ node, node ∈ newly ∧ node < n ∧
      (i = node ∨ (i ∈ adjacent (predecessors acfg) node ∧ i ∈ tcov)).
Proof.
  cbv zeta. unfold local_frontier_nodes. split; [apply set_indices_sorted|].
  intros i. rewrite set_indices_spec, <-bitset_get_true.
  set (n := n_sancov_sites acfg). set (tb := bitset_from_indices n tcov).
  assert (length (replicate n false) = n) as Hl by apply length_replicate.
  destruct (local_steps_spec n tb acfg newly _ Hl) as [_ ->].
  rewrite bitset_get_replicate. unfold tb.
  setoid_rewrite (proj2 (bitset_from_indices_spec n tcov)). naive_solver.
Qed.

(** ** What the component promises *)

(** C9. [recompute_frontier_sets] computes the frontier of a coverage: [f_prev] is the set of
    covered sites with an uncovered successor, [f_next] that of uncovered sites with a
    covered predecessor; when the predecessor lists are the transposed successor lists,
    each set is reached from the other one along an edge. *)
Theorem frontier_sets_exact cov acfg :
  let n := n_sancov_sites acfg in
  let '(fp, fn) := recompute_frontier_sets cov acfg in
  length fp = n ∧ length fn = n ∧
  (∀ u, bitset_get fp u = true ↔ u < n ∧ f_prev_spec cov acfg u) ∧
  (∀ u, bitset_get fn u = true ↔ u < n ∧ f_next_spec cov acfg u) ∧
  (acfg_transposed acfg →
     (∀ u, bitset_get fp u = true ↔ u < n ∧ bitset_get cov u = true ∧
        ∃ v, v ∈ adjacent (successors acfg) u ∧ bitset_get fn v = true) ∧
     (∀ v, bitset_get fn v = true ↔ v < n ∧ bitset_get cov v = false ∧
        ∃ u, u ∈ adjacent (predecessors acfg) v ∧ bitset_get fp u = true)).
Proof.
  pose proof (recompute_frontier_sets_spec cov acfg) as Hr.
  pose proof (frontier_sets_dual cov acfg) as Hd.
  destruct (recompute_frontier_sets cov acfg) as [fp fn]. cbv zeta in *.
  destruct Hr as (? & ? & ? & ?). by split_and!.
Qed.

(** C10. Over any sequence of updates from a coherent state, no update fails, the coverage
    grows by exactly the reported sites in range, the frontier stays the frontier of the
    coverage, and the updates report a change exactly when a site was new. *)
Theorem coverage_accumulates news s acfg :
  frontier_coherent s → m_acfg s = Some acfg →
  let n := n_sancov_sites acfg in
  ∃ changed s', update_all news s = (Ok changed, s') ∧ frontier_coherent s' ∧ m_acfg s' = Some acfg ∧
    (∀ i, is_covered s' i = true ↔
       is_covered s i = true ∨ (i < n ∧ ∃ newly, newly ∈ news ∧ i ∈ newly)) ∧
    (changed = true ↔ ∃ i newly, i < n ∧ newly ∈ news ∧ i ∈ newly ∧ is_covered s i = false).
Proof.
  revert s. induction news as [|newly news IH]; intros s Hco Ha; cbv zeta; cbn [update_all].
  { exists false, s. split_and!; [done|done|done| |]; setoid_rewrite elem_of_nil; naive_solver. }
  destruct (update_frontier_meta_spec newly s Hco) as (ch & s1 & Hrun & Hco1 & Hspec & _).
  destruct (Hspec acfg Ha) as [Hcov Hch].
  assert (m_acfg s1 = Some acfg) as Ha1.
  { destruct (update_frontier_keeps newly s) as [fm Hfm]. rewrite Hrun in Hfm. by simpl in Hfm; subst. }
  destruct (IH s1 Hco1 Ha1) as (later & s2 & Hrun2 & Hco2 & Ha2 & Hcov2 & Hch2).
  exists (ch || later), s2. unfold bind. rewrite Hrun, Hrun2.
  split_and!; [done|done|done| |].
  - intros i. rewrite Hcov2, Hcov. setoid_rewrite elem_of_cons. clear. split.
    + intros [[?|[? ?]]|(? & l & ? & ?)]; eauto 10.
    + intros [?|(? & l & [->|?] & ?)]; eauto 10.
  - rewrite orb_true_iff, Hch, Hch2. setoid_rewrite elem_of_cons. clear Hch Hch2. split.
    + intros [(i & ? & ? & ?)|(i & l & ? & ? & ? & Hi)].
      { exists i, newly. split_and!; [done|by left|done|done]. }
      exists i, l. split_and!; [done|by right|done|].
      destruct (is_covered s i) eqn:E; [|done]. by rewrite (proj2 (Hcov i) (or_introl E)) in Hi.
    + intros (i & l & Hi & [->|Hl] & Hin & Hc); [left; by exists i|].
      destruct (is_covered s1 i) eqn:E; [|right; by exists i, l].
      apply Hcov in E as [?|[? ?]]; [congruence|left; by exists i].
Qed.

(** A branch: site 0 leads to 1 and 2. *)
Definition demo_acfg : SancovAcfgMeta := mkAcfg 0 3 [[1; 2]; []; []] [[]; [0]; [0]].

Lemma coverage_accumulates_witness :
  ∃ changed s', update_all [[0]; [2; 7]] ((empty_state (RomuDuoJr.with_seed 1)) <| m_acfg := Some demo_acfg |>)
    = (Ok changed, s') ∧ is_covered s' 2 = true ∧ is_covered s' 1 = false.
Proof.
  set (s := (empty_state _) <| m_acfg := _ |>).
  destruct (coverage_accumulates [[0]; [2; 7]] s demo_acfg) as (changed & s' & Hrun & _ & _ & Hc & _);
    [by intros ? ?|done|].
  exists changed, s'. split_and!; [done| |].
  - apply Hc. right. split; [simpl; lia|]. exists [2; 7]. split; [right|]; by left.
  - destruct (is_covered s' 1) eqn:E; [|done]. apply Hc in E as [E|(_ & l & Hl & Hi)]; [done|].
    apply (bool_decide_eq_true_2 (1 ∈ l)) in Hi.
    by rewrite !elem_of_cons, elem_of_nil in Hl; destruct Hl as [->|[->|[]]]; vm_compute in Hi.
Defined.
