(* ===== verification/MaskSelection.v ===== *)
(** * MaskSelection: [feature_sched/mask_selection.rs]

    The choice of the top-k features by explore credit, projection of a full
    vector to the enabled coordinates, and the initial simplex vector. *)

From Stdlib Require Import ZArith Lia Ascii.
From S2P Require Import Prelude Float64 FloatFacts Metadata State.

(** The loop that checks the credits and collects the positive ones with their
    schema index. *)
Fixpoint collect_positive (idx : nat) (credits : list f64) (positive : list (nat * f64)) :
    outcome Msg (list (nat * f64)) :=
  match credits with
  | [] => Ok positive
  | credit :: credits =>
    if negb (is_finite credit) then
      Err (fmt "BOFuzz auto-credit error: non-finite credit at schema index {}" [ANat idx])
    else if flt credit f0 then
      Err (fmt "BOFuzz auto-credit error: negative credit at schema index {}" [ANat idx])
    else
      collect_positive (S idx) credits
        (if flt f0 credit then positive ++ [(idx, credit)] else positive)
  end.

(** The comparison of [sort_by]: decreasing credit, then increasing index. *)
Definition cmp_credit (a b : nat * f64) : comparison :=
  match default Eq (partial_cmp b.2 a.2) with
  | Eq => Nat.compare a.1 b.1
  | c => c
  end.

(** [mask[idx] = true] for the indices of a list; the indices are in range. *)
Definition mask_of (dim : nat) (idxs : list nat) : list bool :=
  foldl (λ mask idx, <[idx := true]> mask) (replicate dim false) idxs.

Definition select_positive_credit_top_k_mask (credits : list f64) (schema_dim top_k : usize) :
    outcome Msg (option (list bool)) :=
  if negb (length credits =? schema_dim) then
    Err (fmt "BOFuzz auto-credit error: credits length {} != schema_dim {}"
           [ANat (length credits); ANat schema_dim])
  else if (top_k =? 0) || (schema_dim <? top_k) then
    Err (fmt "BOFuzz auto-credit error: credit_top_k {} outside valid range 1..={}"
           [ANat top_k; ANat schema_dim])
  else
    let? positive := collect_positive 0 credits [] in
    match positive with
    | [] => Ok None
    | _ => Ok (Some (mask_of schema_dim (fst <$> take top_k (sort_by cmp_credit positive))))
    end.

Definition project_vector_by_mask {T} (full : list T) (mask : list bool) : outcome Msg (list T) :=
  if negb (length full =? length mask) then
    Err (fmt "BOFuzz mask projection error: vector length {} != mask length {}"
           [ANat (length full); ANat (length mask)])
  else Ok (fst <$> filter (λ p : T * bool, p.2 = true) (zip full mask)).

Fixpoint mask_to_bitstring (mask : list bool) : string :=
  match mask with
  | [] => ""
  | v :: mask => String (if v then "1"%char else "0"%char) (mask_to_bitstring mask)
  end.

Definition equal_simplex (dim : usize) : list f64 :=
  if dim =? 0 then [] else replicate dim (fdiv f1 (of_nat dim)).

Fixpoint credit_sum (idx : nat) (credits : list f64) (positive_sum : f64) : outcome Msg f64 :=
  match credits with
  | [] => Ok positive_sum
  | credit :: credits =>
    if negb (is_finite credit) then
      Err (fmt "BOFuzz credit normalization error: non-finite credit at index {}" [ANat idx])
    else if flt credit f0 then
      Err (fmt "BOFuzz credit normalization error: negative credit at index {}" [ANat idx])
    else
      credit_sum (S idx) credits
        (if flt f0 credit then fadd positive_sum credit else positive_sum)
  end.

Definition normalize_credit_or_equal_simplex (credits : list f64) :
    outcome Msg (list f64 * bool * f64) :=
  match credits with
  | [] => Ok ([], false, f0)
  | _ =>
    let? positive_sum := credit_sum 0 credits f0 in
    if flt f0 positive_sum then
      Ok ((λ v, fdiv v positive_sum) <$> credits, true, positive_sum)
    else Ok (equal_simplex (length credits), false, f0)
  end.

(** ** Guards *)

(** A credit the guards let through: finite and not negative. *)
Definition good_credit (x : f64) : Prop := is_finite x = true ∧ flt x f0 = false.

Lemma good_credit_fnn x : fvalid x → good_credit x → fnn x.
Proof. intros V [F N]. apply fnn_guard; [done| |done]. by destruct x. Qed.

Definition positives_from (idx : nat) (credits : list f64) : list (nat * f64) :=
  filter (λ p : nat * f64, flt f0 p.2 = true) (zip (seq idx (length credits)) credits).

Lemma collect_positive_spec idx credits acc :
  (Forall good_credit credits →
   collect_positive idx credits acc = Ok (acc ++ positives_from idx credits)) ∧
  (∀ l, collect_positive idx credits acc = Ok l → Forall good_credit credits) ∧
  collect_positive idx credits acc ≠ Panic.
Proof.
  revert idx acc. induction credits as [|c credits IH]; intros idx acc.
  { simpl. unfold positives_from. simpl. rewrite app_nil_r. split_and!; [done|constructor|done]. }
  unfold positives_from. cbn [collect_positive length seq zip_with].
  destruct (is_finite c) eqn:F; cbn [negb].
  2: { split_and!; [|done|done]. intros [[? _] _]%Forall_cons. congruence. }
  destruct (flt c f0) eqn:N.
  { split_and!; [|done|done]. intros [[_ ?] _]%Forall_cons. congruence. }
  destruct (IH (S idx) (if flt f0 c then acc ++ [(idx, c)] else acc)) as (H1 & H2 & H3).
  split_and!; [|intros l H; constructor; [done|by eapply H2]|done].
  intros [_ HF]%Forall_cons. rewrite H1 by done. f_equal.
  destruct (flt f0 c) eqn:P.
  - rewrite filter_cons_True by done. by rewrite <-app_assoc.
  - by rewrite filter_cons_False by (simpl; congruence).
Qed.

Lemma elem_of_positives_from idx credits i c :
  (i, c) ∈ positives_from idx credits ↔
  idx ≤ i ∧ credits !! (i - idx) = Some c ∧ flt f0 c = true.
Proof.
  unfold positives_from. rewrite list_elem_of_filter. simpl.
  assert ((i, c) ∈ zip (seq idx (length credits)) credits ↔
          idx ≤ i ∧ credits !! (i - idx) = Some c) as ->; [|tauto].
  rewrite list_elem_of_lookup. setoid_rewrite lookup_zip_with_Some. split.
  - intros (k & x & y & [= -> ->] & Hk & Hc). apply lookup_seq in Hk as [-> ?].
    split; [lia|]. by replace (idx + k - idx) with k by lia.
  - intros [Hi Hc]. exists (i - idx), i, c. split_and!; [done| |done].
    rewrite lookup_seq. apply lookup_lt_Some in Hc. lia.
Qed.

Lemma positives_from_NoDup idx credits : NoDup (fst <$> positives_from idx credits).
Proof.
  unfold positives_from. generalize (length credits). intros n. revert idx n.
  induction credits as [|c credits IH]; intros idx [|n]; cbn [seq zip_with]; try constructor.
  rewrite filter_cons. case_decide; [|apply IH]. simpl. constructor; [|apply IH].
  intros ([i c'] & -> & [_ Hin]%list_elem_of_filter)%list_elem_of_fmap. simpl in Hin.
  apply elem_of_zip_l in Hin. apply elem_of_seq in Hin. lia.
Qed.

(** ** The order of the selection *)

Lemma cmp_credit_le a b : fvalid a.2 → fvalid b.2 → is_nan a.2 = false → is_nan b.2 = false →
  cmp_le cmp_credit a b ↔ (fkey b.2 < fkey a.2)%Z ∨ (fkey a.2 = fkey b.2 ∧ a.1 ≤ b.1).
Proof.
  intros Va Vb Na Nb. unfold cmp_le, cmp_credit. rewrite partial_cmp_key by done. simpl.
  destruct (Z.compare_spec (fkey b.2) (fkey a.2)).
  - rewrite Nat.compare_le_iff. naive_solver lia.
  - naive_solver lia.
  - naive_solver lia.
Qed.

Definition comparable (a : nat * f64) : Prop := fvalid a.2 ∧ is_nan a.2 = false.

Lemma sort_credit_sorted l :
  Forall comparable l → StronglySorted (cmp_le cmp_credit) (sort_by cmp_credit l).
Proof.
  apply sort_by_sorted.
  - intros x y z [] [] []. rewrite !cmp_credit_le by done. lia.
  - intros x y [] [] Hgt. rewrite cmp_credit_le by done.
    assert (¬ cmp_le cmp_credit x y) as Hn by (unfold cmp_le; intros H'; by apply H').
    rewrite cmp_credit_le in Hn by done. lia.
Qed.

(** ** Masks *)

Lemma mask_of_aux idxs out :
  Forall (λ i, i < length out) idxs →
  length (foldl (λ mask idx, <[idx := true]> mask) out idxs) = length out ∧
  ∀ i, foldl (λ mask idx, <[idx := true]> mask) out idxs !! i = Some true ↔
       i ∈ idxs ∨ out !! i = Some true.
Proof.
  revert out. induction idxs as [|x idxs IH]; intros out HF; simpl.
  { split; [done|]. intros i. rewrite elem_of_nil. tauto. }
  apply Forall_cons in HF as [Hx HF].
  destruct (IH (<[x := true]> out)) as [H1 H2]; [by rewrite length_insert|].
  rewrite length_insert in H1. split; [done|].
  intros i. rewrite H2, elem_of_cons. destruct (decide (i = x)) as [->|].
  - rewrite list_lookup_insert_eq by done. tauto.
  - rewrite list_lookup_insert_ne by done. tauto.
Qed.

Lemma mask_of_spec dim idxs : Forall (λ i, i < dim) idxs →
  length (mask_of dim idxs) = dim ∧
  ∀ i, mask_of dim idxs !! i = Some true ↔ i ∈ idxs.
Proof.
  intros HF. destruct (mask_of_aux idxs (replicate dim false)) as [H1 H2];
    [by rewrite length_replicate|]. rewrite length_replicate in H1. split; [done|].
  intros i. unfold mask_of. rewrite H2. split; [|tauto].
  intros [?|[? _]%lookup_replicate]; done.
Qed.

Lemma count_true_mask_of dim idxs : Forall (λ i, i < dim) idxs → NoDup idxs →
  count_true (mask_of dim idxs) = length idxs.
Proof.
  intros HF Hnd. rewrite <-set_indices_length.
  apply Permutation_length, NoDup_Permutation; [|done|].
  - apply NoDup_ListNoDup. pose proof (set_indices_sorted (mask_of dim idxs)) as Hs.
    induction Hs as [|x l Hs IH Hx]; constructor; [|done].
    intros Hin%list_elem_of_In. rewrite Forall_forall in Hx. specialize (Hx _ Hin). lia.
  - intros i. rewrite set_indices_spec. by apply mask_of_spec.
Qed.

(** The [k] best positions of the credits: the specification of the selection. *)
Record top_k_mask (credits : list f64) (k : nat) (mask : list bool) : Prop := {
  tk_length : length mask = length credits;
  tk_positive : ∀ i, mask !! i = Some true → ∃ c, credits !! i = Some c ∧ flt f0 c = true;
  tk_count : count_true mask = Nat.min k (length (filter (λ c, flt f0 c = true) credits));
  tk_best : ∀ i j ci cj, mask !! i = Some true → mask !! j = Some false →
    credits !! i = Some ci → credits !! j = Some cj → flt f0 cj = true →
    flt cj ci = true ∨ (feq ci cj = true ∧ i < j);
}.

Lemma positives_from_length idx credits :
  length (positives_from idx credits) = length (filter (λ c, flt f0 c = true) credits).
Proof.
  unfold positives_from. revert idx. induction credits as [|c l IH]; intros idx; [done|].
  cbn [length seq zip_with]. rewrite !filter_cons. simpl.
  destruct (decide (flt f0 c = true)); simpl; by rewrite IH.
Qed.

Lemma feq_key a b : fvalid a → fvalid b → is_nan a = false → is_nan b = false →
  feq a b = (fkey a =? fkey b)%Z.
Proof.
  intros Va Vb Na Nb. unfold feq, SFeqb.
  pose proof (partial_cmp_key a b Va Vb Na Nb) as H. unfold partial_cmp in H. rewrite H.
  by rewrite Z.eqb_compare.
Qed.

Lemma select_mask_sound credits k :
  Forall fvalid credits → Forall good_credit credits → positives_from 0 credits ≠ [] →
  top_k_mask credits k
    (mask_of (length credits) (fst <$> take k (sort_by cmp_credit (positives_from 0 credits)))).
Proof.
  intros HV HG Hne. set (pos := positives_from 0 credits).
  set (srt := sort_by cmp_credit pos).
  assert (∀ p, p ∈ srt ↔ p ∈ pos) as Hperm by (intros p; unfold srt; by rewrite sort_by_perm).
  assert (∀ i c, (i, c) ∈ pos ↔ credits !! i = Some c ∧ flt f0 c = true) as Hpos.
  { intros i c. unfold pos. rewrite elem_of_positives_from, Nat.sub_0_r. naive_solver lia. }
  assert (∀ p, p ∈ take k srt → p ∈ pos) as Htake.
  { intros p Hp. apply Hperm. rewrite <-(take_drop k srt). apply elem_of_app. by left. }
  assert (Forall (λ i, i < length credits) (fst <$> take k srt)) as Hrange.
  { apply Forall_fmap, Forall_forall. intros [i c] Hp%Htake%Hpos. simpl.
    eapply lookup_lt_Some, Hp. }
  assert (Forall comparable pos) as Hcmp.
  { apply Forall_forall. intros [i c] [Hc _]%Hpos. rewrite Forall_lookup in HV, HG.
    split; [by eapply HV|]. destruct (HG _ _ Hc) as [F _]. by destruct c. }
  assert (NoDup (fst <$> srt)) as Hnd.
  { unfold srt. rewrite sort_by_perm. apply positives_from_NoDup. }
  destruct (mask_of_spec _ _ Hrange) as [Hlen Hbits].
  split.
  - done.
  - intros i ([i' c] & -> & Hp)%Hbits%list_elem_of_fmap. exists c. by apply Hpos, Htake.
  - rewrite count_true_mask_of; [|done|].
    + rewrite length_fmap, length_take. f_equal. unfold srt. rewrite sort_by_perm.
      apply (positives_from_length 0 credits).
    + rewrite fmap_take. by apply (sublist_NoDup _ (fst <$> srt) Hnd), sublist_take.
  - intros i j ci cj ([i' c] & -> & Hi)%Hbits%list_elem_of_fmap Hj Hci Hcj Hpj. simpl in *.
    assert (c = ci) as -> by (apply Htake, Hpos in Hi as [??]; congruence).
    assert ((j, cj) ∈ drop k srt) as Hd.
    { assert ((j, cj) ∈ srt) as Hs by by apply Hperm, Hpos.
      rewrite <-(take_drop k srt) in Hs. apply elem_of_app in Hs as [Hs|]; [|done].
      assert (mask_of (length credits) (fst <$> take k srt) !! j = Some true) as Ht; [|congruence].
      apply Hbits, list_elem_of_fmap. by exists (j, cj). }
    pose proof (sorted_take_drop _ _ _ _ _ (sort_credit_sorted _ Hcmp) Hi Hd) as Hle.
    rewrite Forall_forall in Hcmp.
    destruct (Hcmp _ (Htake _ Hi)) as [V1 N1]; destruct (Hcmp (j, cj)) as [V2 N2]; [by apply Hpos|].
    simpl in *. rewrite cmp_credit_le in Hle by done. simpl in Hle.
    rewrite flt_key, feq_key by done. rewrite Z.ltb_lt, Z.eqb_eq.
    destruct Hle as [?|[Hk Hij]]; [by left|right]. split; [done|].
    assert (i' ≠ j); [|lia]. intros ->.
    assert (mask_of (length credits) (fst <$> take k srt) !! j = Some true); [|congruence].
    apply Hbits, list_elem_of_fmap. by exists (j, ci).
Qed.

(** The result of the selection on every input: it fails exactly on a wrong
    length, a bad [top_k] or a bad credit; it is [None] exactly when no credit is
    positive; otherwise it is the top-[k] mask. *)
Lemma select_mask_ok credits dim k :
  Forall fvalid credits →
  let r := select_positive_credit_top_k_mask credits dim k in
  ((∃ e, r = Err e) ↔ ¬ (length credits = dim ∧ 1 ≤ k ≤ dim ∧ Forall good_credit credits)) ∧
  (r = Ok None ↔ length credits = dim ∧ 1 ≤ k ≤ dim ∧ Forall good_credit credits ∧
                 Forall (λ c, flt f0 c = false) credits) ∧
  (∀ mask, r = Ok (Some mask) → top_k_mask credits k mask ∧ count_true mask ≠ 0) ∧
  r ≠ Panic.
Proof.
  intros HV. cbv zeta. unfold select_positive_credit_top_k_mask.
  destruct (Nat.eqb_spec (length credits) dim) as [<-|Hlen]; cbn [negb].
  2: { split_and!; [naive_solver|naive_solver|done|done]. }
  destruct ((k =? 0) || (length credits <? k)) eqn:Ek.
  { assert (¬ (1 ≤ k ≤ length credits)).
    { apply orb_true_iff in Ek as [?%Nat.eqb_eq|?%Nat.ltb_lt]; lia. }
    split_and!; [naive_solver|naive_solver|done|done]. }
  apply orb_false_iff in Ek as [?%Nat.eqb_neq ?%Nat.ltb_ge].
  destruct (collect_positive_spec 0 credits []) as (H1 & H2 & H3).
  destruct (collect_positive 0 credits []) as [pos|e|]; [|cbn [obind]|done].
  2: { assert (¬ Forall good_credit credits) by (intros HG; by specialize (H1 HG)).
       split_and!; [naive_solver|naive_solver|done|done]. }
  pose proof (H2 pos eq_refl) as HG. specialize (H1 HG). injection H1 as ->. cbn [obind].
  assert (positives_from 0 credits = [] ↔ Forall (λ c, flt f0 c = false) credits) as Hnil.
  { split.
    - intros Hn. apply Forall_lookup. intros i c Hc. destruct (flt f0 c) eqn:E; [|done].
      assert ((i, c) ∈ positives_from 0 credits) as Hin.
      { apply elem_of_positives_from. rewrite Nat.sub_0_r. split; [lia|done]. }
      rewrite Hn in Hin. by apply elem_of_nil in Hin.
    - intros HF. destruct (positives_from 0 credits) as [|[i c] l] eqn:E; [done|].
      assert ((i, c) ∈ positives_from 0 credits) as Hin by (rewrite E; left).
      apply elem_of_positives_from in Hin as (_ & Hc & Hp).
      rewrite Forall_lookup in HF. apply HF in Hc. congruence. }
  assert (length credits = length credits ∧ 1 ≤ k ≤ length credits ∧ Forall good_credit credits)
    as Hok by (split_and!; [done|lia|lia|done]).
  simpl app. destruct (positives_from 0 credits) as [|p l] eqn:E.
  { split_and!; [|split; [|done]|done|done].
    - split; [by intros []|]. intros Hn. by destruct (Hn Hok).
    - intros _. destruct Hok as (?&?&?). split_and!; [done|lia|lia|done|by apply Hnil]. }
  split_and!; [| | |done].
  { split; [by intros []|]. intros Hn. by destruct (Hn Hok). }
  { split; [done|]. intros (_ & _ & _ & Hz). by apply Hnil in Hz. }
  assert (positives_from 0 credits ≠ []) as Hne by congruence.
  pose proof (select_mask_sound credits k HV HG Hne) as Hs. rewrite E in Hs.
  intros mask Hm. assert (∀ a b : list bool, Ok (E := Msg) (Some a) = Ok (Some b) → a = b) as Hinj
    by by intros a b [=].
  apply Hinj in Hm. subst mask. split; [exact Hs|].
  rewrite (tk_count _ _ _ Hs), <-(positives_from_length 0), E. simpl. lia.
Qed.

(** The tests of [mask_selection.rs]. *)
Example auto_credit_selects_at_most_top_k :
  select_positive_credit_top_k_mask [f1; of_Z 5; of_Z 3; f2] 4 2 = Ok (Some [false; true; true; false]).
Proof. vm_compute. reflexivity. Qed.
Example auto_credit_ties_break_by_schema_index :
  select_positive_credit_top_k_mask [f0; of_Z 10; of_Z 5; of_Z 5] 4 2 = Ok (Some [false; true; true; false]).
Proof. vm_compute. reflexivity. Qed.
Example credit_normalization_is_exact :
  normalize_credit_or_equal_simplex [f2; f1; f1]
  = Ok ([f_half; fdiv f1 (of_Z 4); fdiv f1 (of_Z 4)], true, of_Z 4).
Proof. vm_compute. reflexivity. Qed.

(** ** Projection *)

Lemma project_aux {T} (full : list T) mask k : length full = length mask →
  fst <$> filter (λ p : T * bool, p.2 = true) (zip full mask)
  = omap (λ i, full !! (i - k)) (set_indices_from k mask).
Proof.
  revert mask k. induction full as [|x full IH]; intros [|b mask] k Hl; try done.
  cbn [zip_with set_indices_from]. rewrite filter_cons. simpl in Hl.
  assert (omap (λ i, (x :: full) !! (i - k)) (set_indices_from (S k) mask)
          = omap (λ i, full !! (i - S k)) (set_indices_from (S k) mask)) as Heq.
  { apply list_omap_ext, Forall2_same_length_lookup_2; [done|].
    intros j i i' Hi Hi'. rewrite Hi in Hi'. injection Hi' as <-.
    apply list_elem_of_lookup_2, set_indices_from_spec in Hi as [? _].
    by replace (i - k) with (S (i - S k)) by lia. }
  specialize (IH mask (S k)).
  destruct b; cbn [snd].
  - rewrite decide_True by done. rewrite fmap_cons, IH by lia.
    cbn [omap list_omap]. rewrite Nat.sub_diag. cbn. f_equal. symmetry. exact Heq.
  - rewrite decide_False by done. rewrite IH by lia. symmetry. exact Heq.
Qed.

(** The projection keeps exactly the enabled coordinates, in schema order. *)
Lemma project_vector_by_mask_spec {T} (full : list T) mask :
  (length full = length mask →
   ∃ v, project_vector_by_mask full mask = Ok v ∧ length v = count_true mask ∧
        v = omap (λ i, full !! i) (set_indices mask)) ∧
  (length full ≠ length mask → ∃ e, project_vector_by_mask full mask = Err e).
Proof.
  unfold project_vector_by_mask. split; intros Hl.
  - rewrite (proj2 (Nat.eqb_eq _ _) Hl). cbn [negb]. eexists. split; [done|]. split.
    + rewrite length_fmap. unfold count_true. clear -Hl. revert mask Hl.
      induction full as [|x full IH]; intros [|b mask] Hl; try done.
      cbn [zip_with]. rewrite !filter_cons. cbn [snd length] in *.
      destruct b; [rewrite !decide_True by done|rewrite !decide_False by done];
        cbn [length]; rewrite IH by lia; done.
    + rewrite (project_aux full mask 0 Hl). apply list_omap_ext, Forall2_same_length_lookup_2; [done|].
      intros j i i' Hi Hi'. unfold set_indices in Hi'. rewrite Hi in Hi'. injection Hi' as <-.
      by rewrite Nat.sub_0_r.
  - rewrite (proj2 (Nat.eqb_neq _ _) Hl). eauto.
Qed.

Lemma project_ok_length {T} (full : list T) mask v :
  project_vector_by_mask full mask = Ok v → length full = length mask ∧ length v = count_true mask.
Proof.
  intros H. destruct (decide (length full = length mask)) as [Hl|Hl].
  - destruct (proj1 (project_vector_by_mask_spec full mask) Hl) as (v' & Hv & Hlen & _).
    rewrite Hv in H. injection H as <-. done.
  - destruct (proj2 (project_vector_by_mask_spec full mask) Hl) as [e He]. congruence.
Qed.

(** ** The initial simplex vector *)

Lemma equal_simplex_length d : length (equal_simplex d) = d.
Proof.
  unfold equal_simplex. destruct (Nat.eqb_spec d 0); [by subst|]. apply length_replicate.
Qed.

Lemma equal_simplex_unit d : (Z.of_nat d < 2 ^ 53)%Z → Forall in_unit (equal_simplex d).
Proof.
  intros Hd. unfold equal_simplex. destruct (Nat.eqb_spec d 0); [constructor|].
  apply Forall_replicate. apply recip_unit. lia.
Qed.

Lemma credit_sum_spec idx credits acc : Forall fvalid credits → fnn acc →
  (∀ r, credit_sum idx credits acc = Ok r →
     Forall good_credit credits ∧ fnn r ∧
     (is_finite r = true → is_finite acc = true ∧ (fv acc ≤ fv r)%Z ∧
        Forall (λ c, flt f0 c = true → (fv c ≤ fv r)%Z) credits)) ∧
  (Forall good_credit credits → ∃ r, credit_sum idx credits acc = Ok r) ∧
  credit_sum idx credits acc ≠ Panic.
Proof.
  revert idx acc. induction credits as [|c credits IH]; intros idx acc HV Ha; simpl.
  { split_and!; [|eauto|done]. intros r [= <-]. split_and!; [constructor|done|].
    intros F. split_and!; [done|lia|constructor]. }
  apply Forall_cons in HV as [Vc HV].
  destruct (is_finite c) eqn:F; simpl.
  2: { split_and!; [done| |done]. intros [[? _] _]%Forall_cons. congruence. }
  destruct (flt c f0) eqn:N.
  { split_and!; [done| |done]. intros [[_ ?] _]%Forall_cons. congruence. }
  assert (fnn c) as Hc by by apply good_credit_fnn.
  assert (fnn (if flt f0 c then fadd acc c else acc)) as Ha' by (destruct (flt f0 c); auto with f64).
  destruct (IH (S idx) _ HV Ha') as (H1 & H2 & H3).
  split_and!; [|intros [_ HF]%Forall_cons; by apply H2|done].
  intros r Hr. destruct (H1 r Hr) as (HG & Hfr & Hle). split_and!; [by constructor|done|].
  intros Fr. destruct (Hle Fr) as (Fa & Hva & HF).
  destruct (flt f0 c) eqn:P.
  - destruct (fadd_ge acc c Ha Hc Fa) as (? & ? & ? & ?).
    split_and!; [done|lia|]. constructor; [intros _; lia|done].
  - split_and!; [done|lia|]. constructor; [congruence|done].
Qed.

Lemma not_pos_zero c : fnn c → flt f0 c = false → fv c = 0%Z.
Proof. intros [_ H]. by destruct c as [|[]| |[]]. Qed.

(** [normalize_credit_or_equal_simplex] succeeds exactly on finite non-negative
    credits, and its vector has the length of the input with entries in [0,1]. *)
Lemma normalize_credit_spec credits :
  Forall fvalid credits → (Z.of_nat (length credits) < 2 ^ 53)%Z →
  (Forall good_credit credits ↔ ∃ r, normalize_credit_or_equal_simplex credits = Ok r) ∧
  ∀ v b t, normalize_credit_or_equal_simplex credits = Ok (v, b, t) →
    length v = length credits ∧ Forall in_unit v ∧ fnn t ∧
    (b = true → flt f0 t = true ∧ v = (λ c, fdiv c t) <$> credits) ∧
    (b = false → v = equal_simplex (length credits)).
Proof.
  intros HV Hlen. unfold normalize_credit_or_equal_simplex.
  destruct credits as [|c0 cs] eqn:Ec.
  { split; [split; [eauto|constructor]|].
    intros v b t [= <- <- <-]. split_and!; [done|constructor|done|done|done]. }
  rewrite <-Ec in *. clear Ec c0 cs.
  destruct (credit_sum_spec 0 credits f0 HV f0_fnn) as (H1 & H2 & H3).
  split.
  - split; [intros [r ->]%H2; simpl; destruct (flt f0 r); eauto|].
    intros [r Hr]. destruct (credit_sum 0 credits f0); naive_solver.
  - intros v b t H. destruct (credit_sum 0 credits f0) as [r|e|]; [|done..]. simpl in H.
    destruct (H1 r eq_refl) as (HG & Hr & Hle). destruct (flt f0 r) eqn:P; simplify_eq.
    + split_and!; [apply length_fmap| |done|done|done].
      apply Forall_fmap, Forall_lookup. intros i c Hc. simpl.
      rewrite Forall_lookup in HV, HG. pose proof (HV _ _ Hc) as Vc. pose proof (HG _ _ Hc) as Gc.
      pose proof (good_credit_fnn c Vc Gc) as Nc.
      apply fdiv_total; [done|done|apply Gc|]. intros Ft. destruct (Hle Ft) as (_ & _ & HF).
      pose proof (fgt0_fv _ (fnn_valid _ Hr) Ft P). split; [|done].
      rewrite Forall_lookup in HF. specialize (HF _ _ Hc).
      destruct (flt f0 c) eqn:Pc; [by apply HF|]. rewrite (not_pos_zero c) by done. lia.
    + split_and!; [apply equal_simplex_length|by apply equal_simplex_unit|done|done|done].
Qed.

Lemma count_true_pos mask : count_true mask ≠ 0 → ∃ i, mask !! i = Some true.
Proof.
  rewrite <-set_indices_length. intros Hn. destruct (set_indices mask) as [|i l] eqn:E; [done|].
  exists i. apply set_indices_spec. rewrite E. by left.
Qed.

Lemma inf_positive r : fnn r → is_finite r = false → flt f0 r = true.
Proof. intros Hr. destruct r as [| [] | |]; try done; by destruct Hr. Qed.

(** A positive credit keeps the normalisation off its fallback. *)
Lemma normalize_signal credits v b t :
  Forall fvalid credits → normalize_credit_or_equal_simplex credits = Ok (v, b, t) →
  (∃ c, c ∈ credits ∧ flt f0 c = true) → b = true.
Proof.
  intros HV H (c & Hc & Hp). unfold normalize_credit_or_equal_simplex in H.
  destruct credits as [|c0 cs] eqn:Ec; [by apply elem_of_nil in Hc|]. rewrite <-Ec in *. clear Ec c0 cs.
  destruct (credit_sum_spec 0 credits f0 HV f0_fnn) as (H1 & _ & _).
  destruct (credit_sum 0 credits f0) as [r|e|]; [|done..]. destruct (H1 r eq_refl) as (HG & Hr & Hle).
  assert (flt f0 r = true) as E; [|simpl in H; rewrite E in H; by simplify_eq].
  destruct (is_finite r) eqn:F; [|by apply inf_positive].
  destruct (Hle eq_refl) as (_ & _ & HF). rewrite Forall_forall in HF, HV, HG.
  pose proof (HF _ Hc Hp). pose proof (fgt0_fv _ (HV _ Hc) (proj1 (HG _ Hc)) Hp).
  destruct (flt f0 r) eqn:E; [done|]. pose proof (not_pos_zero r Hr E). lia.
Qed.

(** ** What the component promises *)

(** C8. The selection on every input of binary64 credits: it fails exactly on a wrong length, a bad
    [top_k] or a credit that is negative or not finite; it answers [None] exactly when no credit
    is positive; otherwise its mask selects the (at most) [top_k] largest positive credits,
    ties resolved by the smaller schema index, and it selects at least one; it never panics. *)
Theorem select_mask_correct credits dim k :
  Forall fvalid credits →
  let r := select_positive_credit_top_k_mask credits dim k in
  ((∃ e, r = Err e) ↔ ¬ (length credits = dim ∧ 1 ≤ k ≤ dim ∧ Forall good_credit credits)) ∧
  (r = Ok None ↔ length credits = dim ∧ 1 ≤ k ≤ dim ∧ Forall good_credit credits ∧
                 Forall (λ c, flt f0 c = false) credits) ∧
  (∀ mask, r = Ok (Some mask) → top_k_mask credits k mask ∧ count_true mask ≠ 0) ∧
  r ≠ Panic.
Proof. apply select_mask_ok. Qed.

Lemma select_mask_correct_witness :
  ∃ mask, select_positive_credit_top_k_mask [f1; f0; f2; f1] 4 2 = Ok (Some mask) ∧
    top_k_mask [f1; f0; f2; f1] 2 mask ∧ mask = [true; false; true; false].
Proof.
  exists [true; false; true; false]. split; [vm_compute; reflexivity|]. split; [|done].
  apply (select_mask_correct [f1; f0; f2; f1] 4 2); [|vm_compute; reflexivity].
  repeat constructor.
Defined.

(** The vector the optimizer starts from in auto-credit mode: the credits projected on a
    selected mask and normalised.  It exists whenever a mask was selected, has one entry per
    selected feature, at most [top_k] of them, all in [0, 1], and is the credits divided by their
    positive sum: the equal-weights fallback is never taken. *)
Theorem auto_credit_init credits k mask :
  Forall fvalid credits → (Z.of_nat (length credits) < 2 ^ 53)%Z →
  select_positive_credit_top_k_mask credits (length credits) k = Ok (Some mask) →
  ∃ active v total, project_vector_by_mask credits mask = Ok active ∧
    normalize_credit_or_equal_simplex active = Ok (v, true, total) ∧
    active = omap (λ i, credits !! i) (set_indices mask) ∧
    length v = count_true mask ∧ length v ≤ k ∧ Forall in_unit v ∧
    v = (λ c, fdiv c total) <$> active.
Proof.
  intros HV Hl Hs. pose proof (select_mask_ok credits (length credits) k HV) as (He & _ & Hm & _).
  destruct (Hm mask Hs) as [Ht Hne].
  assert (Forall good_credit credits) as HG.
  { destruct (decide (length credits = length credits ∧ 1 ≤ k ≤ length credits ∧
      Forall good_credit credits)) as [(_ & _ & ?)|Hn]; [done|].
    apply He in Hn as [e Hn]. congruence. }
  destruct Ht as [Hlm Hpos Hcnt _].
  destruct (proj1 (project_vector_by_mask_spec credits mask)) as (active & Hp & Hla & Ea); [done|].
  assert (∀ c, c ∈ active → c ∈ credits) as Hsub.
  { intros c. rewrite Ea. intros (i & _ & Hc)%list_elem_of_omap. by eapply list_elem_of_lookup_2. }
  assert (Forall fvalid active ∧ Forall good_credit active) as [HVa HGa].
  { rewrite !Forall_forall in *. split; intros c Hc; auto. }
  assert (length active ≤ length credits) as Hle.
  { rewrite Hla. pose proof (length_filter (.= true) mask). unfold count_true. lia. }
  destruct (normalize_credit_spec active HVa) as [HN HS]; [lia|].
  destruct (proj1 HN HGa) as [[[v b] total] Hn]. destruct (HS v b total Hn) as (Hlv & HU & _ & Hb & _).
  assert (b = true) as ->.
  { apply (normalize_signal _ _ _ _ HVa Hn). apply count_true_pos in Hne as [i Hi].
    destruct (Hpos i Hi) as (c & Hc & Hc0). exists c. split; [|done]. rewrite Ea.
    apply list_elem_of_omap. exists i. split; [by apply set_indices_spec|done]. }
  exists active, v, total. destruct (Hb eq_refl) as [_ Hv].
  split_and!; [done|done|done|congruence|lia|done|done].
Qed.

Lemma auto_credit_init_witness :
  ∃ active v total,
    project_vector_by_mask [f1; f0; f2; f1] [true; false; true; false] = Ok active ∧
    normalize_credit_or_equal_simplex active = Ok (v, true, total) ∧ length v = 2.
Proof.
  destruct (auto_credit_init [f1; f0; f2; f1] 2 [true; false; true; false])
    as (active & v & total & ? & ? & _ & Hl & _); [repeat constructor|done|vm_compute; reflexivity|].
  exists active, v, total. by rewrite Hl.
Defined.
