(* ===== verification/Str.v ===== *)
(** * Str: the operations of Rust's [str] that the program uses, on ASCII text

    A string is a list of characters inside the functions and a [string] in the
    data.  Text outside ASCII is not modelled: the command line and the names of
    the schema are ASCII. *)

From Stdlib Require Import ZArith Lia Ascii.
From S2P Require Import Prelude.

Abbreviation chars := (list ascii) (only parsing).

Definition to_chars : string → chars := String.list_ascii_of_string.
Definition of_chars : chars → string := String.string_of_list_ascii.

Lemma to_of_chars l : to_chars (of_chars l) = l.
Proof. apply String.list_ascii_of_string_of_list_ascii. Qed.
Lemma of_to_chars s : of_chars (to_chars s) = s.
Proof. apply String.string_of_list_ascii_of_string. Qed.

(** [char::is_whitespace] on ASCII: tab to carriage return, and space. *)
Definition is_whitespace (c : ascii) : bool :=
  let n := nat_of_ascii c in ((9 <=? n) && (n <=? 13)) || (n =? 32).

Fixpoint trim_start (l : chars) : chars :=
  match l with
  | [] => []
  | c :: l' => if is_whitespace c then trim_start l' else l
  end.
Definition trim_end (l : chars) : chars := reverse (trim_start (reverse l)).
Definition trim (l : chars) : chars := trim_end (trim_start l).

(** [str::split] on a character. *)
Fixpoint split (sep : ascii) (l : chars) : list chars :=
  match l with
  | [] => [[]]
  | c :: l =>
    if Ascii.eqb c sep then [] :: split sep l
    else match split sep l with
         | w :: ws => (c :: w) :: ws
         | [] => [[c]]
         end
  end.

Definition contains (c : ascii) (l : chars) : bool := existsb (Ascii.eqb c) l.

Fixpoint starts_with (pat l : chars) : bool :=
  match pat, l with
  | [], _ => true
  | p :: pat, c :: l => Ascii.eqb p c && starts_with pat l
  | _ :: _, [] => false
  end.

(** [str::find] of a string: the first index where it occurs. *)
Fixpoint find_str (pat l : chars) : option nat :=
  if starts_with pat l then Some 0
  else match l with
       | [] => None
       | _ :: l => S <$> find_str pat l
       end.

(** [str::split_once] on a character. *)
Fixpoint split_once (sep : ascii) (l : chars) : option (chars * chars) :=
  match l with
  | [] => None
  | c :: l =>
    if Ascii.eqb c sep then Some ([], l)
    else (λ p, (c :: p.1, p.2)) <$> split_once sep l
  end.

Definition digit (c : ascii) : option Z :=
  let n := nat_of_ascii c in
  if (48 <=? n) && (n <=? 57) then Some (Z.of_nat n - 48)%Z else None.

Fixpoint parse_digits (max acc : Z) (l : chars) : option Z :=
  match l with
  | [] => Some acc
  | c :: l =>
    match digit c with
    | Some d => let acc := (acc * 10 + d)%Z in
                if (acc <=? max)%Z then parse_digits max acc l else None
    | None => None
    end
  end.

(** [str::parse] of an unsigned integer with the given maximum: an optional [+],
    then at least one digit, without overflow. *)
Definition parse_uint (max : Z) (l : chars) : option Z :=
  match l with
  | [] => None
  | c :: l' =>
    if Ascii.eqb c "+" then match l' with [] => None | _ => parse_digits max 0 l' end
    else parse_digits max 0 l
  end.

Definition last_char (l : chars) : option ascii := last l.

(** [slice::join] of the parts of a [split]. *)
Fixpoint join (sep : ascii) (ws : list chars) : chars :=
  match ws with
  | [] => []
  | [w] => w
  | w :: ws => w ++ sep :: join sep ws
  end.

(** ** Facts *)

Lemma split_cons_ne sep l : split sep l ≠ [].
Proof. destruct l as [|c l]; simpl; [done|]. destruct (Ascii.eqb c sep), (split sep l); done. Qed.

(** Splitting and joining are inverse on words without the separator. *)
Lemma split_word sep w : contains sep w = false → split sep w = [w].
Proof.
  induction w as [|c w IH]; simpl; [done|]. unfold contains. simpl.
  intros [H1 H2]%orb_false_iff. rewrite Ascii.eqb_sym, H1. by rewrite IH.
Qed.

Lemma split_app sep w l : contains sep w = false → split sep (w ++ sep :: l) = w :: split sep l.
Proof.
  induction w as [|c w IH]; simpl.
  { by rewrite Ascii.eqb_refl. }
  unfold contains. simpl. intros [H1 H2]%orb_false_iff. rewrite Ascii.eqb_sym, H1.
  by rewrite IH.
Qed.

Lemma split_join sep ws : ws ≠ [] → Forall (λ w, contains sep w = false) ws →
  split sep (join sep ws) = ws.
Proof.
  induction ws as [|w ws IH]; [done|]. intros _ [Hw Hws]%Forall_cons.
  destruct ws as [|w' ws]; [by apply split_word|].
  change (join sep (w :: w' :: ws)) with (w ++ sep :: join sep (w' :: ws)).
  rewrite split_app by done. f_equal. by apply IH.
Qed.

Lemma trim_start_nows l : (∀ c, head l = Some c → is_whitespace c = false) → trim_start l = l.
Proof. destruct l as [|c l]; simpl; [done|]. intros H. by rewrite H. Qed.

(** Text without white space at its ends is unchanged by [trim]. *)
Lemma trim_id l : Forall (λ c, is_whitespace c = false) l → trim l = l.
Proof.
  intros HF. unfold trim, trim_end. rewrite (trim_start_nows l).
  - rewrite trim_start_nows; [apply reverse_involutive|].
    intros c Hc%head_Some_elem_of. rewrite elem_of_reverse in Hc. rewrite Forall_forall in HF. by apply HF.
  - intros c Hc%head_Some_elem_of. rewrite Forall_forall in HF. by apply HF.
Qed.
