(* ===== verification/NumParse.v ===== *)
(** * NumParse: [str::parse::<f64>]

    Rust's decimal floating-point grammar, an optional sign, then [inf], [infinity], [nan]
    in any case or digits with an optional fraction and exponent, and its correctly
    rounded value.  The quotient by a power of ten is rounded once: the division of
    [SpecFloat] takes any two mantissas. *)

From Stdlib Require Import ZArith Lia Ascii.
From S2P Require Import Prelude Float64 FloatFacts Str.

(** The leading digits: their value continued from [acc], their number, and the rest. *)
Fixpoint take_digits (acc : Z) (n : nat) (l : chars) : Z * nat * chars :=
  match l with
  | [] => (acc, n, [])
  | c :: l' =>
    match digit c with
    | Some d => take_digits (acc * 10 + d)%Z (S n) l'
    | None => (acc, n, l)
    end
  end.

(** A sign and what follows it. *)
Definition take_sign (l : chars) : bool * chars :=
  match l with
  | c :: l' => if Ascii.eqb c "-" then (true, l') else if Ascii.eqb c "+" then (false, l') else (false, l)
  | [] => (false, [])
  end.

Definition parse_exponent (l : chars) : option Z :=
  let '(neg, l) := take_sign l in
  match take_digits 0 0 l with
  | (e, S _, []) => Some (if neg then - e else e)%Z
  | _ => None
  end.

(** The mantissa and the decimal exponent of a number. *)
Definition parse_number (l : chars) : option (Z * Z) :=
  let '(m, n1, l) := take_digits 0 0 l in
  let '(m, n2, l) := match l with
                     | c :: l' => if Ascii.eqb c "." then take_digits m 0 l' else (m, 0, l)
                     | [] => (m, 0, l)
                     end in
  if n1 + n2 =? 0 then None
  else match l with
       | [] => Some (m, - Z.of_nat n2)%Z
       | c :: l =>
         if Ascii.eqb c "e" || Ascii.eqb c "E" then
           (λ e, (m, (e - Z.of_nat n2)%Z)) <$> parse_exponent l
         else None
       end.

(** The binary64 value nearest to [± m * 10^e].  Beyond [10^400], or below
    [10^-400], it is infinite, or zero. *)
Definition dec2flt (neg : bool) (m e : Z) : f64 :=
  match m with
  | Zpos p =>
    if (400 <? e)%Z then S754_infinity neg
    else if (e + Z.log2 m + 1 <? -400)%Z then S754_zero neg
    else if (0 <=? e)%Z then
      (if neg then fneg else id) (of_Z (m * 10 ^ e))
    else fdiv (S754_finite neg p 0) (S754_finite false (Z.to_pos (10 ^ (- e))) 0)
  | _ => S754_zero neg
  end.

Definition to_lower (c : ascii) : ascii :=
  let n := nat_of_ascii c in
  if (65 <=? n) && (n <=? 90) then ascii_of_nat (n + 32) else c.

Definition parse_special (neg : bool) (l : chars) : option f64 :=
  let w := of_chars (to_lower <$> l) in
  if String.eqb w "inf" || String.eqb w "infinity" then Some (S754_infinity neg)
  else if String.eqb w "nan" then Some S754_nan
  else None.

Definition parse_f64 (l : chars) : option f64 :=
  let '(neg, l) := take_sign l in
  match parse_number l with
  | Some (m, e) => Some (dec2flt neg m e)
  | None => parse_special neg l
  end.

(** ** Facts *)

Lemma dec2flt_valid neg m e : fvalid (dec2flt neg m e).
Proof.
  unfold dec2flt. destruct m as [|p|p]; [done| |done].
  repeat case_match; try done; [| |apply div_exact_valid].
  - pose proof (of_Z_valid (Zpos p * 10 ^ e)) as H'. by destruct (of_Z _).
  - apply of_Z_valid.
Qed.

Lemma parse_f64_valid l x : parse_f64 l = Some x → fvalid x.
Proof.
  unfold parse_f64. destruct (take_sign l) as [neg l'].
  destruct (parse_number l') as [[m e]|].
  - intros [= <-]. apply dec2flt_valid.
  - unfold parse_special. repeat case_match; by intros [= <-].
Qed.

Lemma take_digits_all l acc n : Forall (λ c, is_Some (digit c)) l →
  ∃ v, take_digits acc n l = (v, n + length l, []).
Proof.
  intros HF. revert acc n. induction HF as [|c l [d Hd] _ IH]; intros acc n; cbn [take_digits length].
  - exists acc. by rewrite Nat.add_0_r.
  - rewrite Hd. destruct (IH (acc * 10 + d)%Z (S n)) as [v ->]. exists v. do 2 f_equal. lia.
Qed.

(** ** The literals of the source *)

Example parse_0_85 : parse_f64 (to_chars "0.85") = Some f_0_85. Proof. vm_compute. reflexivity. Qed.
Example parse_0_6 : parse_f64 (to_chars "0.6") = Some f_0_6. Proof. vm_compute. reflexivity. Qed.
Example parse_0_5 : parse_f64 (to_chars "0.5") = Some f_half. Proof. vm_compute. reflexivity. Qed.
Example parse_2_0 : parse_f64 (to_chars "2.0") = Some f2. Proof. vm_compute. reflexivity. Qed.
Example parse_0_15 : parse_f64 (to_chars "0.15") = Some f_0_15. Proof. vm_compute. reflexivity. Qed.
Example parse_0_05 : parse_f64 (to_chars "5e-2") = Some f_0_05. Proof. vm_compute. reflexivity. Qed.
Example parse_1e_6 : parse_f64 (to_chars "1e-6") = Some f_1e_6. Proof. vm_compute. reflexivity. Qed.
Example parse_1e_9 : parse_f64 (to_chars "1E-9") = Some f_1e_9. Proof. vm_compute. reflexivity. Qed.
Example parse_1e_12 : parse_f64 (to_chars "+1e-12") = Some f_1e_12. Proof. vm_compute. reflexivity. Qed.
Example parse_1e_3 : parse_f64 (to_chars ".001") = Some f_1e_3. Proof. vm_compute. reflexivity. Qed.
Example parse_huge : parse_f64 (to_chars "1e999") = Some f_inf. Proof. vm_compute. reflexivity. Qed.
Example parse_tiny : parse_f64 (to_chars "-1e-999") = Some fneg0. Proof. vm_compute. reflexivity. Qed.
Example parse_nan : parse_f64 (to_chars "NaN") = Some f_nan. Proof. vm_compute. reflexivity. Qed.
Example parse_bad : parse_f64 (to_chars "1e") = None. Proof. vm_compute. reflexivity. Qed.
Example parse_dot : parse_f64 (to_chars ".") = None. Proof. vm_compute. reflexivity. Qed.
