(* ===== verification/Format.v ===== *)
(** * Format: Rust's [format!] on the values the program prints

    Decimal integers, [{:.d}] of an [f64] (the exact value, rounded half to even), and the holes of
    a format string.  Printed numbers are read back by [str::parse] ([parse_uint_show],
    [parse_f64_show]), and hold neither white space nor the separators of the messages ([word]). *)

From Stdlib Require Import ZArith Lia Ascii SpecFloat.
From S2P Require Import Prelude Float64 FloatFacts Str NumParse.

(** ** Integers *)

Definition digit_char (d : Z) : ascii := ascii_of_nat (48 + Z.to_nat d).

Fixpoint show_digits (fuel : nat) (z : Z) (acc : chars) : chars :=
  match fuel with
  | O => acc
  | S fuel =>
    let acc := digit_char (z mod 10) :: acc in
    if (z <? 10)%Z then acc else show_digits fuel (z / 10) acc
  end.

(** A number has at most as many decimal digits as binary ones. *)
Definition show_nat (z : Z) : chars := show_digits (S (Z.to_nat (Z.log2 z))) z [].
Definition show_Z (z : Z) : chars := if (z <? 0)%Z then "-"%char :: show_nat (- z) else show_nat z.

(** ** Floating-point numbers *)

(** The quotient, rounded half to even. *)
Definition div_half_even (a b : Z) : Z :=
  let q := (a / b)%Z in
  let r := (a mod b)%Z in
  if (2 * r <? b)%Z then q
  else if (b <? 2 * r)%Z then (q + 1)%Z
  else if Z.even q then q else (q + 1)%Z.

(** [m * 2^e] in units of [10^-d]. *)
Definition decimal (d : nat) (m : positive) (e : Z) : Z :=
  if (0 <=? e)%Z then (Zpos m * 2 ^ e * 10 ^ Z.of_nat d)%Z
  else div_half_even (Zpos m * 10 ^ Z.of_nat d) (2 ^ (- e)).

Definition pad (n : nat) (l : chars) : chars := replicate (n - length l) "0"%char ++ l.

Definition show_fixed (d : nat) (z : Z) : chars :=
  show_nat (z / 10 ^ Z.of_nat d) ++
  (if d =? 0 then [] else "."%char :: pad d (show_nat (z mod 10 ^ Z.of_nat d))).

Definition show_sign (neg : bool) : chars := if neg then ["-"%char] else [].

Definition show_f64 (d : nat) (x : f64) : chars :=
  match x with
  | S754_nan => to_chars "NaN"
  | S754_infinity neg => show_sign neg ++ to_chars "inf"
  | S754_zero neg => show_sign neg ++ show_fixed d 0
  | S754_finite neg m e => show_sign neg ++ show_fixed d (decimal d m e)
  end.

(** [{}] prints the shortest decimal that is read back as the number: the largest exponent at which
    the nearest integer, or the next one, gives the number. *)
Fixpoint shortest (fuel : nat) (neg : bool) (m : positive) (e : Z) (ex : Z) : Z * Z :=
  match fuel with
  | O => (0, 0)%Z
  | S fuel =>
    let p := (Zpos m * 2 ^ Z.max 0 e * 10 ^ Z.max 0 (- ex))%Z in
    let q := (2 ^ Z.max 0 (- e) * 10 ^ Z.max 0 ex)%Z in
    let n := div_half_even p q in
    if feq (dec2flt neg n ex) (S754_finite neg m e) then (n, ex)
    else if feq (dec2flt neg (n + 1) ex) (S754_finite neg m e) then (n + 1, ex)%Z
    else shortest fuel neg m e (ex - 1)
  end.

Definition show_display (x : f64) : chars :=
  match x with
  | S754_nan => to_chars "NaN"
  | S754_infinity neg => show_sign neg ++ to_chars "inf"
  | S754_zero neg => show_sign neg ++ to_chars "0"
  | S754_finite neg m e =>
    let '(n, ex) := shortest 700 neg m e 309 in
    show_sign neg ++ if (0 <=? ex)%Z then show_nat (n * 10 ^ ex) else show_fixed (Z.to_nat (- ex)) n
  end.

(** ** Messages *)

(** [slice::join] with a separator of any length. *)
Fixpoint join_with (sep : chars) (ws : list chars) : chars :=
  match ws with
  | [] => []
  | [w] => w
  | w :: ws => w ++ sep ++ join_with sep ws
  end.

(** The text of a template: a hole, from brace to brace, is replaced by the next value. *)
Fixpoint fill (inside : bool) (t : chars) (args : list chars) : chars :=
  match t with
  | [] => []
  | c :: t =>
    if inside then fill (negb (Ascii.eqb c "}")) t args
    else if Ascii.eqb c "{" then
      match args with
      | [] => fill true t []
      | a :: args => a ++ fill true t args
      end
    else c :: fill false t args
  end.

Fixpoint render_arg (a : Arg) : chars :=
  match a with
  | ANat n => show_Z (Z.of_nat n)
  | AInt z => show_Z z
  | ABool b => to_chars (if b then "true" else "false")
  | AStr s => to_chars s
  | AFloat d x => show_f64 d x
  | ADisplay x => show_display x
  | AMsg m => render m
  | AJoin sep parts => join_with (to_chars sep) (map render_arg parts)
  end
with render (m : Msg) : chars :=
  match m with
  | fmt t args => fill false (to_chars t) (map render_arg args)
  end.

(** ** Facts *)

(** The value of digits read from the left. *)
Definition step10 (acc : Z) (c : ascii) : Z := (acc * 10 + default 0 (digit c))%Z.
Abbreviation is_digit := (λ c, is_Some (digit c)).

Lemma digit_digit_char d : (0 ≤ d < 10)%Z → digit (digit_char d) = Some d.
Proof.
  intros Hd.
  assert (d = 0 ∨ d = 1 ∨ d = 2 ∨ d = 3 ∨ d = 4 ∨ d = 5 ∨ d = 6 ∨ d = 7 ∨ d = 8 ∨ d = 9)%Z as Hor by lia.
  by repeat destruct Hor as [->|Hor]; [..|subst].
Qed.

Lemma show_digits_spec fuel z acc : (0 ≤ z < 2 ^ Z.of_nat fuel)%Z → Forall is_digit acc →
  Forall is_digit (show_digits fuel z acc) ∧ foldl step10 0%Z (show_digits fuel z acc) = foldl step10 z acc.
Proof.
  revert z acc. induction fuel as [|fuel IH]; intros z acc Hz Hacc.
  { split; [done|]. replace z with 0%Z; [done|]. change (2 ^ Z.of_nat 0)%Z with 1%Z in Hz. lia. }
  cbn [show_digits]. pose proof (Z.mod_pos_bound z 10) as Hm. pose proof (Z.div_mod z 10) as Hdm.
  assert (digit (digit_char (z mod 10)) = Some (z mod 10)%Z) as Hd by (apply digit_digit_char; lia).
  assert (Forall is_digit (digit_char (z mod 10) :: acc)) as Hacc' by (constructor; [by rewrite Hd|done]).
  destruct (Z.ltb_spec z 10).
  - split; [done|]. cbn [foldl]. f_equal. unfold step10. rewrite Hd. cbn. rewrite Z.mod_small; lia.
  - destruct (IH (z / 10)%Z (digit_char (z mod 10) :: acc)) as [H1 H2]; [|exact Hacc'|].
    + rewrite Nat2Z.inj_succ, Z.pow_succ_r in Hz by lia. split; [apply Z.div_pos; lia|].
      apply Z.div_lt_upper_bound; lia.
    + split; [exact H1|]. rewrite H2. cbn [foldl]. f_equal. unfold step10. rewrite Hd. cbn. lia.
Qed.

Lemma show_digits_length fuel z acc d : (0 ≤ z < 10 ^ Z.of_nat (S d))%Z →
  length (show_digits fuel z acc) ≤ S d + length acc.
Proof.
  revert z acc d. induction fuel as [|fuel IH]; intros z acc d Hz; cbn [show_digits]; [lia|].
  destruct (Z.ltb_spec z 10); [cbn; lia|]. destruct d as [|d].
  { change (10 ^ Z.of_nat 1)%Z with 10%Z in Hz. lia. }
  etrans; [apply (IH _ _ d)|cbn; lia]. rewrite Nat2Z.inj_succ, Z.pow_succ_r in Hz by lia.
  split; [apply Z.div_pos; lia|]. apply Z.div_lt_upper_bound; lia.
Qed.

Lemma show_digits_ne fuel z acc : show_digits (S fuel) z acc ≠ [].
Proof.
  revert z acc. induction fuel as [|fuel IH]; intros z acc; cbn [show_digits]; [by destruct (z <? 10)%Z|].
  destruct (z <? 10)%Z; [done|]. apply IH.
Qed.

Lemma show_nat_spec z : (0 ≤ z)%Z →
  Forall is_digit (show_nat z) ∧ foldl step10 0%Z (show_nat z) = z ∧ show_nat z ≠ [].
Proof.
  intros Hz. destruct (show_digits_spec (S (Z.to_nat (Z.log2 z))) z []) as [H1 H2]; [|done|].
  - split; [done|]. destruct (decide (z = 0)%Z) as [->|]; [done|].
    rewrite Nat2Z.inj_succ, Z2Nat.id by apply Z.log2_nonneg. apply Z.log2_spec. lia.
  - split; [exact H1|]. split; [exact H2|]. apply show_digits_ne.
Qed.

Lemma step10_app a l : foldl step10 a l = (a * 10 ^ Z.of_nat (length l) + foldl step10 0 l)%Z.
Proof.
  revert a. induction l as [|c l IH]; intros a; cbn [foldl length]; [lia|].
  rewrite IH, (IH (step10 0 c)). unfold step10. rewrite Nat2Z.inj_succ, Z.pow_succ_r by lia. lia.
Qed.

Lemma step10_ge a l : (0 ≤ a)%Z → (a ≤ foldl step10 a l)%Z.
Proof.
  revert a. induction l as [|c l IH]; intros a Ha; cbn [foldl]; [lia|].
  assert (0 ≤ default 0 (digit c))%Z as Hd.
  { unfold digit. case_match eqn:E; cbn; [|lia]. apply andb_true_iff in E as [E%Nat.leb_le _]. lia. }
  etrans; [|apply IH]; unfold step10; lia.
Qed.

Lemma take_digits_app l rest acc n : Forall is_digit l →
  take_digits acc n (l ++ rest) = take_digits (foldl step10 acc l) (n + length l) rest.
Proof.
  intros HF. revert acc n. induction HF as [|c l [d Hd] _ IH]; intros acc n; cbn [app take_digits foldl length].
  - by rewrite Nat.add_0_r.
  - rewrite Hd, IH. replace (step10 acc c) with (acc * 10 + d)%Z by (unfold step10; by rewrite Hd). f_equal. lia.
Qed.

Lemma parse_digits_step max acc l : Forall is_digit l → (0 ≤ acc)%Z → (foldl step10 acc l ≤ max)%Z →
  parse_digits max acc l = Some (foldl step10 acc l).
Proof.
  intros HF. revert acc. induction HF as [|c l [d Hd] _ IH]; intros acc Ha Hm; cbn [parse_digits foldl]; [done|].
  assert (step10 acc c = acc * 10 + d)%Z as Es by (unfold step10; by rewrite Hd).
  assert (0 ≤ step10 acc c)%Z as Hs.
  { pose proof (step10_ge acc [c] Ha) as Hge. cbn [foldl] in Hge. lia. }
  rewrite Hd, <-Es. cbn [foldl] in Hm. pose proof (step10_ge (step10 acc c) l Hs).
  assert ((step10 acc c <=? max) = true)%Z as -> by (apply Z.leb_le; lia). by apply IH.
Qed.

(** A printed integer is read back, as long as it fits. *)
Lemma parse_uint_show max z : (0 ≤ z ≤ max)%Z → parse_uint max (show_Z z) = Some z.
Proof.
  intros Hz. unfold show_Z. assert ((z <? 0) = false)%Z as -> by (apply Z.ltb_ge; lia).
  destruct (show_nat_spec z) as (HF & Hv & Hne); [lia|].
  unfold parse_uint. destruct (show_nat z) as [|c l] eqn:E; [done|].
  assert (Ascii.eqb c "+" = false) as ->.
  { apply Forall_cons in HF as [HF' _]. apply Ascii.eqb_neq. intros ->. by destruct HF'. }
  rewrite parse_digits_step; [by rewrite Hv|done|lia|lia].
Qed.

Lemma pad_spec d z : (0 ≤ z < 10 ^ Z.of_nat (S d))%Z →
  Forall is_digit (pad (S d) (show_nat z)) ∧ length (pad (S d) (show_nat z)) = S d ∧
  foldl step10 0%Z (pad (S d) (show_nat z)) = z.
Proof.
  intros Hz. destruct (show_nat_spec z) as (HF & Hv & _); [lia|].
  pose proof (show_digits_length (S (Z.to_nat (Z.log2 z))) z [] d Hz) as Hl. cbn [length] in Hl.
  change (show_digits _ z []) with (show_nat z) in Hl. unfold pad. split_and!.
  - apply Forall_app. split; [|done]. by apply Forall_replicate.
  - rewrite length_app, length_replicate. lia.
  - rewrite foldl_app. replace (foldl step10 0%Z (replicate _ _)) with 0%Z; [done|].
    induction (S d - length (show_nat z)); [done|]. by cbn.
Qed.

Lemma parse_number_fixed d z : (0 ≤ z)%Z → parse_number (show_fixed d z) = Some (z, (- Z.of_nat d)%Z).
Proof.
  intros Hz. unfold parse_number, show_fixed.
  assert (0 < 10 ^ Z.of_nat d)%Z as Hp by (apply Z.pow_pos_nonneg; lia).
  assert (0 ≤ z / 10 ^ Z.of_nat d)%Z as Hq by (apply Z.div_pos; lia).
  destruct (show_nat_spec _ Hq) as (HF & Hv & Hne).
  assert (length (show_nat (z / 10 ^ Z.of_nat d)) ≠ 0) as Hlen by (by destruct (show_nat _)).
  rewrite take_digits_app by done. rewrite Hv. destruct d as [|d]; cbn [Nat.eqb].
  - cbn [take_digits]. assert ((0 + length (show_nat (z / 10 ^ Z.of_nat 0)) + 0 =? 0) = false) as -> by (apply Nat.eqb_neq; lia).
    do 2 f_equal. change (10 ^ Z.of_nat 0)%Z with 1%Z. by rewrite Z.div_1_r.
  - set (k := length _) in *. change (take_digits ?a ?n ("."%char :: ?l)) with (a, n, "."%char :: l). cbv beta iota.
    change (Ascii.eqb "." ".") with true. cbv beta iota.
    destruct (pad_spec d (z mod 10 ^ Z.of_nat (S d))) as (HF' & Hl' & Hv'); [by apply Z.mod_pos_bound|].
    rewrite <-(app_nil_r (pad _ _)), take_digits_app by done. cbn [take_digits]. rewrite Hl'.
    assert ((0 + k + (0 + S d) =? 0) = false) as -> by (apply Nat.eqb_neq; lia).
    do 2 f_equal. rewrite step10_app, Hl', Hv'. pose proof (Z.div_mod z (10 ^ Z.of_nat (S d))). lia.
Qed.

Lemma div_half_even_nonneg a b : (0 ≤ a)%Z → (0 < b)%Z → (0 ≤ div_half_even a b)%Z.
Proof. intros Ha Hb. unfold div_half_even. pose proof (Z.div_pos a b Ha Hb). repeat case_match; lia. Qed.

Lemma decimal_nonneg d m e : (0 ≤ decimal d m e)%Z.
Proof.
  unfold decimal. assert (0 < 10 ^ Z.of_nat d)%Z by (apply Z.pow_pos_nonneg; lia). destruct (Z.leb_spec 0 e).
  - assert (0 < 2 ^ e)%Z by (apply Z.pow_pos_nonneg; lia). nia.
  - apply div_half_even_nonneg; [lia|]. apply Z.pow_pos_nonneg; lia.
Qed.

(** The number a reader of the printed number gets. *)
Definition reread (d : nat) (x : f64) : f64 :=
  match x with
  | S754_finite neg m e => dec2flt neg (decimal d m e) (- Z.of_nat d)
  | _ => x
  end.

Lemma take_sign_show neg d z : (0 ≤ z)%Z → take_sign (show_sign neg ++ show_fixed d z) = (neg, show_fixed d z).
Proof.
  intros Hz. destruct neg; [done|]. cbn [show_sign app]. unfold show_fixed.
  assert (0 ≤ z / 10 ^ Z.of_nat d)%Z as Hq by (apply Z.div_pos; [lia|]; apply Z.pow_pos_nonneg; lia).
  destruct (show_nat_spec _ Hq) as (HF & _ & Hne). destruct (show_nat (z / 10 ^ Z.of_nat d)) as [|c l]; [done|].
  apply Forall_cons in HF as [HF _]. cbn [app take_sign].
  assert (Ascii.eqb c "-" = false) as -> by (apply Ascii.eqb_neq; intros ->; by destruct HF).
  by assert (Ascii.eqb c "+" = false) as -> by (apply Ascii.eqb_neq; intros ->; by destruct HF).
Qed.

(** A printed number is read back as the number nearest to the printed decimal. *)
Lemma parse_f64_show d x : parse_f64 (show_f64 d x) = Some (reread d x).
Proof.
  unfold parse_f64. destruct x as [neg|neg| |neg m e]; cbn [show_f64 reread].
  - by rewrite take_sign_show, parse_number_fixed by lia.
  - by destruct neg.
  - done.
  - pose proof (decimal_nonneg d m e). by rewrite take_sign_show, parse_number_fixed by lia.
Qed.

(** ** Words

    Text without white space and without the separators of the messages. *)
Definition plain (c : ascii) : bool :=
  negb (is_whitespace c || Ascii.eqb c "," || Ascii.eqb c "=" || Ascii.eqb c "%").
Definition word (l : chars) : Prop := Forall (λ c, plain c = true) l.

Lemma digit_plain c : is_digit c → plain c = true.
Proof.
  intros [d Hd]. destruct c as [[] [] [] [] [] [] [] []]; (done || discriminate Hd).
Qed.

Lemma word_digits l : Forall is_digit l → word l.
Proof. intros HF. eapply Forall_impl; [exact HF|]. apply digit_plain. Qed.

Lemma word_nat z : (0 ≤ z)%Z → word (show_nat z).
Proof. intros Hz. by apply word_digits, show_nat_spec. Qed.

Lemma word_Z z : word (show_Z z).
Proof. unfold show_Z. destruct (Z.ltb_spec z 0); [constructor; [done|]|]; apply word_nat; lia. Qed.

Lemma word_fixed d z : (0 ≤ z)%Z → word (show_fixed d z).
Proof.
  intros Hz. unfold show_fixed. assert (0 < 10 ^ Z.of_nat d)%Z by (apply Z.pow_pos_nonneg; lia).
  apply Forall_app. split; [apply word_nat, Z.div_pos; lia|]. destruct d as [|d]; [done|]. cbn [Nat.eqb].
  constructor; [done|]. apply word_digits, pad_spec. by apply Z.mod_pos_bound.
Qed.

Lemma word_f64 d x : word (show_f64 d x).
Proof.
  assert (∀ neg, word (show_sign neg)) as Hs by (intros []; repeat constructor).
  destruct x as [neg|neg| |neg m e]; cbn [show_f64].
  - apply Forall_app. split; [apply Hs|by apply word_fixed].
  - apply Forall_app. split; [apply Hs|repeat constructor].
  - repeat constructor.
  - apply Forall_app. split; [apply Hs|]. apply word_fixed, decimal_nonneg.
Qed.

Example show_tenth : show_f64 3 f_0_15 = to_chars "0.150". Proof. vm_compute. reflexivity. Qed.
Example show_neg : show_f64 2 (fneg f_0_85) = to_chars "-0.85". Proof. vm_compute. reflexivity. Qed.
Example show_tie : show_f64 0 (fmul f_half (of_Z 5)) = to_chars "2". Proof. vm_compute. reflexivity. Qed.
Example show_shortest : show_display f_0_15 = to_chars "0.15". Proof. vm_compute. reflexivity. Qed.
Example show_whole : show_display (of_Z 1200) = to_chars "1200". Proof. vm_compute. reflexivity. Qed.
Example show_id : show_Z 18446744073709551615 = to_chars "18446744073709551615". Proof. vm_compute. reflexivity. Qed.
