(* ===== verification/Files.v ===== *)
(** * Files: the file system the program writes to

    A file is its path and its bytes; a directory is a prefix of paths.  Every operation is a point in time, at which the
    disk may fail: then nothing is done, but that a write may have got through in part.  Paths are those of
    [std::path] whose last component is a plain name. *)

From Stdlib Require Import ZArith Lia Ascii.
From S2P Require Import Prelude Str.

Abbreviation bytes := (list Byte.byte) (only parsing).

(** Whether the operation at a point in time fails, and how much of a write that fails got through. *)
Class Faults := { disk_fault : nat → option string; disk_partial : nat → nat }.

(** [std::io::Error] by its kind. *)
Inductive IoError := AlreadyExists | NotFound | IoFault (what : string).
(** [Display] of an error, and [impl From<io::Error> for Error]. *)
Definition io_text (e : IoError) : string :=
  match e with
  | AlreadyExists => "file exists"
  | NotFound => "no such file or directory"
  | IoFault what => what
  end.
Definition io_error (e : IoError) : Error := OsError (fmt "io error {}" [AStr (io_text e)]).

Record Files := mkFiles { fs_map : gmap string bytes; fs_ticks : nat }.
#[global] Instance eta_Files : Eta Files := λ r, mkFiles (fs_map r) (fs_ticks r).

(** A step on a part of the state. *)
Definition zoom {E S T A} (get : S → T) (set : T → S → S) (m : ME E T A) : ME E S A := λ s,
  let '(r, t) := m (get s) in (r, set t s).

Section Io.
Context `{Faults}.
Abbreviation Io A := (ME IoError Files A).

Definition io_op {A} (partial : nat → gmap string bytes → gmap string bytes)
    (op : gmap string bytes → outcome IoError (A * gmap string bytes)) : Io A := λ s,
  let now := fs_ticks s in
  match disk_fault now with
  | Some what => (Err (IoFault what), mkFiles (partial (disk_partial now) (fs_map s)) (S now))
  | None =>
    match op (fs_map s) with
    | Ok (a, m) => (Ok a, mkFiles m (S now))
    | Err e => (Err e, mkFiles (fs_map s) (S now))
    | Panic => (Panic, mkFiles (fs_map s) (S now))
    end
  end.
Definition whole (_ : nat) (m : gmap string bytes) : gmap string bytes := m.

(** [OpenOptions::new().write(true).create_new(true).open(path)] *)
Definition create_new (path : string) : Io () := io_op whole (λ m,
  match m !! path with Some _ => Err AlreadyExists | None => Ok ((), <[path := []]> m) end).
(** [File::create] *)
Definition create (path : string) : Io () := io_op whole (λ m, Ok ((), <[path := []]> m)).
(** [write_all] to a file that was just created. *)
Definition write_all (path : string) (b : bytes) : Io () :=
  io_op (λ n, <[path := take n b]>) (λ m, Ok ((), <[path := b]> m)).
(** [fs::rename] *)
Definition rename (from to : string) : Io () := io_op whole (λ m,
  match m !! from with Some b => Ok ((), <[to := b]> (delete from m)) | None => Err NotFound end).
(** [fs::remove_file] *)
Definition remove_file (path : string) : Io () := io_op whole (λ m,
  match m !! path with Some _ => Ok ((), delete path m) | None => Err NotFound end).
(** [File::open] and [read_to_end] *)
Definition read_file (path : string) : Io bytes := io_op whole (λ m,
  match m !! path with Some b => Ok (b, m) | None => Err NotFound end).
(** [fs::create_dir_all]; a directory is there when a file in it is. *)
Definition create_dir_all (path : string) : Io () := io_op whole (λ m, Ok ((), m)).

(** [drop(step)]: the result does not matter. *)
Definition ignore {E F S A} (m : ME E S A) : ME F S () := λ s, (Ok (), (m s).2).
End Io.

Definition hex_char (d : Z) : ascii := ascii_of_nat (Z.to_nat (if (d <? 10)%Z then 48 + d else 87 + d)).
(** The last [n] hexadecimal digits of a number: [{:016x}] for a [u64] with 16. *)
Fixpoint hex_digits (n : nat) (x : Z) : chars :=
  match n with O => [] | S n => hex_digits n (x / 16) ++ [hex_char (x mod 16)] end.

(** ** Paths *)

Definition slash : ascii := "/"%char.
(** [Path::join] *)
Definition join (dir name : chars) : chars :=
  if bool_decide (head name = Some slash) then name
  else if bool_decide (last dir = None ∨ last dir = Some slash) then dir ++ name
  else dir ++ slash :: name.
(** The path up to its last component, and that component: [Path::file_name]. *)
Fixpoint split_path (p : chars) : chars * chars :=
  match p with
  | [] => ([], [])
  | c :: p =>
    let '(d, n) := split_path p in
    if Ascii.eqb c slash then (c :: d, n) else if (length d =? 0) then ([], c :: n) else (c :: d, n)
  end.
Definition file_name (p : chars) : chars := (split_path p).2.
(** [PathBuf::set_file_name] *)
Definition set_file_name (p name : chars) : chars := (split_path p).1 ++ name.

(** [libafl_bolts::fs::write_file_atomic] *)
Definition write_file_atomic `{Faults} (path : string) (b : bytes) : ME IoError Files () :=
  let tmpfile_name := of_chars (set_file_name (to_chars path) ("."%char :: file_name (to_chars path) ++ to_chars ".tmp")) in
  create_new tmpfile_name ;;;
  write_all tmpfile_name b ;;;
  rename tmpfile_name path.

(** ** Facts *)

Lemma split_path_plain n : slash ∉ n → split_path n = ([], n).
Proof.
  induction n as [|c n IH]; [done|]. intros Hn. apply not_elem_of_cons in Hn as [Hc Hn]. cbn. rewrite (IH Hn).
  destruct (Ascii.eqb_spec c slash); [by subst|]. done.
Qed.

Lemma split_path_join d n : slash ∉ n → split_path (d ++ slash :: n) = (d ++ [slash], n).
Proof.
  intros Hn. induction d as [|c d IH]; cbn [app split_path].
  - by rewrite split_path_plain.
  - rewrite IH. destruct (Ascii.eqb c slash); [done|]. by destruct d.
Qed.

(** A directory with its final slash. *)
Definition slashed (dir : chars) : chars := if bool_decide (last dir = Some slash) then dir else dir ++ [slash].

Lemma slashed_end dir : ∃ d, slashed dir = d ++ [slash].
Proof. unfold slashed. case_bool_decide as E; [|by eexists]. apply last_Some in E as [d ->]. by exists d. Qed.

Lemma join_slashed dir n : dir ≠ [] → slash ∉ n → join dir n = slashed dir ++ n.
Proof.
  intros Hd Hn. unfold join, slashed. rewrite bool_decide_false.
  2:{ intros Hh. destruct n as [|c n]; [done|]. injection Hh as ->. set_solver. }
  destruct (decide (last dir = Some slash)) as [E|E].
  - by rewrite !bool_decide_true by auto.
  - rewrite !bool_decide_false; [by rewrite <- app_assoc|done|]. by intros [?%last_None|?].
Qed.

Lemma file_name_join dir n : dir ≠ [] → slash ∉ n → file_name (join dir n) = n.
Proof.
  intros Hd Hn. rewrite join_slashed by done. destruct (slashed_end dir) as [d ->]. unfold file_name.
  rewrite <- app_assoc. cbn. by rewrite split_path_join.
Qed.
Lemma set_file_name_join dir n n' : dir ≠ [] → slash ∉ n → slash ∉ n' → set_file_name (join dir n) n' = join dir n'.
Proof.
  intros Hd Hn Hn'. rewrite !join_slashed by done. destruct (slashed_end dir) as [d ->]. unfold set_file_name.
  rewrite <- !app_assoc. cbn. rewrite split_path_join by done. cbn. by rewrite <- app_assoc.
Qed.
Lemma join_inj dir n n' : dir ≠ [] → slash ∉ n → slash ∉ n' → join dir n = join dir n' → n = n'.
Proof. intros Hd Hn Hn'. rewrite !join_slashed by done. apply app_inv_head. Qed.
Lemma join_slash dir n : dir ≠ [] → slash ∉ n → slash ∈ join dir n.
Proof. intros Hd Hn. rewrite join_slashed by done. destruct (slashed_end dir) as [d ->]. set_solver. Qed.

#[global] Instance of_chars_inj : Inj (=) (=) of_chars.
Proof. intros a b E. by rewrite <- (to_of_chars a), <- (to_of_chars b), E. Qed.
Lemma to_chars_app a b : to_chars (a +:+ b) = to_chars a ++ to_chars b.
Proof. induction a as [|c a IH]; [done|]. change (c :: to_chars (a +:+ b) = c :: (to_chars a ++ to_chars b)). by rewrite IH. Qed.

Section IoFacts.
Context `{Faults}.

(** An operation that meets no fault. *)
Lemma io_op_ok {A} partial op (a : A) s m : disk_fault (fs_ticks s) = None → op (fs_map s) = Ok (a, m) →
  io_op partial op s = (Ok a, mkFiles m (S (fs_ticks s))).
Proof. intros Hf Ho. unfold io_op. by rewrite Hf, Ho. Qed.

(** What an operation may do to the files. *)
Lemma io_op_cases {A} partial op s r s' : io_op (A := A) partial op s = (r, s') →
  match r with
  | Ok a => op (fs_map s) = Ok (a, fs_map s')
  | Err (IoFault _) => disk_fault (fs_ticks s) ≠ None ∧ fs_map s' = partial (disk_partial (fs_ticks s)) (fs_map s) ∨ fs_map s' = fs_map s
  | Err e => op (fs_map s) = Err e ∧ fs_map s' = fs_map s
  | Panic => op (fs_map s) = Panic
  end.
Proof.
  unfold io_op. destruct (disk_fault (fs_ticks s)) as [w|] eqn:Hf; [intros [= <- <-]; by left|].
  destruct (op (fs_map s)) as [[a m]|e|] eqn:Ho; intros [= <- <-]; [done| |done]. destruct e; [done..|by right].
Qed.

(** The files a step may change. *)
Definition only (p : string → Prop) (s s' : Files) : Prop := ∀ q, ¬ p q → fs_map s' !! q = fs_map s !! q.
#[global] Instance only_preorder p : PreOrder (only p).
Proof. split; [by intros s q|]. intros a b c H1 H2 q Hq. by rewrite H2, H1. Qed.

Lemma keeps_io_op {A} (p : string → Prop) partial op :
  (∀ n m q, ¬ p q → partial n m !! q = m !! q) → (∀ m a m' q, op m = Ok (a, m') → ¬ p q → m' !! q = m !! q) →
  keeps (only p) (io_op (A := A) partial op).
Proof.
  intros Hp Ho s q Hq. unfold io_op. destruct (disk_fault _); [by apply Hp|].
  destruct (op (fs_map s)) as [[a m]| |] eqn:E; [|done..]. by eapply Ho.
Qed.

Lemma keeps_create_new (p : string → Prop) path : p path → keeps (only p) (create_new path).
Proof.
  intros Hp. apply keeps_io_op; [done|]. intros m a m' q. destruct (m !! path); [done|]. intros [= <- <-] Hq.
  apply lookup_insert_ne. by intros ->.
Qed.
Lemma keeps_create (p : string → Prop) path : p path → keeps (only p) (create path).
Proof. intros Hp. apply keeps_io_op; [done|]. intros m a m' q [= <- <-] Hq. apply lookup_insert_ne. by intros ->. Qed.
Lemma keeps_write_all (p : string → Prop) path b : p path → keeps (only p) (write_all path b).
Proof.
  intros Hp. apply keeps_io_op; [intros n m q Hq|intros m a m' q [= <- <-] Hq]; apply lookup_insert_ne; by intros ->.
Qed.
Lemma keeps_rename (p : string → Prop) a b : p a → p b → keeps (only p) (rename a b).
Proof.
  intros Ha Hb. apply keeps_io_op; [done|]. intros m x m' q. destruct (m !! a); [|done]. intros [= <- <-] Hq.
  rewrite lookup_insert_ne, lookup_delete_ne by (by intros ->). done.
Qed.
Lemma keeps_remove_file (p : string → Prop) path : p path → keeps (only p) (remove_file path).
Proof.
  intros Hp. apply keeps_io_op; [done|]. intros m a m' q. destruct (m !! path); [|done]. intros [= <- <-] Hq.
  apply lookup_delete_ne. by intros ->.
Qed.
Lemma keeps_read_file (p : string → Prop) path : keeps (only p) (read_file path).
Proof. apply keeps_io_op; [done|]. intros m a m' q. destruct (m !! path); [|done]. by intros [= <- <-]. Qed.
Lemma keeps_ignore {F A} R `{!PreOrder R} (m : ME IoError Files A) : keeps R m → keeps R (ignore (F := F) m).
Proof. intros Hm s. apply Hm. Qed.
End IoFacts.
#[export] Hint Resolve keeps_create_new keeps_create keeps_write_all keeps_rename keeps_remove_file keeps_read_file keeps_ignore : keeps.
