(* ===== verification/FeaturesMap.v ===== *)
(** * FeaturesMap: [feature_sched/features_map.rs]

    Validation of the feature schema and of the feature map, the mask argument,
    the simplex normalisation, the candidate file, and the weighted combination
    of the feature matrix to one weight per site.

    [serde_json] is a parameter ([Json]): what it parses from a text.  The file
    system is the [files] of the state; an [open] fails on a missing file or when
    the environment says so, a [read_to_string] when the environment says so.  A
    path is the list of its components (the root is the component "/"). *)

From Stdlib Require Import ZArith Lia Ascii.
From S2P Require Import Prelude Float64 FloatFacts Rands Metadata State FrontierSets MaskSelection Str.

Definition EPS : f64 := f_1e_6.

Definition LEGACY_KEYS : list string :=
  ["imme"; "strc"; "mem"; "arith"; "indeg"; "offsp"; "btw"; "depth"]%string.

Inductive CandidateFilePolicy := AllowExternalFile | IgnoreExternalFile.

Abbreviation PathBuf := (list string) (only parsing).

Record CandidateFileStatus := mkCandidateStatus { cs_path : option PathBuf; cs_loaded : bool }.
Definition CandidateFileStatus_default : CandidateFileStatus := mkCandidateStatus None false.

Record FeatureMapLoadResult := mkLoadResult {
  lr_feats : list f64;
  lr_active_matrix : gmap string (list f64);
  lr_candidate_status : CandidateFileStatus;
}.

Class Json := mkJson {
  Value : Type;
  as_array : Value → option (list Value);
  as_f64 : Value → option f64;
  parse_schema : string → string + FeatureSchemaFile;
  parse_map : string → string + gmap string Value;
  parse_candidates : string → string + list (list f64);
}.

(** A number of a JSON text is a binary64 value. *)
Class JsonLaws (J : Json) := mkJsonLaws {
  as_f64_valid : ∀ v x, as_f64 v = Some x → fvalid x;
  parse_candidates_valid : ∀ s l, parse_candidates s = inr l → Forall (Forall fvalid) l;
}.

(** ** Paths *)

Definition path_display (p : PathBuf) : string :=
  of_chars (match p with
            | ("/"%string) :: rest => to_chars "/" ++ join "/" (to_chars <$> rest)
            | _ => join "/" (to_chars <$> p)
            end).

Definition parent (p : PathBuf) : option PathBuf :=
  match last p with
  | None => None
  | Some c => if String.eqb c "/" then None else Some (take (length p - 1) p)
  end.

Definition file_name (p : PathBuf) : option string :=
  match last p with
  | None => None
  | Some c => if String.eqb c "/" || String.eqb c ".." then None else Some c
  end.

(** The file name without its extension: cut at the last dot, unless the only dot
    is the first character. *)
Fixpoint rfind (c : ascii) (l : chars) : option nat :=
  match l with
  | [] => None
  | x :: l => match rfind c l with
              | Some i => Some (S i)
              | None => if Ascii.eqb x c then Some 0 else None
              end
  end.
Definition file_stem (p : PathBuf) : option string :=
  (λ f, let l := to_chars f in
        match rfind "." l with
        | Some (S i) => of_chars (take (S i) l)
        | _ => f
        end) <$> file_name p.

Definition derive_dir_and_target (p : PathBuf) : option (PathBuf * string) :=
  match parent p with
  | None => None
  | Some dir =>
    match file_name p with
    | None => None
    | Some file =>
      match find_str (to_chars "_features_map") (to_chars file) with
      | Some idx => Some (dir, of_chars (take idx (to_chars file)))
      | None => (λ stem, (dir, stem)) <$> file_stem p
      end
    end
  end.

(** ** The schema *)

Fixpoint check_unique (ids names : gset string) (l : list FeatureSpec) : outcome Msg () :=
  match l with
  | [] => Ok ()
  | f :: l =>
    if bool_decide (fs_id f ∈ ids) then
      Err (fmt "BOFuzz feature schema error: duplicate feature id '{}'" [AStr (fs_id f)])
    else if bool_decide (fs_name f ∈ names) then
      Err (fmt "BOFuzz feature schema error: duplicate feature name '{}'" [AStr (fs_name f)])
    else check_unique ({[fs_id f]} ∪ ids) ({[fs_name f]} ∪ names) l
  end.

Fixpoint check_aliases_of (canonical : gset string) (f : FeatureSpec) (aliases : list string) :
    outcome Msg () :=
  match aliases with
  | [] => Ok ()
  | alias :: aliases =>
    if bool_decide (alias ∈ canonical) && negb (String.eqb alias (fs_name f)) then
      Err (fmt "BOFuzz feature schema error: alias '{}' for {} collides with canonical name"
             [AStr alias; AStr (fs_id f)])
    else check_aliases_of canonical f aliases
  end.

Fixpoint check_aliases (canonical : gset string) (l : list FeatureSpec) : outcome Msg () :=
  match l with
  | [] => Ok ()
  | f :: l =>
    let? _ := match fs_aliases f with
              | Some aliases => check_aliases_of canonical f aliases
              | None => Ok ()
              end in
    check_aliases canonical l
  end.

Definition validate_schema (schema : FeatureSchemaFile) : outcome Msg FeatureSchemaFile :=
  if negb (sc_schema_version schema =? 4)%Z then
    Err (fmt "BOFuzz feature schema error: schema_version must be 4, got {}"
           [AInt (sc_schema_version schema)])
  else match sc_features schema with
  | [] => Err (fmt "BOFuzz feature schema error: features list is empty" [])
  | features =>
    let? _ := check_unique ∅ ∅ features in
    let? _ := check_aliases (list_to_set (fs_name <$> features)) features in
    Ok schema
  end.

(** ** The mask argument *)

Definition non_binary : Msg := fmt "BOFuzz vec-mask error: non-binary value in mask" [].

Definition parse_u8_list (ws : list chars) : outcome Msg (list Z) :=
  mapM (λ s, ok_or (parse_uint 255 (trim s)) non_binary) ws.

Definition parse_bit (c : ascii) : outcome Msg Z :=
  if Ascii.eqb c "0" then Ok 0%Z
  else if Ascii.eqb c "1" then Ok 1%Z
  else Err (fmt "BOFuzz vec-mask error: non-binary value '{}' in mask"
              [AStr (of_chars [c])]).

Definition parse_vec_mask (raw : string) (schema_len : usize) : outcome Msg (list bool) :=
  let trimmed := trim (to_chars raw) in
  let? values :=
    if starts_with ["["%char] trimmed && bool_decide (last_char trimmed = Some "]"%char) then
      parse_u8_list (split "," (take (length trimmed - 2) (drop 1 trimmed)))
    else if contains "," trimmed then parse_u8_list (split "," trimmed)
    else mapM parse_bit trimmed in
  if existsb (λ v, 1 <? v)%Z values then Err non_binary
  else if negb (length values =? schema_len) then
    Err (fmt "BOFuzz vec-mask error: mask length {} != schema feature length {} from features_schema.json"
           [ANat (length values); ANat schema_len])
  else
    let mask := (λ v, v =? 1)%Z <$> values in
    if forallb negb mask then
      Err (fmt "BOFuzz vec-mask error: all-zero mask disables every schema feature" [])
    else Ok mask.

Definition compute_active_features (schema : FeatureSchemaFile) (mask : list bool) :
    list FeatureSpec :=
  fst <$> filter (λ p : FeatureSpec * bool, p.2 = true) (zip (sc_features schema) mask).

(** ** The simplex *)

Fixpoint simplex_loop (v : list f64) (sum : f64) (out : list f64) : outcome Msg (f64 * list f64) :=
  match v with
  | [] => Ok (sum, out)
  | x :: v =>
    if negb (is_finite x) then Err (fmt "BOFuzz vector error: non-finite simplex weight" [])
    else if flt x f0 then Err (fmt "BOFuzz vector error: negative simplex weight" [])
    else let y := fadd x EPS in simplex_loop v (fadd sum y) (out ++ [y])
  end.

Definition normalize_simplex_eps (v : list f64) : outcome Msg (list f64) :=
  match v with
  | [] => Ok []
  | _ =>
    let? r := simplex_loop v f0 [] in
    let '(sum, out) := r in
    if negb (is_finite sum) || fle sum EPS then
      Err (fmt "BOFuzz vector error: simplex denominator is zero" [])
    else Ok ((λ x, fdiv x sum) <$> out)
  end.

(** [weights] has length [d], so [weights[j]] is always in range. *)
Definition combine_feature_matrix_to_weights (map : gmap string (list f64)) (v_in : list f64)
    (names : list string) : list f64 :=
  let d := length names in
  if d =? 0 then [] else
  let weights :=
    if length v_in =? d then default (equal_simplex d) (ok_or_none (normalize_simplex_eps v_in))
    else equal_simplex d in
  let expected_len := default 0 (head (omap (λ name, length <$> map !! name) names)) in
  (λ i,
     let total :=
       foldl (λ total '(j, name),
                let val := default f0 (map !! name ≫= λ arr, arr !! i) in
                if is_finite val && flt f0 val then
                  fadd total (fmul (default f0 (weights !! j)) val)
                else total) f0 (zip (seq 0 d) names) in
     if is_finite total then fmax total f0 else f0) <$> seq 0 expected_len.

Definition filter_active_features (full_map : gmap string (list f64)) (names : list string) :
    gmap string (list f64) :=
  foldl (λ m name, match full_map !! name with
                   | Some arr => <[name := arr]> m
                   | None => m
                   end) ∅ names.

(** [aligned.resize(sites, 0.0); aligned.truncate(sites)] *)
Definition align (sites : usize) (feats : list f64) : list f64 := take sites (resize sites f0 feats).

(** ** Loading *)

Section Load.
Context `{Env} `{Json}.

(** [File::open(path)] and [read_to_string]; each can fail. *)
Definition open_read {E} (open_err read_err : string → E) (path : PathBuf) : ME E State string :=
  λ s,
    let t := ticks s in
    match files s !! path_display path with
    | None => (Err (open_err "No such file or directory"%string), s <| ticks := S t |>)
    | Some content =>
      match io_fail t with
      | Some e => (Err (open_err e), s <| ticks := S t |>)
      | None =>
        match io_fail (S t) with
        | Some e => (Err (read_err e), s <| ticks := S (S t) |>)
        | None => (Ok content, s <| ticks := S (S t) |>)
        end
      end
    end.

Definition from_sum {E A} (f : string → E) (r : string + A) : outcome E A :=
  match r with inl e => Err (f e) | inr a => Ok a end.

Definition load_and_validate_schema (path : PathBuf) : ME Msg State FeatureSchemaFile :=
  s <- open_read
    (λ e, fmt "BOFuzz feature schema error: missing required file {}: {}"
            [AStr (path_display path); AStr e])
    (λ e, fmt "BOFuzz feature schema error: cannot read {}: {}"
            [AStr (path_display path); AStr e]) path ;;
  schema <- lift (from_sum
    (λ e, fmt "BOFuzz feature schema error: invalid JSON in {}: {}"
            [AStr (path_display path); AStr e]) (parse_schema s)) ;;
  lift (validate_schema schema).

(** The keys a feature map may have: canonical names and declared aliases. *)
Definition allowed_keys (schema : FeatureSchemaFile) : gset string :=
  ⋃ ((λ spec, {[fs_name spec]} ∪ list_to_set (default [] (fs_aliases spec)))
       <$> sc_features schema).

Fixpoint check_keys (allowed : gset string) (keys : list string) : outcome Msg () :=
  match keys with
  | [] => Ok ()
  | key :: keys =>
    if bool_decide (key ∈ LEGACY_KEYS) then
      Err (fmt "BOFuzz feature-map error: legacy key '{}' is not supported; use canonical schema feature names"
             [AStr key])
    else if negb (bool_decide (key ∈ allowed)) then
      Err (fmt "BOFuzz feature-map error: unknown key '{}' not in schema" [AStr key])
    else check_keys allowed keys
  end.

(** The key of the map that holds a feature: its name first, then its aliases. *)
Definition resolve_map_key (map : gmap string Value) (spec : FeatureSpec) : option string :=
  if bool_decide (is_Some (map !! fs_name spec)) then Some (fs_name spec)
  else match fs_aliases spec with
       | Some aliases => head (filter (λ a, is_Some (map !! a)) aliases)
       | None => None
       end.

Fixpoint as_f64_list (spec : FeatureSpec) (i : nat) (l : list Value) : outcome Msg (list f64) :=
  match l with
  | [] => Ok []
  | v :: l =>
    let? x := ok_or (as_f64 v)
      (fmt "BOFuzz feature-map error: feature {} {} contains non-numeric value at index {}"
         [AStr (fs_id spec); AStr (fs_name spec); ANat i]) in
    let? xs := as_f64_list spec (S i) l in
    Ok (x :: xs)
  end.

Fixpoint check_values (spec : FeatureSpec) (i : nat) (l : list f64) : outcome Msg () :=
  match l with
  | [] => Ok ()
  | v :: l =>
    if negb (is_finite v) then
      Err (fmt "BOFuzz feature-map error: feature {} {} contains non-finite value at index {}"
             [AStr (fs_id spec); AStr (fs_name spec); ANat i])
    else if flt v f0 then
      Err (fmt "BOFuzz feature-map error: feature {} {} contains negative value at index {} under simplex mode"
             [AStr (fs_id spec); AStr (fs_name spec); ANat i])
    else if flt (fadd f1 EPS) v then
      Err (fmt "BOFuzz feature-map error: feature {} {} value at index {} exceeds [0,1]"
             [AStr (fs_id spec); AStr (fs_name spec); ANat i])
    else check_values spec (S i) l
  end.

(** One iteration of the loop over the features of the schema. *)
Definition load_feature (map : gmap string Value) (spec : FeatureSpec)
    (acc : gmap string (list f64) * option usize) :
    outcome Msg (gmap string (list f64) * option usize) :=
  let '(result, expected_len) := acc in
  let? map_key := ok_or (resolve_map_key map spec)
    (fmt "BOFuzz feature-map error: missing feature {} {}"
       [AStr (fs_id spec); AStr (fs_name spec)]) in
  let? arr_val := unwrap (map !! map_key) in
  let? arr := match as_array arr_val with
              | Some a => as_f64_list spec 0 a
              | None => Err (fmt "BOFuzz feature-map error: feature {} {} is not an array"
                               [AStr (fs_id spec); AStr (fs_name spec)])
              end in
  let? _ := check_values spec 0 arr in
  let? expected_len :=
    match expected_len with
    | None => Ok (Some (length arr))
    | Some el =>
      if length arr =? el then Ok (Some el)
      else Err (fmt "BOFuzz feature-map error: feature {} {} length {} != expected {}"
                  [AStr (fs_id spec); AStr (fs_name spec); ANat (length arr); ANat el])
    end in
  Ok (<[fs_name spec := arr]> result, expected_len).

Fixpoint load_features (map : gmap string Value) (specs : list FeatureSpec)
    (acc : gmap string (list f64) * option usize) :
    outcome Msg (gmap string (list f64) * option usize) :=
  match specs with
  | [] => Ok acc
  | spec :: specs => let? acc := load_feature map spec acc in load_features map specs acc
  end.

Definition validate_feature_map (map : gmap string Value) (schema : FeatureSchemaFile)
    (sancov_sites : usize) : outcome Msg (gmap string (list f64)) :=
  if bool_decide (is_Some (map !! "features"%string)) then
    Err (fmt "BOFuzz feature-map error: legacy {'features': [...]} format not supported" [])
  else
    let? _ := check_keys (allowed_keys schema) (hash_order (map_to_list map).*1) in
    let? r := load_features map (sc_features schema) (∅, None) in
    match r.2 with
    | Some el =>
      if el =? sancov_sites then Ok r.1
      else Err (fmt "BOFuzz feature-map error: feature array length {} != sancov_sites {}"
                  [ANat el; ANat sancov_sites])
    | None => Ok r.1
    end.

Definition load_and_validate_feature_map (path : PathBuf) (schema : FeatureSchemaFile)
    (sancov_sites : usize) : ME Msg State (gmap string (list f64)) :=
  s <- open_read
    (λ e, fmt "BOFuzz feature-map error: cannot open {}: {}" [AStr (path_display path); AStr e])
    (λ e, fmt "BOFuzz feature-map error: cannot read {}: {}" [AStr (path_display path); AStr e])
    path ;;
  map <- lift (from_sum (λ e, fmt "BOFuzz feature-map error: invalid JSON: {}" [AStr e])
                 (parse_map s)) ;;
  lift (validate_feature_map map schema sancov_sites).

Definition candidate_format_error : Msg :=
  fmt "error: BOFuzz _v_candidates.json format changed. expected weights-only vector length active_dim. old [alpha, weights...] format is no longer supported." [].

Fixpoint check_candidate (i j : nat) (l : list f64) : outcome Msg () :=
  match l with
  | [] => Ok ()
  | v :: l =>
    if negb (is_finite v) then
      Err (fmt "BOFuzz candidate error: candidate {} contains non-finite value at index {}"
             [ANat i; ANat j])
    else if flt v f0 then
      Err (fmt "BOFuzz candidate error: candidate {} contains negative value at index {}"
             [ANat i; ANat j])
    else check_candidate i (S j) l
  end.

Fixpoint check_candidates (active_dim : usize) (i : nat) (l : list (list f64)) :
    outcome Msg (list (list f64)) :=
  match l with
  | [] => Ok []
  | cand :: l =>
    if negb (length cand =? active_dim) then
      Err (fmt "{} candidate {} length {} != active_dim {}"
             [AMsg candidate_format_error; ANat i; ANat (length cand); ANat active_dim])
    else
      let? _ := check_candidate i 0 cand in
      let? v := normalize_simplex_eps cand in
      let? vs := check_candidates active_dim (S i) l in
      Ok (v :: vs)
  end.

Definition load_candidates_from (path : PathBuf) (active_dim : usize) :
    ME Msg State (list (list f64)) :=
  s <- open_read
    (λ e, fmt "BOFuzz candidate error: cannot open {}: {}" [AStr (path_display path); AStr e])
    (λ e, fmt "BOFuzz candidate error: cannot read {}: {}" [AStr (path_display path); AStr e])
    path ;;
  arr <- lift (from_sum (λ e, fmt "BOFuzz candidate error: invalid JSON in {}: {}"
                           [AStr (path_display path); AStr e]) (parse_candidates s)) ;;
  match arr with
  | [] => throw (fmt "BOFuzz candidate error: {} contains empty candidate list"
                   [AStr (path_display path)])
  | _ => lift (check_candidates active_dim 0 arr)
  end.

(** The state is unchanged by the messages to [stderr], which are left out. *)
Definition ensure_v_candidates_for (features_map_path : PathBuf) (active_dim : usize)
    (policy : CandidateFilePolicy) : ME Msg State CandidateFileStatus :=
  let candidate_path :=
    (λ '(dir, tgt), dir ++ [(tgt +:+ "_v_candidates.json")%string])
      <$> derive_dir_and_target features_map_path in
  match policy with
  | IgnoreExternalFile => ret (mkCandidateStatus candidate_path false)
  | AllowExternalFile =>
    cands <- gets get_v_candidates ;;
    match cands with
    | _ :: _ => ret (mkCandidateStatus candidate_path false)
    | [] =>
      match candidate_path with
      | None =>
        modify (replace_v_candidates []) ;;; ret CandidateFileStatus_default
      | Some cand_path =>
        exists_ <- gets (λ s, bool_decide (is_Some (files s !! path_display cand_path))) ;;
        if exists_ : bool then
          file_cands <- with_err (λ e, fmt "BOFuzz candidate error: invalid {}: {}"
                                         [AStr (path_display cand_path); AMsg e])
                          (load_candidates_from cand_path active_dim) ;;
          modify (replace_v_candidates file_cands) ;;;
          ret (mkCandidateStatus (Some cand_path) true)
        else
          modify (replace_v_candidates []) ;;;
          ret (mkCandidateStatus (Some cand_path) false)
      end
    end
  end.

Definition load_and_align_features_map (canonical_map : gmap string (list f64)) (sites : usize)
    (active_dim : usize) (names : list string) (features_map_path : PathBuf)
    (policy : CandidateFilePolicy) : ME Msg State FeatureMapLoadResult :=
  candidate_status <- ensure_v_candidates_for features_map_path active_dim policy ;;
  cands <- gets get_v_candidates ;;
  let v0_active := default (equal_simplex active_dim) (head cands) in
  let active_map := filter_active_features canonical_map names in
  let feats := combine_feature_matrix_to_weights active_map v0_active names in
  modify (set_tpe_satisfied (0 <? active_dim)) ;;;
  modify (set_current_weight_vec []) ;;;
  ret (mkLoadResult (align sites feats) active_map candidate_status).
End Load.

(** ** Masks and vectors of a running fuzzer *)

Definition install_committed_runtime_mask (schema : FeatureSchemaFile) (mask : list bool) :
    M State () :=
  if negb (length mask =? length (sc_features schema)) then
    throw (illegal_argument "BOFuzz mask error: committed mask length {} != schema_dim {}"
             [ANat (length mask); ANat (length (sc_features schema))])
  else if forallb negb mask then
    throw (illegal_argument "BOFuzz mask error: committed mask disables every schema feature" [])
  else
    let active := compute_active_features schema mask in
    let names := fs_name <$> active in
    modify (set_schema_info (sc_schema_version schema) (sc_features schema) mask active) ;;;
    modify (λ s, match m_matrix s with
                 | Some mx => s <| m_matrix := Some (mx <| fmx_matrix :=
                                     filter_active_features (fmx_matrix mx) names |>) |>
                 | None => s
                 end) ;;;
    modify (replace_v_candidates []) ;;;
    modify (set_current_weight_vec []) ;;;
    modify (set_tpe_satisfied (negb (match names with [] => true | _ => false end))).

Definition illegal_argument_of (m : Msg) : Error := IllegalArgument m.

Definition apply_v_to_features (simplex_v : list f64) (iteration : u64) : M State () :=
  active_dim <- gets get_active_dim ;;
  active_names <- gets get_active_feature_names ;;
  if negb (length simplex_v =? active_dim) then
    throw (illegal_argument "BOFuzz vector error: weight length {} != active_dim {}"
             [ANat (length simplex_v); ANat active_dim])
  else
    simplex_weights <- lift (map_err illegal_argument_of (normalize_simplex_eps simplex_v)) ;;
    fs <- gets (λ s, match m_matrix s with
                     | Some m => (combine_feature_matrix_to_weights (fmx_matrix m)
                                    simplex_weights active_names, fmx_sites m)
                     | None => let feats := default [] (m_feats s) in (feats, length feats)
                     end) ;;
    let '(feats, sites) := fs : list f64 * nat in
    modify (λ s, s <| m_feats := Some (align sites feats) |>) ;;;
    modify (λ s, s <| m_vector := Some (mkFeatureVector iteration simplex_weights) |>) ;;;
    modify (set_current_weight_vec simplex_weights).

(** ** Schema validation *)

(** What a valid schema is. *)
Record schema_ok (schema : FeatureSchemaFile) : Prop := {
  so_version : sc_schema_version schema = 4%Z;
  so_nonempty : sc_features schema ≠ [];
  so_ids : NoDup (fs_id <$> sc_features schema);
  so_names : NoDup (fs_name <$> sc_features schema);
  so_aliases : ∀ f a g, f ∈ sc_features schema → a ∈ default [] (fs_aliases f) →
    g ∈ sc_features schema → a = fs_name g → a = fs_name f;
}.

Lemma check_unique_ok ids names l :
  check_unique ids names l = Ok () ↔
  NoDup (fs_id <$> l) ∧ NoDup (fs_name <$> l) ∧
  Forall (λ f, fs_id f ∉ ids ∧ fs_name f ∉ names) l.
Proof.
  revert ids names. induction l as [|f l IH]; intros ids names; simpl.
  { split; [|done]. intros _. split_and!; constructor. }
  rewrite !NoDup_cons, Forall_cons.
  case_bool_decide as H1; [split; [done|tauto]|].
  case_bool_decide as H2; [split; [done|tauto]|].
  rewrite IH, !list_elem_of_fmap.
  assert (Forall (λ g, fs_id g ∉ {[fs_id f]} ∪ ids ∧ fs_name g ∉ {[fs_name f]} ∪ names) l ↔
    Forall (λ g, fs_id g ∉ ids ∧ fs_name g ∉ names) l ∧
    (¬ (∃ g, fs_id f = fs_id g ∧ g ∈ l)) ∧ ¬ (∃ g, fs_name f = fs_name g ∧ g ∈ l)) as ->; [|tauto].
  rewrite !Forall_forall. split.
  - intros HF. split_and!.
    + intros g [? ?]%HF. set_solver.
    + intros (g & He & [? ?]%HF). set_solver.
    + intros (g & He & [? ?]%HF). set_solver.
  - intros (HF & Hi & Hn) g Hg. destruct (HF g Hg).
    assert (fs_id f ≠ fs_id g) by (intros ?; apply Hi; by exists g).
    assert (fs_name f ≠ fs_name g) by (intros ?; apply Hn; by exists g).
    set_solver.
Qed.

Lemma check_aliases_of_ok canonical f aliases :
  check_aliases_of canonical f aliases = Ok () ↔
  Forall (λ a, a ∈ canonical → a = fs_name f) aliases.
Proof.
  induction aliases as [|a l IH]; simpl; [done|]. rewrite Forall_cons.
  case_bool_decide as Ha; simpl; [|rewrite IH; tauto].
  destruct (String.eqb_spec a (fs_name f)); simpl; [rewrite IH; tauto|].
  split; [done|]. intros [Hx _]. by apply Hx in Ha.
Qed.

Lemma check_aliases_ok canonical l :
  check_aliases canonical l = Ok () ↔
  Forall (λ f, Forall (λ a, a ∈ canonical → a = fs_name f) (default [] (fs_aliases f))) l.
Proof.
  induction l as [|f l IH]; simpl; [done|]. rewrite Forall_cons, <-IH.
  destruct (fs_aliases f) as [aliases|]; simpl; [|naive_solver].
  rewrite <-check_aliases_of_ok. destruct (check_aliases_of _ _ _) as [[]|e|]; naive_solver.
Qed.

Lemma check_unique_total ids names l : check_unique ids names l ≠ Panic.
Proof.
  revert ids names. induction l as [|f l IH]; intros ids names; simpl; [done|].
  do 2 (case_bool_decide; [done|]). apply IH.
Qed.

Lemma check_aliases_total canonical l : check_aliases canonical l ≠ Panic.
Proof.
  induction l as [|f l IH]; simpl; [done|]. destruct (fs_aliases f) as [al|]; [|done].
  induction al as [|a al IHa]; simpl; [done|]. by destruct (_ && _).
Qed.

(** [load_and_validate_schema] accepts exactly the valid schemas, unchanged. *)
Theorem validate_schema_iff schema r :
  validate_schema schema = Ok r ↔ schema_ok schema ∧ r = schema.
Proof.
  unfold validate_schema.
  destruct (Z.eqb_spec (sc_schema_version schema) 4) as [Hv|Hv]; cbn [negb].
  2: { split; [done|]. by intros [[] _]. }
  destruct (sc_features schema) as [|f0 l0] eqn:Ef.
  { split; [done|]. intros [[_ Hne _ _ _] _]. by rewrite Ef in Hne. }
  rewrite <-Ef. assert (sc_features schema ≠ []) as Hne by congruence. clear f0 l0 Ef.
  assert (schema_ok schema ↔ sc_features schema ≠ [] ∧
     check_unique ∅ ∅ (sc_features schema) = Ok () ∧
     check_aliases (list_to_set (fs_name <$> sc_features schema)) (sc_features schema) = Ok ()) as Hok.
  { rewrite check_unique_ok, check_aliases_ok. rewrite !Forall_forall.
    setoid_rewrite Forall_forall. setoid_rewrite elem_of_list_to_set.
    setoid_rewrite list_elem_of_fmap. split.
    - intros [_ ? ? ? Ha]. split_and!; [done..|set_solver|].
      intros f Hf a Hfa (g & -> & Hg). by eapply (Ha f _ g).
    - intros (? & (? & ? & _) & Ha). split; try done.
      intros f a g Hf Hfa Hg ->. by apply (Ha f Hf _ Hfa); exists g. }
  rewrite Hok. pose proof (check_unique_total ∅ ∅ (sc_features schema)).
  pose proof (check_aliases_total (list_to_set (fs_name <$> sc_features schema)) (sc_features schema)).
  destruct (check_unique _ _ _) as [[]|e|]; simpl; [|naive_solver|done].
  destruct (check_aliases _ _) as [[]|e|]; simpl; [|naive_solver|done].
  split; [intros [= <-]; by split_and!|by intros [_ ->]].
Qed.

(** ** The mask argument *)

Lemma mask_to_bitstring_chars mask :
  to_chars (mask_to_bitstring mask) = (λ v : bool, if v then "1"%char else "0"%char) <$> mask.
Proof. induction mask as [|v mask IH]; simpl; [done|]. f_equal. exact IH. Qed.

(** The last steps of [parse_vec_mask], on the parsed values. *)
Lemma parse_vec_mask_finish (vals : list Z) (mask : list bool) :
  vals = (λ b : bool, if b then 1 else 0)%Z <$> mask → true ∈ mask →
  existsb (λ v, 1 <? v)%Z vals = false ∧ length vals = length mask ∧
  ((λ v, v =? 1)%Z <$> vals) = mask ∧ forallb negb mask = false.
Proof.
  intros -> Ht. split_and!.
  - clear Ht. induction mask as [|[] mask IH]; [done|..]; simpl; exact IH.
  - apply length_fmap.
  - rewrite <-list_fmap_compose. rewrite <-(list_fmap_id mask) at 2.
    apply list_fmap_ext. by intros _ [] _.
  - destruct (forallb negb mask) eqn:E; [|done].
    rewrite forallb_forall in E. by apply list_elem_of_In, E in Ht.
Qed.

Lemma mapM_parse_bit mask :
  mapM parse_bit ((λ v : bool, if v then "1"%char else "0"%char) <$> mask)
  = Ok ((λ b : bool, if b then 1 else 0)%Z <$> mask).
Proof.
  induction mask as [|v mask IH]; [done|]. rewrite !fmap_cons. cbn [mapM]. rewrite IH. by destruct v.
Qed.

(** Printing a mask with an enabled feature and parsing it back gives the mask. *)
Lemma parse_vec_mask_bitstring mask :
  true ∈ mask → parse_vec_mask (mask_to_bitstring mask) (length mask) = Ok mask.
Proof.
  intros Ht. unfold parse_vec_mask. rewrite mask_to_bitstring_chars. cbv zeta.
  set (l := _ <$> mask).
  assert (∀ c, c ∈ l → c = "0"%char ∨ c = "1"%char) as Hl.
  { intros c ([] & -> & _)%list_elem_of_fmap; auto. }
  assert (trim l = l) as ->.
  { apply trim_id, Forall_forall. by intros c [->| ->]%Hl. }
  assert (starts_with ["["%char] l = false) as ->.
  { destruct l as [|c l']; [done|]. destruct (Hl c) as [->| ->]; [left|done..]. }
  simpl andb. cbn iota.
  assert (contains "," l = false) as ->.
  { destruct (contains "," l) eqn:E; [|done]. apply existsb_exists in E as (c & Hc & He).
    apply list_elem_of_In, Hl in Hc as [->| ->]; done. }
  unfold l. rewrite mapM_parse_bit. simpl obind.
  destruct (parse_vec_mask_finish _ mask eq_refl Ht) as (-> & -> & -> & ->).
  by rewrite Nat.eqb_refl.
Qed.

(** A mask that [parse_vec_mask] accepts has the length of the schema and enables
    a feature. *)
Theorem parse_vec_mask_sound raw n mask :
  parse_vec_mask raw n = Ok mask → length mask = n ∧ true ∈ mask.
Proof.
  unfold parse_vec_mask. cbv zeta. intros H. inv_ok.
  destruct (existsb _ _); [done|].
  destruct (Nat.eqb_spec (length a) n) as [<-|]; [|done]. cbn [negb] in H.
  destruct (forallb negb _) eqn:E; [done|]. injection H as <-.
  split; [apply length_fmap|].
  destruct (decide (true ∈ ((λ v, v =? 1)%Z <$> a))) as [|Hn]; [done|].
  assert (forallb negb ((λ v, v =? 1)%Z <$> a) = true); [|congruence].
  apply forallb_forall. intros [] Hin%list_elem_of_In; [done|done].
Qed.

(** The comma-separated form, in brackets. *)
Definition mask_to_list_arg (mask : list bool) : string :=
  of_chars ("["%char :: join "," ((λ v : bool, if v then ["1"%char] else ["0"%char]) <$> mask)
              ++ ["]"%char]).

Lemma parse_u8_bits mask :
  parse_u8_list ((λ v : bool, if v then ["1"%char] else ["0"%char]) <$> mask)
  = Ok ((λ b : bool, if b then 1 else 0)%Z <$> mask).
Proof.
  unfold parse_u8_list. induction mask as [|v mask IH]; [done|].
  rewrite !fmap_cons. cbn [mapM]. rewrite IH. by destruct v.
Qed.

Lemma join_elem sep ws c : c ∈ join sep ws → c = sep ∨ ∃ w, w ∈ ws ∧ c ∈ w.
Proof.
  induction ws as [|w ws IH]; simpl; [by intros ?%elem_of_nil|].
  destruct ws as [|w' ws].
  { intros Hc. right. exists w. split; [left|done]. }
  rewrite elem_of_app, elem_of_cons. intros [Hc|[->|Hc]]; [|by left|].
  - right. exists w. split; [left|done].
  - destruct (IH Hc) as [->|(w'' & ? & ?)]; [by left|]. right. exists w''. split; [by right|done].
Qed.

Lemma parse_vec_mask_list_arg mask :
  true ∈ mask → parse_vec_mask (mask_to_list_arg mask) (length mask) = Ok mask.
Proof.
  intros Ht. unfold parse_vec_mask, mask_to_list_arg. rewrite to_of_chars. cbv zeta.
  set (ws := (λ v : bool, if v then ["1"%char] else ["0"%char]) <$> mask).
  assert (trim ("["%char :: join "," ws ++ ["]"%char]) = "["%char :: join "," ws ++ ["]"%char]) as ->.
  { apply trim_id. constructor; [done|]. apply Forall_app. split; [|by repeat constructor].
    apply Forall_forall. intros c [->|(w & Hw & Hc)]%join_elem; [done|].
    apply list_elem_of_fmap in Hw as ([] & -> & _); apply list_elem_of_singleton in Hc; by subst. }
  assert (last_char ("["%char :: join "," ws ++ ["]"%char]) = Some "]"%char) as ->.
  { unfold last_char. change ("["%char :: join "," ws ++ ["]"%char]) with (("["%char :: join "," ws) ++ ["]"%char]).
    apply last_snoc. }
  rewrite bool_decide_true by done. simpl starts_with. simpl andb. cbn iota.
  assert (take (length ("["%char :: join "," ws ++ ["]"%char]) - 2)
            (drop 1 ("["%char :: join "," ws ++ ["]"%char])) = join "," ws) as ->.
  { simpl. rewrite length_app. simpl.
    replace (length (join "," ws) + 1 - 1) with (length (join "," ws)) by lia. apply take_app_length. }
  rewrite split_join.
  - unfold ws. rewrite parse_u8_bits. simpl obind.
    destruct (parse_vec_mask_finish _ mask eq_refl Ht) as (-> & -> & -> & ->).
    by rewrite Nat.eqb_refl.
  - unfold ws. destruct mask; [by apply elem_of_nil in Ht|done].
  - apply Forall_forall. intros w ([] & -> & _)%list_elem_of_fmap; done.
Qed.

(** ** The simplex *)

Lemma EPS_fnn : fnn EPS. Proof. done. Qed.
#[export] Hint Resolve EPS_fnn : f64.

Lemma simplex_loop_spec v sum out : Forall fvalid v →
  (Forall good_credit v →
   simplex_loop v sum out = Ok (foldl fadd sum ((λ x, fadd x EPS) <$> v),
                                out ++ ((λ x, fadd x EPS) <$> v))) ∧
  (∀ r, simplex_loop v sum out = Ok r → Forall good_credit v) ∧
  simplex_loop v sum out ≠ Panic.
Proof.
  revert sum out. induction v as [|x v IH]; intros sum out HV; simpl.
  { rewrite app_nil_r. split_and!; [done|constructor|done]. }
  apply Forall_cons in HV as [Vx HV]. destruct (is_finite x) eqn:F; cbn [negb].
  2: { split_and!; [|done|done]. intros [[? _] _]%Forall_cons. congruence. }
  destruct (flt x f0) eqn:N.
  { split_and!; [|done|done]. intros [[_ ?] _]%Forall_cons. congruence. }
  destruct (IH (fadd sum (fadd x EPS)) (out ++ [fadd x EPS]) HV) as (H1 & H2 & H3).
  split_and!; [|intros r Hr; constructor; [done|by eapply H2]|done].
  intros [_ HF]%Forall_cons. rewrite H1 by done. by rewrite <-app_assoc.
Qed.

Lemma good_shift_fnn v : Forall fvalid v → Forall good_credit v →
  Forall fnn ((λ x, fadd x EPS) <$> v).
Proof.
  intros HV HG. apply Forall_fmap, Forall_lookup. intros i x Hx.
  rewrite Forall_lookup in HV, HG. simpl. apply fadd_fnn; [|apply EPS_fnn].
  apply good_credit_fnn; [by eapply HV|by eapply HG].
Qed.

Lemma EPS_fv : (0 < fv EPS)%Z. Proof. done. Qed.

Lemma normalize_simplex_unfold v : v ≠ [] →
  normalize_simplex_eps v =
  (let? r := simplex_loop v f0 [] in
   let '(sum, out) := r in
   if negb (is_finite sum) || fle sum EPS then
     Err (fmt "BOFuzz vector error: simplex denominator is zero" [])
   else Ok ((λ x, fdiv x sum) <$> out)).
Proof. by destruct v. Qed.

(** A normalised vector has the length of its input and entries in [0,1]. *)
Lemma normalize_simplex_ok v w : Forall fvalid v → normalize_simplex_eps v = Ok w →
  length w = length v ∧ Forall in_unit w ∧ Forall good_credit v.
Proof.
  intros HV. unfold normalize_simplex_eps. destruct v as [|x0 v0] eqn:Ev.
  { intros [= <-]. split_and!; [done|constructor..]. }
  rewrite <-Ev in *. clear x0 v0 Ev.
  destruct (simplex_loop_spec v f0 [] HV) as (H1 & H2 & H3). intros H. inv_ok.
  pose proof (H2 a ltac:(done)) as HG. rewrite (H1 HG) in *. simplify_eq/=.
  set (ys := (λ x, fadd x EPS) <$> v) in *. set (t := foldl fadd f0 ys) in *.
  pose proof (good_shift_fnn v HV HG) as Hys. fold ys in Hys.
  assert (fnn t) as Ht by (apply fold_fadd_fnn; [apply f0_fnn|done]).
  destruct (is_finite t) eqn:Ft; [|done]. destruct (fle t EPS) eqn:Fle; [done|].
  simpl in H. injection H as <-.
  split_and!; [by unfold ys; rewrite !length_fmap| |done].
  assert (0 < fv t)%Z as Hpos.
  { pose proof (flt_total EPS t eq_refl (fnn_not_nan _ Ht)) as Hx. rewrite Fle in Hx.
    symmetry in Hx. apply negb_false_iff in Hx.
    apply flt_fv in Hx; [|done|by apply fnn_valid|done|done]. pose proof EPS_fv. lia. }
  destruct (fold_fadd_ge ys f0 f0_fnn Hys Ft) as [_ Hle].
  apply Forall_fmap, Forall_lookup. intros i y Hy. simpl.
  rewrite Forall_lookup in Hys, Hle. destruct (Hle _ _ Hy) as [Fy Hy']. fold t in Hy'.
  apply fdiv_unit; [by eapply Hys|done|done|done|done|done].
Qed.

Lemma normalize_simplex_total v : Forall fvalid v → normalize_simplex_eps v ≠ Panic.
Proof.
  intros HV. unfold normalize_simplex_eps. destruct v as [|x v']; [done|].
  destruct (simplex_loop_spec (x :: v') f0 [] HV) as (_ & _ & H3).
  destruct (simplex_loop _ _ _) as [[sum out]|e|]; [|done|done]. simpl. by destruct (_ || _).
Qed.

(** [normalize_simplex_eps] accepts a non-empty vector exactly when its entries are
    finite and non-negative and their shifted sum is finite and above [EPS]; the
    result is then the shifted vector over the sum, inside the unit cube. *)
Theorem normalize_simplex_eps_spec v :
  Forall fvalid v → v ≠ [] →
  let ys := (λ x, fadd x EPS) <$> v in
  let total := foldl fadd f0 ys in
  (∀ w, normalize_simplex_eps v = Ok w ↔
     (Forall good_credit v ∧ is_finite total = true ∧ fle total EPS = false) ∧
     w = (λ y, fdiv y total) <$> ys) ∧
  (∀ w, normalize_simplex_eps v = Ok w → length w = length v ∧ Forall in_unit w) ∧
  normalize_simplex_eps v ≠ Panic.
Proof.
  intros HV Hne ys total. split_and!; [|intros w Hw|by apply normalize_simplex_total].
  2: { destruct (normalize_simplex_ok v w HV Hw) as (?&?&_). done. }
  intros w. rewrite normalize_simplex_unfold by done.
  destruct (simplex_loop_spec v f0 [] HV) as (H1 & H2 & H3). split.
  - intros H. inv_ok. pose proof (H2 a ltac:(done)) as HG. rewrite (H1 HG) in *. simplify_eq/=.
    fold ys in H. fold total in H. destruct (is_finite total), (fle total EPS); try done.
    by injection H as <-.
  - intros [(HG & Ft & Fle) ->]. rewrite (H1 HG). simpl. fold ys. fold total. by rewrite Ft, Fle.
Qed.

(** ** The feature map *)

Definition good_value (x : f64) : Prop :=
  good_credit x ∧ flt (fadd f1 EPS) x = false.

Lemma check_values_ok spec i l : check_values spec i l = Ok () → Forall good_value l.
Proof.
  revert i. induction l as [|v l IH]; intros i; cbn [check_values]; [constructor|].
  destruct (is_finite v) eqn:F; cbn [negb]; [|done]. destruct (flt v f0) eqn:N; [done|].
  destruct (flt (fadd f1 EPS) v) eqn:U; [done|]. intros H. constructor; [by split; [split|]|by eapply IH].
Qed.

(** A loaded map has one array per feature name, each of the number of sites, with
    values of the simplex mode. *)
Record features_ok (schema : FeatureSchemaFile) (sites : usize)
    (m : gmap string (list f64)) : Prop := {
  fo_dom : dom m = list_to_set (fs_name <$> sc_features schema);
  fo_len : ∀ name arr, m !! name = Some arr → length arr = sites;
  fo_val : ∀ name arr, m !! name = Some arr → Forall good_value arr;
}.

Section FeatureMapFacts.
Context `{Env} `{Json}.

Lemma load_feature_ok map spec m el m' el' :
  load_feature map spec (m, el) = Ok (m', el') →
  ∃ arr, m' = <[fs_name spec := arr]> m ∧ el' = Some (length arr) ∧
    (∀ n, el = Some n → n = length arr) ∧ Forall good_value arr.
Proof.
  unfold load_feature. intros Hl. inv_ok.
  match goal with Hc : check_values _ _ ?arr = Ok ?u |- _ => destruct u; exists arr end.
  simplify_eq. split_and!; [done|..|by eapply check_values_ok].
  - destruct el as [n|]; [|naive_solver].
    destruct (Nat.eqb_spec (length a1) n); naive_solver.
  - intros n ->. destruct (Nat.eqb_spec (length a1) n); naive_solver.
Qed.

Lemma load_features_ok map specs m el m' el' :
  load_features map specs (m, el) = Ok (m', el') →
  (∀ name arr, m !! name = Some arr → el = Some (length arr) ∧ Forall good_value arr) →
  dom m' = list_to_set (fs_name <$> specs) ∪ dom m ∧
  (∀ name arr, m' !! name = Some arr → el' = Some (length arr) ∧ Forall good_value arr).
Proof.
  revert m el. induction specs as [|spec specs IH]; intros m el; cbn [load_features].
  { intros [= <- <-] Hm. split; [set_solver|done]. }
  intros Hl Hm. inv_ok. destruct a as [m1 el1].
  destruct (load_feature_ok map spec m el m1 el1) as (arr & -> & -> & He & Hv); [done|].
  destruct (IH _ _ Hl) as [Hd Hn].
  - intros name arr' Hx. destruct (decide (name = fs_name spec)) as [->|].
    + rewrite lookup_insert_eq in Hx. by simplify_eq.
    + rewrite lookup_insert_ne in Hx by done. destruct (Hm _ _ Hx) as [? ?].
      split; [|done]. f_equal. symmetry. by apply He.
  - split; [|done]. rewrite Hd, dom_insert_L. set_solver.
Qed.

Lemma check_keys_ok allowed keys :
  check_keys allowed keys = Ok () →
  Forall (λ k, k ∉ LEGACY_KEYS ∧ k ∈ allowed) keys.
Proof.
  induction keys as [|k keys IH]; cbn [check_keys]; [constructor|].
  case_bool_decide as H1; [done|]. case_bool_decide as H2; [|done]. simpl.
  intros Hk. constructor; [done|by apply IH].
Qed.

(** C37. [load_and_validate_feature_map] only returns maps that are complete for the
    schema, aligned with the sancov sites, with finite values of the simplex
    mode, and only from files without legacy or unknown keys. *)
Theorem validate_feature_map_sound `{!EnvLaws _} map schema sites m :
  validate_feature_map map schema sites = Ok m → sc_features schema ≠ [] →
  features_ok schema sites m ∧
  (∀ k, is_Some (map !! k) → k ∉ LEGACY_KEYS ∧ k ∈ allowed_keys schema ∧ k ≠ "features"%string).
Proof.
  intros Hv Hne. unfold validate_feature_map in Hv.
  case_bool_decide as Hleg; [done|]. inv_ok. destruct a0 as [m0 el].
  destruct a. destruct (load_features_ok map (sc_features schema) ∅ None m0 el) as [Hd Hn];
    [done|by intros ??; rewrite lookup_empty|].
  rewrite dom_empty_L, union_empty_r_L in Hd. simpl in Hv. split.
  - assert (∃ name arr, m0 !! name = Some arr) as (name & arr & Hsome).
    { destruct (sc_features schema) as [|f l]; [done|].
      assert (fs_name f ∈ dom m0) as [arr ?]%elem_of_dom by (rewrite Hd; set_solver). eauto. }
    destruct (Hn _ _ Hsome) as [-> _]. destruct (Nat.eqb_spec (length arr) sites) as [<-|]; [|done].
    injection Hv as <-. split; [done|..]; intros name' arr' Hx; destruct (Hn _ _ Hx); naive_solver.
  - intros k Hk. pose proof (check_keys_ok _ _ ltac:(done)) as HF.
    rewrite hash_order_perm, Forall_forall in HF. destruct Hk as [v Hk].
    destruct (HF k) as [? ?].
    { apply list_elem_of_fmap. exists (k, v). split; [done|]. by apply elem_of_map_to_list. }
    split_and!; [done|done|]. intros ->. apply Hleg. eauto.
Qed.
End FeatureMapFacts.

(** ** Combination *)

Definition fin_nn (x : f64) : Prop := fnn x ∧ is_finite x = true.
Definition map_valid (m : gmap string (list f64)) : Prop :=
  ∀ name arr, m !! name = Some arr → Forall fvalid arr.

Lemma in_unit_fin_nn x : in_unit x → fin_nn x.
Proof. intros (? & ? & _). by split. Qed.

Lemma normalize_or_equal_unit v d : Forall fvalid v → (Z.of_nat d < 2 ^ 53)%Z → length v = d →
  Forall in_unit (default (equal_simplex d) (ok_or_none (normalize_simplex_eps v))) ∧
  length (default (equal_simplex d) (ok_or_none (normalize_simplex_eps v))) = d.
Proof.
  intros HV Hd Hl. destruct (normalize_simplex_eps v) as [w|e|] eqn:E; simpl.
  - destruct (normalize_simplex_ok _ _ HV E) as (?&?&_). split; [done|lia].
  - split; [by apply equal_simplex_unit|apply equal_simplex_length].
  - split; [by apply equal_simplex_unit|apply equal_simplex_length].
Qed.

Lemma combine_total_fnn map weights i l acc : map_valid map → Forall in_unit weights → fnn acc →
  fnn (foldl (λ total '(j, name),
                let val := default f0 (map !! name ≫= λ arr, arr !! i) in
                if is_finite val && flt f0 val then
                  fadd total (fmul (default f0 (weights !! j)) val)
                else total) acc (l : list (nat * string))).
Proof.
  intros Hm Hw. revert acc. induction l as [|[j name] l IH]; intros acc Ha; cbn [foldl]; [done|].
  apply IH. cbv zeta. set (val := default f0 _).
  destruct (is_finite val) eqn:F; [|done]. destruct (flt f0 val) eqn:P; [|done]. simpl.
  assert (fin_nn (default f0 (weights !! j))) as [? ?].
  { destruct (weights !! j) as [x|] eqn:E; simpl; [|done].
    rewrite Forall_lookup in Hw. by eapply in_unit_fin_nn, Hw. }
  assert (fnn val) as Hv.
  { split.
    - unfold val. destruct (map !! name) as [arr|] eqn:Ea; simpl; [|done].
      destruct (arr !! i) as [x|] eqn:Ex; simpl; [|done].
      specialize (Hm _ _ Ea). rewrite Forall_lookup in Hm. by eapply Hm.
    - clear -F P. by destruct val as [|[]| |[]]. }
  apply fadd_fnn; [done|]. by apply fmul_fnn.
Qed.

Lemma combine_fin_nn map v names : map_valid map → Forall fvalid v →
  (Z.of_nat (length names) < 2 ^ 53)%Z →
  Forall fin_nn (combine_feature_matrix_to_weights map v names).
Proof.
  intros Hm HV Hd. unfold combine_feature_matrix_to_weights. cbv zeta.
  destruct (Nat.eqb_spec (length names) 0); [constructor|].
  set (weights := if length v =? length names then _ else _).
  assert (Forall in_unit weights) as Hw.
  { unfold weights. destruct (Nat.eqb_spec (length v) (length names)).
    - by apply normalize_or_equal_unit.
    - by apply equal_simplex_unit. }
  apply Forall_fmap, Forall_true. intros i. cbn beta.
  pose proof (combine_total_fnn map weights i (zip (seq 0 (length names)) names) f0 Hm Hw f0_fnn) as Ht.
  cbv zeta in Ht. set (t := foldl _ _ _) in *. change (fin_nn (if is_finite t then fmax t f0 else f0)).
  destruct (is_finite t) eqn:F; [|done]. split; [by apply fnn_max0, fnn_valid|].
  unfold fmax. destruct (is_nan t), (flt t f0); done.
Qed.

Lemma align_length sites feats : length (align sites feats) = sites.
Proof. unfold align. rewrite length_take, resize_length. lia. Qed.

Lemma align_Forall (P : f64 → Prop) sites feats : P f0 → Forall P feats → Forall P (align sites feats).
Proof.
  intros H0 HF. unfold align, resize. apply Forall_take, Forall_app. split.
  - by apply Forall_take.
  - by apply Forall_replicate.
Qed.

(** ** Applying a vector *)

Definition matrix_valid (s : State) : Prop :=
  ∀ mx, m_matrix s = Some mx → map_valid (fmx_matrix mx).

(** The weights a vector gives to the sites. *)
Definition feats_for (s : State) (w : list f64) : list f64 :=
  match m_matrix s with
  | Some m => align (fmx_sites m)
                (combine_feature_matrix_to_weights (fmx_matrix m) w (get_active_feature_names s))
  | None => align (length (default [] (m_feats s))) (default [] (m_feats s))
  end.

Lemma apply_v_run v it s :
  apply_v_to_features v it s =
  if negb (length v =? get_active_dim s) then
    (Err (illegal_argument "BOFuzz vector error: weight length {} != active_dim {}"
            [ANat (length v); ANat (get_active_dim s)]), s)
  else match normalize_simplex_eps v with
  | Ok w => (Ok (), set_current_weight_vec w
                      (s <| m_feats := Some (feats_for s w) |>
                         <| m_vector := Some (mkFeatureVector it w) |>))
  | Err e => (Err (IllegalArgument e), s)
  | Panic => (Panic, s)
  end.
Proof.
  unfold apply_v_to_features, bind, gets, lift, modify.
  destruct (_ =? _); simpl; [|done]. destruct (normalize_simplex_eps v) as [w|e|]; simpl; [|done..].
  unfold feats_for. by destruct (m_matrix s).
Qed.

Lemma feats_for_fin_nn s w : matrix_valid s → Forall fvalid w →
  (Z.of_nat (length (get_active_feature_names s)) < 2 ^ 53)%Z →
  Forall fin_nn (default [] (m_feats s)) → Forall fin_nn (feats_for s w).
Proof.
  intros Hm HV Hd HF. unfold feats_for. destruct (m_matrix s) as [mx|] eqn:E.
  - apply align_Forall; [done|]. apply combine_fin_nn; [by eapply Hm|done|done].
  - by apply align_Forall.
Qed.

(** [apply_v_to_features]: an error leaves the state alone; otherwise the current
    vector is the normalised argument (in the unit cube, of the active dimension),
    and every site has a finite non-negative weight. *)
Theorem apply_v_to_features_spec v it s r s' :
  apply_v_to_features v it s = (r, s') →
  Forall fvalid v → matrix_valid s → (Z.of_nat (get_active_dim s) < 2 ^ 53)%Z →
  length (get_active_feature_names s) = get_active_dim s →
  Forall fin_nn (default [] (m_feats s)) →
  (r ≠ Ok () → s' = s) ∧
  (r = Ok () →
     ∃ w, normalize_simplex_eps v = Ok w ∧ get_current_weight_vec s' = w ∧
       length w = get_active_dim s ∧ Forall in_unit w ∧
       m_vector s' = Some (mkFeatureVector it w) ∧
       Forall fin_nn (default [] (m_feats s')) ∧
       (∀ mx, m_matrix s = Some mx → length (default [] (m_feats s')) = fmx_sites mx)).
Proof.
  intros Hrun HV Hm Hd Hn HF. rewrite apply_v_run in Hrun.
  destruct (Nat.eqb_spec (length v) (get_active_dim s)) as [Hl|Hl]; simpl in Hrun;
    [|by simplify_eq].
  destruct (normalize_simplex_eps v) as [w|e|] eqn:E; simplify_eq; [|done|done].
  split; [done|]. intros _. destruct (normalize_simplex_ok _ _ HV E) as (Hlw & Hu & _).
  exists w. split_and!; [done|done|lia|done|done| |].
  - change (Forall fin_nn (feats_for s w)). apply feats_for_fin_nn; [done| |by rewrite Hn|done].
    eapply Forall_impl; [exact Hu|]. intros x (Hx & _). by apply fnn_valid.
  - intros mx Hmx. change (length (feats_for s w) = fmx_sites mx).
    unfold feats_for. rewrite Hmx. apply align_length.
Qed.

(** ** Installing a mask *)

Lemma compute_active_length schema mask : length mask = length (sc_features schema) →
  length (compute_active_features schema mask) = count_true mask.
Proof.
  intros Hl. destruct (proj1 (project_vector_by_mask_spec (sc_features schema) mask)) as (v & Hv & Hlen & _);
    [done|]. unfold project_vector_by_mask in Hv. rewrite Hl, Nat.eqb_refl in Hv. simpl in Hv.
  injection Hv as <-. exact Hlen.
Qed.

Lemma forallb_negb_count mask : forallb negb mask = false → count_true mask ≠ 0.
Proof.
  intros H. rewrite <-set_indices_length. intros Hz%nil_length_inv.
  assert (forallb negb mask = true); [|congruence].
  apply forallb_forall. intros [] Hin%list_elem_of_In; [|done].
  apply list_elem_of_lookup in Hin as [i Hi]. apply set_indices_spec in Hi.
  rewrite Hz in Hi. by apply elem_of_nil in Hi.
Qed.

(** The state a committed mask leaves behind. *)
Record mask_installed (schema : FeatureSchemaFile) (mask : list bool) (s : State) : Prop := {
  mi_mask : get_vec_mask s = mask;
  mi_dim : get_active_dim s = count_true mask;
  mi_pos : get_active_dim s ≠ 0;
  mi_names : get_active_feature_names s = fs_name <$> compute_active_features schema mask;
  mi_schema : get_schema_features s = sc_features schema ∧ get_schema_version s = sc_schema_version schema;
  mi_cands : get_v_candidates s = [];
  mi_current : get_current_weight_vec s = [];
  mi_satisfied : get_tpe_satisfied s = true;
}.

Lemma install_committed_run schema mask s r s' :
  install_committed_runtime_mask schema mask s = (r, s') →
  (r = Ok () ∧ length mask = length (sc_features schema) ∧ count_true mask ≠ 0 ∧
     mask_installed schema mask s' ∧ m_history s' = m_history s ∧ m_mask s' = m_mask s ∧
     m_tpe s' = m_tpe s ∧ corpus s' = corpus s) ∨
  (∃ e, r = Err e ∧ s' = s ∧ ¬ (length mask = length (sc_features schema) ∧ count_true mask ≠ 0)).
Proof.
  unfold install_committed_runtime_mask.
  destruct (Nat.eqb_spec (length mask) (length (sc_features schema))) as [Hl|Hl]; cbn [negb].
  2: { intros [= <- <-]. right. eexists. split_and!; [done|done|tauto]. }
  destruct (forallb negb mask) eqn:Ea.
  { intros [= <- <-]. right. eexists. split_and!; [done|done|]. intros [_ Hc].
    rewrite <-set_indices_length in Hc. destruct (set_indices mask) as [|i l] eqn:Ei; [done|].
    assert (mask !! i = Some true) as Hi by (apply set_indices_spec; rewrite Ei; left).
    rewrite forallb_forall in Ea. apply list_elem_of_lookup_2, list_elem_of_In, Ea in Hi. done. }
  intros Hrun. left. pose proof (forallb_negb_count _ Ea) as Hc.
  pose proof (compute_active_length schema mask Hl) as Hlen.
  unfold bind, modify in Hrun. injection Hrun as <- <-. split_and!; [done..| | | | |].
  - split; try done.
    + by destruct (m_matrix s).
    + unfold get_active_dim, globals. destruct (m_matrix s); simpl; exact Hlen.
    + unfold get_active_dim, globals. destruct (m_matrix s); simpl; by rewrite Hlen.
    + by destruct (m_matrix s).
    + by destruct (m_matrix s).
    + unfold get_tpe_satisfied. simpl.
      destruct (compute_active_features schema mask); [simpl in Hlen; lia|done].
  - by destruct (m_matrix s).
  - by destruct (m_matrix s).
  - by destruct (m_matrix s).
  - by destruct (m_matrix s).
Qed.

(** ** Candidates *)

(** A candidate vector of the pool: of the active dimension, in the unit cube. *)
Definition candidate_ok (d : usize) (v : list f64) : Prop := length v = d ∧ Forall in_unit v.

Section CandidateFacts.
Context `{Env} `{Json} `{!JsonLaws _}.

Lemma check_candidates_ok d i l out : Forall (Forall fvalid) l →
  check_candidates d i l = Ok out → length out = length l ∧ Forall (candidate_ok d) out.
Proof.
  revert i out. induction l as [|c l IH]; intros i out HV; cbn [check_candidates].
  { intros [= <-]. split; [done|constructor]. }
  apply Forall_cons in HV as [Vc HV].
  destruct (Nat.eqb_spec (length c) d) as [Hl|]; [|done]. cbn [negb]. intros Hc. inv_ok.
  destruct (normalize_simplex_ok c a0 Vc) as (? & ? & _); [done|].
  destruct (IH (S i) a1 HV) as [? ?]; [done|].
  split; [simpl; lia|]. constructor; [|done]. split; [lia|done].
Qed.

Lemma open_read_ok {E} (f g : string → E) p s c s' : open_read f g p s = (Ok c, s') →
  files s !! path_display p = Some c ∧ globals s' = globals s.
Proof.
  unfold open_read. destruct (files s !! _) as [c'|]; [|done].
  destruct (io_fail (ticks s)); [done|]. destruct (io_fail (S (ticks s))); naive_solver.
Qed.

(** The outcome of [ensure_v_candidates_for]. *)
Lemma ensure_candidates_ok path d policy s st s' :
  ensure_v_candidates_for path d policy s = (Ok st, s') →
  Forall (candidate_ok d) (get_v_candidates s) →
  Forall (candidate_ok d) (get_v_candidates s') ∧
  (cs_loaded st = true → policy = AllowExternalFile ∧ get_v_candidates s = [] ∧
                         get_v_candidates s' ≠ []) ∧
  (policy = IgnoreExternalFile → s' = s) ∧
  (get_v_candidates s ≠ [] → s' = s).
Proof.
  intros Hrun HF. unfold ensure_v_candidates_for in Hrun. destruct policy.
  2: { unfold ret in Hrun. by simplify_eq. }
  apply bind_Ok_inv in Hrun as (cands & s0 & [= <- <-] & Hrun).
  destruct (get_v_candidates s) as [|c0 cs] eqn:Ec.
  2: { unfold ret in Hrun. simplify_eq. rewrite Ec. naive_solver. }
  destruct (_ <$> _) as [cand_path|].
  2: { unfold bind, modify, ret in Hrun. simplify_eq. split_and!; done || constructor. }
  apply bind_Ok_inv in Hrun as (ex & s0 & [= <- <-] & Hrun).
  case_bool_decide as Hex.
  2: { unfold bind, modify, ret in Hrun. simplify_eq. split_and!; done || constructor. }
  apply bind_Ok_inv in Hrun as (fc & s1 & Hload & Hrun).
  unfold with_err in Hload. destruct (load_candidates_from cand_path d s) as [r1 s1'] eqn:El.
  injection Hload as Hr Hs. apply map_err_Ok in Hr. subst r1 s1'.
  unfold load_candidates_from in El.
  apply bind_Ok_inv in El as (content & s2 & Hread & El).
  apply bind_Ok_inv in El as (arr & s3 & Harr & El). unfold lift in Harr.
  injection Harr as Harr <-. unfold from_sum in Harr.
  destruct (parse_candidates content) as [|arr'] eqn:Ep; [done|]. injection Harr as ->.
  destruct arr as [|a0 arr]; [done|]. unfold lift in El. injection El as El <-.
  destruct (check_candidates_ok d 0 (a0 :: arr) fc) as [Hl Hok];
    [by eapply parse_candidates_valid|done|].
  unfold bind, modify, ret in Hrun. injection Hrun as <- <-.
  split_and!; [exact Hok| |done|done].
  intros _. split_and!; [done|done|]. change (fc ≠ []). by destruct fc.
Qed.

(** Only the pool and the tick count change. *)
Definition pool_load (s s' : State) : Prop :=
  globals s' = (globals s) <| v_candidates := get_v_candidates s' |> ∧
  s' = s <| m_globals := m_globals s' |> <| ticks := ticks s' |>.

#[global] Instance pool_load_preorder : PreOrder pool_load.
Proof.
  split.
  - intros s. split; [by destruct s as [[[]|]]|by destruct s].
  - intros s1 s2 s3 [G1 E1] [G2 E2]. split.
    + rewrite G2, G1. done.
    + rewrite E2, E1. done.
Qed.

Lemma open_read_pool {E} (f g : string → E) p : keeps pool_load (open_read f g p).
Proof.
  intros s. assert (∀ k, pool_load s (s <| ticks := k |>)) as Hk.
  { intros k. split; [by destruct s as [[[]|]]|by destruct s]. }
  unfold open_read. repeat case_match; apply Hk.
Qed.

Lemma ensure_candidates_frame path d policy : keeps pool_load (ensure_v_candidates_for path d policy).
Proof.
  assert (∀ pool, keeps pool_load (modify (E := Msg) (replace_v_candidates pool))) as Hrep.
  { intros pool. apply keeps_modify. intros s. by split. }
  unfold ensure_v_candidates_for. destruct policy; [|apply keeps_ret, _].
  apply keeps_bind; [apply _|apply keeps_gets, _|]. intros [|c cs]; [|apply keeps_ret, _].
  destruct (_ <$> _) as [cand_path|].
  2: { apply keeps_bind; [apply _|apply Hrep|]. intros ?. apply keeps_ret, _. }
  apply keeps_bind; [apply _|apply keeps_gets, _|]. intros [|].
  2: { apply keeps_bind; [apply _|apply Hrep|]. intros ?. apply keeps_ret, _. }
  apply keeps_bind; [apply _| |].
  - intros s. unfold with_err.
    enough (keeps pool_load (load_candidates_from cand_path d)) as Hl.
    { specialize (Hl s). by destruct (load_candidates_from cand_path d s). }
    unfold load_candidates_from. apply keeps_bind; [apply _|apply open_read_pool|]. intros text.
    apply keeps_bind; [apply _|apply keeps_lift, _|]. intros [|c l]; [apply keeps_throw, _|apply keeps_lift, _].
  - intros fc. apply keeps_bind; [apply _|apply Hrep|]. intros ?. apply keeps_ret, _.
Qed.

(** The numbers of an accepted feature map are binary64 values. *)
Lemma as_f64_list_valid spec i l xs : as_f64_list spec i l = Ok xs → Forall fvalid xs.
Proof.
  revert i xs. induction l as [|v l IH]; intros i xs; cbn [as_f64_list]; [by intros [= <-]|].
  destruct (as_f64 v) as [x|] eqn:Ex; [|done]. cbn [ok_or obind].
  destruct (as_f64_list spec (S i) l) as [ys|e|] eqn:El; [|done|done]. intros [= <-].
  constructor; [by eapply as_f64_valid|by eapply IH].
Qed.

Lemma load_features_valid map specs acc r : load_features map specs acc = Ok r →
  map_valid acc.1 → map_valid r.1.
Proof.
  revert acc. induction specs as [|spec specs IH]; intros [m el]; cbn [load_features]; [by intros [= <-]|].
  intros Hl Hm. inv_ok. eapply IH; [done|]. unfold load_feature in *. inv_ok. simplify_eq. cbn [fst].
  intros name arr. destruct (decide (name = fs_name spec)) as [->|Hne].
  - rewrite lookup_insert_eq. intros [= <-].
    destruct (as_array _) as [vals|]; [|done]. by eapply as_f64_list_valid.
  - rewrite lookup_insert_ne by done. apply Hm.
Qed.

Lemma validate_map_valid map schema sites m : validate_feature_map map schema sites = Ok m → map_valid m.
Proof.
  unfold validate_feature_map. case_bool_decide; [done|]. intros Hv. inv_ok.
  match goal with Hl : load_features _ _ _ = Ok ?r |- _ =>
    assert (map_valid r.1) as Hm by (eapply load_features_valid; [exact Hl|]; intros ??; cbn [fst]; by rewrite lookup_empty) end.
  repeat case_match; naive_solver.
Qed.

(** Candidates that come from a file are non-empty and usable; a pool that was
    already filled, and the pool under the ignore policy, stay as they are. *)
Theorem ensure_v_candidates_spec path d policy s st s' :
  ensure_v_candidates_for path d policy s = (Ok st, s') →
  Forall (candidate_ok d) (get_v_candidates s) →
  Forall (candidate_ok d) (get_v_candidates s') ∧
  (cs_loaded st = true → policy = AllowExternalFile ∧ get_v_candidates s = [] ∧
                         get_v_candidates s' ≠ []) ∧
  (policy = IgnoreExternalFile → s' = s) ∧
  (get_v_candidates s ≠ [] → s' = s).
Proof. apply ensure_candidates_ok. Qed.
End CandidateFacts.

(** ** Round trip of the mask argument, and concrete inputs *)

(** Both ways of writing a mask on the command line, the bit string and the bracketed
    list, are read back as the mask, for every mask with an enabled feature. *)
Theorem parse_vec_mask_roundtrip mask : true ∈ mask →
  parse_vec_mask (mask_to_bitstring mask) (length mask) = Ok mask ∧
  parse_vec_mask (mask_to_list_arg mask) (length mask) = Ok mask.
Proof. intros Hm. split; [by apply parse_vec_mask_bitstring|by apply parse_vec_mask_list_arg]. Qed.

Lemma parse_vec_mask_roundtrip_witness :
  parse_vec_mask "101" 3 = Ok [true; false; true] ∧ parse_vec_mask "[1,0,1]" 3 = Ok [true; false; true].
Proof. apply (parse_vec_mask_roundtrip [true; false; true]). by left. Defined.

Lemma parse_vec_mask_sound_witness : length [true; false; true] = 3 ∧ true ∈ [true; false; true].
Proof. apply (parse_vec_mask_sound " 101 " 3). vm_compute. reflexivity. Defined.

Lemma normalize_simplex_eps_spec_witness :
  ∃ w, normalize_simplex_eps [f1; f0] = Ok w ∧ length w = 2 ∧ Forall in_unit w.
Proof.
  destruct (normalize_simplex_eps_spec [f1; f0]) as (_ & H & _); [repeat constructor|done|].
  eexists. split; [vm_compute; reflexivity|]. apply H. vm_compute. reflexivity.
Defined.

(** A parser for the witnesses: a value is a number or a list of numbers; the only number is 1,
    the map has two features over two sites, the candidate file holds one vector, and no
    schema parses. *)
Definition toy_json : Json := {|
  Value := list () + ();
  as_array := λ v, match v with inl l => Some (inr <$> l) | inr _ => None end;
  as_f64 := λ v, match v with inl _ => None | inr _ => Some f1 end;
  parse_schema := λ _, inl "no schema"%string;
  parse_map := λ _, inr {["loops" := inl [(); ()]; "calls" := inl [(); ()]]}%string;
  parse_candidates := λ _, inr [[f1; f1]];
|}.
#[global] Instance toy_json_laws : JsonLaws toy_json.
Proof.
  split.
  - intros [] x; [done|]. by intros [= <-].
  - intros s l [= <-]. repeat constructor.
Qed.

Definition demo_schema : FeatureSchemaFile :=
  mkSchema 4 [mkFeatureSpec "f0" "loops" None None; mkFeatureSpec "f1" "calls" None None].

Lemma validate_feature_map_sound_witness :
  ∃ m, validate_feature_map (H := toy_env) (H0 := toy_json)
         {["loops" := inl [(); ()]; "calls" := inl [(); ()]]}%string demo_schema 2 = Ok m ∧
    features_ok demo_schema 2 m.
Proof.
  eexists. split; [vm_compute; reflexivity|].
  eapply (validate_feature_map_sound (H := toy_env) (H0 := toy_json)
    {["loops" := inl [(); ()]; "calls" := inl [(); ()]]}%string demo_schema 2);
    [vm_compute; reflexivity|done].
Defined.

Definition demo_files : State :=
  (empty_state (RomuDuoJr.with_seed 1)) <| files := {["t_v_candidates.json" := "[[1,1]]"]}%string |>.

Lemma ensure_v_candidates_spec_witness :
  ∃ st s', ensure_v_candidates_for (H := toy_env) (H0 := toy_json) ["t_features_map.json"]%string 2
             AllowExternalFile demo_files = (Ok st, s') ∧
    cs_loaded st = true ∧ Forall (candidate_ok 2) (get_v_candidates s').
Proof.
  eexists _, _. split; [vm_compute; reflexivity|]. split; [done|].
  eapply (ensure_v_candidates_spec (H := toy_env) (H0 := toy_json) ["t_features_map.json"]%string 2
    AllowExternalFile demo_files); [vm_compute; reflexivity|]. constructor.
Defined.

(** A state with the two features of the schema, active, over three sites. *)
Definition demo_matrix : FeaturesMatrixMeta :=
  mkFeaturesMatrix {["loops" := [f1; f0; f1]; "calls" := [f0; f1; f1]]}%string 3.
Definition demo_state : State :=
  (set_schema_info 4 (sc_features demo_schema) [true; true] (sc_features demo_schema)
     (empty_state (RomuDuoJr.with_seed 1))) <| m_matrix := Some demo_matrix |>.

Lemma demo_matrix_valid : map_valid (fmx_matrix demo_matrix).
Proof.
  intros name arr Hl. cbn in Hl. apply lookup_insert_Some in Hl as [[_ <-]|[_ Hl]].
  - repeat constructor.
  - apply lookup_singleton_Some in Hl as [_ <-]. repeat constructor.
Qed.

Lemma apply_v_to_features_spec_witness :
  ∃ s', apply_v_to_features [f1; f1] 1 demo_state = (Ok (), s') ∧
    length (default [] (m_feats s')) = 3 ∧ Forall in_unit (get_current_weight_vec s').
Proof.
  eexists. split; [vm_compute; reflexivity|].
  edestruct (apply_v_to_features_spec [f1; f1] 1 demo_state) as [_ H];
    [vm_compute; reflexivity|repeat constructor| |done|done|constructor|].
  - intros mx [= <-]. exact demo_matrix_valid.
  - destruct (H eq_refl) as (w & _ & -> & _ & HU & _ & _ & Hl). split; [|done].
    exact (Hl demo_matrix eq_refl).
Defined.
