(* ===== verification/Factor.v ===== *)
(** * Factor: weight statistics and the feature factor

    [feature_sched/stats.rs] (Welford's running mean and variance) and
    [compute_factor] of [feature_sched/factor.rs]. *)

From Stdlib Require Import ZArith Lia.
From S2P Require Import Prelude Float64 FloatFacts Rands Metadata State.

Definition stats_update (w : f64) (st : WeightStats) : WeightStats :=
  let n := wrap64 (ws_n st + 1) in
  let delta := fsub w (ws_mu st) in
  let mu := fadd (ws_mu st) (fdiv delta (of_Z n)) in
  let m2 := fadd (ws_m2 st) (fmul delta (fsub w mu)) in
  mkWeightStats n mu m2.

Definition stats_sigma (st : WeightStats) : f64 :=
  if (1 <? ws_n st)%Z then fsqrt (fdiv (ws_m2 st) (of_Z (ws_n st - 1))) else f_1e_9.

(** The weight of a testcase in the current mode. *)
Definition weight_mode (s : State) : WeightComputeMode :=
  default WeightComputeMode_default (m_weight_mode s).

Definition entry_weight (mode : WeightComputeMode) (entry : Testcase) : option f64 :=
  match mode with
  | Frontier => tfw_weight <$> tc_feature_weight entry
  | Path => tc_path_weight entry
  end.

Section Factor.
Context `{Libm}.

Definition raw_factor (params : FactorParams) (st : WeightStats) (w : f64) : f64 :=
  let z := fdiv (fsub w (ws_mu st)) (fadd (stats_sigma st) f_1e_9) in
  let raw_g := if fp_use_tanh params then fadd f1 (ftanh (fmul (fp_beta params) z))
               else fexp (fmul (fp_beta params) z) in
  if is_finite raw_g then raw_g else f1.

Definition compute_factor (params : FactorParams) (s : State) (entry : Testcase) :
    outcome Error f64 :=
  if negb (get_features_enabled s) then Ok f1
  else match m_stats s with
  | None => Ok f1
  | Some st =>
    match entry_weight (weight_mode s) entry with
    | None => Ok f1
    | Some w =>
      if (ws_n st <? 2)%Z then Ok f1
      else
        let raw_g := raw_factor params st w in
        let blended := fadd f1 (fmul (fp_alpha params) (fsub raw_g f1)) in
        clamp blended (fp_gmin params) (fp_gmax params)
    end
  end.

(** ** Facts *)

Definition stats_valid (st : WeightStats) : Prop := fvalid (ws_mu st) ∧ fvalid (ws_m2 st).

Lemma stats_update_valid w st : fvalid w → stats_valid st → stats_valid (stats_update w st).
Proof. intros Hw [Hm H2]. split; simpl; auto 8 with f64. Qed.

Lemma stats_fold_n ws st :
  (0 ≤ ws_n st)%Z → (ws_n st + Z.of_nat (length ws) ≤ u64_max)%Z →
  ws_n (foldl (λ st w, stats_update w st) st ws) = (ws_n st + Z.of_nat (length ws))%Z.
Proof.
  revert st. induction ws as [|w ws IH]; intros st H0 Hn; simpl in *; [lia|].
  assert (wrap64 (ws_n st + 1) = ws_n st + 1)%Z as Hw by (apply wrap64_small; unfold is_u64; lia).
  rewrite IH; simpl; rewrite Hw; lia.
Qed.

Context `{!LibmLaws _}.

Lemma sigma_valid st : stats_valid st → fvalid (stats_sigma st).
Proof. intros [_ H2]. unfold stats_sigma. destruct (1 <? ws_n st)%Z; [auto with f64|done]. Qed.

(** The raw factor is finite and not negative. *)
Lemma raw_factor_fnn params st w : stats_valid st → fvalid w → fvalid (fp_beta params) →
  fnn (raw_factor params st w) ∧ is_finite (raw_factor params st w) = true.
Proof.
  intros Hst Hw Hb. unfold raw_factor. cbv zeta. set (x := fmul (fp_beta params) _).
  assert (fvalid x) as Hx.
  { apply fmul_valid; [done|]. destruct Hst as [Hm H2].
    apply fdiv_valid; [auto with f64|]. apply fadd_valid; [by apply sigma_valid|done]. }
  destruct (fp_use_tanh params).
  - destruct (is_finite (fadd f1 (ftanh x))) eqn:F; [|done]. split; [|done].
    apply one_plus_fnn; [by apply ftanh_valid|]. apply ftanh_lower; [done|].
    destruct (ftanh x); done.
  - destruct (is_finite (fexp x)) eqn:F; [|done]. split; [|done].
    apply fnn_guard; [by apply fexp_valid| |by apply fexp_nonneg]. by destruct (fexp x).
Qed.

Lemma blended_not_nan alpha raw : is_finite alpha = true → fnn raw → is_finite raw = true →
  is_nan (fadd f1 (fmul alpha (fsub raw f1))) = false.
Proof.
  intros Ha Hr Fr. apply fadd_not_nan; [done|]. apply fmul_not_nan; [done|].
  by apply fsub_fin.
Qed.

(** Whether the factor depends on the testcase's weight: the features are enabled, the
    statistics cover at least two testcases, and the testcase has a weight. *)
Definition factor_live (s : State) (entry : Testcase) : bool :=
  get_features_enabled s &&
  match m_stats s, entry_weight (weight_mode s) entry with
  | Some st, Some _ => negb (ws_n st <? 2)%Z
  | _, _ => false
  end.

Lemma compute_factor_cases params s entry :
  is_finite (fp_alpha params) = true → fvalid (fp_beta params) →
  (∀ st, m_stats s = Some st → stats_valid st) →
  (∀ w, entry_weight (weight_mode s) entry = Some w → fvalid w) →
  (factor_live s entry = false → compute_factor params s entry = Ok f1) ∧
  (factor_live s entry = true → fle (fp_gmin params) (fp_gmax params) = true →
     ∃ r, compute_factor params s entry = Ok r ∧
       fle (fp_gmin params) r = true ∧ fle r (fp_gmax params) = true) ∧
  (factor_live s entry = true → fle (fp_gmin params) (fp_gmax params) = false →
     compute_factor params s entry = Panic).
Proof.
  intros Ha Hb Hst Hw. unfold factor_live, compute_factor.
  destruct (get_features_enabled s); cbn [negb andb]; [|done].
  destruct (m_stats s) as [st|]; [|done]. destruct (entry_weight _ entry) as [w|]; [|done].
  destruct (ws_n st <? 2)%Z; cbn [negb]; [done|]. split_and!; [done| |].
  - intros _ Hg. destruct (raw_factor_fnn params st w) as [Hr Fr]; [by apply Hst|by apply Hw|done|].
    destruct (clamp_ok (E := Error) (fadd f1 (fmul (fp_alpha params) (fsub (raw_factor params st w) f1)))
      _ _ Hg) as [r Hc].
    exists r. split; [done|]. eapply clamp_bounds; [|exact Hc]. by apply blended_not_nan.
  - intros _ Hg. unfold clamp. by rewrite Hg.
Qed.

(** With a finite [alpha] and [gmin <= gmax] the factor never panics, and is [1.0]
    or lies between the bounds. *)
Lemma compute_factor_ok params s entry :
  fle (fp_gmin params) (fp_gmax params) = true → is_finite (fp_alpha params) = true →
  fvalid (fp_beta params) →
  (∀ st, m_stats s = Some st → stats_valid st) →
  (∀ w, entry_weight (weight_mode s) entry = Some w → fvalid w) →
  ∃ r, compute_factor params s entry = Ok r ∧
    (r = f1 ∨ (fle (fp_gmin params) r = true ∧ fle r (fp_gmax params) = true)).
Proof.
  intros Hg Ha Hb Hst Hw. destruct (compute_factor_cases params s entry Ha Hb Hst Hw) as (H1 & H2 & _).
  destruct (factor_live s entry); [|by eauto]. destruct H2 as (r & ? & ?); eauto.
Qed.

(** C38. The multiplier of a testcase's energy: it is 1 when the features are off, when fewer than
    two testcases have been weighed, or when the testcase has no weight; otherwise it lies in
    [gmin, gmax].  The command line does not check [gmin <= gmax]: with the bounds swapped the
    same call panics. *)
Theorem compute_factor_exact params s entry :
  is_finite (fp_alpha params) = true → fvalid (fp_beta params) →
  (∀ st, m_stats s = Some st → stats_valid st) →
  (∀ w, entry_weight (weight_mode s) entry = Some w → fvalid w) →
  (factor_live s entry = false → compute_factor params s entry = Ok f1) ∧
  (factor_live s entry = true → fle (fp_gmin params) (fp_gmax params) = true →
     ∃ r, compute_factor params s entry = Ok r ∧
       fle (fp_gmin params) r = true ∧ fle r (fp_gmax params) = true) ∧
  (factor_live s entry = true → fle (fp_gmin params) (fp_gmax params) = false →
     compute_factor params s entry = Panic).
Proof. apply compute_factor_cases. Qed.
End Factor.

(** The smallest concrete instance of the floating-point library: total functions
    that satisfy the laws (the identity-like choices are enough for witnesses). *)
Definition toy_libm : Libm := mkLibm (λ _, f1) (λ _, f0) (λ _, f0) (λ _, f1) (λ _ _, f1) (λ _, f0) (λ _, f0).
#[global] Instance toy_libm_laws : LibmLaws toy_libm.
Proof. by split. Qed.

(** Two testcases of mean weight 1 have been weighed; the third weighs 2. *)
Definition demo_weighed : State :=
  (set_feat_exists true (set_features_active true (empty_state (RomuDuoJr.with_seed 1))))
    <| m_stats := Some (mkWeightStats 2 f1 f_half) |> <| m_weight_mode := Some Path |>.
Definition demo_entry : Testcase := (Testcase_new []) <| tc_path_weight := Some f2 |>.

Lemma compute_factor_exact_witness :
  ∃ r, compute_factor (H := toy_libm) FactorParams_default demo_weighed demo_entry = Ok r ∧
    fle (fp_gmin FactorParams_default) r = true ∧ fle r (fp_gmax FactorParams_default) = true.
Proof.
  destruct (compute_factor_exact (H := toy_libm) FactorParams_default demo_weighed demo_entry)
    as (_ & H & _); [done|done|by intros st [= <-]|by intros w [= <-]|].
  apply H; vm_compute; reflexivity.
Defined.
