(* ===== verification/WeightRefresh.v ===== *)
(** * WeightRefresh: [feature_sched/weight_refresh.rs]

    A snapshot of the corpus and the frontier, the weights a worker thread computes
    from it, and the publication of the result: the weight and the factor of every
    testcase and the global statistics. *)

From Stdlib Require Import ZArith Lia.
From S2P Require Import Prelude Float64 FloatFacts Corpus Metadata State FrontierSets MaskSelection FeaturesMap Factor.

Record FrontierSnapshot := mkFrontierSnapshot {
  fsn_f_prev : list bool;
  fsn_f_next : list bool;
  fsn_successors : list (list usize);
}.

Record TestcaseSnapshot := mkTestcaseSnapshot {
  ts_corpus_id : CorpusId;
  ts_covered_sancov : list usize;
}.

Record CorpusWeightSnapshot := mkWeightSnapshot {
  cw_iteration : u64;
  cw_mode : WeightComputeMode;
  cw_feature_weights_by_sancov : list f64;
  cw_frontier : option FrontierSnapshot;
  cw_testcases : list TestcaseSnapshot;
}.

Record TestcaseWeightResult := mkWeightResult { tw_corpus_id : CorpusId; tw_weight : f64 }.

Record WeightRecomputeResult := mkRecomputeResult {
  rr_iteration : u64;
  rr_mode : WeightComputeMode;
  rr_per_testcase : list TestcaseWeightResult;
}.

(** [state.corpus().get(id)?.borrow()] and a read of the testcase. *)
Definition read_testcase (id : CorpusId) : M State Testcase := λ s,
  (InMemory.get id (corpus s), s).

(** [state.corpus().get(id)?.borrow_mut()] and a change of the testcase. *)
Definition change_testcase (id : CorpusId) (f : Testcase → Testcase) : M State () := λ s,
  match InMemory.update id f (corpus s) with
  | Ok c => (Ok (), s <| corpus := c |>)
  | Err e => (Err e, s)
  | Panic => (Panic, s)
  end.

Definition build_corpus_weight_snapshot (s : State) (iteration : u64) (mode : WeightComputeMode)
    (feature_weights : list f64) : outcome Error CorpusWeightSnapshot :=
  let frontier :=
    match mode with
    | Frontier =>
      match m_frontier s, m_acfg s with
      | Some fm, Some acfg => Some (mkFrontierSnapshot (f_prev fm) (f_next fm) (successors acfg))
      | _, _ => None
      end
    | Path => None
    end in
  let? testcases :=
    mapM (λ id, let? tc := InMemory.get id (corpus s) in
                Ok (mkTestcaseSnapshot id (default [] (tc_sancov tc))))
      (InMemory.ids (corpus s)) in
  Ok (mkWeightSnapshot iteration mode feature_weights frontier testcases).

Definition weight_at (feature_weights : list f64) (i : usize) : f64 :=
  default f0 (feature_weights !! i).

Definition path_weight (feature_weights : list f64) (cov : list usize) : f64 :=
  fsum (filter (λ w, is_finite w && flt f0 w = true) (weight_at feature_weights <$> cov)).

(** The frontier nodes reachable in one step, as the [HashSet] collects them. *)
Definition next_seen (fr : FrontierSnapshot) (cov : list usize) : gset usize :=
  list_to_set
    (filter (λ succ, bitset_get (fsn_f_next fr) succ = true)
       (cov ≫= λ node, default [] (fsn_successors fr !! node))).

Section Weights.
Context `{Env}.

Definition frontier_weight (feature_weights : list f64) (fr : FrontierSnapshot)
    (cov : list usize) : f64 :=
  let total := foldl (λ total node,
      if bitset_get (fsn_f_prev fr) node then
        fadd total (fmax (weight_at feature_weights node) f0)
      else total) f0 cov in
  let total := foldl (λ total node, fadd total (fmax (weight_at feature_weights node) f0))
                 total (hash_order (elements (next_seen fr cov))) in
  if is_finite total then total else f0.

Definition compute_weights (snapshot : CorpusWeightSnapshot) : WeightRecomputeResult :=
  let weigh tc :=
    mkWeightResult (ts_corpus_id tc)
      match cw_mode snapshot with
      | Path => path_weight (cw_feature_weights_by_sancov snapshot) (ts_covered_sancov tc)
      | Frontier =>
        match cw_frontier snapshot with
        | Some fr => frontier_weight (cw_feature_weights_by_sancov snapshot) fr (ts_covered_sancov tc)
        | None => f0
        end
      end in
  mkRecomputeResult (cw_iteration snapshot) (cw_mode snapshot) (weigh <$> cw_testcases snapshot).

Definition set_weight (result : WeightRecomputeResult) (item : TestcaseWeightResult)
    (tc : Testcase) : Testcase :=
  match rr_mode result with
  | Frontier => tc <| tc_feature_weight :=
      Some (mkTestcaseFeatureWeight (rr_iteration result) (tw_weight item) (rr_mode result)) |>
  | Path => tc <| tc_path_weight := Some (tw_weight item) |>
  end.

Fixpoint publish_weights (result : WeightRecomputeResult) (items : list TestcaseWeightResult)
    (stats : WeightStats) : M State WeightStats :=
  match items with
  | [] => ret stats
  | item :: items =>
    change_testcase (tw_corpus_id item) (set_weight result item) ;;;
    publish_weights result items (stats_update (tw_weight item) stats)
  end.

Context `{Libm}.

Fixpoint publish_factors (params : FactorParams) (items : list TestcaseWeightResult) : M State () :=
  match items with
  | [] => ret ()
  | item :: items =>
    entry <- read_testcase (tw_corpus_id item) ;;
    s <- gets (λ s, s) ;;
    factor <- lift (compute_factor params s entry) ;;
    change_testcase (tw_corpus_id item) (λ tc, tc <| tc_perf_mult := Some factor |>) ;;;
    publish_factors params items
  end.

Definition publish_weight_recompute_result (result : WeightRecomputeResult) : M State () :=
  stats <- publish_weights result (rr_per_testcase result) WeightStats_default ;;
  modify (λ s, s <| m_stats := Some stats |>) ;;;
  params <- gets get_factor_params ;;
  publish_factors params (rr_per_testcase result).

(** ** Weights are non-negative *)

Lemma path_weight_fnn fw cov : Forall fvalid fw → fnn (path_weight fw cov).
Proof.
  intros HV. unfold path_weight, fsum. apply fold_fadd_fnn; [apply fneg0_fnn|].
  apply Forall_forall. intros w [Hw (i & -> & _)%list_elem_of_fmap]%list_elem_of_filter.
  apply andb_true_iff in Hw as [F P].
  assert (fvalid (weight_at fw i)).
  { unfold weight_at. destruct (fw !! i) as [x|] eqn:E; simpl; [|done].
    rewrite Forall_lookup in HV. by eapply HV. }
  split; [done|]. by destruct (weight_at fw i) as [|[]| |[]].
Qed.

Lemma weight_at_max_fnn fw i : Forall fvalid fw → fnn (fmax (weight_at fw i) f0).
Proof.
  intros HV. apply fnn_max0. unfold weight_at. destruct (fw !! i) as [x|] eqn:E; simpl; [|done].
  rewrite Forall_lookup in HV. by eapply HV.
Qed.

Lemma fold_cond_fnn (b : nat → bool) (f : nat → f64) l acc : fnn acc → (∀ i, fnn (f i)) →
  fnn (foldl (λ total node, if b node then fadd total (f node) else total) acc l).
Proof.
  intros Ha Hf. revert acc Ha. induction l as [|i l IH]; intros acc Ha; simpl; [done|].
  apply IH. destruct (b i); [by apply fadd_fnn|done].
Qed.

Lemma frontier_weight_fin fw fr cov : Forall fvalid fw → fin_nn (frontier_weight fw fr cov).
Proof.
  intros HV. unfold frontier_weight. cbv zeta.
  set (t := foldl _ _ (hash_order _)).
  assert (fnn t) as Ht.
  { unfold t. apply (fold_cond_fnn (λ _, true)); [|intros; by apply weight_at_max_fnn].
    apply fold_cond_fnn; [done|intros; by apply weight_at_max_fnn]. }
  destruct (is_finite t) eqn:F; [by split|done].
Qed.

(** The worker returns one weight per testcase of the snapshot, in order, none of
    them negative or NaN, and all finite in the frontier mode. *)
Lemma compute_weights_spec snapshot :
  Forall fvalid (cw_feature_weights_by_sancov snapshot) →
  let r := compute_weights snapshot in
  rr_iteration r = cw_iteration snapshot ∧ rr_mode r = cw_mode snapshot ∧
  (tw_corpus_id <$> rr_per_testcase r) = (ts_corpus_id <$> cw_testcases snapshot) ∧
  Forall (λ t, fnn (tw_weight t) ∧ (rr_mode r = Frontier → is_finite (tw_weight t) = true))
    (rr_per_testcase r).
Proof.
  intros HV. cbv zeta. split_and!; [done|done| |].
  - simpl. rewrite <-list_fmap_compose. done.
  - simpl. apply Forall_fmap, Forall_true. intros tc. simpl.
    destruct (cw_mode snapshot).
    + destruct (cw_frontier snapshot) as [fr|]; [|done].
      destruct (frontier_weight_fin (cw_feature_weights_by_sancov snapshot) fr
                  (ts_covered_sancov tc) HV). done.
    + split; [by apply path_weight_fnn|done].
Qed.

Lemma in_next_seen fr cov v :
  v ∈ next_seen fr cov ↔
  bitset_get (fsn_f_next fr) v = true ∧
  ∃ node, node ∈ cov ∧ v ∈ default [] (fsn_successors fr !! node).
Proof.
  unfold next_seen. rewrite elem_of_list_to_set, list_elem_of_filter, list_elem_of_bind.
  naive_solver.
Qed.

(** A testcase that touches no frontier node has weight zero. *)
Theorem frontier_weight_zero `{!EnvLaws _} fw fr cov :
  (∀ node, node ∈ cov → bitset_get (fsn_f_prev fr) node = false) →
  (∀ node v, node ∈ cov → v ∈ default [] (fsn_successors fr !! node) →
     bitset_get (fsn_f_next fr) v = false) →
  frontier_weight fw fr cov = f0.
Proof.
  intros Hp Hn. unfold frontier_weight. cbv zeta.
  assert (next_seen fr cov = ∅) as ->.
  { apply elem_of_equiv_empty_L. intros v (Hv & node & Hnode & Hs)%in_next_seen.
    rewrite (Hn node v) in Hv; done. }
  rewrite elements_empty.
  assert (hash_order (@nil nat) = []) as -> by apply Permutation_nil, symmetry, hash_order_perm.
  simpl. assert (∀ acc l, (∀ node, node ∈ l → bitset_get (fsn_f_prev fr) node = false) →
    foldl (λ total node, if bitset_get (fsn_f_prev fr) node then
             fadd total (fmax (weight_at fw node) f0) else total) acc l = acc) as Hfold.
  { intros acc l. revert acc. induction l as [|x l IH]; intros acc Hl; simpl; [done|].
    rewrite (Hl x) by left. apply IH. intros node ?. apply Hl. by right. }
  by rewrite Hfold.
Qed.
End Weights.

(** ** Publication *)

Import InMemoryFacts.

Section Publish.
Context `{Env} `{Libm} `{!LibmLaws _}.

(** [s'] differs from [s] only in testcases, and its corpus has the same ids. *)
Definition same_ids (s s' : State) : Prop :=
  s' = s <| corpus := corpus s' |> ∧ (cwf (corpus s) → cwf (corpus s')) ∧
  (cwf (corpus s) → InMemory.ids (corpus s') = InMemory.ids (corpus s)).

#[global] Instance same_ids_preorder : PreOrder same_ids.
Proof.
  split.
  - intros s. split; [by destruct s|done].
  - intros s1 s2 s3 (E1 & W1 & I1) (E2 & W2 & I2). split_and!; [|naive_solver|].
    + rewrite E2, E1. done.
    + intros C. rewrite I2 by auto. by apply I1.
Qed.

Lemma change_testcase_ok id f s tc : tc_at (corpus s) id = Some tc →
  ∃ s', change_testcase id f s = (Ok (), s') ∧ same_ids s s' ∧
    ∀ x, tc_at (corpus s') x = if decide (x = id) then Some (f tc) else tc_at (corpus s) x.
Proof.
  intros Htc. unfold change_testcase.
  destruct (update_ok (corpus s) id f tc Htc) as (c' & -> & Hw & Hi & _ & Hl).
  eexists. split; [done|]. by split_and!.
Qed.

Lemma publish_weights_ok result items stats s :
  NoDup (tw_corpus_id <$> items) →
  Forall (λ i, is_Some (tc_at (corpus s) (tw_corpus_id i))) items →
  ∃ s', publish_weights result items stats s
          = (Ok (foldl (λ st i, stats_update (tw_weight i) st) stats items), s') ∧
    same_ids s s' ∧
    (∀ x, x ∉ (tw_corpus_id <$> items) → tc_at (corpus s') x = tc_at (corpus s) x) ∧
    (∀ i, i ∈ items → ∃ tc, tc_at (corpus s) (tw_corpus_id i) = Some tc ∧
            tc_at (corpus s') (tw_corpus_id i) = Some (set_weight result i tc)).
Proof.
  revert stats s. induction items as [|i items IH]; intros stats s Hnd HF; simpl.
  { exists s. split_and!; [done|reflexivity|done|]. intros i Hi. by apply elem_of_nil in Hi. }
  apply NoDup_cons in Hnd as [Hni Hnd]. apply Forall_cons in HF as [[tc Htc] HF].
  destruct (change_testcase_ok _ (set_weight result i) s tc Htc) as (s1 & Hrun & Hsame & Hl).
  unfold bind. rewrite Hrun.
  assert (∀ x, x ≠ tw_corpus_id i → tc_at (corpus s1) x = tc_at (corpus s) x) as Hne
    by (intros x Hx; by rewrite Hl, decide_False).
  destruct (IH (stats_update (tw_weight i) stats) s1) as (s2 & -> & Hsame2 & Hout & Hin); [done|..].
  { eapply Forall_impl; [exact HF|]. intros j [tcj Hj]. rewrite Hl. case_decide; eauto. }
  exists s2. split_and!; [done|by etrans|..].
  - intros x [Hx Hx']%not_elem_of_cons. by rewrite Hout, Hne.
  - intros j [->|Hj]%elem_of_cons.
    + exists tc. split; [done|]. by rewrite Hout, Hl, decide_True by done.
    + destruct (Hin j Hj) as (tcj & Hj1 & Hj2). exists tcj. split; [|done].
      rewrite <-Hne; [done|]. intros Heq. apply Hni. rewrite <-Heq. by apply list_elem_of_fmap_2.
Qed.

Lemma publish_factors_ok params items s (f : nat → f64) :
  NoDup (tw_corpus_id <$> items) →
  (∀ i, i ∈ items → ∃ tc, tc_at (corpus s) (tw_corpus_id i) = Some tc ∧
     compute_factor params s tc = Ok (f (tw_corpus_id i))) →
  ∃ s', publish_factors params items s = (Ok (), s') ∧ same_ids s s' ∧
    (∀ x, x ∉ (tw_corpus_id <$> items) → tc_at (corpus s') x = tc_at (corpus s) x) ∧
    (∀ i, i ∈ items → ∃ tc, tc_at (corpus s) (tw_corpus_id i) = Some tc ∧
       tc_at (corpus s') (tw_corpus_id i) = Some (tc <| tc_perf_mult := Some (f (tw_corpus_id i)) |>)).
Proof.
  revert s. induction items as [|i items IH]; intros s Hnd HF; simpl.
  { exists s. split_and!; [done|reflexivity|done|]. intros i Hi. by apply elem_of_nil in Hi. }
  apply NoDup_cons in Hnd as [Hni Hnd]. destruct (HF i) as (tc & Htc & Hf); [left|].
  unfold bind, read_testcase. apply get_tc_at in Htc as Hg. rewrite Hg. unfold gets, lift. rewrite Hf.
  destruct (change_testcase_ok _ (λ tc, tc <| tc_perf_mult := Some (f (tw_corpus_id i)) |>) s tc Htc)
    as (s1 & -> & Hsame & Hl).
  assert (∀ x, x ≠ tw_corpus_id i → tc_at (corpus s1) x = tc_at (corpus s) x) as Hne
    by (intros x Hx; by rewrite Hl, decide_False).
  assert (∀ j, j ∈ items → tw_corpus_id j ≠ tw_corpus_id i) as Hji.
  { intros j Hj Heq. apply Hni. rewrite <-Heq. by apply list_elem_of_fmap_2. }
  destruct (IH s1 Hnd) as (s2 & -> & Hsame2 & Hout & Hin).
  { intros j Hj. destruct (HF j) as (tcj & Hj1 & Hj2); [by right|]. exists tcj.
    rewrite Hne by auto. split; [done|]. destruct Hsame as [-> _]. exact Hj2. }
  exists s2. split_and!; [done|by etrans|..].
  - intros x [Hx Hx']%not_elem_of_cons. by rewrite Hout, Hne.
  - intros j [->|Hj]%elem_of_cons.
    + exists tc. split; [done|]. by rewrite Hout, Hl, decide_True by done.
    + destruct (Hin j Hj) as (tcj & Hj1 & Hj2). exists tcj. split; [|done].
      by rewrite <-Hne by auto.
Qed.

(** Parameters the command line is meant to give. *)
Record params_ok (p : FactorParams) : Prop := {
  pk_bounds : fle (fp_gmin p) (fp_gmax p) = true;
  pk_alpha : is_finite (fp_alpha p) = true;
  pk_beta : fvalid (fp_beta p);
}.

Definition weights_valid (tc : Testcase) : Prop :=
  (∀ w, tc_path_weight tc = Some w → fvalid w) ∧
  (∀ w, tc_feature_weight tc = Some w → fvalid (tfw_weight w)).

Lemma entry_weight_valid mode tc w : weights_valid tc → entry_weight mode tc = Some w → fvalid w.
Proof.
  intros [Hp Hf]. destruct mode; simpl; [|apply Hp].
  destruct (tc_feature_weight tc) as [x|] eqn:E; [|done]. intros [= <-]. by apply Hf.
Qed.

Lemma set_weight_valid result i tc : fvalid (tw_weight i) → weights_valid tc →
  weights_valid (set_weight result i tc).
Proof.
  intros Hw [Hp Hf]. unfold set_weight. destruct (rr_mode result); split; simpl; intros w.
  - apply Hp.
  - by intros [= <-].
  - by intros [= <-].
  - apply Hf.
Qed.

Lemma stats_fold_valid (l : list TestcaseWeightResult) st :
  Forall (λ i, fvalid (tw_weight i)) l → stats_valid st →
  stats_valid (foldl (λ st i, stats_update (tw_weight i) st) st l).
Proof.
  revert st. induction l as [|i l IH]; intros st HF Hst; simpl; [done|].
  apply Forall_cons in HF as [Hi HF]. apply IH; [done|]. by apply stats_update_valid.
Qed.

(** The factor a testcase ends with. *)
Definition factor_in_bounds (p : FactorParams) (f : f64) : Prop :=
  f = f1 ∨ (fle (fp_gmin p) f = true ∧ fle f (fp_gmax p) = true).

(** Publication of a result for entries of the corpus succeeds: each of them gets
    its weight and a factor within the bounds (computed from the new statistics),
    no other testcase changes, and the ids of the corpus stay the same. *)
Lemma publish_ok result s :
  cwf (corpus s) → params_ok (get_factor_params s) →
  NoDup (tw_corpus_id <$> rr_per_testcase result) →
  Forall (λ i, tw_corpus_id i ∈ InMemory.ids (corpus s) ∧ fvalid (tw_weight i))
    (rr_per_testcase result) →
  (∀ id tc, tc_at (corpus s) id = Some tc → weights_valid tc) →
  ∃ s', publish_weight_recompute_result result s = (Ok (), s') ∧
    cwf (corpus s') ∧ InMemory.ids (corpus s') = InMemory.ids (corpus s) ∧
    (∃ st, m_stats s' = Some st ∧
       st = foldl (λ st i, stats_update (tw_weight i) st) WeightStats_default (rr_per_testcase result)) ∧
    s' = s <| m_stats := m_stats s' |> <| corpus := corpus s' |> ∧
    (∀ x, x ∉ (tw_corpus_id <$> rr_per_testcase result) → tc_at (corpus s') x = tc_at (corpus s) x) ∧
    (∀ i, i ∈ rr_per_testcase result → ∃ tc f,
       tc_at (corpus s) (tw_corpus_id i) = Some tc ∧
       tc_at (corpus s') (tw_corpus_id i)
         = Some ((set_weight result i tc) <| tc_perf_mult := Some f |>) ∧
       factor_in_bounds (get_factor_params s) f).
Proof.
  intros C Hp Hnd HF Hwv. set (items := rr_per_testcase result) in *.
  destruct (publish_weights_ok result items WeightStats_default s Hnd) as (s1 & Hr1 & (E1 & W1 & I1) & Hout1 & Hin1).
  { eapply Forall_impl; [exact HF|]. intros i [Hi _]. by apply tc_at_ids. }
  unfold publish_weight_recompute_result. unfold bind at 1. fold items. rewrite Hr1.
  set (stats := foldl _ WeightStats_default items).
  set (s2 := s1 <| m_stats := Some stats |>).
  assert (stats_valid stats) as Hstats.
  { apply stats_fold_valid; [|done]. eapply Forall_impl; [exact HF|]. by intros i [_ ?]. }
  assert (get_factor_params s2 = get_factor_params s) as Hparams by (unfold s2; rewrite E1; done).
  assert (∀ i, i ∈ items → ∃ tc, tc_at (corpus s) (tw_corpus_id i) = Some tc ∧
            tc_at (corpus s2) (tw_corpus_id i) = Some (set_weight result i tc) ∧
            ∃ r, compute_factor (get_factor_params s) s2 (set_weight result i tc) = Ok r ∧
                 factor_in_bounds (get_factor_params s) r) as Hall.
  { intros i Hi. destruct (Hin1 i Hi) as (tc & Ht1 & Ht2). exists tc. split_and!; [done|done|].
    destruct Hp as [Hb Ha Hbe]. apply compute_factor_ok; [done|done|done| |].
    - intros st [= <-]. exact Hstats.
    - intros w Hw. eapply entry_weight_valid; [|exact Hw].
      apply set_weight_valid; [|by eapply Hwv]. rewrite Forall_forall in HF. by apply HF. }
  set (f := λ id, match tc_at (corpus s2) id with
                  | Some tc => default f1 (ok_or_none (compute_factor (get_factor_params s) s2 tc))
                  | None => f1 end).
  destruct (publish_factors_ok (get_factor_params s) items s2 f Hnd) as (s3 & Hr3 & (E3 & W3 & I3) & Hout3 & Hin3).
  { intros i Hi. destruct (Hall i Hi) as (tc & _ & Ht2 & r & Hr & _).
    exists (set_weight result i tc). split; [done|]. unfold f. by rewrite Ht2, Hr. }
  exists s3. unfold bind, modify, gets. fold s2. rewrite Hparams, Hr3.
  split_and!; [done|naive_solver| |exists stats; split; [by rewrite E3|done]| | |].
  - rewrite I3 by (by apply W1). by apply I1.
  - rewrite E3. unfold s2. rewrite E1. done.
  - intros x Hx. rewrite Hout3 by done. by apply Hout1.
  - intros i Hi. destruct (Hall i Hi) as (tc & Ht1 & Ht2 & r & Hr & Hb).
    destruct (Hin3 i Hi) as (tc' & Ht3 & Ht4).
    exists tc, r. split_and!; [done| |done].
    rewrite Ht4. rewrite Ht2 in Ht3. injection Ht3 as <-. unfold f. by rewrite Ht2, Hr.
Qed.

(** ** The whole refresh *)

(** The weight of a testcase that covers the sites [cov], in terms of the state. *)
Definition weight_of (s : State) (mode : WeightComputeMode) (fw : list f64) (cov : list usize) : f64 :=
  match mode with
  | Path => path_weight fw cov
  | Frontier =>
    match m_frontier s, m_acfg s with
    | Some fm, Some acfg =>
      frontier_weight fw (mkFrontierSnapshot (f_prev fm) (f_next fm) (successors acfg)) cov
    | _, _ => f0
    end
  end.

Lemma snapshot_ok s n mode fw : cwf (corpus s) →
  ∃ sn, build_corpus_weight_snapshot s n mode fw = Ok sn ∧ cw_mode sn = mode ∧
    cw_feature_weights_by_sancov sn = fw ∧
    (ts_corpus_id <$> cw_testcases sn) = InMemory.ids (corpus s) ∧
    (∀ id tc, tc_at (corpus s) id = Some tc →
       mkWeightResult id (weight_of s mode fw (default [] (tc_sancov tc)))
         ∈ rr_per_testcase (compute_weights sn)).
Proof.
  intros C. unfold build_corpus_weight_snapshot. set (fr := match mode with Frontier => _ | Path => _ end).
  assert (∃ tss, mapM (λ id, let? tc := InMemory.get id (corpus s) in
            Ok (mkTestcaseSnapshot id (default [] (tc_sancov tc)))) (InMemory.ids (corpus s))
          = Ok (E := Error) tss) as [tss Htss].
  { apply mapM_total. intros id Hid. apply (get_ids _ _ C) in Hid as [tc ->]. by eexists. }
  rewrite Htss. eexists. split; [reflexivity|]. apply mapM_Ok_Forall2 in Htss.
  split_and!; [done|done| |].
  - cbn [cw_testcases]. clear -Htss. induction Htss as [|id ts ids tss Hx HF IH]; [done|].
    rewrite fmap_cons, IH. f_equal. by destruct (InMemory.get id _); simplify_eq/=.
  - intros id tc Ht. assert (id ∈ InMemory.ids (corpus s)) as Hid by by (apply tc_at_ids; eauto).
    apply list_elem_of_lookup in Hid as [i Hi].
    destruct (Forall2_lookup_l _ _ _ _ _ Htss Hi) as (ts & Hts & Hx).
    apply get_tc_at in Ht. rewrite Ht in Hx. injection Hx as <-.
    apply list_elem_of_fmap. exists (mkTestcaseSnapshot id (default [] (tc_sancov tc))).
    split; [|by eapply list_elem_of_lookup_2]. unfold weight_of, fr. cbn.
    destruct mode; [|done]. by destruct (m_frontier s), (m_acfg s).
Qed.

Lemma set_weight_entry result i tc f :
  entry_weight (rr_mode result) ((set_weight result i tc) <| tc_perf_mult := Some f |>)
  = Some (tw_weight i).
Proof. unfold set_weight. by destruct (rr_mode result). Qed.

End Publish.

(** ** A concrete corpus *)

Definition demo_tc : Testcase := (Testcase_new []) <| tc_sancov := Some [0; 2] |>.
Definition demo_corpus1 : InMemory.InMemoryCorpus Testcase :=
  Eval vm_compute in
    match InMemory.add demo_tc InMemory.new with
    | Ok (id, c) => c <| InMemory.current := Some id |>
    | _ => InMemory.new
    end.
Definition demo_one : State := demo_state <| corpus := demo_corpus1 |>.

Lemma demo_corpus1_wf : cwf demo_corpus1.
Proof.
  destruct (corpus_add_ok InMemory.new demo_tc cwf_new) as (i & c & E & [W D] & _).
  vm_compute in E. injection E as <- <-. split; [exact W|exact D].
Qed.

Lemma demo_tc_at id tc : tc_at demo_corpus1 id = Some tc → tc = demo_tc.
Proof.
  intros Ht. assert (id ∈ InMemory.ids demo_corpus1) as Hid
    by (apply tc_at_ids; [exact demo_corpus1_wf|by eexists]).
  assert (InMemory.ids demo_corpus1 = [0]) as E by (vm_compute; reflexivity).
  rewrite E in Hid. apply list_elem_of_singleton in Hid as ->.
  assert (tc_at demo_corpus1 0 = Some demo_tc) as E0 by (vm_compute; reflexivity). congruence.
Qed.

Lemma demo_weights_valid id tc : tc_at demo_corpus1 id = Some tc → weights_valid tc.
Proof. intros ->%demo_tc_at. done. Qed.

Lemma default_params_ok : params_ok FactorParams_default.
Proof. done. Qed.


Lemma frontier_weight_zero_witness :
  frontier_weight (H := toy_env) [f1; f1] (mkFrontierSnapshot [false; false] [false; false] [[1]; []]) [0; 1] = f0.
Proof.
  apply (frontier_weight_zero (H := toy_env)).
  - intros [|[|n]] _; reflexivity.
  - intros node v _ _. by destruct v as [|[|v]].
Defined.
