(* ===== verification/MapObserver.v ===== *)
(** * MapObserver: the coverage map of an execution

    [StdMapObserver] of [libafl/src/observers/map/mod.rs] over [u8] entries, and the hit-count
    classes of [libafl/src/observers/map/hitcount_map.rs]: [HitcountsMapObserver] rounds
    the counters of an execution in place, two bytes at a time with a table of 65536 entries
    where the memory is aligned, [HitcountsIterableMapObserver] one by one. *)

From Stdlib Require Import ZArith Lia.
From S2P Require Import Prelude Metadata State FrontierSets.

(** A map observer over [u8] entries: its initial value and its entries. *)
Record MapObserver := mkMapObserver { mo_initial : Z; mo_entries : list Z }.
#[global] Instance eta_MapObserver : Eta MapObserver := λ r, mkMapObserver (mo_initial r) (mo_entries r).

(** The indices of the entries that differ from the initial value. *)
Definition hit_indices (map : MapObserver) : list usize :=
  set_indices ((λ v, negb (v =? mo_initial map)%Z) <$> mo_entries map).

Module StdMap.
Definition len (self : MapObserver) : usize := length (mo_entries self).
Definition usable_count (self : MapObserver) : usize := length (mo_entries self).

Definition get (self : MapObserver) (pos : usize) : outcome Error Z :=
  unwrap (mo_entries self !! pos).
Definition set (pos : usize) (val : Z) (self : MapObserver) : outcome Error MapObserver :=
  if pos <? length (mo_entries self) then Ok (self <| mo_entries := <[pos := val]> (mo_entries self) |>)
  else Panic.

Definition count_bytes (self : MapObserver) : u64 :=
  foldl (λ res x, if negb (x =? mo_initial self)%Z then wrap64 (res + 1) else res) 0%Z
    (take (usable_count self) (mo_entries self)).

(** [for x in &mut map[0..cnt] { *x = initial }] *)
Definition reset_map (self : MapObserver) : MapObserver :=
  let cnt := usable_count self in
  self <| mo_entries := replicate cnt (mo_initial self) ++ drop cnt (mo_entries self) |>.
Definition pre_exec (self : MapObserver) : MapObserver := reset_map self.

Definition how_many_set (indexes : list usize) (self : MapObserver) : usize :=
  foldl (λ res i,
    if (i <? usable_count self) &&
       negb (default (mo_initial self) (mo_entries self !! i) =? mo_initial self)%Z
    then S res else res) 0 indexes.
End StdMap.

(** ** Hit-count classes *)

Definition COUNT_CLASS_LOOKUP : list Z :=
  [0; 1; 2; 4; 8; 8; 8; 8; 16; 16; 16; 16; 16; 16; 16; 16; 32; 32; 32; 32; 32; 32; 32; 32;
   32; 32; 32; 32; 32; 32; 32; 32; 64; 64; 64; 64; 64; 64; 64; 64; 64; 64; 64; 64; 64; 64; 64; 64;
   64; 64; 64; 64; 64; 64; 64; 64; 64; 64; 64; 64; 64; 64; 64; 64; 64; 64; 64; 64; 64; 64; 64; 64;
   64; 64; 64; 64; 64; 64; 64; 64; 64; 64; 64; 64; 64; 64; 64; 64; 64; 64; 64; 64; 64; 64; 64; 64;
   64; 64; 64; 64; 64; 64; 64; 64; 64; 64; 64; 64; 64; 64; 64; 64; 64; 64; 64; 64; 64; 64; 64; 64;
   64; 64; 64; 64; 64; 64; 64; 64; 128; 128; 128; 128; 128; 128; 128; 128; 128; 128; 128; 128; 128; 128; 128; 128;
   128; 128; 128; 128; 128; 128; 128; 128; 128; 128; 128; 128; 128; 128; 128; 128; 128; 128; 128; 128; 128; 128; 128; 128;
   128; 128; 128; 128; 128; 128; 128; 128; 128; 128; 128; 128; 128; 128; 128; 128; 128; 128; 128; 128; 128; 128; 128; 128;
   128; 128; 128; 128; 128; 128; 128; 128; 128; 128; 128; 128; 128; 128; 128; 128; 128; 128; 128; 128; 128; 128; 128; 128;
   128; 128; 128; 128; 128; 128; 128; 128; 128; 128; 128; 128; 128; 128; 128; 128; 128; 128; 128; 128; 128; 128; 128; 128;
   128; 128; 128; 128; 128; 128; 128; 128; 128; 128; 128; 128; 128; 128; 128; 128]%Z.

(** [*COUNT_CLASS_LOOKUP.get_unchecked(x as usize)]: an index of a [u8] is in range. *)
Definition class8 (x : Z) : Z := default 0%Z (COUNT_CLASS_LOOKUP !! Z.to_nat x).

(** The table of [init_count_class_16]: entry [(i << 8) + j], in order. *)
Definition init_count_class_16 : list Z :=
  i ← seq 0 256;
  (λ j, Z.lor (Z.shiftl (class8 (Z.of_nat i)) 8) (class8 (Z.of_nat j))) <$> seq 0 256.

(** A [u16] in memory: [little] is the byte order of the machine. *)
Definition to_u16 (little : bool) (a b : Z) : Z :=
  if little then (a + 256 * b)%Z else (b + 256 * a)%Z.
Definition of_u16 (little : bool) (x : Z) : Z * Z :=
  if little then (x mod 256, x / 256)%Z else (x / 256, x mod 256)%Z.

(** The loop over [map16]: the first [cnt] pairs of the bytes. *)
Fixpoint classify16 (little : bool) (cnt : nat) (bytes : list Z) : list Z :=
  match cnt, bytes with
  | S cnt, a :: b :: bytes =>
    let item := default 0%Z (init_count_class_16 !! Z.to_nat (to_u16 little a b)) in
    let '(a, b) := of_u16 little item in
    a :: b :: classify16 little cnt bytes
  | _, _ => bytes
  end.

Module Hitcounts.
(** [post_exec] of [HitcountsMapObserver]; [align_offset] is the distance from the start of the
    map to the next aligned [u16]. *)
Definition post_exec (little : bool) (align_offset : usize) (map : list Z) : list Z :=
  let len := length map in
  let '(map, len) :=
    if (1 <? len) && negb (align_offset =? 0) then (alter class8 0 map, len - 1) else (map, len) in
  let map := if Nat.odd len then alter class8 (len - 1) map else map in
  let cnt := len / 2 in
  take align_offset map ++ classify16 little cnt (drop align_offset map).
End Hitcounts.

Module HitcountsIterable.
Definition post_exec (map : list Z) : list Z := class8 <$> map.
End HitcountsIterable.

(** ** Facts *)

Lemma hit_indices_spec map i :
  i ∈ hit_indices map ↔ ∃ v, mo_entries map !! i = Some v ∧ v ≠ mo_initial map.
Proof.
  unfold hit_indices. rewrite set_indices_spec, list_lookup_fmap.
  destruct (mo_entries map !! i) as [v|]; simpl; [|naive_solver].
  destruct (Z.eqb_spec v (mo_initial map)); naive_solver.
Qed.

Definition is_u8 (x : Z) : Prop := (0 ≤ x < 256)%Z.

(** The values a class can have. *)
Definition classes : list Z := [0; 1; 2; 4; 8; 16; 32; 64; 128]%Z.

Lemma class8_classes x : class8 x ∈ classes.
Proof.
  unfold class8. destruct (COUNT_CLASS_LOOKUP !! Z.to_nat x) as [c|] eqn:E; [|by left].
  apply list_elem_of_lookup_2 in E.
  assert (Forall (λ c, c ∈ classes) COUNT_CLASS_LOOKUP) as Hall.
  { apply Forall_forall. intros y Hy. apply (bool_decide_unpack _).
    revert y Hy. apply Forall_forall, forallb_True. vm_compute. reflexivity. }
  by eapply Forall_forall in Hall.
Qed.

Lemma classes_u8 c : c ∈ classes → is_u8 c.
Proof. unfold is_u8, classes. rewrite !elem_of_cons, elem_of_nil. lia. Qed.

Lemma class8_u8 x : is_u8 (class8 x).
Proof. apply classes_u8, class8_classes. Qed.

(** Two classes put together as a [u16] do not overlap. *)
Lemma class_pair h l : h ∈ classes → l ∈ classes → Z.lor (Z.shiftl h 8) l = (256 * h + l)%Z.
Proof.
  intros Hh Hl.
  assert (forallb (λ h, forallb (λ l, Z.lor (Z.shiftl h 8) l =? 256 * h + l)%Z classes) classes = true)
    as Hall by by vm_compute.
  rewrite forallb_forall in Hall. specialize (Hall h). rewrite <-list_elem_of_In in Hall.
  specialize (Hall Hh). rewrite forallb_forall in Hall. specialize (Hall l).
  rewrite <-list_elem_of_In in Hall. specialize (Hall Hl). lia.
Qed.

Lemma lookup_rows {A} (f : nat → list A) k start n i j :
  (∀ i, length (f i) = k) → i < n → j < k →
  (seq start n ≫= f) !! (i * k + j) = f (start + i) !! j.
Proof.
  intros Hk. revert start i. induction n as [|n IH]; intros start i Hi Hj; [lia|]. cbn [seq mbind list_bind].
  destruct i as [|i].
  - rewrite lookup_app_l by (rewrite Hk; lia). by rewrite Nat.add_0_r.
  - rewrite lookup_app_r by (rewrite Hk; lia). rewrite Hk.
    replace (S i * k + j - k) with (i * k + j) by lia. rewrite IH by lia. f_equal. f_equal. lia.
Qed.

Lemma table16 h l : is_u8 h → is_u8 l →
  init_count_class_16 !! Z.to_nat (l + 256 * h) = Some (256 * class8 h + class8 l)%Z.
Proof.
  unfold is_u8. intros Hh Hl. replace (Z.to_nat (l + 256 * h)) with (Z.to_nat h * 256 + Z.to_nat l) by lia.
  unfold init_count_class_16. rewrite lookup_rows; [|by intros; rewrite length_fmap, length_seq|lia|lia].
  rewrite list_lookup_fmap, lookup_seq_lt by lia. cbn [fmap option_fmap option_map Nat.add].
  rewrite !Z2Nat.id by lia. by rewrite class_pair by apply class8_classes.
Qed.

Lemma split_u16 h l : is_u8 l → ((256 * h + l) mod 256 = l ∧ (256 * h + l) / 256 = h)%Z.
Proof.
  unfold is_u8. intros Hl. split; symmetry.
  - apply (Z.mod_unique _ _ h); [by left|done].
  - apply (Z.div_unique _ _ _ l); [by left|done].
Qed.

(** One entry of [map16]: both bytes get their class, in either byte order. *)
Lemma pair16 little a b : is_u8 a → is_u8 b →
  of_u16 little (default 0%Z (init_count_class_16 !! Z.to_nat (to_u16 little a b))) = (class8 a, class8 b).
Proof.
  intros Ha Hb. pose proof (class8_u8 a) as Hca. pose proof (class8_u8 b) as Hcb.
  unfold of_u16, to_u16. destruct little; rewrite table16 by done; cbn [default from_option id].
  - by destruct (split_u16 (class8 b) (class8 a) Hca) as [-> ->].
  - by destruct (split_u16 (class8 a) (class8 b) Hcb) as [-> ->].
Qed.

Lemma classify16_lookup little cnt bytes i : Forall is_u8 bytes → 2 * cnt ≤ length bytes →
  classify16 little cnt bytes !! i = if i <? 2 * cnt then class8 <$> bytes !! i else bytes !! i.
Proof.
  revert bytes i. induction cnt as [|cnt IH]; intros bytes i Hb Hl; [by destruct bytes|].
  destruct bytes as [|a [|b bytes]]; cbn [length] in Hl; [lia|lia|].
  apply Forall_cons_1 in Hb as [Ha Hb]. apply Forall_cons_1 in Hb as [Hb Hbs].
  cbn [classify16]. rewrite pair16 by done.
  destruct i as [|[|i]]; [done|destruct (Nat.ltb_spec 1 (2 * S cnt)); [done|lia]|].
  cbn [lookup list_lookup]. rewrite IH by (done || lia).
  replace (S (S i) <? 2 * S cnt) with (i <? 2 * cnt); [done|].
  destruct (Nat.ltb_spec i (2 * cnt)), (Nat.ltb_spec (S (S i)) (2 * S cnt)); lia || done.
Qed.

Lemma alter_class_u8 i l : Forall is_u8 l → Forall is_u8 (alter class8 i l).
Proof. intros Hl. apply Forall_alter; [done|]. intros x _ _. apply class8_u8. Qed.

Lemma alter_class_lookup i j (l : list Z) :
  alter class8 i l !! j = if j =? i then class8 <$> l !! j else l !! j.
Proof.
  destruct (Nat.eqb_spec j i) as [->|]; [apply list_lookup_alter_eq|by apply list_lookup_alter_ne].
Qed.

(** The part of [post_exec] after the first byte. *)
Lemma post_tail_lookup little off len m i : Forall is_u8 m → off + len ≤ length m →
  let m2 := if Nat.odd len then alter class8 (len - 1) m else m in
  (take off m2 ++ classify16 little (len / 2) (drop off m2)) !! i =
    if (off <=? i) && (i <? off + 2 * (len / 2)) then class8 <$> m2 !! i else m2 !! i.
Proof.
  intros Hu Hl m2. pose proof (Nat.div_mod_eq len 2).
  assert (Forall is_u8 m2 ∧ length m2 = length m) as [Hu2 Hl2].
  { unfold m2. destruct (Nat.odd len); [|done]. split; [by apply alter_class_u8|apply length_alter]. }
  clearbody m2. destruct (Nat.leb_spec off i) as [Hi|Hi]; cbn [andb].
  - rewrite lookup_app_r by (rewrite length_take; lia). rewrite length_take, Hl2, Nat.min_l by lia.
    rewrite classify16_lookup; [|by apply Forall_drop|rewrite length_drop; lia].
    rewrite lookup_drop. replace (off + (i - off)) with i by lia.
    destruct (Nat.ltb_spec (i - off) (2 * (len / 2))), (Nat.ltb_spec i (off + 2 * (len / 2)));
      lia || done.
  - rewrite lookup_app_l by (rewrite length_take; lia). by rewrite lookup_take_lt by lia.
Qed.

Lemma parity_halves n :
  (∃ m, n = 2 * m ∧ Nat.even n = true ∧ Nat.odd n = false ∧ n / 2 = m) ∨
  (∃ m, n = 2 * m + 1 ∧ Nat.even n = false ∧ Nat.odd n = true ∧ n / 2 = m).
Proof.
  destruct (Nat.Even_or_Odd n) as [[m Hm]|[m Hm]]; [left|right]; exists m; subst n.
  - split_and!; [done|apply Nat.even_even|apply Nat.odd_even|].
    symmetry. by apply (Nat.div_unique _ _ _ 0); lia.
  - split_and!; [done|apply Nat.even_odd|apply Nat.odd_odd|].
    symmetry. by apply (Nat.div_unique _ _ _ 1); lia.
Qed.

(** What one entry of the map becomes. *)
Lemma post_exec_lookup little off map i : Forall is_u8 map → off ≤ 1 →
  Hitcounts.post_exec little off map !! i =
    let n := length map in
    if (off =? 1) && Nat.even n && (1 <? n) && (i =? n - 1) then map !! i
    else if (off =? 1) && Nat.even n && (1 <? n) && (i =? n - 2) then class8 ∘ class8 <$> map !! i
    else class8 <$> map !! i.
Proof.
  intros Hu Hoff. unfold Hitcounts.post_exec. cbv zeta. set (n := length map).
  assert (1 ≤ n → off + (n - off) ≤ n) as Hfit by lia.
  destruct (parity_halves n) as [(m & Hm & -> & Ho & Hq)|(m & Hm & -> & Ho & Hq)].
  - destruct (Nat.ltb_spec 1 n) as [Hn|Hn]; cbn [andb].
    + destruct off as [|[|off]]; [| |lia]; cbn [Nat.eqb negb andb].
      * rewrite (post_tail_lookup little 0 n map i) by (done || lia). rewrite Ho, Hq.
        destruct (Nat.ltb_spec i (0 + 2 * m)); [done|]. by rewrite lookup_ge_None_2 by lia.
      * rewrite (post_tail_lookup little 1 (n - 1) (alter class8 0 map) i)
          by (by apply alter_class_u8 || (rewrite length_alter; lia)).
        destruct (parity_halves (n - 1)) as [(k & Hk & _ & Ho' & Hq')|(k & Hk & _ & Ho' & Hq')]; [lia|].
        rewrite Ho', Hq', !alter_class_lookup.
        destruct (Nat.eqb_spec i (n - 1)), (Nat.eqb_spec i (n - 2)), (Nat.eqb_spec i (n - 1 - 1)),
          (Nat.eqb_spec i 0), (Nat.leb_spec 1 i), (Nat.ltb_spec i (1 + 2 * k)); try lia; cbn [andb];
          try done; first [by rewrite lookup_ge_None_2 by (fold n; lia)|by destruct (map !! i)].
    + assert (map = []) as -> by (destruct map; [done|cbn in *; lia]). by destruct off as [|[|off]], little, i.
  - rewrite andb_false_r. cbn [andb].
    destruct (Nat.ltb_spec 1 n) as [Hn|Hn]; cbn [andb].
    + destruct off as [|[|off]]; [| |lia]; cbn [Nat.eqb negb andb].
      * rewrite (post_tail_lookup little 0 n map i) by (done || lia).
        rewrite Ho, Hq, alter_class_lookup. fold n.
        destruct (Nat.ltb_spec i (0 + 2 * m)), (Nat.eqb_spec i (n - 1)); try lia; try done.
        by rewrite lookup_ge_None_2 by (fold n; lia).
      * rewrite (post_tail_lookup little 1 (n - 1) (alter class8 0 map) i)
          by (by apply alter_class_u8 || (rewrite length_alter; lia)).
        destruct (parity_halves (n - 1)) as [(k & Hk & _ & Ho' & Hq')|(k & Hk & _ & Ho' & Hq')]; [|lia].
        rewrite Ho', Hq', alter_class_lookup.
        destruct (Nat.eqb_spec i 0), (Nat.leb_spec 1 i), (Nat.ltb_spec i (1 + 2 * k)); try lia; try done.
        cbn [andb]. by rewrite lookup_ge_None_2 by (fold n; lia).
    + assert (∃ x, map = [x]) as [x ->] by (destruct map as [|x []]; cbn in *; [lia|by eexists|lia]).
      by destruct off as [|[|off]], little, i; [..|lia|lia].
Qed.

Lemma post_exec_u8 little off map : Forall is_u8 map → off ≤ 1 → Forall is_u8 (Hitcounts.post_exec little off map).
Proof.
  intros Hu Hoff. apply Forall_lookup. intros i v. rewrite post_exec_lookup by done. cbv zeta.
  case_match; [intros Hv; by eapply Forall_lookup_1|].
  case_match; intros Hv; apply fmap_Some in Hv as (x & _ & ->); apply class8_u8.
Qed.

(** The classes are the powers of two that AFL uses, and grow with the counter. *)
Lemma class8_spec x : is_u8 x →
  class8 x = (if x <=? 2 then x else if x =? 3 then 4 else if x <=? 7 then 8 else if x <=? 15 then 16
              else if x <=? 31 then 32 else if x <=? 127 then 64 else 128)%Z.
Proof.
  intros Hx. unfold is_u8 in Hx.
  assert (Forall (λ n, class8 (Z.of_nat n) =
    (let x := Z.of_nat n in
     if x <=? 2 then x else if x =? 3 then 4 else if x <=? 7 then 8 else if x <=? 15 then 16
     else if x <=? 31 then 32 else if x <=? 127 then 64 else 128)%Z) (seq 0 256)) as Hall.
  { apply Forall_forall. intros n Hn. apply Z.eqb_eq, Is_true_true_1. revert n Hn.
    apply Forall_forall, forallb_True. vm_compute. reflexivity. }
  rewrite Forall_forall in Hall. specialize (Hall (Z.to_nat x)). rewrite Z2Nat.id in Hall by lia.
  apply Hall. apply elem_of_seq. lia.
Qed.

(** C23. The fast classification, two bytes at a time, is the byte-wise one in either byte order, as
    long as the map starts at an aligned address, has an odd length or has at most one byte.  In the
    remaining case, an unaligned map of even length, the counters of the last two bytes are wrong:
    the one before the last is classified twice and the last one not at all. *)
Theorem hitcounts_exact little off map :
  Forall is_u8 map → off ≤ 1 →
  (off = 0 ∨ length map ≤ 1 ∨ Nat.odd (length map) = true →
     Hitcounts.post_exec little off map = HitcountsIterable.post_exec map) ∧
  (∀ init a b, map = init ++ [a; b] → off = 1 → Nat.even (length init) = true →
     Hitcounts.post_exec little off map = (class8 <$> init) ++ [class8 (class8 a); b]).
Proof.
  intros Hu Hoff. split.
  - intros Hcase. apply list_eq. intros i. rewrite post_exec_lookup by done. cbv zeta.
    assert ((off =? 1) && Nat.even (length map) && (1 <? length map) = false) as ->.
    { destruct Hcase as [->|[Hl|Ho]]; [done| |].
      - destruct (Nat.ltb_spec 1 (length map)); [lia|apply andb_false_r].
      - rewrite <-Nat.negb_odd, Ho. by rewrite andb_false_r. }
    cbn [andb]. unfold HitcountsIterable.post_exec. by rewrite list_lookup_fmap.
  - intros init a b -> -> He. apply list_eq. intros i. rewrite post_exec_lookup by done. cbv zeta.
    rewrite length_app. cbn [length Nat.eqb andb].
    rewrite Nat.even_add, He. cbn [Nat.even Bool.eqb andb].
    destruct (Nat.ltb_spec 1 (length init + 2)); [cbn [andb]|lia].
    destruct (Nat.eqb_spec i (length init + 2 - 1)) as [->|H1].
    { rewrite !lookup_app_r by (rewrite ?length_fmap; lia). rewrite length_fmap.
      by replace (length init + 2 - 1 - length init) with 1 by lia. }
    destruct (Nat.eqb_spec i (length init + 2 - 2)) as [->|H2].
    { rewrite !lookup_app_r by (rewrite ?length_fmap; lia). rewrite length_fmap.
      by replace (length init + 2 - 2 - length init) with 0 by lia. }
    destruct (decide (i < length init)).
    + rewrite !lookup_app_l by (rewrite ?length_fmap; lia). by rewrite list_lookup_fmap.
    + rewrite !lookup_ge_None_2 by (rewrite ?length_app, ?length_fmap; cbn; lia). done.
Qed.

Lemma hitcounts_exact_witness :
  Hitcounts.post_exec true 0 [3; 200; 9]%Z = [4; 128; 16]%Z ∧
  Hitcounts.post_exec true 1 [5; 3; 3; 3]%Z = [8; 4; 8; 3]%Z.
Proof.
  split.
  - destruct (hitcounts_exact true 0 [3; 200; 9]%Z) as [H _]; [repeat constructor; done|lia|].
    rewrite H by by left. reflexivity.
  - destruct (hitcounts_exact true 1 [5; 3; 3; 3]%Z) as [_ H]; [repeat constructor; done|lia|].
    rewrite (H [5; 3]%Z 3%Z 3%Z) by done. reflexivity.
Defined.
