(* ===== verification/MapFeedback.v ===== *)
(** * MapFeedback: [libafl/src/feedbacks/map.rs]

    The feedback that decides whether an execution is interesting: its coverage map is compared
    with the history of all maps seen so far.  Reducers and novelty criteria are instances
    of the classes [Reducer] and [IsNovel]; [is_interesting_default] is the generic search,
    [is_interesting_u8_simd_optimized] the one for maximised [u8] maps, which compares
    sixteen entries at a time.  An unchecked access out of range is a panic. *)

From Stdlib Require Import ZArith Lia Ascii.
From S2P Require Import Prelude Str NumParse Metadata State FrontierSets MapObserver.

(** ** Reducers and novelty *)

Class Reducer := reduce : Z → Z → Z.
Definition OrReducer : Reducer := λ history new, Z.lor history new.
Definition AndReducer : Reducer := λ history new, Z.land history new.
Definition NopReducer : Reducer := λ _ new, new.
Definition MaxReducer : Reducer := λ first second, if (second <? first)%Z then first else second.
Definition MinReducer : Reducer := λ first second, if (first <? second)%Z then first else second.

Class IsNovel := is_novel : Z → Z → bool.
Definition AllIsNovel : IsNovel := λ _ _, true.
Definition DifferentIsNovel : IsNovel := λ old new, negb (old =? new)%Z.

(** Unsigned entries of [w] bits. *)
Section Pow2.
Context (w : Z).

Definition max_value : Z := (2 ^ w - 1)%Z.
Definition leading_zeros (n : Z) : Z := if (n =? 0)%Z then w else (w - 1 - Z.log2 n)%Z.
Definition saturating_add1 (n : Z) : Z := Z.min max_value (n + 1).

Definition saturating_next_power_of_two (n : Z) : Z :=
  if (n <=? 1)%Z then 1%Z
  else saturating_add1 (Z.shiftr max_value (leading_zeros (n - 1))).

Definition NextPow2IsNovel : IsNovel := λ old new,
  if (new <=? old)%Z then false
  else (saturating_next_power_of_two (saturating_add1 old) <=? new)%Z.

Definition OneOrFilledIsNovel : IsNovel := λ old new,
  ((new =? 1) || (new =? max_value))%Z && (old <? new)%Z.
End Pow2.

(** ** The feedback *)

Module MapFeedbackMeta.
Definition new (map_size : usize) : MapFeedbackMetadata :=
  mkMapFeedbackMeta (replicate map_size 0%Z) 0.

Definition with_history_map (history : list Z) (initial_elem_value : Z) : MapFeedbackMetadata :=
  mkMapFeedbackMeta history
    (foldl (λ acc x, acc + if negb (x =? initial_elem_value)%Z then 1 else 0) 0 history).

Definition reset (self : MapFeedbackMetadata) : MapFeedbackMetadata :=
  mkMapFeedbackMeta (replicate (length (history_map self)) 0%Z) 0.
Definition reset_with_value (value : Z) (self : MapFeedbackMetadata) : MapFeedbackMetadata :=
  mkMapFeedbackMeta (replicate (length (history_map self)) value) 0.
End MapFeedbackMeta.

Record MapFeedback := mkMapFeedback {
  novelties : option (list usize);
  mf_name : string;
  map_ref : string;
  stats_name : string;
}.
#[global] Instance eta_MapFeedback : Eta MapFeedback := λ r,
  mkMapFeedback (novelties r) (mf_name r) (map_ref r) (stats_name r).

Definition is_lowercase (c : ascii) : bool :=
  (Nat.leb 97 (nat_of_ascii c)) && (Nat.leb (nat_of_ascii c) 122).
Definition create_stats_name (name : string) : string :=
  if forallb is_lowercase (to_chars name) then name else of_chars (to_lower <$> to_chars name).

(** [track_novelties] is the constant [C::NOVELTIES] of the observer's type. *)
Definition new (track_novelties : bool) (observer_name : string) : MapFeedback :=
  mkMapFeedback (if track_novelties then Some [] else None) observer_name observer_name
    (create_stats_name observer_name).
Definition with_name (track_novelties : bool) (name observer_name : string) : MapFeedback :=
  mkMapFeedback (if track_novelties then Some [] else None) name observer_name (create_stats_name name).

(** The named metadata of a feedback. *)
Definition put_map (name : string) (m : MapFeedbackMetadata) (s : State) : State :=
  s <| named_maps := <[name := m]> (named_maps s) |>.

Definition init_state (self : MapFeedback) : M State () :=
  modify (put_map (mf_name self) MapFeedbackMetadata_default).

(** The history grown to the size of the map. *)
Definition grown (len : usize) (fill : Z) (m : MapFeedbackMetadata) : MapFeedbackMetadata :=
  if length (history_map m) <? len then m <| history_map := resize len fill (history_map m) |> else m.
Definition grow_history (self : MapFeedback) (len : usize) (fill : Z) : M State MapFeedbackMetadata :=
  m <- gets (λ s, named_maps s !! mf_name self) ;;
  map_state <- lift (unwrap m) ;;
  modify (put_map (mf_name self) (grown len fill map_state)) ;;;
  ret (grown len fill map_state).

Section Search.
Context `{Reducer} `{IsNovel}.

(** The loop that collects the novelties, over the entries from index [i] on. *)
Fixpoint collect_novel (history : list Z) (initial : Z) (i : nat) (items : list Z) :
    outcome Error (list usize) :=
  match items with
  | [] => Ok []
  | item :: items =>
    if (item =? initial)%Z then collect_novel history initial (S i) items
    else
      let? existing := unwrap (history !! i) in
      let reduced := reduce existing item in
      let? rest := collect_novel history initial (S i) items in
      Ok (if is_novel existing reduced then i :: rest else rest)
  end.

(** The loop that stops at the first novelty. *)
Fixpoint any_novel (history : list Z) (initial : Z) (i : nat) (items : list Z) : outcome Error bool :=
  match items with
  | [] => Ok false
  | item :: items =>
    if (item =? initial)%Z then any_novel history initial (S i) items
    else
      let? existing := unwrap (history !! i) in
      if is_novel existing (reduce existing item) then Ok true
      else any_novel history initial (S i) items
  end.

(** [obs] is the observer with the name [map_ref], if there is one. *)
Definition is_interesting_default (self : MapFeedback) (obs : option MapObserver) :
    M State (bool * MapFeedback) :=
  observer <- lift (unwrap obs) ;;
  let initial := mo_initial observer in
  map_state <- grow_history self (StdMap.len observer) initial ;;
  match novelties self with
  | Some _ =>
    found <- lift (collect_novel (history_map map_state) initial 0 (mo_entries observer)) ;;
    ret (bool_decide (found ≠ []), self <| novelties := Some found |>)
  | None =>
    interesting <- lift (any_novel (history_map map_state) initial 0 (mo_entries observer)) ;;
    ret (interesting, self)
  end.

(** The loop of [append_metadata]: the new history, the number of covered entries, and the
    indexes that are hit. *)
Fixpoint absorb (initial : Z) (i : nat) (items : list Z) (history : list Z) (covered : usize) :
    outcome Error (list Z * usize * list usize) :=
  match items with
  | [] => Ok (history, covered, [])
  | value :: items =>
    if (value =? initial)%Z then absorb initial (S i) items history covered
    else
      let? old := unwrap (history !! i) in
      let val := reduce old value in
      let covered := if (old =? initial)%Z && negb (val =? initial)%Z then S covered else covered in
      let? r := absorb initial (S i) items (<[i := val]> history) covered in
      Ok (r.1, i :: r.2)
  end.

Context `{Env}.

(** [track_indices] is the constant [C::INDICES] of the observer's type.  The debug assertion on the counter, which follows the loop of
    [absorb], is left out: it is the invariant [map_inv], which [map_history_exact] shows to hold there. *)
Definition append_metadata (track_indices : bool) (self : MapFeedback) (obs : option MapObserver)
    (testcase : Testcase) : M State (MapFeedback * Testcase) :=
  let '(self, testcase) :=
    match novelties self with
    | Some found => (self <| novelties := Some [] |>, testcase <| tc_novelties := Some found |>)
    | None => (self, testcase)
    end in
  observer <- lift (unwrap obs) ;;
  let initial := mo_initial observer in
  map_state <- grow_history self (StdMap.len observer) initial ;;
  r <- lift (absorb initial 0 (mo_entries observer) (history_map map_state)
               (num_covered_map_indexes map_state)) ;;
  let '(history, covered, indices) := r : list Z * usize * list usize in
  modify (put_map (mf_name self) (mkMapFeedbackMeta history covered)) ;;;
  fire (UpdateUserStats (stats_name self)
          (mkUserStats (Ratio (Z.of_nat covered) (Z.of_nat (length history))) AggAvg)) ;;;
  ret (self, if track_indices then testcase <| tc_map_indexes := Some (MapIndexesMetadata_new indices) |>
             else testcase).
End Search.

(** ** Sixteen entries at a time *)

Definition LEN : nat := 16.

(** [VectorType::from_slice(&l[i..])] *)
Definition from_slice (l : list Z) (i : usize) : outcome Error (list Z) :=
  if length (drop i l) <? LEN then Panic else Ok (take LEN (drop i l)).

Definition simd_differs (history map : list Z) (i : usize) : outcome Error bool :=
  let? h := from_slice history i in
  let? items := from_slice map i in
  Ok (negb (bool_decide (zip_with Z.max items h = h))).

(** The indexes of [js] at which the map exceeds the history. *)
Fixpoint greater_in (history map : list Z) (js : list usize) : outcome Error (list usize) :=
  match js with
  | [] => Ok []
  | j :: js =>
    let? item := unwrap (map !! j) in
    let? old := unwrap (history !! j) in
    let? rest := greater_in history map js in
    Ok (if (old <? item)%Z then j :: rest else rest)
  end.

(** The steps with novelties: whether a vector differs, and the novelties. *)
Fixpoint simd_collect (history map : list Z) (steps : list nat) : outcome Error (bool * list usize) :=
  match steps with
  | [] => Ok (false, [])
  | step :: steps =>
    let i := step * LEN in
    let? differs := simd_differs history map i in
    let? here := if differs : bool then greater_in history map (seq i LEN) else Ok [] in
    let? rest := simd_collect history map steps in
    Ok (differs || rest.1, here ++ rest.2)
  end.

(** The steps without novelties stop at the first vector that differs. *)
Fixpoint simd_any (history map : list Z) (steps : list nat) : outcome Error bool :=
  match steps with
  | [] => Ok false
  | step :: steps =>
    let? differs := simd_differs history map (step * LEN) in
    if differs : bool then Ok true else simd_any history map steps
  end.
Fixpoint any_greater (history map : list Z) (js : list usize) : outcome Error bool :=
  match js with
  | [] => Ok false
  | j :: js =>
    let? item := unwrap (map !! j) in
    let? old := unwrap (history !! j) in
    if (old <? item)%Z then Ok true else any_greater history map js
  end.

Definition is_interesting_u8_simd_optimized (self : MapFeedback) (obs : option MapObserver) :
    M State (bool * MapFeedback) :=
  observer <- lift (unwrap obs) ;;
  map_state <- grow_history self (StdMap.len observer) 0%Z ;;
  let size := StdMap.usable_count observer in
  let map := mo_entries observer in
  let history := history_map map_state in
  let steps := size / LEN in
  let left := size mod LEN in
  match novelties self with
  | Some _ =>
    r <- lift (simd_collect history map (seq 0 steps)) ;;
    rest <- lift (greater_in history map (seq (size - left) left)) ;;
    ret (r.1 || bool_decide (rest ≠ []), self <| novelties := Some (r.2 ++ rest) |>)
  | None =>
    interesting <- lift (simd_any history map (seq 0 steps)) ;;
    interesting <- lift (if interesting : bool then Ok true
                         else any_greater history map (seq (size - left) left)) ;;
    ret (interesting, self)
  end.

(** ** The search against its specification *)

(** The entries at which a map exceeds the history; an entry the history does not have yet is 0. *)
Definition above (history map : list Z) (j : usize) : Prop :=
  (default 0 (history !! j) < default 0 (map !! j))%Z.
#[global] Instance above_dec history map j : Decision (above history map j).
Proof. unfold above. apply _. Defined.
Definition gained (history map : list Z) : list usize :=
  filter (above history map) (seq 0 (length map)).

Lemma max_novel old item :
  is_novel (IsNovel := DifferentIsNovel) old (reduce (Reducer := MaxReducer) old item) = (old <? item)%Z.
Proof.
  unfold is_novel, DifferentIsNovel, reduce, MaxReducer.
  destruct (Z.ltb_spec item old), (Z.ltb_spec old item); lia.
Qed.

Section Facts.
Context (history : list Z) (history_nn : Forall (λ x, 0 ≤ x)%Z history).

Lemma filter_seq_cons (map : list Z) i n :
  filter (above history map) (seq i (S n)) =
  if bool_decide (above history map i) then i :: filter (above history map) (seq (S i) n)
  else filter (above history map) (seq (S i) n).
Proof. cbn [seq]. rewrite filter_cons. by case_decide; case_bool_decide. Qed.

Lemma above_at (map : list Z) i item old : map !! i = Some item → history !! i = Some old →
  bool_decide (above history map i) = (old <? item)%Z.
Proof.
  intros Hm Hh. assert (above history map i ↔ (old < item)%Z) as Hab.
  { unfold above. by rewrite Hm, Hh. }
  rewrite (bool_decide_ext _ _ Hab). by destruct (Z.ltb_spec old item); case_bool_decide; lia || done.
Qed.

Lemma history_at i : i < length history → ∃ old, history !! i = Some old ∧ (0 ≤ old)%Z.
Proof.
  intros Hi. apply lookup_lt_is_Some_2 in Hi as [old Hold]. exists old. split; [done|].
  by eapply Forall_lookup_1 in history_nn.
Qed.

Lemma collect_gained pre items : length pre + length items ≤ length history →
  collect_novel (H := MaxReducer) (H0 := DifferentIsNovel) history 0 (length pre) items =
    Ok (filter (above history (pre ++ items)) (seq (length pre) (length items))).
Proof.
  revert pre. induction items as [|item items IH]; intros pre Hl; [done|].
  cbn [length] in *. rewrite filter_seq_cons. cbn [collect_novel].
  assert (pre ++ item :: items = (pre ++ [item]) ++ items) as Happ by by rewrite <-app_assoc.
  specialize (IH (pre ++ [item])). rewrite length_app in IH. cbn [length] in IH.
  rewrite Nat.add_1_r in IH. rewrite Happ, IH by lia.
  destruct (history_at (length pre)) as (old & Hold & Hnn); [lia|].
  pose proof (above_at (pre ++ item :: items) (length pre) item old (list_lookup_middle _ _ _ _ eq_refl) Hold)
    as Hab. rewrite Happ in Hab.
  destruct (Z.eqb_spec item 0) as [->|Hi].
  - rewrite Hab. by destruct (Z.ltb_spec old 0); [lia|].
  - rewrite Hold. cbn [unwrap obind]. rewrite max_novel, Hab. done.
Qed.

Lemma any_gained pre items : length pre + length items ≤ length history →
  any_novel (H := MaxReducer) (H0 := DifferentIsNovel) history 0 (length pre) items =
    Ok (bool_decide (filter (above history (pre ++ items)) (seq (length pre) (length items)) ≠ [])).
Proof.
  revert pre. induction items as [|item items IH]; intros pre Hl; [done|].
  cbn [length] in *. rewrite filter_seq_cons. cbn [any_novel].
  assert (pre ++ item :: items = (pre ++ [item]) ++ items) as Happ by by rewrite <-app_assoc.
  specialize (IH (pre ++ [item])). rewrite length_app in IH. cbn [length] in IH.
  rewrite Nat.add_1_r in IH. rewrite Happ, IH by lia.
  destruct (history_at (length pre)) as (old & Hold & Hnn); [lia|].
  pose proof (above_at (pre ++ item :: items) (length pre) item old (list_lookup_middle _ _ _ _ eq_refl) Hold)
    as Hab. rewrite Happ in Hab.
  destruct (Z.eqb_spec item 0) as [->|Hi].
  - rewrite Hab. by destruct (Z.ltb_spec old 0); [lia|].
  - rewrite Hold. cbn [unwrap obind]. rewrite max_novel, Hab. by destruct (old <? item)%Z.
Qed.

(** *** Sixteen at a time *)

Context (map : list Z) (map_fits : length map ≤ length history).
Abbreviation hits := (filter (above history map)).

Lemma greater_in_hits js : Forall (λ j, j < length map) js → greater_in history map js = Ok (hits js).
Proof.
  induction 1 as [|j js Hj _ IH]; [done|]. cbn [greater_in]. rewrite IH, filter_cons.
  destruct (lookup_lt_is_Some_2 map j Hj) as [item Hitem].
  destruct (history_at j) as (old & Hold & _); [lia|]. rewrite Hitem, Hold. cbn [unwrap obind].
  rewrite <-(above_at map j item old Hitem Hold). by case_decide; case_bool_decide.
Qed.

Lemma any_greater_hits js : Forall (λ j, j < length map) js →
  any_greater history map js = Ok (bool_decide (hits js ≠ [])).
Proof.
  induction 1 as [|j js Hj _ IH]; [done|]. cbn [any_greater]. rewrite IH, filter_cons.
  destruct (lookup_lt_is_Some_2 map j Hj) as [item Hitem].
  destruct (history_at j) as (old & Hold & _); [lia|]. rewrite Hitem, Hold. cbn [unwrap obind].
  rewrite <-(above_at map j item old Hitem Hold). case_decide as Hab.
  - by rewrite (bool_decide_eq_true_2 (above _ _ _)) by done.
  - by rewrite (bool_decide_eq_false_2 (above _ _ _)) by done.
Qed.

Lemma from_slice_ok (l : list Z) i : i + LEN ≤ length l → from_slice l i = Ok (take LEN (drop i l)).
Proof. intros Hi. unfold from_slice. rewrite length_drop. destruct (Nat.ltb_spec (length l - i) LEN); [lia|done]. Qed.

Lemma lanes_equal i : i + LEN ≤ length map →
  zip_with Z.max (take LEN (drop i map)) (take LEN (drop i history)) = take LEN (drop i history) ↔
  hits (seq i LEN) = [].
Proof.
  intros Hi. split.
  - intros Heq. destruct (hits (seq i LEN)) as [|j js] eqn:E; [done|exfalso].
    assert (j ∈ hits (seq i LEN)) as Hj by (rewrite E; left).
    apply list_elem_of_filter in Hj as [Hab Hj%elem_of_seq].
    destruct (lookup_lt_is_Some_2 map j) as [item Hitem]; [lia|].
    destruct (history_at j) as (old & Hold & _); [lia|].
    assert (take LEN (drop i map) !! (j - i) = Some item) as Hm.
    { rewrite lookup_take_lt by lia. rewrite lookup_drop. by replace (i + (j - i)) with j by lia. }
    assert (take LEN (drop i history) !! (j - i) = Some old) as Hh.
    { rewrite lookup_take_lt by lia. rewrite lookup_drop. by replace (i + (j - i)) with j by lia. }
    assert (zip_with Z.max (take LEN (drop i map)) (take LEN (drop i history)) !! (j - i) = Some (Z.max item old))
      as Hz by (rewrite lookup_zip_with, Hm, Hh; done).
    rewrite Heq, Hh in Hz. injection Hz as Hz.
    unfold above in Hab. rewrite Hitem, Hold in Hab. cbn in Hab. lia.
  - intros Hnil. apply list_eq. intros k. rewrite lookup_zip_with.
    destruct (decide (k < LEN)) as [Hk|Hk].
    + rewrite !lookup_take_lt, !lookup_drop by done.
      destruct (lookup_lt_is_Some_2 map (i + k)) as [item Hitem]; [lia|].
      destruct (history_at (i + k)) as (old & Hold & _); [lia|]. rewrite Hitem, Hold. cbn. f_equal.
      assert (¬ above history map (i + k)) as Hna.
      { intros Hab. assert (i + k ∈ hits (seq i LEN)) as Hin.
        { apply list_elem_of_filter. split; [done|]. apply elem_of_seq. lia. }
        rewrite Hnil in Hin. by apply elem_of_nil in Hin. }
      unfold above in Hna. rewrite Hitem, Hold in Hna. cbn in Hna. lia.
    + rewrite (lookup_ge_None_2 (take LEN (drop i history))) by (rewrite length_take; lia).
      by destruct (take LEN (drop i map) !! k).
Qed.

Lemma simd_differs_hits i : i + LEN ≤ length map →
  simd_differs history map i = Ok (bool_decide (hits (seq i LEN) ≠ [])).
Proof.
  intros Hi. unfold simd_differs. rewrite !from_slice_ok by lia. cbn [obind]. f_equal.
  rewrite (bool_decide_ext _ _ (lanes_equal i Hi)). by rewrite bool_decide_not.
Qed.

Lemma seq_block k n : seq (k * LEN) (S n * LEN) = seq (k * LEN) LEN ++ seq (S k * LEN) (n * LEN).
Proof. replace (S k * LEN) with (k * LEN + LEN) by lia. by rewrite <-seq_app. Qed.

Lemma simd_collect_hits k n : (k + n) * LEN ≤ length map →
  simd_collect history map (seq k n) =
    Ok (bool_decide (hits (seq (k * LEN) (n * LEN)) ≠ []), hits (seq (k * LEN) (n * LEN))).
Proof.
  revert k. induction n as [|n IH]; intros k Hk; [done|]. cbn [seq simd_collect].
  rewrite simd_differs_hits by (unfold LEN in *; lia). cbn [obind]. rewrite seq_block, filter_app.
  rewrite IH by (unfold LEN in *; lia). case_bool_decide as Hd.
  - rewrite greater_in_hits.
    2: { apply Forall_forall. intros j Hj%elem_of_seq. unfold LEN in *. lia. }
    cbn [obind]. f_equal. f_equal. cbn [fst orb].
    rewrite (bool_decide_eq_true_2 (_ ++ _ ≠ [])); [done|]. by intros [? _]%app_nil.
  - by rewrite Hd.
Qed.

Lemma simd_any_hits k n : (k + n) * LEN ≤ length map →
  simd_any history map (seq k n) = Ok (bool_decide (hits (seq (k * LEN) (n * LEN)) ≠ [])).
Proof.
  revert k. induction n as [|n IH]; intros k Hk; [done|]. cbn [seq simd_any].
  rewrite simd_differs_hits by (unfold LEN in *; lia). cbn [obind]. rewrite seq_block, filter_app.
  rewrite IH by (unfold LEN in *; lia). case_bool_decide as Hd.
  - rewrite (bool_decide_eq_true_2 (_ ++ _ ≠ [])); [done|]. by intros [? _]%app_nil.
  - by rewrite Hd.
Qed.

(** The vectors and the remainder together are the whole map. *)
Lemma hits_split :
  hits (seq 0 (length map)) =
  hits (seq 0 (length map / LEN * LEN)) ++
  hits (seq (length map - length map mod LEN) (length map mod LEN)).
Proof.
  clear history_nn map_fits. pose proof (Nat.div_mod_eq (length map) LEN). rewrite <-filter_app. f_equal.
  replace (length map - length map mod LEN) with (0 + length map / LEN * LEN) by lia.
  rewrite <-seq_app. f_equal. lia.
Qed.
End Facts.

(** ** What the feedback promises *)

Definition u8_map (m : MapFeedbackMetadata) : Prop := Forall is_u8 (history_map m).

Lemma grown_length len fill m : len ≤ length (history_map (grown len fill m)).
Proof.
  unfold grown. destruct (Nat.ltb_spec (length (history_map m)) len); [|lia]. cbn.
  unfold resize. rewrite length_app, length_take, length_replicate. lia.
Qed.
Lemma grown_at len m j : default 0%Z (history_map (grown len 0 m) !! j) = default 0%Z (history_map m !! j).
Proof.
  unfold grown. destruct (Nat.ltb_spec (length (history_map m)) len); [|done]. cbn.
  unfold resize. rewrite take_ge by lia. destruct (decide (j < length (history_map m))).
  - by rewrite lookup_app_l by lia.
  - rewrite lookup_app_r, (lookup_ge_None_2 (history_map m)) by lia.
    destruct (decide (j - length (history_map m) < len - length (history_map m))).
    + by rewrite lookup_replicate_2 by done.
    + by rewrite lookup_ge_None_2 by (rewrite length_replicate; lia).
Qed.
Lemma grown_u8 len m : u8_map m → u8_map (grown len 0 m).
Proof.
  unfold u8_map, grown. intros Hm. destruct (_ <? _); [|done]. cbn. unfold resize.
  apply Forall_app. split; [by apply Forall_take|]. by apply Forall_replicate.
Qed.
Lemma grown_covered len fill m : num_covered_map_indexes (grown len fill m) = num_covered_map_indexes m.
Proof. unfold grown. by destruct (_ <? _). Qed.
Lemma u8_nn m : u8_map m → Forall (λ x, 0 ≤ x)%Z (history_map m).
Proof. intros Hm. eapply Forall_impl; [exact Hm|]. intros x [? ?]. done. Qed.

Lemma gained_ext h h' map : (∀ j, default 0%Z (h !! j) = default 0%Z (h' !! j)) → gained h map = gained h' map.
Proof.
  intros He. apply list_filter_iff. intros j. unfold above. by rewrite He.
Qed.

Lemma grow_history_run self len fill s :
  grow_history self len fill s =
  match named_maps s !! mf_name self with
  | Some m => (Ok (grown len fill m), put_map (mf_name self) (grown len fill m) s)
  | None => (Panic, s)
  end.
Proof. unfold grow_history, bind, gets, lift, modify, ret. by destruct (named_maps s !! _). Qed.

Section Search.
Context (self : MapFeedback) (obs : MapObserver) (initial_0 : mo_initial obs = 0%Z).

(** The answer of both searches. *)
Lemma is_interesting_run s m : named_maps s !! mf_name self = Some m → u8_map m →
  let found := gained (history_map m) (mo_entries obs) in
  is_interesting_default (H := MaxReducer) (H0 := DifferentIsNovel) self (Some obs) s =
    (Ok (bool_decide (found ≠ []), self <| novelties := (λ _, found) <$> novelties self |>),
     put_map (mf_name self) (grown (length (mo_entries obs)) 0 m) s).
Proof.
  intros Hm Hu found. unfold is_interesting_default. unfold bind at 1, lift at 1, unwrap at 1.
  unfold bind at 1. rewrite grow_history_run, Hm, initial_0. fold (StdMap.len obs).
  set (g := grown (StdMap.len obs) 0 m).
  assert (found = gained (history_map g) (mo_entries obs)) as ->.
  { apply gained_ext. intros j. symmetry. apply grown_at. }
  assert (length (mo_entries obs) ≤ length (history_map g)) as Hl by apply grown_length.
  assert (Forall (λ x, 0 ≤ x)%Z (history_map g)) as Hnn by by apply u8_nn, grown_u8.
  destruct self as [[nov|] name ref stats]; cbn [novelties fmap option_fmap option_map].
  - unfold bind, lift, ret. by rewrite (collect_gained _ Hnn []) by done.
  - unfold bind, lift, ret. by rewrite (any_gained _ Hnn []) by done.
Qed.

Lemma simd_run s m : named_maps s !! mf_name self = Some m → u8_map m →
  let found := gained (history_map m) (mo_entries obs) in
  is_interesting_u8_simd_optimized self (Some obs) s =
    (Ok (bool_decide (found ≠ []), self <| novelties := (λ _, found) <$> novelties self |>),
     put_map (mf_name self) (grown (length (mo_entries obs)) 0 m) s).
Proof.
  intros Hm Hu found. unfold is_interesting_u8_simd_optimized. unfold bind at 1, lift at 1, unwrap at 1.
  unfold bind at 1. rewrite grow_history_run, Hm. fold (StdMap.len obs).
  set (g := grown (StdMap.len obs) 0 m). set (map := mo_entries obs).
  assert (found = gained (history_map g) map) as ->.
  { apply gained_ext. intros j. symmetry. apply grown_at. }
  assert (length map ≤ length (history_map g)) as Hl by apply grown_length.
  assert (Forall (λ x, 0 ≤ x)%Z (history_map g)) as Hnn by by apply u8_nn, grown_u8.
  pose proof (Nat.div_mod_eq (length map) LEN) as Hdm.
  assert (Forall (λ j, j < length map) (seq (length map - length map mod LEN) (length map mod LEN))) as Hr.
  { apply Forall_forall. intros j Hj%elem_of_seq. lia. }
  change (StdMap.usable_count obs) with (length map). unfold gained. rewrite hits_split.
  set (a := filter _ (seq 0 _)). set (b := filter _ (seq (_ - _) _)).
  assert (simd_collect (history_map g) map (seq 0 (length map / LEN)) = Ok (bool_decide (a ≠ []), a)) as Hc.
  { apply (simd_collect_hits _ Hnn map Hl 0). lia. }
  assert (simd_any (history_map g) map (seq 0 (length map / LEN)) = Ok (bool_decide (a ≠ []))) as Ha.
  { apply (simd_any_hits _ Hnn map Hl 0). lia. }
  assert (bool_decide (a ++ b ≠ []) = bool_decide (a ≠ []) || bool_decide (b ≠ [])) as ->.
  { rewrite <-bool_decide_or. apply bool_decide_ext. destruct a; cbn; naive_solver. }
  destruct self as [[nov|] name ref stats]; cbn [novelties fmap option_fmap option_map]; unfold bind, lift, ret.
  - rewrite Hc. by rewrite (greater_in_hits _ Hnn map Hl) by done.
  - rewrite Ha. destruct (bool_decide (a ≠ [])); [done|].
    by rewrite (any_greater_hits _ Hnn map Hl) by done.
Qed.
End Search.

(** *** Taking a map into the history *)

Definition nonzero (h : list Z) : nat := length (filter (λ x, x ≠ 0%Z) h).

Lemma nonzero_insert h i old v : h !! i = Some old →
  nonzero (<[i := v]> h) + (if (old =? 0)%Z then 0 else 1) = nonzero h + (if (v =? 0)%Z then 0 else 1).
Proof.
  unfold nonzero. revert i. induction h as [|x h IH]; intros [|i] Hi; [done|done| |].
  - injection Hi as ->. cbn [insert list_insert]. rewrite !filter_cons.
    destruct (Z.eqb_spec old 0), (Z.eqb_spec v 0); repeat case_decide; cbn [length]; try congruence; lia.
  - cbn [lookup list_lookup] in Hi. specialize (IH i Hi). cbn [insert list_insert]. rewrite !filter_cons.
    case_decide; cbn [length]; unfold insert in *; lia.
Qed.

Lemma max_nn old v : (0 ≤ old)%Z → (0 ≤ v)%Z → v ≠ 0%Z →
  reduce (Reducer := MaxReducer) old v = Z.max old v ∧ (Z.max old v =? 0)%Z = false.
Proof.
  intros Ho Hv Hne. unfold reduce, MaxReducer. destruct (Z.ltb_spec v old); split; lia.
Qed.

(** The loop of [append_metadata] from index [i] on: entries below [i] stay, the others become the
    maximum, the counter follows the number of non-zero entries. *)
Lemma absorb_spec items i h c :
  i + length items ≤ length h → Forall is_u8 h → Forall is_u8 items → c = nonzero h →
  ∃ h', absorb (H := MaxReducer) 0 i items h c =
      Ok (h', nonzero h', set_indices_from i ((λ v, negb (v =? 0)%Z) <$> items)) ∧
    length h' = length h ∧ Forall is_u8 h' ∧
    (∀ j, j < i → h' !! j = h !! j) ∧
    (∀ j, i ≤ j → default 0%Z (h' !! j) =
       Z.max (default 0%Z (h !! j)) (default 0%Z (items !! (j - i)))).
Proof.
  revert i h c. induction items as [|v items IH]; intros i h c Hl Hh Hi ->.
  { exists h. split_and!; [done..|]. intros j Hj. cbn. apply eq_sym, Z.max_l.
    destruct (h !! j) as [x|] eqn:E; [|done]. by apply (Forall_lookup_1 _ _ _ _ Hh E). }
  apply Forall_cons in Hi as [Hv Hi]. cbn [length] in Hl. cbn [absorb fmap list_fmap set_indices_from].
  destruct (lookup_lt_is_Some_2 h i) as [old Hold]; [lia|].
  pose proof (Forall_lookup_1 _ _ _ _ Hh Hold) as Ho. unfold is_u8 in Hv, Ho.
  assert (∀ j, i < j → default 0%Z ((v :: items) !! (j - i)) = default 0%Z (items !! (j - S i))) as Hsh.
  { intros j Hj. by replace (j - i) with (S (j - S i)) by lia. }
  destruct (Z.eqb_spec v 0) as [->|Hne]; cbn [negb].
  - destruct (IH (S i) h (nonzero h)) as (h' & -> & L & U & B & A); [lia|done..|].
    exists h'. split_and!; [done|done|done| |].
    + intros j Hj. apply B. lia.
    + intros j Hj. destruct (decide (j = i)) as [->|].
      * rewrite B, Hold, Nat.sub_diag by lia. cbn. lia.
      * rewrite A, Hsh by lia. done.
  - rewrite Hold. cbn [unwrap obind]. destruct (max_nn old v) as [-> Hz]; [lia|lia|done|]. rewrite Hz. cbn [negb].
    pose proof (nonzero_insert h i old (Z.max old v) Hold) as Hn. rewrite Hz in Hn.
    destruct (IH (S i) (<[i := Z.max old v]> h) (if (old =? 0)%Z && true then S (nonzero h) else nonzero h))
      as (h' & -> & L & U & B & A).
    + rewrite length_insert. lia.
    + apply Forall_insert; [done|]. unfold is_u8. lia.
    + done.
    + destruct (old =? 0)%Z; cbn [andb]; lia.
    + rewrite length_insert in L. exists h'. split_and!; [done|done|done| |].
      * intros j Hj. rewrite B by lia. by rewrite list_lookup_insert_ne by lia.
      * intros j Hj. destruct (decide (j = i)) as [->|].
        -- rewrite B, Hold, Nat.sub_diag, list_lookup_insert_eq by lia. cbn. lia.
        -- rewrite A, Hsh, list_lookup_insert_ne by lia. done.
Qed.

(** The metadata of a feedback: entries of [u8], and the counter is the number of entries that
    differ from the initial value (the debug assertion of [append_metadata]). *)
Definition map_inv (m : MapFeedbackMetadata) : Prop :=
  u8_map m ∧ num_covered_map_indexes m = nonzero (history_map m).

(** A map of the program under test. *)
Definition coverage (obs : MapObserver) : Prop := mo_initial obs = 0%Z ∧ Forall is_u8 (mo_entries obs).

(** The history after a map: the maximum, entry by entry. *)
Definition absorbed (m m' : MapFeedbackMetadata) (obs : MapObserver) : Prop :=
  map_inv m' ∧
  ∀ j, default 0%Z (history_map m' !! j) =
       Z.max (default 0%Z (history_map m !! j)) (default 0%Z (mo_entries obs !! j)).

Lemma nonzero_grown len m : nonzero (history_map (grown len 0 m)) = nonzero (history_map m).
Proof.
  unfold grown. destruct (Nat.ltb_spec (length (history_map m)) len); [|done]. cbn.
  unfold nonzero, resize. rewrite take_ge by lia. rewrite filter_app, length_app.
  induction (len - length (history_map m)) as [|n IH]; [cbn; lia|].
  cbn [replicate]. rewrite (filter_cons _ 0%Z). by rewrite decide_False by (intros []; done).
Qed.

Lemma grown_inv len m : map_inv m → map_inv (grown len 0 m).
Proof.
  intros [Hu Hn]. split; [by apply grown_u8|]. by rewrite grown_covered, nonzero_grown.
Qed.

Section Append.
Context `{Env}.
Abbreviation append := (append_metadata (H := MaxReducer)).

Lemma append_run track self obs tc s m : named_maps s !! mf_name self = Some m → map_inv m → coverage obs →
  ∃ m' e, append track self (Some obs) tc s =
    (match fire_result e with
     | Ok _ => Ok (self <| novelties := (λ _, []) <$> novelties self |>,
                   let tc := match novelties self with Some l => tc <| tc_novelties := Some l |> | None => tc end in
                   if track then tc <| tc_map_indexes := Some (MapIndexesMetadata_new (hit_indices obs)) |> else tc)
     | Err er => Err er
     | Panic => Panic
     end,
     (put_map (mf_name self) m' (put_map (mf_name self) (grown (length (mo_entries obs)) 0 m) s))
       <| events := events s ++ [e] |>) ∧ absorbed m m' obs.
Proof.
  intros Hm [Hu Hc] [H0 Hobs].
  set (g := grown (length (mo_entries obs)) 0 m).
  destruct (absorb_spec (mo_entries obs) 0 (history_map g) (num_covered_map_indexes m))
    as (h' & Habs & L & U & _ & A).
  { apply grown_length. } { by apply grown_u8. } { done. } { unfold g. by rewrite nonzero_grown. }
  eexists (mkMapFeedbackMeta h' (nonzero h')), _. split.
  2: { split; [done|]. intros j. cbn [history_map]. rewrite A by lia. unfold g. by rewrite grown_at, Nat.sub_0_r. }
  unfold append_metadata. unfold hit_indices, set_indices.
  assert (∀ t sf, mf_name sf = mf_name self → stats_name sf = stats_name self →
    (observer <- lift (unwrap (Some obs)) ;;
     map_state <- grow_history sf (StdMap.len observer) (mo_initial observer) ;;
     r <- lift (absorb (H := MaxReducer) (mo_initial observer) 0 (mo_entries observer) (history_map map_state)
                  (num_covered_map_indexes map_state)) ;;
     let '(history, covered, indices) := r : list Z * usize * list usize in
     modify (put_map (mf_name sf) (mkMapFeedbackMeta history covered)) ;;;
     fire (UpdateUserStats (stats_name sf) (mkUserStats (Ratio (Z.of_nat covered) (Z.of_nat (length history))) AggAvg)) ;;;
     ret (sf, if track then t <| tc_map_indexes := Some (MapIndexesMetadata_new indices) |> else t)) s =
    (match fire_result (UpdateUserStats (stats_name self)
        (mkUserStats (Ratio (Z.of_nat (nonzero h')) (Z.of_nat (length h'))) AggAvg)) with
     | Ok _ => Ok (sf, if track then t <| tc_map_indexes := Some (MapIndexesMetadata_new
                 (set_indices_from 0 ((λ v, negb (v =? mo_initial obs)%Z) <$> mo_entries obs))) |> else t)
     | Err er => Err er
     | Panic => Panic
     end,
     (put_map (mf_name self) (mkMapFeedbackMeta h' (nonzero h')) (put_map (mf_name self) g s))
       <| events := events s ++ [UpdateUserStats (stats_name self)
          (mkUserStats (Ratio (Z.of_nat (nonzero h')) (Z.of_nat (length h'))) AggAvg)] |>)) as Hrun.
  { intros t sf Hn Hst. unfold bind at 1, lift at 1, unwrap at 1. unfold bind at 1.
    rewrite grow_history_run, Hn, Hm, H0. fold g. unfold bind at 1, lift at 1.
    change (StdMap.len obs) with (length (mo_entries obs)). fold g.
    unfold g at 2. rewrite grown_covered. rewrite Habs.
    rewrite bind_modify. unfold bind at 1, fire, ret. rewrite Hst. by destruct (fire_result _). }
  destruct self as [[l|] name ref stats]; cbn [novelties fmap option_fmap option_map].
  - apply (Hrun _ (mkMapFeedback (Some []) name ref stats)); done.
  - apply (Hrun _ (mkMapFeedback None name ref stats)); done.
Qed.
End Append.

(** C21. The search that compares sixteen entries at a time gives the same answer, finds the same
    novelties and leaves the same state as the generic search, for every map whose initial value
    is 0; without an observer or without the metadata both panic. *)
Theorem simd_equivalent self obs s :
  (∀ o, obs = Some o → mo_initial o = 0%Z) →
  (∀ m, named_maps s !! mf_name self = Some m → u8_map m) →
  is_interesting_u8_simd_optimized self obs s =
  is_interesting_default (H := MaxReducer) (H0 := DifferentIsNovel) self obs s.
Proof.
  intros Hi Hu. destruct obs as [o|]; [|done].
  destruct (named_maps s !! mf_name self) as [m|] eqn:Hm.
  - rewrite (simd_run _ _ _ m), (is_interesting_run _ _ (Hi o eq_refl) _ m); auto.
  - unfold is_interesting_u8_simd_optimized, is_interesting_default.
    assert (∀ len fill A (k : _ → M State A),
      bind (grow_history self len fill) k s = (Panic, s)) as Hp.
    { intros. unfold bind. by rewrite grow_history_run, Hm. }
    cbn [unwrap]. by rewrite !bind_lift, !Hp.
Qed.

(** An execution is interesting exactly when some entry of its map exceeds the history (an entry
    the history does not have counts as 0), and the novelties are those entries in
    increasing order; the search changes nothing but the length of the history. *)
Theorem is_interesting_spec self obs s m :
  named_maps s !! mf_name self = Some m → u8_map m → mo_initial obs = 0%Z →
  ∃ b self' m', is_interesting_default (H := MaxReducer) (H0 := DifferentIsNovel) self (Some obs) s =
      (Ok (b, self'), put_map (mf_name self) m' s) ∧
    (b = true ↔ ∃ j, above (history_map m) (mo_entries obs) j ∧ j < length (mo_entries obs)) ∧
    (∀ l, novelties self' = Some l → ∀ j, j ∈ l ↔
       j < length (mo_entries obs) ∧ above (history_map m) (mo_entries obs) j) ∧
    (∀ l, novelties self' = Some l → StronglySorted lt l) ∧
    (∀ j, default 0%Z (history_map m' !! j) = default 0%Z (history_map m !! j)) ∧
    num_covered_map_indexes m' = num_covered_map_indexes m.
Proof.
  intros Hm Hu H0. eexists _, _, _. split; [by apply is_interesting_run|].
  assert (∀ j, j ∈ gained (history_map m) (mo_entries obs) ↔
    j < length (mo_entries obs) ∧ above (history_map m) (mo_entries obs) j) as Hin.
  { intros j. unfold gained. rewrite list_elem_of_filter, elem_of_seq. naive_solver lia. }
  assert (∀ l, novelties (self <| novelties := (λ _, gained (history_map m) (mo_entries obs)) <$> novelties self |>)
    = Some l → l = gained (history_map m) (mo_entries obs)) as Hl.
  { intros l Hl. cbn in Hl. destruct (novelties self); [|done]. by injection Hl as <-. }
  split_and!.
  - rewrite bool_decide_eq_true. split.
    + intros Hne. destruct (gained _ _) as [|j js]; [done|]. exists j. apply and_comm, Hin. left.
    + intros (j & Hj & Hlt) Hnil. assert (j ∈ gained (history_map m) (mo_entries obs)) as Hj' by by apply Hin.
      rewrite Hnil in Hj'. by apply elem_of_nil in Hj'.
  - intros l ->%Hl. apply Hin.
  - intros l ->%Hl. unfold gained. apply sorted_filter, sorted_seq.
  - intros j. apply grown_at.
  - apply grown_covered.
Qed.

(** ** The history of a campaign *)

Section Campaign.
Context `{Env}.

(** One execution: the search, and the new history if the map is interesting. *)
Definition observe (track_indices : bool) (self : MapFeedback) (obs : MapObserver) (tc : Testcase) :
    M State (option Testcase) :=
  r <- is_interesting_default (H := MaxReducer) (H0 := DifferentIsNovel) self (Some obs) ;;
  if (r.1 : bool) then
    p <- append_metadata (H := MaxReducer) track_indices r.2 (Some obs) tc ;; ret (Some p.2)
  else ret None.

Fixpoint observe_all (track_indices : bool) (self : MapFeedback) (runs : list (MapObserver * Testcase))
    (s : State) : State :=
  match runs with
  | [] => s
  | (obs, tc) :: runs => observe_all track_indices self runs (observe track_indices self obs tc s).2
  end.

Lemma put_map_at name m s : named_maps (put_map name m s) !! name = Some m.
Proof. apply lookup_insert_eq. Qed.

Lemma not_gained h obs : gained h (mo_entries obs) = [] → Forall (λ x, 0 ≤ x)%Z h →
  ∀ j, (default 0 (mo_entries obs !! j) ≤ default 0 (h !! j))%Z.
Proof.
  intros Hg Hh j. destruct (decide (j < length (mo_entries obs))) as [Hj|Hj].
  - destruct (Z.le_gt_cases (default 0 (mo_entries obs !! j)) (default 0 (h !! j)))%Z as [?|Hgt]; [done|].
    assert (j ∈ gained h (mo_entries obs)) as Hin.
    { apply list_elem_of_filter. split; [exact Hgt|]. apply elem_of_seq. lia. }
    rewrite Hg in Hin. by apply elem_of_nil in Hin.
  - rewrite lookup_ge_None_2 by lia. cbn. destruct (h !! j) as [x|] eqn:E; [|done].
    by eapply Forall_lookup_1 in Hh.
Qed.

Lemma absorbed_gained m m' obs : absorbed m m' obs → gained (history_map m') (mo_entries obs) = [].
Proof.
  intros [_ Ha]. destruct (gained _ _) as [|j js] eqn:E; [done|].
  assert (j ∈ gained (history_map m') (mo_entries obs)) as Hj by (rewrite E; left).
  apply list_elem_of_filter in Hj as [Hj _]. unfold above in Hj. rewrite Ha in Hj. lia.
Qed.

Lemma observe_step track self obs tc s m :
  named_maps s !! mf_name self = Some m → map_inv m → coverage obs →
  ∃ m', named_maps (observe track self obs tc s).2 !! mf_name self = Some m' ∧ absorbed m m' obs.
Proof.
  intros Hm Hinv Hobs. pose proof Hinv as [Hu _]. pose proof Hobs as [H0 _]. unfold observe, bind.
  rewrite (is_interesting_run self obs H0 s m Hm Hu). cbn [fst snd].
  set (g := grown (length (mo_entries obs)) 0 m).
  assert (map_inv g) as Hg by by apply grown_inv.
  case_bool_decide as Hf.
  - set (self' := self <| novelties := _ |>). set (s1 := put_map (mf_name self) g s).
    destruct (append_run track self' obs tc s1 g) as (m' & e & -> & Ha); [apply put_map_at|done|done|].
    exists m'. split.
    + destruct (fire_result e); apply put_map_at.
    + destruct Ha as [Hi Ha]. split; [done|]. intros j. rewrite Ha. unfold g. by rewrite grown_at.
  - exists g. split; [apply put_map_at|]. split; [done|]. intros j. unfold g. rewrite grown_at.
    symmetry. apply Z.max_l. by apply not_gained; [|apply u8_nn].
Qed.

(** C22. Over any sequence of executions, whatever the event manager answers, the history is the
    entry-wise maximum of its start and all maps seen, interesting or not; the counter is the number
    of its non-zero entries, and no map that was seen is interesting any more. *)
Theorem map_history_exact track self runs s m :
  named_maps s !! mf_name self = Some m → map_inv m → Forall (λ r, coverage r.1) runs →
  ∃ m', named_maps (observe_all track self runs s) !! mf_name self = Some m' ∧ map_inv m' ∧
    (∀ j, default 0%Z (history_map m' !! j) =
       foldr (λ r x, Z.max (default 0%Z (mo_entries r.1 !! j)) x) (default 0%Z (history_map m !! j)) runs) ∧
    (∀ obs, obs ∈ runs.*1 → gained (history_map m') (mo_entries obs) = []).
Proof.
  intros Hm Hinv Hruns. revert s m Hm Hinv. induction Hruns as [|[obs tc] runs Hobs Hruns IH]; intros s m Hm Hinv.
  { exists m. split_and!; [done|done|done|]. intros obs Hin. by apply elem_of_nil in Hin. }
  cbn [observe_all]. destruct (observe_step track self obs tc s m Hm Hinv Hobs) as (m1 & Hm1 & Hab).
  destruct (IH _ m1 Hm1) as (m' & Hm' & Hi' & Hmax & Hg); [apply Hab|].
  assert (∀ j, default 0 (history_map m1 !! j) ≤ default 0 (history_map m' !! j))%Z as Hle.
  { intros j. rewrite Hmax. clear. induction runs as [|r runs IH]; cbn; lia. }
  exists m'. split_and!; [done|done| |].
  - intros j. rewrite Hmax. destruct Hab as [_ Ha]. rewrite Ha. cbn [foldr fst]. clear.
    generalize (default 0%Z (history_map m !! j)), (default 0%Z (mo_entries obs !! j)). intros h e.
    induction runs as [|r runs IH]; cbn [foldr]; lia.
  - cbn. intros o [->|Ho]%elem_of_cons; [|by apply Hg].
    destruct (gained (history_map m') (mo_entries obs)) as [|j js] eqn:E; [done|].
    assert (j ∈ gained (history_map m') (mo_entries obs)) as Hj by (rewrite E; left).
    apply list_elem_of_filter in Hj as [Hj _]. unfold above in Hj. destruct Hab as [_ Ha].
    specialize (Ha j). specialize (Hle j). lia.
Qed.
End Campaign.

(** ** The next power of two *)

Lemma next_power_of_two w n : (0 < w → 1 < n ≤ 2 ^ w - 1 →
  saturating_next_power_of_two w n = Z.min (2 ^ w - 1) (2 ^ (Z.log2 (n - 1) + 1)))%Z.
Proof.
  intros Hw Hn. unfold saturating_next_power_of_two, saturating_add1, leading_zeros, max_value.
  destruct (Z.leb_spec n 1); [lia|]. destruct (Z.eqb_spec (n - 1) 0); [lia|].
  set (k := Z.log2 (n - 1)). pose proof (Z.log2_nonneg (n - 1)) as Hk0. fold k in Hk0.
  assert (k < w)%Z as Hk. { apply Z.log2_lt_pow2; lia. }
  f_equal. rewrite Z.shiftr_div_pow2 by lia.
  assert (2 ^ w = 2 ^ (k + 1) * 2 ^ (w - 1 - k))%Z as Hp.
  { rewrite <-Z.pow_add_r by lia. f_equal. lia. }
  assert (0 < 2 ^ (w - 1 - k))%Z by (apply Z.pow_pos_nonneg; lia).
  assert ((2 ^ w - 1) / 2 ^ (w - 1 - k) = 2 ^ (k + 1) - 1)%Z as ->; [|lia].
  symmetry. apply (Z.div_unique _ _ _ (2 ^ (w - 1 - k) - 1)); [left; lia|]. rewrite Hp. lia.
Qed.

(** With this criterion a value is new exactly when a power of two lies between it and the old one,
    or when it reaches the largest value of its type. *)
Theorem next_pow2_novel w old new :
  (0 < w)%Z → (0 ≤ old ≤ max_value w)%Z → (0 ≤ new ≤ max_value w)%Z →
  NextPow2IsNovel w old new = true ↔
    (∃ p, 0 ≤ p ∧ old < 2 ^ p ≤ new)%Z ∨ (old < new ∧ new = max_value w)%Z.
Proof.
  unfold NextPow2IsNovel, max_value. intros Hw Ho Hn.
  destruct (Z.leb_spec new old) as [Hle|Hlt].
  { split; [done|]. intros [(p & ? & ?)|[? ?]]; lia. }
  rewrite Z.leb_le. unfold saturating_add1, max_value. rewrite Z.min_r by lia.
  destruct (Z.eq_dec old 0%Z) as [->|Hne].
  { change (saturating_next_power_of_two w (0 + 1)) with 1%Z. split; [|lia].
    intros _. left. exists 0%Z. change (2 ^ 0)%Z with 1%Z. lia. }
  rewrite next_power_of_two by lia. replace (old + 1 - 1)%Z with old by lia.
  destruct (Z.log2_spec old) as [Hlo Hhi]; [lia|]. rewrite <-Z.add_1_r in Hhi.
  pose proof (Z.log2_nonneg old). split.
  - intros Hq. destruct (Z.le_gt_cases (2 ^ (Z.log2 old + 1)) new) as [Hc|Hc].
    + left. exists (Z.log2 old + 1)%Z. lia.
    + right. lia.
  - intros [(p & Hp & Hb)|[_ ->]]; [|lia].
    assert (Z.log2 old < p)%Z as Hlp. { apply Z.log2_lt_pow2; lia. }
    assert (2 ^ (Z.log2 old + 1) ≤ 2 ^ p)%Z by (apply Z.pow_le_mono_r; lia). lia.
Qed.

(** ** Concrete maps *)

Definition demo_cov : MapObserver := mkMapObserver 0 (replicate 16 0%Z ++ [1; 0; 4; 0]%Z).
Definition demo_mf : MapFeedback := new false "edges".
Definition demo_fed : State := (init_state demo_mf (empty_state (Rands.RomuDuoJr.with_seed 1))).2.

Lemma demo_cov_ok : coverage demo_cov.
Proof. split; [done|]. repeat constructor; done. Qed.

Lemma simd_equivalent_witness :
  (is_interesting_u8_simd_optimized demo_mf (Some demo_cov) demo_fed).1 = Ok (true, demo_mf).
Proof.
  rewrite simd_equivalent; [vm_compute; reflexivity|by intros o [= <-]|].
  intros m [= <-]. constructor.
Defined.

Lemma is_interesting_spec_witness :
  ∃ self' s', is_interesting_default (H := MaxReducer) (H0 := DifferentIsNovel) (new true "edges")
      (Some demo_cov) demo_fed = (Ok (true, self'), s') ∧
    ∀ l, novelties self' = Some l → 18 ∈ l.
Proof.
  destruct (is_interesting_spec (new true "edges") demo_cov demo_fed MapFeedbackMetadata_default)
    as (b & self' & m' & Hrun & Hb & Hn & _); [done|constructor|done|].
  assert (above (history_map MapFeedbackMetadata_default) (mo_entries demo_cov) 18) as Hab by done.
  assert (b = true) as -> by (apply Hb; exists 18; split; [exact Hab|cbn; lia]).
  exists self'. eexists. split; [exact Hrun|]. intros l Hl. apply (Hn l Hl). split; [cbn; lia|exact Hab].
Defined.

Lemma map_history_exact_witness :
  ∃ m', named_maps (observe_all (H := toy_env) true demo_mf [(demo_cov, Testcase_new [])] demo_fed)
      !! "edges"%string = Some m' ∧
    num_covered_map_indexes m' = 2 ∧ gained (history_map m') (mo_entries demo_cov) = [].
Proof.
  destruct (map_history_exact (H := toy_env) true demo_mf [(demo_cov, Testcase_new [])] demo_fed
    MapFeedbackMetadata_default) as (m' & Hm & _ & _ & Hg).
  - done.
  - split; [constructor|done].
  - constructor; [exact demo_cov_ok|constructor].
  - exists m'. split_and!; [exact Hm| |apply Hg; left].
    vm_compute in Hm. by injection Hm as <-.
Defined.

Lemma next_pow2_novel_witness :
  NextPow2IsNovel 8 128%Z 255%Z = true ∧ ¬ (NextPow2IsNovel 8 2%Z 3%Z = true).
Proof.
  split.
  - apply (next_pow2_novel 8 128 255); [done|done|done|]. right. done.
  - rewrite (next_pow2_novel 8 2 3); [|done|done|done]. intros [(p & Hp & Hb)|[_ Hm]]; [|done].
    assert (p = 0 ∨ p = 1 ∨ 2 ≤ p)%Z as [->|[->|Hp2]] by lia; [lia|lia|].
    assert (2 ^ 2 ≤ 2 ^ p)%Z by (apply Z.pow_le_mono_r; lia). lia.
Defined.
