(* ===== verification/CreditFeedback.v ===== *)
(** * CreditFeedback: the two BOFuzz feedbacks

    [SancovIndexFeedback] ([feature_sched/sancov_index_feedback.rs]) records which
    sancov sites a new testcase hits and how many edges are new;
    [FrontierCreditFeedback] ([feature_sched/frontier_credit_feedback.rs]) updates
    the frontier and credits the features of the local frontier with the new edges.
    Neither is ever interesting by itself; their work is in [append_metadata]. *)

From Stdlib Require Import ZArith Lia.
From S2P Require Import Prelude Float64 FloatFacts Metadata State FrontierSets MaskSelection FeaturesMap MapObserver.

Module SancovIndexFeedback.
Section Feedback.
Context `{Env}.

Record t := mkFeedback { name : string; edge_name : string }.
Definition new (map_name : string) : t := mkFeedback map_name "edges".

Definition is_interesting : M State bool := ret false.

Definition append_metadata (self : t) (obs : option MapObserver) (testcase : Testcase) :
    M State Testcase :=
  map <- lift (ok_or obs (unknown "sancov observer not found" [])) ;;
  let idx := hit_indices map in
  let testcase := match idx with
                  | [] => testcase
                  | _ => testcase <| tc_sancov := Some idx |>
                  end in
  current_covered_edges <- gets (λ s, Z.of_nat (default 0 (num_covered_map_indexes <$> named_maps s !! edge_name self))) ;;
  last_covered_edges <- gets (λ s, default 0%Z (m_progress s)) ;;
  let delta_edges := sat_sub current_covered_edges last_covered_edges in
  modify (λ s, s <| m_progress := Some current_covered_edges |>) ;;;
  cov <- gets (λ s, default [] (covered <$> m_frontier s)) ;;
  let newly_covered_sancov := filter (λ i, bitset_get cov i = false) idx in
  iteration <- gets tpe_current_iteration ;;
  modify (λ s, s <| m_delta :=
    Some (mkCoverageDelta iteration delta_edges newly_covered_sancov) |>) ;;;
  fire (UpdateUserStats (name self)
          (mkUserStats (Ratio (Z.of_nat (length (default [] (tc_sancov testcase))))
                              (Z.of_nat (length (mo_entries map)))) AggAvg)) ;;;
  ret testcase.
End Feedback.
End SancovIndexFeedback.

Module FrontierCreditFeedback.

Definition is_interesting : M State bool := ret false.

(** The mass of one feature on the local nodes; a negative value is an error. *)
Fixpoint local_mass_of (arr : list f64) (nodes : list usize) (mass : f64) : outcome Error f64 :=
  match nodes with
  | [] => Ok mass
  | node :: nodes =>
    let value := default f0 (arr !! node) in
    if flt value f0 then
      Err (illegal_state "negative feature value forbidden under simplex mode" [])
    else local_mass_of arr nodes (if is_finite value then fadd mass value else mass)
  end.

Definition local_mass (matrix : gmap string (list f64)) (names : list string)
    (nodes : list usize) : outcome Error (list f64) :=
  mapM (λ name, match matrix !! name with
                | Some arr => local_mass_of arr nodes f0
                | None => Ok f0
                end) names.

Definition credit_delta (delta_edges : u64) (mass : list f64) : list f64 :=
  let denom := fsum mass in
  if flt EPS denom && (0 <? delta_edges)%Z then
    (λ m, fmax (fdiv (fmul (of_Z delta_edges) m) denom) f0) <$> mass
  else replicate (length mass) f0.

(** The update of the cumulative credits, the same for both phases. *)
Definition add_credits (dim : usize) (iteration delta_edges : u64) (delta : list f64)
    (meta : CreditMeta) : CreditMeta :=
  let credits := if length (cr_credits meta) =? dim then cr_credits meta
                 else resize dim f0 (cr_credits meta) in
  mkCredit iteration
    (zip_with (λ c d, fmax (fadd c d) f0) credits delta ++ drop (length delta) credits)
    (sat_add (cr_total_delta_edges meta) delta_edges).

Definition append_metadata (testcase : Testcase) : M State () :=
  oacfg <- gets m_acfg ;;
  match oacfg with
  | None => ret ()
  | Some acfg =>
    omatrix <- gets m_matrix ;;
    match omatrix with
    | None => ret ()
    | Some _ =>
      delta <- gets (λ s, default CoverageDeltaMeta_default (m_delta s)) ;;
      match cd_newly_covered_sancov delta with
      | [] => ret ()
      | _ =>
        let testcase_covered := default [] (tc_sancov testcase) in
        changed <- update_frontier_meta (cd_newly_covered_sancov delta) ;;
        if negb changed then ret ()
        else
          let local_nodes := local_frontier_nodes (cd_newly_covered_sancov delta)
                               testcase_covered acfg in
          active_names <- gets get_active_feature_names ;;
          match active_names with
          | [] => ret ()
          | _ =>
            omatrix <- gets m_matrix ;;
            matrix <- lift (ok_or omatrix (illegal_state "FeaturesMatrixMeta missing" [])) ;;
            mass <- lift (local_mass (fmx_matrix matrix) active_names local_nodes) ;;
            let cdelta := credit_delta (cd_delta_edges delta) mass in
            tpe_meta <- gets (λ s, default TpeIterationMeta_default (m_tpe s)) ;;
            let iteration := if (current_iteration tpe_meta =? 0)%Z then cd_iteration delta
                             else current_iteration tpe_meta in
            let add := add_credits (length active_names) iteration (cd_delta_edges delta) cdelta in
            match phase tpe_meta with
            | Explore =>
              meta <- gets (λ s, add (default CreditMeta_default (m_explore s))) ;;
              modify (λ s, s <| m_explore := Some meta |>) ;;;
              modify (λ s, s <| m_explore_history := Some (default [] (m_explore_history s) ++
                [mkExploreEntry iteration None (cd_delta_edges delta) local_nodes cdelta
                   (cr_credits meta)]) |>)
            | ph =>
              meta <- gets (λ s, add (default CreditMeta_default (m_runtime s))) ;;
              modify (λ s, s <| m_runtime := Some meta |>) ;;;
              modify (λ s, s <| m_runtime_history := Some (default [] (m_runtime_history s) ++
                [mkRuntimeEntry iteration ph None (cd_delta_edges delta) local_nodes cdelta
                   (cr_credits meta)]) |>)
            end
          end
      end
    end
  end.
End FrontierCreditFeedback.

(** ** Sancov indexes *)

Section SancovFacts.
Context `{Env}.
Import SancovIndexFeedback.

(** The state after the feedback, whatever the event manager answers. *)
Lemma sancov_append_run self map tc s :
  let idx := hit_indices map in
  let cur := Z.of_nat (default 0 (num_covered_map_indexes <$> named_maps s !! edge_name self)) in
  let '(r, s') := append_metadata self (Some map) tc s in
  m_progress s' = Some cur ∧
  m_delta s' = Some (mkCoverageDelta (tpe_current_iteration s)
    (sat_sub cur (default 0%Z (m_progress s)))
    (filter (λ i, bitset_get (default [] (covered <$> m_frontier s)) i = false) idx)) ∧
  m_frontier s' = m_frontier s ∧ corpus s' = corpus s ∧
  (∀ tc', r = Ok tc' → tc' = match idx with [] => tc | _ => tc <| tc_sancov := Some idx |> end).
Proof.
  cbv zeta. unfold append_metadata, bind, lift, gets, modify, fire. simpl.
  destruct (fire_result _) as [[]|e|]; simpl; split_and!; try done. by intros tc' [= <-].
Qed.

(** After [append_metadata] the delta lists, in increasing order, exactly the sites
    this execution hit that the frontier did not cover, and counts the edges
    gained since the last call; the testcase remembers all its hit sites. *)
Theorem sancov_append_spec self map tc s r s' :
  append_metadata self (Some map) tc s = (r, s') →
  ∃ d, m_delta s' = Some d ∧
    StronglySorted lt (cd_newly_covered_sancov d) ∧
    (∀ i, i ∈ cd_newly_covered_sancov d ↔
       (∃ v, mo_entries map !! i = Some v ∧ v ≠ mo_initial map) ∧ is_covered s i = false) ∧
    (0 ≤ cd_delta_edges d)%Z ∧
    m_progress s' = Some (Z.of_nat (default 0 (num_covered_map_indexes <$> named_maps s !! edge_name self))) ∧
    (∀ tc', r = Ok tc' → hit_indices map ≠ [] → tc_sancov tc' = Some (hit_indices map)).
Proof.
  intros Hrun. pose proof (sancov_append_run self map tc s) as Hs. cbv zeta in Hs.
  rewrite Hrun in Hs. destruct Hs as (Hp & Hd & _ & _ & Ht).
  eexists. split; [exact Hd|]. simpl. split_and!.
  - apply sorted_filter. unfold hit_indices. apply set_indices_sorted.
  - intros i. rewrite list_elem_of_filter, hit_indices_spec.
    unfold is_covered. destruct (m_frontier s) as [fm|]; simpl; [naive_solver|].
    assert (bitset_get [] i = false) by done. naive_solver.
  - unfold sat_sub. lia.
  - done.
  - intros tc' ->%Ht Hne. by destruct (hit_indices map).
Qed.
End SancovFacts.

(** ** Credits *)

Module CreditFacts.
Import FrontierCreditFeedback.

Lemma local_mass_of_fnn arr nodes acc m : Forall fvalid arr → fnn acc →
  local_mass_of arr nodes acc = Ok m → fnn m.
Proof.
  intros HV. revert acc. induction nodes as [|node nodes IH]; intros acc Ha; cbn [local_mass_of].
  { by intros [= <-]. }
  set (value := default f0 (arr !! node)). destruct (flt value f0) eqn:N; [done|].
  apply IH. destruct (is_finite value) eqn:F; [|done]. apply fadd_fnn; [done|].
  apply fnn_guard; [|by destruct value|done].
  unfold value. destruct (arr !! node) as [x|] eqn:E; simpl; [|done].
  rewrite Forall_lookup in HV. by eapply HV.
Qed.

Lemma local_mass_of_good arr nodes acc : Forall (λ x, flt x f0 = false) arr →
  ∃ m, local_mass_of arr nodes acc = Ok m.
Proof.
  intros HG. revert acc. induction nodes as [|node nodes IH]; intros acc; cbn [local_mass_of]; [eauto|].
  set (value := default f0 (arr !! node)).
  assert (flt value f0 = false) as ->; [|apply IH].
  unfold value. destruct (arr !! node) as [x|] eqn:E; simpl; [|done].
  rewrite Forall_lookup in HG. by eapply HG.
Qed.

Lemma local_mass_fnn matrix names nodes mass : map_valid matrix →
  local_mass matrix names nodes = Ok mass → length mass = length names ∧ Forall fnn mass.
Proof.
  intros Hm H. unfold local_mass in H. split; [by eapply mapM_length|].
  apply mapM_Ok_Forall2 in H. induction H as [|name m names ms Hn _ IH]; constructor; [|done].
  destruct (matrix !! name) as [arr|] eqn:E; [|by injection Hn as <-].
  eapply local_mass_of_fnn; [by eapply Hm|apply f0_fnn|exact Hn].
Qed.

Definition matrix_nonneg (matrix : gmap string (list f64)) : Prop :=
  ∀ name arr, matrix !! name = Some arr → Forall (λ x, flt x f0 = false) arr.

Lemma local_mass_good matrix names nodes : matrix_nonneg matrix →
  ∃ mass, local_mass matrix names nodes = Ok mass.
Proof.
  intros Hm. unfold local_mass. induction names as [|name names [ms IH]]; [by exists []|].
  cbn [mapM].
  assert (∃ m, match matrix !! name with Some arr => local_mass_of arr nodes f0
               | None => Ok f0 end = Ok m) as [m ->].
  { destruct (matrix !! name) as [arr|] eqn:E; [|eauto]. apply local_mass_of_good. by eapply Hm. }
  simpl. rewrite IH. simpl. eauto.
Qed.

Lemma local_mass_of_no_panic arr nodes acc : local_mass_of arr nodes acc ≠ Panic.
Proof.
  revert acc. induction nodes as [|node nodes IH]; intros acc; cbn [local_mass_of]; [done|].
  destruct (flt _ f0); [done|]. apply IH.
Qed.

Lemma local_mass_no_panic matrix names nodes : local_mass matrix names nodes ≠ Panic.
Proof.
  unfold local_mass. induction names as [|name names IH]; cbn [mapM]; [done|].
  destruct (matrix !! name) as [arr|]; simpl.
  - pose proof (local_mass_of_no_panic arr nodes f0) as Hp.
    destruct (local_mass_of arr nodes f0); simpl; [|done..]. by destruct (mapM _ names).
  - by destruct (mapM _ names).
Qed.

Lemma credit_delta_fnn de mass : Forall fnn mass →
  length (credit_delta de mass) = length mass ∧ Forall fnn (credit_delta de mass).
Proof.
  intros HF. unfold credit_delta. cbv zeta. destruct (_ && _).
  - rewrite length_fmap. split; [done|]. apply Forall_fmap.
    eapply Forall_impl; [exact HF|]. intros m Hm. simpl. apply fnn_max0.
    assert (fvalid (fsum mass)) by (apply fnn_valid, fold_fadd_fnn; [apply fneg0_fnn|done]).
    auto with f64.
  - rewrite length_replicate. split; [done|]. by apply Forall_replicate.
Qed.

(** [a <= b] on non-NaN floats, infinities included. *)
Lemma fmax_fadd_ge c d : fnn c → fnn d → fle c (fmax (fadd c d) f0) = true.
Proof.
  intros Hc Hd. pose proof (fadd_fnn c d Hc Hd) as Hs. unfold fmax.
  rewrite (fnn_not_nan _ Hs), (fnn_not_neg _ Hs).
  destruct (is_finite (fadd c d)) eqn:F.
  - destruct (fadd_ge c d Hc Hd F) as (Fc & _ & Hle & _).
    apply fle_fv; [by apply fnn_valid|by apply fnn_valid|done|done|done].
  - destruct Hs as [_ Hs]. destruct (fadd c d) as [| [] | |]; try done.
    destruct Hc as [_ Hc]. by destruct c as [|[]| |].
Qed.

Lemma add_credits_spec dim it de delta meta :
  length delta = dim → Forall fnn delta → Forall fnn (cr_credits meta) →
  let meta' := add_credits dim it de delta meta in
  length (cr_credits meta') = dim ∧ Forall fnn (cr_credits meta') ∧
  (length (cr_credits meta) = dim →
     Forall2 (λ c c', fle c c' = true) (cr_credits meta) (cr_credits meta')).
Proof.
  intros Hl Hd Hc. unfold add_credits. cbv zeta. cbn [cr_credits].
  set (credits := if _ : bool then _ else _).
  assert (length credits = dim ∧ Forall fnn credits) as [Hlc Hfc].
  { unfold credits. destruct (Nat.eqb_spec (length (cr_credits meta)) dim); [done|].
    split; [apply resize_length|]. unfold resize. apply Forall_app. split.
    - by apply Forall_take.
    - by apply Forall_replicate. }
  rewrite drop_ge, app_nil_r by lia. split_and!.
  - rewrite length_zip_with. lia.
  - apply Forall_lookup. intros i x (c & d & -> & Hci & Hdi)%lookup_zip_with_Some.
    rewrite Forall_lookup in Hfc, Hd. apply fnn_max0, fnn_valid, fadd_fnn; eauto.
  - intros Hm. unfold credits. rewrite Hm, Nat.eqb_refl.
    apply Forall2_same_length_lookup_2; [rewrite length_zip_with; lia|].
    intros i c c' Hci (c0 & d & -> & Hci' & Hdi)%lookup_zip_with_Some. simplify_eq.
    rewrite Forall_lookup in Hc, Hd. apply fmax_fadd_ge; eauto.
Qed.

Definition credit_inv (s : State) : Prop :=
  (∀ m, m_explore s = Some m → Forall fnn (cr_credits m)) ∧
  (∀ m, m_runtime s = Some m → Forall fnn (cr_credits m)).

Definition tpe_phase (s : State) : TpePhase := phase (default TpeIterationMeta_default (m_tpe s)).

(** What one call may do to the credits: the history gains one entry that records
    the new cumulative credits, and no credit decreases. *)
Definition credited (o o' : option CreditMeta) : Prop :=
  ∃ m', o' = Some m' ∧ Forall fnn (cr_credits m') ∧
    ∀ m, o = Some m → length (cr_credits m) = length (cr_credits m') →
      Forall2 (λ c c', fle c c' = true) (cr_credits m) (cr_credits m').

Lemma credit_append_ok tc s r s' :
  append_metadata tc s = (r, s') →
  matrix_valid s → credit_inv s → frontier_coherent s →
  frontier_coherent s' ∧ credit_inv s' ∧ m_tpe s' = m_tpe s ∧ r ≠ Panic ∧
  ((∀ mx, m_matrix s = Some mx → matrix_nonneg (fmx_matrix mx)) → r = Ok ()) ∧
  (m_explore s' = m_explore s ∧ m_runtime s' = m_runtime s ∧
     m_explore_history s' = m_explore_history s ∧ m_runtime_history s' = m_runtime_history s ∨
   tpe_phase s = Explore ∧ m_runtime s' = m_runtime s ∧
     m_runtime_history s' = m_runtime_history s ∧ credited (m_explore s) (m_explore s') ∨
   tpe_phase s ≠ Explore ∧ m_explore s' = m_explore s ∧
     m_explore_history s' = m_explore_history s ∧ credited (m_runtime s) (m_runtime s')).
Proof.
  intros Hrun Hm Hinv Hco. unfold append_metadata, bind, gets in Hrun.
  destruct (m_acfg s) as [acfg|] eqn:Ea; [|injection Hrun as <- <-; split_and!; (done || by left)].
  destruct (m_matrix s) as [mx0|] eqn:Em; [|injection Hrun as <- <-; split_and!; (done || by left)].
  set (delta := default CoverageDeltaMeta_default (m_delta s)) in *.
  destruct (cd_newly_covered_sancov delta) as [|i0 l0] eqn:Ed;
    [injection Hrun as <- <-; split_and!; (done || by left)|].
  rewrite <-Ed in Hrun. clear i0 l0 Ed.
  destruct (update_frontier_meta_spec (cd_newly_covered_sancov delta) s Hco)
    as (changed & s1 & Hup & Hco1 & _).
  destruct (update_frontier_keeps (cd_newly_covered_sancov delta) s) as [fm Hs1].
  rewrite Hup in Hrun, Hs1. simpl in Hs1.
  assert (m_explore s1 = m_explore s ∧ m_runtime s1 = m_runtime s ∧ m_tpe s1 = m_tpe s ∧
    m_explore_history s1 = m_explore_history s ∧ m_runtime_history s1 = m_runtime_history s ∧
    m_matrix s1 = Some mx0 ∧ m_acfg s1 = Some acfg) as (E1 & E2 & E3 & E4 & E5 & E6 & E7)
    by (rewrite Hs1; simpl; split_and!; done).
  assert (credit_inv s1) as Hinv1 by (unfold credit_inv; by rewrite E1, E2).
  destruct changed; simpl in Hrun;
    [|injection Hrun as <- <-; split_and!; (done || by left)].
  destruct (get_active_feature_names s1) as [|n0 ns0] eqn:En;
    [injection Hrun as <- <-; split_and!; (done || by left)|].
  rewrite <-En in Hrun. set (names := get_active_feature_names s1) in *. clear n0 ns0 En.
  rewrite E6 in Hrun. unfold lift in Hrun. simpl in Hrun.
  set (nodes := local_frontier_nodes _ _ _) in *.
  destruct (local_mass (fmx_matrix mx0) names nodes) as [mass|e|] eqn:Emass.
  2: { injection Hrun as <- <-. split_and!; [done|done|done|done| |by left].
       intros Hnn. destruct (local_mass_good (fmx_matrix mx0) names nodes) as [ms Hms];
         [by apply Hnn|]. congruence. }
  2: { exfalso. destruct (local_mass_no_panic (fmx_matrix mx0) names nodes Emass). }
  destruct (local_mass_fnn _ _ _ _ (Hm mx0 Em) Emass) as [Hlm Hfm].
  destruct (credit_delta_fnn (cd_delta_edges delta) mass Hfm) as [Hld Hfd].
  set (it := if (_ =? 0)%Z then _ else _) in *.
  assert (∀ o, (∀ m, o = Some m → Forall fnn (cr_credits m)) →
    credited o (Some (add_credits (length names) it (cd_delta_edges delta)
      (credit_delta (cd_delta_edges delta) mass) (default CreditMeta_default o)))) as Hcred.
  { intros o Ho. eexists. split; [done|].
    assert (Forall fnn (cr_credits (default CreditMeta_default o))) as Hfo
      by (destruct o; simpl; [by apply Ho|constructor]).
    destruct (add_credits_spec (length names) it (cd_delta_edges delta)
      (credit_delta (cd_delta_edges delta) mass) (default CreditMeta_default o)) as (L & F & G);
      [lia|done|done|].
    split; [done|]. intros m -> Hlen. apply G. simpl in *. congruence. }
  destruct Hinv1 as [I1 I2]. unfold tpe_phase. rewrite <-E3.
  destruct (phase (default TpeIterationMeta_default (m_tpe s1))) eqn:Eph; simpl in Hrun;
    injection Hrun as <- <-.
  { specialize (Hcred (m_explore s1) I1). split_and!; [done| |done|done|done|].
    - split; simpl; [|done]. intros m [= <-]. destruct Hcred as (m' & [= <-] & HF & _). done.
    - right. left. split_and!; [done|done|done|]. by rewrite <-E1. }
  all: specialize (Hcred (m_runtime s1) I2); split_and!; [done| |done|done|done|].
  1,3,5: split; simpl; [done|]; intros m [= <-]; destruct Hcred as (m' & [= <-] & HF & _); done.
  all: right; right; split_and!; [done|done|done|]; by rewrite <-E2.
Qed.

(** *** What is paid

    The value of a feature at a site (0 where there is none), its mass on a list of sites, and its share of the new edges, which is
    proportional to the mass. *)
Definition value_at (matrix : gmap string (list f64)) (name : string) (node : usize) : f64 :=
  default f0 (arr ← matrix !! name; arr !! node).
Definition mass_on (matrix : gmap string (list f64)) (nodes : list usize) (name : string) : f64 :=
  foldl (λ m node, if is_finite (value_at matrix name node) then fadd m (value_at matrix name node) else m) f0 nodes.
Definition share (matrix : gmap string (list f64)) (names : list string) (nodes : list usize) (edges : u64) (name : string) : f64 :=
  let total := fsum (mass_on matrix nodes <$> names) in
  if flt EPS total && (0 <? edges)%Z then fmax (fdiv (fmul (of_Z edges) (mass_on matrix nodes name)) total) f0 else f0.
Definition negative (matrix : gmap string (list f64)) (names : list string) (nodes : list usize) : Prop :=
  ∃ name node, name ∈ names ∧ node ∈ nodes ∧ flt (value_at matrix name node) f0 = true.

Definition delta_of (s : State) : CoverageDeltaMeta := default CoverageDeltaMeta_default (m_delta s).
(** Features are paid when a reported site is really new. *)
Definition payday (acfg : SancovAcfgMeta) (mx : FeaturesMatrixMeta) (s : State) : Prop :=
  m_acfg s = Some acfg ∧ m_matrix s = Some mx ∧ get_active_feature_names s ≠ [] ∧
  ∃ i, i < n_sancov_sites acfg ∧ i ∈ cd_newly_covered_sancov (delta_of s) ∧ is_covered s i = false.
Definition same_credits (s s' : State) : Prop :=
  m_explore s' = m_explore s ∧ m_runtime s' = m_runtime s ∧
  m_explore_history s' = m_explore_history s ∧ m_runtime_history s' = m_runtime_history s.
(** From the credits [o] to [m]: every feature has its share more, and none has less than before. *)
Definition paid (names : list string) (shares : string → f64) (edges : u64) (o : option CreditMeta) (m : CreditMeta) : Prop :=
  let old i := default f0 (default [] (cr_credits <$> o) !! i) in
  length (cr_credits m) = length names ∧
  (∀ i name, names !! i = Some name → cr_credits m !! i = Some (fmax (fadd (old i) (shares name)) f0) ∧
     fle (old i) (fmax (fadd (old i) (shares name)) f0) = true) ∧
  cr_total_delta_edges m = sat_add (default 0%Z (cr_total_delta_edges <$> o)) edges.
(** What a payment leaves, by the phase. *)
Definition payment (names : list string) (shares : string → f64) (nodes : list usize) (s s' : State) : Prop :=
  let edges := cd_delta_edges (delta_of s) in
  ∃ it m, match tpe_phase s with
  | Explore => m_explore s' = Some m ∧ paid names shares edges (m_explore s) m ∧
      m_explore_history s' = Some (default [] (m_explore_history s) ++ [mkExploreEntry it None edges nodes (shares <$> names) (cr_credits m)]) ∧
      m_runtime s' = m_runtime s ∧ m_runtime_history s' = m_runtime_history s
  | ph => m_runtime s' = Some m ∧ paid names shares edges (m_runtime s) m ∧
      m_runtime_history s' = Some (default [] (m_runtime_history s) ++ [mkRuntimeEntry it ph None edges nodes (shares <$> names) (cr_credits m)]) ∧
      m_explore s' = m_explore s ∧ m_explore_history s' = m_explore_history s
  end.

Lemma local_mass_of_exact arr nodes acc :
  local_mass_of arr nodes acc =
  if decide (Exists (λ node, flt (default f0 (arr !! node)) f0 = true) nodes)
  then Err (illegal_state "negative feature value forbidden under simplex mode" [])
  else Ok (foldl (λ m node, if is_finite (default f0 (arr !! node)) then fadd m (default f0 (arr !! node)) else m) acc nodes).
Proof.
  revert acc. induction nodes as [|node nodes IH]; intros acc; cbn [local_mass_of foldl].
  { rewrite decide_False; [done|]. by intros ?%Exists_nil. }
  destruct (flt (default f0 (arr !! node)) f0) eqn:E; [by rewrite decide_True by (by left)|]. rewrite IH.
  apply decide_ext. rewrite Exists_cons. naive_solver congruence.
Qed.

Lemma zero_mass nodes : foldl (λ m (_ : usize), if is_finite f0 then fadd m f0 else m) f0 nodes = f0.
Proof. induction nodes as [|node nodes IH]; [done|]. exact IH. Qed.

Lemma local_mass_exact matrix names nodes :
  (negative matrix names nodes → ∃ e, local_mass matrix names nodes = Err e) ∧
  (¬ negative matrix names nodes → local_mass matrix names nodes = Ok (mass_on matrix nodes <$> names)).
Proof.
  unfold local_mass. induction names as [|name names [IH1 IH2]]; [split; [by intros (? & ? & ?%elem_of_nil & _)|done]|].
  assert (match matrix !! name with Some arr => local_mass_of arr nodes f0 | None => Ok f0 end =
    if decide (Exists (λ node, flt (value_at matrix name node) f0 = true) nodes)
    then Err (illegal_state "negative feature value forbidden under simplex mode" []) else Ok (mass_on matrix nodes name)) as E1.
  { unfold mass_on, value_at. destruct (matrix !! name) as [arr|]; cbn [mbind option_bind]; [apply local_mass_of_exact|].
    rewrite decide_False by (intros (? & ? & H)%Exists_exists; by vm_compute in H). cbn [default]. by rewrite zero_mass. }
  assert (negative matrix (name :: names) nodes ↔ Exists (λ node, flt (value_at matrix name node) f0 = true) nodes ∨ negative matrix names nodes) as Hneg.
  { unfold negative. rewrite Exists_exists. setoid_rewrite elem_of_cons. naive_solver. }
  cbn [mapM]. rewrite E1, Hneg. case_decide as Hd.
  - split; [|naive_solver]. intros _. by eexists.
  - split.
    + intros [?|Hn]; [done|]. destruct (IH1 Hn) as [e ->]. by eexists.
    + intros Hn. rewrite IH2 by tauto. done.
Qed.

Lemma credit_delta_shares matrix names nodes edges :
  credit_delta edges (mass_on matrix nodes <$> names) = share matrix names nodes edges <$> names.
Proof.
  unfold credit_delta, share. cbv zeta. destruct (_ && _).
  - rewrite <-list_fmap_compose. done.
  - rewrite length_fmap. by induction names as [|x names IH]; [|cbn; f_equal].
Qed.

Lemma add_credits_paid names shares it edges o : Forall fnn (shares <$> names) → (∀ m, o = Some m → Forall fnn (cr_credits m)) →
  paid names shares edges o (add_credits (length names) it edges (shares <$> names) (default CreditMeta_default o)).
Proof.
  intros Hs Ho. unfold paid, add_credits. cbv zeta. cbn [cr_credits cr_total_delta_edges].
  set (old := default [] (cr_credits <$> o)).
  assert (cr_credits (default CreditMeta_default o) = old ∧ cr_total_delta_edges (default CreditMeta_default o) = default 0%Z (cr_total_delta_edges <$> o))
    as [-> ->] by by destruct o.
  assert (Forall fnn old) as Hfo by (unfold old; destruct o; [by apply Ho|constructor]).
  set (credits := if _ : bool then _ else _).
  assert (length credits = length names ∧ ∀ i, i < length names → credits !! i = Some (default f0 (old !! i))) as [Hl Hc].
  { unfold credits. destruct (Nat.eqb_spec (length old) (length names)) as [E|E].
    - split; [done|]. intros i Hi. rewrite <-E in Hi. by apply lookup_lt_is_Some_2 in Hi as [x ->].
    - split; [apply resize_length|]. intros i Hi. unfold resize. destruct (decide (i < length old)) as [Hio|Hio].
      + rewrite lookup_app_l by (rewrite length_take; lia). rewrite lookup_take_lt by done. by apply lookup_lt_is_Some_2 in Hio as [x ->].
      + rewrite lookup_app_r by (rewrite length_take; lia). rewrite (lookup_ge_None_2 old) by lia.
        apply lookup_replicate. rewrite length_take. split; [done|lia]. }
  rewrite drop_ge, app_nil_r by (rewrite length_fmap; lia). split_and!; [rewrite length_zip_with, length_fmap; lia| |done].
  intros i name Hi. pose proof (lookup_lt_Some _ _ _ Hi) as Hlt. split.
  - rewrite lookup_zip_with, (Hc i Hlt), list_lookup_fmap, Hi. done.
  - apply fmax_fadd_ge; [|rewrite Forall_fmap, Forall_lookup in Hs; by apply (Hs i)].
    destruct (old !! i) as [x|] eqn:E; [|apply f0_fnn]. rewrite Forall_lookup in Hfo. by eapply Hfo.
Qed.

(** The state after a payment. *)
Definition pay (it edges : u64) (names : list string) (nodes : list usize) (delta : list f64) (s : State) : State :=
  match tpe_phase s with
  | Explore =>
    let m := add_credits (length names) it edges delta (default CreditMeta_default (m_explore s)) in
    s <| m_explore := Some m |>
      <| m_explore_history := Some (default [] (m_explore_history s) ++ [mkExploreEntry it None edges nodes delta (cr_credits m)]) |>
  | ph =>
    let m := add_credits (length names) it edges delta (default CreditMeta_default (m_runtime s)) in
    s <| m_runtime := Some m |>
      <| m_runtime_history := Some (default [] (m_runtime_history s) ++ [mkRuntimeEntry it ph None edges nodes delta (cr_credits m)]) |>
  end.

(** There is nothing to look at, or there is. *)
Definition looks (acfg : SancovAcfgMeta) (mx : FeaturesMatrixMeta) (s : State) : Prop :=
  m_acfg s = Some acfg ∧ m_matrix s = Some mx ∧ cd_newly_covered_sancov (delta_of s) ≠ [].
Lemma append_idle tc s : (∃ acfg mx, looks acfg mx s) ∨ append_metadata tc s = (Ok (), s) ∧ ∀ acfg mx, ¬ looks acfg mx s.
Proof.
  unfold append_metadata, bind, gets, looks. destruct (m_acfg s) as [acfg|]; [|right; split; [done|]; by intros ?? [? _]].
  destruct (m_matrix s) as [mx|]; [|right; split; [done|]; by intros ?? (_ & ? & _)]. fold (delta_of s).
  destruct (cd_newly_covered_sancov (delta_of s)) eqn:En; [right; split; [done|]; by intros ?? (_ & _ & ?)|left; by exists acfg, mx].
Qed.
Lemma looks_new acfg mx s i : m_acfg s = Some acfg → m_matrix s = Some mx → i ∈ cd_newly_covered_sancov (delta_of s) → looks acfg mx s.
Proof. intros ?? Hi. split_and!; [done..|]. intros E. rewrite E in Hi. by apply elem_of_nil in Hi. Qed.

Lemma credit_append_run tc s acfg mx changed s1 : m_acfg s = Some acfg → m_matrix s = Some mx → cd_newly_covered_sancov (delta_of s) ≠ [] →
  update_frontier_meta (cd_newly_covered_sancov (delta_of s)) s = (Ok changed, s1) → m_matrix s1 = Some mx →
  let names := get_active_feature_names s1 in
  let nodes := local_frontier_nodes (cd_newly_covered_sancov (delta_of s)) (default [] (tc_sancov tc)) acfg in
  ∃ it, append_metadata tc s =
    if negb changed || bool_decide (names = []) then (Ok (), s1)
    else match local_mass (fmx_matrix mx) names nodes with
         | Ok mass => (Ok (), pay it (cd_delta_edges (delta_of s)) names nodes (credit_delta (cd_delta_edges (delta_of s)) mass) s1)
         | Err e => (Err e, s1)
         | Panic => (Panic, s1)
         end.
Proof.
  intros Ea Em Hne Hup Em1. cbv zeta. eexists. unfold append_metadata, bind, gets, lift. rewrite Ea, Em. fold (delta_of s).
  destruct (cd_newly_covered_sancov (delta_of s)) as [|i0 l0]; [done|]. rewrite Hup. destruct changed; cbn [negb orb]; [|done].
  destruct (get_active_feature_names s1) as [|n0 ns0]; [done|]. rewrite bool_decide_false by done. rewrite Em1. cbn [ok_or].
  destruct (local_mass _ _ _) as [mass|e|]; [|done..]. unfold pay, tpe_phase. by destruct (phase (default TpeIterationMeta_default (m_tpe s1))).
Qed.

Lemma pay_payment it names shares nodes s s1 : Forall fnn (shares <$> names) → credit_inv s → same_credits s s1 → m_tpe s1 = m_tpe s →
  payment names shares nodes s (pay it (cd_delta_edges (delta_of s)) names nodes (shares <$> names) s1).
Proof.
  intros Hs [I1 I2] (S1 & S2 & S3 & S4) Et. unfold payment, pay. cbv zeta. unfold tpe_phase. rewrite Et, S1, S2, S3, S4.
  pose proof (add_credits_paid names shares it (cd_delta_edges (delta_of s)) (m_explore s) Hs I1) as HE.
  pose proof (add_credits_paid names shares it (cd_delta_edges (delta_of s)) (m_runtime s) Hs I2) as HR.
  exists it. destruct (phase (default TpeIterationMeta_default (m_tpe s))); eexists; split_and!; [reflexivity|eassumption|reflexivity|done|done..].
Qed.

(** C11. What [append_metadata] does to the credits, exactly.  A site that was reported as newly covered and is in range is covered
    afterwards, and the frontier stays coherent.  If one of them was not covered before and there are active features, each of them is paid its share
    of the new edges, in proportion to its mass on the local frontier, into the credits of the current phase, with one entry of that phase's history; the other
    phase's credits stay.  A negative feature value on the local frontier is the only error, and then, as when there is nothing to pay, all
    credits stay. *)
Theorem credit_append_spec tc s r s' :
  append_metadata tc s = (r, s') →
  matrix_valid s → credit_inv s → frontier_coherent s →
  frontier_coherent s' ∧ credit_inv s' ∧ m_tpe s' = m_tpe s ∧ r ≠ Panic ∧
  (∀ acfg mx, m_acfg s = Some acfg → m_matrix s = Some mx → ∀ i, is_covered s' i = true ↔
     is_covered s i = true ∨ (i < n_sancov_sites acfg ∧ i ∈ cd_newly_covered_sancov (delta_of s))) ∧
  (∀ acfg mx, payday acfg mx s →
     let names := get_active_feature_names s in
     let nodes := local_frontier_nodes (cd_newly_covered_sancov (delta_of s)) (default [] (tc_sancov tc)) acfg in
     (negative (fmx_matrix mx) names nodes → (∃ e, r = Err e) ∧ same_credits s s') ∧
     (¬ negative (fmx_matrix mx) names nodes → r = Ok () ∧
        payment names (share (fmx_matrix mx) names nodes (cd_delta_edges (delta_of s))) nodes s s')) ∧
  ((∀ acfg mx, ¬ payday acfg mx s) → r = Ok () ∧ same_credits s s').
Proof.
  intros Hrun Hm Hinv Hco. destruct (credit_append_ok tc s r s' Hrun Hm Hinv Hco) as (H1 & H2 & H3 & H4 & _). do 4 (split; [done|]). clear H1 H2 H3 H4.
  destruct (append_idle tc s) as [(acfg & mx & Ea & Em & En)|[E Hno]].
  2: { rewrite E in Hrun. injection Hrun as <- <-. split; [|split; [|done]].
       - intros acfg mx Ea Em i. split; [by left|]. intros [?|[_ Hi]]; [done|]. by destruct (Hno acfg mx (looks_new acfg mx s i Ea Em Hi)).
       - intros acfg mx (Ea & Em & _ & i & _ & Hi & _). by destruct (Hno acfg mx (looks_new acfg mx s i Ea Em Hi)). }
  destruct (update_frontier_meta_spec (cd_newly_covered_sancov (delta_of s)) s Hco) as (changed & s1 & Hup & _ & Hspec & _).
  destruct (Hspec acfg Ea) as [Hcov Hch]. destruct (update_frontier_keeps (cd_newly_covered_sancov (delta_of s)) s) as [fm Hs1]. rewrite Hup in Hs1. cbn [snd] in Hs1.
  assert (get_active_feature_names s1 = get_active_feature_names s ∧ m_matrix s1 = Some mx ∧ m_tpe s1 = m_tpe s ∧ same_credits s s1) as (En1 & Em1 & Et1 & Sc1)
    by (rewrite Hs1; done).
  destruct (credit_append_run tc s acfg mx changed s1 Ea Em En Hup Em1) as [it E]. rewrite Hrun, En1 in E. clear Hrun.
  set (names := get_active_feature_names s) in *. set (nodes := local_frontier_nodes _ _ _) in E.
  assert (∀ acfg' mx', m_acfg s = Some acfg' → m_matrix s = Some mx' → acfg' = acfg ∧ mx' = mx) as Hsame by (intros; split; congruence).
  assert (∀ s2, m_frontier s2 = m_frontier s1 → ∀ acfg' mx', m_acfg s = Some acfg' → m_matrix s = Some mx' → ∀ i, is_covered s2 i = true ↔
     is_covered s i = true ∨ (i < n_sancov_sites acfg' ∧ i ∈ cd_newly_covered_sancov (delta_of s))) as Hcov'.
  { intros s2 Ef acfg' mx' Ea' Em' i. destruct (Hsame _ _ Ea' Em') as [-> _]. rewrite <-Hcov. unfold is_covered. by rewrite Ef. }
  destruct (negb changed || bool_decide (names = [])) eqn:Eb.
  { injection E as -> ->. split; [by apply Hcov'|]. split; [|done]. intros acfg' mx' (Ea' & Em' & Hne & Hx). exfalso. destruct (Hsame _ _ Ea' Em') as [-> ->].
    rewrite (proj2 Hch Hx) in Eb. by rewrite bool_decide_false in Eb by done. }
  apply orb_false_iff in Eb as [Eb1 Eb2]. apply negb_false_iff in Eb1. apply bool_decide_eq_false in Eb2.
  assert (payday acfg mx s) as Hday by (split_and!; [done..|by apply Hch]).
  destruct (local_mass_exact (fmx_matrix mx) names nodes) as [Hbad Hgood].
  assert (m_frontier s' = m_frontier s1 ∧ (negative (fmx_matrix mx) names nodes → (∃ e, r = Err e) ∧ same_credits s s') ∧
    (¬ negative (fmx_matrix mx) names nodes → r = Ok () ∧ payment names (share (fmx_matrix mx) names nodes (cd_delta_edges (delta_of s))) nodes s s')) as (Ef & Hb & Hg).
  { destruct (local_mass (fmx_matrix mx) names nodes) as [mass|e|] eqn:Emass; injection E as -> ->.
    - split; [unfold pay; by destruct (tpe_phase s1)|]. split; [intros Hn; by destruct (Hbad Hn)|]. intros Hn. split; [done|].
      specialize (Hgood Hn). injection Hgood as ->. rewrite credit_delta_shares. apply pay_payment; [|done..]. rewrite <-credit_delta_shares.
      apply credit_delta_fnn. by eapply local_mass_fnn, Emass; apply Hm.
    - split; [done|]. split; [intros _; by split; [eexists|]|]. intros Hn. by specialize (Hgood Hn).
    - by destruct (local_mass_no_panic (fmx_matrix mx) names nodes). }
  split; [by apply Hcov'|]. split; [|intros Hno; by destruct (Hno acfg mx Hday)].
  intros acfg' mx' (Ea' & Em' & _). destruct (Hsame _ _ Ea' Em') as [-> ->]. by split.
Qed.
End CreditFacts.

(** ** Concrete runs *)

(** The testcase hit the sites 0 and 2 of the branch [demo_acfg]. *)
Definition demo_map : MapObserver := mkMapObserver 0%Z [1; 0; 3]%Z.
Definition demo_hit : Testcase := (Testcase_new []) <| tc_sancov := Some [0; 2] |>.
Definition demo_feedback : State :=
  demo_state <| m_acfg := Some demo_acfg |> <| m_delta := Some (mkCoverageDelta 0 2 [0; 2]) |>.

Lemma sancov_append_spec_witness :
  ∃ r s' d, SancovIndexFeedback.append_metadata (H := toy_env) (SancovIndexFeedback.new "sancov")
              (Some demo_map) (Testcase_new []) demo_feedback = (r, s') ∧
    m_delta s' = Some d ∧ StronglySorted lt (cd_newly_covered_sancov d).
Proof.
  destruct (SancovIndexFeedback.append_metadata (H := toy_env) (SancovIndexFeedback.new "sancov")
              (Some demo_map) (Testcase_new []) demo_feedback) as [r s'] eqn:E.
  destruct (sancov_append_spec (H := toy_env) _ _ _ _ _ _ E) as (d & Hd & HS & _).
  by exists r, s', d.
Defined.

(** The two sites are new, and two edges with them: the feature [loops] has twice the mass of [calls] on them, and is paid 4/3 of
    an edge against 2/3. *)
Lemma demo_payday : CreditFacts.payday demo_acfg demo_matrix demo_feedback.
Proof. split_and!; [done..|by vm_compute|]. exists 0. split_and!; [cbn; lia|by left|done]. Qed.
Lemma demo_not_negative : ¬ CreditFacts.negative (fmx_matrix demo_matrix) (get_active_feature_names demo_feedback)
  (local_frontier_nodes (cd_newly_covered_sancov (CreditFacts.delta_of demo_feedback)) (default [] (tc_sancov demo_hit)) demo_acfg).
Proof.
  assert (get_active_feature_names demo_feedback = ["loops"; "calls"]) as -> by (vm_compute; reflexivity).
  assert (local_frontier_nodes (cd_newly_covered_sancov (CreditFacts.delta_of demo_feedback)) (default [] (tc_sancov demo_hit)) demo_acfg = [0; 2]) as ->
    by (vm_compute; reflexivity).
  intros (name & node & Hn & Hi & Hneg). rewrite !elem_of_cons, elem_of_nil in Hn. rewrite !elem_of_cons, elem_of_nil in Hi.
  destruct Hn as [->|[->|[]]], Hi as [->|[->|[]]]; by vm_compute in Hneg.
Qed.

Lemma credit_append_spec_witness :
  ∃ s' m, FrontierCreditFeedback.append_metadata demo_hit demo_feedback = (Ok (), s') ∧
    frontier_coherent s' ∧ CreditFacts.credit_inv s' ∧ is_covered s' 2 = true ∧
    m_explore s' = Some m ∧ cr_credits m !! 0 = Some (fdiv (of_Z 4) (of_Z 3)) ∧ cr_credits m !! 1 = Some (fdiv (of_Z 2) (of_Z 3)).
Proof.
  destruct (FrontierCreditFeedback.append_metadata demo_hit demo_feedback) as [r s'] eqn:E.
  destruct (CreditFacts.credit_append_spec _ _ _ _ E) as (Hf & Hc & _ & _ & Hcov & Hpay & _).
  - intros mx [= <-]. exact demo_matrix_valid.
  - by split.
  - by intros ? ? _ ?.
  - destruct (Hpay demo_acfg demo_matrix demo_payday) as [_ Hgood]. destruct (Hgood demo_not_negative) as [-> (it & m & Em & (_ & Hcr & _) & _)].
    clear E Hgood Hpay. exists s', m. split; [done|]. split; [exact Hf|]. split; [exact Hc|]. split; [|split; [exact Em|]].
    + apply (Hcov demo_acfg demo_matrix eq_refl eq_refl). right. split; [cbn; lia|]. right. by left.
    + split; [destruct (Hcr 0 "loops") as [-> _]|destruct (Hcr 1 "calls") as [-> _]]; vm_compute; reflexivity.
Defined.
