(* ===== verification/AccountingStage.v ===== *)
(** * AccountingStage: [feature_sched/accounting_stage.rs]

    The stage that runs on the current corpus entry: fills in missing sancov
    indexes, and gives the entry its performance multiplier (or removes it when the
    features are off). *)

From Stdlib Require Import ZArith Lia.
From S2P Require Import Prelude Float64 FloatFacts Corpus Metadata State FrontierSets MaskSelection FeaturesMap Factor WeightRefresh MapObserver CreditFeedback.

Definition fmt_vec_short (v : list f64) (maxn : usize) : Msg :=
  let take_n := Nat.min (length v) maxn in
  let s := AJoin "," (AFloat 3 <$> take take_n v) in
  let s := if take_n <? length v then AJoin "" [s; AStr ",..."] else s in
  fmt "[{}](len={})" [s; ANat (length v)].

Definition mode_name (m : WeightComputeMode) : string :=
  match m with Frontier => "Frontier" | Path => "Path" end.

Section Accounting.
Context `{Env} `{Libm}.

Definition features_summary (s : State) (mode : WeightComputeMode) (weight factor : f64) : Msg :=
  let params := get_factor_params s in
  let v_now := get_current_weight_vec s in
  fmt "enabled={}, active={}, feat_mode={}, feat_exists={}, mode={:?}, alpha={:.2}, beta={:.2}, gmin={:.2}, gmax={:.2}, use_tanh={}, active_dim={}, v_candidates_len={}, current_v={}, simplex_sum={:.6}, feat0={:.3}, weight={:.3}, factor={:.3}"
    [ABool (get_features_enabled s); ABool (get_features_active s); ANat (get_feat_mode s);
     ABool (get_feat_exists s); AStr (mode_name mode); AFloat 2 (fp_alpha params);
     AFloat 2 (fp_beta params); AFloat 2 (fp_gmin params); AFloat 2 (fp_gmax params);
     ABool (fp_use_tanh params); ANat (get_active_dim s); ANat (length (get_v_candidates s));
     AMsg (fmt_vec_short v_now (get_active_dim s)); AFloat 6 (fsum v_now);
     AFloat 3 (get_feat0 s); AFloat 3 weight; AFloat 3 factor].

(** Fill in the indexes of an entry that has none, from the observer. *)
Definition fill_indexes (obs : option MapObserver) (cid : CorpusId) : M State () :=
  entry <- read_testcase cid ;;
  match tc_sancov entry with
  | Some _ => ret ()
  | None =>
    sancov <- lift (ok_or obs (unknown "sancov observer not found" [])) ;;
    match hit_indices sancov with
    | [] => ret ()
    | idx => change_testcase cid (λ tc, tc <| tc_sancov := Some idx |>)
    end
  end.

Definition perform (obs : option MapObserver) : M State () :=
  current <- gets (λ s, InMemory.current (corpus s)) ;;
  match current with
  | None => ret ()
  | Some cid =>
    fill_indexes obs cid ;;;
    enabled <- gets get_features_enabled ;;
    if negb enabled then
      change_testcase cid (λ tc, tc <| tc_perf_mult := None |>)
    else
      feat0 <- gets (λ s, default f0 (m_feats s ≫= head)) ;;
      modify (set_feat0 feat0) ;;;
      params <- gets get_factor_params ;;
      entry <- read_testcase cid ;;
      s <- gets (λ s, s) ;;
      factor <- lift (compute_factor params s entry) ;;
      change_testcase cid (λ tc, tc <| tc_perf_mult := Some factor |>) ;;;
      mode <- gets weight_mode ;;
      entry <- read_testcase cid ;;
      let weight := default f0 (entry_weight mode entry) in
      s <- gets (λ s, s) ;;
      fire (UpdateUserStats "features-info" (mkUserStats (StatString (features_summary s mode weight factor)) AggNone))
  end.

Definition should_restart : M State bool := ret false.
Definition clear_progress : M State () := ret ().

(** ** Facts *)

Import InMemoryFacts.

Lemma read_testcase_ok cid s tc : tc_at (corpus s) cid = Some tc →
  read_testcase cid s = (Ok tc, s).
Proof. intros Ht. unfold read_testcase. apply get_tc_at in Ht. by rewrite Ht. Qed.

Lemma fill_indexes_ok map cid s tc : tc_at (corpus s) cid = Some tc →
  ∃ s' tc', fill_indexes (Some map) cid s = (Ok (), s') ∧ same_ids s s' ∧
    tc_at (corpus s') cid = Some tc' ∧
    (∀ x, x ≠ cid → tc_at (corpus s') x = tc_at (corpus s) x) ∧
    tc' = match tc_sancov tc, hit_indices map with
          | None, (_ :: _) as idx => tc <| tc_sancov := Some idx |>
          | _, _ => tc
          end.
Proof.
  intros Ht. unfold fill_indexes, bind. rewrite (read_testcase_ok _ _ _ Ht).
  destruct (tc_sancov tc) as [l|] eqn:El; [exists s, tc; split_and!; done || reflexivity|].
  unfold lift. simpl. destruct (hit_indices map) as [|i idx] eqn:Ei;
    [exists s, tc; split_and!; done || reflexivity|].
  destruct (change_testcase_ok cid (λ tc, tc <| tc_sancov := Some (i :: idx) |>) s tc Ht)
    as (s' & -> & Hs & Hl).
  exists s', (tc <| tc_sancov := Some (i :: idx) |>). split_and!; [done|done| | |done].
  - by rewrite Hl, decide_True.
  - intros x Hx. by rewrite Hl, decide_False.
Qed.

Context `{!LibmLaws _}.

(** The stage touches only the current entry.  With the features off the entry
    loses its multiplier; with the features on (and sane parameters) it ends with
    a multiplier within the bounds, whatever the event manager answers. *)
Theorem accounting_spec map s cid tc r s' :
  perform (Some map) s = (r, s') →
  InMemory.current (corpus s) = Some cid → tc_at (corpus s) cid = Some tc →
  params_ok (get_factor_params s) → weights_valid tc →
  (∀ st, m_stats s = Some st → stats_valid st) →
  (∀ x, x ≠ cid → tc_at (corpus s') x = tc_at (corpus s) x) ∧
  (get_features_enabled s = false →
     r = Ok () ∧ ∃ tc', tc_at (corpus s') cid = Some tc' ∧ tc_perf_mult tc' = None) ∧
  (get_features_enabled s = true →
     (∃ e, r = fire_result e) ∧
     ∃ tc' f, tc_at (corpus s') cid = Some tc' ∧ tc_perf_mult tc' = Some f ∧
       factor_in_bounds (get_factor_params s) f).
Proof.
  intros Hrun Hcur Ht Hp Hwv Hst. unfold perform in Hrun.
  unfold bind at 1, gets at 1 in Hrun. rewrite Hcur in Hrun.
  destruct (fill_indexes_ok map cid s tc Ht) as (s1 & tc1 & Hfill & (E1 & _) & Ht1 & Hx1 & Htc1).
  unfold bind at 1 in Hrun. rewrite Hfill in Hrun.
  unfold bind at 1, gets at 1 in Hrun.
  assert (get_features_enabled s1 = get_features_enabled s) as Hen by (rewrite E1; done).
  rewrite Hen in Hrun. destruct (get_features_enabled s) eqn:Een; simpl in Hrun.
  2: { destruct (change_testcase_ok cid (λ tc, tc <| tc_perf_mult := None |>) s1 tc1 Ht1)
         as (s2 & Hc & _ & Hl). rewrite Hc in Hrun. injection Hrun as <- <-.
       split_and!; [|intros _|done].
       - intros x Hx. rewrite Hl, decide_False by done. by apply Hx1.
       - split; [done|]. eexists. rewrite Hl, decide_True by done. done. }
  unfold bind, gets, modify in Hrun.
  set (s2 := set_feat0 _ s1) in Hrun.
  assert (tc_at (corpus s2) cid = Some tc1) as Ht2 by exact Ht1.
  rewrite (read_testcase_ok _ _ _ Ht2) in Hrun. unfold lift in Hrun.
  assert (get_factor_params s2 = get_factor_params s) as Hps by (unfold s2; rewrite E1; done).
  assert (weights_valid tc1) as Hw1.
  { rewrite Htc1. by destruct (tc_sancov tc), (hit_indices map). }
  destruct (compute_factor_ok (get_factor_params s2) s2 tc1) as (f & Hf & Hb).
  { rewrite Hps. apply Hp. } { rewrite Hps. apply Hp. } { rewrite Hps. apply Hp. }
  { intros st Hs. apply Hst. unfold s2 in Hs. rewrite E1 in Hs. exact Hs. }
  { intros w Hw. by eapply entry_weight_valid. }
  rewrite Hf in Hrun.
  destruct (change_testcase_ok cid (λ tc, tc <| tc_perf_mult := Some f |>) s2 tc1 Ht2)
    as (s3 & Hc & _ & Hl). rewrite Hc in Hrun.
  assert (tc_at (corpus s3) cid = Some (tc1 <| tc_perf_mult := Some f |>)) as Ht3
    by by rewrite Hl, decide_True.
  rewrite (read_testcase_ok _ _ _ Ht3) in Hrun. unfold fire in Hrun. injection Hrun as <- <-.
  split_and!; [|done|intros _].
  - intros x Hx. simpl. rewrite Hl, decide_False by done. exact (Hx1 x Hx).
  - split; [eauto|]. eexists _, f. split_and!; [exact Ht3|done|]. rewrite Hps in Hb. exact Hb.
Qed.
End Accounting.

Import InMemoryFacts.

(** The features on, one testcase. *)
Definition demo_accounting : State := set_feat_exists true (set_features_active true demo_one).

Lemma accounting_spec_witness :
  ∃ r s' tc' f, perform (H := toy_env) (H0 := toy_libm) (Some demo_map) demo_accounting = (r, s') ∧
    tc_at (corpus s') 0 = Some tc' ∧ tc_perf_mult tc' = Some f ∧
    factor_in_bounds FactorParams_default f.
Proof.
  destruct (perform (H := toy_env) (H0 := toy_libm) (Some demo_map) demo_accounting) as [r s'] eqn:E.
  destruct (accounting_spec (H := toy_env) (H0 := toy_libm) demo_map demo_accounting 0 demo_tc r s' E)
    as (_ & _ & H).
  - vm_compute. reflexivity.
  - vm_compute. reflexivity.
  - exact default_params_ok.
  - done.
  - by intros st.
  - destruct (H eq_refl) as (_ & tc' & f & ? & ? & ?). by exists r, s', tc', f.
Defined.
