(* ===== verification/Feedbacks.v ===== *)
(** * Feedbacks: [libafl/src/feedbacks/mod.rs]

    The trait [Feedback] as a class, its logical combinations (eager and fast, AND and OR, NOT), the
    feedbacks on the exit kind, the time feedback, and the observers they read.  BOFuzz decides
    with the eager OR of the map feedback, the time feedback and its two own feedbacks what is
    worth keeping, and with the crash feedback what is a solution.

    The class [FeedbackLaws] says what the fuzzer relies on; the feedback of BOFuzz satisfies it. *)

From Stdlib Require Import ZArith Lia.
From S2P Require Import Prelude Float64 FloatFacts Rands Corpus Metadata State FrontierSets MaskSelection FeaturesMap MapObserver MapFeedback CreditFeedback.

(** ** Observers *)

(** [TimeObserver]; the start time is only used for the runtime, which the environment gives. *)
Record TimeObserver := mkTimeObserver { to_name : string; last_runtime : option Duration }.
#[global] Instance eta_TimeObserver : Eta TimeObserver := λ r, mkTimeObserver (to_name r) (last_runtime r).

Module Time.
Definition new (name : string) : TimeObserver := mkTimeObserver name None.
Definition pre_exec (self : TimeObserver) : TimeObserver := self <| last_runtime := None |>.
Definition post_exec (elapsed : Duration) (self : TimeObserver) : TimeObserver :=
  self <| last_runtime := Some elapsed |>.
End Time.

(** The tuple of observers of BOFuzz's executor:
    [tuple_list!(edges_observer, sancov_observer, time_observer)]; the edges are a
    [HitcountsMapObserver]. *)
Record Observers := mkObservers { ob_edges : MapObserver; ob_sancov : MapObserver; ob_time : TimeObserver }.
#[global] Instance eta_Observers : Eta Observers := λ r, mkObservers (ob_edges r) (ob_sancov r) (ob_time r).

(** [observers.get(&handle)]: the observer with the name. *)
Definition get_map (name : string) (obs : Observers) : option MapObserver :=
  if decide (name = "edges"%string) then Some (ob_edges obs)
  else if decide (name = "sancov"%string) then Some (ob_sancov obs) else None.
Definition get_time (name : string) (obs : Observers) : option TimeObserver :=
  if decide (to_name (ob_time obs) = name) then Some (ob_time obs) else None.

Definition pre_exec_all (obs : Observers) : Observers :=
  mkObservers (StdMap.pre_exec (ob_edges obs)) (StdMap.pre_exec (ob_sancov obs)) (Time.pre_exec (ob_time obs)).
(** [little] and [align_offset] describe the machine and the address of the edges map. *)
Definition post_exec_all (little : bool) (align_offset : usize) (elapsed : Duration) (obs : Observers) : Observers :=
  obs <| ob_edges := (ob_edges obs) <| mo_entries :=
           Hitcounts.post_exec little align_offset (mo_entries (ob_edges obs)) |> |>
      <| ob_time := Time.post_exec elapsed (ob_time obs) |>.

(** How the executor's observers are set up: counters start at zero, the clock is found by its name. *)
Definition watching (obs : Observers) : Prop := mo_initial (ob_edges obs) = 0%Z ∧ to_name (ob_time obs) = "time"%string.

(** ** The trait *)

Class Feedback (T : Type) := mkFeedback {
  fb_name : T → string;
  fb_init_state : T → M State ();
  fb_is_interesting : T → Observers → ExitKind → M State (bool * T);
  fb_append_metadata : T → Observers → Testcase → M State (T * Testcase);
  fb_discard_metadata : T → M State T;
}.

(** The default methods of the trait. *)
Definition nop_is_interesting {T} (self : T) (obs : Observers) (kind : ExitKind) : M State (bool * T) :=
  ret (false, self).
Definition nop_append_metadata {T} (self : T) (obs : Observers) (tc : Testcase) : M State (T * Testcase) :=
  ret (self, tc).
Definition nop_discard_metadata {T} (self : T) : M State T := ret self.
Definition nop_init_state {T} (self : T) : M State () := ret ().

(** ** Logical combinations *)

(** A feedback is changed by its search, so the closures hand back the feedbacks; one that is not
    called stays as it is.  An error ends the campaign, and the feedbacks with it. *)
Class FeedbackLogic := mkLogic {
  logic_name : string;
  is_pair_interesting : ∀ {A B : Type}, B → M State (bool * A) → M State (bool * B) → M State (bool * (A * B));
}.
Definition LogicEagerOr : FeedbackLogic := mkLogic "Eager OR" (λ A B b0 first second,
  a <- first ;; b <- second ;; ret (a.1 || b.1, (a.2, b.2))).
Definition LogicFastOr : FeedbackLogic := mkLogic "Fast OR" (λ A B b0 first second,
  a <- first ;; if (a.1 : bool) then ret (true, (a.2, b0)) else b <- second ;; ret (b.1, (a.2, b.2))).
Definition LogicEagerAnd : FeedbackLogic := mkLogic "Eager AND" (λ A B b0 first second,
  a <- first ;; b <- second ;; ret (a.1 && b.1, (a.2, b.2))).
Definition LogicFastAnd : FeedbackLogic := mkLogic "Fast AND" (λ A B b0 first second,
  a <- first ;; if (a.1 : bool) then b <- second ;; ret (b.1, (a.2, b.2)) else ret (false, (a.2, b0))).

Module Combined.
Record CombinedFeedback (A B : Type) := mkCombined { first : A; second : B; name : string }.
Arguments mkCombined {A B} _ _ _.
Arguments first {A B} _.
Arguments second {A B} _.
Arguments name {A B} _.

Section Combined.
Context `{FA : Feedback A} `{FB : Feedback B} (L : FeedbackLogic).

Definition new (a : A) (b : B) : CombinedFeedback A B :=
  mkCombined a b (logic_name +:+ " (" +:+ fb_name a +:+ "," +:+ fb_name b +:+ ")")%string.

Definition init_state (self : CombinedFeedback A B) : M State () :=
  fb_init_state (first self) ;;; fb_init_state (second self).

Definition is_interesting (self : CombinedFeedback A B) (obs : Observers) (kind : ExitKind) :
    M State (bool * CombinedFeedback A B) :=
  r <- is_pair_interesting (second self) (fb_is_interesting (first self) obs kind)
         (fb_is_interesting (second self) obs kind) ;;
  ret (r.1, mkCombined r.2.1 r.2.2 (name self)).

Definition append_metadata (self : CombinedFeedback A B) (obs : Observers) (tc : Testcase) :
    M State (CombinedFeedback A B * Testcase) :=
  a <- fb_append_metadata (first self) obs tc ;;
  b <- fb_append_metadata (second self) obs a.2 ;;
  ret (mkCombined a.1 b.1 (name self), b.2).

Definition discard_metadata (self : CombinedFeedback A B) : M State (CombinedFeedback A B) :=
  a <- fb_discard_metadata (first self) ;;
  b <- fb_discard_metadata (second self) ;;
  ret (mkCombined a b (name self)).
End Combined.
End Combined.
Abbreviation CombinedFeedback := Combined.CombinedFeedback.

Definition CombinedFeedbackOf `{FA : Feedback A} `{FB : Feedback B} (L : FeedbackLogic) :
    Feedback (CombinedFeedback A B) :=
  mkFeedback _ Combined.name Combined.init_state (Combined.is_interesting L) Combined.append_metadata
    Combined.discard_metadata.
(** [feedback_or!] combines eagerly. *)
#[global] Instance EagerOrFeedback `{FA : Feedback A} `{FB : Feedback B} : Feedback (CombinedFeedback A B) :=
  CombinedFeedbackOf LogicEagerOr.

Module Not.
Record NotFeedback (A : Type) := mkNot { inner : A; name : string }.
Arguments mkNot {A} _ _.
Arguments inner {A} _.
Arguments name {A} _.
Definition new `{Feedback A} (a : A) : NotFeedback A := mkNot a ("Not(" +:+ fb_name a +:+ ")")%string.
Definition is_interesting `{Feedback A} (self : NotFeedback A) (obs : Observers) (kind : ExitKind) :
    M State (bool * NotFeedback A) :=
  r <- fb_is_interesting (inner self) obs kind ;; ret (negb r.1, mkNot r.2 (name self)).
Definition append_metadata `{Feedback A} (self : NotFeedback A) (obs : Observers) (tc : Testcase) :
    M State (NotFeedback A * Testcase) :=
  r <- fb_append_metadata (inner self) obs tc ;; ret (mkNot r.1 (name self), r.2).
Definition discard_metadata `{Feedback A} (self : NotFeedback A) : M State (NotFeedback A) :=
  a <- fb_discard_metadata (inner self) ;; ret (mkNot a (name self)).
End Not.
Abbreviation NotFeedback := Not.NotFeedback.
#[global] Instance NotFeedbackOf `{Feedback A} : Feedback (NotFeedback A) :=
  mkFeedback _ Not.name (λ self, fb_init_state (Not.inner self)) Not.is_interesting Not.append_metadata
    Not.discard_metadata.

(** ** Feedbacks on the exit kind *)

Record ExitKindLogic := mkExitLogic { NAME : string; check_exit_kind : ExitKind → bool }.
Definition CrashLogic : ExitKindLogic :=
  mkExitLogic "CrashFeedback" (λ k, match k with Crash => true | _ => false end).
Definition TimeoutLogic : ExitKindLogic :=
  mkExitLogic "TimeoutFeedback" (λ k, match k with Timeout => true | _ => false end).
Definition GenericDiffLogic : ExitKindLogic :=
  mkExitLogic "DiffExitKindFeedback" (λ k, match k with Diff _ _ => true | _ => false end).

Record ExitKindFeedback := mkExitKind { ek_logic : ExitKindLogic; ek_name : string }.
Definition ExitKindFeedback_new (L : ExitKindLogic) : ExitKindFeedback := mkExitKind L (NAME L).
Definition exit_is_interesting (self : ExitKindFeedback) (obs : Observers) (kind : ExitKind) :
    M State (bool * ExitKindFeedback) :=
  ret (check_exit_kind (ek_logic self) kind, self).
#[global] Instance ExitKindFeedbackOf : Feedback ExitKindFeedback :=
  mkFeedback _ ek_name nop_init_state exit_is_interesting nop_append_metadata nop_discard_metadata.

(** ** The time feedback *)

Record TimeFeedback := mkTimeFeedback { observer_handle : string }.
Definition time_append_metadata (self : TimeFeedback) (obs : Observers) (tc : Testcase) :
    M State (TimeFeedback * Testcase) :=
  observer <- lift (ok_or (get_time (observer_handle self) obs) (illegal_state
    "Observer referenced by TimeFeedback is not found in observers given to the fuzzer" [])) ;;
  ret (self, tc <| tc_exec_time := last_runtime observer |>).
#[global] Instance TimeFeedbackOf : Feedback TimeFeedback :=
  mkFeedback _ observer_handle nop_init_state nop_is_interesting time_append_metadata nop_discard_metadata.

(** [ConstFeedback] *)
Definition const_is_interesting (self : bool) (obs : Observers) (kind : ExitKind) : M State (bool * bool) :=
  ret (self, self).

(** ** The feedback of BOFuzz *)

(** [FrontierCreditFeedback] has no fields but its name. *)
Record FrontierCredit := mkFrontierCredit { fc_name : string }.
Abbreviation BofuzzFeedback :=
  (CombinedFeedback MapFeedback (CombinedFeedback TimeFeedback (CombinedFeedback SancovIndexFeedback.t FrontierCredit))).

Section BOFuzz.
Context `{Env}.

(** [MaxMapFeedback] on the edges, whose observer tracks the indexes. *)
Definition max_is_interesting (self : MapFeedback) (obs : Observers) (kind : ExitKind) :
    M State (bool * MapFeedback) :=
  is_interesting_default (H := MaxReducer) (H0 := DifferentIsNovel) self (get_map (map_ref self) obs).
Definition max_append_metadata (self : MapFeedback) (obs : Observers) (tc : Testcase) :
    M State (MapFeedback * Testcase) :=
  append_metadata (H := MaxReducer) true self (get_map (map_ref self) obs) tc.
#[global] Instance MaxMapFeedback : Feedback MapFeedback :=
  mkFeedback _ mf_name init_state max_is_interesting max_append_metadata nop_discard_metadata.

Definition sancov_is_interesting (self : SancovIndexFeedback.t) (obs : Observers) (kind : ExitKind) :
    M State (bool * SancovIndexFeedback.t) :=
  b <- SancovIndexFeedback.is_interesting ;; ret (b, self).
Definition sancov_append_metadata (self : SancovIndexFeedback.t) (obs : Observers) (tc : Testcase) :
    M State (SancovIndexFeedback.t * Testcase) :=
  tc <- SancovIndexFeedback.append_metadata self (get_map (SancovIndexFeedback.name self) obs) tc ;;
  ret (self, tc).
#[global] Instance SancovFeedback : Feedback SancovIndexFeedback.t :=
  mkFeedback _ SancovIndexFeedback.name nop_init_state sancov_is_interesting sancov_append_metadata
    nop_discard_metadata.

Definition credit_is_interesting (self : FrontierCredit) (obs : Observers) (kind : ExitKind) :
    M State (bool * FrontierCredit) :=
  b <- FrontierCreditFeedback.is_interesting ;; ret (b, self).
Definition credit_append_metadata (self : FrontierCredit) (obs : Observers) (tc : Testcase) :
    M State (FrontierCredit * Testcase) :=
  FrontierCreditFeedback.append_metadata tc ;;; ret (self, tc).
#[global] Instance CreditFeedbackOf : Feedback FrontierCredit :=
  mkFeedback _ fc_name nop_init_state credit_is_interesting credit_append_metadata nop_discard_metadata.

(** [feedback_or!(map_feedback, TimeFeedback::new(..), sancov_idx_fb, frontier_credit_fb)] *)
Definition bofuzz_feedback : BofuzzFeedback :=
  Combined.new LogicEagerOr (new false "edges")
    (Combined.new LogicEagerOr (mkTimeFeedback "time")
       (Combined.new LogicEagerOr (SancovIndexFeedback.new "sancov") (mkFrontierCredit "frontier_credit"))).
End BOFuzz.

(** ** What the fuzzer relies on *)

(** The vocabulary of the promise: the invariant of the feedback and its part of the state, the
    observers it can read, the indexes that are covered, the indexes an execution reaches, and when an
    execution is novel. *)
Record FeedbackSpec (T : Type) := mkSpec {
  fs_inv : T → State → Prop;
  fs_sees : Observers → Prop;
  fs_cover : State → usize → Prop;
  fs_hits : Observers → list usize;
  fs_novel : State → Observers → Prop;
}.
Arguments fs_inv {T} _ _ _.
Arguments fs_sees {T} _ _.
Arguments fs_cover {T} _ _ _.
Arguments fs_hits {T} _ _.
Arguments fs_novel {T} _ _ _.

Class FeedbackLaws {T : Type} (F : Feedback T) (P : FeedbackSpec T) := {
  law_sees : ∀ obs, watching obs → Forall is_u8 (mo_entries (ob_edges obs)) → fs_sees P obs;
  law_interesting : ∀ self obs kind s, fs_inv P self s → fs_sees P obs →
    ∃ b self' s', fb_is_interesting self obs kind s = (Ok (b, self'), s') ∧ (b = true ↔ fs_novel P s obs) ∧
      fs_inv P self' s' ∧ sched_part s s' ∧ fuzzer_part s s' ∧ ∀ k, fs_cover P s' k ↔ fs_cover P s k;
  law_append : ∀ self obs tc s, fs_inv P self s → fs_sees P obs →
    ∃ self' tc' s', fb_append_metadata self obs tc s = (Ok (self', tc'), s') ∧
      fs_inv P self' s' ∧ sched_part s s' ∧ fuzzer_part s s' ∧
      (∀ k, fs_cover P s' k ↔ fs_cover P s k ∨ k ∈ fs_hits P obs) ∧ ¬ fs_novel P s' obs ∧
      tc_map_indexes tc' = Some (MapIndexesMetadata_new (fs_hits P obs)) ∧ NoDup (fs_hits P obs) ∧
      tc_input tc' = tc_input tc;
  law_discard : ∀ self s, fb_discard_metadata self s = (Ok self, s);
  law_part : ∀ self s s', fs_inv P self s → feedback_part s s' →
    fs_inv P self s' ∧ (∀ k, fs_cover P s' k ↔ fs_cover P s k) ∧ ∀ obs, fs_novel P s' obs ↔ fs_novel P s obs;
}.

(** ** The feedback of BOFuzz keeps the promise *)

Section Laws.
Context `{Env} (accepts : ∀ e, fire_result e = Ok ()).
Import CreditFacts.

(** The numbers of the credit feedback. *)
Definition credit_ready (s : State) : Prop :=
  matrix_valid s ∧ (∀ mx, m_matrix s = Some mx → matrix_nonneg (fmx_matrix mx)) ∧
  credit_inv s ∧ frontier_coherent s.

Definition edges_map (s : State) : MapFeedbackMetadata := default MapFeedbackMetadata_default (named_maps s !! "edges"%string).

Definition bofuzz_spec : FeedbackSpec BofuzzFeedback := {|
  fs_inv self s := self = bofuzz_feedback ∧ is_Some (named_maps s !! "edges"%string) ∧ map_inv (edges_map s) ∧ credit_ready s;
  fs_sees obs := coverage (ob_edges obs) ∧ is_Some (get_time "time" obs);
  fs_cover s k := default 0%Z (history_map (edges_map s) !! k) ≠ 0%Z;
  fs_hits obs := hit_indices (ob_edges obs);
  fs_novel s obs := gained (history_map (edges_map s)) (mo_entries (ob_edges obs)) ≠ [];
|}.

(** A step that leaves the schedulers, the fuzzer and the map of edges alone. *)
Definition side_step (s s' : State) : Prop :=
  sched_part s s' ∧ fuzzer_part s s' ∧ named_maps s' = named_maps s ∧ m_matrix s' = m_matrix s.
#[global] Instance side_step_preorder : PreOrder side_step.
Proof.
  split; [by intros ?|]. intros s1 s2 s3 (A1 & B1 & C1 & D1) (A2 & B2 & C2 & D2).
  split; [by etrans|]. split; [by etrans|]. split; congruence.
Qed.

Lemma credit_side_step tc : keeps side_step (FrontierCreditFeedback.append_metadata tc).
Proof.
  assert (∀ newly, keeps side_step (update_frontier_meta newly)) as Hu.
  { intros newly s. by destruct (update_frontier_keeps newly s) as [fm ->]. }
  unfold FrontierCreditFeedback.append_metadata.
  repeat first
    [ apply keeps_ret; apply _ | apply keeps_gets; apply _ | apply keeps_lift; apply _ | apply Hu
    | apply keeps_modify; done | apply keeps_if | apply keeps_bind; [apply _| |intros ?] | case_match ].
Qed.

Lemma credit_ready_frame s s' : m_matrix s' = m_matrix s → m_acfg s' = m_acfg s → m_frontier s' = m_frontier s →
  m_explore s' = m_explore s → m_runtime s' = m_runtime s → credit_ready s → credit_ready s'.
Proof.
  intros E1 E2 E3 E4 E5 (A & B & C & D). unfold credit_ready, matrix_valid, credit_inv, frontier_coherent.
  rewrite E1, E2, E3, E4, E5. done.
Qed.

Lemma credit_append_side self obs tc s : credit_ready s →
  ∃ s', credit_append_metadata self obs tc s = (Ok (self, tc), s') ∧ side_step s s' ∧ credit_ready s'.
Proof.
  intros (Hm & Hnn & Hi & Hc). unfold credit_append_metadata, bind, ret.
  pose proof (credit_side_step tc s) as Hs.
  destruct (FrontierCreditFeedback.append_metadata tc s) as [r s'] eqn:E. cbn [snd] in Hs.
  destruct (credit_append_ok tc s r s' E Hm Hi Hc) as (Hc' & Hi' & _ & _ & Hok & _).
  rewrite (Hok Hnn). exists s'. split; [done|]. split; [done|]. destruct Hs as (_ & _ & _ & Em).
  unfold credit_ready, matrix_valid. by rewrite Em.
Qed.

Lemma sancov_append_side self obs map tc s : get_map (SancovIndexFeedback.name self) obs = Some map → credit_ready s →
  ∃ tc' s', sancov_append_metadata self obs tc s = (Ok (self, tc'), s') ∧ side_step s s' ∧ credit_ready s' ∧
    tc_map_indexes tc' = tc_map_indexes tc ∧ tc_input tc' = tc_input tc.
Proof.
  intros Hmap Hr. unfold sancov_append_metadata. rewrite Hmap.
  unfold SancovIndexFeedback.append_metadata, bind, lift, gets, modify, fire, ret. cbn [ok_or]. cbv zeta.
  rewrite accepts. eexists _, _. split; [done|]. split; [done|]. split; [by eapply credit_ready_frame|].
  by destruct (hit_indices map).
Qed.

Lemma side_step_edges s s' : side_step s s' → edges_map s' = edges_map s.
Proof. intros (_ & _ & E & _). unfold edges_map. by rewrite E. Qed.
Lemma put_edges m s : edges_map (put_map "edges" m s) = m.
Proof. unfold edges_map, put_map. cbn [named_maps upd eta_State]. by rewrite lookup_insert_eq. Qed.
Lemma credit_ready_put name m s : credit_ready s → credit_ready (put_map name m s).
Proof. by apply credit_ready_frame. Qed.

Lemma combined_append `{FA : Feedback A} `{FB : Feedback B} (self : CombinedFeedback A B) obs tc s a tc1 s1 b tc2 s2 :
  fb_append_metadata (Combined.first self) obs tc s = (Ok (a, tc1), s1) →
  fb_append_metadata (Combined.second self) obs tc1 s1 = (Ok (b, tc2), s2) →
  fb_append_metadata self obs tc s = (Ok (Combined.mkCombined a b (Combined.name self), tc2), s2).
Proof.
  intros Ha Hb. cbn [fb_append_metadata EagerOrFeedback CombinedFeedbackOf]. unfold Combined.append_metadata, bind.
  rewrite Ha. cbn [fst snd]. by rewrite Hb.
Qed.

(** Only the map feedback searches. *)
Lemma bofuzz_interesting obs o kind s : get_map "edges" obs = Some o → mo_initial o = 0%Z →
  is_Some (named_maps s !! "edges"%string) → map_inv (edges_map s) →
  fb_is_interesting bofuzz_feedback obs kind s =
    (Ok (bool_decide (gained (history_map (edges_map s)) (mo_entries o) ≠ []), bofuzz_feedback),
     put_map "edges" (grown (length (mo_entries o)) 0 (edges_map s)) s).
Proof.
  intros Ho H0 [m Hm] [Hu _]. unfold edges_map in *. rewrite Hm in *. cbn [default] in *.
  cbn [fb_is_interesting EagerOrFeedback CombinedFeedbackOf]. unfold Combined.is_interesting.
  cbn [is_pair_interesting LogicEagerOr bofuzz_feedback Combined.new Combined.first Combined.second].
  cbn [fb_is_interesting MaxMapFeedback]. unfold max_is_interesting. cbn [map_ref new]. rewrite Ho.
  unfold bind at 1. unfold bind at 1. rewrite (is_interesting_run (new false "edges") o H0 s m Hm Hu).
  cbn. by rewrite orb_false_r.
Qed.

(** The metadata of a new testcase, from all four feedbacks. *)
Lemma bofuzz_append obs o c t tc s : get_map "edges" obs = Some o → coverage o → get_map "sancov" obs = Some c →
  get_time "time" obs = Some t → is_Some (named_maps s !! "edges"%string) → map_inv (edges_map s) → credit_ready s →
  ∃ tc' s', fb_append_metadata bofuzz_feedback obs tc s = (Ok (bofuzz_feedback, tc'), s') ∧
    sched_part s s' ∧ fuzzer_part s s' ∧ is_Some (named_maps s' !! "edges"%string) ∧
    absorbed (edges_map s) (edges_map s') o ∧ credit_ready s' ∧
    tc_map_indexes tc' = Some (MapIndexesMetadata_new (hit_indices o)) ∧ tc_input tc' = tc_input tc.
Proof.
  intros Ho Hcov Hc Ht [m Hm] Hinv Hr.
  assert (edges_map s = m) as Em by (unfold edges_map; by rewrite Hm). rewrite Em in *.
  destruct (append_run true (new false "edges") o tc s m Hm Hinv Hcov) as (m' & e & Hrun & Hab).
  rewrite accepts in Hrun. cbn [novelties new mf_name fmap option_fmap option_map] in Hrun. cbv zeta in Hrun.
  match type of Hrun with _ = (Ok (_, ?t1), ?s1) => set (tc1 := t1) in *; set (s1' := s1) in * end.
  assert (credit_ready s1') as Hr1 by by eapply credit_ready_frame.
  set (tc2 := tc1 <| tc_exec_time := last_runtime t |>).
  destruct (sancov_append_side (SancovIndexFeedback.new "sancov") obs c tc2 s1' Hc Hr1)
    as (tc3 & s2 & Hs2 & Hst2 & Hr2 & Hmi & Hin).
  destruct (credit_append_side (mkFrontierCredit "frontier_credit") obs tc3 s2 Hr2) as (s3 & Hs3 & Hst3 & Hr3).
  exists tc3, s3. split.
  - assert (time_append_metadata (mkTimeFeedback "time") obs tc1 s1' = (Ok (mkTimeFeedback "time", tc2), s1')) as Htime.
    { unfold time_append_metadata. cbn [observer_handle]. by rewrite Ht. }
    eapply combined_append; [|eapply combined_append; [exact Htime|]; by eapply combined_append].
    cbn [fb_append_metadata MaxMapFeedback]. unfold max_append_metadata. cbn. by rewrite Ho.
  - assert (side_step s1' s3) as Hst by by etrans. destruct Hst as (P1 & P2 & P3 & _).
    assert (edges_map s3 = m') as ->.
    { unfold edges_map. rewrite P3. cbn. by rewrite lookup_insert_eq. }
    split; [etrans; [|exact P1]; done|]. split; [etrans; [|exact P2]; done|].
    split; [rewrite P3; cbn; rewrite lookup_insert_eq; by eexists|].
    split; [done|]. split; [done|]. split; [by rewrite Hmi|by rewrite Hin].
Qed.

Lemma hits_at o k : coverage o → k ∈ hit_indices o ↔ default 0%Z (mo_entries o !! k) ≠ 0%Z.
Proof.
  intros [H0 _]. rewrite hit_indices_spec, H0. destruct (mo_entries o !! k) as [v|] eqn:E; cbn; naive_solver.
Qed.

Lemma absorbed_cover m m' o k : map_inv m → coverage o → absorbed m m' o →
  default 0%Z (history_map m' !! k) ≠ 0%Z ↔ default 0%Z (history_map m !! k) ≠ 0%Z ∨ k ∈ hit_indices o.
Proof.
  intros [Hu _] Hc [_ Ha]. rewrite Ha, hits_at by done.
  assert (∀ l, Forall is_u8 l → 0 ≤ default 0 (l !! k))%Z as Hnn.
  { intros l Hl. destruct (l !! k) eqn:E; [|done]. rewrite Forall_lookup in Hl. by apply (Hl k). }
  pose proof (Hnn _ Hu). pose proof (Hnn _ (proj2 Hc)). lia.
Qed.

#[global] Instance bofuzz_laws : FeedbackLaws EagerOrFeedback bofuzz_spec.
Proof.
  split.
  - intros obs [H0 Ht] Hu. cbn [fs_sees bofuzz_spec]. split; [by split|]. unfold get_time. rewrite Ht. by eexists.
  - intros self obs kind s (-> & He & Hi & Hr) (Hc & _). unfold fs_cover, fs_novel, bofuzz_spec in *.
    eexists _, _, _. split; [by apply (bofuzz_interesting obs (ob_edges obs)); [|apply Hc|..]|].
    rewrite bool_decide_eq_true. split; [done|]. cbn [fs_inv]. rewrite put_edges.
    split; [|split; [done|split; [done|intros k; by rewrite grown_at]]].
    split; [done|]. split; [cbn; rewrite lookup_insert_eq; by eexists|]. split; [by apply grown_inv|by apply credit_ready_put].
  - intros self obs tc s (-> & He & Hi & Hr) (Hc & [t Ht]). unfold fs_cover, fs_novel, fs_hits, bofuzz_spec in *.
    destruct (bofuzz_append obs (ob_edges obs) (ob_sancov obs) t tc s eq_refl Hc eq_refl Ht He Hi Hr)
      as (tc' & s' & Hrun & P1 & P2 & He' & Hab & Hr' & Hmi & Hin).
    exists bofuzz_feedback, tc', s'. split; [done|]. split; [by split_and!; [|..|apply Hab|]|].
    split; [done|]. split; [done|]. split; [by intros k; apply absorbed_cover|].
    split; [intros []; by eapply absorbed_gained|]. split; [done|]. split; [|done].
    unfold hit_indices, set_indices. apply InMemoryFacts.sorted_nodup, set_indices_sorted.
  - by intros [? [? [] ?] ?] s.
  - intros self s s' (-> & He & Hi & Hr) (E1 & E2 & E3 & E4 & E5 & E6).
    assert (edges_map s' = edges_map s) as E by (unfold edges_map; by rewrite E1).
    cbn [fs_inv fs_cover fs_novel bofuzz_spec]. rewrite E, E1. split_and!; try done. by eapply credit_ready_frame.
Qed.
End Laws.
