(* ===== verification/Mutations.v ===== *)
(** * Mutations: [libafl/src/mutators/mutations.rs]

    The byte mutators of the havoc stage: each draws from the random generator of the state and edits the
    bytes of an input.  Their unsafe buffer copies are modelled with the assertions of the debug build:
    a copy that would leave a buffer is [Panic], so a mutator that does not panic touches only its
    buffers, in either build.

    Each mutator has its lemma [.._draws]: it does not panic, and the bytes it leaves are those of its
    effect.  [BytesSwapMutator] does not always swap: [smeared] is what it makes of the range it should
    have kept. *)

From Stdlib Require Import ZArith Lia.
From S2P Require Import Prelude Float64 FloatFacts Rands Corpus Metadata State.
Import InMemoryFacts.

(** ** Bytes *)

Abbreviation byte := Byte.byte.
Abbreviation bytes := (list Byte.byte).

Definition u8_of (b : byte) : Z := Z.of_N (Byte.to_N b).
(** [z as u8] *)
Definition to_u8 (z : Z) : byte := default Byte.x00 (Byte.of_N (Z.to_N (z mod 256))).

(** The integer of [length bs] bytes in little-endian order, and back. *)
Fixpoint from_le_bytes (bs : bytes) : Z :=
  match bs with
  | [] => 0
  | b :: bs => u8_of b + 256 * from_le_bytes bs
  end.
Fixpoint to_le_bytes (size : nat) (v : Z) : bytes :=
  match size with
  | O => []
  | S size => to_u8 v :: to_le_bytes size (v / 256)
  end.
Definition to_be_bytes (size : nat) (v : Z) : bytes := reverse (to_le_bytes size v).
Definition from_ne_bytes (little : bool) (bs : bytes) : Z :=
  if little then from_le_bytes bs else from_le_bytes (reverse bs).
Definition to_ne_bytes (little : bool) (size : nat) (v : Z) : bytes :=
  if little then to_le_bytes size v else to_be_bytes size v.
(** Arithmetic on unsigned integers of [size] bytes. *)
Definition wrap_size (size : nat) (v : Z) : Z := v mod 2 ^ (8 * Z.of_nat size).
Definition swap_bytes (size : nat) (v : Z) : Z := from_le_bytes (reverse (to_le_bytes size v)).

(** ** Vectors *)

Definition isize_max : Z := 2 ^ 63 - 1.

(** [Vec::resize]: a vector of more than [isize::MAX] bytes is a capacity overflow. *)
Definition vec_resize (data : bytes) (new_len : nat) (value : byte) : outcome Error bytes :=
  if (isize_max <? Z.of_nat new_len)%Z then Panic
  else Ok (take new_len data ++ replicate (new_len - length data) value).
(** [Vec::drain] of a range. *)
Definition vec_drain (data : bytes) (start stop : nat) : outcome Error bytes :=
  if (start <=? stop) && (stop <=? length data) then Ok (take start data ++ drop stop data) else Panic.
(** [data[from..from + len].copy_from_slice(src)] *)
Definition copy_from_slice (data : bytes) (from len : nat) (src : bytes) : outcome Error bytes :=
  if (from + len <=? length data) && (length src =? len)
  then Ok (take from data ++ src ++ drop (from + len) data) else Panic.

(** [len] bytes of [src] from [from] on, put into [dst] at [to]. *)
Definition overwrite (dst src : bytes) (from to len : nat) : bytes :=
  take to dst ++ take len (drop from src) ++ drop (to + len) dst.

Definition buffer_self_copy (data : bytes) (from to len : nat) : outcome Error bytes :=
  if bool_decide (data = []) || (length data <? from + len) || (length data <? to + len) then Panic
  else if negb (len =? 0) && negb (from =? to) then Ok (overwrite data data from to len)
  else Ok data.

Definition buffer_copy (dst src : bytes) (from to len : nat) : outcome Error bytes :=
  if bool_decide (dst = []) || bool_decide (src = []) || (length src <? from + len) || (length dst <? to + len)
  then Panic
  else if negb (len =? 0) then Ok (overwrite dst src from to len)
  else Ok dst.

Definition buffer_set (data : bytes) (from len : nat) (val : byte) : outcome Error bytes :=
  if length data <? from + len then Panic
  else Ok (take from data ++ replicate len val ++ drop (from + len) data).

(** ** Random choices *)

Definition on_rand {A} (f : StdRand → A * StdRand) : M State A := λ s,
  let '(a, r) := f (rand s) in (Ok a, s <| rand := r |>).
Definition rand_next : M State u64 := on_rand next.
Definition rand_below (n : nat) : M State nat := on_rand (below n).
Definition rand_zero_upto (n : nat) : M State nat := on_rand (zero_upto n).
Definition rand_between (lo hi : nat) : M State nat := on_rand (between lo hi).
(** [rand.choose(iter).unwrap()], for an iterator that knows its length. *)
Definition exact_hint {A} (l : list A) : nat * option nat := (length l, Some (length l)).
Definition rand_choose {A} (from : list A) : M State A :=
  r <- on_rand (choose exact_hint from) ;; lift (unwrap (mjoin r)).

Record Range := mkRange { start : nat; stop : nat }.
Definition range_len (r : Range) : nat := stop r - start r.

(** [offset1..offset2]; [max_len] is not zero. *)
Definition rand_range (upper max_len : nat) : M State Range :=
  n <- rand_below max_len ;;
  let len := 1 + n in
  k <- rand_zero_upto (upper + len - 1) ;;
  let offset2 := 1 + k in
  let offset1 := offset2 - len in
  let offset2 := if upper <? offset2 then upper else offset2 in
  ret (mkRange offset1 offset2).

Definition ARITH_MAX : nat := 35.
Definition INTERESTING_8 : list Z := [-128; -1; 0; 1; 16; 32; 64; 100; 127]%Z.
Definition INTERESTING_16 : list Z :=
  [-128; -1; 0; 1; 16; 32; 64; 100; 127; -32768; -129; 128; 255; 256; 512; 1000; 1024; 4096; 32767]%Z.
Definition INTERESTING_32 : list Z :=
  [-128; -1; 0; 1; 16; 32; 64; 100; 127; -32768; -129; 128; 255; 256; 512; 1000; 1024; 4096; 32767;
   -2147483648; -100663046; -32769; 32768; 65535; 65536; 100663045; 2147483647]%Z.

(** ** The mutators *)

Inductive MutationResult := Mutated | Skipped.
#[global] Instance MutationResult_eq_dec : EqDecision MutationResult.
Proof. solve_decision. Defined.

(** A mutator edits the bytes of the input in place: it hands back the bytes.  On an error the input is
    dropped by its caller. *)
Abbreviation Mutation := (bytes → M State (MutationResult * bytes)).

Definition skipped (input : bytes) : M State (MutationResult * bytes) := ret (Skipped, input).

(** A byte of the input, chosen by its position, and its new value. *)
Definition change_byte (f : byte → M State byte) : Mutation := λ input,
  match input with
  | [] => skipped input
  | _ =>
    i <- rand_choose (seq 0 (length input)) ;;
    b <- lift (unwrap (input !! i)) ;;
    b' <- f b ;;
    ret (Mutated, <[i := b']> input)
  end.

Definition BitFlipMutator_mutate : Mutation := λ input,
  match input with
  | [] => skipped input
  | _ =>
    k <- rand_choose (seq 0 8) ;;
    let bit := Z.shiftl 1 (Z.of_nat k) in
    change_byte (λ b, ret (to_u8 (Z.lxor (u8_of b) bit))) input
  end.
Definition ByteFlipMutator_mutate : Mutation := change_byte (λ b, ret (to_u8 (Z.lxor (u8_of b) 255))).
Definition ByteIncMutator_mutate : Mutation := change_byte (λ b, ret (to_u8 (u8_of b + 1))).
Definition ByteDecMutator_mutate : Mutation := change_byte (λ b, ret (to_u8 (u8_of b - 1))).
Definition ByteNegMutator_mutate : Mutation := change_byte (λ b, ret (to_u8 (Z.lxor (u8_of b) 255 + 1))).
Definition ByteRandMutator_mutate : Mutation := change_byte (λ b,
  n <- rand_below 254 ;; ret (to_u8 (Z.lxor (u8_of b) (1 + Z.of_nat n)))).

(** [input.windows(size).enumerate()] *)
Definition windows (size : nat) (input : bytes) : list (nat * bytes) :=
  (λ i, (i, take size (drop i input))) <$> seq 0 (length input + 1 - size).

(** [add_mutator_impl!], for the integers of [size] bytes. *)
Definition add_mutate (little : bool) (size : nat) : Mutation := λ input,
  if length input <? size then skipped input
  else
    w <- rand_choose (windows size input) ;;
    let '(index, bs) := w : nat * bytes in
    let val := from_ne_bytes little bs in
    n <- rand_below ARITH_MAX ;;
    let num := (1 + Z.of_nat n)%Z in
    op <- rand_below 4 ;;
    let new_val := match op with
      | 0 => wrap_size size (val + num)
      | 1 => wrap_size size (val - num)
      | 2 => swap_bytes size (wrap_size size (swap_bytes size val + num))
      | _ => swap_bytes size (wrap_size size (swap_bytes size val - num))
      end in
    input <- lift (copy_from_slice input index size (to_ne_bytes little size new_val)) ;;
    ret (Mutated, input).

(** [interesting_mutator_impl!] *)
Definition interesting_mutate (size : nat) (interesting : list Z) : Mutation := λ input,
  if length input <? size then skipped input
  else
    let upper_bound := length input + 1 - size in
    idx <- rand_below upper_bound ;;
    v <- rand_choose interesting ;;
    let val := wrap_size size v in
    order <- rand_choose [0; 1] ;;
    let new_bytes := match order with 0 => to_be_bytes size val | _ => to_le_bytes size val end in
    input <- lift (copy_from_slice input idx size new_bytes) ;;
    ret (Mutated, input).

Definition BytesDeleteMutator_mutate : Mutation := λ input,
  let size := length input in
  if size <=? 2 then skipped input
  else
    range <- rand_range size (size - 1) ;;
    input <- lift (vec_drain input (start range) (stop range)) ;;
    ret (Mutated, input).

(** The room that is left for the input to grow, at most [n]. *)
Definition room_upto (n : nat) (max_size : Z) (size : nat) : nat :=
  Z.to_nat (Z.min (Z.of_nat n) (max_size - Z.of_nat size)).

Definition BytesExpandMutator_mutate : Mutation := λ input,
  max_size <- gets max_size ;;
  let size := length input in
  if (size =? 0) || (max_size <=? Z.of_nat size)%Z then skipped input
  else
    range <- rand_range size (room_upto 16 max_size size) ;;
    input <- lift (vec_resize input (size + range_len range) Byte.x00) ;;
    input <- lift (buffer_self_copy input (start range) (start range + range_len range) (size - start range)) ;;
    ret (Mutated, input).

(** The common end of the two insert mutators. *)
Definition insert_bytes (input : bytes) (size offset amount : nat) (val : byte) :
    M State (MutationResult * bytes) :=
  input <- lift (vec_resize input (size + amount) Byte.x00) ;;
  input <- lift (buffer_self_copy input offset (offset + amount) (size - offset)) ;;
  input <- lift (buffer_set input offset amount val) ;;
  ret (Mutated, input).

(** [amount] cut down to the room that is left; [None] when there is none. *)
Definition fit_amount (max_size : Z) (size amount : nat) : option nat :=
  if (max_size <? Z.of_nat (size + amount))%Z then
    if (Z.of_nat size <? max_size)%Z then Some (Z.to_nat (max_size - Z.of_nat size)) else None
  else Some amount.

Definition BytesInsertMutator_mutate : Mutation := λ input,
  max_size <- gets max_size ;;
  let size := length input in
  if (size =? 0) || (max_size <=? Z.of_nat size)%Z then skipped input
  else
    n <- rand_below 16 ;;
    offset <- rand_below (size + 1) ;;
    match fit_amount max_size size (1 + n) with
    | None => skipped input
    | Some amount =>
      i <- rand_below size ;;
      val <- lift (unwrap (input !! i)) ;;
      insert_bytes input size offset amount val
    end.

Definition BytesRandInsertMutator_mutate : Mutation := λ input,
  max_size <- gets max_size ;;
  let size := length input in
  if (max_size <=? Z.of_nat size)%Z then skipped input
  else
    n <- rand_below 16 ;;
    offset <- rand_below (size + 1) ;;
    match fit_amount max_size size (1 + n) with
    | None => skipped input
    | Some amount =>
      v <- rand_next ;;
      insert_bytes input size offset amount (to_u8 v)
    end.

Definition BytesSetMutator_mutate : Mutation := λ input,
  let size := length input in
  if size =? 0 then skipped input
  else
    range <- rand_range size (Nat.min size 16) ;;
    val <- rand_choose input ;;
    input <- lift (buffer_set input (start range) (range_len range) val) ;;
    ret (Mutated, input).

Definition BytesRandSetMutator_mutate : Mutation := λ input,
  let size := length input in
  if size =? 0 then skipped input
  else
    range <- rand_range size (Nat.min size 16) ;;
    v <- rand_next ;;
    input <- lift (buffer_set input (start range) (range_len range) (to_u8 v)) ;;
    ret (Mutated, input).

Definition BytesCopyMutator_mutate : Mutation := λ input,
  let size := length input in
  if size <=? 1 then skipped input
  else
    target <- rand_below size ;;
    range <- rand_range size (size - target) ;;
    input <- lift (buffer_self_copy input (start range) target (range_len range)) ;;
    ret (Mutated, input).

(** Mutators with a buffer of their own hand it back. *)
Abbreviation BufMutation := (bytes → bytes → M State (bytes * (MutationResult * bytes))).

Definition BytesInsertCopyMutator_mutate : BufMutation := λ tmp_buf input,
  max_size <- gets max_size ;;
  let size := length input in
  if (size <=? 1) || (max_size <=? Z.of_nat size)%Z then ret (tmp_buf, (Skipped, input))
  else
    target <- rand_below size ;;
    let max_insert_len := room_upto (size - target) max_size size in
    let max_insert_len := Nat.min 16 max_insert_len in
    range <- rand_range size max_insert_len ;;
    input <- lift (vec_resize input (size + range_len range) Byte.x00) ;;
    tmp_buf <- lift (vec_resize tmp_buf (range_len range) Byte.x00) ;;
    tmp_buf <- lift (buffer_copy tmp_buf input (start range) 0 (range_len range)) ;;
    input <- lift (buffer_self_copy input target (target + range_len range) (size - target)) ;;
    input <- lift (buffer_copy input tmp_buf 0 target (range_len range)) ;;
    ret (tmp_buf, (Mutated, input)).

(** The exchange of the range [near] with the range [far] behind it, with [far] in the buffer: what lies between
    is moved by the difference of the lengths, [near] is copied to where [far] was, and [far] is copied back. *)
Definition swap_from_far (tmp_buf input : bytes) (near far : Range) : M State (bytes * (MutationResult * bytes)) :=
  tmp_buf <- lift (vec_resize tmp_buf (range_len far) Byte.x00) ;;
  if range_len near <=? range_len far then
    let diff_in_size := range_len far - range_len near in
    tmp_buf <- lift (buffer_copy tmp_buf input (start far) 0 (range_len far)) ;;
    input <- lift (buffer_self_copy input (stop near) (stop near + diff_in_size) (start far - stop near)) ;;
    input <- lift (buffer_self_copy input (start near) (start far + diff_in_size) (range_len near)) ;;
    input <- lift (buffer_copy input tmp_buf 0 (start near) (range_len far)) ;;
    ret (tmp_buf, (Mutated, input))
  else
    let diff_in_size := range_len near - range_len far in
    tmp_buf <- lift (buffer_copy tmp_buf input (start far) 0 (range_len far)) ;;
    input <- lift (buffer_self_copy input (stop near) (stop near - diff_in_size) (start far - stop near)) ;;
    input <- lift (buffer_self_copy input (start near) (start far - diff_in_size) (range_len near)) ;;
    input <- lift (buffer_copy input tmp_buf 0 (start near) (range_len far)) ;;
    ret (tmp_buf, (Mutated, input)).

(** The two halves of the source differ only in the names of the ranges: the first range is the far one
    in the first half and the near one in the second. *)
Definition BytesSwapMutator_mutate : BufMutation := λ tmp_buf input,
  let size := length input in
  if size <=? 1 then ret (tmp_buf, (Skipped, input))
  else
    first <- rand_range size size ;;
    n <- rand_next ;;
    if (Z.land n 1 =? 0)%Z && negb (start first =? 0) then
      second <- rand_range (start first) (start first) ;;
      swap_from_far tmp_buf input second first
    else if negb (stop first =? size) then
      second <- rand_range (size - stop first) (size - stop first) ;;
      let second := mkRange (start second + stop first) (stop second + stop first) in
      swap_from_far tmp_buf input first second
    else ret (tmp_buf, (Skipped, input)).

(** [random_corpus_id_with_disabled!]: an empty corpus is a panic. *)
Definition random_corpus_id_with_disabled : M State CorpusId :=
  c <- gets corpus ;;
  let cnt := InMemory.count_all c in
  if cnt =? 0 then panic
  else
    nth <- rand_below cnt ;;
    lift (InMemory.nth_from_all nth c).

(** [Testcase::load_input] on the in-memory corpus, whose [load_input_into] does nothing. *)
Definition load_input (tc : Testcase) : outcome Error bytes := unwrap (tc_input tc).

(** An entry to splice with and its bytes; [None] when it is the current one. *)
Definition other_entry : M State (option bytes) :=
  id <- random_corpus_id_with_disabled ;;
  c <- gets corpus ;;
  if bool_decide (InMemory.current c = Some id) then ret None
  else
    tc <- lift (InMemory.get_from_all id c) ;;
    other <- lift (load_input tc) ;;
    ret (Some other).

Definition crossover_insert (input : bytes) (size target : nat) (range : Range) (other : bytes) :
    M State (MutationResult * bytes) :=
  input <- lift (vec_resize input (size + range_len range) Byte.x00) ;;
  input <- lift (buffer_self_copy input target (target + range_len range) (size - target)) ;;
  input <- lift (buffer_copy input other (start range) target (range_len range)) ;;
  ret (Mutated, input).

Definition crossover_replace (input : bytes) (target : nat) (range : Range) (other : bytes) :
    M State (MutationResult * bytes) :=
  input <- lift (buffer_copy input other (start range) target (range_len range)) ;;
  ret (Mutated, input).

Definition CrossoverInsertMutator_mutate : Mutation := λ input,
  let size := length input in
  if size =? 0 then skipped input
  else
    max_size <- gets max_size ;;
    if (max_size <=? Z.of_nat size)%Z then skipped input
    else
      o <- other_entry ;;
      match o with
      | None => skipped input
      | Some other =>
        if length other <? 2 then skipped input
        else
          range <- rand_range (length other) (room_upto (length other) max_size size) ;;
          target <- rand_below size ;;
          crossover_insert input size target range other
      end.

Definition CrossoverReplaceMutator_mutate : Mutation := λ input,
  let size := length input in
  if size =? 0 then skipped input
  else
    o <- other_entry ;;
    match o with
    | None => skipped input
    | Some other =>
      if length other <? 2 then skipped input
      else
        target <- rand_below size ;;
        range <- rand_range (length other) (Nat.min (length other) (size - target)) ;;
        crossover_replace input target range other
    end.

(** The crossovers of a part of the input; [input_mapper] finds the part in the other entry. *)
Section Mapped.
Context (input_mapper : bytes → option bytes).

Definition MappedCrossoverInsertMutator_mutate : Mutation := λ input,
  let size := length input in
  max_size <- gets max_size ;;
  if (max_size <=? Z.of_nat size)%Z || (size =? 0) then skipped input
  else
    o <- other_entry ;;
    match o with
    | None => skipped input
    | Some other =>
      let mapped := input_mapper other in
      let other_size := default 0 (length <$> mapped) in
      if other_size <? 2 then skipped input
      else
        range <- rand_range other_size (room_upto other_size max_size size) ;;
        target <- rand_below size ;;
        match mapped with
        | None => skipped input
        | Some mapped => crossover_insert input size target range mapped
        end
    end.

Definition MappedCrossoverReplaceMutator_mutate : Mutation := λ input,
  let size := length input in
  if size =? 0 then skipped input
  else
    o <- other_entry ;;
    match o with
    | None => skipped input
    | Some other =>
      let mapped := input_mapper other in
      let other_size := default 0 (length <$> mapped) in
      if other_size <? 2 then skipped input
      else
        target <- rand_below size ;;
        range <- rand_range other_size (Nat.min other_size (size - target)) ;;
        match mapped with
        | None => skipped input
        | Some mapped => crossover_replace input target range mapped
        end
    end.
End Mapped.

(** First and last position at which two inputs differ, [-1] if they do not. *)
Fixpoint locate_diffs_from (i : Z) (first last : Z) (this other : bytes) : Z * Z :=
  match this, other with
  | a :: this, b :: other =>
    if decide (a = b) then locate_diffs_from (i + 1) first last this other
    else locate_diffs_from (i + 1) (if (first <? 0)%Z then i else first) i this other
  | _, _ => (first, last)
  end.
Definition locate_diffs (this other : bytes) : Z * Z := locate_diffs_from 0 (-1) (-1) this other.

Definition SpliceMutator_mutate : Mutation := λ input,
  o <- other_entry ;;
  match o with
  | None => skipped input
  | Some other =>
    let '(f, l) := locate_diffs input other in
    if negb (f =? l)%Z && (0 <=? f)%Z && (2 <=? l)%Z then
      split_at <- rand_between (Z.to_nat f) (Z.to_nat l) ;;
      (if (length input <? split_at) || (length other <? split_at) then panic else ret ()) ;;;
      ret (Mutated, take split_at input ++ drop split_at other)
    else skipped input
  end.

(** ** Bytes and buffers *)

Lemma u8_of_range b : (0 ≤ u8_of b < 256)%Z.
Proof. unfold u8_of. pose proof (Byte.to_N_bounded b). lia. Qed.
Lemma u8_to_u8 z : u8_of (to_u8 z) = (z mod 256)%Z.
Proof.
  unfold u8_of, to_u8. pose proof (Z.mod_pos_bound z 256 ltac:(lia)) as Hz.
  destruct (Byte.of_N (Z.to_N (z mod 256))) as [b|] eqn:E.
  - change (Z.of_N (Byte.to_N b) = (z mod 256)%Z). rewrite (Byte.to_of_N _ E). lia.
  - apply Byte.of_N_None_iff in E. lia.
Qed.
Lemma u8_of_inj a b : u8_of a = u8_of b → a = b.
Proof.
  unfold u8_of. intros E. apply N2Z.inj in E. pose proof (Byte.of_to_N a) as Ha. pose proof (Byte.of_to_N b). congruence.
Qed.

Lemma to_le_bytes_length size v : length (to_le_bytes size v) = size.
Proof. revert v. induction size as [|size IH]; intros v; cbn; [done|by rewrite IH]. Qed.
Lemma to_be_bytes_length size v : length (to_be_bytes size v) = size.
Proof. unfold to_be_bytes. by rewrite length_reverse, to_le_bytes_length. Qed.
Lemma to_ne_bytes_length little size v : length (to_ne_bytes little size v) = size.
Proof. destruct little; [apply to_le_bytes_length|apply to_be_bytes_length]. Qed.

Lemma from_le_bytes_range bs : (0 ≤ from_le_bytes bs < 2 ^ (8 * Z.of_nat (length bs)))%Z.
Proof.
  induction bs as [|b bs IH]; cbn [from_le_bytes length]; [cbn; lia|]. pose proof (u8_of_range b).
  replace (8 * Z.of_nat (S (length bs)))%Z with (8 + 8 * Z.of_nat (length bs))%Z by lia.
  rewrite Z.pow_add_r by lia. change (2 ^ 8)%Z with 256%Z. nia.
Qed.

(** Reading back what was written. *)
Lemma from_to_le_bytes size v : from_le_bytes (to_le_bytes size v) = wrap_size size v.
Proof.
  unfold wrap_size. revert v. induction size as [|size IH]; intros v; cbn [to_le_bytes from_le_bytes].
  { cbn. by rewrite Z.mod_1_r. }
  rewrite IH, u8_to_u8. replace (8 * Z.of_nat (S size))%Z with (8 + 8 * Z.of_nat size)%Z by lia.
  rewrite Z.pow_add_r by lia. change (2 ^ 8)%Z with 256%Z.
  rewrite Z.rem_mul_r by lia. done.
Qed.
Lemma to_from_le_bytes bs : to_le_bytes (length bs) (from_le_bytes bs) = bs.
Proof.
  induction bs as [|b bs IH]; cbn [to_le_bytes from_le_bytes length]; [done|]. pose proof (u8_of_range b). f_equal.
  - apply u8_of_inj. rewrite u8_to_u8, Z.mul_comm, Z_mod_plus_full. by apply Z.mod_small.
  - rewrite Z.mul_comm, Z.div_add, Z.div_small by lia. done.
Qed.
Lemma from_to_ne_bytes little size v : from_ne_bytes little (to_ne_bytes little size v) = wrap_size size v.
Proof.
  unfold from_ne_bytes, to_ne_bytes, to_be_bytes. destruct little; [apply from_to_le_bytes|].
  by rewrite reverse_involutive, from_to_le_bytes.
Qed.

Lemma overwrite_length dst src from to len : from + len ≤ length src → to + len ≤ length dst →
  length (overwrite dst src from to len) = length dst.
Proof. intros. unfold overwrite. rewrite !length_app, !length_take, !length_drop. lia. Qed.

Lemma overwrite_nothing data from to : to ≤ length data → overwrite data data from to 0 = data.
Proof. intros. unfold overwrite. rewrite take_0, Nat.add_0_r. cbn. apply take_drop. Qed.
Lemma overwrite_same data from len : from + len ≤ length data → overwrite data data from from len = data.
Proof.
  intros. unfold overwrite. rewrite <-drop_drop, take_drop. apply take_drop.
Qed.

Lemma self_copy_ok data from to len : data ≠ [] → from + len ≤ length data → to + len ≤ length data →
  buffer_self_copy data from to len = Ok (overwrite data data from to len).
Proof.
  intros Hd Hf Ht. unfold buffer_self_copy. rewrite bool_decide_false by done.
  destruct (Nat.ltb_spec (length data) (from + len)); [lia|].
  destruct (Nat.ltb_spec (length data) (to + len)); [lia|]. cbn [orb].
  destruct (Nat.eqb_spec len 0) as [->|]; cbn [negb andb]; [by rewrite overwrite_nothing by lia|].
  destruct (Nat.eqb_spec from to) as [->|]; cbn [negb]; [|done]. by rewrite overwrite_same.
Qed.
Lemma copy_ok dst src from to len : dst ≠ [] → src ≠ [] → from + len ≤ length src → to + len ≤ length dst →
  buffer_copy dst src from to len = Ok (overwrite dst src from to len).
Proof.
  intros Hd Hs Hf Ht. unfold buffer_copy. rewrite !bool_decide_false by done.
  destruct (Nat.ltb_spec (length src) (from + len)); [lia|].
  destruct (Nat.ltb_spec (length dst) (to + len)); [lia|]. cbn [orb].
  destruct (Nat.eqb_spec len 0) as [->|]; cbn [negb]; [|done].
  unfold overwrite. rewrite take_0, Nat.add_0_r. cbn. by rewrite take_drop.
Qed.
Lemma set_ok data from len val : from + len ≤ length data →
  buffer_set data from len val = Ok (take from data ++ replicate len val ++ drop (from + len) data).
Proof. intros. unfold buffer_set. by destruct (Nat.ltb_spec (length data) (from + len)); [lia|]. Qed.
Lemma resize_ok data n value : (Z.of_nat n ≤ isize_max)%Z →
  vec_resize data n value = Ok (take n data ++ replicate (n - length data) value).
Proof. intros. unfold vec_resize. by destruct (Z.ltb_spec isize_max (Z.of_nat n)); [lia|]. Qed.
Lemma resize_grow data n value : (Z.of_nat (length data + n) ≤ isize_max)%Z →
  vec_resize data (length data + n) value = Ok (data ++ replicate n value).
Proof.
  intros. rewrite resize_ok by done. rewrite take_ge by lia. by replace (length data + n - length data) with n by lia.
Qed.
Lemma drain_ok data a b : a ≤ b → b ≤ length data → vec_drain data a b = Ok (take a data ++ drop b data).
Proof.
  intros. unfold vec_drain. by destruct (Nat.leb_spec a b), (Nat.leb_spec b (length data)); try lia.
Qed.
Lemma copy_from_ok data from len src : from + len ≤ length data → length src = len →
  copy_from_slice data from len src = Ok (take from data ++ src ++ drop (from + len) data).
Proof.
  intros. unfold copy_from_slice. by destruct (Nat.leb_spec (from + len) (length data)), (Nat.eqb_spec (length src) len); try lia.
Qed.

(** A piece of the input. *)
Definition piece (l : bytes) (a n : nat) : bytes := take n (drop a l).
Lemma piece_length l a n : a + n ≤ length l → length (piece l a n) = n.
Proof. intros. unfold piece. rewrite length_take, length_drop. lia. Qed.

(** Room is made at [at'] for [n] bytes: what stood behind is moved up. *)
Lemma make_room l at' n pad : at' ≤ length l → length pad = n →
  overwrite (l ++ pad) (l ++ pad) at' (at' + n) (length l - at') =
    take at' l ++ piece (l ++ pad) at' n ++ drop at' l.
Proof.
  intros Ha Hp. unfold overwrite, piece. rewrite (drop_ge (l ++ pad) (at' + n + (length l - at'))) by (rewrite length_app; lia).
  rewrite app_nil_r, <-take_take_drop, <-app_assoc. f_equal; [by rewrite take_app_le|]. f_equal.
  rewrite drop_app_le by lia. apply take_app_length'. rewrite length_drop. lia.
Qed.

(** ** Random draws *)

(** Only the generator moves. *)
Definition drawn (s s' : State) : Prop := s' = s <| rand := rand s' |> ∧ rand_inv (rand s').

(** What the mutators rely on: a seeded generator, a limit on the size that a vector can have, and a corpus whose
    entries have their inputs. *)
Record mut_ok (s : State) : Prop := {
  mok_rand : rand_inv (rand s);
  mok_max : (0 ≤ max_size s ≤ isize_max)%Z;
  mok_corpus : cwf (corpus s);
  mok_some : InMemory.count_all (corpus s) ≠ 0;
  mok_count : (Z.of_nat (InMemory.count_all (corpus s)) ≤ u64_max)%Z;
  mok_inputs : ∀ id tc, InMemory.get_from_all id (corpus s) = Ok tc →
    ∃ i, tc_input tc = Some i ∧ (Z.of_nat (length i) ≤ isize_max)%Z;
}.

Lemma drawn_refl s : rand_inv (rand s) → drawn s s.
Proof. intros. split; [by destruct s|done]. Qed.

(** [m], started in a state that differs from [s0] only by draws, returns a value with [Q]. *)
Definition draws {A} (s0 : State) (m : M State A) (Q : A → Prop) : Prop :=
  ∀ s, drawn s0 s → ∃ a s', m s = (Ok a, s') ∧ drawn s0 s' ∧ Q a.

Section Draws.
Context (s0 : State).

Lemma draws_ret {A} (a : A) (Q : A → Prop) : Q a → draws s0 (ret a) Q.
Proof. intros Hq s Hs. by exists a, s. Qed.
Lemma draws_bind {A B} (m : M State A) (f : A → M State B) (Q : A → Prop) (R : B → Prop) :
  draws s0 m Q → (∀ a, Q a → draws s0 (f a) R) → draws s0 (a <- m ;; f a) R.
Proof.
  intros Hm Hf s Hs. destruct (Hm s Hs) as (a & s1 & Hrun & Hs1 & Hq).
  destruct (Hf a Hq s1 Hs1) as (b & s2 & Hrun2 & Hs2 & Hr). exists b, s2. unfold bind. by rewrite Hrun.
Qed.
Lemma draws_weaken {A} (m : M State A) (Q R : A → Prop) : draws s0 m Q → (∀ a, Q a → R a) → draws s0 m R.
Proof. intros Hm Hw s Hs. destruct (Hm s Hs) as (a & s' & ? & ? & ?). exists a, s'. auto. Qed.
Lemma draws_lift {A} (o : outcome Error A) a (Q : A → Prop) : o = Ok a → Q a → draws s0 (lift o) Q.
Proof. intros -> Hq s Hs. by exists a, s. Qed.
(** The rest of a computation after a step that is known to succeed. *)
Lemma draws_step {A B} (o : outcome Error A) a (f : A → M State B) (R : B → Prop) :
  o = Ok a → draws s0 (f a) R → draws s0 (x <- lift o ;; f x) R.
Proof. intros Ho Hf. apply (draws_bind _ _ (λ x, x = a)); [by eapply draws_lift|]. by intros x ->. Qed.
Lemma draws_if {A} (b : bool) (m n : M State A) (Q : A → Prop) :
  (b = true → draws s0 m Q) → (b = false → draws s0 n Q) → draws s0 (if b then m else n) Q.
Proof. destruct b; auto. Qed.
Lemma draws_gets {A} (f : State → A) : (∀ s, drawn s0 s → f s = f s0) → draws s0 (gets f) (λ x, x = f s0).
Proof. intros Hf s Hs. exists (f s), s. split; [done|]. split; [done|by apply Hf]. Qed.
Lemma draws_max_size : draws s0 (gets max_size) (λ x, x = max_size s0).
Proof. apply draws_gets. by intros s [-> _]. Qed.
Lemma draws_corpus : draws s0 (gets corpus) (λ x, x = corpus s0).
Proof. apply draws_gets. by intros s [-> _]. Qed.

Lemma draws_rand {A} (f : StdRand → A * StdRand) (Q : A → Prop) :
  (∀ r, rand_inv r → rand_inv (f r).2 ∧ Q (f r).1) → draws s0 (on_rand f) Q.
Proof.
  intros Hf s [Es Hr]. destruct (Hf (rand s) Hr) as [Hr' Hq]. unfold on_rand. destruct (f (rand s)) as [a r'].
  exists a, (s <| rand := r' |>). split; [done|]. split; [|done]. split; [|done]. rewrite Es. done.
Qed.
Lemma draws_next : draws s0 rand_next is_u64.
Proof. apply draws_rand. intros r Hr. split; [by apply next_inv|by apply next_u64]. Qed.
Lemma draws_below n : 0 < n → (Z.of_nat n ≤ u64_max)%Z → draws s0 (rand_below n) (λ k, k < n).
Proof. intros Hn Hu. apply draws_rand. intros r Hr. destruct (below_lt n r Hr Hn Hu). done. Qed.
Lemma draws_zero_upto n : (Z.of_nat n ≤ u64_max)%Z → draws s0 (rand_zero_upto n) (λ k, k < Nat.max 1 n).
Proof. intros Hu. apply draws_rand. intros r Hr. destruct (zero_upto_spec n r Hr Hu). done. Qed.
Lemma draws_between lo hi : lo ≤ hi → (Z.of_nat hi < u64_max)%Z → draws s0 (rand_between lo hi) (λ k, lo ≤ k ≤ hi).
Proof. intros Hl Hu. apply draws_rand. intros r Hr. destruct (between_spec lo hi r Hr Hl Hu). done. Qed.

Lemma draws_choose {A} (l : list A) : l ≠ [] → (Z.of_nat (length l) ≤ u64_max)%Z →
  draws s0 (rand_choose l) (λ x, x ∈ l).
Proof.
  intros Hl Hu. apply (draws_bind _ _ (λ o, ∃ x, o = Some (Some x) ∧ x ∈ l)).
  - apply draws_rand. intros r Hr. unfold choose, exact_hint. rewrite bool_decide_true by done.
    destruct l as [|y l]; [done|]. cbn [length].
    destruct (below_lt (S (length l)) r Hr ltac:(lia) Hu) as [Hlt Hi].
    destruct (below (S (length l)) r) as [i r']. cbn [fst snd] in *. split; [done|].
    apply (lookup_lt_is_Some_2 (y :: l)) in Hlt as [x Hx]. rewrite Hx. exists x. split; [done|]. by eapply list_elem_of_lookup_2.
  - intros o (x & -> & Hx). by eapply draws_lift.
Qed.

Lemma isize_u64 n : (Z.of_nat n ≤ isize_max)%Z → (Z.of_nat n ≤ u64_max)%Z.
Proof. unfold isize_max, u64_max. lia. Qed.

(** The range is never empty and stays below [upper]. *)
Lemma draws_range upper max_len : 0 < upper → 0 < max_len → (Z.of_nat upper ≤ isize_max)%Z →
  (Z.of_nat max_len ≤ isize_max)%Z →
  draws s0 (rand_range upper max_len) (λ r, start r < stop r ≤ upper ∧ range_len r ≤ max_len).
Proof.
  intros Hu Hm Hu' Hm'. unfold rand_range.
  eapply draws_bind; [apply draws_below; [done|by apply isize_u64]|]. intros n Hn. cbn beta in Hn.
  eapply draws_bind; [apply draws_zero_upto; unfold isize_max, u64_max in *; lia|]. intros k Hk. cbn beta in Hk.
  apply draws_ret. unfold range_len. cbn [start stop]. destruct (Nat.ltb_spec upper (1 + k)); lia.
Qed.
End Draws.
Create HintDb mut.
#[export] Hint Resolve isize_u64 : mut.

(** ** The effects *)

Definition known_size (l : bytes) : Prop := (Z.of_nat (length l) ≤ isize_max)%Z.
(** Bytes from [a] on are replaced by [x], up to [b]. *)
Definition replaced (l : bytes) (a b : nat) (x : bytes) : bytes := take a l ++ x ++ drop b l.

Lemma replaced_length l a b x : a ≤ b → b ≤ length l → length (replaced l a b x) = a + length x + (length l - b).
Proof. intros. unfold replaced. rewrite !length_app, length_take, length_drop. lia. Qed.

(** One byte becomes another. *)
Definition byte_to (R : byte → byte → Prop) (l l' : bytes) : Prop :=
  ∃ i b b', l !! i = Some b ∧ R b b' ∧ l' = <[i := b']> l.
(** A sum or difference with a small number, in either byte order. *)
Definition added (little : bool) (size : nat) (bs bs' : bytes) : Prop :=
  ∃ num, (1 ≤ num ≤ 35)%Z ∧ let v := from_ne_bytes little bs in
    (bs' = to_ne_bytes little size (wrap_size size (v + num)) ∨
     bs' = to_ne_bytes little size (wrap_size size (v - num)) ∨
     bs' = to_ne_bytes little size (swap_bytes size (wrap_size size (swap_bytes size v + num))) ∨
     bs' = to_ne_bytes little size (swap_bytes size (wrap_size size (swap_bytes size v - num)))).
Definition add_effect (little : bool) (size : nat) (l l' : bytes) : Prop :=
  ∃ i x, i + size ≤ length l ∧ added little size (piece l i size) x ∧ l' = replaced l i (i + size) x.
Definition interesting_effect (size : nat) (values : list Z) (l l' : bytes) : Prop :=
  ∃ i v x, i + size ≤ length l ∧ v ∈ values ∧
    (x = to_be_bytes size (wrap_size size v) ∨ x = to_le_bytes size (wrap_size size v)) ∧
    l' = replaced l i (i + size) x.
Definition delete_effect (l l' : bytes) : Prop :=
  ∃ a b, a < b ∧ b ≤ length l ∧ b - a < length l ∧ l' = replaced l a b [].
(** A range is repeated. *)
Definition expand_effect (l l' : bytes) : Prop :=
  ∃ a n, 0 < n ∧ a + n ≤ length l ∧ l' = replaced l a a (piece l a n).
Definition insert_effect (R : byte → Prop) (l l' : bytes) : Prop :=
  ∃ a n v, a ≤ length l ∧ 0 < n ≤ 16 ∧ R v ∧ l' = replaced l a a (replicate n v).
Definition set_effect (R : byte → Prop) (l l' : bytes) : Prop :=
  ∃ a n v, 0 < n ≤ 16 ∧ a + n ≤ length l ∧ R v ∧ l' = replaced l a (a + n) (replicate n v).
Definition copy_effect (src l l' : bytes) : Prop :=
  ∃ a n t, 0 < n ∧ a + n ≤ length src ∧ t + n ≤ length l ∧ l' = replaced l t (t + n) (piece src a n).
Definition insert_copy_effect (src l l' : bytes) : Prop :=
  ∃ a n t, 0 < n ∧ a + n ≤ length src ∧ t ≤ length l ∧ l' = replaced l t t (piece src a n).

(** What is left of the near range when the middle is moved over its end. *)
Definition smeared (near middle : bytes) (far_len : nat) : bytes :=
  if length near <=? far_len then near
  else take (length near) (take far_len near ++ middle ++ drop (far_len + length middle) (near ++ middle)).
Definition swap_effect (l l' : bytes) : Prop :=
  ∃ p near middle far q, l = p ++ near ++ middle ++ far ++ q ∧ near ≠ [] ∧ far ≠ [] ∧
    l' = p ++ far ++ middle ++ smeared near middle (length far) ++ q.

(** The bytes of another entry of the corpus. *)
Definition is_other (s : State) (other : bytes) : Prop :=
  ∃ id tc, InMemory.get_from_all id (corpus s) = Ok tc ∧ InMemory.current (corpus s) ≠ Some id ∧ tc_input tc = Some other.

(** A result of a mutator: [E] when it mutated, and the bytes as they were when it did not; mutated bytes
    are not longer than the limit allows. *)
Definition mutated_to (s : State) (l : bytes) (E : bytes → Prop) (r : MutationResult * bytes) : Prop :=
  match r with
  | (Mutated, l') => E l' ∧ (Z.of_nat (length l') ≤ Z.max (Z.of_nat (length l)) (max_size s))%Z
  | (Skipped, l') => l' = l
  end.

Ltac draw R := eapply draws_bind; [apply R|]; cbn beta.

Section Effects.
Context (s0 : State) (Hok : mut_ok s0).
Implicit Types l : bytes.

Lemma skipped_draws l E : draws s0 (skipped l) (mutated_to s0 l E).
Proof. by apply draws_ret. Qed.

Lemma same_length l (E : bytes → Prop) l' : E l' → length l' = length l → mutated_to s0 l E (Mutated, l').
Proof. intros He Hlen. split; [done|]. rewrite Hlen. lia. Qed.

Lemma change_byte_draws l f (R : byte → byte → Prop) : known_size l → (∀ b, draws s0 (f b) (R b)) →
  draws s0 (change_byte f l) (mutated_to s0 l (byte_to R l)).
Proof.
  intros Hl Hf. unfold change_byte. destruct l as [|b0 l1]; [by apply draws_ret|]. set (l := b0 :: l1) in *.
  draw @draws_choose; [done|rewrite length_seq; by apply isize_u64|].
  intros i Hi. apply elem_of_seq in Hi. destruct (lookup_lt_is_Some_2 l i) as [b Hb]; [lia|].
  eapply draws_step; [by rewrite Hb|]. draw Hf. intros b' Hr. apply draws_ret.
  apply same_length; [by exists i, b, b'|by rewrite length_insert].
Qed.

Lemma bit_flip_draws l : known_size l →
  draws s0 (BitFlipMutator_mutate l) (mutated_to s0 l (byte_to (λ b b',
    ∃ k, (0 ≤ k < 8)%Z ∧ b' = to_u8 (Z.lxor (u8_of b) (Z.shiftl 1 k))) l)).
Proof.
  intros Hl. unfold BitFlipMutator_mutate. destruct l as [|b0 l1]; [by apply draws_ret|]. set (l := b0 :: l1) in *.
  draw @draws_choose; [done|vm_compute; done|]. intros k Hk. apply elem_of_seq in Hk.
  apply change_byte_draws; [done|]. intros b. apply draws_ret. exists (Z.of_nat k). split; [lia|done].
Qed.

Lemma byte_rand_draws l : known_size l →
  draws s0 (ByteRandMutator_mutate l) (mutated_to s0 l (byte_to (λ b b',
    ∃ d, (1 ≤ d ≤ 254)%Z ∧ b' = to_u8 (Z.lxor (u8_of b) d)) l)).
Proof.
  intros Hl. apply change_byte_draws; [done|]. intros b. draw draws_below; [lia|vm_compute; done|]. intros n Hn. apply draws_ret.
  eexists. split; [|done]. lia.
Qed.

Lemma pure_byte_draws l (f : byte → byte) : known_size l →
  draws s0 (change_byte (λ b, ret (f b)) l) (mutated_to s0 l (byte_to (λ b b', b' = f b) l)).
Proof. intros Hl. apply change_byte_draws; [done|]. intros b. by apply draws_ret. Qed.

Lemma add_draws l little size : known_size l → 0 < size →
  draws s0 (add_mutate little size l) (mutated_to s0 l (add_effect little size l)).
Proof.
  intros Hl Hsz. unfold add_mutate. apply draws_if; intros Hlt; [apply skipped_draws|]. apply Nat.ltb_ge in Hlt.
  draw @draws_choose.
  { unfold windows. intros E. apply (f_equal length) in E. rewrite length_fmap, length_seq in E. cbn in E. lia. }
  { unfold windows. rewrite length_fmap, length_seq. unfold known_size, isize_max, u64_max in *. lia. }
  intros [i bs] Hw. unfold windows in Hw. apply list_elem_of_fmap in Hw as (i' & [= -> ->] & Hi). apply elem_of_seq in Hi.
  draw draws_below; [unfold ARITH_MAX; lia|vm_compute; done|]. intros n Hn. unfold ARITH_MAX in Hn.
  draw draws_below; [lia|vm_compute; done|]. intros op _. cbv zeta.
  eapply draws_step; [apply copy_from_ok; [lia|apply to_ne_bytes_length]|]. apply draws_ret. apply same_length.
  - eexists i', _. split; [lia|]. split; [|done]. exists (1 + Z.of_nat n)%Z. split; [lia|]. cbv zeta.
    fold (piece l i' size). destruct op as [|[|[|op]]]; auto.
  - rewrite !length_app, length_take, length_drop, to_ne_bytes_length. lia.
Qed.

Lemma interesting_draws l size values : known_size l → 0 < size → values ≠ [] → length values ≤ 27 →
  draws s0 (interesting_mutate size values l) (mutated_to s0 l (interesting_effect size values l)).
Proof.
  intros Hl Hsz Hv Hv'. unfold interesting_mutate. apply draws_if; intros Hlt; [apply skipped_draws|]. apply Nat.ltb_ge in Hlt.
  draw draws_below; [lia|unfold known_size, isize_max, u64_max in *; lia|]. intros i Hi.
  draw @draws_choose; [done|unfold u64_max; lia|]. intros v Hin.
  draw @draws_choose; [done|vm_compute; done|]. intros order _. cbv zeta.
  eapply draws_step.
  { apply copy_from_ok; [lia|]. destruct order; [apply to_be_bytes_length|apply to_le_bytes_length]. }
  apply draws_ret. apply same_length.
  - eexists i, v, _. split; [lia|]. split; [done|]. split; [|done]. destruct order; auto.
  - rewrite !length_app, length_take, length_drop.
    destruct order; rewrite ?to_be_bytes_length, ?to_le_bytes_length; lia.
Qed.

Lemma room_spec n l : 0 < n → (Z.of_nat (length l) < max_size s0)%Z →
  0 < room_upto n (max_size s0) (length l) ≤ n ∧ (Z.of_nat (length l + room_upto n (max_size s0) (length l)) ≤ max_size s0)%Z.
Proof. unfold room_upto. lia. Qed.

Lemma max_isize : (max_size s0 ≤ isize_max)%Z.
Proof. apply Hok. Qed.

(** The input is not too large and there is room left. *)
Lemma small_input l : (max_size s0 <=? Z.of_nat (length l))%Z = false → (Z.of_nat (length l) < max_size s0)%Z.
Proof. apply Z.leb_gt. Qed.

Lemma delete_draws l : known_size l →
  draws s0 (BytesDeleteMutator_mutate l) (mutated_to s0 l (delete_effect l)).
Proof.
  intros Hl. unfold BytesDeleteMutator_mutate. cbv zeta. apply draws_if; intros Hsz; [apply skipped_draws|].
  apply Nat.leb_gt in Hsz. unfold known_size in *. draw draws_range; [lia|lia|done|lia|]. intros r [Hr Hn].
  eapply draws_step; [apply drain_ok; lia|]. apply draws_ret. split.
  - exists (start r), (stop r). unfold range_len in Hn. split_and!; [lia|lia|lia|done].
  - rewrite length_app, length_take, length_drop. lia.
Qed.

(** Room for [n] bytes at [a]. *)
Lemma grow_at l a n {B} (f : bytes → M State B) (R : B → Prop) : 0 < n → a ≤ length l →
  (Z.of_nat (length l + n) ≤ max_size s0)%Z →
  draws s0 (f (replaced l a a (piece (l ++ replicate n Byte.x00) a n))) R →
  draws s0 (input <- lift (vec_resize l (length l + n) Byte.x00) ;;
            input <- lift (buffer_self_copy input a (a + n) (length l - a)) ;; f input) R.
Proof.
  intros Hn Ha Hm Hf. pose proof max_isize. eapply draws_step; [apply resize_grow; lia|].
  eapply draws_step; [apply self_copy_ok|].
  - intros E. apply (f_equal length) in E. rewrite length_app, length_replicate in E. cbn in E. lia.
  - rewrite length_app, length_replicate. lia.
  - rewrite length_app, length_replicate. lia.
  - rewrite make_room by (rewrite ?length_replicate; lia). done.
Qed.

Lemma expand_draws l : known_size l →
  draws s0 (BytesExpandMutator_mutate l) (mutated_to s0 l (expand_effect l)).
Proof.
  intros Hl. unfold BytesExpandMutator_mutate. draw draws_max_size. intros ? ->. cbv zeta.
  apply draws_if; intros Hsz; [apply skipped_draws|]. apply orb_false_iff in Hsz as [Hne Hsz%small_input].
  apply Nat.eqb_neq in Hne. destruct (room_spec 16 l ltac:(lia) Hsz) as [Hr1 Hr2]. pose proof max_isize.
  draw draws_range; [lia|lia|done|lia|]. intros r [Hr Hn]. assert (0 < range_len r) by (unfold range_len; lia).
  apply grow_at; [done|lia|lia|]. apply draws_ret.
  assert (piece (l ++ replicate (range_len r) Byte.x00) (start r) (range_len r) = piece l (start r) (range_len r)) as ->.
  { unfold piece. rewrite drop_app_le by lia. apply take_app_le. rewrite length_drop. unfold range_len. lia. }
  split; [exists (start r), (range_len r); split_and!; [done|unfold range_len; lia|done]|].
  rewrite replaced_length, piece_length by (unfold range_len in *; lia). lia.
Qed.

(** Room is filled with [x]. *)
Lemma fill_room l a x y : length y = length x → a ≤ length l →
  take a (replaced l a a y) ++ x ++ drop (a + length x) (replaced l a a y) = replaced l a a x.
Proof.
  intros Hx Ha. unfold replaced. rewrite take_app_le by (rewrite length_take; lia).
  rewrite take_ge by (rewrite length_take; lia). do 2 f_equal.
  rewrite app_assoc, drop_app_length'; [done|]. rewrite length_app, length_take. lia.
Qed.

Lemma insert_bytes_draws l a n v (R : byte → Prop) : a ≤ length l → 0 < n ≤ 16 →
  (Z.of_nat (length l + n) ≤ max_size s0)%Z → R v →
  draws s0 (insert_bytes l (length l) a n v) (mutated_to s0 l (insert_effect R l)).
Proof.
  intros Ha Hn Hm Hv. unfold insert_bytes. apply grow_at; [lia|done|done|].
  assert (length (piece (l ++ replicate n Byte.x00) a n) = n) as Hp.
  { apply piece_length. rewrite length_app, length_replicate. lia. }
  eapply draws_step; [apply set_ok; rewrite replaced_length, Hp by lia; lia|].
  apply draws_ret. pose proof (fill_room l a (replicate n v) _ (eq_trans Hp (eq_sym (length_replicate n v))) Ha) as E.
  rewrite length_replicate in E. rewrite E. split; [exists a, n, v; split_and!; done || lia|].
  rewrite replaced_length, length_replicate by lia. lia.
Qed.

Lemma fit_spec l n : 0 < n ≤ 16 → (Z.of_nat (length l) < max_size s0)%Z →
  ∃ k, fit_amount (max_size s0) (length l) n = Some k ∧ 0 < k ≤ 16 ∧ (Z.of_nat (length l + k) ≤ max_size s0)%Z.
Proof.
  intros Hn Hsz. unfold fit_amount. destruct (Z.ltb_spec (max_size s0) (Z.of_nat (length l + n))) as [Hlt|Hge].
  - rewrite (proj2 (Z.ltb_lt _ _) Hsz). eexists. split; [done|]. lia.
  - exists n. split; [done|]. lia.
Qed.

Lemma insert_draws l : known_size l →
  draws s0 (BytesInsertMutator_mutate l) (mutated_to s0 l (insert_effect (λ v, v ∈ l) l)).
Proof.
  intros Hl. unfold BytesInsertMutator_mutate. draw draws_max_size. intros ? ->. cbv zeta.
  apply draws_if; intros Hsz; [apply skipped_draws|]. apply orb_false_iff in Hsz as [Hne Hsz%small_input].
  apply Nat.eqb_neq in Hne. pose proof max_isize. draw draws_below; [lia|done|]. intros n Hn.
  draw draws_below; [lia|unfold isize_max, u64_max in *; lia|]. intros a Ha.
  destruct (fit_spec l (1 + n) ltac:(lia) Hsz) as (k & -> & Hk & Hm).
  draw draws_below; [lia|by apply isize_u64|]. intros i Hi. destruct (lookup_lt_is_Some_2 l i Hi) as [v Hv].
  eapply draws_step; [by rewrite Hv|]. apply insert_bytes_draws; [lia|done|done|]. by eapply list_elem_of_lookup_2.
Qed.

Lemma rand_insert_draws l : known_size l →
  draws s0 (BytesRandInsertMutator_mutate l) (mutated_to s0 l (insert_effect (λ _, True) l)).
Proof.
  intros Hl. unfold BytesRandInsertMutator_mutate. draw draws_max_size. intros ? ->. cbv zeta.
  apply draws_if; intros Hsz; [apply skipped_draws|]. apply small_input in Hsz.
  pose proof max_isize. draw draws_below; [lia|done|]. intros n Hn.
  draw draws_below; [lia|unfold isize_max, u64_max in *; lia|]. intros a Ha.
  destruct (fit_spec l (1 + n) ltac:(lia) Hsz) as (k & -> & Hk & Hm).
  draw draws_next. intros v _. apply insert_bytes_draws; [lia|done|done|done].
Qed.

Lemma set_range l r v (R : byte → Prop) : start r < stop r ≤ length l → range_len r ≤ 16 → R v →
  draws s0 (input <- lift (buffer_set l (start r) (range_len r) v) ;; ret (Mutated, input))
    (mutated_to s0 l (set_effect R l)).
Proof.
  intros Hr Hn Hv. unfold range_len in *. eapply draws_step; [apply set_ok; lia|]. apply draws_ret.
  apply same_length; [exists (start r), (stop r - start r), v; split_and!; [lia|lia|lia|done|done]|].
  rewrite !length_app, length_take, length_drop, length_replicate. lia.
Qed.

Lemma set_draws l : known_size l →
  draws s0 (BytesSetMutator_mutate l) (mutated_to s0 l (set_effect (λ v, v ∈ l) l)).
Proof.
  intros Hl. unfold BytesSetMutator_mutate. cbv zeta. apply draws_if; intros Hsz; [apply skipped_draws|].
  apply Nat.eqb_neq in Hsz. unfold known_size in *. draw draws_range; [lia|lia|done|lia|]. intros r [Hr Hn].
  draw @draws_choose; [by intros ->|by apply isize_u64|]. intros v Hv. apply set_range; [done|lia|done].
Qed.
Lemma rand_set_draws l : known_size l →
  draws s0 (BytesRandSetMutator_mutate l) (mutated_to s0 l (set_effect (λ _, True) l)).
Proof.
  intros Hl. unfold BytesRandSetMutator_mutate. cbv zeta. apply draws_if; intros Hsz; [apply skipped_draws|].
  apply Nat.eqb_neq in Hsz. unfold known_size in *. draw draws_range; [lia|lia|done|lia|]. intros r [Hr Hn].
  draw draws_next. intros v Hv. apply set_range; [done|lia|done].
Qed.

Lemma copy_draws l : known_size l →
  draws s0 (BytesCopyMutator_mutate l) (mutated_to s0 l (copy_effect l l)).
Proof.
  intros Hl. unfold BytesCopyMutator_mutate. cbv zeta. apply draws_if; intros Hsz; [apply skipped_draws|].
  apply Nat.leb_gt in Hsz. unfold known_size in *. draw draws_below; [lia|by apply isize_u64|]. intros t Ht.
  draw draws_range; [lia|lia|done|lia|]. intros r [Hr Hn]. unfold range_len in *.
  eapply draws_step; [apply self_copy_ok; [intros ->; cbn in Hsz; lia|lia|lia]|]. apply draws_ret. apply same_length.
  - exists (start r), (stop r - start r), t. split_and!; [lia|lia|lia|done].
  - apply overwrite_length; lia.
Qed.

Lemma tmp_resized tmp n : (Z.of_nat n ≤ isize_max)%Z → ∃ t, vec_resize tmp n Byte.x00 = Ok t ∧ length t = n.
Proof.
  intros. eexists. split; [by apply resize_ok|]. rewrite length_app, length_take, length_replicate. lia.
Qed.
(** The buffer is filled completely. *)
Lemma fill_tmp t src a n : 0 < n → length t = n → a + n ≤ length src → buffer_copy t src a 0 n = Ok (piece src a n).
Proof.
  intros Hn Ht Ha. rewrite copy_ok; [|by destruct t; cbn in Ht; [lia|]|by destruct src; cbn in Ha; [lia|]|lia|lia].
  unfold overwrite. cbn [Nat.add]. rewrite take_0, (drop_ge t n) by lia. cbn. by rewrite app_nil_r.
Qed.

Lemma replaced_cons l t n x : 0 < n → length x = n → replaced l t t x ≠ [].
Proof. intros Hn Hx E. apply (f_equal length) in E. unfold replaced in E. rewrite !length_app in E. cbn in E. lia. Qed.

(** Bytes from [src] are inserted. *)
Lemma fill_from l t n y src a : 0 < n → length y = n → t ≤ length l → a + n ≤ length src →
  buffer_copy (replaced l t t y) src a t n = Ok (replaced l t t (piece src a n)).
Proof.
  intros Hn Hy Ht Ha. rewrite copy_ok; [|by eapply replaced_cons|intros ->; cbn in *; lia|done|].
  - pose proof (piece_length src a n Ha) as Hp. f_equal. unfold overwrite. fold (piece src a n).
    rewrite <-Hp at 2. rewrite <-(fill_room l t (piece src a n) y) by (congruence || done). done.
  - rewrite replaced_length by lia. lia.
Qed.

Lemma insert_copy_draws tmp l : known_size l →
  draws s0 (BytesInsertCopyMutator_mutate tmp l) (λ r, mutated_to s0 l (insert_copy_effect l l) r.2).
Proof.
  intros Hl. unfold BytesInsertCopyMutator_mutate. draw draws_max_size. intros ? ->. cbv zeta.
  apply draws_if; intros Hsz; [by apply draws_ret|]. apply orb_false_iff in Hsz as [Hne Hsz%small_input].
  apply Nat.leb_gt in Hne. pose proof max_isize. draw draws_below; [lia|by apply isize_u64|]. intros t Ht.
  destruct (room_spec (length l - t) l ltac:(lia) Hsz) as [Hr1 Hr2].
  draw draws_range; [lia|lia|done|lia|]. intros r [Hr Hn]. assert (0 < range_len r) by (unfold range_len; lia).
  assert (start r + range_len r ≤ length l) by (unfold range_len; lia). set (n := range_len r) in *.
  eapply draws_step; [apply resize_grow; lia|].
  destruct (tmp_resized tmp n) as (tb & Htb & Hlb); [lia|]. eapply draws_step; [exact Htb|].
  eapply draws_step; [apply fill_tmp; [done|done|rewrite length_app; lia]|].
  assert (piece (l ++ replicate n Byte.x00) (start r) n = piece l (start r) n) as ->.
  { unfold piece. rewrite drop_app_le by lia. apply take_app_le. rewrite length_drop. lia. }
  eapply draws_step; [apply self_copy_ok; [|rewrite length_app, length_replicate; lia..]|].
  { intros E. apply (f_equal length) in E. rewrite length_app in E. cbn in E. lia. }
  rewrite make_room by (rewrite ?length_replicate; lia). fold (replaced l t t (piece (l ++ replicate n Byte.x00) t n)).
  eapply draws_step; [apply fill_from; [done| |lia|]|].
  { apply piece_length. rewrite length_app, length_replicate. lia. } { rewrite piece_length; lia. }
  apply draws_ret. cbn [snd]. assert (piece (piece l (start r) n) 0 n = piece l (start r) n) as ->.
  { unfold piece. rewrite drop_0, take_take. f_equal. lia. }
  split; [exists (start r), n, t; split_and!; [done|done|lia|done]|].
  rewrite replaced_length, piece_length by lia. lia.
Qed.

(** *** The swap *)

Lemma piece_app p x r a n : a = length p → n = length x → piece (p ++ x ++ r) a n = x.
Proof. intros -> ->. unfold piece. rewrite drop_app_length. apply take_app_length. Qed.
Lemma overwrite_app p x r src from to n y : to = length p → n = length x → piece src from n = y →
  overwrite (p ++ x ++ r) src from to n = p ++ y ++ r.
Proof.
  intros -> -> <-. unfold overwrite, piece. rewrite take_app_length. do 2 f_equal.
  rewrite app_assoc. apply drop_app_length'. by rewrite length_app.
Qed.
(** One step of the swap, on the input as three parts. *)
Lemma self_copy_app l p x r from to n y : l = p ++ x ++ r → l ≠ [] → to = length p → n = length x → from + n ≤ length l →
  piece l from n = y → buffer_self_copy l from to n = Ok (p ++ y ++ r).
Proof.
  intros -> Hne -> -> Hf Hy. rewrite self_copy_ok; [f_equal; by apply overwrite_app|done|done|].
  rewrite !length_app. lia.
Qed.
Lemma copy_back l p x r tmp n : l = p ++ x ++ r → l ≠ [] → tmp ≠ [] → n = length x → length tmp = n →
  buffer_copy l tmp 0 (length p) n = Ok (p ++ tmp ++ r).
Proof.
  intros -> Hne Ht -> Hn. rewrite copy_ok; [f_equal|done|done|lia|rewrite !length_app; lia].
  apply overwrite_app; [done|done|]. unfold piece. rewrite drop_0. by apply take_ge; lia.
Qed.

Lemma split_wide (W : bytes) i n : i + n ≤ length W →
  W = take i W ++ piece W i n ++ drop (i + n) W.
Proof. intros. unfold piece. rewrite <-drop_drop, take_drop. by rewrite take_drop. Qed.

(** The far range is at least as long as the near one: an exact swap. *)
Lemma swap_up tmp p A m B q near far : A ≠ [] → B ≠ [] → length A ≤ length B →
  let l := p ++ A ++ m ++ B ++ q in known_size l →
  near = mkRange (length p) (length p + length A) →
  far = mkRange (length p + length A + length m) (length p + length A + length m + length B) →
  draws s0 (swap_from_far tmp l near far) (λ r, r = (B, (Mutated, p ++ B ++ m ++ A ++ q))).
Proof.
  intros HA HB Hle l Hl -> ->. unfold swap_from_far, range_len. cbn [start stop].
  replace (length p + length A + length m + length B - (length p + length A + length m)) with (length B) by lia.
  replace (length p + length A - length p) with (length A) by lia.
  replace (length p + length A + length m - (length p + length A)) with (length m) by lia.
  rewrite (proj2 (Nat.leb_le _ _) Hle). set (d := length B - length A).
  assert (length l = length p + length A + length m + length B + length q) as Hll by (unfold l; rewrite !length_app; lia).
  assert (0 < length A) as HA0 by (by destruct A; cbn; [|lia]).
  assert (l ≠ []) as Hne by (intros E; apply (f_equal length) in E; rewrite Hll in E; cbn in E; lia).
  assert (0 < length B) as HB0 by (by destruct B; cbn; [|lia]).
  destruct (tmp_resized tmp (length B)) as (t & Ht & Hlt); [unfold known_size in Hl; lia|].
  eapply draws_step; [exact Ht|]. cbv zeta.
  eapply draws_step; [apply fill_tmp; [done|done|lia]|].
  replace (piece l _ _) with B; [|symmetry; unfold l; rewrite (app_assoc A), (app_assoc p); apply piece_app;
    rewrite ?length_app; lia].
  set (W := A ++ m ++ B). assert (length W = length A + length m + length B) as HW by (unfold W; rewrite !length_app; lia).
  pose proof (split_wide W (length B) (length m) ltac:(lia)) as EW.
  set (D := drop (length B + length m) W) in *. assert (length D = length A) as HD by (unfold D; rewrite length_drop; lia).
  eapply draws_step.
  { apply (self_copy_app l (p ++ take (length B) W) (piece W (length B) (length m)) (D ++ q) _ _ _ m).
    - unfold l. replace (A ++ m ++ B ++ q) with (W ++ q) by (unfold W; by rewrite <-!app_assoc).
      rewrite EW at 1. by rewrite <-!app_assoc.
    - done.
    - rewrite length_app, length_take. unfold d. lia.
    - rewrite piece_length; lia.
    - lia.
    - unfold l. rewrite (app_assoc p). apply piece_app; rewrite ?length_app; lia. }
  assert (take (length B) W = A ++ take d (m ++ B)) as EA.
  { unfold W. rewrite take_app_ge by lia. done. }
  eapply draws_step.
  { apply (self_copy_app _ (p ++ take (length B) W ++ m) D q _ _ _ A).
    - by rewrite <-!app_assoc.
    - intros E. apply (f_equal length) in E. rewrite !length_app, length_take in E. cbn in E. lia.
    - rewrite !length_app, length_take. unfold d. lia.
    - done.
    - rewrite !length_app, length_take. lia.
    - rewrite EA, <-!app_assoc. by apply piece_app. }
  eapply draws_step.
  { apply (copy_back _ p (take (length B) W) (m ++ A ++ q) B).
    - by rewrite <-!app_assoc.
    - intros E. apply (f_equal length) in E. rewrite !length_app, length_take in E. cbn in E. lia.
    - done.
    - rewrite length_take. lia.
    - done. }
  by apply draws_ret.
Qed.

(** The near range is the longer one: the middle is moved over its end before it is copied. *)
Lemma swap_down tmp p A m B q near far : B ≠ [] → length B < length A →
  let l := p ++ A ++ m ++ B ++ q in known_size l →
  near = mkRange (length p) (length p + length A) →
  far = mkRange (length p + length A + length m) (length p + length A + length m + length B) →
  draws s0 (swap_from_far tmp l near far)
    (λ r, r = (B, (Mutated, p ++ B ++ m ++ smeared A m (length B) ++ q))).
Proof.
  intros HB Hlt l Hl -> ->. unfold swap_from_far, range_len. cbn [start stop].
  replace (length p + length A + length m + length B - (length p + length A + length m)) with (length B) by lia.
  replace (length p + length A - length p) with (length A) by lia.
  replace (length p + length A + length m - (length p + length A)) with (length m) by lia.
  unfold smeared. rewrite (proj2 (Nat.leb_gt _ _) Hlt). set (d := length A - length B).
  assert (length l = length p + length A + length m + length B + length q) as Hll by (unfold l; rewrite !length_app; lia).
  assert (l ≠ []) as Hne by (intros E; apply (f_equal length) in E; rewrite Hll in E; cbn in E; lia).
  assert (0 < length B) as HB0 by (by destruct B; cbn; [|lia]).
  destruct (tmp_resized tmp (length B)) as (t & Ht & Hlt'); [unfold known_size in Hl; lia|].
  eapply draws_step; [exact Ht|]. cbv zeta.
  eapply draws_step; [apply fill_tmp; [done|done|lia]|].
  replace (piece l _ _) with B; [|symmetry; unfold l; rewrite (app_assoc A), (app_assoc p); apply piece_app;
    rewrite ?length_app; lia].
  set (W := A ++ m). assert (length W = length A + length m) as HW by (unfold W; rewrite !length_app; lia).
  pose proof (split_wide W (length B) (length m) ltac:(lia)) as EW.
  assert (take (length B) W = take (length B) A) as EA by (unfold W; apply take_app_le; lia).
  set (D := drop (length B + length m) W) in *. assert (length D = d) as HD by (unfold D; rewrite length_drop; lia).
  set (X := take (length B) A ++ m ++ D). assert (length X = length A + length m) as HX.
  { unfold X. rewrite !length_app, length_take. lia. }
  eapply draws_step.
  { apply (self_copy_app l (p ++ take (length B) A) (piece W (length B) (length m)) (D ++ B ++ q) _ _ _ m).
    - unfold l. replace (A ++ m ++ B ++ q) with (W ++ B ++ q) by (unfold W; by rewrite <-!app_assoc).
      rewrite EW at 1. rewrite EA. by rewrite <-!app_assoc.
    - done.
    - rewrite length_app, length_take. unfold d. lia.
    - rewrite piece_length; lia.
    - lia.
    - unfold l. rewrite (app_assoc p). apply piece_app; rewrite ?length_app; lia. }
  eapply draws_step.
  { apply (self_copy_app _ (p ++ take (length B) A ++ m) (D ++ B) q _ _ _ (take (length A) X)).
    - by rewrite <-!app_assoc.
    - intros E. apply (f_equal length) in E. rewrite !length_app in E. cbn in E. lia.
    - rewrite !length_app, length_take. unfold d. lia.
    - rewrite length_app. lia.
    - rewrite !length_app, length_take. lia.
    - replace ((p ++ take (length B) A) ++ m ++ D ++ B ++ q) with (p ++ X ++ B ++ q)
        by (unfold X; by rewrite <-!app_assoc).
      unfold piece. rewrite drop_app_length. apply take_app_le. lia. }
  eapply draws_step.
  { apply (copy_back _ p (take (length B) A) (m ++ take (length A) X ++ q) B).
    - by rewrite <-!app_assoc.
    - intros E. apply (f_equal length) in E. rewrite !length_app, length_take in E. cbn in E. lia.
    - done.
    - rewrite length_take. lia.
    - done. }
  by apply draws_ret.
Qed.

Lemma smeared_length A m n : length (smeared A m n) = length A.
Proof.
  unfold smeared. destruct (Nat.leb_spec (length A) n); [done|].
  rewrite length_take, !length_app, length_take, length_drop, length_app. lia.
Qed.

Lemma swap_ranges_draws tmp l near far : known_size l → start near < stop near → stop near ≤ start far →
  start far < stop far ≤ length l →
  draws s0 (swap_from_far tmp l near far) (λ r, mutated_to s0 l (swap_effect l) r.2).
Proof.
  intros Hl Hn Hm Hf. destruct near as [a b], far as [c d]. cbn [start stop] in *.
  set (p := take a l). set (A := piece l a (b - a)). set (m := piece l b (c - b)). set (B := piece l c (d - c)).
  set (q := drop d l).
  assert (length p = a) as Ep by (unfold p; rewrite length_take; lia).
  assert (length A = b - a) as EA by (apply piece_length; lia).
  assert (length m = c - b) as Em by (apply piece_length; lia).
  assert (length B = d - c) as EB by (apply piece_length; lia).
  assert (l = p ++ A ++ m ++ B ++ q) as El.
  { unfold p, A, m, B, q, piece.
    replace (drop d l) with (drop (d - c) (drop c l)) by (rewrite drop_drop; f_equal; lia). rewrite take_drop.
    replace (drop c l) with (drop (c - b) (drop b l)) by (rewrite drop_drop; f_equal; lia). rewrite take_drop.
    replace (drop b l) with (drop (b - a) (drop a l)) by (rewrite drop_drop; f_equal; lia). by rewrite !take_drop. }
  assert (A ≠ []) as HA by (intros E; rewrite E in EA; cbn in EA; lia).
  assert (B ≠ []) as HB by (intros E; rewrite E in EB; cbn in EB; lia).
  eapply (draws_weaken s0 _ (λ r, r = (B, (Mutated, p ++ B ++ m ++ smeared A m (length B) ++ q)))).
  - rewrite El. rewrite El in Hl. destruct (Nat.le_gt_cases (length A) (length B)) as [Hle|Hgt].
    + unfold smeared. rewrite (proj2 (Nat.leb_le _ _) Hle). apply swap_up; [done|done|done|done|f_equal; lia|f_equal; lia].
    + apply swap_down; [done|done|done|f_equal; lia|f_equal; lia].
  - intros r ->. cbn [snd]. apply same_length; [by exists p, A, m, B, q|].
    rewrite El, !length_app, smeared_length. lia.
Qed.

Lemma swap_draws tmp l : known_size l →
  draws s0 (BytesSwapMutator_mutate tmp l) (λ r, mutated_to s0 l (swap_effect l) r.2).
Proof.
  intros Hl. unfold BytesSwapMutator_mutate. cbv zeta. apply draws_if; intros Hsz; [by apply draws_ret|].
  apply Nat.leb_gt in Hsz. unfold known_size in *. draw draws_range; [lia|lia|done|done|]. intros r [Hr _].
  draw draws_next. intros n _. apply draws_if; intros Hb.
  - apply andb_true_iff in Hb as [_ Hb]. apply negb_true_iff, Nat.eqb_neq in Hb.
    draw draws_range; [lia|lia|lia|lia|]. intros r2 [Hr2 _]. apply swap_ranges_draws; [done|lia|lia|lia].
  - apply draws_if; intros He; [|by apply draws_ret]. apply negb_true_iff, Nat.eqb_neq in He.
    draw draws_range; [lia|lia|lia|lia|]. intros r2 [Hr2 _]. apply swap_ranges_draws; cbn [start stop]; [done|lia|lia|lia].
Qed.

(** *** Crossovers *)

Lemma nth_from_all_ok n : n < InMemory.count_all (corpus s0) →
  ∃ id tc, InMemory.nth_from_all n (corpus s0) = Ok id ∧ InMemory.get_from_all id (corpus s0) = Ok tc.
Proof.
  intros Hn. destruct (mok_corpus s0 Hok) as [We Wd]. unfold InMemory.nth_from_all, InMemory.get_from_all.
  unfold InMemory.count_all, InMemory.count, InMemory.count_disabled in *. rewrite (wf_size _ _ We), (wf_size _ _ Wd) in *.
  destruct (Nat.leb_spec (length (InMemory.keys (InMemory.enabled (InMemory.storage (corpus s0))))) n) as [Hge|Hlt].
  - destruct (lookup_lt_is_Some_2 (InMemory.keys (InMemory.disabled (InMemory.storage (corpus s0))))
      (n - length (InMemory.keys (InMemory.enabled (InMemory.storage (corpus s0)))))) as [id Hid]; [lia|].
    rewrite Hid. assert (is_Some (InMemory.map (InMemory.disabled (InMemory.storage (corpus s0))) !! id)) as [it Hit].
    { apply (wf_lookup _ _ _ Wd). by eapply list_elem_of_lookup_2. }
    exists id. unfold InMemory.map_get. rewrite Hit.
    destruct (InMemory.map (InMemory.enabled _) !! id) as [it'|]; by eexists.
  - destruct (lookup_lt_is_Some_2 _ _ Hlt) as [id Hid]. rewrite Hid.
    assert (is_Some (InMemory.map (InMemory.enabled (InMemory.storage (corpus s0))) !! id)) as [it Hit].
    { apply (wf_lookup _ _ _ We). by eapply list_elem_of_lookup_2. }
    exists id. unfold InMemory.map_get. rewrite Hit. by eexists.
Qed.

Lemma other_draws : draws s0 other_entry (λ o, ∀ other, o = Some other → is_other s0 other ∧ known_size other).
Proof.
  unfold other_entry, random_corpus_id_with_disabled. pose proof (mok_some s0 Hok). pose proof (mok_count s0 Hok).
  eapply (draws_bind _ _ _ (λ id, ∃ tc, InMemory.get_from_all id (corpus s0) = Ok tc)).
  { draw draws_corpus. intros ? ->. cbv zeta. destruct (Nat.eqb_spec (InMemory.count_all (corpus s0)) 0); [done|].
    draw draws_below; [lia|done|]. intros k Hk. destruct (nth_from_all_ok k Hk) as (id & tc & E & Hg).
    eapply draws_lift; [done|by exists tc]. }
  intros id [tc Hg]. draw draws_corpus. intros ? ->. destruct (bool_decide_reflect (InMemory.current (corpus s0) = Some id)) as [|Hc].
  { by apply draws_ret. }
  destruct (mok_inputs s0 Hok id tc Hg) as (i & Hi & Hlen).
  eapply draws_step; [done|]. eapply draws_step; [unfold load_input; by rewrite Hi|]. apply draws_ret.
  intros other [= <-]. split; [by exists id, tc|done].
Qed.

Lemma crossover_insert_draws l t r other (E : bytes → Prop) : t ≤ length l → start r < stop r ≤ length other →
  (Z.of_nat (length l + range_len r) ≤ max_size s0)%Z →
  (∀ l', insert_copy_effect other l l' → E l') →
  draws s0 (crossover_insert l (length l) t r other) (mutated_to s0 l E).
Proof.
  intros Ht Hr Hm HE. assert (0 < range_len r) by (unfold range_len; lia).
  assert (start r + range_len r ≤ length other) by (unfold range_len; lia).
  unfold crossover_insert. apply grow_at; [done|done|done|].
  eapply draws_step; [apply fill_from; [done| |lia|done]|].
  { apply piece_length. rewrite length_app, length_replicate. lia. }
  apply draws_ret. split; [apply HE; exists (start r), (range_len r), t; split_and!; done || lia|].
  rewrite replaced_length, piece_length by lia. lia.
Qed.
Lemma crossover_replace_draws l t r other (E : bytes → Prop) : l ≠ [] → start r < stop r ≤ length other →
  t + range_len r ≤ length l → (∀ l', copy_effect other l l' → E l') →
  draws s0 (crossover_replace l t r other) (mutated_to s0 l E).
Proof.
  intros Hne Hr Ht HE. unfold range_len in *. unfold crossover_replace.
  eapply draws_step; [apply copy_ok; [done|by destruct other; cbn in Hr; [lia|]|unfold range_len; lia|done]|].
  apply draws_ret. apply same_length.
  - apply HE. exists (start r), (stop r - start r), t. split_and!; [lia|lia|done|done].
  - unfold range_len. apply overwrite_length; lia.
Qed.

Lemma cross_insert_draws l : known_size l →
  draws s0 (CrossoverInsertMutator_mutate l)
    (mutated_to s0 l (λ l', ∃ other, is_other s0 other ∧ insert_copy_effect other l l')).
Proof.
  intros Hl. unfold CrossoverInsertMutator_mutate. cbv zeta. apply draws_if; intros Hne; [apply skipped_draws|].
  apply Nat.eqb_neq in Hne. draw draws_max_size. intros ? ->. apply draws_if; intros Hsz; [apply skipped_draws|].
  apply small_input in Hsz. draw other_draws. intros [other|] Ho; [|apply skipped_draws].
  destruct (Ho other eq_refl) as [Hother Hk]. apply draws_if; intros H2; [apply skipped_draws|]. apply Nat.ltb_ge in H2.
  destruct (room_spec (length other) l ltac:(lia) Hsz) as [Hr1 Hr2]. pose proof max_isize.
  draw draws_range; [lia|lia|done|unfold known_size in *; lia|]. intros r [Hr Hn].
  draw draws_below; [lia|by apply isize_u64|]. intros t Ht.
  apply crossover_insert_draws; [lia|done|lia|]. intros l' He. by exists other.
Qed.
Lemma cross_replace_draws l : known_size l →
  draws s0 (CrossoverReplaceMutator_mutate l)
    (mutated_to s0 l (λ l', ∃ other, is_other s0 other ∧ copy_effect other l l')).
Proof.
  intros Hl. unfold CrossoverReplaceMutator_mutate. cbv zeta. apply draws_if; intros Hne; [apply skipped_draws|].
  apply Nat.eqb_neq in Hne. draw other_draws. intros [other|] Ho; [|apply skipped_draws].
  destruct (Ho other eq_refl) as [Hother Hk]. apply draws_if; intros H2; [apply skipped_draws|]. apply Nat.ltb_ge in H2.
  draw draws_below; [lia|by apply isize_u64|]. intros t Ht. unfold known_size in *.
  draw draws_range; [lia|lia|done|lia|]. intros r [Hr Hn].
  apply crossover_replace_draws; [by intros ->|done|lia|]. intros l' He. by exists other.
Qed.

(** Splicing takes the head of the input and the tail of the other one. *)
Lemma locate_spec i f e this other : (-1 ≤ f ≤ e)%Z → (e < i)%Z → (0 ≤ i)%Z →
  let r := locate_diffs_from i f e this other in
  (-1 ≤ r.1 ≤ r.2)%Z ∧ (r.2 < i + Z.of_nat (Nat.min (length this) (length other)))%Z.
Proof.
  revert i f e other. induction this as [|a this IH]; intros i f e other Hfe Hi H0; [cbn; lia|].
  destruct other as [|b other]; [cbn; lia|]. cbn [locate_diffs_from length]. destruct (decide (a = b)).
  - specialize (IH (i + 1)%Z f e other). cbv zeta in *. lia.
  - specialize (IH (i + 1)%Z (if (f <? 0)%Z then i else f) i other). cbv zeta in *.
    destruct (Z.ltb_spec f 0); lia.
Qed.

Lemma splice_draws l : known_size l →
  draws s0 (SpliceMutator_mutate l) (λ r, match r with
    | (Mutated, l') => ∃ other k, is_other s0 other ∧ k ≤ length l ∧ k < length other ∧ l' = take k l ++ drop k other
    | (Skipped, l') => l' = l
    end).
Proof.
  intros Hl. unfold SpliceMutator_mutate. draw other_draws. intros [other|] Ho; [|by apply draws_ret].
  destruct (Ho other eq_refl) as [Hother Hk].
  pose proof (locate_spec 0 (-1) (-1) l other ltac:(lia) ltac:(lia) ltac:(lia)) as Hloc. unfold locate_diffs.
  destruct (locate_diffs_from 0 (-1) (-1) l other) as [f e]. cbn [fst snd] in Hloc. cbv zeta in Hloc.
  apply draws_if; intros Hb; [|by apply draws_ret]. apply andb_true_iff in Hb as [Hb H2].
  apply andb_true_iff in Hb as [_ H0]. apply Z.leb_le in H0, H2. unfold known_size, isize_max, u64_max in *.
  draw draws_between; [lia|unfold u64_max; lia|]. intros k Hk'.
  destruct (Nat.ltb_spec (length l) k); [lia|]. destruct (Nat.ltb_spec (length other) k); [lia|]. cbn [orb].
  eapply draws_bind; [by apply (draws_ret s0 _ (λ _, True))|]. intros [] _. apply draws_ret.
  exists other, k. split_and!; [done|lia|lia|done].
Qed.
End Effects.
