(* ===== verification/Tokens.v ===== *)
(** * Tokens: [libafl/src/mutators/token_mutations.rs]

    The dictionary of tokens, its parser ([str_decode] of [mutations.rs] included), the mutators that
    insert tokens or write them over the input, and the one that replaces an operand of a logged
    comparison by the other ([I2SRandReplace]). *)

From Stdlib Require Import ZArith Lia.
From S2P Require Import Prelude Float64 FloatFacts Rands Corpus Metadata State Str Mutations.

(** ** The dictionary *)

(** A token that is known is not added again. *)
Definition add_token (token : bytes) (t : Tokens) : bool * Tokens :=
  if decide (token ∈ tokens_set t) then (false, t)
  else (true, mkTokens (tokens_vec t ++ [token]) ({[token]} ∪ tokens_set t)).
Definition add_tokens (tokens : list bytes) (t : Tokens) : Tokens :=
  foldl (λ t token, (add_token token t).2) t tokens.

(** [parse_autodict]: tokens with their length in front; [size] is the length of [slice].  Every round
    takes at least one byte: [size + 1] rounds are enough. *)
Fixpoint autodict_loop (fuel : nat) (slice : bytes) (size head : nat) (t : Tokens) : outcome Error Tokens :=
  match fuel with
  | O => Panic
  | S fuel =>
    if size <=? head then (if head =? size then Ok t else Panic)
    else
      let? b := unwrap (slice !! head) in
      let len := Z.to_nat (u8_of b) in
      let head := head + 1 in
      if 0 <? len then
        if length slice <? head + len then Panic
        else autodict_loop fuel slice size (head + len) (add_token (piece slice head len) t).2
      else autodict_loop fuel slice size head t
  end.
Definition parse_autodict (slice : bytes) (size : nat) (t : Tokens) : outcome Error Tokens :=
  autodict_loop (S size) slice size 0 t.

(** [from_hex] *)
Definition from_hex (hex : byte) : outcome Error byte :=
  let h := u8_of hex in
  if (48 <=? h)%Z && (h <=? 57)%Z then Ok (to_u8 (h - 48))
  else if (65 <=? h)%Z && (h <=? 70)%Z then Ok (to_u8 (h - 55))
  else if (97 <=? h)%Z && (h <=? 102)%Z then Ok (to_u8 (h - 87))
  else Err (illegal_argument "Invalid hex character" []).

(** [str_decode]: a backslash takes the next byte as it is, [\x] and [\X] two hexadecimal digits.  The sum of the digits
    is checked for overflow in the debug build: it cannot overflow. *)
Fixpoint decode_loop (item : bytes) (take_next : bool) (take_next_two : nat) (decoded : byte) (token : bytes) :
    outcome Error bytes :=
  match item with
  | [] => Ok token
  | c :: item =>
    if take_next_two =? 1 then
      let? h := from_hex c in
      decode_loop item take_next 2 (to_u8 (Z.shiftl (u8_of h) 4)) token
    else if take_next_two =? 2 then
      let? h := from_hex c in
      let decoded := to_u8 (u8_of decoded + u8_of h) in
      decode_loop item take_next 0 decoded (token ++ [decoded])
    else if negb (u8_of c =? 92)%Z || take_next then
      if take_next && ((u8_of c =? 120)%Z || (u8_of c =? 88)%Z)
      then decode_loop item false 1 decoded token
      else decode_loop item false take_next_two decoded (token ++ [c])
    else decode_loop item true take_next_two decoded token
  end.
Definition str_decode (item : bytes) : outcome Error bytes := decode_loop item false 0 Byte.x00 [].

(** One line of a dictionary file: [None] for a line without a token. *)
Definition bytes_of (s : string) : bytes := (λ a, to_u8 (Z.of_N (Ascii.N_of_ascii a))) <$> to_chars s.
Fixpoint find_quote (i : nat) (l : list Ascii.ascii) : option nat :=
  match l with
  | [] => None
  | c :: l => if bool_decide (Ascii.N_of_ascii c = 34%N) then Some i else find_quote (S i) l
  end.
Definition parse_token_line (line : string) : outcome Error (option bytes) :=
  let cs := trim (to_chars line) in
  let line := of_chars cs in
  let illegal := Err (illegal_argument "Illegal line: {line}" [AStr line]) in
  if bool_decide (cs = []) || bool_decide (Ascii.N_of_ascii <$> head cs = Some 35%N) then Ok None
  else
    match find_quote 0 cs with
    | None => illegal
    | Some pos_quote =>
      if bool_decide (Ascii.N_of_ascii <$> last cs ≠ Some 34%N) then illegal
      else if length cs - 1 <? pos_quote + 1 then illegal
      else
        let item := take (length cs - 1 - (pos_quote + 1)) (drop (pos_quote + 1) cs) in
        if bool_decide (item = []) then Ok None
        else
          match str_decode (bytes_of (of_chars item)) with
          | Ok token => Ok (Some token)
          | _ => Err (illegal_argument "Illegal line (hex decoding): {line}" [AStr line])
          end
    end.
(** [add_from_file], on the lines of the file. *)
Fixpoint add_lines (lines : list string) (t : Tokens) : outcome Error Tokens :=
  match lines with
  | [] => Ok t
  | line :: lines =>
    let? o := parse_token_line line in
    add_lines lines match o with Some token => (add_token token t).2 | None => t end
  end.

(** ** Inserting and replacing *)

Definition TokenInsert_mutate : Mutation := λ input,
  max_size <- gets max_size ;;
  meta <- gets m_tokens ;;
  match meta with
  | None => skipped input
  | Some meta =>
    if length (tokens_vec meta) =? 0 then skipped input
    else
      token_idx <- rand_below (length (tokens_vec meta)) ;;
      let size := length input in
      off <- rand_below (size + 1) ;;
      token <- lift (unwrap (tokens_vec meta !! token_idx)) ;;
      let len := length token in
      let fits := if (max_size <? Z.of_nat (size + len))%Z then
                    if (Z.of_nat size <? max_size)%Z then Some (Z.to_nat (max_size - Z.of_nat size)) else None
                  else Some len in
      match fits with
      | None => skipped input
      | Some len =>
        input <- lift (vec_resize input (size + len) Byte.x00) ;;
        input <- lift (buffer_self_copy input off (off + len) (size - off)) ;;
        input <- lift (buffer_copy input token 0 off len) ;;
        ret (Mutated, input)
      end
  end.

Definition TokenReplace_mutate : Mutation := λ input,
  let size := length input in
  if size =? 0 then skipped input
  else
    off <- rand_below size ;;
    meta <- gets m_tokens ;;
    match meta with
    | None => skipped input
    | Some meta =>
      if length (tokens_vec meta) =? 0 then skipped input
      else
        token_idx <- rand_below (length (tokens_vec meta)) ;;
        token <- lift (unwrap (tokens_vec meta !! token_idx)) ;;
        let len := length token in
        let len := if size <? off + len then size - off else len in
        input <- lift (buffer_copy input token 0 off len) ;;
        ret (Mutated, input)
    end.

(** ** Input-to-state replacement *)

Definition as_slice (b : CmplogBytes) : bytes := take (cb_len b) (cb_buf b).

(** The bytes from [i] on: the first that is an operand becomes the other one. *)
Fixpoint replace_u8 (v1 v2 : Z) (v1_is_const : bool) (bs : bytes) : option bytes :=
  match bs with
  | [] => None
  | b :: bs =>
    if negb v1_is_const && (u8_of b =? v1)%Z then Some (to_u8 v2 :: bs)
    else if (u8_of b =? v2)%Z then Some (to_u8 v1 :: bs)
    else (b ::.) <$> replace_u8 v1 v2 v1_is_const bs
  end.

(** What becomes of an integer of [size] bytes with value [val]. *)
Definition replaced_int (little : bool) (size : nat) (v1 v2 : Z) (v1_is_const : bool) (val : Z) : option bytes :=
  if negb v1_is_const && (val =? v1)%Z then Some (to_ne_bytes little size v2)
  else if negb v1_is_const && (swap_bytes size val =? v1)%Z then Some (to_ne_bytes little size (swap_bytes size v2))
  else if (val =? v2)%Z then Some (to_ne_bytes little size v1)
  else if (swap_bytes size val =? v2)%Z then Some (to_ne_bytes little size (swap_bytes size v1))
  else None.

(** The windows from [i] on; [count] are left. *)
Fixpoint replace_int (little : bool) (size : nat) (v1 v2 : Z) (v1_is_const : bool) (input : bytes) (i count : nat) :
    option (outcome Error bytes) :=
  match count with
  | O => None
  | S count =>
    match replaced_int little size v1 v2 v1_is_const (from_ne_bytes little (piece input i size)) with
    | Some new_bytes => Some (copy_from_slice input i size new_bytes)
    | None => replace_int little size v1 v2 v1_is_const input (S i) count
    end
  end.

(** The longest common prefix of an operand and the input at [i], from [size] downwards. *)
Fixpoint match_prefix (v : bytes) (input : bytes) (i size : nat) : option nat :=
  match size with
  | O => None
  | S size' => if bool_decide (take size v = piece input i size) then Some size else match_prefix v input i size'
  end.
Fixpoint replace_bytes (v0 v1 : bytes) (input : bytes) (i count : nat) : option (outcome Error bytes) :=
  match count with
  | O => None
  | S count =>
    match match_prefix v0 input i (Nat.min (length v0) (length input - i)) with
    | Some size => Some (buffer_copy input v1 0 i size)
    | None =>
      match match_prefix v1 input i (Nat.min (length v1) (length input - i)) with
      | Some size => Some (buffer_copy input v0 0 i size)
      | None => replace_bytes v0 v1 input (S i) count
      end
    end
  end.

Section I2S.
Context (little : bool).

(** [for i in off..=len - size] *)
Definition replace_ints (size : nat) (v1 v2 : Z) (v1_is_const : bool) (input : bytes) (off : nat) :
    option (outcome Error bytes) :=
  if length input <? size then None
  else replace_int little size v1 v2 v1_is_const input off (length input - size + 1 - off).

Definition replace_cmp (cmp_values : CmpValues) (input : bytes) (off : nat) : option (outcome Error bytes) :=
  match cmp_values with
  | CmpU8 v1 v2 c => (λ r, Ok (take off input ++ r)) <$> replace_u8 v1 v2 c (drop off input)
  | CmpU16 v1 v2 c => replace_ints 2 v1 v2 c input off
  | CmpU32 v1 v2 c => replace_ints 4 v1 v2 c input off
  | CmpU64 v1 v2 c => replace_ints 8 v1 v2 c input off
  | CmpBytes v0 v1 => replace_bytes (as_slice v0) (as_slice v1) input off (length input - off)
  end.

Definition I2SRandReplace_mutate : Mutation := λ input,
  let size := length input in
  if size =? 0 then skipped input
  else
    meta <- gets m_cmps ;;
    match meta with
    | None => skipped input
    | Some cmps =>
      if length cmps =? 0 then skipped input
      else
        idx <- rand_below (length cmps) ;;
        off <- rand_below size ;;
        cmp_values <- lift (unwrap (cmps !! idx)) ;;
        match replace_cmp cmp_values input off with
        | None => skipped input
        | Some r => input <- lift r ;; ret (Mutated, input)
        end
    end.
End I2S.

(** ** The dictionary holds each token once *)

Definition tokens_wf (t : Tokens) : Prop := NoDup (tokens_vec t) ∧ ∀ x, x ∈ tokens_set t ↔ x ∈ tokens_vec t.

Lemma tokens_default_wf : tokens_wf Tokens_default.
Proof. split; [constructor|]. intros x. cbn. set_solver. Qed.

Lemma add_token_wf token t : tokens_wf t → tokens_wf (add_token token t).2 ∧
  (add_token token t).1 = bool_decide (token ∉ tokens_vec t) ∧
  tokens_vec (add_token token t).2 = tokens_vec t ++ (if decide (token ∈ tokens_vec t) then [] else [token]).
Proof.
  intros [Hnd Hset]. unfold add_token. destruct (decide (token ∈ tokens_set t)) as [Hin|Hin]; cbn [fst snd tokens_vec].
  - apply Hset in Hin. rewrite decide_True, app_nil_r by done. rewrite bool_decide_false by tauto. by split; [|split].
  - rewrite Hset in Hin. rewrite decide_False by done. rewrite bool_decide_true by done. split; [|done]. split; cbn.
    + apply NoDup_app. split; [done|]. split; [|apply NoDup_singleton]. intros x Hx Hx'. apply list_elem_of_singleton in Hx' as ->. done.
    + intros x. rewrite elem_of_app, elem_of_union, elem_of_singleton, list_elem_of_singleton, Hset. tauto.
Qed.

Lemma add_tokens_wf tokens t : tokens_wf t → tokens_wf (add_tokens tokens t) ∧
  ∀ x, x ∈ tokens_vec (add_tokens tokens t) ↔ x ∈ tokens_vec t ∨ x ∈ tokens.
Proof.
  revert t. induction tokens as [|token tokens IH]; intros t Ht.
  { split; [done|]. intros x. cbn. rewrite elem_of_nil. tauto. }
  destruct (add_token_wf token t Ht) as (Ht' & _ & Ev). destruct (IH _ Ht') as [Hw Hx]. split; [done|].
  intros x. change (add_tokens (token :: tokens) t) with (add_tokens tokens (add_token token t).2).
  rewrite Hx, Ev, elem_of_app, elem_of_cons. destruct (decide (token ∈ tokens_vec t)).
  - rewrite elem_of_nil. naive_solver.
  - rewrite list_elem_of_singleton. naive_solver.
Qed.

(** ** The dictionary of the target *)

(** Tokens as the compiler lays them out: the length in front. *)
Definition encode_autodict (tokens : list bytes) : bytes :=
  mjoin ((λ t, to_u8 (Z.of_nat (length t)) :: t) <$> tokens).

Lemma autodict_step fuel pre token rest t : 0 < length token < 256 →
  autodict_loop (S fuel) (pre ++ to_u8 (Z.of_nat (length token)) :: token ++ rest)
    (length pre + S (length token + length rest)) (length pre) t =
  autodict_loop fuel ((pre ++ to_u8 (Z.of_nat (length token)) :: token) ++ rest)
    (length (pre ++ to_u8 (Z.of_nat (length token)) :: token) + length rest)
    (length (pre ++ to_u8 (Z.of_nat (length token)) :: token)) (add_token token t).2.
Proof.
  intros Hlen. cbn [autodict_loop]. set (b := to_u8 (Z.of_nat (length token))).
  destruct (Nat.leb_spec (length pre + S (length token + length rest)) (length pre)); [lia|].
  rewrite list_lookup_middle by done. cbn [unwrap obind].
  assert (Z.to_nat (u8_of b) = length token) as ->.
  { unfold b. rewrite u8_to_u8, Z.mod_small by lia. lia. }
  destruct (Nat.ltb_spec 0 (length token)); [|lia].
  destruct (Nat.ltb_spec (length (pre ++ b :: token ++ rest)) (length pre + 1 + length token)) as [Hlt|_].
  { rewrite length_app in Hlt. cbn in Hlt. rewrite length_app in Hlt. lia. }
  replace (pre ++ b :: token ++ rest) with ((pre ++ [b]) ++ token ++ rest) by (by rewrite <-app_assoc).
  rewrite piece_app by (rewrite ?length_app; cbn; lia). rewrite !length_app. cbn [length].
  f_equal; [by rewrite <-!app_assoc|lia|lia].
Qed.

(** Fuel that is left over does not matter. *)
Lemma autodict_encode tokens fuel pre t : Forall (λ t, 0 < length t < 256) tokens → length tokens < fuel →
  autodict_loop fuel (pre ++ encode_autodict tokens) (length pre + length (encode_autodict tokens)) (length pre) t =
    Ok (add_tokens tokens t).
Proof.
  revert fuel pre t. induction tokens as [|token tokens IH]; intros fuel pre t Hall Hf.
  - destruct fuel as [|fuel]; [cbn in Hf; lia|]. unfold encode_autodict. cbn [fmap list_fmap mjoin list_join length autodict_loop].
    rewrite Nat.add_0_r, Nat.leb_refl, Nat.eqb_refl. done.
  - destruct fuel as [|fuel]; [cbn in Hf; lia|]. apply Forall_cons in Hall as [Hlen Hall].
    assert (encode_autodict (token :: tokens) = to_u8 (Z.of_nat (length token)) :: token ++ encode_autodict tokens) as -> by done.
    cbn [length]. rewrite length_app. rewrite autodict_step by done. apply IH; [done|]. cbn in Hf. lia.
Qed.

Lemma encode_length tokens : length tokens ≤ length (encode_autodict tokens).
Proof.
  induction tokens as [|token tokens IH]; [done|].
  assert (encode_autodict (token :: tokens) = to_u8 (Z.of_nat (length token)) :: token ++ encode_autodict tokens) as -> by done.
  cbn [length]. rewrite length_app. lia.
Qed.

(** ** Escapes *)

Definition hex_digit (d : Z) : byte := to_u8 (if (d <? 10)%Z then 48 + d else 87 + d).
Definition escape (token : bytes) : bytes :=
  mjoin ((λ b, [to_u8 92; to_u8 120; hex_digit (u8_of b / 16); hex_digit (u8_of b mod 16)]) <$> token).

Lemma from_hex_digit d : (0 ≤ d < 16)%Z → from_hex (hex_digit d) = Ok (to_u8 d).
Proof.
  intros Hd. assert (Forall (λ n, from_hex (hex_digit (Z.of_nat n)) = Ok (to_u8 (Z.of_nat n))) (seq 0 16)) as Hall.
  { repeat constructor. }
  rewrite Forall_forall in Hall. specialize (Hall (Z.to_nat d)). rewrite Z2Nat.id in Hall by lia. apply Hall, elem_of_seq. lia.
Qed.

Lemma decode_hex h1 h2 item decoded acc : decode_loop (to_u8 92 :: to_u8 120 :: h1 :: h2 :: item) false 0 decoded acc =
  (let? a := from_hex h1 in let? b := from_hex h2 in
   let c := to_u8 (u8_of (to_u8 (Z.shiftl (u8_of a) 4)) + u8_of b) in decode_loop item false 0 c (acc ++ [c])).
Proof. done. Qed.

Lemma decode_escape token decoded acc : decode_loop (escape token) false 0 decoded acc = Ok (acc ++ token).
Proof.
  revert decoded acc. induction token as [|b token IH]; intros decoded acc; [cbn; by rewrite app_nil_r|].
  assert (escape (b :: token) = to_u8 92 :: to_u8 120 :: hex_digit (u8_of b / 16) :: hex_digit (u8_of b mod 16) :: escape token)
    as -> by done.
  pose proof (u8_of_range b) as Hb. assert (0 ≤ u8_of b / 16 < 16)%Z as Hd
    by (split; [apply Z.div_pos; lia|apply Z.div_lt_upper_bound; lia]).
  pose proof (Z.mod_pos_bound (u8_of b) 16 ltac:(lia)) as Hm. pose proof (Z.div_mod (u8_of b) 16 ltac:(lia)) as Hdm.
  rewrite decode_hex, !from_hex_digit by done. cbn [obind]. rewrite !u8_to_u8, Z.shiftl_mul_pow2 by lia.
  change (2 ^ 4)%Z with 16%Z. rewrite (Z.mod_small (u8_of b / 16)) by lia.
  rewrite (Z.mod_small (u8_of b mod 16)) by lia. rewrite (Z.mod_small (u8_of b / 16 * 16)) by lia.
  replace (u8_of b / 16 * 16 + u8_of b mod 16)%Z with (u8_of b) by lia. cbv zeta.
  assert (to_u8 (u8_of b) = b) as -> by (apply u8_of_inj; rewrite u8_to_u8; by apply Z.mod_small).
  rewrite IH, <-app_assoc. done.
Qed.

(** ** The effects of the mutators *)

(** Tokens that can be copied: the copies of the debug build refuse an empty one. *)
Definition tokens_ok (s : State) : Prop := ∀ t, m_tokens s = Some t →
  (Z.of_nat (length (tokens_vec t)) ≤ u64_max)%Z ∧ Forall (λ x, x ≠ [] ∧ known_size x) (tokens_vec t).
Definition is_token (s : State) (x : bytes) : Prop := ∃ t, m_tokens s = Some t ∧ x ∈ tokens_vec t.
(** A piece of a token is inserted, or written over the input. *)
Definition token_insert_effect (s : State) (l l' : bytes) : Prop :=
  ∃ token n t, is_token s token ∧ 0 < n ≤ length token ∧ t ≤ length l ∧ l' = replaced l t t (take n token).
Definition token_replace_effect (s : State) (l l' : bytes) : Prop :=
  ∃ token n t, is_token s token ∧ 0 < n ≤ length token ∧ t + n ≤ length l ∧ l' = replaced l t (t + n) (take n token).

Section Effects.
Context (s0 : State) (Hok : mut_ok s0).

Lemma draws_tokens : draws s0 (gets m_tokens) (λ x, x = m_tokens s0).
Proof. apply draws_gets. by intros s [-> _]. Qed.
Lemma draws_cmps : draws s0 (gets m_cmps) (λ x, x = m_cmps s0).
Proof. apply draws_gets. by intros s [-> _]. Qed.

Lemma token_insert_draws l : tokens_ok s0 → known_size l →
  draws s0 (TokenInsert_mutate l) (mutated_to s0 l (token_insert_effect s0 l)).
Proof.
  intros Htok Hl. unfold TokenInsert_mutate. draw draws_max_size. intros ? ->. draw draws_tokens. intros ? ->.
  destruct (m_tokens s0) as [t|] eqn:Et; [|apply skipped_draws]. destruct (Htok t Et) as [Hcnt Hall].
  destruct (Nat.eqb_spec (length (tokens_vec t)) 0) as [|Hn0]; [apply skipped_draws|].
  draw draws_below; [lia|done|]. intros i Hi. cbv zeta.
  draw draws_below; [lia|unfold known_size, isize_max, u64_max in *; lia|]. intros off Hoff.
  destruct (lookup_lt_is_Some_2 _ _ Hi) as [token Htk]. rewrite Forall_lookup in Hall. destruct (Hall _ _ Htk) as [Hne Hk].
  assert (0 < length token) as Hpos by (destruct token; cbn; [done|lia]).
  eapply draws_step; [by rewrite Htk|].
  set (fits := if (max_size s0 <? _)%Z then _ else _).
  assert (fits = None ∨ ∃ n, fits = Some n ∧ 0 < n ≤ length token ∧ (Z.of_nat (length l + n) ≤ max_size s0)%Z) as Hfits.
  { unfold fits. destruct (Z.ltb_spec (max_size s0) (Z.of_nat (length l + length token))).
    - destruct (Z.ltb_spec (Z.of_nat (length l)) (max_size s0)); [|by left]. right. eexists. split; [done|]. lia.
    - right. eexists. split; [done|]. lia. }
  destruct Hfits as [->|(n & -> & Hn & Hm)]; [apply skipped_draws|].
  apply (grow_at s0 Hok); [lia|lia|done|].
  eapply draws_step; [apply fill_from; [lia| |lia|lia]|].
  { apply piece_length. rewrite length_app, length_replicate. lia. }
  apply draws_ret. unfold piece at 1. rewrite drop_0. split.
  - exists token, n, off. split_and!; [|lia|lia|lia|done]. exists t. split; [done|]. by eapply list_elem_of_lookup_2.
  - rewrite replaced_length, length_take by lia. lia.
Qed.

Lemma token_replace_draws l : tokens_ok s0 → known_size l →
  draws s0 (TokenReplace_mutate l) (mutated_to s0 l (token_replace_effect s0 l)).
Proof.
  intros Htok Hl. unfold TokenReplace_mutate. cbv zeta. apply draws_if; intros Hsz; [apply skipped_draws|].
  apply Nat.eqb_neq in Hsz. draw draws_below; [lia|by apply isize_u64|]. intros off Hoff.
  draw draws_tokens. intros ? ->. destruct (m_tokens s0) as [t|] eqn:Et; [|apply skipped_draws].
  destruct (Htok t Et) as [Hcnt Hall]. destruct (Nat.eqb_spec (length (tokens_vec t)) 0) as [|Hn0]; [apply skipped_draws|].
  draw draws_below; [lia|done|]. intros i Hi.
  destruct (lookup_lt_is_Some_2 _ _ Hi) as [token Htk]. rewrite Forall_lookup in Hall. destruct (Hall _ _ Htk) as [Hne Hk].
  assert (0 < length token) as Hpos by (destruct token; cbn; [done|lia]).
  eapply draws_step; [by rewrite Htk|].
  set (len := if length l <? off + length token then length l - off else length token).
  assert (0 < len ≤ length token ∧ off + len ≤ length l) as [Hlen Hfit].
  { unfold len. destruct (Nat.ltb_spec (length l) (off + length token)); lia. }
  eapply draws_step; [apply copy_ok; [by intros ->|done|lia|lia]|]. apply draws_ret. apply same_length.
  - exists token, len, off. split_and!; [|lia|lia|lia|].
    + exists t. split; [done|]. by eapply list_elem_of_lookup_2.
    + unfold overwrite. by rewrite drop_0.
  - apply overwrite_length; lia.
Qed.

(** Operands that were logged: both of the same length. *)
Definition cmp_ok (c : CmpValues) : Prop :=
  match c with
  | CmpBytes v0 v1 => length (as_slice v0) = length (as_slice v1)
  | _ => True
  end.
Definition cmps_ok (s : State) : Prop := ∀ cmps, m_cmps s = Some cmps →
  (Z.of_nat (length cmps) ≤ u64_max)%Z ∧ Forall cmp_ok cmps.

(** The operand at [i] becomes the other one. *)
Definition int_effect (little : bool) (size : nat) (v1 v2 : Z) (c : bool) (l l' : bytes) : Prop :=
  ∃ i x, i + size ≤ length l ∧ replaced_int little size v1 v2 c (from_ne_bytes little (piece l i size)) = Some x ∧
    l' = replaced l i (i + size) x.
Definition i2s_effect (little : bool) (l l' : bytes) (c : CmpValues) : Prop :=
  match c with
  | CmpU8 v1 v2 c => ∃ i b, l !! i = Some b ∧
      (c = false ∧ u8_of b = v1 ∧ l' = <[i := to_u8 v2]> l ∨ u8_of b = v2 ∧ l' = <[i := to_u8 v1]> l)
  | CmpU16 v1 v2 c => int_effect little 2 v1 v2 c l l'
  | CmpU32 v1 v2 c => int_effect little 4 v1 v2 c l l'
  | CmpU64 v1 v2 c => int_effect little 8 v1 v2 c l l'
  | CmpBytes v0 v1 => ∃ i n a b, (a, b) ∈ [(as_slice v0, as_slice v1); (as_slice v1, as_slice v0)] ∧
      0 < n ∧ n ≤ length a ∧ i + n ≤ length l ∧ piece l i n = take n a ∧ l' = replaced l i (i + n) (take n b)
  end.

Lemma replace_u8_spec v1 v2 c bs r : replace_u8 v1 v2 c bs = Some r →
  ∃ i b, bs !! i = Some b ∧
    (c = false ∧ u8_of b = v1 ∧ r = <[i := to_u8 v2]> bs ∨ u8_of b = v2 ∧ r = <[i := to_u8 v1]> bs).
Proof.
  revert r. induction bs as [|b bs IH]; intros r; [done|]. cbn [replace_u8].
  destruct (negb c && (u8_of b =? v1)%Z) eqn:E1.
  { intros [= <-]. apply andb_true_iff in E1 as [?%negb_true_iff ?%Z.eqb_eq]. exists 0, b. auto. }
  destruct (Z.eqb_spec (u8_of b) v2); [intros [= <-]; exists 0, b; auto|].
  intros Hr. apply fmap_Some in Hr as (r' & Hr & ->). destruct (IH r' Hr) as (i & b' & Hb & Hcase).
  exists (S i), b'. split; [done|]. cbn. destruct Hcase as [(-> & ? & ->)|(? & ->)]; auto.
Qed.

Lemma replaced_int_length little size v1 v2 c val x : replaced_int little size v1 v2 c val = Some x → length x = size.
Proof. unfold replaced_int. repeat case_match; intros [= <-]; apply to_ne_bytes_length. Qed.

Lemma replace_int_spec little size v1 v2 c l i n r : i + n + size ≤ length l + 1 → 0 < size →
  replace_int little size v1 v2 c l i n = Some r → ∃ l', r = Ok l' ∧ int_effect little size v1 v2 c l l'.
Proof.
  revert i. induction n as [|n IH]; intros i Hi Hsz; [done|]. cbn [replace_int].
  destruct (replaced_int _ _ _ _ _ _) as [x|] eqn:E; [|apply IH; lia].
  intros [= <-]. pose proof (replaced_int_length _ _ _ _ _ _ _ E) as Hx. rewrite copy_from_ok by (done || lia).
  eexists. split; [done|]. exists i, x. split_and!; [lia|done|done].
Qed.
Lemma replace_ints_spec little size v1 v2 c l off r : off < length l → 0 < size →
  replace_ints little size v1 v2 c l off = Some r → ∃ l', r = Ok l' ∧ int_effect little size v1 v2 c l l'.
Proof.
  intros Hoff Hsz. unfold replace_ints. destruct (Nat.ltb_spec (length l) size); [done|].
  destruct (Nat.le_gt_cases off (length l - size)).
  - apply replace_int_spec; lia.
  - replace (length l - size + 1 - off) with 0 by lia. done.
Qed.

Lemma match_prefix_spec v l i n k : n ≤ length v → match_prefix v l i n = Some k →
  0 < k ≤ n ∧ piece l i k = take k v.
Proof.
  induction n as [|n IH]; intros Hn; [done|]. cbn [match_prefix]. case_bool_decide as E.
  - intros [= <-]. split; [lia|done].
  - intros Hk. destruct (IH ltac:(lia) Hk). split; [lia|done].
Qed.

Lemma replace_bytes_spec v0 v1 l i n r : length v0 = length v1 → i + n ≤ length l →
  replace_bytes v0 v1 l i n = Some r → ∃ l' j k a b, r = Ok l' ∧ (a, b) ∈ [(v0, v1); (v1, v0)] ∧ 0 < k ∧ k ≤ length a ∧
    j + k ≤ length l ∧ piece l j k = take k a ∧ l' = replaced l j (j + k) (take k b).
Proof.
  intros Hlen. revert i. induction n as [|n IH]; intros i Hi; [done|]. cbn [replace_bytes].
  assert (∀ a b k, length a = length b → match_prefix a l i (Nat.min (length a) (length l - i)) = Some k →
    0 < k ∧ k ≤ length a ∧ i + k ≤ length l ∧ piece l i k = take k a ∧
    buffer_copy l b 0 i k = Ok (replaced l i (i + k) (take k b))) as Hcopy.
  { intros a b k Hab Hk. apply match_prefix_spec in Hk as [Hk Hp]; [|lia]. split_and!; [lia|lia|lia|done|].
    rewrite copy_ok; [unfold overwrite; by rewrite drop_0|..|lia|lia].
    - intros ->. cbn in *. lia.
    - intros ->. cbn in *. lia. }
  destruct (match_prefix v0 _ _ _) as [k|] eqn:E0.
  { intros [= <-]. destruct (Hcopy v0 v1 k Hlen E0) as (A1 & A2 & A3 & A4 & ->).
    eexists _, i, k, v0, v1. split; [done|]. split; [by left|]. done. }
  destruct (match_prefix v1 _ _ _) as [k|] eqn:E1; [|apply IH; lia].
  intros [= <-]. destruct (Hcopy v1 v0 k (eq_sym Hlen) E1) as (A1 & A2 & A3 & A4 & ->).
  eexists _, i, k, v1, v0. split; [done|]. split; [by right; left|]. done.
Qed.

Lemma replace_cmp_spec little c l off r : cmp_ok c → off < length l → replace_cmp little c l off = Some r →
  ∃ l', r = Ok l' ∧ i2s_effect little l l' c ∧ length l' = length l.
Proof.
  assert (∀ size v1 v2 c l', int_effect little size v1 v2 c l l' → length l' = length l) as Hint.
  { intros size v1 v2 c' l' (i & x & Hi & Hx & ->). apply replaced_int_length in Hx. rewrite replaced_length by lia. lia. }
  intros Hc Hoff. destruct c as [v1 v2 c|v1 v2 c|v1 v2 c|v1 v2 c|v0 v1]; cbn [replace_cmp i2s_effect].
  - intros Hr. apply fmap_Some in Hr as (r' & Hr & ->). eexists. split; [done|].
    apply replace_u8_spec in Hr as (i & b & Hb & Hcase). rewrite lookup_drop in Hb.
    assert (∀ x, take off l ++ <[i := x]> (drop off l) = <[off + i := x]> l) as Hins.
    { intros x. rewrite <-(take_drop off l) at 3. rewrite insert_app_r_alt by (rewrite length_take; lia).
      do 2 f_equal. rewrite length_take. lia. }
    destruct Hcase as [(? & ? & ->)|(? & ->)]; rewrite Hins, length_insert; (split; [|done]); exists (off + i), b; auto.
  - intros Hr. apply replace_ints_spec in Hr as (l' & -> & He); [|done|lia]. exists l'. split_and!; [done|done|by eapply Hint].
  - intros Hr. apply replace_ints_spec in Hr as (l' & -> & He); [|done|lia]. exists l'. split_and!; [done|done|by eapply Hint].
  - intros Hr. apply replace_ints_spec in Hr as (l' & -> & He); [|done|lia]. exists l'. split_and!; [done|done|by eapply Hint].
  - intros Hr. apply replace_bytes_spec in Hr as (l' & j & k & a & b & -> & Hab & A1 & A2 & A3 & A4 & ->); [|done|lia].
    eexists. split; [done|]. split; [exists j, k, a, b; done|]. rewrite replaced_length, length_take by lia.
    assert (length b = length a); [|lia]. cbn in Hc.
    apply elem_of_cons in Hab as [[= -> ->]|Hab]; [done|]. apply list_elem_of_singleton in Hab as [= -> ->]. done.
Qed.

Lemma i2s_draws little l : cmps_ok s0 → known_size l →
  draws s0 (I2SRandReplace_mutate little l) (mutated_to s0 l (λ l', ∃ cmps c, m_cmps s0 = Some cmps ∧ c ∈ cmps ∧
    i2s_effect little l l' c)).
Proof.
  intros Hcmps Hl. unfold I2SRandReplace_mutate. cbv zeta. apply draws_if; intros Hsz; [apply skipped_draws|].
  apply Nat.eqb_neq in Hsz. draw draws_cmps. intros ? ->. destruct (m_cmps s0) as [cmps|] eqn:Ec; [|apply skipped_draws].
  destruct (Hcmps cmps Ec) as [Hcnt Hall]. destruct (Nat.eqb_spec (length cmps) 0) as [|Hn0]; [apply skipped_draws|].
  draw draws_below; [lia|done|]. intros i Hi. draw draws_below; [lia|by apply isize_u64|]. intros off Hoff.
  destruct (lookup_lt_is_Some_2 _ _ Hi) as [c Hc]. eapply draws_step; [by rewrite Hc|].
  rewrite Forall_lookup in Hall. destruct (replace_cmp little c l off) as [r|] eqn:Er; [|apply skipped_draws].
  destruct (replace_cmp_spec little c l off r (Hall _ _ Hc) Hoff Er) as (l' & -> & He & Hlen).
  eapply draws_step; [done|]. apply draws_ret. apply same_length; [|done].
  exists cmps, c. split_and!; [done|by eapply list_elem_of_lookup_2|done].
Qed.
End Effects.

(** ** The theorems *)

(** The dictionary that the compiler embeds in the target is read back: every token, in order and
    without duplicates, and nothing else; no byte is read outside the section. *)
Theorem autodict_roundtrip tokens t : Forall (λ t, 0 < length t < 256) tokens → tokens_wf t →
  ∃ t', parse_autodict (encode_autodict tokens) (length (encode_autodict tokens)) t = Ok t' ∧ tokens_wf t' ∧
    ∀ x, x ∈ tokens_vec t' ↔ x ∈ tokens_vec t ∨ x ∈ tokens.
Proof.
  intros Hall Ht. exists (add_tokens tokens t). split; [|by apply add_tokens_wf]. unfold parse_autodict.
  apply (autodict_encode tokens _ []); [done|]. pose proof (encode_length tokens). lia.
Qed.

(** Every token can be written in a dictionary file with hexadecimal escapes: decoding gives it
    back.  The escapes are not complete the other way: a lone backslash decodes to the empty token. *)
Theorem str_decode_roundtrip token : str_decode (escape token) = Ok token ∧ str_decode [to_u8 92] = Ok [].
Proof. split; [apply decode_escape|done]. Qed.

Lemma autodict_roundtrip_witness :
  ∃ t', parse_autodict [Byte.x02; Byte.x61; Byte.x62; Byte.x01; Byte.x63] 5 Tokens_default = Ok t' ∧
    [Byte.x63] ∈ tokens_vec t'.
Proof.
  destruct (autodict_roundtrip [[Byte.x61; Byte.x62]; [Byte.x63]] Tokens_default) as (t' & Hp & _ & Hx).
  - repeat constructor.
  - apply tokens_default_wf.
  - exists t'. split; [exact Hp|]. apply Hx. right. right. left.
Defined.
