(* ===== verification/Havoc.v ===== *)
(** * Havoc: [libafl/src/mutators/mod.rs], [scheduled.rs], [havoc_mutations.rs]

    The mutators of BOFuzz as one type, tuples of them, and the scheduler that applies a random stack of
    them to an input.  [mutate_spec] gives the effect of every mutator, [havoc_safe] follows a whole
    stack: nothing panics, no copy leaves its buffer, the input stays within its limit, and what it
    becomes is a sequence of effects. *)

From Stdlib Require Import ZArith Lia.
From S2P Require Import Prelude Float64 FloatFacts Rands Corpus Metadata State Mutations Tokens.
Import InMemoryFacts.

(** ** Tuples of mutators *)

(** The mutators of the two mutational stages; those with a buffer own it. *)
Inductive Mutator :=
| BitFlipMutator | ByteFlipMutator | ByteIncMutator | ByteDecMutator | ByteNegMutator | ByteRandMutator
| ByteAddMutator | WordAddMutator | DwordAddMutator | QwordAddMutator
| ByteInterestingMutator | WordInterestingMutator | DwordInterestingMutator
| BytesDeleteMutator | BytesExpandMutator | BytesInsertMutator | BytesRandInsertMutator
| BytesSetMutator | BytesRandSetMutator | BytesCopyMutator
| BytesInsertCopyMutator (tmp_buf : bytes) | BytesSwapMutator (tmp_buf : bytes)
| CrossoverInsertMutator | CrossoverReplaceMutator
| TokenInsert | TokenReplace | I2SRandReplace.

Section Tuples.
Context (little : bool).

Definition keep_mutator (m : Mutator) (f : Mutation) (input : bytes) :
    M State (Mutator * (MutationResult * bytes)) := r <- f input ;; ret (m, r).
Definition keep_buffer (mk : bytes → Mutator) (f : BufMutation) (tmp_buf input : bytes) :
    M State (Mutator * (MutationResult * bytes)) := r <- f tmp_buf input ;; ret (mk r.1, r.2).

Definition mutate (m : Mutator) (input : bytes) : M State (Mutator * (MutationResult * bytes)) :=
  match m with
  | BitFlipMutator => keep_mutator m BitFlipMutator_mutate input
  | ByteFlipMutator => keep_mutator m ByteFlipMutator_mutate input
  | ByteIncMutator => keep_mutator m ByteIncMutator_mutate input
  | ByteDecMutator => keep_mutator m ByteDecMutator_mutate input
  | ByteNegMutator => keep_mutator m ByteNegMutator_mutate input
  | ByteRandMutator => keep_mutator m ByteRandMutator_mutate input
  | ByteAddMutator => keep_mutator m (add_mutate little 1) input
  | WordAddMutator => keep_mutator m (add_mutate little 2) input
  | DwordAddMutator => keep_mutator m (add_mutate little 4) input
  | QwordAddMutator => keep_mutator m (add_mutate little 8) input
  | ByteInterestingMutator => keep_mutator m (interesting_mutate 1 INTERESTING_8) input
  | WordInterestingMutator => keep_mutator m (interesting_mutate 2 INTERESTING_16) input
  | DwordInterestingMutator => keep_mutator m (interesting_mutate 4 INTERESTING_32) input
  | BytesDeleteMutator => keep_mutator m BytesDeleteMutator_mutate input
  | BytesExpandMutator => keep_mutator m BytesExpandMutator_mutate input
  | BytesInsertMutator => keep_mutator m BytesInsertMutator_mutate input
  | BytesRandInsertMutator => keep_mutator m BytesRandInsertMutator_mutate input
  | BytesSetMutator => keep_mutator m BytesSetMutator_mutate input
  | BytesRandSetMutator => keep_mutator m BytesRandSetMutator_mutate input
  | BytesCopyMutator => keep_mutator m BytesCopyMutator_mutate input
  | BytesInsertCopyMutator tmp_buf =>
      keep_buffer BytesInsertCopyMutator BytesInsertCopyMutator_mutate tmp_buf input
  | BytesSwapMutator tmp_buf => keep_buffer BytesSwapMutator BytesSwapMutator_mutate tmp_buf input
  | CrossoverInsertMutator => keep_mutator m CrossoverInsertMutator_mutate input
  | CrossoverReplaceMutator => keep_mutator m CrossoverReplaceMutator_mutate input
  | TokenInsert => keep_mutator m TokenInsert_mutate input
  | TokenReplace => keep_mutator m TokenReplace_mutate input
  | I2SRandReplace => keep_mutator m (I2SRandReplace_mutate little) input
  end.

(** [MutatorsTuple] for nested pairs: an index behind the last mutator is skipped. *)
Fixpoint get_and_mutate (index : nat) (ms : list Mutator) (input : bytes) {struct ms} :
    M State (list Mutator * (MutationResult * bytes)) :=
  match ms with
  | [] => ret ([], (Skipped, input))
  | m :: ms =>
    match index with
    | O => r <- mutate m input ;; ret (r.1 :: ms, r.2)
    | S index => r <- get_and_mutate index ms input ;; ret (m :: r.1, r.2)
    end
  end.

Fixpoint mutate_all (ms : list Mutator) (input : bytes) : M State (list Mutator * (MutationResult * bytes)) :=
  match ms with
  | [] => ret ([], (Skipped, input))
  | m :: ms =>
    r <- mutate m input ;;
    q <- mutate_all ms r.2.2 ;;
    ret (r.1 :: q.1, (if bool_decide (q.2.1 = Mutated) then Mutated else r.2.1, q.2.2))
  end.

(** ** Stacks of mutations *)

(** [1 << (1 + k)] in a [u64]. *)
Definition stack_size (k : nat) : outcome Error nat := if 64 <=? 1 + k then Panic else Ok (2 ^ (1 + k)).
Definition iterations (max_stack_pow : nat) : M State nat :=
  k <- rand_zero_upto max_stack_pow ;; lift (stack_size k).
Definition schedule (ms : list Mutator) : M State nat :=
  if length ms =? 0 then panic else rand_below (length ms).

Fixpoint stack_loop (num : nat) (r : MutationResult) (ms : list Mutator) (input : bytes) :
    M State (list Mutator * (MutationResult * bytes)) :=
  match num with
  | O => ret (ms, (r, input))
  | S num =>
    idx <- schedule ms ;;
    q <- get_and_mutate idx ms input ;;
    stack_loop num (if bool_decide (q.2.1 = Mutated) then Mutated else r) q.1 q.2.2
  end.

Record StdScheduledMutator := mkScheduled { ssm_mutations : list Mutator; max_stack_pow : nat }.
Definition StdScheduledMutator_new (ms : list Mutator) : StdScheduledMutator := mkScheduled ms 7.
Definition with_max_stack_pow (ms : list Mutator) (pow : nat) : StdScheduledMutator := mkScheduled ms pow.

(** [scheduled_mutate] *)
Definition scheduled_mutate (self : StdScheduledMutator) (input : bytes) :
    M State (StdScheduledMutator * (MutationResult * bytes)) :=
  num <- iterations (max_stack_pow self) ;;
  r <- stack_loop num Skipped (ssm_mutations self) input ;;
  ret (mkScheduled r.1 (max_stack_pow self), r.2).
End Tuples.

Definition havoc_mutations_no_crossover : list Mutator :=
  [BitFlipMutator; ByteFlipMutator; ByteIncMutator; ByteDecMutator; ByteNegMutator; ByteRandMutator;
   ByteAddMutator; WordAddMutator; DwordAddMutator; QwordAddMutator;
   ByteInterestingMutator; WordInterestingMutator; DwordInterestingMutator;
   BytesDeleteMutator; BytesDeleteMutator; BytesDeleteMutator; BytesDeleteMutator;
   BytesExpandMutator; BytesInsertMutator; BytesRandInsertMutator; BytesSetMutator; BytesRandSetMutator;
   BytesCopyMutator; BytesInsertCopyMutator []; BytesSwapMutator []].
Definition havoc_crossover : list Mutator := [CrossoverInsertMutator; CrossoverReplaceMutator].
Definition havoc_mutations : list Mutator := havoc_mutations_no_crossover ++ havoc_crossover.

Definition tokens_mutations : list Mutator := [TokenInsert; TokenReplace].
(** The mutators of the two stages. *)
Definition bofuzz_mutations : list Mutator := havoc_mutations ++ tokens_mutations.
Definition i2s_mutations : list Mutator := [I2SRandReplace].

(** ** What every mutator does *)

Section Effects.
Context (little : bool) (s0 : State).

Definition effect (m : Mutator) (l l' : bytes) : Prop :=
  match m with
  | BitFlipMutator => byte_to (λ b b', ∃ k, (0 ≤ k < 8)%Z ∧ b' = to_u8 (Z.lxor (u8_of b) (Z.shiftl 1 k))) l l'
  | ByteFlipMutator => byte_to (λ b b', b' = to_u8 (Z.lxor (u8_of b) 255)) l l'
  | ByteIncMutator => byte_to (λ b b', b' = to_u8 (u8_of b + 1)) l l'
  | ByteDecMutator => byte_to (λ b b', b' = to_u8 (u8_of b - 1)) l l'
  | ByteNegMutator => byte_to (λ b b', b' = to_u8 (Z.lxor (u8_of b) 255 + 1)) l l'
  | ByteRandMutator => byte_to (λ b b', ∃ d, (1 ≤ d ≤ 254)%Z ∧ b' = to_u8 (Z.lxor (u8_of b) d)) l l'
  | ByteAddMutator => add_effect little 1 l l'
  | WordAddMutator => add_effect little 2 l l'
  | DwordAddMutator => add_effect little 4 l l'
  | QwordAddMutator => add_effect little 8 l l'
  | ByteInterestingMutator => interesting_effect 1 INTERESTING_8 l l'
  | WordInterestingMutator => interesting_effect 2 INTERESTING_16 l l'
  | DwordInterestingMutator => interesting_effect 4 INTERESTING_32 l l'
  | BytesDeleteMutator => delete_effect l l'
  | BytesExpandMutator => expand_effect l l'
  | BytesInsertMutator => insert_effect (λ v, v ∈ l) l l'
  | BytesRandInsertMutator => insert_effect (λ _, True) l l'
  | BytesSetMutator => set_effect (λ v, v ∈ l) l l'
  | BytesRandSetMutator => set_effect (λ _, True) l l'
  | BytesCopyMutator => copy_effect l l l'
  | BytesInsertCopyMutator _ => insert_copy_effect l l l'
  | BytesSwapMutator _ => swap_effect l l'
  | CrossoverInsertMutator => ∃ other, is_other s0 other ∧ insert_copy_effect other l l'
  | CrossoverReplaceMutator => ∃ other, is_other s0 other ∧ copy_effect other l l'
  | TokenInsert => token_insert_effect s0 l l'
  | TokenReplace => token_replace_effect s0 l l'
  | I2SRandReplace => ∃ cmps c, m_cmps s0 = Some cmps ∧ c ∈ cmps ∧ i2s_effect little l l' c
  end.

(** Mutators up to the contents of their buffers. *)
Definition same_mutator (m m' : Mutator) : Prop :=
  match m with
  | BytesInsertCopyMutator _ => ∃ t, m' = BytesInsertCopyMutator t
  | BytesSwapMutator _ => ∃ t, m' = BytesSwapMutator t
  | _ => m' = m
  end.
#[global] Instance same_mutator_preorder : PreOrder same_mutator.
Proof.
  split.
  - intros []; cbn; eauto.
  - intros [] m2 m3; cbn; try (by intros -> ?); intros [t ->]; cbn; done.
Qed.
Lemma same_effect m m' l l' : same_mutator m m' → effect m' l l' ↔ effect m l l'.
Proof. destruct m; cbn; try (by intros ->); by intros [t ->]. Qed.

Context (Hok : mut_ok s0) (Htok : tokens_ok s0) (Hcmps : cmps_ok s0).

Lemma keep_mutator_draws m f l (E : bytes → Prop) : draws s0 (f l) (mutated_to s0 l E) →
  draws s0 (keep_mutator m f l) (λ r, r.1 = m ∧ mutated_to s0 l E r.2).
Proof. intros Hf. unfold keep_mutator. draw Hf. intros r Hr. by apply draws_ret. Qed.
Lemma keep_buffer_draws mk f tmp l (E : bytes → Prop) : draws s0 (f tmp l) (λ r, mutated_to s0 l E r.2) →
  draws s0 (keep_buffer mk f tmp l) (λ r, (∃ t, r.1 = mk t) ∧ mutated_to s0 l E r.2).
Proof. intros Hf. unfold keep_buffer. draw Hf. intros r Hr. apply draws_ret. split; [by eexists|done]. Qed.

(** Each mutator returns, and leaves the bytes of its effect. *)
Lemma mutate_draws m l : known_size l →
  draws s0 (mutate little m l) (λ r, same_mutator m r.1 ∧ mutated_to s0 l (effect m l) r.2).
Proof.
  intros Hl. destruct m; cbn [mutate same_mutator effect].
  all: try (apply keep_mutator_draws; first
    [ by apply pure_byte_draws | by apply bit_flip_draws | by apply byte_rand_draws | apply add_draws; [done|lia]
    | apply interesting_draws; [done|lia|done|cbn; lia] | by apply delete_draws | by apply expand_draws | by apply insert_draws
    | by apply rand_insert_draws | by apply set_draws | by apply rand_set_draws | by apply copy_draws
    | by apply cross_insert_draws | by apply cross_replace_draws | by apply token_insert_draws
    | by apply token_replace_draws | by apply i2s_draws ]).
  all: apply keep_buffer_draws; [by apply insert_copy_draws || by apply swap_draws].
Qed.

(** ** Stacks *)

(** One of the mutators has its effect. *)
Definition step_of (ms : list Mutator) (l l' : bytes) : Prop := ∃ m, m ∈ ms ∧ effect m l l'.
Definition bounded (l l' : bytes) : Prop :=
  (Z.of_nat (length l') ≤ Z.max (Z.of_nat (length l)) (max_size s0))%Z.
Lemma bounded_known l l' : known_size l → bounded l l' → known_size l'.
Proof. pose proof (mok_max _ Hok). unfold known_size, bounded. lia. Qed.

Lemma get_and_mutate_draws i ms l : known_size l →
  draws s0 (get_and_mutate little i ms l) (λ r, Forall2 same_mutator ms r.1 ∧
    match r.2 with
    | (Mutated, l') => step_of ms l l' ∧ bounded l l'
    | (Skipped, l') => l' = l
    end).
Proof.
  intros Hl. revert i. induction ms as [|m ms IH]; intros i; cbn [get_and_mutate].
  { apply draws_ret. by split. }
  destruct i as [|i].
  - draw (mutate_draws m l Hl). intros [m' [[] l']] [Hm Hr]; cbn [fst snd mutated_to] in *; apply draws_ret; cbn [fst snd].
    + split; [by constructor; [|reflexivity]|]. destruct Hr as [He Hb]. split; [|done]. exists m. split; [left|done].
    + split; [by constructor; [|reflexivity]|done].
  - draw IH. intros [ms' [[] l']] [Hm Hr]; cbn [fst snd] in *; apply draws_ret; cbn [fst snd].
    + split; [by constructor; [reflexivity|]|]. destruct Hr as [(m' & Hin & He) Hb]. split; [|done].
      exists m'. split; [by right|done].
    + split; [by constructor; [reflexivity|]|done].
Qed.

Lemma same_step ms ms' l l' : Forall2 same_mutator ms ms' → step_of ms' l l' → step_of ms l l'.
Proof.
  intros Hs (m' & Hin & He). apply list_elem_of_lookup in Hin as [i Hi].
  destruct (Forall2_lookup_r _ _ _ _ _ Hs Hi) as (m & Hm & Hsm).
  exists m. split; [by eapply list_elem_of_lookup_2|]. by apply (same_effect m m').
Qed.

Lemma stack_draws num r ms l0 l : ms ≠ [] → (Z.of_nat (length ms) ≤ u64_max)%Z → known_size l →
  rtc (step_of ms) l0 l → bounded l0 l → (r = Skipped → l = l0) →
  draws s0 (stack_loop little num r ms l) (λ q, Forall2 same_mutator ms q.1 ∧
    rtc (step_of ms) l0 q.2.2 ∧ bounded l0 q.2.2 ∧ (q.2.1 = Skipped → q.2.2 = l0)).
Proof.
  revert r ms l. induction num as [|num IH]; intros r ms l Hne Hcnt Hl Hreach Hb Hr; cbn [stack_loop].
  { apply draws_ret. cbn. by split_and!. }
  assert (0 < length ms) as Hpos by (destruct ms; cbn; [done|lia]).
  eapply (draws_bind _ _ _ (λ _, True)).
  { unfold schedule. destruct (Nat.eqb_spec (length ms) 0); [lia|].
    eapply draws_weaken; [by apply draws_below|done]. }
  intros i _. draw (get_and_mutate_draws i ms l Hl). intros [ms' [o l']] [Hms Ho]. cbn [fst snd] in *.
  assert (rtc (step_of ms) l0 l' ∧ bounded l0 l' ∧ known_size l' ∧ (o = Skipped → l' = l)) as (Hreach' & Hb' & Hl' & Ho').
  { destruct o; [destruct Ho as [Hs Hbd]|subst l'; done]. split; [by eapply rtc_r|].
    split; [unfold bounded in *; lia|]. split; [by eapply bounded_known|done]. }
  assert (∀ x y, step_of ms x y → step_of ms' x y) as Hsub.
  { intros x y (m & Hin & He). apply list_elem_of_lookup in Hin as [j Hj].
    destruct (Forall2_lookup_l _ _ _ _ _ Hms Hj) as (m' & Hm' & Hsm). exists m'. split; [by eapply list_elem_of_lookup_2|].
    by apply (same_effect m m'). }
  eapply draws_weaken; [apply (IH _ ms' l')|].
  - intros ->. apply Forall2_nil_inv_r in Hms. done.
  - by rewrite <-(Forall2_length _ _ _ Hms).
  - done.
  - by eapply rtc_subrel.
  - done.
  - case_bool_decide; [done|]. intros ->. rewrite Ho' by (by destruct o). auto.
  - intros q (A1 & A2 & A3 & A4). split; [by etrans|]. split; [|done].
    eapply rtc_subrel; [|exact A2]. intros x y. by apply same_step.
Qed.
End Effects.

(** ** The theorems *)

Section Theorems.
Context (little : bool).

Lemma iterations_draws s pow : pow ≤ 63 → draws s (iterations pow) (λ n, ∃ k, n = 2 ^ k ∧ 0 < k ≤ Nat.max 1 pow).
Proof.
  intros Hp. unfold iterations. draw draws_zero_upto; [unfold u64_max; lia|]. intros k Hk.
  unfold stack_size. destruct (Nat.leb_spec 64 (1 + k)); [lia|]. eapply draws_lift; [done|]. exists (1 + k). lia.
Qed.

(** A stack of mutations. *)
Lemma scheduled_ok s self l : mut_ok s → tokens_ok s → cmps_ok s → known_size l →
  ssm_mutations self ≠ [] → (Z.of_nat (length (ssm_mutations self)) ≤ u64_max)%Z → max_stack_pow self ≤ 63 →
  ∃ self' r l' s', scheduled_mutate little self l s = (Ok (self', (r, l')), s') ∧ drawn s s' ∧
    max_stack_pow self' = max_stack_pow self ∧
    Forall2 same_mutator (ssm_mutations self) (ssm_mutations self') ∧
    rtc (step_of little s (ssm_mutations self)) l l' ∧ bounded s l l' ∧ (r = Skipped → l' = l).
Proof.
  intros Hok Ht Hc Hl Hne Hcnt Hpow.
  assert (draws s (scheduled_mutate little self l) (λ q, max_stack_pow q.1 = max_stack_pow self ∧
    Forall2 same_mutator (ssm_mutations self) (ssm_mutations q.1) ∧
    rtc (step_of little s (ssm_mutations self)) l q.2.2 ∧ bounded s l q.2.2 ∧ (q.2.1 = Skipped → q.2.2 = l))) as Hd.
  { unfold scheduled_mutate. draw iterations_draws; [done|]. intros n _.
    draw (stack_draws little s Hok Ht Hc n Skipped (ssm_mutations self) l l Hne Hcnt Hl); [done|unfold bounded; lia|done|].
    intros q Hq. by apply draws_ret. }
  destruct (Hd s) as ([self' [r l']] & s' & Hrun & Hs & Hq); [by apply drawn_refl, mok_rand|].
  exists self', r, l', s'. by destruct Hq as (?&?&?&?&?).
Qed.

(** Every mutator of the stages, on every input: it returns (no panic, no copy outside of a buffer), only
    the generator moves, the new bytes are one of the edits the mutator stands for, not longer than the limit
    allows; and a mutator that skips leaves the input as it was. *)
Theorem mutate_spec s m l : mut_ok s → tokens_ok s → cmps_ok s → known_size l →
  ∃ m' r s', mutate little m l s = (Ok (m', r), s') ∧ drawn s s' ∧ same_mutator m m' ∧
    mutated_to s l (effect little s m l) r.
Proof.
  intros Hok Ht Hc Hl. destruct (mutate_draws little s Hok Ht Hc m l Hl s) as ([m' r] & s' & Hrun & Hd & Hm & Hr).
  - by apply drawn_refl, mok_rand.
  - by exists m', r, s'.
Qed.

(** C24. A whole stack of mutations, whatever mutators it draws, as long as the dictionary has no empty token, both operands of every
    logged comparison of bytes have the same length, and the corpus is not empty and has its inputs in memory: it ends without a panic,
    the input it leaves is reached by edits of the mutators, it never outgrows the limit (an input that was longer may
    stay so), and "skipped" means that no byte has changed. *)
Theorem havoc_safe s self l : mut_ok s → tokens_ok s → cmps_ok s → known_size l →
  ssm_mutations self ≠ [] → (Z.of_nat (length (ssm_mutations self)) ≤ u64_max)%Z → max_stack_pow self ≤ 63 →
  ∃ self' r l' s', scheduled_mutate little self l s = (Ok (self', (r, l')), s') ∧ drawn s s' ∧
    max_stack_pow self' = max_stack_pow self ∧
    Forall2 same_mutator (ssm_mutations self) (ssm_mutations self') ∧
    rtc (step_of little s (ssm_mutations self)) l l' ∧ bounded s l l' ∧ (r = Skipped → l' = l).
Proof. apply scheduled_ok. Qed.
End Theorems.

(** The near range survives the swap exactly when the move of the middle has not changed it. *)
Lemma smeared_iff A m n : smeared A m n = A ↔
  length A ≤ n ∨ take (length A - n) m = take (length m) (drop n A).
Proof.
  unfold smeared. destruct (Nat.leb_spec (length A) n) as [|Hlt]; [by split; [left|]|].
  set (d := length A - n). assert (length (drop n A) = d) as Hd by (unfold d; by rewrite length_drop).
  assert (take (length A) (take n A ++ m ++ drop (n + length m) (A ++ m)) =
          take n A ++ take d m ++ drop (length m) (drop n A)) as ->.
  { rewrite take_app_ge by (rewrite length_take; lia). f_equal. rewrite length_take, Nat.min_l by lia. fold d.
    rewrite drop_drop. destruct (Nat.le_gt_cases d (length m)) as [Hle|Hgt].
    - rewrite take_app_le by done. rewrite (drop_ge A) by (unfold d in *; lia). by rewrite app_nil_r.
    - rewrite take_app_ge, (take_ge m d) by lia. f_equal. rewrite drop_app_le by (unfold d in *; lia).
      apply take_app_length'. rewrite length_drop. unfold d in *. lia. }
  rewrite <-(take_drop n A) at 3. split.
  - intros E%app_inv_head. right. rewrite <-(take_drop (length m) (drop n A)) in E at 2.
    by apply app_inv_tail in E.
  - intros [|E]; [lia|]. f_equal. rewrite E. apply take_drop.
Qed.

(** C33. What [BytesSwapMutator] makes of two ranges: the far one comes to the place of the near one, but the
    near one arrives whole only if it is not longer than the far one, or if the bytes of the middle that are moved over its
    end happen to be the ones that were there. *)
Theorem swap_exact_iff s tmp p A m B q : mut_ok s → A ≠ [] → B ≠ [] → known_size (p ++ A ++ m ++ B ++ q) →
  ∃ l' s', swap_from_far tmp (p ++ A ++ m ++ B ++ q)
      (mkRange (length p) (length p + length A))
      (mkRange (length p + length A + length m) (length p + length A + length m + length B)) s =
      (Ok (B, (Mutated, l')), s') ∧
    (l' = p ++ B ++ m ++ A ++ q ↔
      length A ≤ length B ∨ take (length A - length B) m = take (length m) (drop (length B) A)).
Proof.
  intros Hok HA HB Hk.
  assert (draws s (swap_from_far tmp (p ++ A ++ m ++ B ++ q) (mkRange (length p) (length p + length A))
      (mkRange (length p + length A + length m) (length p + length A + length m + length B)))
    (λ r, r = (B, (Mutated, p ++ B ++ m ++ smeared A m (length B) ++ q)))) as Hd.
  { destruct (Nat.le_gt_cases (length A) (length B)) as [Hle|Hgt]; [|by apply swap_down].
    unfold smeared. rewrite (proj2 (Nat.leb_le _ _) Hle). by apply swap_up. }
  destruct (Hd s) as (r & s' & Hrun & _ & ->); [by apply drawn_refl, mok_rand|].
  eexists _, s'. split; [exact Hrun|]. rewrite <-smeared_iff. split.
  - intros E. by do 3 apply app_inv_head in E; apply app_inv_tail in E.
  - by intros ->.
Qed.

(** ** A concrete state *)

(** Two entries, a dictionary and two logged comparisons. *)
Definition demo_inputs : list bytes := [[Byte.x61; Byte.x62; Byte.x63]; [Byte.x31; Byte.x32]].
Definition demo_entries : Corpus :=
  foldl (λ c l, match InMemory.add (Testcase_new l) c with Ok (_, c') => c' | _ => c end) InMemory.new demo_inputs.
Definition demo_mut : State :=
  (empty_state (RomuDuoJr.with_seed 1))
    <| corpus := demo_entries |>
    <| m_tokens := Some (add_tokens [[Byte.x3c; Byte.x3e]] Tokens_default) |>
    <| m_cmps := Some [CmpU8 97 7 false; CmpU16 25185 5 true] |>.

Lemma demo_entries_wf : cwf demo_entries.
Proof.
  destruct (corpus_add_ok InMemory.new (Testcase_new [Byte.x61; Byte.x62; Byte.x63]) cwf_new) as (i1 & c1 & E1 & W1 & _).
  destruct (corpus_add_ok c1 (Testcase_new [Byte.x31; Byte.x32]) W1) as (i2 & c2 & E2 & W2 & _).
  unfold demo_entries, demo_inputs. cbn [foldl]. by rewrite E1, E2.
Qed.
Lemma demo_mut_ok : mut_ok demo_mut.
Proof.
  split; [by apply std_rand_seeded|by vm_compute|exact demo_entries_wf|by vm_compute|by vm_compute|].
  intros id tc Hg. unfold InMemory.get_from_all, InMemory.map_get in Hg.
  assert (∀ it, InMemory.map (InMemory.disabled (InMemory.storage demo_entries)) !! id = Some it → False) as Hdis.
  { intros it Hit%elem_of_map_to_list. vm_compute in Hit. by apply elem_of_nil in Hit. }
  change (corpus demo_mut) with demo_entries in Hg.
  destruct (InMemory.map (InMemory.enabled (InMemory.storage demo_entries)) !! id) as [it|] eqn:E.
  - apply elem_of_map_to_list in E. vm_compute in E. cbn in Hg. injection Hg as <-.
    apply elem_of_cons in E as [[= _ ->]|E]; [|apply list_elem_of_singleton in E as [= _ ->]].
    all: eexists; split; [done|by vm_compute].
  - destruct (InMemory.map (InMemory.disabled (InMemory.storage demo_entries)) !! id) as [it|] eqn:E2; [|done].
    by destruct (Hdis it).
Qed.
Lemma demo_tokens_ok : tokens_ok demo_mut.
Proof.
  intros t [= <-]. split; [by vm_compute|]. replace (tokens_vec _) with [[Byte.x3c; Byte.x3e]] by done.
  constructor; [split; [done|by vm_compute]|constructor].
Qed.
Lemma demo_cmps_ok : cmps_ok demo_mut.
Proof. intros c [= <-]. split; [by vm_compute|]. repeat constructor. Qed.

Lemma demo_state_satisfies : mut_ok demo_mut ∧ tokens_ok demo_mut ∧ cmps_ok demo_mut.
Proof. split_and!; [exact demo_mut_ok|exact demo_tokens_ok|exact demo_cmps_ok]. Qed.

Lemma mutate_spec_witness : ∃ m' r s',
  mutate true (BytesSwapMutator []) [Byte.x61; Byte.x62; Byte.x63] demo_mut = (Ok (m', r), s') ∧ drawn demo_mut s'.
Proof.
  destruct demo_state_satisfies as (Hok & Ht & Hc).
  destruct (mutate_spec true demo_mut (BytesSwapMutator []) [Byte.x61; Byte.x62; Byte.x63] Hok Ht Hc)
    as (m' & r & s' & Hrun & Hd & _); [by vm_compute|].
  exists m', r, s'. split; [exact Hrun|exact Hd].
Defined.

Lemma havoc_safe_witness : ∃ self' r l' s',
  scheduled_mutate true (StdScheduledMutator_new bofuzz_mutations) [Byte.x61; Byte.x62; Byte.x63] demo_mut =
    (Ok (self', (r, l')), s') ∧ bounded demo_mut [Byte.x61; Byte.x62; Byte.x63] l'.
Proof.
  destruct demo_state_satisfies as (Hok & Ht & Hc).
  destruct (havoc_safe true demo_mut (StdScheduledMutator_new bofuzz_mutations) [Byte.x61; Byte.x62; Byte.x63] Hok Ht Hc)
    as (self' & r & l' & s' & Hrun & _ & _ & _ & _ & Hb & _).
  - by vm_compute.
  - discriminate.
  - by vm_compute.
  - cbn. lia.
  - exists self', r, l', s'. split; [exact Hrun|exact Hb].
Defined.

(** "abcxyZ": the swap of "abc" and "Z" loses the "b" and the "c". *)
Lemma swap_exact_iff_witness : ∃ l' s',
  swap_from_far [] [Byte.x61; Byte.x62; Byte.x63; Byte.x78; Byte.x79; Byte.x5a] (mkRange 0 3) (mkRange 5 6) demo_mut =
    (Ok ([Byte.x5a], (Mutated, l')), s') ∧
  l' ≠ [Byte.x5a; Byte.x78; Byte.x79; Byte.x61; Byte.x62; Byte.x63] ∧
  l' = [Byte.x5a; Byte.x78; Byte.x79; Byte.x61; Byte.x78; Byte.x79].
Proof.
  destruct (swap_exact_iff demo_mut [] [] [Byte.x61; Byte.x62; Byte.x63] [Byte.x78; Byte.x79] [Byte.x5a] [] demo_mut_ok)
    as (l' & s' & Hrun & Hiff); [discriminate|discriminate|by vm_compute|].
  exists l', s'. split; [exact Hrun|]. split.
  - intros E. apply Hiff in E as [E|E]; cbn in E; [lia|discriminate].
  - vm_compute in Hrun. congruence.
Defined.
