(* ===== verification/MOpt.v ===== *)
(** * MOpt: [libafl/src/mutators/mopt_mutator.rs]

    The mutator of BOFuzz's power stage.  A particle swarm weighs the operators (the mutators of its
    tuple): in pilot mode every swarm runs for a period and learns which operators find new entries, in core mode
    the best swarm runs, and [pso_update] moves the particles.  [select_algorithm] draws an operator
    from the probabilities of the current swarm.

    A row of a swarm is a list.  The loops over the operators walk the rows they index: a row that is too
    short is the panic of the index.  Counters wrap, as in the release build.

    [mopt_inv] holds of the metadata from [StdMOptMutator_new] on.  Under it the probabilities of each
    swarm are sorted and end near one ([pso_rows_ok]), so that [select_algorithm] finds an operator
    and its consistency checks never fire ([select_ok]). *)

From Stdlib Require Import ZArith Lia SpecFloat.
From S2P Require Import Prelude Float64 FloatFacts FloatBounds Rands Corpus Metadata State Mutations Tokens Havoc.

(** ** Rows *)

Definition f_0_9 : f64 := S754_finite false 8106479329266893 (-53).
Definition f_0_3 : f64 := S754_finite false 5404319552844595 (-54).
Definition f_0_7 : f64 := S754_finite false 6305039478318694 (-53).
Definition f_0_1 : f64 := S754_finite false 7205759403792794 (-56).
Definition f_0_99 : f64 := S754_finite false 8917127262193582 (-53).
Definition f_1_01 : f64 := S754_finite false 4548635623644201 (-52).
Definition f_5000 : f64 := S754_finite false 5497558138880000 (-40).
Definition V_MAX : f64 := f1.
Definition V_MIN : f64 := f_0_05.
Definition PERIOD_PILOT_COEF : f64 := f_5000.

(** Positions at random with their total; velocities and best positions are reset. *)
Fixpoint init_row (n : nat) (x v l g : list f64) (total_x_now : f64) (r : StdRand) :
    outcome Error (list f64 * list f64 * list f64 * list f64 * f64 * StdRand) :=
  match n with
  | O => Ok (x, v, l, g, total_x_now, r)
  | S n =>
    match x, v, l, g with
    | _ :: x, _ :: v, _ :: l, _ :: g =>
      let '(u, r) := next_float r in
      let x0 := fadd (fmul f_0_7 u) f_0_1 in
      let? q := init_row n x v l g (fadd total_x_now x0) r in
      let '(x, v, l, g, total_x_now, r) := q in
      Ok (x0 :: x, f_0_1 :: v, f_half :: l, f_half :: g, total_x_now, r)
    | _, _, _, _ => Panic
    end
  end.

(** [x /= total] *)
Fixpoint div_row (n : nat) (x : list f64) (total : f64) : outcome Error (list f64) :=
  match n, x with
  | O, x => Ok x
  | S n, x0 :: x => let? x := div_row n x total in Ok (fdiv x0 total :: x)
  | S _, [] => Panic
  end.

(** The particles move, within [V_MIN] and [V_MAX]. *)
Fixpoint move_row (n : nat) (w_now : f64) (x v l g : list f64) (x_sum : f64) (r : StdRand) :
    outcome Error (list f64 * list f64 * f64 * StdRand) :=
  match n with
  | O => Ok (x, v, x_sum, r)
  | S n =>
    match x, v, l, g with
    | x0 :: x, v0 :: v, l0 :: l, g0 :: g =>
      let '(u1, r) := next_float r in
      let '(u2, r) := next_float r in
      let v0 := fadd (fadd (fmul w_now v0) (fmul u1 (fsub l0 x0))) (fmul u2 (fsub g0 x0)) in
      let? x0 := clamp (fadd x0 v0) V_MIN V_MAX in
      let? q := move_row n w_now x v l g (fadd x_sum x0) r in
      let '(x, v, x_sum, r) := q in
      Ok (x0 :: x, v0 :: v, x_sum, r)
    | _, _, _, _ => Panic
    end
  end.

(** The positions divided by their sum, and the running totals; [before] is the total so far. *)
Fixpoint probability_row (n : nat) (before : option f64) (x p : list f64) (x_sum : f64) :
    outcome Error (list f64 * list f64) :=
  match n with
  | O => Ok (x, p)
  | S n =>
    match x, p with
    | x0 :: x, _ :: p =>
      let x0 := fdiv x0 x_sum in
      let p0 := match before with None => x0 | Some b => fadd b x0 end in
      let? q := probability_row n (Some p0) x p x_sum in
      Ok (x0 :: q.1, p0 :: q.2)
    | _, _ => Panic
    end
  end.

(** [self.probability_now[swarm][self.operator_num - 1]] *)
Definition last_of (n : nat) (p : list f64) : outcome Error f64 :=
  match n with O => Panic | S k => unwrap (p !! k) end.

(** ** The swarm *)

Definition rows {A} (v : list (list A)) (i : nat) : outcome Error (list A) := unwrap (v !! i).
(** [for i in 0..n { dst[i] = src[i] }] *)
Definition copy_row {A} (n : nat) (src dst : list A) : outcome Error (list A) :=
  if (length src <? n) || (length dst <? n) then Panic else Ok (take n src ++ drop n dst).

Fixpoint for_from {T A} (i n : nat) (f : nat → A → M T A) (a : A) : M T A :=
  match n with
  | O => ret a
  | S n => a <- f i a ;; for_from (S i) n f a
  end.
Abbreviation for_range n f a := (for_from 0 n f a).

Definition inertia (m : MOpt) : f64 :=
  fadd (fdiv (fmul (fsub (w_init m) (w_end m)) (fsub (g_max m) (g_now m))) (g_max m)) (w_end m).

(** The end of a round for one swarm, shared by [pso_initialize] and [pso_update]: the particles move and their
    probabilities are checked. *)
Definition pso_swarm (swarm : nat) : M MOpt () :=
  m <- gets id ;;
  let n := operator_num m in
  x <- lift (rows (x_now m) swarm) ;;
  v <- lift (rows (v_now m) swarm) ;;
  l <- lift (rows (l_best m) swarm) ;;
  p <- lift (rows (probability_now m) swarm) ;;
  q <- lift (move_row n (w_now m) x v l (g_best m) f0 (mo_rand m)) ;;
  let '(x, v, x_sum, r) := q in
  q <- lift (probability_row n None x p x_sum) ;;
  let '(x, p) := q in
  modify (λ m, m <| mo_rand := r |> <| x_now := <[swarm := x]> (x_now m) |>
                 <| v_now := <[swarm := v]> (v_now m) |>
                 <| probability_now := <[swarm := p]> (probability_now m) |>) ;;;
  last <- lift (last_of n p) ;;
  if flt last f_0_99 || flt f_1_01 last
  then throw (illegal_state "MOpt: Error in pso_update" [])
  else ret ().

Definition init_swarm (swarm : nat) : M MOpt () :=
  m <- gets id ;;
  let n := operator_num m in
  x <- lift (rows (x_now m) swarm) ;;
  v <- lift (rows (v_now m) swarm) ;;
  l <- lift (rows (l_best m) swarm) ;;
  q <- lift (init_row n x v l (g_best m) f0 (mo_rand m)) ;;
  let '(x, v, l, g, total_x_now, r) := q in
  x <- lift (div_row n x total_x_now) ;;
  modify (λ m, m <| mo_rand := r |> <| x_now := <[swarm := x]> (x_now m) |>
                 <| v_now := <[swarm := v]> (v_now m) |> <| l_best := <[swarm := l]> (l_best m) |>
                 <| g_best := g |>) ;;;
  pso_swarm swarm.

Definition reset_g (m : MOpt) : MOpt := if fgt (g_now m) (g_max m) then m <| g_now := f0 |> else m.

Definition pso_initialize : M MOpt () :=
  modify reset_g ;;;
  modify (λ m, m <| w_now := inertia m |>) ;;;
  n <- gets swarm_num ;;
  for_range n (λ swarm _, init_swarm swarm) ().

Definition MOpt_new (operator_num swarm_num : nat) (rand_seed : u64) : outcome Error MOpt :=
  let zeros := replicate operator_num f0 in
  let counts := replicate operator_num 0%Z in
  let grid := replicate swarm_num zeros in
  let counters := replicate swarm_num counts in
  let mopt := mkMOpt (RomuDuoJr.with_seed rand_seed) 0 0 f_0_9 f_0_3 f0 f0 f_5000 operator_num swarm_num
    50000 500000 0 0 0 grid grid grid zeros grid grid (replicate swarm_num f0)
    counters counters counters counters counters counts counts counts counts counts counts in
  match pso_initialize mopt with
  | (Ok _, mopt) => Ok mopt
  | (Err e, _) => Err e
  | (Panic, _) => Panic
  end.

(** The finds of an operator in core mode and over all the swarms. *)
Definition finds_of (m : MOpt) (i : nat) : outcome Error Z :=
  let? c := unwrap (core_operator_finds m !! i) in
  foldl (λ acc j, let? a := acc in
                  let? row := unwrap (pilot_operator_finds m !! j) in
                  let? f := unwrap (row !! i) in Ok (wrap64 (a + f)))
    (Ok c) (seq 0 (swarm_num m)).

Fixpoint best_row (n : nat) (g : list f64) (finds : list Z) (sum : Z) : outcome Error (list f64) :=
  match n with
  | O => Ok g
  | S n =>
    match g, finds with
    | g0 :: g, k :: finds =>
      let? g := best_row n g finds sum in
      Ok ((if (0 <? k)%Z then fdiv (of_Z k) (of_Z sum) else g0) :: g)
    | _, _ => Panic
    end
  end.

(** [pso_update], before the particles move. *)
Definition learn_best : M MOpt () :=
  modify (λ m, m <| g_now := fadd (g_now m) f1 |>) ;;;
  modify reset_g ;;;
  modify (λ m, m <| w_now := inertia m |>) ;;;
  m <- gets id ;;
  let n := operator_num m in
  finds <- lift (mapM (finds_of m) (seq 0 n)) ;;
  puppet <- lift (copy_row n finds (operator_finds_puppet m)) ;;
  let operator_finds_sum := foldl (λ a f, wrap64 (a + f)) 0%Z finds in
  g <- lift (best_row n (g_best m) finds operator_finds_sum) ;;
  modify (λ m, m <| operator_finds_puppet := puppet |> <| g_best := g |>).

(** The probabilities are cleared before they are computed: nothing reads the zeros. *)
Definition pso_update : M MOpt () :=
  learn_best ;;;
  n <- gets swarm_num ;;
  for_range n (λ swarm _, pso_swarm swarm) () ;;;
  modify (λ m, m <| swarm_now := 0 |>).

(** ** Choosing an operator *)

(** The first of the operators with a probability above [select_prob]. *)
Fixpoint first_above (n i : nat) (select_prob : f64) (p : list f64) : outcome Error (option nat) :=
  match n with
  | O => Ok None
  | S n =>
    let? x := unwrap (p !! i) in
    if flt select_prob x then Ok (Some i) else first_above n (S i) select_prob p
  end.

Definition select_algorithm : M MOpt nat :=
  m <- gets id ;;
  let n := operator_num m in
  p <- lift (rows (probability_now m) (swarm_now m)) ;;
  last <- lift (last_of n p) ;;
  let '(u, r) := next_float (mo_rand m) in
  modify (λ m, m <| mo_rand := r |>) ;;;
  let select_prob := fmul last u in
  found <- lift (first_above n 0 select_prob p) ;;
  let res := default 0 found in
  let sentry := negb (res =? 0) in
  below <- lift (if sentry then let? b := unwrap (p !! (res - 1)) in Ok (flt select_prob b) else Ok false) ;;
  above <- lift (if negb below && (res + 1 <? n) then let? a := unwrap (p !! (res + 1)) in Ok (flt a select_prob)
                 else Ok false) ;;
  if below || above then throw (illegal_state "MOpt: Error in select_algorithm" []) else ret res.

(** ** The mutator *)

Inductive MOptMode := Pilotfuzzing | Corefuzzing.

Record StdMOptMutator := mkMOptMutator {
  mode : MOptMode;
  finds_before : Z;
  mm_mutations : list Mutator;
  mm_max_stack_pow : nat;
}.
#[global] Instance eta_MOptMutator : Eta StdMOptMutator := λ r,
  mkMOptMutator (mode r) (finds_before r) (mm_mutations r) (mm_max_stack_pow r).

(** A step on the metadata, [get_mut::<MOpt>().unwrap()]. *)
Definition with_mopt {A} (f : M MOpt A) : M State A := λ s,
  match m_mopt s with
  | None => (Panic, s)
  | Some m => let '(r, m') := f m in (r, s <| m_mopt := Some m' |>)
  end.

Definition StdMOptMutator_new (mutations : list Mutator) (max_stack_pow swarm_num : nat) : M State StdMOptMutator :=
  o <- gets m_mopt ;;
  (match o with
   | Some _ => ret ()
   | None =>
     rand_seed <- rand_next ;;
     m <- lift (MOpt_new (length mutations) swarm_num rand_seed) ;;
     modify (λ s, s <| m_mopt := Some m |>)
   end) ;;;
  ret (mkMOptMutator Pilotfuzzing 0 mutations max_stack_pow).

(** [schedule]: the error is unwrapped. *)
Definition mopt_schedule : M State nat := λ s,
  match with_mopt select_algorithm s with
  | (Err _, s) => (Panic, s)
  | q => q
  end.

(** [v[i] += 1] on a counter. *)
Definition inc_at (i : nat) (v : list Z) : outcome Error (list Z) :=
  let? k := unwrap (v !! i) in Ok (<[i := wrap64 (k + 1)]> v).

Definition count_core (idx : nat) : M MOpt () :=
  m <- gets id ;;
  c <- lift (inc_at idx (core_operator_cycles_v2 m)) ;;
  modify (λ m, m <| core_operator_cycles_v2 := c |>).
Definition count_pilot (swarm : nat) (idx : nat) : M MOpt () :=
  m <- gets id ;;
  row <- lift (rows (pilot_operator_cycles_v2 m) swarm) ;;
  c <- lift (inc_at idx row) ;;
  modify (λ m, m <| pilot_operator_cycles_v2 := <[swarm := c]> (pilot_operator_cycles_v2 m) |>).

Section Mutate.
Context (little : bool).

(** The loop of [core_mutate] and [pilot_mutate]; [count] is what they do with the operator. *)
Fixpoint mopt_loop (num : nat) (count : nat → M MOpt ()) (r : MutationResult) (ms : list Mutator) (input : bytes) :
    M State (list Mutator * (MutationResult * bytes)) :=
  match num with
  | O => ret (ms, (r, input))
  | S num =>
    idx <- mopt_schedule ;;
    q <- get_and_mutate little idx ms input ;;
    with_mopt (count idx) ;;;
    mopt_loop num count (if bool_decide (q.2.1 = Mutated) then Mutated else r) q.1 q.2.2
  end.

Definition core_start : M MOpt () :=
  m <- gets id ;;
  c <- lift (copy_row (operator_num m) (core_operator_cycles_v2 m) (core_operator_cycles_v3 m)) ;;
  modify (λ m, m <| core_operator_cycles_v3 := c |>).
Definition pilot_start : M MOpt nat :=
  m <- gets id ;;
  let swarm := swarm_now m in
  src <- lift (rows (pilot_operator_cycles_v2 m) swarm) ;;
  dst <- lift (rows (pilot_operator_cycles_v3 m) swarm) ;;
  c <- lift (copy_row (operator_num m) src dst) ;;
  modify (λ m, m <| pilot_operator_cycles_v3 := <[swarm := c]> (pilot_operator_cycles_v3 m) |>) ;;;
  ret swarm.

Definition core_mutate (self : StdMOptMutator) (input : bytes) : M State (StdMOptMutator * (MutationResult * bytes)) :=
  with_mopt core_start ;;;
  num <- iterations (mm_max_stack_pow self) ;;
  r <- mopt_loop num count_core Skipped (mm_mutations self) input ;;
  ret (self <| mm_mutations := r.1 |>, r.2).
Definition pilot_mutate (self : StdMOptMutator) (input : bytes) : M State (StdMOptMutator * (MutationResult * bytes)) :=
  swarm <- with_mopt pilot_start ;;
  num <- iterations (mm_max_stack_pow self) ;;
  r <- mopt_loop num (count_pilot swarm) Skipped (mm_mutations self) input ;;
  ret (self <| mm_mutations := r.1 |>, r.2).

(** The entries that were found: the sizes of the corpus and of the solutions. *)
Definition found (s : State) : Z := (Z.of_nat (InMemory.count (corpus s)) + Z.of_nat (InMemory.count (solutions s)))%Z.

Definition mopt_mutate (self : StdMOptMutator) (input : bytes) : M State (StdMOptMutator * (MutationResult * bytes)) :=
  before <- gets found ;;
  let self := self <| finds_before := before |> in
  match mode self with
  | Corefuzzing => core_mutate self input
  | Pilotfuzzing => pilot_mutate self input
  end.
End Mutate.

(** ** Learning from an execution *)

(** Operators that ran since the last mutation get the finds. *)
Fixpoint credit_row (n : nat) (cycles cycles_before finds : list Z) (diff : Z) : outcome Error (list Z) :=
  match n with
  | O => Ok finds
  | S n =>
    match cycles, cycles_before, finds with
    | c :: cycles, b :: cycles_before, f :: finds =>
      let? finds := credit_row n cycles cycles_before finds diff in
      Ok ((if (b <? c)%Z then wrap64 (f + diff) else f) :: finds)
    | _, _, _ => Panic
    end
  end.

(** The efficiency of every operator of a swarm; the best one remembers its position. *)
Fixpoint eff_row (n : nat) (finds_v2 finds cycles_v2 cycles : list Z) (eff_best l_best x : list f64) :
    outcome Error (list f64 * list f64) :=
  match n with
  | O => Ok (eff_best, l_best)
  | S n =>
    match finds_v2, finds, cycles_v2, cycles, eff_best, l_best, x with
    | f2 :: finds_v2, f :: finds, c2 :: cycles_v2, c :: cycles, e :: eff_best, l :: l_best, x0 :: x =>
      let eff := if (c <? c2)%Z then fdiv (of_Z (wrap64 (f2 - f))) (of_Z (wrap64 (c2 - c))) else f0 in
      let? q := eff_row n finds_v2 finds cycles_v2 cycles eff_best l_best x in
      let '(e, l) := if flt e eff then (eff, x0) else (e, l) in
      Ok (e :: q.1, l :: q.2)
    | _, _, _, _, _, _, _ => Panic
    end
  end.

(** The swarm with the best fitness above zero, the first of equals. *)
Fixpoint best_swarm (i n : nat) (fitness : list f64) (swarm_eff : f64) (best : nat) : outcome Error nat :=
  match n with
  | O => Ok best
  | S n =>
    let? f := unwrap (fitness !! i) in
    if fgt f swarm_eff then best_swarm (S i) n fitness f i else best_swarm (S i) n fitness swarm_eff best
  end.

Definition core_post (diff : option Z) : M MOpt MOptMode :=
  modify (λ m, m <| core_time := wrap64 (core_time m + 1) |>) ;;;
  m <- gets id ;;
  let n := operator_num m in
  (match diff with
   | None => ret ()
   | Some diff =>
     f <- lift (credit_row n (core_operator_cycles_v2 m) (core_operator_cycles_v3 m) (core_operator_finds_v2 m) diff) ;;
     modify (λ m, m <| total_finds := wrap64 (total_finds m + diff) |> <| core_operator_finds_v2 := f |>)
   end) ;;;
  m <- gets id ;;
  if (period_core m <? core_time m)%Z then
    f <- lift (copy_row n (core_operator_finds_v2 m) (core_operator_finds m)) ;;
    c <- lift (copy_row n (core_operator_cycles_v2 m) (core_operator_cycles m)) ;;
    modify (λ m, m <| core_time := 0%Z |> <| finds_until_last_swarm := total_finds m |>
                   <| core_operator_finds := f |> <| core_operator_cycles := c |>) ;;;
    pso_update ;;;
    ret Pilotfuzzing
  else ret Corefuzzing.

(** The end of a pilot period for swarm [swarm]. *)
Definition pilot_period (swarm : nat) : M MOpt () :=
  m <- gets id ;;
  let n := operator_num m in
  let new_finds := wrap64 (total_finds m - finds_until_last_swarm m) in
  let f := fdiv (of_Z new_finds) (fdiv (of_Z (pilot_time m)) PERIOD_PILOT_COEF) in
  (if length (swarm_fitness m) <=? swarm then panic else ret ()) ;;;
  finds_v2 <- lift (rows (pilot_operator_finds_v2 m) swarm) ;;
  finds <- lift (rows (pilot_operator_finds m) swarm) ;;
  cycles_v2 <- lift (rows (pilot_operator_cycles_v2 m) swarm) ;;
  cycles <- lift (rows (pilot_operator_cycles m) swarm) ;;
  e <- lift (rows (eff_best m) swarm) ;;
  l <- lift (rows (l_best m) swarm) ;;
  x <- lift (rows (x_now m) swarm) ;;
  q <- lift (eff_row n finds_v2 finds cycles_v2 cycles e l x) ;;
  finds <- lift (copy_row n finds_v2 finds) ;;
  cycles <- lift (copy_row n cycles_v2 cycles) ;;
  modify (λ m, m <| swarm_fitness := <[swarm := f]> (swarm_fitness m) |> <| pilot_time := 0%Z |>
                 <| finds_until_last_swarm := total_finds m |>
                 <| eff_best := <[swarm := q.1]> (eff_best m) |> <| l_best := <[swarm := q.2]> (l_best m) |>
                 <| pilot_operator_finds := <[swarm := finds]> (pilot_operator_finds m) |>
                 <| pilot_operator_cycles := <[swarm := cycles]> (pilot_operator_cycles m) |>
                 <| swarm_now := S (swarm_now m) |>).

(** All the swarms have run: the best one goes on in core mode. *)
Definition enter_core : M MOpt () :=
  m <- gets id ;;
  let n := operator_num m in
  c2 <- lift (copy_row n (core_operator_cycles m) (core_operator_cycles_v2 m)) ;;
  c3 <- lift (copy_row n (core_operator_cycles m) (core_operator_cycles_v3 m)) ;;
  f2 <- lift (copy_row n (core_operator_finds m) (core_operator_finds_v2 m)) ;;
  best <- lift (best_swarm 0 (swarm_num m) (swarm_fitness m) f0 0) ;;
  modify (λ m, m <| core_operator_cycles_v2 := c2 |> <| core_operator_cycles_v3 := c3 |>
                 <| core_operator_finds_v2 := f2 |> <| swarm_now := best |>).

Definition pilot_post (diff : option Z) : M MOpt MOptMode :=
  modify (λ m, m <| pilot_time := wrap64 (pilot_time m + 1) |>) ;;;
  m <- gets id ;;
  let n := operator_num m in
  let swarm := swarm_now m in
  (match diff with
   | None => ret ()
   | Some diff =>
     c2 <- lift (rows (pilot_operator_cycles_v2 m) swarm) ;;
     c3 <- lift (rows (pilot_operator_cycles_v3 m) swarm) ;;
     f2 <- lift (rows (pilot_operator_finds_v2 m) swarm) ;;
     f <- lift (credit_row n c2 c3 f2 diff) ;;
     modify (λ m, m <| total_finds := wrap64 (total_finds m + diff) |>
                    <| pilot_operator_finds_v2 := <[swarm := f]> (pilot_operator_finds_v2 m) |>)
   end) ;;;
  m <- gets id ;;
  if (period_pilot m <? pilot_time m)%Z then
    pilot_period swarm ;;;
    m <- gets id ;;
    if swarm_num m =? 1 then pso_update ;;; ret Pilotfuzzing
    else if swarm_now m =? swarm_num m then enter_core ;;; ret Corefuzzing
    else ret Pilotfuzzing
  else ret Pilotfuzzing.

Definition mopt_post_exec (self : StdMOptMutator) : M State StdMOptMutator :=
  after <- gets found ;;
  let before := finds_before self in
  let diff := if (before <? after)%Z then Some (after - before)%Z else None in
  next <- with_mopt (match mode self with Corefuzzing => core_post diff | Pilotfuzzing => pilot_post diff end) ;;
  ret (self <| mode := next |>).

(** ** Shares

    The positions lie in [[V_MIN, V_MAX]].  Divided by their rounded sum they add up to one, but for a
    small error. *)

Section Shares.
Local Open Scope Z_scope.

Definition clamped (x : f64) : Prop := in_unit x ∧ fv V_MIN ≤ fv x.

(** The running totals of a list. *)
Fixpoint totals (before : option f64) (d : list f64) : list f64 :=
  match d with
  | [] => []
  | d0 :: d => let t := match before with None => d0 | Some b => fadd b d0 end in t :: totals (Some t) d
  end.

Context (x : list f64) (Hx : Forall clamped x) (Hlen : (0 < length x <= 1024)%nat).
Let total := foldl fadd f0 x.
Let d := (λ a, fdiv a total) <$> x.
Let n := Z.of_nat (length x).

Lemma clamped_unit : Forall in_unit x.
Proof using Hx. eapply Forall_impl; [exact Hx|]. by intros a [? _]. Qed.

Lemma total_facts : fnn total ∧ is_finite total = true ∧ Z.abs (fv total - zsum x) ≤ n * 2 ^ 1032 ∧
  n * 2 ^ 1069 ≤ fv total.
Proof using Hx Hlen.
  destruct (fold_near x f0 f0_fnn eq_refl clamped_unit) as (H1 & H2 & H3).
  { change (fv f0) with 0. unfold fone. replace (2 ^ 1085) with (2048 * 2 ^ 1074) by (by vm_compute). lia. }
  change (fv f0) with 0 in H3. rewrite Z.add_0_l in H3. fold total in H1, H2, H3. fold n in H3. split_and!; [done|done|done|].
  assert (Forall (λ a, fv V_MIN ≤ fv a ≤ fone) x) as Hb.
  { eapply Forall_impl; [exact Hx|]. intros a [Hu ?]. split; [done|]. by apply unit_facts. }
  apply zsum_bounds in Hb. fold n in Hb.
  assert (2 ^ 1069 + 2 ^ 1032 ≤ fv V_MIN) as Hmin by (vm_compute; discriminate).
  assert (0 ≤ n) by lia. nia.
Qed.

Lemma share_unit a : a ∈ x → in_unit (fdiv a total) ∧
  Z.abs (fv (fdiv a total) * fv total - fv a * fone) ≤ 2 ^ 1023 * fv total.
Proof using Hx Hlen.
  intros Ha. destruct total_facts as (Hnn & Hfin & _ & Hge).
  pose proof (fold_fadd_ge x f0 f0_fnn) as Hfold. destruct Hfold as [_ Hall].
  { eapply Forall_impl; [exact clamped_unit|]. by intros b [? _]. }
  { exact Hfin. }
  rewrite Forall_forall in Hall. destruct (Hall a Ha) as [Fa Hle]. fold total in Hle.
  pose proof clamped_unit as Hu. rewrite Forall_forall in Hu. destruct (Hu a Ha) as (Hna & _ & _).
  assert (0 < fv total) as Hpos by (pose proof (pow2_pos 1069); unfold n in Hge; nia).
  pose proof (fdiv_unit a total Hna Hnn Fa Hfin Hle Hpos) as Hd. split; [exact Hd|].
  pose proof (fnn_fv a Hna) as Ha0.
  pose proof (fdiv_near a total (-52) Hna Hnn Fa Hfin Hpos ltac:(lia)) as Hn.
  replace (53 + -52 + 1074) with 1075 in Hn by done. replace (2 * 2 ^ (-52 + 1074)) with (2 ^ 1023) in Hn by (by vm_compute).
  apply Hn; [|apply Hd]. replace (2 ^ 1075) with (2 * fone) by (by vm_compute).
  assert (0 < fone) by (by vm_compute). nia.
Qed.

Lemma shares_sum : Forall in_unit d ∧ Z.abs (zsum d - fone) ≤ 2 ^ 1038.
Proof using Hx Hlen.
  destruct total_facts as (_ & _ & Hnear & Hge). pose proof share_unit as Hs. split.
  { unfold d. apply Forall_fmap, Forall_forall. intros a Ha. by apply Hs. }
  assert (∀ l, (∀ a, a ∈ l → a ∈ x) → Z.abs (zsum ((λ a, fdiv a total) <$> l) * fv total - zsum l * fone) ≤
    Z.of_nat (length l) * (2 ^ 1023 * fv total)) as Hsum.
  { induction l as [|a l IH]; intros Hin; [cbn; lia|].
    destruct (Hs a) as [_ Ha]; [apply Hin; left|]. specialize (IH (λ b Hb, Hin b (list_elem_of_further _ _ _ Hb))).
    cbn [fmap list_fmap zsum foldr length]. fold (zsum l). unfold zsum in IH. fold (zsum l) in IH.
    set (ds := foldr _ _ _) in *. replace (Z.of_nat (S (length l))) with (Z.of_nat (length l) + 1) by lia. lia. }
  specialize (Hsum x (λ a Ha, Ha)). fold d n in Hsum.
  assert (0 < n ≤ 1024) as Hn by (unfold n; lia).
  assert (fone * 2 ^ 1032 * n ≤ 2 ^ 1037 * fv total) as Hbig.
  { replace (fone * 2 ^ 1032) with (2 ^ 1037 * 2 ^ 1069) by (by vm_compute).
    assert (0 < 2 ^ 1037) by (by apply pow2_pos). nia. }
  assert (0 < fv total) as Hpos by (assert (0 < 2 ^ 1069) by (by apply pow2_pos); nia).
  assert (Z.abs (zsum d - fone) * fv total ≤ 2 ^ 1038 * fv total) as Hfin; [|by apply Z.mul_le_mono_pos_r in Hfin].
  rewrite <-(Z.abs_eq (fv total)) at 1 by lia. rewrite <-Z.abs_mul.
  replace ((zsum d - fone) * fv total) with ((zsum d * fv total - zsum x * fone) + (zsum x - fv total) * fone) by ring.
  assert (Z.abs ((zsum x - fv total) * fone) ≤ fone * 2 ^ 1032 * n) as H2.
  { rewrite Z.abs_mul, (Z.abs_eq fone) by (by vm_compute). assert (0 < fone) by (by vm_compute). nia. }
  replace (2 ^ 1038) with (2 ^ 1037 + 2 ^ 1037) by (by vm_compute).
  assert (n * (2 ^ 1023 * fv total) ≤ 2 ^ 1037 * fv total) as H3.
  { replace (2 ^ 1037) with (2 ^ 14 * 2 ^ 1023) by (by vm_compute). assert (0 < 2 ^ 1023) by (by apply pow2_pos). nia. }
  lia.
Qed.
End Shares.

(** The probabilities of a swarm: they do not decrease, and the last one is nearly one. *)
Definition nondecreasing (p : list f64) : Prop :=
  ∀ i a b, p !! i = Some a → p !! S i = Some b → fle a b = true.
Definition finite_nn (a : f64) : Prop := fnn a ∧ is_finite a = true.
Record good_row (n : nat) (p : list f64) : Prop := {
  gr_length : length p = n;
  gr_finite : Forall finite_nn p;
  gr_sorted : nondecreasing p;
  gr_last : ∃ l, last_of n p = Ok l ∧ flt l f_0_99 = false ∧ flt f_1_01 l = false;
}.

Lemma nondecreasing_cons a b p : fle a b = true → nondecreasing (b :: p) → nondecreasing (a :: b :: p).
Proof. intros Hab Hp [|i] x y; cbn; [congruence|apply Hp]. Qed.

Lemma totals_length before d : length (totals before d) = length d.
Proof. revert before. induction d as [|a d IH]; intros before; cbn; [done|by rewrite IH]. Qed.

Lemma totals_sorted d b : fnn b → is_finite b = true → Forall in_unit d →
  (fv b + 2 * Z.of_nat (length d) * fone ≤ 2 ^ 1085)%Z →
  Forall finite_nn (b :: totals (Some b) d) ∧ nondecreasing (b :: totals (Some b) d) ∧
  (b :: totals (Some b) d) !! length d = Some (foldl fadd b d).
Proof.
  revert b. induction d as [|a d IH]; intros b Hb Fb HF Hle; cbn [totals length foldl] in *.
  { split; [by apply Forall_singleton|]. split; [intros [|[]] ? ?; done|done]. }
  apply Forall_cons in HF as [Ha HF]. destruct (unit_facts a Ha) as (Va & Fa & Ha1).
  assert (0 < fone)%Z as Hone by (by vm_compute). pose proof (fnn_fv b Hb).
  destruct (fadd_near b a (-42) (fnn_valid _ Hb) Va Fb Fa) as [Hf Hn]; [lia| |].
  { replace (53 + -42 + 1074)%Z with 1085%Z by done. lia. }
  replace (-42 + 1074)%Z with 1032%Z in Hn by done.
  assert (2 ^ 1032 ≤ fone)%Z by (vm_compute; discriminate).
  destruct (IH (fadd b a)) as (H1 & H2 & H3); [apply fadd_fnn; [done|apply Ha]|done|done|lia|].
  split_and!; [by constructor| |done]. apply nondecreasing_cons; [|done].
  destruct (fadd_ge b a Hb (proj1 Ha) Hf) as (_ & _ & Hge & _).
  apply fle_fv; [apply Hb|apply fadd_valid; [apply Hb|done]|done|done|done].
Qed.

Lemma totals_good x : Forall clamped x → 0 < length x ≤ 1024 →
  let d := (λ a, fdiv a (foldl fadd f0 x)) <$> x in
  Forall in_unit d ∧ good_row (length x) (totals None d).
Proof.
  intros Hx Hlen d. destruct (shares_sum x Hx Hlen) as [Hd Hsum]. fold d in Hd, Hsum. split; [done|].
  assert (length d = length x) as Hld by (unfold d; apply length_fmap).
  destruct d as [|d0 d1] eqn:Ed; [cbn in Hld; lia|]. apply Forall_cons in Hd as [H0 H1].
  destruct (unit_facts d0 H0) as (V0 & F0 & Hd0).
  assert (2 ^ 1085 = 2048 * fone)%Z as Ebig by (by vm_compute). assert (0 < fone)%Z as Hone by (by vm_compute).
  cbn [length] in Hld. destruct (totals_sorted d1 d0 (proj1 H0) F0 H1) as (Hfin & Hmono & Hlast); [rewrite Ebig; nia|].
  cbn [totals]. split.
  - cbn [length]. by rewrite totals_length.
  - done.
  - done.
  - exists (foldl fadd d0 d1). replace (length x) with (S (length d1)) by lia. cbn [last_of]. rewrite Hlast.
    split; [done|].
    destruct (fold_near d1 d0 (proj1 H0) F0 H1) as (Pn & Pf & Hnear); [rewrite Ebig; nia|].
    cbn [zsum foldr] in Hsum. fold (zsum d1) in Hsum.
    assert (Z.of_nat (length d1) * 2 ^ 1032 ≤ 2 ^ 1042)%Z as Hb.
    { replace (2 ^ 1042)%Z with (1024 * 2 ^ 1032)%Z by (by vm_compute). assert (0 < 2 ^ 1032)%Z by (by apply pow2_pos). nia. }
    assert (fv f_0_99 ≤ fone - 2 ^ 1038 - 2 ^ 1042)%Z as H99 by (vm_compute; discriminate).
    assert (fone + 2 ^ 1038 + 2 ^ 1042 ≤ fv f_1_01)%Z as H101 by (vm_compute; discriminate).
    split; apply not_true_iff_false; rewrite flt_fv by (done || apply Pn); lia.
Qed.

(** ** The rows of a swarm *)

(** Velocities stay within 32, factors of inertia below one. *)
Definition velocity (v : f64) : Prop := fbnd v (32 * fone).
Definition damping (w : f64) : Prop := fvalid w ∧ is_finite w = true ∧ (16 * Z.abs (fv w) ≤ 15 * fone)%Z.

Lemma next_float_below (r : StdRand) : rand_inv r →
  in_unit (next_float r).1 ∧ (fv (next_float r).1 < fone)%Z ∧ rand_inv (next_float r).2.
Proof.
  intros Hr. destruct (next_float_unit r Hr) as (Hn & Hf & Hlt & Hr'). split_and!; [|by apply flt_fv in Hlt; [|apply Hn|..]|done].
  split_and!; [done|done|by apply flt_le].
Qed.

Lemma move_velocity w v x l g u1 u2 : damping w → velocity v → in_unit x → in_unit l → in_unit g → in_unit u1 → in_unit u2 →
  velocity (fadd (fadd (fmul w v) (fmul u1 (fsub l x))) (fmul u2 (fsub g x))).
Proof.
  intros (Vw & Fw & Hw) (Vv & Fv & Hv) Hx Hl Hg H1 H2. assert (0 < fone)%Z as H0 by (by vm_compute).
  assert (∀ k, (0 < k < 2 ^ 53)%Z → repr (k * fone)) as Hrepr by apply repr_small.
  assert (∀ u a, in_unit u → in_unit a → fbnd (fmul u (fsub a x)) (1 * fone)) as Hterm.
  { intros u a Hu Ha. destruct (unit_facts u Hu) as (Vu & Fu & ?), (unit_facts a Ha) as (Va & Fa & ?), (unit_facts x Hx) as (Vx & Fx & ?).
    destruct (fsub_bnd a x (1 * fone) Va Vx Fa Fx) as (Vd & Fd & Hd); [by apply Hrepr|lia|].
    apply fmul_bnd; [done..|by apply Hrepr|]. nia. }
  destruct (Hterm u1 l H1 Hl) as (V1 & F1 & B1), (Hterm u2 g H2 Hg) as (V2 & F2 & B2).
  destruct (fmul_bnd w v (30 * fone) Vw Vv Fw Fv) as (V3 & F3 & B3); [by apply Hrepr|nia|].
  destruct (fadd_bnd _ _ (31 * fone) V3 V1 F3 F1) as (V4 & F4 & B4); [by apply Hrepr|lia|].
  apply (fadd_bnd _ _ (32 * fone) V4 V2 F4 F2); [by apply Hrepr|lia].
Qed.

Lemma clamp_position x v : in_unit x → velocity v → ∃ y, clamp (E := Error) (fadd x v) V_MIN V_MAX = Ok y ∧ clamped y.
Proof.
  intros Hx (Vv & Fv & _). destruct (unit_facts x Hx) as (Vx & Fx & _).
  assert (fvalid (fadd x v)) as Vs by (by apply fadd_valid).
  assert (is_nan (fadd x v) = false) as Hnan by (apply fadd_not_nan; [done|by destruct v]).
  destruct (clamp_ok (E := Error) (fadd x v) V_MIN V_MAX) as [y Hy]; [by vm_compute|]. exists y. split; [done|].
  destruct (clamp_bounds _ _ _ _ Hnan Hy) as [Hlo Hhi].
  assert (fvalid y) as Vy.
  { unfold clamp in Hy. destruct (fle V_MIN V_MAX); [|done]. injection Hy as <-. by destruct (flt _ V_MIN), (flt V_MAX _). }
  destruct (fle_not_nan _ _ Hlo) as [_ Hny].
  assert (is_finite y = true) as Fy by (destruct y as [|[]| |]; done).
  assert (fv V_MIN ≤ fv y)%Z as Hge by (by apply fle_fv in Hlo).
  split; [|done]. split_and!; [|done|done]. apply fnn_guard; [done|done|]. apply not_true_iff_false. rewrite flt_fv by done.
  change (fv f0) with 0%Z. assert (0 < fv V_MIN)%Z by (by vm_compute). lia.
Qed.

Lemma move_row_ok n w x v l g acc r : damping w → length x = n → length v = n → length l = n → length g = n →
  Forall in_unit x → Forall velocity v → Forall in_unit l → Forall in_unit g → rand_inv r →
  ∃ x' v' r', move_row n w x v l g acc r = Ok (x', v', foldl fadd acc x', r') ∧ length x' = n ∧ length v' = n ∧
    Forall clamped x' ∧ Forall velocity v' ∧ rand_inv r'.
Proof.
  intros Hw. revert x v l g acc r. induction n as [|n IH]; intros x v l g acc r Lx Lv Ll Lg Hx Hv Hl Hg Hr.
  { apply nil_length_inv in Lx as ->, Lv as ->. exists [], [], r. by split_and!. }
  destruct x as [|x0 x], v as [|v0 v], l as [|l0 l], g as [|g0 g]; try done. injection Lx as Lx. injection Lv as Lv.
  injection Ll as Ll. injection Lg as Lg.
  apply Forall_cons in Hx as [Hx0 Hx], Hv as [Hv0 Hv], Hl as [Hl0 Hl], Hg as [Hg0 Hg]. cbn [move_row].
  destruct (next_float_below r Hr) as (U1 & _ & Hr1). destruct (next_float r) as [u1 r1]. cbn [fst snd] in *.
  destruct (next_float_below r1 Hr1) as (U2 & _ & Hr2). destruct (next_float r1) as [u2 r2]. cbn [fst snd] in *.
  pose proof (move_velocity w v0 x0 l0 g0 u1 u2 Hw Hv0 Hx0 Hl0 Hg0 U1 U2) as Hv'.
  set (v' := fadd _ _) in *. destruct (clamp_position x0 v' Hx0 Hv') as (y & Hy & Hcl). rewrite Hy. cbn [obind].
  destruct (IH x v l g (fadd acc y) r2 Lx Lv Ll Lg Hx Hv Hl Hg Hr2) as (x' & vs & r' & E & ? & ? & ? & ? & ?).
  rewrite E. cbn [obind]. exists (y :: x'), (v' :: vs), r'. split_and!; [done|cbn; lia|cbn; lia|by constructor|by constructor|done].
Qed.

Lemma probability_row_ok n before x p s : length x = n → length p = n →
  probability_row n before x p s = Ok ((λ a, fdiv a s) <$> x, totals before ((λ a, fdiv a s) <$> x)).
Proof.
  revert before x p. induction n as [|n IH]; intros before x p Lx Lp.
  { apply nil_length_inv in Lx as ->, Lp as ->. done. }
  destruct x as [|x0 x], p as [|p0 p]; try done. injection Lx as Lx. injection Lp as Lp.
  cbn [probability_row fmap list_fmap totals]. by rewrite IH.
Qed.

Lemma div_row_ok n x s : length x = n → div_row n x s = Ok ((λ a, fdiv a s) <$> x).
Proof.
  revert x. induction n as [|n IH]; intros x Lx; [by apply nil_length_inv in Lx as ->|].
  destruct x as [|x0 x]; [done|]. injection Lx as Lx. cbn [div_row fmap list_fmap]. by rewrite IH.
Qed.

(** The first positions lie between 0.1 and 0.8. *)
Lemma first_position u : in_unit u → clamped (fadd (fmul f_0_7 u) f_0_1).
Proof.
  intros Hu. destruct (unit_facts u Hu) as (Vu & Fu & Hu1). assert (0 < fone)%Z as H0 by (by vm_compute).
  destruct (fmul_bnd f_0_7 u (fv f_0_7)) as (V & F & B); [done|done|done|done| | |].
  { change (fv f_0_7) with (Z.abs (fv f_0_7)). apply repr_fv; [done|done|]. by vm_compute. }
  { change (Z.abs (fv f_0_7)) with (fv f_0_7). assert (0 < fv f_0_7)%Z by (by vm_compute). nia. }
  assert (fnn (fmul f_0_7 u)) as Hn by (apply fmul_fnn; [done|apply Hu|done|done]). pose proof (fnn_fv _ Hn).
  destruct (fadd_bnd (fmul f_0_7 u) f_0_1 (1 * fone) V ltac:(done) F ltac:(done)) as (Vs & Fs & Bs).
  { by apply repr_small. }
  { assert (fv f_0_7 + fv f_0_1 ≤ fone)%Z by (vm_compute; discriminate). assert (0 < fv f_0_1)%Z by (by vm_compute). lia. }
  assert (fnn (fadd (fmul f_0_7 u) f_0_1)) as Hs by (by apply fadd_fnn).
  destruct (fadd_ge _ f_0_1 Hn ltac:(done) Fs) as (_ & _ & _ & Hge). pose proof (fnn_fv _ Hs).
  split; [split_and!; [done|done|]|].
  - apply fle_fv; [done|done|done|done|]. change (fv f1) with fone. lia.
  - assert (fv V_MIN ≤ fv f_0_1)%Z by (vm_compute; discriminate). lia.
Qed.

Lemma init_row_ok n x v l g acc r : length x = n → length v = n → length l = n → length g = n → rand_inv r →
  ∃ x' r', init_row n x v l g acc r =
      Ok (x', replicate n f_0_1, replicate n f_half, replicate n f_half, foldl fadd acc x', r') ∧
    length x' = n ∧ Forall clamped x' ∧ rand_inv r'.
Proof.
  revert x v l g acc r. induction n as [|n IH]; intros x v l g acc r Lx Lv Ll Lg Hr.
  { apply nil_length_inv in Lx as ->, Lv as ->, Ll as ->, Lg as ->. exists [], r. by split_and!. }
  destruct x as [|x0 x], v as [|v0 v], l as [|l0 l], g as [|g0 g]; try done. injection Lx as Lx. injection Lv as Lv.
  injection Ll as Ll. injection Lg as Lg. cbn [init_row].
  destruct (next_float_below r Hr) as (U & _ & Hr1). destruct (next_float r) as [u r1]. cbn [fst snd] in *.
  pose proof (first_position u U) as Hy. set (y := fadd _ _) in *.
  destruct (IH x v l g (fadd acc y) r1 Lx Lv Ll Lg Hr1) as (x' & r' & E & ? & ? & ?). rewrite E. cbn [obind].
  exists (y :: x'), r'. split_and!; [done|cbn; lia|by constructor|done].
Qed.

(** ** The swarm *)

Definition grid {A} (P : A → Prop) (n k : nat) (v : list (list A)) : Prop :=
  length v = n ∧ ∀ i row, v !! i = Some row → length row = k ∧ Forall P row.

Lemma grid_row {A} (P : A → Prop) n k v i : grid P n k v → i < n → ∃ row, rows v i = Ok row ∧ length row = k ∧ Forall P row.
Proof.
  intros [Hn Hr] Hi. destruct (lookup_lt_is_Some_2 v i) as [row Hrow]; [lia|]. exists row. unfold rows. rewrite Hrow.
  destruct (Hr i row Hrow). done.
Qed.
Lemma grid_set {A} (P : A → Prop) n k v i row : grid P n k v → length row = k → Forall P row → grid P n k (<[i := row]> v).
Proof.
  intros [Hn Hr] Hk HF. split; [by rewrite length_insert|]. intros j row' Hj.
  apply list_lookup_insert_Some in Hj as [(<- & <- & _)|[_ Hj]]; [done|by apply (Hr j)].
Qed.
Lemma grid_impl {A} (P Q : A → Prop) n k v : (∀ a, P a → Q a) → grid P n k v → grid Q n k v.
Proof. intros H [Hn Hr]. split; [done|]. intros i row Hi. destruct (Hr i row Hi). split; [done|]. by eapply Forall_impl. Qed.
Lemma grid_replicate {A} (P : A → Prop) n k a : P a → grid P n k (replicate n (replicate k a)).
Proof.
  intros Ha. split; [apply length_replicate|]. intros i row [-> _]%lookup_replicate. split; [apply length_replicate|].
  by apply Forall_replicate.
Qed.

Definition any {A} (_ : A) : Prop := True.
Definition counts (m : MOpt) (k : Z) : Prop := (0 ≤ k ≤ total_finds m)%Z.

Record mopt_data (m : MOpt) : Prop := {
  md_rand : rand_inv (mo_rand m);
  md_ops : 0 < operator_num m ≤ 1024;
  md_consts : w_init m = f_0_9 ∧ w_end m = f_0_3 ∧ g_max m = f_5000;
  md_g : finite_nn (g_now m) ∧ (fv (g_now m) ≤ fv f_5000)%Z;
  md_x : grid in_unit (swarm_num m) (operator_num m) (x_now m);
  md_l : grid in_unit (swarm_num m) (operator_num m) (l_best m);
  md_v : grid velocity (swarm_num m) (operator_num m) (v_now m);
  md_eff : grid any (swarm_num m) (operator_num m) (eff_best m);
  md_prob : grid any (swarm_num m) (operator_num m) (probability_now m);
  md_best : length (g_best m) = operator_num m ∧ Forall in_unit (g_best m);
  md_fitness : length (swarm_fitness m) = swarm_num m;
  md_finds : grid (counts m) (swarm_num m) (operator_num m) (pilot_operator_finds m);
  md_finds_v2 : grid (counts m) (swarm_num m) (operator_num m) (pilot_operator_finds_v2 m);
  md_cycles : grid any (swarm_num m) (operator_num m) (pilot_operator_cycles m);
  md_cycles_v2 : grid any (swarm_num m) (operator_num m) (pilot_operator_cycles_v2 m);
  md_cycles_v3 : grid any (swarm_num m) (operator_num m) (pilot_operator_cycles_v3 m);
  md_puppet : length (operator_finds_puppet m) = operator_num m;
  md_core : length (core_operator_finds m) = operator_num m ∧ Forall (counts m) (core_operator_finds m);
  md_core_v2 : length (core_operator_finds_v2 m) = operator_num m ∧ Forall (counts m) (core_operator_finds_v2 m);
  md_core_cycles : length (core_operator_cycles m) = operator_num m ∧
    length (core_operator_cycles_v2 m) = operator_num m ∧ length (core_operator_cycles_v3 m) = operator_num m;
  md_total : (0 ≤ total_finds m)%Z;
}.

(** The probabilities of swarm [i] are in order. *)
Definition ready (m : MOpt) (i : nat) : Prop := ∀ p, probability_now m !! i = Some p → good_row (operator_num m) p.
Record mopt_inv (m : MOpt) : Prop := {
  mi_data : mopt_data m;
  mi_ready : ∀ i, ready m i;
  mi_now : swarm_now m < swarm_num m;
}.

(** What a round of the particles leaves alone. *)
Definition kept (m m' : MOpt) : Prop :=
  operator_num m' = operator_num m ∧ swarm_num m' = swarm_num m ∧ swarm_now m' = swarm_now m ∧
  w_now m' = w_now m ∧ total_finds m' = total_finds m.

Lemma pso_swarm_ok i m : mopt_data m → damping (w_now m) → i < swarm_num m →
  ∃ m', pso_swarm i m = (Ok (), m') ∧ mopt_data m' ∧ kept m m' ∧ ready m' i ∧ (∀ j, j ≠ i → ready m j → ready m' j).
Proof.
  intros D Hw Hi. destruct (grid_row _ _ _ _ i (md_x m D) Hi) as (x & Ex & Lx & Hx).
  destruct (grid_row _ _ _ _ i (md_v m D) Hi) as (v & Ev & Lv & Hv).
  destruct (grid_row _ _ _ _ i (md_l m D) Hi) as (l & El & Ll & Hl).
  destruct (grid_row _ _ _ _ i (md_prob m D) Hi) as (p & Ep & Lp & _). destruct (md_best m D) as [Lg Hg].
  unfold pso_swarm. rewrite bind_gets. unfold id. cbv zeta. rewrite Ex, bind_lift, Ev, bind_lift, El, bind_lift, Ep, bind_lift.
  destruct (move_row_ok (operator_num m) (w_now m) x v l (g_best m) f0 (mo_rand m) Hw Lx Lv Ll Lg Hx Hv Hl Hg (md_rand m D))
    as (x' & v' & r' & E & Lx' & Lv' & Hx' & Hv' & Hr'). rewrite E, bind_lift.
  rewrite (probability_row_ok _ _ _ _ _ Lx' Lp), bind_lift, bind_modify.
  destruct (totals_good x' Hx') as [Hd Hgood]; [rewrite Lx'; apply D|]. cbv zeta in Hd, Hgood.
  set (d := (λ a, fdiv a _) <$> x') in *. rewrite Lx' in Hgood.
  destruct (gr_last _ _ Hgood) as (last & Elast & H1 & H2). rewrite Elast, bind_lift, H1, H2. cbn [orb].
  assert (length d = operator_num m) as Ld by (unfold d; by rewrite length_fmap).
  eexists. split; [done|]. split_and!.
  - destruct D. split; try assumption.
    + by apply grid_set.
    + by apply grid_set.
    + apply grid_set; [assumption|by rewrite totals_length|]. apply Forall_forall. intros. exact I.
  - done.
  - intros p' Hp'. cbn in Hp'. apply list_lookup_insert_Some in Hp' as [(_ & <- & _)|[? _]]; done.
  - intros j Hj Hready p' Hp'. cbn in Hp'. apply list_lookup_insert_Some in Hp' as [(? & _)|[_ Hp']]; [done|]. by apply Hready.
Qed.

(** The inertia stays below 15/16. *)
Lemma inertia_damping g : finite_nn g → (fv g ≤ fv f_5000)%Z →
  damping (fadd (fdiv (fmul (fsub f_0_9 f_0_3) (fsub f_5000 g)) f_5000) f_0_3).
Proof.
  intros [Hg Fg] Hle. pose proof (fnn_fv g Hg) as Hg0. assert (0 < fone)%Z as H0 by (by vm_compute).
  assert (fv f_5000 = 5000 * fone)%Z as E5 by (by vm_compute).
  set (c := fsub f_0_9 f_0_3). assert (fnn c ∧ is_finite c = true ∧ 100 * fv c ≤ 61 * fone)%Z as (Cn & Cf & Cb)
    by (split_and!; [split; by vm_compute|by vm_compute|vm_compute; discriminate]).
  pose proof (fnn_fv c Cn) as Hc0.
  destruct (fsub_bnd f_5000 g (5000 * fone) ltac:(done) (fnn_valid _ Hg) ltac:(done) Fg) as (Vd & Fd & Bd);
    [by apply repr_small|lia|].
  assert (fnn (fsub f_5000 g)) as Hd by (apply fsub_fnn; [done|apply Hg|done|done|done]). pose proof (fnn_fv _ Hd) as Hd0.
  set (d := fsub f_5000 g) in *. destruct (fmul_bnd c d (3100 * fone) (fnn_valid _ Cn) Vd Cf Fd) as (Va & Fa & Ba);
    [by apply repr_small|nia|].
  assert (fnn (fmul c d)) as Ha by (by apply fmul_fnn). pose proof (fnn_fv _ Ha) as Ha0. set (a := fmul c d) in *.
  destruct (fdiv_unit a f_5000 Ha ltac:(done) Fa ltac:(done)) as (Hq & Fq & _); [lia|lia|].
  pose proof (fdiv_near a f_5000 (-52) Ha ltac:(done) Fa ltac:(done) ltac:(lia) ltac:(lia)) as Hn.
  replace (53 + -52 + 1074)%Z with 1075%Z in Hn by done. replace (2 * 2 ^ (-52 + 1074))%Z with (2 ^ 1023)%Z in Hn by (by vm_compute).
  replace (2 ^ 1075)%Z with (2 * fone)%Z in Hn by (by vm_compute). rewrite E5 in Hn.
  specialize (Hn ltac:(nia) Fq). pose proof (fnn_fv _ Hq) as Hq0. set (q := fdiv a f_5000) in *.
  assert (5000 * fv q ≤ 3100 * fone + 2 ^ 1023 * 5000)%Z as Hqb.
  { apply (Z.mul_le_mono_pos_r _ _ fone); [done|]. assert (0 < 2 ^ 1023)%Z by (by apply pow2_pos). nia. }
  assert (1000000 * 2 ^ 1023 ≤ fone)%Z by (vm_compute; discriminate).
  assert (100 * fv f_0_3 ≤ 31 * fone ∧ 0 ≤ fv f_0_3)%Z as [H3 H30] by (split; vm_compute; discriminate).
  destruct (fadd_bnd q f_0_3 (15 * 2 ^ 1070) (fnn_valid _ Hq) ltac:(done) Fq ltac:(done)) as (Vr & Fr & Br).
  { exists (15 * 2 ^ 49)%Z, (-53)%Z. split_and!; [unfold canon; lia|lia|by vm_compute]. }
  { assert (fone = 16 * 2 ^ 1070)%Z by (by vm_compute). lia. }
  split_and!; [done|done|]. assert (fone = 16 * 2 ^ 1070)%Z by (by vm_compute). lia.
Qed.

(** The start of a round: the count of rounds and the inertia. *)
Lemma reset_inertia m : mopt_data (m <| g_now := f0 |>) → finite_nn (g_now m) →
  let m' := (reset_g m) <| w_now := inertia (reset_g m) |> in
  mopt_data m' ∧ damping (w_now m').
Proof.
  intros D Hg. cbv zeta. destruct (md_consts _ D) as (E1 & E2 & E3). cbn in E1, E2, E3.
  assert (mopt_data (reset_g m)) as D'.
  { unfold reset_g. destruct (fgt (g_now m) (g_max m)) eqn:G; [done|]. destruct D. split; try assumption.
    split; [done|]. rewrite E3 in G. apply not_true_iff_false in G. rewrite flt_fv in G by (done || apply Hg). lia. }
  split; [destruct D'; by split|]. change (damping (inertia (reset_g m))). unfold inertia.
  destruct (md_consts _ D') as (-> & -> & ->). apply inertia_damping; apply (md_g _ D').
Qed.

(** A loop over the swarms. *)
Lemma swarms_ok (f : nat → M MOpt ()) m i n :
  (∀ j m, mopt_data m → damping (w_now m) → j < swarm_num m → ∃ m', f j m = (Ok (), m') ∧ mopt_data m' ∧ kept m m' ∧
    ready m' j ∧ (∀ k, k ≠ j → ready m k → ready m' k)) →
  mopt_data m → damping (w_now m) → i + n ≤ swarm_num m → (∀ j, j < i → ready m j) →
  ∃ m', for_from i n (λ j _, f j) () m = (Ok (), m') ∧ mopt_data m' ∧ kept m m' ∧ ∀ j, j < i + n → ready m' j.
Proof.
  intros Hf. revert m i. induction n as [|n IH]; intros m i D Hw Hn Hr; cbn [for_from].
  { exists m. split_and!; try done. intros j Hj. apply Hr. lia. }
  destruct (Hf i m D Hw ltac:(lia)) as (m1 & E1 & D1 & K1 & R1 & R1'). unfold bind at 1. rewrite E1.
  destruct K1 as (K11 & K12 & K13 & K14 & K15).
  destruct (IH m1 (S i) D1) as (m2 & E2 & D2 & K2 & R2).
  - by rewrite K14.
  - rewrite K12. lia.
  - intros j Hj. destruct (decide (j = i)) as [->|]; [done|]. apply R1'; [done|]. apply Hr. lia.
  - exists m2. split_and!; [done|done| |intros j Hj; apply R2; lia]. destruct K2 as (? & ? & ? & ? & ?).
    split_and!; congruence.
Qed.

Lemma all_ready m : mopt_data m → (∀ j, j < swarm_num m → ready m j) → ∀ j, ready m j.
Proof. intros D Hr j p Hp. apply (Hr j); [|done]. rewrite <-(proj1 (md_prob m D)). by eapply lookup_lt_Some. Qed.

Lemma init_swarm_ok i m : mopt_data m → damping (w_now m) → i < swarm_num m →
  ∃ m', init_swarm i m = (Ok (), m') ∧ mopt_data m' ∧ kept m m' ∧ ready m' i ∧ (∀ j, j ≠ i → ready m j → ready m' j).
Proof.
  intros D Hw Hi. destruct (grid_row _ _ _ _ i (md_x m D) Hi) as (x & Ex & Lx & Hx).
  destruct (grid_row _ _ _ _ i (md_v m D) Hi) as (v & Ev & Lv & Hv).
  destruct (grid_row _ _ _ _ i (md_l m D) Hi) as (l & El & Ll & Hl). destruct (md_best m D) as [Lg Hg].
  unfold init_swarm. rewrite bind_gets. unfold id. cbv zeta. rewrite Ex, bind_lift, Ev, bind_lift, El, bind_lift.
  destruct (init_row_ok (operator_num m) x v l (g_best m) f0 (mo_rand m) Lx Lv Ll Lg (md_rand m D)) as (x' & r' & E & Lx' & Hx' & Hr').
  rewrite E, bind_lift, (div_row_ok _ _ _ Lx'), bind_lift, bind_modify.
  destruct (totals_good x' Hx') as [Hd _]; [rewrite Lx'; apply D|]. cbv zeta in Hd. set (d := (λ a, fdiv a _) <$> x') in *.
  assert (length d = operator_num m) as Ld by (unfold d; by rewrite length_fmap).
  set (m1 := upd _ _). assert (mopt_data m1) as D1.
  { assert (in_unit f_half) as Hhalf by (split_and!; done).
    destruct D. split; try assumption.
    - by apply grid_set.
    - apply grid_set; [assumption|apply length_replicate|by apply Forall_replicate].
    - apply grid_set; [assumption|apply length_replicate|]. apply Forall_replicate.
      split_and!; [done|done|vm_compute; discriminate].
    - split; [apply length_replicate|by apply Forall_replicate]. }
  destruct (pso_swarm_ok i m1 D1 Hw Hi) as (m' & E' & D' & K' & R' & R''). by exists m'.
Qed.

Lemma pso_initialize_ok m : mopt_data m → g_now m = f0 →
  ∃ m', pso_initialize m = (Ok (), m') ∧ mopt_data m' ∧ (∀ j, ready m' j) ∧ operator_num m' = operator_num m ∧
    swarm_num m' = swarm_num m ∧ swarm_now m' = swarm_now m ∧ total_finds m' = total_finds m.
Proof.
  intros D Hg. unfold pso_initialize. rewrite !bind_modify, bind_gets.
  destruct (reset_inertia m) as [D1 W1]; [destruct D; by split|apply D|]. set (m1 := upd _ (reset_g m)) in *.
  assert (operator_num m1 = operator_num m ∧ swarm_num m1 = swarm_num m ∧ swarm_now m1 = swarm_now m ∧
    total_finds m1 = total_finds m) as (E1 & E2 & E3 & E4) by (unfold m1, reset_g; by destruct (fgt _ _)).
  destruct (swarms_ok init_swarm m1 0 (swarm_num m1) init_swarm_ok D1 W1) as (m' & E & D' & K & R); [lia|lia|].
  destruct K as (K1 & K2 & K3 & _ & K5). exists m'. split; [done|]. split; [done|]. split; [|split_and!; congruence].
  apply all_ready; [done|]. rewrite K2. exact R.
Qed.

Lemma MOpt_new_ok ops swarms seed : 0 < ops ≤ 1024 → 0 < swarms → is_u64 seed →
  ∃ m, MOpt_new ops swarms seed = Ok m ∧ mopt_inv m ∧ operator_num m = ops ∧ swarm_num m = swarms ∧ total_finds m = 0%Z.
Proof.
  intros Hops Hsw Hseed. unfold MOpt_new. cbv zeta. set (m0 := mkMOpt _ _ _ _ _ _ _ _ _ _ _ _ _ _ _ _ _ _ _ _ _ _ _ _ _ _ _ _ _ _ _ _ _).
  assert (in_unit f0) as H0 by (split_and!; done).
  assert (mopt_data m0) as D.
  { assert (counts m0 0) as Hc by (split; done). assert (velocity f0) as Hv0 by (split_and!; [done|done|vm_compute; discriminate]).
    split.
    - by apply std_rand_seeded.
    - done.
    - done.
    - split; [by split|vm_compute; discriminate].
    - by apply grid_replicate.
    - by apply grid_replicate.
    - by apply grid_replicate.
    - by apply grid_replicate.
    - by apply grid_replicate.
    - split; [apply length_replicate|by apply Forall_replicate].
    - apply length_replicate.
    - by apply grid_replicate.
    - by apply grid_replicate.
    - by apply grid_replicate.
    - by apply grid_replicate.
    - by apply grid_replicate.
    - apply length_replicate.
    - split; [apply length_replicate|by apply Forall_replicate].
    - split; [apply length_replicate|by apply Forall_replicate].
    - split_and!; apply length_replicate.
    - done. }
  destruct (pso_initialize_ok m0 D eq_refl) as (m & E & D' & R & E1 & E2 & E3 & E4). rewrite E. exists m. split; [done|].
  split; [|done]. split; [done|done|]. rewrite E2, E3. exact Hsw.
Qed.

(** ** Choosing an operator *)

Lemma first_above_ok p t n i j b : p !! j = Some b → flt t b = true → i ≤ j < i + n → i + n = length p →
  ∃ k a, first_above n i t p = Ok (Some k) ∧ i ≤ k ∧ k < i + n ∧ p !! k = Some a ∧ flt t a = true ∧
    (∀ h c, i ≤ h < k → p !! h = Some c → flt t c = false).
Proof.
  intros Hj Hb. revert i. induction n as [|n IH]; intros i Hi Hn; [lia|]. cbn [first_above].
  destruct (lookup_lt_is_Some_2 p i) as [a Ha]; [lia|]. rewrite Ha. cbn [unwrap obind].
  destruct (flt t a) eqn:E.
  { exists i, a. split_and!; [done|lia|lia|done|done|]. intros h c Hh. lia. }
  destruct (decide (i = j)) as [->|Hne]; [congruence|].
  destruct (IH (S i)) as (k & a' & E' & H1 & H2 & H3 & H4 & H5); [lia|lia|].
  exists k, a'. split_and!; [done|lia|lia|done|done|]. intros h c Hh Hc. destruct (decide (h = i)) as [->|]; [congruence|].
  apply (H5 h c); [lia|done].
Qed.

(** The bound of the last probability for [fmul_lt]. *)
Lemma last_positive l : finite_nn l → flt l f_0_99 = false → (2 ^ 200 ≤ fv l)%Z.
Proof.
  intros [Hn Hf] H. apply not_true_iff_false in H. rewrite flt_fv in H by (done || apply Hn).
  assert (2 ^ 200 ≤ fv f_0_99)%Z by (vm_compute; discriminate). lia.
Qed.

(** An operator is found, with the draw between the total before it and its own: the checks that
    follow the search cannot fail. *)
Lemma select_ok m : mopt_inv m →
  ∃ i r' p a, select_algorithm m = (Ok i, m <| mo_rand := r' |>) ∧ rand_inv r' ∧ i < operator_num m ∧
    probability_now m !! swarm_now m = Some p ∧ p !! i = Some a ∧
    ∃ t, finite_nn t ∧ flt t a = true ∧ ∀ h c, h < i → p !! h = Some c → fle c t = true.
Proof.
  intros I. pose proof (mi_data m I) as D. destruct (grid_row _ _ _ _ _ (md_prob m D) (mi_now m I)) as (p & Ep & Lp & _).
  unfold select_algorithm. rewrite bind_gets. unfold id. cbv zeta. rewrite Ep, bind_lift.
  assert (probability_now m !! swarm_now m = Some p) as Ep' by (unfold rows in Ep; by destruct (_ !! _); [injection Ep as ->|]).
  destruct (mi_ready m I _ p Ep') as [_ Hfin Hsort (l & El & H99 & _)]. rewrite El, bind_lift.
  assert (∃ k, operator_num m = S k ∧ p !! k = Some l) as (n & En & Hl).
  { unfold last_of in El. destruct (operator_num m) as [|k]; [done|]. exists k. split; [done|].
    destruct (p !! k); [by injection El as ->|done]. }
  rewrite Forall_lookup in Hfin. pose proof (Hfin n l Hl) as Hlf.
  destruct (next_float_below (mo_rand m) (md_rand m D)) as (U & Ub & Hr').
  destruct (next_float (mo_rand m)) as [u r'] eqn:Eu. cbn [fst snd] in *. rewrite bind_modify.
  destruct (unit_facts u U) as (Vu & Fu & _). destruct Hlf as [Hln Hlf].
  destruct (fmul_lt l u (fnn_valid _ Hln) Hlf) as [Ft Hlt]; [by apply last_positive|apply U|done|done|].
  assert (fnn (fmul l u)) as Ht by (apply fmul_fnn; [done|apply U|done|done]). set (t := fmul l u) in *.
  destruct (first_above_ok p t (operator_num m) 0 n l Hl) as (i & a & Ei & _ & Hi & Ha & Hta & Hmin); [|lia|lia|].
  { apply flt_fv; [apply Ht|apply Hln|done|done|done]. }
  rewrite Ei, bind_lift. cbn [default from_option id]. cbn in Hi.
  assert (∀ h c, p !! h = Some c → fvalid c ∧ is_finite c = true) as Hval.
  { intros h c Hc. destruct (Hfin h c Hc) as [Hn Hf]. split; [apply Hn|done]. }
  assert (∀ h c, h < i → p !! h = Some c → fle c t = true) as Hbelow.
  { intros h c Hh Hc. specialize (Hmin h c ltac:(lia) Hc). destruct (Hval h c Hc) as [Vc Fc].
    apply not_true_iff_false in Hmin. rewrite flt_fv in Hmin by (done || apply Ht). apply fle_fv; [done|apply Ht|done|done|lia]. }
  exists i, r', p, a. split; [|split_and!; [done|done|done|done|]; exists t; split_and!; [by split|done|done]].
  assert ((if negb (i =? 0) then let? b := unwrap (p !! (i - 1)) in Ok (flt t b) else Ok false) = Ok (E := Error) false) as ->.
  { destruct (Nat.eqb_spec i 0) as [|Hi0]; [done|]. cbn [negb].
    destruct (lookup_lt_is_Some_2 p (i - 1)) as [b Hb]; [lia|]. rewrite Hb. cbn. f_equal. apply (Hmin (i - 1)); [lia|done]. }
  rewrite bind_lift. cbn [negb andb].
  assert ((if i + 1 <? operator_num m then let? a := unwrap (p !! (i + 1)) in Ok (flt a t) else Ok false) = Ok (E := Error) false) as ->.
  { destruct (Nat.ltb_spec (i + 1) (operator_num m)) as [Hlt1|]; [|done].
    destruct (lookup_lt_is_Some_2 p (i + 1)) as [b Hb]; [lia|]. rewrite Hb. cbn. f_equal.
    destruct (Hval i a Ha) as [Va Fa], (Hval _ b Hb) as [Vb Fb].
    pose proof (Hsort i a b Ha ltac:(by rewrite Nat.add_1_r in Hb)) as Hab. apply fle_fv in Hab; [|done..].
    apply flt_fv in Hta; [|apply Ht|done|done|done]. apply not_true_iff_false. rewrite flt_fv by (done || apply Ht). lia. }
  rewrite bind_lift. done.
Qed.

(** ** Learning *)

(** The finds are few enough for their sums to be exact. *)
Definition few (m : MOpt) (finds : Z) : Prop :=
  (Z.of_nat (S (swarm_num m)) * Z.of_nat (operator_num m) * finds < 2 ^ 53)%Z.

Lemma copy_row_ok {A} n (src dst : list A) : length src = n → length dst = n → copy_row n src dst = Ok src.
Proof.
  intros Hs Hd. unfold copy_row. rewrite Hs, Hd, Nat.ltb_irrefl. cbn [orb]. by rewrite take_ge, drop_ge, app_nil_r by lia.
Qed.

Lemma finds_of_ok m i : mopt_data m → i < operator_num m → few m (total_finds m) →
  ∃ k, finds_of m i = Ok k ∧ (0 ≤ k ≤ Z.of_nat (S (swarm_num m)) * total_finds m)%Z.
Proof.
  intros D Hi Hfew. pose proof (md_total m D) as HF. pose proof (md_ops m D). unfold few in Hfew.
  destruct (md_core m D) as [Lc Hc]. unfold finds_of. destruct (lookup_lt_is_Some_2 (core_operator_finds m) i) as [c Ec]; [lia|].
  rewrite Ec. cbn [unwrap obind]. rewrite Forall_lookup in Hc. pose proof (Hc i c Ec) as Hc0. unfold counts in Hc0.
  assert (∀ js a, (∀ j, j ∈ js → j < swarm_num m) → length js ≤ swarm_num m →
    (0 ≤ a)%Z → (a + Z.of_nat (length js) * total_finds m ≤ Z.of_nat (S (swarm_num m)) * total_finds m)%Z →
    ∃ k, foldl (λ acc j, let? a := acc in let? row := unwrap (pilot_operator_finds m !! j) in
                         let? f := unwrap (row !! i) in Ok (wrap64 (a + f))) (Ok a) js = Ok (E := Error) k ∧
      (0 ≤ k ≤ a + Z.of_nat (length js) * total_finds m)%Z) as Hfold.
  { induction js as [|j js IH]; intros a Hjs Hlen Ha Hle; cbn [foldl length] in *; [exists a; split; [done|lia]|].
    destruct (grid_row _ _ _ _ j (md_finds m D)) as (row & Er & Lr & Hr); [apply Hjs; left|].
    unfold rows in Er. rewrite Er. cbn [obind]. destruct (lookup_lt_is_Some_2 row i) as [f Ef]; [lia|]. rewrite Ef. cbn [unwrap obind].
    rewrite Forall_lookup in Hr. pose proof (Hr i f Ef) as Hf. unfold counts in Hf.
    rewrite wrap64_small by (unfold is_u64, u64_max; nia).
    destruct (IH (a + f)%Z) as (k & Ek & Hk); [intros ? ?; apply Hjs; by right|lia|lia|lia|]. exists k. split; [done|lia]. }
  destruct (Hfold (seq 0 (swarm_num m)) c) as (k & Ek & Hk).
  - intros j Hj. apply elem_of_seq in Hj. lia.
  - by rewrite length_seq.
  - lia.
  - rewrite length_seq. lia.
  - exists k. split; [done|]. rewrite length_seq in Hk. lia.
Qed.

Lemma mapM_bounded {A B} (f : A → outcome Error B) (P : B → Prop) l :
  (∀ a, a ∈ l → ∃ b, f a = Ok b ∧ P b) → ∃ bs, mapM f l = Ok bs ∧ length bs = length l ∧ Forall P bs.
Proof.
  induction l as [|a l IH]; intros H; cbn [mapM]; [by exists []|].
  destruct (H a) as (b & -> & Hb); [left|]. destruct IH as (bs & -> & Hl & HF); [intros; apply H; by right|].
  exists (b :: bs). cbn. split_and!; [done|lia|by constructor].
Qed.

Lemma sum_bounds l acc B : (0 ≤ acc)%Z → Forall (λ k, 0 ≤ k ≤ B)%Z l → (acc + Z.of_nat (length l) * B < 2 ^ 53)%Z →
  let r := foldl (λ a f, wrap64 (a + f)) acc l in (acc ≤ r < 2 ^ 53)%Z ∧ Forall (λ k, 0 ≤ k ≤ r)%Z l.
Proof.
  revert acc. induction l as [|k l IH]; intros acc Ha HF Hle; cbn [foldl length] in *; [split; [lia|constructor]|].
  apply Forall_cons in HF as [Hk HF]. rewrite wrap64_small by (unfold is_u64, u64_max; nia).
  destruct (IH (acc + k)%Z) as [H1 H2]; [lia|done|lia|]. split; [lia|]. constructor; [lia|done].
Qed.

Lemma best_row_ok n g finds sum : length g = n → length finds = n → Forall in_unit g →
  Forall (λ k, 0 ≤ k ≤ sum)%Z finds → (sum < 2 ^ 53)%Z →
  ∃ g', best_row n g finds sum = Ok g' ∧ length g' = n ∧ Forall in_unit g'.
Proof.
  revert g finds. induction n as [|n IH]; intros g finds Lg Lf Hg Hf Hs.
  { apply nil_length_inv in Lg as ->. by exists []. }
  destruct g as [|g0 g], finds as [|k finds]; try done. injection Lg as Lg. injection Lf as Lf.
  apply Forall_cons in Hg as [Hg0 Hg], Hf as [Hk Hf]. cbn [best_row].
  destruct (IH g finds Lg Lf Hg Hf Hs) as (g' & -> & Lg' & Hg'). cbn [obind]. eexists. split; [done|].
  split; [cbn; lia|]. constructor; [|done]. destruct (Z.ltb_spec 0 k); [|done].
  destruct (of_Z_exact k ltac:(lia)) as (N1 & F1 & E1), (of_Z_exact sum ltac:(lia)) as (N2 & F2 & E2).
  pose proof (pow2_pos 1074 ltac:(lia)). apply fdiv_unit; [done|done|done|done|rewrite E1, E2; nia|rewrite E2; nia].
Qed.

Lemma learn_best_ok m : mopt_data m → few m (total_finds m) →
  ∃ m', learn_best m = (Ok (), m') ∧ mopt_data m' ∧ damping (w_now m') ∧ operator_num m' = operator_num m ∧
    swarm_num m' = swarm_num m ∧ total_finds m' = total_finds m.
Proof.
  intros D Hfew. unfold learn_best. rewrite !bind_modify, bind_gets. unfold id. cbv zeta.
  set (m1 := m <| g_now := fadd (g_now m) f1 |>).
  destruct (md_g m D) as [[Gn Gf] Gle].
  assert (finite_nn (g_now m1)) as Hg1.
  { split; [by apply fadd_fnn|]. apply (fadd_bnd (g_now m) f1 (5001 * fone)); [apply Gn|done|done|done|by apply repr_small|].
    assert (fv f_5000 = 5000 * fone)%Z as E5 by (by vm_compute). change (fv f1) with fone. pose proof (fnn_fv _ Gn).
    assert (0 < fone)%Z by (by vm_compute). lia. }
  destruct (reset_inertia m1) as [D2 W2].
  { destruct D. split; try assumption. split; [by split|vm_compute; discriminate]. }
  { exact Hg1. }
  set (m2 := upd _ (reset_g m1)) in *.
  assert (operator_num m2 = operator_num m ∧ swarm_num m2 = swarm_num m ∧ total_finds m2 = total_finds m) as (E1 & E2 & E3)
    by (unfold m2, reset_g; by destruct (fgt _ _)).
  assert (few m2 (total_finds m2)) as Hfew2 by (unfold few in *; by rewrite E1, E2, E3).
  destruct (mapM_bounded (finds_of m2) (λ k, 0 ≤ k ≤ Z.of_nat (S (swarm_num m2)) * total_finds m2)%Z (seq 0 (operator_num m2)))
    as (finds & Ef & Lf & Hf).
  { intros i Hi. apply elem_of_seq in Hi. apply finds_of_ok; [done|lia|done]. }
  rewrite length_seq in Lf. rewrite Ef, bind_lift, (copy_row_ok _ _ _ Lf (md_puppet m2 D2)), bind_lift.
  destruct (sum_bounds finds 0 _ ltac:(lia) Hf) as [Hs1 Hs2]; [rewrite Lf; unfold few in Hfew2; lia|].
  destruct (md_best m2 D2) as [Lg Hg]. cbv zeta in Hs1, Hs2.
  destruct (best_row_ok (operator_num m2) (g_best m2) finds _ Lg Lf Hg Hs2) as (g' & Eg & Lg' & Hg'); [lia|].
  rewrite Eg, bind_lift. eexists. split; [done|]. split; [|done].
  destruct D2. split; try assumption. by split.
Qed.

Lemma pso_update_ok m : mopt_data m → few m (total_finds m) → 0 < swarm_num m →
  ∃ m', pso_update m = (Ok (), m') ∧ mopt_inv m' ∧ operator_num m' = operator_num m ∧ swarm_num m' = swarm_num m ∧
    total_finds m' = total_finds m.
Proof.
  intros D Hfew Hs. unfold pso_update. destruct (learn_best_ok m D Hfew) as (m1 & E1 & D1 & W1 & O1 & S1 & T1).
  unfold bind at 1. rewrite E1. rewrite bind_gets.
  destruct (swarms_ok pso_swarm m1 0 (swarm_num m1) pso_swarm_ok D1 W1) as (m2 & E2 & D2 & K2 & R2); [lia|lia|].
  unfold bind at 1. rewrite E2. destruct K2 as (K1 & K2 & _ & _ & K5).
  eexists. split; [done|]. split; [|cbn; split_and!; congruence]. split.
  - destruct D2. split; assumption.
  - intros i. apply (all_ready m2 D2). rewrite K2. exact R2.
  - cbn. lia.
Qed.

Lemma few_small m F : mopt_data m → (0 ≤ F)%Z → few m F → is_u64 F.
Proof. intros D HF Hf. pose proof (md_ops m D). unfold few in Hf. unfold is_u64, u64_max. nia. Qed.

Lemma credit_row_ok n c b f diff F : length c = n → length b = n → length f = n → (0 ≤ diff)%Z → is_u64 (F + diff)%Z →
  Forall (λ k, 0 ≤ k ≤ F)%Z f →
  ∃ f', credit_row n c b f diff = Ok f' ∧ length f' = n ∧ Forall (λ k, 0 ≤ k ≤ F + diff)%Z f'.
Proof.
  revert c b f. induction n as [|n IH]; intros c b f Lc Lb Lf Hd Hu HF.
  { apply nil_length_inv in Lf as ->. by exists []. }
  destruct c as [|c0 c], b as [|b0 b], f as [|f0 f]; try done. injection Lc as Lc. injection Lb as Lb. injection Lf as Lf.
  apply Forall_cons in HF as [H0 HF]. cbn [credit_row].
  destruct (IH c b f Lc Lb Lf Hd Hu HF) as (f' & -> & Lf' & HF'). cbn [obind]. eexists. split; [done|].
  split; [cbn; lia|]. constructor; [|done]. unfold is_u64 in Hu. destruct (b0 <? c0)%Z; [|lia].
  rewrite wrap64_small by (unfold is_u64; lia). lia.
Qed.

(** More finds leave the counters below their number. *)
Lemma data_total m F : mopt_data m → (total_finds m ≤ F)%Z → mopt_data (m <| total_finds := F |>).
Proof.
  intros D HF. assert (∀ k, counts m k → counts (m <| total_finds := F |>) k) as Hc by (unfold counts; cbn; lia).
  destruct (md_core m D) as [L1 H1], (md_core_v2 m D) as [L2 H2]. destruct D. split; try assumption.
  - by eapply grid_impl.
  - by eapply grid_impl.
  - split; [done|]. by eapply Forall_impl.
  - split; [done|]. by eapply Forall_impl.
  - cbn. lia.
Qed.

(** A step that only counts: the probabilities and the current swarm stay as they are. *)
Lemma inv_of_data m m' : mopt_inv m → mopt_data m' → probability_now m' = probability_now m → operator_num m' = operator_num m →
  swarm_num m' = swarm_num m → swarm_now m' < swarm_num m' → mopt_inv m'.
Proof. intros [_ R N] D E1 E2 E3 Hn. split; [done| |done]. intros i p Hp. rewrite E2. apply (R i). by rewrite <-E1. Qed.

Definition gain (diff : option Z) : Z := default 0%Z diff.
(** What the theorems assume of the finds of a step. *)
Definition diff_ok (m : MOpt) (diff : option Z) : Prop := (0 ≤ gain diff)%Z ∧ few m (total_finds m + gain diff).
(** The sizes of the swarm, and the finds after a step. *)
Definition grown (m m' : MOpt) (diff : option Z) : Prop :=
  operator_num m' = operator_num m ∧ swarm_num m' = swarm_num m ∧ total_finds m' = (total_finds m + gain diff)%Z.

Lemma core_post_ok diff m : mopt_inv m → diff_ok m diff →
  ∃ md m', core_post diff m = (Ok md, m') ∧ mopt_inv m' ∧ grown m m' diff.
Proof.
  intros I [Hd Hfew]. pose proof (mi_data m I) as D0. unfold core_post. rewrite bind_modify, bind_gets. unfold id. cbv zeta.
  set (m1 := m <| core_time := _ |>). assert (mopt_data m1) as D1 by (destruct D0; by split).
  pose proof (md_total m D0) as HT.
  assert (∃ m2, (match diff with
     | None => ret ()
     | Some diff => f <- lift (credit_row (operator_num m1) (core_operator_cycles_v2 m1) (core_operator_cycles_v3 m1)
           (core_operator_finds_v2 m1) diff) ;;
         modify (λ m, m <| total_finds := wrap64 (total_finds m + diff) |> <| core_operator_finds_v2 := f |>)
     end) m1 = (Ok (), m2) ∧ mopt_data m2 ∧ grown m m2 diff ∧ probability_now m2 = probability_now m ∧
       swarm_now m2 = swarm_now m) as (m2 & E2 & D2 & (G1 & G2 & G3) & P2 & N2).
  { destruct diff as [d|]; [|exists m1; split; [done|]; split; [done|]; split; [|done]; split_and!; [done|done|]; change (total_finds m = total_finds m + 0)%Z; lia]. unfold gain in *. cbn [default from_option id] in *.
    destruct (md_core_cycles m1 D1) as (_ & Lc2 & Lc3). destruct (md_core_v2 m1 D1) as [Lf Hf].
    pose proof (few_small m (total_finds m + d) D0 ltac:(lia) Hfew) as Hu.
    destruct (credit_row_ok _ _ _ _ d (total_finds m) Lc2 Lc3 Lf Hd Hu Hf) as (f' & Ef & Lf' & Hf').
    rewrite Ef, bind_lift. eexists. split; [done|]. cbn [total_finds upd]. 
    assert (wrap64 (total_finds m1 + d) = total_finds m + d)%Z as Ew by (by apply wrap64_small). rewrite Ew.
    split; [|split_and!; done]. pose proof (data_total m1 (total_finds m + d) D1 ltac:(change (total_finds m1) with (total_finds m); lia)) as D2.
    destruct D2. split; try assumption. by split. }
  unfold bind at 1. rewrite E2, bind_gets. destruct (period_core m2 <? core_time m2)%Z.
  - destruct (md_core_cycles m2 D2) as (Lc & Lc2 & Lc3), (md_core_v2 m2 D2) as [Lf2 Hf2], (md_core m2 D2) as [Lf Hf].
    change (operator_num m1) with (operator_num m). rewrite <-G1, (copy_row_ok _ _ _ Lf2 Lf), bind_lift, (copy_row_ok _ _ _ Lc2 Lc), bind_lift, bind_modify.
    set (m3 := upd _ _). assert (mopt_data m3) as D3 by (destruct D2; split; try assumption; by split_and!).
    destruct (pso_update_ok m3 D3) as (m4 & E4 & I4 & O4 & S4 & T4).
    + unfold few in *. change (total_finds m3) with (total_finds m2). change (swarm_num m3) with (swarm_num m2).
      change (operator_num m3) with (operator_num m2). by rewrite G1, G2, G3.
    + change (swarm_num m3) with (swarm_num m2). rewrite G2. pose proof (mi_now m I). lia.
    + unfold bind at 1. rewrite E4. exists Pilotfuzzing, m4. split; [done|]. split; [done|].
      unfold grown. rewrite O4, S4, T4. done.
  - exists Corefuzzing, m2. split; [done|]. split; [|done]. apply (inv_of_data m m2 I D2); [done|done|done|].
    rewrite N2, G2. apply I.
Qed.

Lemma eff_row_ok n f2 f c2 c e l x : length f2 = n → length f = n → length c2 = n → length c = n → length e = n → length l = n →
  length x = n → Forall in_unit l → Forall in_unit x →
  ∃ e' l', eff_row n f2 f c2 c e l x = Ok (e', l') ∧ length e' = n ∧ length l' = n ∧ Forall in_unit l'.
Proof.
  revert f2 f c2 c e l x. induction n as [|n IH]; intros f2 f c2 c e l x L1 L2 L3 L4 L5 L6 L7 Hl Hx.
  { apply nil_length_inv in L5 as ->, L6 as ->. by exists [], []. }
  destruct f2 as [|f20 f2], f as [|f_ f], c2 as [|c20 c2], c as [|c0 c], e as [|e0 e], l as [|l0 l], x as [|x0 x]; try done.
  injection L1 as L1. injection L2 as L2. injection L3 as L3. injection L4 as L4. injection L5 as L5. injection L6 as L6. injection L7 as L7.
  apply Forall_cons in Hl as [Hl0 Hl], Hx as [Hx0 Hx]. cbn [eff_row].
  destruct (IH f2 f c2 c e l x L1 L2 L3 L4 L5 L6 L7 Hl Hx) as (e' & l' & -> & Le & Ll & Hl'). cbn [obind fst snd].
  set (eff := if (c0 <? c20)%Z then _ else _). destruct (flt e0 eff).
  - eexists _, _. split; [done|]. split_and!; [cbn; lia|cbn; lia|by constructor].
  - eexists _, _. split; [done|]. split_and!; [cbn; lia|cbn; lia|by constructor].
Qed.

Lemma pilot_period_ok m : mopt_inv m → ∃ m', pilot_period (swarm_now m) m = (Ok (), m') ∧ mopt_data m' ∧
  (∀ i, ready m' i) ∧ swarm_now m' = S (swarm_now m) ∧ grown m m' None.
Proof.
  intros I. pose proof (mi_data m I) as D. pose proof (mi_now m I) as Hn. set (i := swarm_now m) in *.
  destruct (grid_row _ _ _ _ i (md_finds_v2 m D) Hn) as (f2 & Ef2 & Lf2 & Hf2).
  destruct (grid_row _ _ _ _ i (md_finds m D) Hn) as (f & Ef & Lf & _).
  destruct (grid_row _ _ _ _ i (md_cycles_v2 m D) Hn) as (c2 & Ec2 & Lc2 & _).
  destruct (grid_row _ _ _ _ i (md_cycles m D) Hn) as (c & Ec & Lc & _).
  destruct (grid_row _ _ _ _ i (md_eff m D) Hn) as (e & Ee & Le & _).
  destruct (grid_row _ _ _ _ i (md_l m D) Hn) as (l & El & Ll & Hl).
  destruct (grid_row _ _ _ _ i (md_x m D) Hn) as (x & Ex & Lx & Hx).
  unfold pilot_period. rewrite bind_gets. unfold id. cbv zeta. rewrite (md_fitness m D).
  rewrite (proj2 (Nat.leb_gt _ _) Hn). unfold bind at 1. cbn [ret].
  rewrite Ef2, bind_lift, Ef, bind_lift, Ec2, bind_lift, Ec, bind_lift, Ee, bind_lift, El, bind_lift, Ex, bind_lift.
  destruct (eff_row_ok _ f2 f c2 c e l x Lf2 Lf Lc2 Lc Le Ll Lx Hl Hx) as (e' & l' & E & Le' & Ll' & Hl').
  rewrite E, bind_lift, (copy_row_ok _ _ _ Lf2 Lf), bind_lift, (copy_row_ok _ _ _ Lc2 Lc), bind_lift.
  assert (∀ A (v : list A), Forall any v) as Hany by (intros; by apply Forall_forall).
  eexists. split; [done|]. split; [|split; [|split; [done|]]].
  - destruct D. split; try assumption.
    + by apply grid_set.
    + by apply grid_set.
    + etrans; [apply length_insert|done].
    + by apply grid_set.
    + by apply grid_set.
  - exact (mi_ready m I).
  - split_and!; [done|done|]. cbn. lia.
Qed.

Lemma best_swarm_ok i n fit eff best : i + n = length fit → best < i + n → ∃ b, best_swarm i n fit eff best = Ok b ∧ b < i + n.
Proof.
  revert i eff best. induction n as [|n IH]; intros i eff best Hl Hb; cbn [best_swarm]; [by exists best|].
  destruct (lookup_lt_is_Some_2 fit i) as [f Hf]; [lia|]. rewrite Hf. cbn [unwrap obind].
  destruct (fgt f eff).
  - destruct (IH (S i) f i) as (b & -> & ?); [lia|lia|]. exists b. split; [done|lia].
  - destruct (IH (S i) eff best) as (b & -> & ?); [lia|lia|]. exists b. split; [done|lia].
Qed.

Lemma enter_core_ok m : mopt_data m → (∀ i, ready m i) → 0 < swarm_num m →
  ∃ m', enter_core m = (Ok (), m') ∧ mopt_inv m' ∧ grown m m' None.
Proof.
  intros D R Hs. destruct (md_core_cycles m D) as (Lc & Lc2 & Lc3), (md_core_v2 m D) as [Lf2 Hf2], (md_core m D) as [Lf Hf].
  unfold enter_core. rewrite bind_gets. unfold id. cbv zeta.
  rewrite (copy_row_ok _ _ _ Lc Lc2), bind_lift, (copy_row_ok _ _ _ Lc Lc3), bind_lift, (copy_row_ok _ _ _ Lf Lf2), bind_lift.
  destruct (best_swarm_ok 0 (swarm_num m) (swarm_fitness m) f0 0) as (b & -> & Hb); [by rewrite (md_fitness m D)|lia|].
  rewrite bind_lift. eexists. split; [done|]. split; [|split_and!; [done|done|cbn; lia]]. split.
  - destruct D. split; try assumption; by split_and!.
  - exact R.
  - cbn. lia.
Qed.

Lemma pilot_post_ok diff m : mopt_inv m → diff_ok m diff →
  ∃ md m', pilot_post diff m = (Ok md, m') ∧ mopt_inv m' ∧ grown m m' diff.
Proof.
  intros I [Hd Hfew]. pose proof (mi_data m I) as D0. unfold pilot_post. rewrite bind_modify, bind_gets. unfold id. cbv zeta.
  set (m1 := m <| pilot_time := _ |>). assert (mopt_data m1) as D1 by (destruct D0; by split).
  pose proof (md_total m D0) as HT. change (swarm_now m1) with (swarm_now m). change (operator_num m1) with (operator_num m).
  assert (∃ m2, (match diff with
     | None => ret ()
     | Some diff =>
       c2 <- lift (rows (pilot_operator_cycles_v2 m1) (swarm_now m)) ;;
       c3 <- lift (rows (pilot_operator_cycles_v3 m1) (swarm_now m)) ;;
       f2 <- lift (rows (pilot_operator_finds_v2 m1) (swarm_now m)) ;;
       f <- lift (credit_row (operator_num m) c2 c3 f2 diff) ;;
       modify (λ m', m' <| total_finds := wrap64 (total_finds m' + diff) |>
                        <| pilot_operator_finds_v2 := <[swarm_now m := f]> (pilot_operator_finds_v2 m') |>)
     end) m1 = (Ok (), m2) ∧ mopt_inv m2 ∧ grown m m2 diff ∧ swarm_now m2 = swarm_now m) as (m2 & E2 & I2 & (G1 & G2 & G3) & N2).
  { destruct diff as [d|].
    2:{ exists m1. split; [done|]. split; [by apply (inv_of_data m m1 I D1), I|]. split; [|done].
        split_and!; [done|done|]. change (total_finds m = total_finds m + 0)%Z. lia. }
    unfold gain in *. cbn [default from_option id] in *. pose proof (mi_now m I) as Hn.
    destruct (grid_row _ _ _ _ _ (md_cycles_v2 m1 D1) Hn) as (c2 & Ec2 & Lc2 & _). rewrite Ec2, bind_lift.
    destruct (grid_row _ _ _ _ _ (md_cycles_v3 m1 D1) Hn) as (c3 & Ec3 & Lc3 & _). rewrite Ec3, bind_lift.
    destruct (grid_row _ _ _ _ _ (md_finds_v2 m1 D1) Hn) as (f2 & Ef2 & Lf2 & Hf2). rewrite Ef2, bind_lift.
    pose proof (few_small m (total_finds m + d) D0 ltac:(lia) Hfew) as Hu.
    destruct (credit_row_ok _ _ _ _ d (total_finds m) Lc2 Lc3 Lf2 Hd Hu Hf2) as (f' & Ef & Lf' & Hf').
    change (operator_num m1) with (operator_num m) in Ef, Lf'. rewrite Ef, bind_lift. eexists. split; [done|].
    assert (wrap64 (total_finds m1 + d) = total_finds m + d)%Z as Ew by (by apply wrap64_small). rewrite Ew.
    split; [|by split_and!]. apply (inv_of_data m); [done| |done|done|done|exact Hn].
    pose proof (data_total m1 (total_finds m + d) D1 ltac:(change (total_finds m1) with (total_finds m); lia)) as D2.
    pose proof (md_finds_v2 _ D2) as G. destruct D2. split; try assumption. by apply grid_set. }
  unfold bind at 1. rewrite E2, bind_gets. destruct (period_pilot m2 <? pilot_time m2)%Z.
  2:{ exists Pilotfuzzing, m2. by split_and!. }
  destruct (pilot_period_ok m2 I2) as (m3 & E3 & D3 & R3 & N3 & (G4 & G5 & G6)). cbn in G6. rewrite Z.add_0_r in G6.
  rewrite <-N2. unfold bind at 1. rewrite E3, bind_gets. pose proof (mi_now m2 I2) as Hn2.
  assert (grown m m3 diff) as Hg by (unfold grown; rewrite G4, G5, G6; done).
  destruct (Nat.eqb_spec (swarm_num m3) 1) as [E1|Hne].
  - destruct (pso_update_ok m3 D3) as (m4 & E4 & I4 & O4 & S4 & T4).
    + unfold few in *. by rewrite G4, G5, G6, G1, G2, G3.
    + lia.
    + unfold bind at 1. rewrite E4. exists Pilotfuzzing, m4. split; [done|]. split; [done|].
      unfold grown. rewrite O4, S4, T4. exact Hg.
  - destruct (Nat.eqb_spec (swarm_now m3) (swarm_num m3)) as [Eq|Hneq].
    + destruct (enter_core_ok m3 D3 R3 ltac:(lia)) as (m4 & E4 & I4 & (O4 & S4 & T4)). unfold bind at 1. rewrite E4.
      exists Corefuzzing, m4. split; [done|]. split; [done|]. cbn in T4. unfold grown. rewrite O4, S4, T4, Z.add_0_r. exact Hg.
    + exists Pilotfuzzing, m3. split; [done|]. split; [|done]. split; [done|done|]. rewrite N3, G5 in *. lia.
Qed.

(** ** Mutating *)

Section Mutating.
Context (little : bool).

(** Only the generator and the metadata of the swarm move. *)
Definition moved (s s' : State) : Prop := s' = s <| rand := rand s' |> <| m_mopt := m_mopt s' |> ∧ rand_inv (rand s').

Lemma moved_refl s : rand_inv (rand s) → moved s s.
Proof. intros. split; [by destruct s|done]. Qed.
Lemma moved_drawn s0 s s' : moved s0 s → drawn s s' → moved s0 s' ∧ m_mopt s' = m_mopt s.
Proof. intros [-> _] [-> Hr]. done. Qed.
Lemma moved_mopt s0 s m : moved s0 s → moved s0 (s <| m_mopt := m |>).
Proof. intros [-> Hr]. split; [done|exact Hr]. Qed.
Lemma moved_ok s0 s : moved s0 s → mut_ok s0 → tokens_ok s0 → cmps_ok s0 → mut_ok s ∧ tokens_ok s ∧ cmps_ok s.
Proof. intros [-> Hr] [] Ht Hc. split_and!; [by split|exact Ht|exact Hc]. Qed.
Lemma moved_step s0 s ms l l' : moved s0 s → step_of little s ms l l' → step_of little s0 ms l l'.
Proof. by intros [-> _]. Qed.
Lemma moved_max s0 s : moved s0 s → max_size s = max_size s0.
Proof. by intros [-> _]. Qed.

(** The swarm of a state, for [ops] operators. *)
Definition swarm_at (s : State) (ops : nat) (m : MOpt) : Prop := m_mopt s = Some m ∧ mopt_inv m ∧ operator_num m = ops.
(** Steps of the swarm that count cycles only. *)
Definition counting (m m' : MOpt) : Prop :=
  operator_num m' = operator_num m ∧ swarm_num m' = swarm_num m ∧ swarm_now m' = swarm_now m ∧ total_finds m' = total_finds m.

Lemma inc_at_ok i v : i < length v → ∃ v', inc_at i v = Ok v' ∧ length v' = length v.
Proof.
  intros Hi. destruct (lookup_lt_is_Some_2 v i Hi) as [k Hk]. unfold inc_at. rewrite Hk. cbn [unwrap obind].
  eexists. split; [done|]. apply length_insert.
Qed.
Lemma count_core_ok i m : mopt_inv m → i < operator_num m → ∃ m', count_core i m = (Ok (), m') ∧ mopt_inv m' ∧ counting m m'.
Proof.
  intros I Hi. pose proof (mi_data m I) as D. destruct (md_core_cycles m D) as (Lc & Lc2 & Lc3).
  unfold count_core. rewrite bind_gets. unfold id. destruct (inc_at_ok i (core_operator_cycles_v2 m)) as (c & -> & L); [lia|].
  rewrite bind_lift. eexists. split; [done|]. split; [|done]. apply (inv_of_data m); [done| |done|done|done|apply I].
  destruct D. split; try assumption. split_and!; [done|etrans; [exact L|done]|done].
Qed.
Lemma count_pilot_ok sw i m : mopt_inv m → sw < swarm_num m → i < operator_num m →
  ∃ m', count_pilot sw i m = (Ok (), m') ∧ mopt_inv m' ∧ counting m m'.
Proof.
  intros I Hs Hi. pose proof (mi_data m I) as D. destruct (grid_row _ _ _ _ _ (md_cycles_v2 m D) Hs) as (c2 & Ec2 & Lc2 & _).
  unfold count_pilot. rewrite bind_gets. unfold id. rewrite Ec2, bind_lift. destruct (inc_at_ok i c2) as (c & -> & L); [lia|].
  rewrite bind_lift. eexists. split; [done|]. split; [|done]. apply (inv_of_data m); [done| |done|done|done|apply I].
  destruct D. split; try assumption. apply grid_set; [done|by etrans|by apply Forall_forall].
Qed.

Lemma schedule_ok s m : m_mopt s = Some m → mopt_inv m →
  ∃ i m', mopt_schedule s = (Ok i, s <| m_mopt := Some m' |>) ∧ i < operator_num m ∧ mopt_inv m' ∧ counting m m'.
Proof.
  intros E I. destruct (select_ok m I) as (i & r' & p & a & Es & Hr & Hi & _). unfold mopt_schedule, with_mopt. rewrite E, Es.
  eexists i, _. split; [done|]. split; [done|]. split; [|done]. apply (inv_of_data m); [done| |done|done|done|apply I].
  pose proof (mi_data m I) as D. destruct D. by split.
Qed.

(** A stack of mutations, with the operators counted. *)
Lemma mopt_loop_ok s0 count num r ms l0 l s m :
  mut_ok s0 → tokens_ok s0 → cmps_ok s0 → ms ≠ [] → known_size l → moved s0 s → m_mopt s = Some m → mopt_inv m →
  (∀ i m', counting m m' → mopt_inv m' → i < operator_num m' → ∃ m'', count i m' = (Ok (), m'') ∧ mopt_inv m'' ∧ counting m' m'') →
  rtc (step_of little s0 ms) l0 l → bounded s0 l0 l → (r = Skipped → l = l0) →
  ∃ ms' r' l' s' m', mopt_loop little num count r ms l s = (Ok (ms', (r', l')), s') ∧ moved s0 s' ∧ m_mopt s' = Some m' ∧
    mopt_inv m' ∧ counting m m' ∧ Forall2 same_mutator ms ms' ∧ rtc (step_of little s0 ms) l0 l' ∧ bounded s0 l0 l' ∧
    (r' = Skipped → l' = l0).
Proof.
  intros Hok Ht Hc. revert r ms l s m. induction num as [|num IH]; intros r ms l s m Hne Hl Hmv Em I Hcnt Hreach Hb Hr; cbn [mopt_loop].
  { exists ms, r, l, s, m. split_and!; done. }
  destruct (schedule_ok s m Em I) as (i & m1 & E1 & Hi & I1 & K1). unfold bind at 1. rewrite E1.
  set (s1 := s <| m_mopt := Some m1 |>). pose proof (moved_mopt s0 s (Some m1) Hmv) as Hmv1. fold s1 in Hmv1.
  destruct (moved_ok s0 s1 Hmv1 Hok Ht Hc) as (Hok1 & Ht1 & Hc1).
  destruct (get_and_mutate_draws little s1 Hok1 Ht1 Hc1 i ms l Hl s1) as ([ms' [o l']] & s2 & E2 & Hd2 & Hms & Ho);
    [by apply drawn_refl, mok_rand|]. unfold bind at 1. rewrite E2. cbn [fst snd] in *.
  destruct (moved_drawn s0 s1 s2 Hmv1 Hd2) as [Hmv2 Em2]. cbn in Em2.
  destruct K1 as (K11 & K12 & K13 & K14).
  destruct (Hcnt i m1) as (m2 & E3 & I2 & (K21 & K22 & K23 & K24)); [done|done|by rewrite K11|].
  unfold bind at 1. unfold with_mopt at 1. rewrite Em2, E3. set (s3 := s2 <| m_mopt := Some m2 |>).
  pose proof (moved_mopt s0 s2 (Some m2) Hmv2) as Hmv3. fold s3 in Hmv3.
  assert (rtc (step_of little s0 ms) l0 l' ∧ bounded s0 l0 l' ∧ known_size l' ∧ (o = Skipped → l' = l)) as (Hreach' & Hb' & Hl' & Ho').
  { destruct o; [destruct Ho as [Hs Hbd]|subst l'; done]. unfold bounded in Hbd. assert (max_size s1 = max_size s0) as Emax by exact (moved_max s0 s1 Hmv1). rewrite Emax in Hbd.
    split; [exact (rtc_r _ _ _ Hreach (moved_step s0 s1 ms l l' Hmv1 Hs))|]. split; [unfold bounded in *; lia|]. split; [by eapply (bounded_known s0)|done]. }
  assert (∀ x y, step_of little s0 ms x y → step_of little s0 ms' x y) as Hsub.
  { intros x y (mu & Hin & He). apply list_elem_of_lookup in Hin as [j Hj].
    destruct (Forall2_lookup_l _ _ _ _ _ Hms Hj) as (mu' & Hm' & Hsm). exists mu'. split; [by eapply list_elem_of_lookup_2|].
    by apply (same_effect little s0 mu mu'). }
  assert (ms' ≠ []) as Hne' by (intros ->; by apply Forall2_nil_inv_r in Hms).
  destruct (IH (if bool_decide (o = Mutated) then Mutated else r) ms' l' s3 m2)
    as (ms'' & r'' & l'' & s' & m' & E4 & Hmv4 & Em4 & I4 & (K31 & K32 & K33 & K34) & Hms4 & Hreach4 & Hb4 & Hr4);
    [done|done|done|done|done| |by eapply rtc_subrel|done| |].
  { intros j m' (Q1 & Q2 & Q3 & Q4) Hj. apply Hcnt; [|done]. split_and!; congruence. }
  { case_bool_decide; [done|]. intros ->. rewrite Ho' by (by destruct o). auto. }
  exists ms'', r'', l'', s', m'. do 4 (split; [done|]). split; [unfold counting; split_and!; congruence|]. split; [by etrans|].
  split; [|done]. eapply rtc_subrel; [|exact Hreach4]. intros x y. by apply same_step.
Qed.

Lemma pilot_start_ok m : mopt_inv m → ∃ m', pilot_start m = (Ok (swarm_now m), m') ∧ mopt_inv m' ∧ counting m m'.
Proof.
  intros I. pose proof (mi_data m I) as D. pose proof (mi_now m I) as Hn.
  destruct (grid_row _ _ _ _ _ (md_cycles_v2 m D) Hn) as (c2 & Ec2 & Lc2 & _).
  destruct (grid_row _ _ _ _ _ (md_cycles_v3 m D) Hn) as (c3 & Ec3 & Lc3 & _).
  unfold pilot_start. rewrite bind_gets. unfold id. cbv zeta. rewrite Ec2, bind_lift, Ec3, bind_lift, (copy_row_ok _ _ _ Lc2 Lc3), bind_lift, bind_modify.
  eexists. split; [done|]. split; [|done]. apply (inv_of_data m); [done| |done|done|done|done].
  destruct D. split; try assumption. apply grid_set; [done|done|by apply Forall_forall].
Qed.
Lemma core_start_ok m : mopt_inv m → ∃ m', core_start m = (Ok (), m') ∧ mopt_inv m' ∧ counting m m'.
Proof.
  intros I. pose proof (mi_data m I) as D. destruct (md_core_cycles m D) as (Lc & Lc2 & Lc3).
  unfold core_start. rewrite bind_gets. unfold id. rewrite (copy_row_ok _ _ _ Lc2 Lc3), bind_lift.
  eexists. split; [done|]. split; [|done]. apply (inv_of_data m); [done| |done|done|done|apply I].
  destruct D. split; try assumption. by split_and!.
Qed.

Definition mutates (self : StdMOptMutator) (l : bytes) (s : State) (m : MOpt)
    (q : outcome Error (StdMOptMutator * (MutationResult * bytes)) * State) : Prop :=
  ∃ self' r l' s' m', q = (Ok (self', (r, l')), s') ∧ moved s s' ∧ m_mopt s' = Some m' ∧ mopt_inv m' ∧ counting m m' ∧
    mode self' = mode self ∧ finds_before self' = finds_before self ∧ mm_max_stack_pow self' = mm_max_stack_pow self ∧
    Forall2 same_mutator (mm_mutations self) (mm_mutations self') ∧
    rtc (step_of little s (mm_mutations self)) l l' ∧ bounded s l l' ∧ (r = Skipped → l' = l).

(** What [core_mutate] and [pilot_mutate] share, after their first step. *)
Lemma mutates_ok self l s m (count : nat → M MOpt ()) s1 m1 :
  mut_ok s → tokens_ok s → cmps_ok s → known_size l → mm_mutations self ≠ [] → mm_max_stack_pow self ≤ 63 →
  mopt_inv m1 → counting m m1 → s1 = s <| m_mopt := Some m1 |> →
  (∀ i m', counting m1 m' → mopt_inv m' → i < operator_num m' → ∃ m'', count i m' = (Ok (), m'') ∧ mopt_inv m'' ∧ counting m' m'') →
  mutates self l s m ((num <- iterations (mm_max_stack_pow self) ;;
    r <- mopt_loop little num count Skipped (mm_mutations self) l ;;
    ret (self <| mm_mutations := r.1 |>, r.2)) s1).
Proof.
  intros Hok Ht Hc Hl Hne Hpow I1 (K1 & K2 & K3 & K4) -> Hcnt. set (s1 := s <| m_mopt := Some m1 |>).
  assert (moved s s1) as Hmv by (apply moved_mopt, moved_refl, Hok).
  destruct (moved_ok s s1 Hmv Hok Ht Hc) as (Hok1 & Ht1 & Hc1).
  destruct (iterations_draws s1 (mm_max_stack_pow self) Hpow s1) as (num & s2 & E2 & Hd & _); [apply drawn_refl, Hok1|].
  destruct (moved_drawn s s1 s2 Hmv Hd) as [Hmv2 Em2]. cbn in Em2. unfold bind at 1. rewrite E2.
  destruct (mopt_loop_ok s count num Skipped (mm_mutations self) l l s2 m1) as
    (ms' & r' & l' & s' & m' & E & Hmv3 & Em3 & I3 & (Q1 & Q2 & Q3 & Q4) & Hms & Hreach & Hb & Hr);
    [done|done|done|done|done|done|done|done|done|done|unfold bounded; lia|done|].
  unfold bind at 1. rewrite E. exists (self <| mm_mutations := ms' |>), r', l', s', m'. do 4 (split; [done|]).
  split; [unfold counting; split_and!; congruence|]. by do 3 (split; [done|]).
Qed.
End Mutating.

(** One mutation. *)
Lemma mopt_mutate_ok little s self l m : mut_ok s → tokens_ok s → cmps_ok s → known_size l →
  mm_mutations self ≠ [] → mm_max_stack_pow self ≤ 63 → m_mopt s = Some m → mopt_inv m →
  mutates little (self <| finds_before := found s |>) l s m (mopt_mutate little self l s).
Proof.
  intros Hok Ht Hc Hl Hne Hpow Em I. unfold mopt_mutate. rewrite bind_gets. cbv zeta.
  set (self' := self <| finds_before := found s |>). destruct (mode self') eqn:Emode.
  - unfold pilot_mutate. destruct (pilot_start_ok m I) as (m1 & E1 & I1 & K1).
    unfold bind at 1. unfold with_mopt at 1. rewrite Em, E1. apply (mutates_ok little self' l s m (count_pilot (swarm_now m)) _ m1);
      [done|done|done|done|done|done|done|done|done|].
    intros i m' (Q1 & Q2 & Q3 & Q4) I' Hi. destruct K1 as (P1 & P2 & P3 & P4).
    apply count_pilot_ok; [done| |done]. pose proof (mi_now m I). congruence.
  - unfold core_mutate. destruct (core_start_ok m I) as (m1 & E1 & I1 & K1).
    unfold bind at 1. unfold with_mopt at 1. rewrite Em, E1. apply (mutates_ok little self' l s m count_core _ m1);
      [done|done|done|done|done|done|done|done|done|].
    intros i m' _ I' Hi. by apply count_core_ok.
Qed.

(** What follows an execution. *)
Lemma mopt_post_ok s self m : m_mopt s = Some m → mopt_inv m →
  few m (total_finds m + Z.max 0 (found s - finds_before self)) →
  ∃ self' m', mopt_post_exec self s = (Ok self', s <| m_mopt := Some m' |>) ∧ mopt_inv m' ∧
    operator_num m' = operator_num m ∧ swarm_num m' = swarm_num m ∧
    total_finds m' = (total_finds m + Z.max 0 (found s - finds_before self))%Z ∧
    mm_mutations self' = mm_mutations self ∧ mm_max_stack_pow self' = mm_max_stack_pow self.
Proof.
  intros Em I Hfew. unfold mopt_post_exec. rewrite bind_gets. cbv zeta.
  set (diff := if (finds_before self <? found s)%Z then _ else _).
  assert (gain diff = Z.max 0 (found s - finds_before self)) as Eg
    by (unfold diff; destruct (Z.ltb_spec (finds_before self) (found s)); cbn; lia).
  assert (diff_ok m diff) as Hd by (split; rewrite Eg; [lia|done]).
  assert (∃ md m', (match mode self with Corefuzzing => core_post diff | Pilotfuzzing => pilot_post diff end) m = (Ok md, m') ∧
    mopt_inv m' ∧ grown m m' diff) as (md & m' & E & I' & (G1 & G2 & G3)).
  { destruct (mode self); [by apply pilot_post_ok|by apply core_post_ok]. }
  unfold bind at 1. unfold with_mopt at 1. rewrite Em, E. eexists _, m'. split; [done|]. rewrite Eg in G3. done.
Qed.

(** ** The theorems *)

(** [StdMOptMutator::new] on a state without a swarm: it is initialised, with sorted probabilities for every
    swarm that end near one, so that the check of [pso_initialize] passes. *)
Theorem mopt_new_spec s ms pow swarms : m_mopt s = None → rand_inv (rand s) → 0 < length ms ≤ 1024 → 0 < swarms →
  ∃ s' m, StdMOptMutator_new ms pow swarms s = (Ok (mkMOptMutator Pilotfuzzing 0 ms pow), s') ∧
    moved s s' ∧ swarm_at s' (length ms) m ∧ swarm_num m = swarms ∧ total_finds m = 0%Z.
Proof.
  intros Hn Hr Hlen Hsw. unfold StdMOptMutator_new. rewrite bind_gets, Hn.
  destruct (draws_next s s (drawn_refl s Hr)) as (seed & s1 & E1 & Hd & Hu).
  destruct (MOpt_new_ok (length ms) swarms seed Hlen Hsw Hu) as (m & Em & I & E2 & E3 & E4).
  unfold bind at 1. unfold bind at 1. rewrite E1, Em, bind_lift. eexists _, m. split; [done|].
  split; [apply moved_mopt; by apply (moved_drawn s s s1 (moved_refl s Hr))|]. done.
Qed.

(** The choice of an operator: the swarm's consistency checks never fire, and the operator is the
    one whose share of the probabilities the draw falls into. *)
Theorem mopt_select_spec m : mopt_inv m →
  ∃ i m', select_algorithm m = (Ok i, m') ∧ mopt_inv m' ∧ i < operator_num m ∧
    ∃ p a t, probability_now m !! swarm_now m = Some p ∧ p !! i = Some a ∧ flt t a = true ∧
      ∀ h c, h < i → p !! h = Some c → fle c t = true.
Proof.
  intros I. destruct (select_ok m I) as (i & r' & p & a & E & Hr & Hi & Ep & Ea & t & _ & Hta & Hh).
  eexists i, _. split; [exact E|]. split; [|split; [done|by exists p, a, t]].
  apply (inv_of_data m); [done| |done|done|done|apply I]. pose proof (mi_data m I) as D. destruct D. by split.
Qed.

(** C25. One mutation of the power stage, in either mode, as long as the dictionary has no empty token, both operands of every
    logged comparison of bytes have the same length, and the corpus is not empty and has its inputs in memory: no panic (the
    [unwrap] of the chosen operator included), every step of the stack is an edit of one of the mutators, the size stays within its limit, "skipped" leaves
    the input alone, and the swarm keeps its invariant. *)
Theorem mopt_mutate_safe little s self l m : mut_ok s → tokens_ok s → cmps_ok s → known_size l →
  mm_mutations self ≠ [] → mm_max_stack_pow self ≤ 63 → m_mopt s = Some m → mopt_inv m →
  mutates little (self <| finds_before := found s |>) l s m (mopt_mutate little self l s).
Proof. apply mopt_mutate_ok. Qed.

(** C26. Learning from an execution: the finds are counted, the periods and modes advance, and when the particles
    move their probabilities pass the check, so that the stage never fails here; the swarm keeps its
    invariant as long as the finds can be summed exactly. *)
Theorem mopt_post_exec_safe s self m : m_mopt s = Some m → mopt_inv m →
  few m (total_finds m + Z.max 0 (found s - finds_before self)) →
  ∃ self' m', mopt_post_exec self s = (Ok self', s <| m_mopt := Some m' |>) ∧ mopt_inv m' ∧
    operator_num m' = operator_num m ∧ swarm_num m' = swarm_num m ∧
    total_finds m' = (total_finds m + Z.max 0 (found s - finds_before self))%Z ∧
    mm_mutations self' = mm_mutations self ∧ mm_max_stack_pow self' = mm_max_stack_pow self.
Proof. apply mopt_post_ok. Qed.

(** ** A concrete swarm *)

Definition demo_mopt : outcome Error StdMOptMutator * State := StdMOptMutator_new bofuzz_mutations 7 5 demo_mut.

Lemma mopt_new_spec_witness : ∃ s' m, demo_mopt = (Ok (mkMOptMutator Pilotfuzzing 0 bofuzz_mutations 7), s') ∧
  moved demo_mut s' ∧ swarm_at s' 29 m ∧ swarm_num m = 5 ∧ total_finds m = 0%Z.
Proof.
  apply (mopt_new_spec demo_mut bofuzz_mutations 7 5); [done|apply demo_mut_ok|cbn; lia|lia].
Defined.

Lemma demo_swarm : ∃ m, swarm_at (demo_mut <| m_mopt := Some m |>) 29 m ∧ total_finds m = 0%Z ∧ swarm_num m = 5.
Proof.
  destruct (MOpt_new_ok 29 5 7 ltac:(lia) ltac:(lia) ltac:(by vm_compute)) as (m & _ & I & E1 & E2 & E3). exists m. done.
Qed.

Lemma mopt_select_spec_witness : ∃ m i m', mopt_inv m ∧ select_algorithm m = (Ok i, m') ∧ i < 29.
Proof.
  destruct demo_swarm as (m & (_ & I & E1) & _). destruct (mopt_select_spec m I) as (i & m' & E & _ & Hi & _).
  exists m, i, m'. rewrite E1 in Hi. split; [exact I|]. split; [exact E|exact Hi].
Defined.

Lemma mopt_mutate_safe_witness : ∃ m self', mutates true self' [Byte.x61; Byte.x62; Byte.x63] (demo_mut <| m_mopt := Some m |>) m
  (mopt_mutate true (mkMOptMutator Corefuzzing 0 bofuzz_mutations 7) [Byte.x61; Byte.x62; Byte.x63] (demo_mut <| m_mopt := Some m |>)).
Proof.
  destruct demo_swarm as (m & (_ & I & E1) & _). destruct demo_state_satisfies as (Hok & Ht & Hc). eexists m, _.
  apply (mopt_mutate_safe true (demo_mut <| m_mopt := Some m |>) (mkMOptMutator Corefuzzing 0 bofuzz_mutations 7)).
  - destruct Hok. split; assumption.
  - exact Ht.
  - exact Hc.
  - by vm_compute.
  - discriminate.
  - cbn. lia.
  - reflexivity.
  - exact I.
Defined.

Lemma mopt_post_exec_safe_witness : ∃ m self' m',
  mopt_post_exec (mkMOptMutator Pilotfuzzing 1 bofuzz_mutations 7) (demo_mut <| m_mopt := Some m |>) =
    (Ok self', demo_mut <| m_mopt := Some m |> <| m_mopt := Some m' |>) ∧ total_finds m' = 1%Z.
Proof.
  destruct demo_swarm as (m & (_ & I & E1) & E2 & E3).
  destruct (mopt_post_exec_safe (demo_mut <| m_mopt := Some m |>) (mkMOptMutator Pilotfuzzing 1 bofuzz_mutations 7) m)
    as (self' & m' & E & _ & _ & _ & Et & _).
  - reflexivity.
  - exact I.
  - unfold few. rewrite E1, E2, E3. vm_compute. reflexivity.
  - exists m, self', m'. split; [exact E|]. rewrite Et, E2. vm_compute. reflexivity.
Defined.
