(* ===== verification/Stages.v ===== *)
(** * Stages: [libafl/src/stages/mod.rs], [libafl/src/state/stack.rs]

    The stages of a round run one after the other; the state remembers the stage that is running, so that
    a fuzzer that died in the middle of a stage goes on with that stage, and every stage counts how often it
    was tried on an entry and gives the entry up in the end.

    [W] is the rest of the fuzzer, with the objects of the stages; a stage has a name, its [perform], and its way to say
    whether it is to run: most stages count the tries on an entry, but the two of BOFuzz decide by themselves, and the accounting stage always
    against.  A process that dies in a stage leaves the state as an error of the stage does: neither the
    progress of the stage nor the stage id is cleared. *)

From Stdlib Require Import Lia.
From S2P Require Import Prelude Corpus Metadata.

(** ** [stack.rs]: the stages that are running *)

Record StageStack := mkStageStack {
  stage_idx_stack : list nat;
  stage_depth : usize;
}.
#[global] Instance eta_StageStack : Eta StageStack := λ r, mkStageStack (stage_idx_stack r) (stage_depth r).
Definition StageStack_default : StageStack := mkStageStack [] 0.

Definition stack_set (idx : nat) (k : StageStack) : outcome Error StageStack :=
  if negb (stage_depth k =? length (stage_idx_stack k)) then
    Err (illegal_state "stage not resumed before setting stage" [])
  else Ok (k <| stage_idx_stack := stage_idx_stack k ++ [idx] |>).
Definition stack_clear (k : StageStack) : StageStack :=
  k <| stage_idx_stack := take (stage_depth k) (stage_idx_stack k) |>.
Definition stack_current (k : StageStack) : option nat := stage_idx_stack k !! stage_depth k.
Definition stack_on_restart (k : StageStack) : StageStack := k <| stage_depth := 0 |>.

(** ** The progress of a stage *)

Record RetryCountRestartHelper := mkRetry {
  tries_remaining : option usize;
  skipped : gset CorpusId;
}.
#[global] Instance eta_Retry : Eta RetryCountRestartHelper := λ r, mkRetry (tries_remaining r) (skipped r).

(** What the stages need of the rest: the current entry, the stop request, and [on_shutdown] of the event manager. *)
Class StageHost (W : Type) := {
  host_corpus_id : W → option CorpusId;
  host_stop : W → bool;
  host_discard_stop : W → W;
  host_shutdown : W → outcome Error ();
}.

Record Staged (W : Type) := mkStaged {
  host : W;
  stage_stack : StageStack;
  restart_helpers : gmap string RetryCountRestartHelper;
}.
Arguments mkStaged {W} _ _ _.
Arguments host {W} _.
Arguments stage_stack {W} _.
Arguments restart_helpers {W} _.
#[global] Instance eta_Staged W : Eta (Staged W) := λ r, mkStaged (host r) (stage_stack r) (restart_helpers r).

(** How a stage implements [should_restart] and [clear_progress]: with a [RetryCountRestartHelper] under its name, or by a decision of its
    own on the state and with nothing to clear. *)
Inductive Restarts (W : Type) :=
| Retries (max_retries : usize)
| Own (decision : M W bool).
Arguments Retries {W} _.
Arguments Own {W} _.

Record Stage (W : Type) := mkStage {
  st_name : string;
  st_restarts : Restarts W;
  st_perform : M W ();
}.
Arguments mkStage {W} _ _ _.
Arguments st_name {W} _.
Arguments st_restarts {W} _.
Arguments st_perform {W} _.

Section Stages.
Context {W : Type} `{StageHost W}.

(** A step of the rest of the fuzzer. *)
Definition on_host {A} (m : M W A) : M (Staged W) A := λ w,
  let '(r, h) := m (host w) in (r, w <| host := h |>).

Definition set_current_stage_id (idx : nat) : M (Staged W) () := λ w,
  match stack_set idx (stage_stack w) with
  | Ok k => (Ok (), w <| stage_stack := k |>)
  | Err e => (Err e, w)
  | Panic => (Panic, w)
  end.
Definition clear_stage_id : M (Staged W) () := modify (λ w, w <| stage_stack := stack_clear (stage_stack w) |>).
Definition current_stage_id : M (Staged W) (option nat) := gets (λ w, stack_current (stage_stack w)).
(** A process that was started again. *)
Definition on_restart (w : Staged W) : Staged W := w <| stage_stack := stack_on_restart (stage_stack w) |>.

(** ** [RetryCountRestartHelper] *)

Definition should_restart (name : string) (max_retries : usize) : M (Staged W) bool :=
  cur <- gets (λ w, host_corpus_id (host w)) ;;
  id <- lift (ok_or cur (illegal_state
    "No current_corpus_id set in State, but called RetryCountRestartHelper::should_skip" [])) ;;
  let initial_tries_remaining := max_retries + 1 in
  modify (λ w, match restart_helpers w !! name with
               | Some _ => w
               | None => w <| restart_helpers :=
                   <[name := mkRetry (Some initial_tries_remaining) ∅]> (restart_helpers w) |>
               end) ;;;
  hs <- gets restart_helpers ;;
  metadata <- lift (unwrap (hs !! name)) ;;
  tries <- lift (match default initial_tries_remaining (tries_remaining metadata) with
                 | S n => Ok n
                 | O => Err (illegal_state
                     "Attempted further retries after we had already gotten to none remaining." [])
                 end) ;;
  let metadata := metadata <| tries_remaining := Some tries |> in
  let metadata' := if tries =? 0 then metadata <| skipped := {[id]} ∪ skipped metadata |> else metadata in
  modify (λ w, w <| restart_helpers := <[name := metadata']> (restart_helpers w) |>) ;;;
  ret (negb (tries =? 0) && negb (bool_decide (id ∈ skipped metadata))).

(** One try. *)
Definition no_retry (name : string) : M (Staged W) bool := should_restart name 1.

Definition clear_progress (name : string) : M (Staged W) () :=
  hs <- gets restart_helpers ;;
  metadata <- lift (ok_or (hs !! name) (key_not_found "{} not found" [AStr name])) ;;
  modify (λ w, w <| restart_helpers := <[name := metadata <| tries_remaining := None |>]> (restart_helpers w) |>).

(** ** The trait [Stage] and the tuples of stages *)

Definition stage_should_restart (st : Stage W) : M (Staged W) bool :=
  match st_restarts st with
  | Retries max_retries => should_restart (st_name st) max_retries
  | Own decision => on_host decision
  end.
Definition stage_clear_progress (st : Stage W) : M (Staged W) () :=
  match st_restarts st with
  | Retries _ => clear_progress (st_name st)
  | Own _ => ret ()
  end.

Definition perform_restartable (st : Stage W) : M (Staged W) () :=
  b <- stage_should_restart st ;;
  (if (b : bool) then on_host (st_perform st) else ret ()) ;;;
  stage_clear_progress st.

(** Between two stages. *)
Definition check_stop : M (Staged W) () :=
  stop <- gets (λ w, host_stop (host w)) ;;
  if (stop : bool) then
    modify (λ w, w <| host := host_discard_stop (host w) |>) ;;;
    h <- gets host ;;
    lift (host_shutdown h) ;;;
    throw ShuttingDown
  else ret ().

(** The id of a stage is the number of stages from it to the end. *)
Fixpoint perform_all (stages : list (Stage W)) : M (Staged W) () :=
  match stages with
  | [] =>
    cur <- current_stage_id ;;
    match cur with
    | Some _ => throw (illegal_state "Got to the end of the tuple without completing resume." [])
    | None => ret ()
    end
  | stage :: tail =>
    let LEN := length stages in
    cur <- current_stage_id ;;
    match cur with
    | Some idx =>
      if idx <? LEN then ret ()
      else if idx =? LEN then perform_restartable stage ;;; clear_stage_id
      else panic
    | None => set_current_stage_id LEN ;;; perform_restartable stage ;;; clear_stage_id
    end ;;;
    check_stop ;;;
    perform_all tail
  end.

(** A boxed vector of stages: no stage id, and the stop request is looked at before each stage. *)
Fixpoint vec_perform_all (stages : list (Stage W)) : M (Staged W) () :=
  match stages with
  | [] => ret ()
  | x :: stages => check_stop ;;; perform_restartable x ;;; vec_perform_all stages
  end.

(** Sessions of the fuzzer on one entry: when one ends early, at most [n] times another is started. *)
Fixpoint sessions (n : nat) (stages : list (Stage W)) (w : Staged W) : outcome Error () * Staged W :=
  let '(r, w') := perform_all stages w in
  match r, n with
  | Ok (), _ | _, O => (r, w')
  | _, S n => sessions n stages (on_restart w')
  end.
End Stages.

(** ** One stage *)

Section Facts.
Context {W : Type} `{StageHost W}.
Implicit Types w : Staged W.
Implicit Types st : Stage W.

(** The entries a stage has given up, and whether it is between two rounds. *)
Definition skip_of w name : gset CorpusId := from_option skipped ∅ (restart_helpers w !! name).
Definition clean w name : Prop := ∀ m, restart_helpers w !! name = Some m → tries_remaining m = None.
(** The retries of a stage that counts them, and the tries that it has left. *)
Definition st_retries st : nat := match st_restarts st with Retries n => n | Own _ => 0 end.
Definition tries_of w st : nat :=
  match restart_helpers w !! st_name st with
  | Some m => default (st_retries st + 1) (tries_remaining m)
  | None => st_retries st + 1
  end.
Definition counts st : Prop := st_restarts st = Retries (st_retries st).
Lemma counts_retries st : 0 < st_retries st → counts st.
Proof. unfold counts, st_retries. destruct (st_restarts st); [done|lia]. Qed.
(** What a stage does, if it is not kept from it by its count. *)
Definition body st : M W () :=
  match st_restarts st with
  | Retries _ => st_perform st
  | Own decision => b <- decision ;; if (b : bool) then st_perform st else ret ()
  end.
Definition set_progress st (t : option nat) (sk : gset CorpusId) w : Staged W :=
  w <| restart_helpers := <[st_name st := mkRetry t sk]> (restart_helpers w) |>.

Lemma should_restart_ok st w id n : host_corpus_id (host w) = Some id → tries_of w st = S n →
  let sk := skip_of w (st_name st) in
  should_restart (st_name st) (st_retries st) w =
    (Ok (negb (n =? 0) && negb (bool_decide (id ∈ sk))),
     set_progress st (Some n) (if n =? 0 then {[id]} ∪ sk else sk) w).
Proof.
  intros Hid Ht. cbv zeta. unfold should_restart. rewrite bind_gets, Hid. cbn [ok_or]. rewrite bind_lift, bind_modify, bind_gets.
  unfold tries_of, skip_of in *. destruct (restart_helpers w !! st_name st) as [m|] eqn:E.
  - rewrite E. cbn [unwrap from_option]. rewrite bind_lift. unfold bind at 1. unfold lift at 1.
    rewrite Ht, bind_modify. by destruct (n =? 0).
  - cbn [restart_helpers upd eta_Staged]. rewrite lookup_insert_eq. cbn [unwrap from_option default tries_remaining].
    rewrite bind_lift. unfold bind at 1. unfold lift at 1. cbn -[Nat.add]. rewrite Ht.
    unfold bind, modify, ret, set_progress. cbn. rewrite insert_insert_eq. by destruct n.
Qed.

Lemma clear_ok st t sk w : clear_progress (st_name st) (set_progress st t sk w) = (Ok (), set_progress st None sk w).
Proof.
  unfold clear_progress, set_progress. rewrite bind_gets. cbn [restart_helpers upd eta_Staged].
  rewrite lookup_insert_eq. cbn [ok_or]. rewrite bind_lift. unfold modify. cbn. by rewrite insert_insert_eq.
Qed.

Lemma clean_tries w st : clean w (st_name st) → tries_of w st = S (st_retries st).
Proof.
  intros Hc. unfold tries_of, clean in *. destruct (_ !! _) as [m|]; [rewrite (Hc m eq_refl); cbn|]; lia.
Qed.

(** A stage that is tried on an entry: it is performed, or it leaves the entry alone because it has given it up. *)
Lemma restartable_run st w id n r h : counts st → host_corpus_id (host w) = Some id → tries_of w st = S (S n) →
  id ∉ skip_of w (st_name st) → st_perform st (host w) = (r, h) →
  perform_restartable st w =
    (r, set_progress st (match r with Ok _ => None | _ => Some (S n) end) (skip_of w (st_name st)) (w <| host := h |>)).
Proof.
  intros Hco Hid Ht Hsk Hrun. unfold perform_restartable, stage_should_restart, stage_clear_progress. rewrite Hco.
  unfold bind at 1. rewrite (should_restart_ok st w id (S n) Hid Ht).
  rewrite bool_decide_false by done. cbn [Nat.eqb negb andb]. unfold bind, on_host.
  change (host (set_progress _ _ _ w)) with (host w). rewrite Hrun.
  destruct r as [[]|e|]; [|done..]. exact (clear_ok st (Some (S n)) (skip_of w (st_name st)) (w <| host := h |>)).
Qed.

Lemma restartable_skip st w id n : counts st → host_corpus_id (host w) = Some id → tries_of w st = S n →
  n = 0 ∨ id ∈ skip_of w (st_name st) →
  perform_restartable st w =
    (Ok (), set_progress st None (if n =? 0 then {[id]} ∪ skip_of w (st_name st) else skip_of w (st_name st)) w).
Proof.
  intros Hco Hid Ht Hsk. unfold perform_restartable, stage_should_restart, stage_clear_progress. rewrite Hco.
  unfold bind at 1. rewrite (should_restart_ok st w id n Hid Ht).
  assert (negb (n =? 0) && negb (bool_decide (id ∈ skip_of w (st_name st))) = false) as ->.
  { destruct Hsk as [->|Hin]; [done|]. rewrite bool_decide_true by done. apply andb_false_r. }
  unfold bind, ret. apply clear_ok.
Qed.

(** A stage that decides by itself. *)
Lemma restartable_own st w d : st_restarts st = Own d →
  perform_restartable st w = ((body st (host w)).1, w <| host := (body st (host w)).2 |>).
Proof.
  intros E. unfold perform_restartable, stage_should_restart, stage_clear_progress, body. rewrite E. unfold bind, on_host, ret.
  destruct (d (host w)) as [[[]|e|] h]; cbn [host upd eta_Staged fst snd]; [|by destruct w..].
  by destruct (st_perform st h) as [[[]|e|] h'].
Qed.

(** A stage that always decides against itself, as [FeaturesAccountingStage] does, is never performed. *)
Lemma refusing_never_performs name (perform : M W ()) w : perform_restartable (mkStage name (Own (ret false)) perform) w = (Ok (), w).
Proof. by destruct w. Qed.

(** ** A tuple of stages *)

Definition at_stage (ids : list nat) w : Staged W := w <| stage_stack := mkStageStack ids 0 |>.

Lemma all_fresh st tail w : 
  perform_all (st :: tail) (at_stage [] w) =
  (perform_restartable st ;;; clear_stage_id ;;; check_stop ;;; perform_all tail) (at_stage [S (length tail)] w).
Proof.
  cbn [perform_all length]. unfold bind at 1, current_stage_id, gets. cbn [stack_current stage_stack at_stage upd eta_Staged stage_idx_stack stage_depth lookup].
  cbn [list_lookup]. unfold bind at 1. unfold bind at 1, set_current_stage_id. cbn.
  unfold bind. by destruct (perform_restartable st _) as [[[]|e|] ?].
Qed.
Lemma all_at st tail w :
  perform_all (st :: tail) (at_stage [S (length tail)] w) =
  (perform_restartable st ;;; clear_stage_id ;;; check_stop ;;; perform_all tail) (at_stage [S (length tail)] w).
Proof.
  cbn [perform_all length]. unfold bind at 1, current_stage_id, gets. cbn -[Nat.ltb Nat.eqb].
  rewrite Nat.ltb_irrefl, Nat.eqb_refl. unfold bind. by destruct (perform_restartable st _) as [[[]|e|] ?].
Qed.
Lemma all_before st tail w i : i < S (length tail) → host_stop (host w) = false →
  perform_all (st :: tail) (at_stage [i] w) = perform_all tail (at_stage [i] w).
Proof.
  intros Hi Hs. cbn [perform_all length]. unfold bind at 1, current_stage_id, gets. cbn -[Nat.ltb Nat.eqb].
  rewrite (proj2 (Nat.ltb_lt _ _) Hi). unfold bind at 1. cbn [ret]. unfold bind at 1, check_stop. rewrite bind_gets.
  change (host (at_stage [i] w)) with (host w). by rewrite Hs.
Qed.

(** ** An entry that kills the fuzzer *)

(** What a stage makes of the rest of the fuzzer. *)
Context (eff : Stage W → W → W).
Definition goes st : Prop := ∀ h, body st h = (Ok (), eff st h).
Definition dies st : Prop := ∀ h, ∃ r, st_perform st h = (r, eff st h) ∧ r ≠ Ok ().
(** The current entry stays, and nobody asks the fuzzer to stop. *)
Definition steady st : Prop := ∀ h, host_corpus_id (eff st h) = host_corpus_id h ∧ host_stop (eff st h) = host_stop h.

(** A stage on an entry, by the entries it has given up. *)
Definition visit (id : CorpusId) w (h : W) st : W :=
  match st_restarts st with
  | Retries _ => if decide (id ∈ skip_of w (st_name st)) then h else eff st h
  | Own _ => eff st h
  end.
Definition passable (id : CorpusId) w st : Prop :=
  steady st ∧
  match st_restarts st with
  | Retries n => 0 < n ∧ clean w (st_name st) ∧ (id ∈ skip_of w (st_name st) ∨ goes st)
  | Own _ => goes st
  end.
(** What a stage notes at the end of its round. *)
Definition note w st (hs : gmap string RetryCountRestartHelper) : gmap string RetryCountRestartHelper :=
  match st_restarts st with
  | Retries _ => <[st_name st := mkRetry None (skip_of w (st_name st))]> hs
  | Own _ => hs
  end.

(** After a stage. *)
Lemma passed_tail st tail w w' : perform_restartable st (at_stage [S (length tail)] w) = (Ok (), at_stage [S (length tail)] w') →
  host_stop (host w') = false →
  (perform_restartable st ;;; clear_stage_id ;;; check_stop ;;; perform_all tail) (at_stage [S (length tail)] w) =
    perform_all tail (at_stage [] w').
Proof.
  intros Hr Hs. unfold bind at 1. rewrite Hr. unfold clear_stage_id. rewrite bind_modify. unfold bind at 1, check_stop.
  rewrite bind_gets. cbn [host upd eta_Staged at_stage]. by rewrite Hs.
Qed.

Lemma pass_one id st w ids : passable id w st → host_corpus_id (host w) = Some id →
  perform_restartable st (at_stage ids w) =
    (Ok (), at_stage ids (w <| host := visit id w (host w) st |> <| restart_helpers := note w st (restart_helpers w) |>)).
Proof.
  intros [Hst Hp] Hid. unfold visit, note. destruct (st_restarts st) as [k|d] eqn:Er.
  - destruct Hp as (Hk & Hc & Hg). assert (st_retries st = k) as Ek by (unfold st_retries; by rewrite Er).
    assert (counts st) as Hco by (unfold counts; by rewrite Ek). pose proof (clean_tries w st Hc) as Ht. rewrite Ek in Ht. destruct k as [|n]; [lia|].
    case_decide as Hin.
    + rewrite (restartable_skip st (at_stage ids w) id (S n)); [by destruct w|done|done|done|by right].
    + destruct Hg as [?|Hg]; [done|]. unfold goes, body in Hg. rewrite Er in Hg.
      by rewrite (restartable_run st (at_stage ids w) id n (Ok ()) (eff st (host w))).
  - rewrite (restartable_own st _ d Er). change (host (at_stage ids w)) with (host w). by rewrite Hp.
Qed.

Lemma visit_steady id w h st : steady st → host_corpus_id (visit id w h st) = host_corpus_id h ∧ host_stop (visit id w h st) = host_stop h.
Proof. intros Hs. unfold visit. destruct (st_restarts st); [case_decide; [done|]|]; apply Hs. Qed.
Lemma visits_steady id w h l : Forall steady l →
  host_corpus_id (foldl (visit id w) h l) = host_corpus_id h ∧ host_stop (foldl (visit id w) h l) = host_stop h.
Proof.
  intros Hl. revert h. induction Hl as [|st l Hst _ IH]; intros h; [done|]. cbn [foldl].
  destruct (IH (visit id w h st)) as [-> ->]. by apply visit_steady.
Qed.

Lemma visits_same id w w' h l : (∀ st, st ∈ l → skip_of w' (st_name st) = skip_of w (st_name st)) →
  foldl (visit id w') h l = foldl (visit id w) h l.
Proof.
  revert h. induction l as [|st l IH]; intros h Hl; [done|]. cbn [foldl]. rewrite IH by (intros; apply Hl; by right).
  f_equal. unfold visit. by rewrite (Hl st ltac:(left)).
Qed.

(** The progress of a list of stages after their round, and that of one of them. *)
Definition finish_progress w (l : list (Stage W)) (hs : gmap string RetryCountRestartHelper) : gmap string RetryCountRestartHelper :=
  foldl (λ hs st, note w st hs) hs l.
Definition noted w st (m : option RetryCountRestartHelper) : option RetryCountRestartHelper :=
  match st_restarts st with Retries _ => Some (mkRetry None (skip_of w (st_name st))) | Own _ => m end.

Lemma note_other w st hs name : st_name st ≠ name → note w st hs !! name = hs !! name.
Proof. intros Hn. unfold note. destruct (st_restarts st); [by rewrite lookup_insert_ne|done]. Qed.
Lemma note_in w st hs : note w st hs !! st_name st = noted w st (hs !! st_name st).
Proof. unfold note, noted. destruct (st_restarts st); [by rewrite lookup_insert_eq|done]. Qed.

Lemma finish_other w l hs name : name ∉ st_name <$> l → finish_progress w l hs !! name = hs !! name.
Proof.
  revert hs. induction l as [|st l IH]; intros hs Hn; [done|]. cbn in Hn. rewrite not_elem_of_cons in Hn. cbn [finish_progress foldl].
  fold (finish_progress w l (note w st hs)). rewrite IH by tauto. apply note_other. intros E. by destruct Hn.
Qed.
Lemma finish_in w l hs st : NoDup (st_name <$> l) → st ∈ l →
  finish_progress w l hs !! st_name st = noted w st (hs !! st_name st).
Proof.
  revert hs. induction l as [|st' l IH]; intros hs Hn Hin; [by apply elem_of_nil in Hin|].
  apply NoDup_cons in Hn as [Hst Hn]. cbn [finish_progress foldl]. fold (finish_progress w l (note w st' hs)).
  apply elem_of_cons in Hin as [->|Hin]; [rewrite finish_other by done; apply note_in|]. rewrite IH by done.
  rewrite note_other; [done|]. intros E. apply Hst. rewrite E. by apply list_elem_of_fmap_2.
Qed.
(** The entries given up stay the same. *)
Lemma noted_skip w w' st : restart_helpers w' !! st_name st = noted w st (restart_helpers w !! st_name st) →
  skip_of w' (st_name st) = skip_of w (st_name st).
Proof. intros E. unfold skip_of at 1. rewrite E. unfold noted. by destruct (st_restarts st). Qed.

(** All of [l] has passed; [w0] tells which entries had been given up. *)
Definition after (id : CorpusId) w0 (l : list (Stage W)) w : Staged W :=
  w <| host := foldl (visit id w0) (host w) l |> <| restart_helpers := finish_progress w0 l (restart_helpers w) |>.
Definition same_progress w0 (l : list (Stage W)) w : Prop :=
  ∀ st, st ∈ l → restart_helpers w !! st_name st = restart_helpers w0 !! st_name st.

Lemma passable_frame id w0 w st : restart_helpers w !! st_name st = restart_helpers w0 !! st_name st →
  passable id w0 st → passable id w st ∧ skip_of w (st_name st) = skip_of w0 (st_name st).
Proof.
  intros E [Hs Hp]. unfold passable, clean, skip_of in *. rewrite E. split; [|done]. split; [done|]. by destruct (st_restarts st).
Qed.

Lemma passes id w0 l tail w : NoDup (st_name <$> l) → Forall (passable id w0) l → same_progress w0 l w →
  host_corpus_id (host w) = Some id → host_stop (host w) = false →
  perform_all (l ++ tail) (at_stage [] w) = perform_all tail (at_stage [] (after id w0 l w)).
Proof.
  revert w. induction l as [|st l IH]; intros w Hnd Hp Hsame Hid Hs; [by destruct w|].
  apply NoDup_cons in Hnd as [Hst Hnd]. apply Forall_cons in Hp as [Hp1 Hp].
  destruct (passable_frame id w0 w st (Hsame st ltac:(left)) Hp1) as [Hp1' Esk].
  assert (visit id w (host w) st = visit id w0 (host w) st ∧ note w st (restart_helpers w) = note w0 st (restart_helpers w)) as [Ev En]
    by (unfold visit, note; by rewrite Esk).
  destruct (visit_steady id w0 (host w) st (proj1 Hp1)) as [Vi Vs].
  change ((st :: l) ++ tail) with (st :: l ++ tail). rewrite all_fresh.
  pose proof (pass_one id st w [S (length (l ++ tail))] Hp1' Hid) as Hone. rewrite Ev, En in Hone.
  rewrite (passed_tail _ _ _ _ Hone) by (cbn; by rewrite Vs).
  rewrite IH; [|done|done| |by cbn; rewrite Vi|by cbn; rewrite Vs]; [done|].
  intros st' Hin. cbn. rewrite note_other; [by apply Hsame; right|].
  intros E. apply Hst. rewrite E. by apply list_elem_of_fmap_2.
Qed.

Lemma pass_over i l tail w : i ≤ length tail → host_stop (host w) = false →
  perform_all (l ++ tail) (at_stage [i] w) = perform_all tail (at_stage [i] w).
Proof.
  intros Hi Hs. induction l as [|st l IH]; [done|]. cbn [app]. rewrite all_before; [done| |done]. rewrite length_app. lia.
Qed.

Section Killer.
Context (id : CorpusId) (pre suf : list (Stage W)) (bad : Stage W) (w0 : Staged W).
Context (Hnd : NoDup (st_name <$> pre ++ bad :: suf)) (Hpass : Forall (passable id w0) (pre ++ suf)).
Context (Hsteady : steady bad) (Hdies : dies bad) (Hco : counts bad).
Abbreviation stages := (pre ++ bad :: suf).
Abbreviation here := (at_stage [S (length suf)]).

Lemma suf_names : NoDup (st_name <$> suf) ∧ ∀ st, st ∈ suf → st_name bad ≠ st_name st.
Proof.
  pose proof Hnd as Hn. rewrite fmap_app, fmap_cons in Hn. apply NoDup_app in Hn as (_ & _ & Hn).
  apply NoDup_cons in Hn as [Hb Hn]. split; [done|]. intros st Hin E. apply Hb. rewrite E. by apply list_elem_of_fmap_2.
Qed.
Lemma pre_names : NoDup (st_name <$> pre) ∧ (∀ st, st ∈ pre → st_name bad ≠ st_name st) ∧
  ∀ st st', st ∈ pre → st' ∈ suf → st_name st ≠ st_name st'.
Proof.
  pose proof Hnd as Hn. rewrite fmap_app, fmap_cons in Hn. apply NoDup_app in Hn as (Hn & Hd & _). split; [done|].
  split; [intros st Hin E|intros st st' Hin Hin' E]; apply (Hd (st_name st)); try by apply list_elem_of_fmap_2.
  - rewrite <-E. left.
  - rewrite E. right. by apply list_elem_of_fmap_2.
Qed.

Lemma sessions_eq n l w : sessions n l w =
  match perform_all l w, n with
  | (Ok (), w'), _ => (Ok (), w')
  | (r, w'), O => (r, w')
  | (_, w'), S n => sessions n l (on_restart w')
  end.
Proof. destruct n; cbn [sessions]; by destruct (perform_all l w) as [[[]|e|] ?]. Qed.

(** Sessions that begin in the stage, with [t] tries left. *)
Lemma killer_sessions t : ∀ n w, tries_of w bad = S t → id ∉ skip_of w (st_name bad) →
  same_progress w0 suf w → host_corpus_id (host w) = Some id → host_stop (host w) = false →
  if n <? t then ∃ r w', sessions n stages (here w) = (r, w') ∧ r ≠ Ok ()
  else sessions n stages (here w) = (Ok (), at_stage [] (after id w0 suf (set_progress bad None
    ({[id]} ∪ skip_of w (st_name bad)) (w <| host := Nat.iter t (eff bad) (host w) |>)))).
Proof.
  destruct suf_names as [Hnds Hne].
  induction t as [|t IH]; intros n w Ht Hsk Hsame Hid Hs.
  - rewrite sessions_eq. rewrite (pass_over _ pre) by done. rewrite all_at. rewrite (passed_tail bad suf w (set_progress bad None ({[id]} ∪ skip_of w (st_name bad)) w)); [| |done].
    2: { rewrite (restartable_skip bad (here w) id 0); [done|done|done|done|by left]. }
    rewrite <-(app_nil_r suf), (passes id w0); [|done|by apply Forall_app in Hpass as [_ ?]| |done|done].
    + rewrite app_nil_r. cbn [perform_all]. by destruct n.
    + intros st Hin. cbn. rewrite lookup_insert_ne; [by apply Hsame|by apply Hne].
  - destruct (Hdies (host w)) as (r & Hrun & Hr). destruct (Hsteady (host w)) as [Ei Es].
    set (w1 := set_progress bad (Some (S t)) (skip_of w (st_name bad)) (w <| host := eff bad (host w) |>)).
    assert (perform_all stages (here w) = (r, here w1)) as Hp.
    { rewrite (pass_over _ pre) by done. rewrite all_at. unfold bind at 1.
      rewrite (restartable_run bad (here w) id t r (eff bad (host w))) by done. by destruct r as [[]|e|]. }
    assert (skip_of w1 (st_name bad) = skip_of w (st_name bad)) as Esk.
    { unfold skip_of. cbn [w1 set_progress restart_helpers upd eta_Staged]. by rewrite lookup_insert_eq. }
    assert (tries_of w1 bad = S t) as Et.
    { unfold tries_of. cbn [w1 set_progress restart_helpers upd eta_Staged]. by rewrite lookup_insert_eq. }
    assert (∀ sk, set_progress bad None sk (w1 <| host := Nat.iter t (eff bad) (host w1) |>) =
      set_progress bad None sk (w <| host := Nat.iter (S t) (eff bad) (host w) |>)) as Eset.
    { intros sk. rewrite Nat.iter_succ_r. unfold set_progress. cbn. by rewrite insert_insert_eq. }
    destruct n as [|m].
    { exists r, (here w1). rewrite sessions_eq, Hp. split; [|done]. by destruct r as [[]|e|]. }
    specialize (IH m w1 Et). rewrite Esk, Eset in IH. change (S m <? S t) with (m <? t).
    assert (same_progress w0 suf w1) as Hsame1.
    { intros st Hin. cbn. rewrite lookup_insert_ne; [by apply Hsame|by apply Hne]. }
    specialize (IH Hsk Hsame1 ltac:(cbn; by rewrite Ei) ltac:(cbn; by rewrite Es)).
    assert (sessions (S m) stages (here w) = sessions m stages (here w1)) as ->; [|exact IH].
    rewrite sessions_eq, Hp. by destruct r as [[]|e|].
Qed.

(** The first session runs the stages before it. *)
Lemma first_session n w : same_progress w0 stages w → host_corpus_id (host w) = Some id → host_stop (host w) = false →
  sessions n stages (at_stage [] w) = sessions n stages (here (after id w0 pre w)).
Proof.
  intros Hsame Hid Hs. destruct pre_names as [Hn _]. pose proof Hpass as Hp. apply Forall_app in Hp as [Hp _].
  destruct (visits_steady id w0 (host w) pre) as [_ Es]; [eapply Forall_impl; [exact Hp|]; by intros st [? _]|].
  rewrite !sessions_eq. rewrite (passes id w0); [|done|done| |done|done].
  - rewrite all_fresh. rewrite (pass_over _ pre); [|done|by cbn; rewrite Es]. by rewrite all_at.
  - intros st Hin. apply Hsame. by apply elem_of_app; left.
Qed.

(** What the sessions leave behind. *)
Definition survived w : Staged W :=
  after id w0 suf (set_progress bad None ({[id]} ∪ skip_of w0 (st_name bad))
    ((after id w0 pre w) <| host := Nat.iter (st_retries bad) (eff bad) (foldl (visit id w0) (host w) pre) |>)).

Lemma survived_bad w : restart_helpers (survived w) !! st_name bad = Some (mkRetry None ({[id]} ∪ skip_of w0 (st_name bad))).
Proof.
  unfold survived, after. cbn. rewrite finish_other; [by rewrite lookup_insert_eq|].
  intros (st & E & Hin)%list_elem_of_fmap_1. by apply suf_names in Hin.
Qed.
Lemma survived_other w st : st ∈ pre ++ suf →
  restart_helpers (survived w) !! st_name st = noted w0 st (restart_helpers w !! st_name st).
Proof.
  destruct suf_names as [Hns Hbs], pre_names as (Hnp & Hbp & Hps).
  intros [Hin|Hin]%elem_of_app; unfold survived, after; cbn.
  - rewrite finish_other; [rewrite lookup_insert_ne by (by apply Hbp); by apply finish_in|].
    intros (st' & E & Hin')%list_elem_of_fmap_1. by eapply Hps.
  - rewrite finish_in, lookup_insert_ne, finish_other; [done| |by apply Hbs|done|done].
    intros (st' & E & Hin')%list_elem_of_fmap_1. by apply (Hps st' st).
Qed.
End Killer.

(** The rounds after the stage has given the entry up. *)
Lemma later_rounds id pre bad suf w w' h : NoDup (st_name <$> pre ++ bad :: suf) → Forall (passable id w) (pre ++ suf) →
  0 < st_retries bad → steady bad → stage_stack w' = StageStack_default →
  (∃ sk, restart_helpers w' !! st_name bad = Some (mkRetry None ({[id]} ∪ sk))) →
  (∀ st, st ∈ pre ++ suf → restart_helpers w' !! st_name st = noted w st (restart_helpers w !! st_name st)) →
  host_corpus_id h = Some id → host_stop h = false →
  ∃ w'', perform_all (pre ++ bad :: suf) (w' <| host := h |>) = (Ok (), w'') ∧ host w'' = foldl (visit id w) h (pre ++ suf).
Proof.
  intros Hnd Hp Hr Hst Hk [sk Eb] Eo Hid Hs.
  assert (∀ st, st ∈ pre ++ suf → skip_of w' (st_name st) = skip_of w (st_name st)) as Esk.
  { intros st Hin. by apply noted_skip, Eo. }
  assert (id ∈ skip_of w' (st_name bad)) as Hin by (unfold skip_of; rewrite Eb; cbn; set_solver).
  assert (∀ st, st ∈ pre ++ suf → passable id w' st) as Hp'.
  { intros st Hst'. rewrite Forall_forall in Hp. destruct (Hp st Hst') as [P1 P2]. unfold passable.
    rewrite (Esk st Hst'). split; [done|]. pose proof (Eo st Hst') as En. unfold noted in En. destruct (st_restarts st); [|done].
    destruct P2 as (P2 & P3 & P4). split_and!; [done| |done]. intros m. rewrite En. by intros [= <-]. }
  pose proof (counts_retries bad Hr) as Hco.
  assert (w' <| host := h |> = at_stage [] (w' <| host := h |>)) as -> by (destruct w'; cbn in *; by subst).
  rewrite <-(app_nil_r (pre ++ bad :: suf)), (passes id w'); [|done| |done|done|done].
  - eexists. split; [done|]. cbn. rewrite !foldl_app. cbn [foldl]. unfold visit at 2. rewrite Hco, decide_True by done.
    rewrite <-!foldl_app. by apply visits_same.
  - rewrite Forall_forall. intros st [Hi|[->|Hi]%elem_of_cons]%elem_of_app; [apply Hp', elem_of_app; by left| |apply Hp', elem_of_app; by right].
    split; [done|]. rewrite Hco. split_and!; [done| |by left]. intros m. rewrite Eb. by intros [= <-].
Qed.

(** ** The theorems *)

(** A fuzzer that died in a stage goes on in that stage: the stages before it are not run again, and
    the stages after it follow as in a round without interruption. *)
Theorem resume_exact pre st suf w : stage_stack w = mkStageStack [S (length suf)] 0 → host_stop (host w) = false →
  perform_all (pre ++ st :: suf) w =
    (perform_restartable st ;;; clear_stage_id ;;; check_stop ;;; perform_all suf) w.
Proof.
  intros Hk Hs. assert (w = at_stage [S (length suf)] w) as -> by (destruct w; cbn in *; by subst).
  rewrite pass_over by done. apply all_at.
Qed.

(** C32. An entry that kills the fuzzer in a stage each time: the stage is run on it exactly as often as it allows retries,
    then the session ends with the remaining stages, the entry is given up by this stage and by no other, and
    from then on every round on the entry passes over the stage. *)
Theorem crash_loop_ends pre bad suf w id :
  NoDup (st_name <$> pre ++ bad :: suf) → Forall (passable id w) (pre ++ suf) →
  0 < st_retries bad → clean w (st_name bad) → steady bad → dies bad → id ∉ skip_of w (st_name bad) →
  host_corpus_id (host w) = Some id → host_stop (host w) = false → stage_stack w = StageStack_default →
  (∀ n, n < st_retries bad → ∃ r w', sessions n (pre ++ bad :: suf) w = (r, w') ∧ r ≠ Ok ()) ∧
  ∃ w', (∀ n, st_retries bad ≤ n → sessions n (pre ++ bad :: suf) w = (Ok (), w')) ∧
    host w' = foldl (visit id w) (Nat.iter (st_retries bad) (eff bad) (foldl (visit id w) (host w) pre)) suf ∧
    stage_stack w' = StageStack_default ∧
    skip_of w' (st_name bad) = {[id]} ∪ skip_of w (st_name bad) ∧
    (∀ st, st ∈ pre ++ suf → skip_of w' (st_name st) = skip_of w (st_name st)) ∧
    ∀ h, host_corpus_id h = Some id → host_stop h = false →
      ∃ w'', perform_all (pre ++ bad :: suf) (w' <| host := h |>) = (Ok (), w'') ∧
        host w'' = foldl (visit id w) h (pre ++ suf).
Proof.
  intros Hnd Hp Hr Hc Hst Hd Hsk Hid Hs Hk.
  assert (w = at_stage [] w) as Ew by (destruct w; cbn in *; by subst).
  assert (∀ n, sessions n (pre ++ bad :: suf) w = sessions n (pre ++ bad :: suf) (at_stage [S (length suf)] (after id w pre w))) as Efirst.
  { intros n. rewrite Ew at 1. apply first_session; done. }
  destruct (pre_names pre suf bad Hnd) as (Hnp & Hbp & Hps).
  assert (∀ st, (∀ st', st' ∈ pre → st_name st' ≠ st_name st) →
    restart_helpers (after id w pre w) !! st_name st = restart_helpers w !! st_name st) as Eh.
  { intros st Hne. cbn. apply finish_other. intros (st' & E & Hin)%list_elem_of_fmap_1. by apply (Hne st'). }
  pose proof (Eh bad ltac:(intros st' Hin E; by apply (Hbp st'))) as Eb.
  assert (skip_of (after id w pre w) (st_name bad) = skip_of w (st_name bad)) as Esk by (unfold skip_of; by rewrite Eb).
  destruct (visits_steady id w (host w) pre) as [Vi Vs].
  { apply Forall_app in Hp as [Hp _]. eapply Forall_impl; [exact Hp|]. by intros st [? _]. }
  assert (∀ n, if n <? st_retries bad then ∃ r w', sessions n (pre ++ bad :: suf) w = (r, w') ∧ r ≠ Ok ()
    else sessions n (pre ++ bad :: suf) w = (Ok (), at_stage [] (survived id pre suf bad w w))) as Hrun.
  { intros n. rewrite Efirst.
    pose proof (killer_sessions id pre suf bad w Hnd Hp Hst Hd (counts_retries bad Hr) (st_retries bad) n (after id w pre w)) as Hks.
    rewrite Esk in Hks. apply Hks; [|done| |by cbn; rewrite Vi|by cbn; rewrite Vs].
    - rewrite <-(clean_tries w bad Hc). unfold tries_of. by rewrite Eb.
    - intros st Hin. apply Eh. intros st' Hin' E. by eapply Hps. }
  split.
  { intros n Hn. specialize (Hrun n). by rewrite (proj2 (Nat.ltb_lt _ _) Hn) in Hrun. }
  exists (at_stage [] (survived id pre suf bad w w)). split.
  { intros n Hn. specialize (Hrun n). by rewrite (proj2 (Nat.ltb_ge _ _) Hn) in Hrun. }
  split; [done|]. split; [done|]. split; [unfold skip_of at 1; cbn [at_stage restart_helpers upd eta_Staged]; by rewrite survived_bad|].
  split; [intros st Hin; apply noted_skip; by apply survived_other|].
  intros h Hih Hsh. eapply (later_rounds id pre bad suf w); [done|done|done|done|done| | |done|done].
  - eexists. by apply survived_bad.
  - intros st Hin. by apply survived_other.
Qed.

(** A stage that cannot be tried. *)
Lemma restartable_none st w : counts st → host_corpus_id (host w) = None →
  perform_restartable st w = (Err (illegal_state
    "No current_corpus_id set in State, but called RetryCountRestartHelper::should_skip" []), w).
Proof. intros Hco E. unfold perform_restartable, stage_should_restart. rewrite Hco. unfold should_restart, bind, gets. by rewrite E. Qed.
Lemma restartable_exhausted st w id : counts st → host_corpus_id (host w) = Some id → tries_of w st = 0 →
  perform_restartable st w = (Err (illegal_state
    "Attempted further retries after we had already gotten to none remaining." []), w).
Proof.
  intros Hco Eid Ht. unfold tries_of in Ht. destruct (restart_helpers w !! st_name st) as [m|] eqn:E; [|lia].
  unfold perform_restartable, stage_should_restart. rewrite Hco. unfold should_restart, bind, gets, lift, modify. rewrite Eid. cbn [ok_or]. rewrite E, E. cbn [unwrap].
  by rewrite Ht.
Qed.

(** The stage ids do not matter to a stage, and it leaves the host it found or the one of its [body]. *)
Lemma restartable_at st w : ∃ r w', perform_restartable st w = (r, w') ∧
  (∀ ids, perform_restartable st (at_stage ids w) = (r, at_stage ids w')) ∧
  (host w' = host w ∨ host w' = (body st (host w)).2).
Proof.
  destruct (st_restarts st) as [k|d] eqn:Er.
  2: { eexists _, _. split; [by apply (restartable_own st w d)|]. split; [|by right]. intros ids. by apply (restartable_own st (at_stage ids w) d). }
  assert (counts st) as Hco by (unfold counts, st_retries; by rewrite Er).
  destruct (host_corpus_id (host w)) as [id|] eqn:Eid.
  2: { eexists _, w. split; [by apply restartable_none|]. split; [|by left]. intros ids. by apply restartable_none. }
  destruct (tries_of w st) as [|n] eqn:Et.
  { eexists _, w. split; [by eapply restartable_exhausted|]. split; [|by left]. intros ids. by apply (restartable_exhausted st (at_stage ids w) id). }
  destruct (decide (n = 0 ∨ id ∈ skip_of w (st_name st))) as [Hs|Hs].
  - eexists _, _. split; [by apply (restartable_skip st w id n)|]. split; [|by left].
    intros ids. by apply (restartable_skip st (at_stage ids w) id n).
  - destruct n as [|n]; [by exfalso; apply Hs; left|]. destruct (st_perform st (host w)) as [r h] eqn:Ep.
    eexists _, _. split; [apply (restartable_run st w id n r h); [done|done|done|by intros ?; apply Hs; right|done]|].
    split; [|right; unfold body; by rewrite Er, Ep].
    intros ids. apply (restartable_run st (at_stage ids w) id n r h); [done|done|done|by intros ?; apply Hs; right|done].
Qed.

(** A boxed vector of stages does the same as a tuple, as long as nobody asks the fuzzer to stop. *)
Theorem vec_equivalent l w : (∀ st h, st ∈ l → host_stop h = false → host_stop (body st h).2 = false) →
  host_stop (host w) = false →
  ∃ ids, perform_all l (at_stage [] w) = ((vec_perform_all l w).1, at_stage ids (vec_perform_all l w).2).
Proof.
  intros Hl. revert w. induction l as [|st l IH]; intros w Hs; [by exists []|].
  destruct (restartable_at st w) as (r & w1 & E & Eat & Hh).
  assert (host_stop (host w1) = false) as Hs1 by (destruct Hh as [->| ->]; [done|apply Hl; [left|done]]).
  assert (vec_perform_all (st :: l) w = match r with Ok _ => vec_perform_all l w1 | r => (r, w1) end) as ->.
  { cbn [vec_perform_all]. unfold bind at 1, check_stop. rewrite bind_gets, Hs. cbn [ret]. unfold bind. rewrite E. by destruct r as [[]|e|]. }
  rewrite all_fresh. destruct r as [[]|e|].
  - rewrite (passed_tail st l w w1 (Eat _) Hs1). apply IH; [|done]. intros st' h Hin. apply Hl. by right.
  - unfold bind at 1. rewrite Eat. by eexists.
  - unfold bind at 1. rewrite Eat. by eexists.
Qed.
End Facts.

(** ** A concrete round *)

(** A fuzzer that only notes which stages ran. *)
Definition LogHost : Type := CorpusId * list nat.
#[global] Instance log_host : StageHost LogHost := {|
  host_corpus_id := λ h, Some h.1;
  host_stop := λ _, false;
  host_discard_stop := λ h, h;
  host_shutdown := λ _, Ok ();
|}.
Definition log_eff (n : nat) (h : LogHost) : LogHost := (h.1, h.2 ++ [n]).
Definition log_stage (name : string) (retries n : nat) : Stage LogHost :=
  mkStage name (Retries retries) (λ h, (if n =? 9 then Panic else Ok (), log_eff n h)).
(** A stage that decides by itself. *)
Definition log_own (name : string) (decision : bool) (n : nat) : Stage LogHost :=
  mkStage name (Own (ret decision)) (λ h, (Ok (), log_eff n h)).
Definition log_effect (st : Stage LogHost) (h : LogHost) : LogHost := (body st h).2.
Definition log_fuzzer : Staged LogHost := mkStaged (7, []) StageStack_default ∅.

(** The second stage kills the fuzzer: with three retries it is run three times.  Of the stages that decide by themselves the one
    that is against it is never run. *)
Lemma crash_loop_ends_witness : ∃ w', (∀ n, 3 ≤ n →
    sessions n [log_stage "calibration" 1 1; log_stage "mutational:0" 3 9; log_own "features" false 5; log_stage "power:0" 3 2; log_own "tpe" true 6]
      log_fuzzer = (Ok (), w')) ∧
  (host w').2 = [1; 9; 9; 9; 2; 6] ∧ skip_of w' "mutational:0" = {[7]}.
Proof.
  destruct (crash_loop_ends log_effect [log_stage "calibration" 1 1] (log_stage "mutational:0" 3 9)
    [log_own "features" false 5; log_stage "power:0" 3 2; log_own "tpe" true 6] log_fuzzer 7) as (_ & w' & Hrun & Hh & _ & Hsk & _).
  - repeat constructor; set_solver.
  - repeat constructor; try (intros m Hm; discriminate); try done; by right.
  - cbn. lia.
  - intros m Hm. discriminate.
  - done.
  - intros h. by exists Panic.
  - set_solver.
  - done.
  - done.
  - done.
  - exists w'. split; [exact Hrun|]. rewrite Hh. split; [reflexivity|]. etrans; [exact Hsk|]. vm_compute. reflexivity.
Defined.

Lemma resume_exact_witness : ∃ w', perform_all [log_stage "calibration" 1 1; log_stage "power:0" 3 2]
    (log_fuzzer <| stage_stack := mkStageStack [1] 0 |>) = (Ok (), w') ∧ (host w').2 = [2].
Proof.
  pose proof (resume_exact [log_stage "calibration" 1 1] (log_stage "power:0" 3 2) []
    (log_fuzzer <| stage_stack := mkStageStack [1] 0 |>) eq_refl eq_refl) as E.
  eexists. split; [etrans; [exact E|]; vm_compute; reflexivity|reflexivity].
Defined.

Lemma vec_equivalent_witness : ∃ ids w', perform_all [log_stage "calibration" 1 1; log_stage "power:0" 3 9] log_fuzzer =
  (Panic, at_stage ids w') ∧ (host w').2 = [1; 9].
Proof.
  destruct (vec_equivalent [log_stage "calibration" 1 1; log_stage "power:0" 3 9] log_fuzzer) as [ids E]; [done|done|].
  exists ids, (vec_perform_all [log_stage "calibration" 1 1; log_stage "power:0" 3 9] log_fuzzer).2.
  split; [|vm_compute; reflexivity]. etrans; [exact E|]. reflexivity.
Defined.
