(* ===== verification/Tpe.v ===== *)
(** * Tpe: the optimizer of [feature_sched/tpe.rs]

    A tree-structured Parzen estimator over simplex vectors: log-ratio transform,
    logistic-normal sampling, the history of trials, the pool of candidates and the
    suggestion of the next vector.  The optimizer keeps its state behind a
    [RwLock]; a poisoned lock is not modelled. *)

From Stdlib Require Import ZArith Lia.
From S2P Require Import Prelude Float64 FloatFacts Rands Metadata State FrontierSets MaskSelection FeaturesMap.

Definition MAX_TRIALS : usize := Nat.pow 2 10.
Definition INVERSE_LAMBDA : f64 := f_half.
Definition MIN_POSITIVE : f64 := S754_finite false 4503599627370496 (-1074).
Definition f_pi : f64 := S754_finite false 7074237752028440 (-51).

Record TpeParams := mkTpeParams {
  gamma : f64;
  samples : usize;
  bw : f64;
  period : Duration;
  trials_threshold : usize;
  re_tpe_threshold : Duration;
}.
Definition from_secs (secs : Z) : Duration := (secs * 1000000000)%Z.
Definition as_millis (d : Duration) : Z := (d / 1000000)%Z.
Definition TpeParams_default : TpeParams :=
  mkTpeParams f_0_15 16 f_0_05 (from_secs 600) 5 (from_secs 3600).

Record TpeTrial := mkTrial {
  tr_iteration : u64;
  tr_vector : list f64;
  tr_reward : f64;
  tr_active_start_ms : u64;
  tr_active_end_ms : u64;
}.

Record TpeState := mkTpeState {
  trials : list TpeTrial;
  last_vec : list f64;
  lock_best_flag : bool;
  best_fixed : list f64;
  restored_once : bool;
}.
Definition TpeState_default : TpeState := mkTpeState [] [] false [] false.

#[global] Instance eta_TpeTrial : Eta TpeTrial :=
  λ r, mkTrial (tr_iteration r) (tr_vector r) (tr_reward r) (tr_active_start_ms r) (tr_active_end_ms r).
#[global] Instance eta_TpeState : Eta TpeState :=
  λ r, mkTpeState (trials r) (last_vec r) (lock_best_flag r) (best_fixed r) (restored_once r).

(** [normalize_simplex_eps(v)] with the equal simplex on an error. *)
Definition normalize_or_equal (v : list f64) : list f64 :=
  default (equal_simplex (length v)) (ok_or_none (normalize_simplex_eps v)).

Definition neg_inf_max (l : list f64) : f64 := foldl fmax f_neg_inf l.

Section Densities.
Context `{Libm}.

Definition alr (simplex_v : list f64) : list f64 :=
  let w := normalize_or_equal simplex_v in
  let k := length w in
  if k <=? 1 then []
  else
    let ref_w := fmax (default f0 (w !! (k - 1))) EPS in
    (λ wi, fln (fdiv (fmax wi EPS) ref_w)) <$> take (k - 1) w.

Definition softmax (z : list f64) : list f64 :=
  match z with
  | [] => []
  | _ =>
    let max_z := neg_inf_max z in
    let exps := (λ v, fexp (fsub v max_z)) <$> z in
    let sum := fsum exps in
    if negb (is_finite sum) || fle sum f0 then
      replicate (length z) (fdiv f1 (of_nat (length z)))
    else (λ v, fdiv v sum) <$> exps
  end.

Definition alr_inverse (u : list f64) : list f64 :=
  match u with
  | [] => [f1]
  | _ => softmax (u ++ [f0])
  end.

(** [u1.clamp(f64::MIN_POSITIVE, 1.0)] cannot panic. *)
Definition rand_gaussian (rng : StdRand) : f64 * StdRand :=
  let '(x1, rng) := next_float rng in
  let u1 := default f1 (ok_or_none (clamp (E := Error) x1 MIN_POSITIVE f1)) in
  let '(u2, rng) := next_float rng in
  let r := fsqrt (fmul (fneg f2) (fln u1)) in
  let theta := fmul (fmul f2 f_pi) u2 in
  (fmul r (fcos theta), rng).

Fixpoint perturb (h : f64) (u : list f64) (rng : StdRand) : list f64 * StdRand :=
  match u with
  | [] => ([], rng)
  | x :: u =>
    let '(g, rng) := rand_gaussian rng in
    let '(u, rng) := perturb h u rng in
    (fadd x (fmul h g) :: u, rng)
  end.

Definition logistic_normal_sample (center_simplex : list f64) (bw : f64) (rng : StdRand) :
    list f64 * StdRand :=
  let center := normalize_or_equal center_simplex in
  if length center <=? 1 then (replicate (Nat.max (length center) 1) f1, rng)
  else
    let u := alr center in
    let h := fmax bw EPS in
    let '(u, rng) := perturb h u rng in
    (alr_inverse u, rng).

Definition logistic_normal_log_pdf (x_simplex center_simplex : list f64) (bw : f64) : f64 :=
  if negb (length x_simplex =? length center_simplex) || (length x_simplex =? 0) then f_neg_inf
  else if length x_simplex =? 1 then f0
  else
    let h := fmax bw EPS in
    let x := alr x_simplex in
    let c := alr center_simplex in
    if negb (length x =? length c) then f_neg_inf
    else
      let d := of_nat (length x) in
      let sq := fsum (zip_with (λ a b, let z := fdiv (fsub a b) h in fmul z z) x c) in
      fsub (fsub (fmul (fneg f_half) sq) (fmul d (fln h)))
           (fmul (fmul f_half d) (fln (fmul f2 f_pi))).

Definition kde_log_pdf (x_simplex : list f64) (centers : list (list f64)) (bw : f64) : f64 :=
  match centers with
  | [] => f_neg_inf
  | _ =>
    let vals := (λ c, logistic_normal_log_pdf x_simplex c bw) <$> centers in
    let max_v := neg_inf_max vals in
    if negb (is_finite max_v) then f_neg_inf
    else
      let sum := fsum ((λ v, fexp (fsub v max_v)) <$> vals) in
      fsub (fadd max_v (fln sum)) (fln (of_nat (length centers)))
  end.

(** [centers[idx]] is in range: [below] is less than the length. *)
Definition sample_one_from_kde (centers : list (list f64)) (bw : f64) (rng : StdRand) :
    option (list f64) * StdRand :=
  match centers with
  | [] => (None, rng)
  | _ =>
    let '(idx, rng) := below (length centers) rng in
    let '(v, rng) := logistic_normal_sample (default [] (centers !! idx)) bw rng in
    (Some v, rng)
  end.

Definition inverse_simplex (best : list f64) : list f64 :=
  let inv := (λ w, fdiv f1 (fpowf (fadd (fmax w f0) EPS) INVERSE_LAMBDA)) <$> best in
  match normalize_simplex_eps inv with
  | Ok v => v
  | _ => replicate (length best) (fdiv f1 (of_nat (Nat.max (length best) 1)))
  end.
End Densities.

Fixpoint exact_sum (idx : nat) (v : list f64) (sum : f64) : outcome Error f64 :=
  match v with
  | [] => Ok sum
  | value :: v =>
    if negb (is_finite value) then
      Err (illegal_argument "BOFuzz vector error: non-finite simplex weight at index {}" [ANat idx])
    else if flt value f0 then
      Err (illegal_argument "BOFuzz vector error: negative simplex weight at index {}" [ANat idx])
    else exact_sum (S idx) v (fadd sum value)
  end.

Definition normalize_simplex_exact (v : list f64) : outcome Error (list f64) :=
  match v with
  | [] => Ok []
  | _ =>
    let? sum := exact_sum 0 v f0 in
    if negb (is_finite sum) || fle sum f0 then
      Err (illegal_argument "BOFuzz vector error: simplex denominator is zero" [])
    else Ok ((λ value, fdiv value sum) <$> v)
  end.

(** ** The optimizer *)

Record TpeOptimizer := mkOptimizer { params : TpeParams; op_state : TpeState }.
#[global] Instance eta_TpeOptimizer : Eta TpeOptimizer := λ r, mkOptimizer (params r) (op_state r).

Definition optimizer_new (p : TpeParams) : TpeOptimizer := mkOptimizer p TpeState_default.

(** A restored trial keeps the index it has in the history as its iteration. *)
Fixpoint restore_trials (i : nat) (l : list (list f64 * f64 * u64)) : list TpeTrial :=
  match l with
  | [] => []
  | (v, r, ts) :: l =>
    match normalize_simplex_eps v with
    | Ok simplex => mkTrial (Z.of_nat i) simplex r ts ts :: restore_trials (S i) l
    | _ => restore_trials (S i) l
    end
  end.

Definition restore_once (s : State) (t : TpeState) : TpeState :=
  if restored_once t then t
  else
    let t := t <| restored_once := true |> in
    match m_history s with
    | Some meta =>
      t <| trials := restore_trials 0 (th_trials meta) |>
        <| last_vec := default [] (ok_or_none (normalize_simplex_eps (th_last_vec meta))) |>
    | None => t
    end.

Definition set_last_vec (v : list f64) (t : TpeState) : TpeState :=
  t <| last_vec := default v (ok_or_none (normalize_simplex_eps v)) |>.

Definition is_locked (t : TpeState) : bool := lock_best_flag t.

(** [Iterator::max_by]: the last of the maximal elements; [partial_cmp(..).unwrap()]
    panics on NaN. *)
Fixpoint max_by_reward (best : TpeTrial) (l : list TpeTrial) : outcome Error TpeTrial :=
  match l with
  | [] => Ok best
  | t :: l =>
    let? c := unwrap (partial_cmp (tr_reward best) (tr_reward t)) in
    max_by_reward (match c with Gt => best | _ => t end) l
  end.

Definition best_by_reward (t : TpeState) : outcome Error (option (list f64)) :=
  match trials t with
  | [] => Ok None
  | t0 :: l => let? b := max_by_reward t0 l in Ok (Some (tr_vector b))
  end.

Definition lock_best (t : TpeState) : outcome Error TpeState :=
  let? best := best_by_reward t in
  let best := match best with
              | Some v => Some v
              | None => match last_vec t with [] => None | _ => Some (last_vec t) end
              end in
  let t := match best with Some b => t <| best_fixed := b |> | None => t end in
  Ok (t <| lock_best_flag := true |>).

Definition unlock (t : TpeState) : TpeState := t <| lock_best_flag := false |>.

Definition best_vec (t : TpeState) : outcome Error (option (list f64)) :=
  match best_fixed t with
  | [] => best_by_reward t
  | _ => Ok (Some (best_fixed t))
  end.

Definition observe_trial (iteration : u64) (vector : list f64) (reward : f64)
    (active_start active_end : u64) (t : TpeState) : TpeState :=
  match normalize_simplex_eps vector with
  | Ok vector =>
    let push :=
      let ts := trials t ++ [mkTrial iteration vector reward active_start active_end] in
      t <| trials := drop (length ts - MAX_TRIALS) ts |> in
    match last (trials t) with
    | Some l =>
      if (tr_iteration l =? iteration)%Z || vecn_eq (tr_vector l) vector f_1e_6 then
        if flt (tr_reward l) reward then
          t <| trials := take (length (trials t) - 1) (trials t) ++
                 [l <| tr_reward := reward |> <| tr_active_end_ms := active_end |>] |>
        else t
      else push
    | None => push
    end
  | _ => t
  end.

(** ** Candidates: the optimizer, the generator and the fuzzer state *)

Record Ctx := mkCtx { c_opt : TpeOptimizer; c_rng : StdRand; c_st : State }.
#[global] Instance eta_Ctx : Eta Ctx := λ r, mkCtx (c_opt r) (c_rng r) (c_st r).

Definition opt_state (c : Ctx) : TpeState := op_state (c_opt c).
Definition set_opt_state (t : TpeState) (c : Ctx) : Ctx :=
  c <| c_opt := (c_opt c) <| op_state := t |> |>.

(** Run a sampling function on the generator. *)
Definition sample {A} (f : StdRand → A * StdRand) : M Ctx A := λ c,
  let '(a, rng) := f (c_rng c) in (Ok a, c <| c_rng := rng |>).

Fixpoint drop_seen (hist pool : list (list f64)) : list (list f64) :=
  match pool with
  | [] => []
  | front :: rest =>
    if existsb (λ h, (length h =? length front) && vecn_eq h front f_1e_3) hist
    then drop_seen hist rest
    else pool
  end.

Definition next_untried_from_pool : M Ctx (option (list f64)) := λ c,
  let hist := tr_vector <$> trials (opt_state c) in
  match drop_seen hist (get_v_candidates (c_st c)) with
  | [] => (Ok None, c <| c_st := replace_v_candidates [] (c_st c) |>)
  | raw :: pool =>
    (Ok (ok_or_none (normalize_simplex_eps raw)),
     c <| c_st := replace_v_candidates pool (c_st c) |>)
  end.

Section Optimizer.
Context `{Libm}.

Fixpoint enqueue_samples_n (n : nat) (center : list f64) : M Ctx () :=
  match n with
  | O => ret ()
  | S n =>
    p <- gets (λ c, params (c_opt c)) ;;
    cand <- sample (logistic_normal_sample center (bw p)) ;;
    modify (λ c, c <| c_st := push_v_candidate cand (c_st c) |>) ;;;
    enqueue_samples_n n center
  end.

Definition enqueue_samples_around (center : list f64) (count : usize) : M Ctx () :=
  enqueue_samples_n (Nat.max count 1) center.

Definition enqueue_exact_then_neighbor_candidates (exact_center : list f64) : M Ctx () :=
  active_dim <- gets (λ c, get_active_dim (c_st c)) ;;
  if negb (length exact_center =? active_dim) then
    throw (illegal_argument "BOFuzz vector error: exact center length {} != active_dim {}"
             [ANat (length exact_center); ANat active_dim])
  else if active_dim =? 0 then ret ()
  else
    exact_normalized_center <- lift (normalize_simplex_exact exact_center) ;;
    modify (λ c, c <| c_st := push_v_candidate exact_normalized_center (c_st c) |>) ;;;
    p <- gets (λ c, params (c_opt c)) ;;
    enqueue_samples_around exact_normalized_center (samples p).

Definition enqueue_inverse_candidates : M Ctx () :=
  t <- gets opt_state ;;
  best <- lift (best_vec t) ;;
  match best with
  | Some best =>
    p <- gets (λ c, params (c_opt c)) ;;
    enqueue_samples_around (inverse_simplex best) (samples p) ;;;
    modify (λ c, set_opt_state (unlock (opt_state c)) c)
  | None => ret ()
  end.

Definition init_candidate : M Ctx (option (list f64)) :=
  v <- next_untried_from_pool ;;
  match v with
  | Some v => ret (Some v)
  | None =>
    active_dim <- gets (λ c, get_active_dim (c_st c)) ;;
    if active_dim =? 0 then ret None
    else
      meta <- gets (λ c, m_mask (c_st c)) ;;
      let center :=
        match normalized_credit_init_v <$> meta with
        | Some v =>
          if length v =? active_dim then
            default (replicate active_dim (fdiv f1 (of_nat active_dim)))
              (ok_or_none (normalize_simplex_eps v))
          else replicate active_dim (fdiv f1 (of_nat active_dim))
        | None => replicate active_dim (fdiv f1 (of_nat active_dim))
        end in
      p <- gets (λ c, params (c_opt c)) ;;
      v <- sample (logistic_normal_sample center (bw p)) ;;
      ret (Some v)
  end.

Definition cmp_reward (a b : TpeTrial) : comparison :=
  default Eq (partial_cmp (tr_reward b) (tr_reward a)).

(** The number of trials in the good set before ties: [ceil(len * gamma)] in
    [1..=len]. *)
Definition good_count (gamma : f64) (len : nat) : nat :=
  Nat.min (Nat.max (as_usize (fceil (fmul (of_nat len) gamma))) 1) len.

Definition split_good_bad (p : TpeParams) (t : TpeState) :
    outcome Error (option (list (list f64) * list (list f64))) :=
  if length (trials t) <? Nat.max (trials_threshold p) 2 then Ok None
  else
    let sorted := sort_by cmp_reward (trials t) in
    let k := good_count (gamma p) (length sorted) in
    let? kth := unwrap (sorted !! (k - 1)) in
    let threshold := tr_reward kth in
    let good := tr_vector <$> filter (λ t, fle threshold (tr_reward t) = true) (trials t) in
    let bad := tr_vector <$> filter (λ t, fle threshold (tr_reward t) ≠ true) (trials t) in
    match good, bad with
    | [], _ | _, [] => Ok None
    | _, _ => Ok (Some (good, bad))
    end.

(** The sampling loop: keeps the candidate with the best finite density ratio. *)
Fixpoint best_sample (n : nat) (good bad : list (list f64)) (best : option (list f64) * f64) :
    M Ctx (option (list f64) * f64) :=
  match n with
  | O => ret best
  | S n =>
    p <- gets (λ c, params (c_opt c)) ;;
    ocand <- sample (sample_one_from_kde good (bw p)) ;;
    match ocand with
    | None => best_sample n good bad best
    | Some candidate =>
      let log_l := kde_log_pdf candidate good (bw p) in
      let log_g := kde_log_pdf candidate bad (bw p) in
      let score := fsub log_l log_g in
      best_sample n good bad
        (if is_finite score && flt best.2 score then (Some candidate, score) else best)
    end
  end.

Definition suggest_next : M Ctx (option (list f64)) :=
  t <- gets opt_state ;;
  if is_locked t then ret None
  else
    v <- next_untried_from_pool ;;
    match v with
    | Some v => ret (Some v)
    | None =>
      p <- gets (λ c, params (c_opt c)) ;;
      t <- gets opt_state ;;
      split <- lift (split_good_bad p t) ;;
      match split with
      | None => init_candidate
      | Some (good, bad) =>
        best <- best_sample (Nat.max (samples p) 1) good bad (None, f_neg_inf) ;;
        let '(best_candidate, best_score) := best : option (list f64) * f64 in
        if is_finite best_score && flt f0 best_score then ret best_candidate
        else
          t <- gets opt_state ;;
          t <- lift (lock_best t) ;;
          modify (set_opt_state t) ;;;
          ret None
      end
    end.

Context `{Env}.

Definition persist_to_meta (t : TpeState) : M State () :=
  now <- now_ms ;;
  modify (λ s,
    let meta := default TpeHistoryMeta_default (m_history s) in
    s <| m_history := Some (mkTpeHistory
      ((λ t, (tr_vector t, tr_reward t, tr_active_end_ms t)) <$> trials t)
      (last_vec t) (Some now) (th_last_corpus meta) (th_last_cov meta) MAX_TRIALS) |>).

Definition trial_line (it : nat * TpeTrial) : Msg :=
  fmt "[tpe-trial #{i}] iteration={} reward=ΔEdges={:.3} simplex=[{}] len={}"
    [ANat it.1; AInt (tr_iteration it.2); AFloat 3 (tr_reward it.2);
     AJoin "," (AFloat 4 <$> tr_vector it.2); ANat (length (tr_vector it.2))].

(** [writeln!] ends every line with a newline. *)
Definition snapshot_trials_text (t : TpeState) : Msg :=
  let header := fmt "[tpe-trials] count={}" [ANat (length (trials t))] in
  let lines := trial_line <$> zip (seq 0 (length (trials t))) (trials t) in
  fmt "{}" [AJoin "" ((λ l, AJoin "" [AMsg l; AStr newline]) <$> header :: lines)].
End Optimizer.
