(* ===== verification/TpeFacts.v ===== *)
(** * TpeFacts: what the optimizer guarantees

    Samples and suggestions are vectors of the unit cube with the active dimension,
    the split into good and bad trials is a partition by reward, the best trial has
    the largest reward, and the optimizer never panics. *)

From Stdlib Require Import ZArith Lia.
From S2P Require Import Prelude Float64 FloatFacts Rands Metadata State FrontierSets MaskSelection FeaturesMap Tpe.

(** A dimension that converts to [f64] exactly. *)
Definition small (d : nat) : Prop := (Z.of_nat d < 2 ^ 53)%Z.

Lemma candidate_ok_valid d v : candidate_ok d v → Forall fvalid v.
Proof.
  intros [_ HF]. eapply Forall_impl; [exact HF|]. intros x (Hx & _). by apply fnn_valid.
Qed.

(** ** Samples *)

Lemma normalize_or_equal_ok v : Forall fvalid v → small (length v) →
  candidate_ok (length v) (normalize_or_equal v).
Proof.
  intros HV Hs. destruct (normalize_or_equal_unit v (length v) HV Hs eq_refl) as [H1 H2].
  by split.
Qed.

Section Samples.
Context `{Libm} `{!LibmLaws _}.

Lemma fmax_valid a b : fvalid a → fvalid b → fvalid (fmax a b).
Proof. intros Ha Hb. unfold fmax. destruct (is_nan a), (flt a b); done. Qed.

Lemma lookup_default_valid (w : list f64) i : Forall fvalid w → fvalid (default f0 (w !! i)).
Proof.
  intros HV. destruct (w !! i) as [x|] eqn:E; simpl; [|done].
  rewrite Forall_lookup in HV. by eapply HV.
Qed.

Lemma alr_ok v : Forall fvalid v → small (length v) →
  length (alr v) = length v - 1 ∧ Forall fvalid (alr v).
Proof.
  intros HV Hs. destruct (normalize_or_equal_ok v HV Hs) as [Hl Hu] eqn:Eok.
  pose proof (candidate_ok_valid _ _ (conj Hl Hu)) as Hv.
  unfold alr. cbv zeta. rewrite Hl. destruct (Nat.leb_spec (length v) 1).
  { split; [simpl; lia|constructor]. }
  split; [rewrite length_fmap, length_take, Hl; lia|].
  apply Forall_fmap, Forall_take. eapply Forall_impl; [exact Hv|]. intros x Hx. simpl.
  apply fln_valid, fdiv_valid; apply fmax_valid; try done. by apply lookup_default_valid.
Qed.

Lemma next_float_valid (rng : StdRand) : fvalid (next_float rng).1.
Proof. unfold next_float. destruct (next rng). simpl. auto with f64. Qed.

Lemma rand_gaussian_valid rng : fvalid (rand_gaussian rng).1.
Proof.
  unfold rand_gaussian. pose proof (next_float_valid rng) as H1.
  destruct (next_float rng) as [x1 rng1]. pose proof (next_float_valid rng1) as H2.
  destruct (next_float rng1) as [u2 rng2]. cbn [fst] in *.
  assert (fvalid (default f1 (ok_or_none (clamp (E := Error) x1 MIN_POSITIVE f1)))) as Hu.
  { unfold clamp. change (fle MIN_POSITIVE f1) with true. cbn iota. simpl.
    repeat match goal with |- context [if ?b then _ else _] => destruct b end; done. }
  apply fmul_valid; [apply fsqrt_valid, fmul_valid; [done|]; by apply fln_valid|].
  apply fcos_valid, fmul_valid; done.
Qed.

Lemma perturb_ok h u rng : fvalid h → Forall fvalid u →
  length (perturb h u rng).1 = length u ∧ Forall fvalid (perturb h u rng).1.
Proof.
  intros Hh. revert rng. induction u as [|x u IH]; intros rng HV; cbn [perturb]; [done|].
  apply Forall_cons in HV as [Vx HV]. pose proof (rand_gaussian_valid rng) as Hg.
  destruct (rand_gaussian rng) as [g rng1]. destruct (IH rng1 HV) as [Hl Hv].
  destruct (perturb h u rng1) as [u' rng2]. cbn [fst length] in *. split; [lia|].
  constructor; [auto with f64|done].
Qed.

Lemma neg_inf_max_valid l : Forall fvalid l → fvalid (neg_inf_max l).
Proof.
  unfold neg_inf_max. assert (fvalid f_neg_inf) as Ha by done. revert Ha.
  generalize f_neg_inf. induction l as [|x l IH]; intros a Ha HV; simpl; [done|].
  apply Forall_cons in HV as [Vx HV]. apply IH; [by apply fmax_valid|done].
Qed.

Lemma fexp_fnn x : fvalid x → is_nan (fexp x) = false → fnn (fexp x).
Proof. intros Hx Hn. apply fnn_guard; [by apply fexp_valid|done|by apply fexp_nonneg]. Qed.

(** If a sum of valid floats is finite, no term is NaN. *)
Lemma fadd_nan a b : is_nan (fadd a b) = false → is_nan a = false ∧ is_nan b = false.
Proof. destruct a as [[]|[]| |], b as [[]|[]| |]; done. Qed.

Lemma fold_fadd_not_nan l acc : is_nan (foldl fadd acc l) = false →
  is_nan acc = false ∧ Forall (λ x, is_nan x = false) l.
Proof.
  revert acc. induction l as [|x l IH]; intros acc Hn; simpl in *; [done|].
  destruct (IH _ Hn) as [[? ?]%fadd_nan ?]. split; [done|]. by constructor.
Qed.

Lemma softmax_ok z : Forall fvalid z → z ≠ [] → small (length z) →
  candidate_ok (length z) (softmax z).
Proof.
  intros HV Hne Hs. unfold softmax. destruct z as [|z0 zs] eqn:Ez; [done|]. rewrite <-Ez in *.
  cbv zeta. set (exps := _ <$> z). clear Hne Ez z0 zs.
  assert (Forall fvalid exps) as HVe.
  { apply Forall_fmap. eapply Forall_impl; [exact HV|]. intros x Hx. simpl.
    apply fexp_valid, fsub_valid; [done|]. by apply neg_inf_max_valid. }
  destruct (is_finite (fsum exps)) eqn:F; simpl.
  2: { split; [apply length_replicate|]. destruct z as [|x z]; [constructor|].
       apply Forall_replicate. unfold small in Hs. apply recip_unit. simpl in *. lia. }
  destruct (fle (fsum exps) f0) eqn:L.
  { split; [apply length_replicate|]. destruct z as [|x z]; [constructor|].
    apply Forall_replicate. unfold small in Hs. apply recip_unit. simpl in *. lia. }
  assert (is_nan (fsum exps) = false) as Hn by by destruct (fsum exps).
  assert (Forall fnn exps) as HN.
  { unfold fsum in Hn. apply fold_fadd_not_nan in Hn as [_ Hn].
    unfold exps in *. apply Forall_fmap. apply Forall_fmap in Hn.
    apply Forall_lookup. intros i x Hx. rewrite Forall_lookup in HV, Hn. simpl.
    apply fexp_fnn; [|by eapply Hn]. apply fsub_valid; [by eapply HV|].
    apply neg_inf_max_valid, Forall_lookup, HV. }
  assert (fnn (fsum exps)) as Ht by (apply fold_fadd_fnn; [apply fneg0_fnn|done]).
  assert (0 < fv (fsum exps))%Z as Hpos.
  { pose proof (flt_total f0 (fsum exps) eq_refl Hn) as Hx. rewrite L in Hx.
    symmetry in Hx. apply negb_false_iff in Hx. by apply fgt0_fv; [apply fnn_valid|..]. }
  destruct (fold_fadd_ge exps fneg0 fneg0_fnn HN F) as [_ Hle].
  split; [by unfold exps; rewrite !length_fmap|].
  apply Forall_fmap, Forall_lookup. intros i y Hy. simpl.
  rewrite Forall_lookup in HN, Hle. destruct (Hle _ _ Hy) as [Fy Hy'].
  apply fdiv_unit; [by eapply HN|done|done|done|exact Hy'|done].
Qed.

(** A logistic-normal sample has the dimension of its center, in the unit cube. *)
Lemma logistic_normal_sample_ok center b rng :
  Forall fvalid center → small (length center) → fvalid b → center ≠ [] →
  candidate_ok (length center) (logistic_normal_sample center b rng).1.
Proof.
  intros HV Hs Hb Hne. unfold logistic_normal_sample. cbv zeta.
  destruct (normalize_or_equal_ok center HV Hs) as [Hl Hu].
  set (w := normalize_or_equal center) in *. rewrite Hl.
  destruct (Nat.leb_spec (length center) 1).
  { simpl. replace (Nat.max (length center) 1) with (length center)
      by (destruct center; [done|simpl in *; lia]).
    split; [apply length_replicate|]. by apply Forall_replicate. }
  assert (Forall fvalid w) as HVw by by eapply candidate_ok_valid.
  destruct (alr_ok w HVw) as [Hal Hav]; [by rewrite Hl|].
  destruct (perturb_ok (fmax b EPS) (alr w) rng) as [Hpl Hpv]; [by apply fmax_valid|done|].
  destruct (perturb _ _ _) as [u rng']. cbn [fst] in *.
  assert (length (u ++ [f0]) = length center) as Hlen by (rewrite length_app; simpl; lia).
  unfold alr_inverse. destruct u as [|u0 us] eqn:Eu; [simpl in *; lia|]. rewrite <-Eu in *.
  rewrite <-Hlen. apply softmax_ok; [|by destruct u|by rewrite Hlen].
  apply Forall_app. split; [done|]. by repeat constructor.
Qed.

Lemma next_float_inv (rng : StdRand) : rand_inv rng → rand_inv (next_float rng).2.
Proof. intros Hr. apply next_float_unit. done. Qed.

Lemma rand_gaussian_inv rng : rand_inv rng → rand_inv (rand_gaussian rng).2.
Proof.
  intros Hr. unfold rand_gaussian. pose proof (next_float_inv rng Hr) as H1.
  destruct (next_float rng) as [x1 rng1]. pose proof (next_float_inv rng1 H1) as H2.
  by destruct (next_float rng1).
Qed.

Lemma perturb_inv h u rng : rand_inv rng → rand_inv (perturb h u rng).2.
Proof.
  revert rng. induction u as [|x u IH]; intros rng Hr; cbn [perturb]; [done|].
  pose proof (rand_gaussian_inv rng Hr) as H1. destruct (rand_gaussian rng) as [g rng1].
  specialize (IH rng1 H1). by destruct (perturb h u rng1).
Qed.

Lemma logistic_normal_sample_inv center b rng : rand_inv rng →
  rand_inv (logistic_normal_sample center b rng).2.
Proof.
  intros Hr. unfold logistic_normal_sample. cbv zeta. destruct (_ <=? _); [done|].
  pose proof (perturb_inv (fmax b EPS) (alr (normalize_or_equal center)) rng Hr) as Hp.
  by destruct (perturb _ _ _).
Qed.

Lemma sample_one_ok d centers b rng :
  centers ≠ [] → Forall (candidate_ok d) centers → small d → d ≠ 0 → fvalid b →
  (Z.of_nat (length centers) ≤ u64_max)%Z → rand_inv rng →
  ∃ v rng', sample_one_from_kde centers b rng = (Some v, rng') ∧ candidate_ok d v ∧ rand_inv rng'.
Proof.
  intros Hne HF Hs Hd Hb Hlen Hr. unfold sample_one_from_kde.
  destruct centers as [|c0 cs] eqn:Ec; [done|]. rewrite <-Ec in *.
  assert (0 < length centers) as Hpos by (rewrite Ec; simpl; lia).
  destruct (below_lt (length centers) rng Hr Hpos Hlen) as [Hlt Hr1].
  destruct (below (length centers) rng) as [idx rng1]. cbn [fst snd] in *.
  apply lookup_lt_is_Some in Hlt as [c Hc]. rewrite Hc.
  change (default [] (Some c)) with c.
  assert (candidate_ok d c) as Hok by (rewrite Forall_lookup in HF; by eapply HF).
  destruct (logistic_normal_sample_ok c b rng1) as [Hl Hu];
    [by eapply candidate_ok_valid|unfold small in *; by destruct Hok as [-> _]|done|
     destruct Hok as [Hx _]; by destruct c|].
  pose proof (logistic_normal_sample_inv c b rng1 Hr1) as Hri.
  destruct (logistic_normal_sample c b rng1) as [v rng2]. cbn [fst snd] in *.
  exists v, rng2. split_and!; [done| |done]. destruct Hok as [<- _]. by split.
Qed.
End Samples.

(** ** Rewards and the best trial *)

Definition reward_ok (t : TpeTrial) : Prop := fvalid (tr_reward t) ∧ is_nan (tr_reward t) = false.

Definition rkey (t : TpeTrial) : Z := fkey (tr_reward t).

Lemma partial_cmp_reward a b : reward_ok a → reward_ok b →
  partial_cmp (tr_reward a) (tr_reward b) = Some (rkey a ?= rkey b)%Z.
Proof. intros [] []. by apply partial_cmp_key. Qed.

Lemma fle_reward a b : reward_ok a → reward_ok b →
  fle (tr_reward a) (tr_reward b) = (rkey a <=? rkey b)%Z.
Proof. intros [] []. by apply fle_key. Qed.

Lemma max_by_reward_ok best l : Forall reward_ok (best :: l) →
  ∃ m, max_by_reward best l = Ok m ∧ m ∈ best :: l ∧ ∀ t, t ∈ best :: l → (rkey t ≤ rkey m)%Z.
Proof.
  revert best. induction l as [|t l IH]; intros best HF; cbn [max_by_reward].
  { exists best. split_and!; [done|left|]. intros t [->|H]%elem_of_cons; [lia|by apply elem_of_nil in H]. }
  apply Forall_cons in HF as [Hb HF]. apply Forall_cons in HF as [Ht HF].
  rewrite partial_cmp_reward by done. cbn [unwrap obind].
  set (b' := match (rkey best ?= rkey t)%Z with Gt => best | _ => t end).
  assert (reward_ok b' ∧ (rkey best ≤ rkey b')%Z ∧ (rkey t ≤ rkey b')%Z ∧ (b' = best ∨ b' = t))
    as (Hb' & H1 & H2 & H3).
  { unfold b'. destruct (Z.compare_spec (rkey best) (rkey t)); split_and!; auto; lia. }
  destruct (IH b') as (m & Hm & Hin & Hmax); [by constructor|].
  exists m. split_and!; [done| |].
  - rewrite !elem_of_cons in *. naive_solver.
  - intros x Hx. rewrite !elem_of_cons in Hx.
    assert (rkey b' ≤ rkey m)%Z by (apply Hmax; left).
    destruct Hx as [->|[->|Hx]]; [lia|lia|]. apply Hmax. by right.
Qed.

(** [best_by_reward] never panics on rewards that are numbers, and returns the
    vector of a trial whose reward is maximal. *)
Lemma best_by_reward_ok t : Forall reward_ok (trials t) →
  ∃ o, best_by_reward t = Ok o ∧ (o = None ↔ trials t = []) ∧
    ∀ v, o = Some v → ∃ m, m ∈ trials t ∧ tr_vector m = v ∧
      ∀ x, x ∈ trials t → fle (tr_reward x) (tr_reward m) = true.
Proof.
  intros HF. unfold best_by_reward. destruct (trials t) as [|t0 l] eqn:Et; [by exists None|].
  destruct (max_by_reward_ok t0 l HF) as (m & -> & Hin & Hmax). simpl.
  exists (Some (tr_vector m)). split_and!; [done|done|]. intros v [= <-]. exists m.
  split_and!; [done|done|]. intros x Hx. rewrite Forall_forall in HF.
  rewrite fle_reward by auto. apply Z.leb_le. by apply Hmax.
Qed.

(** ** Good and bad trials *)

Lemma cmp_reward_le a b : reward_ok a → reward_ok b →
  cmp_le cmp_reward a b ↔ (rkey b ≤ rkey a)%Z.
Proof.
  intros Ha Hb. unfold cmp_le, cmp_reward. rewrite partial_cmp_reward by done. simpl.
  destruct (Z.compare_spec (rkey b) (rkey a)); naive_solver lia.
Qed.

Lemma sort_reward_sorted l : Forall reward_ok l →
  StronglySorted (cmp_le cmp_reward) (sort_by cmp_reward l).
Proof.
  apply sort_by_sorted.
  - intros x y z Hx Hy Hz. rewrite !cmp_reward_le by done. lia.
  - intros x y Hx Hy Hgt. rewrite cmp_reward_le by done.
    assert (¬ cmp_le cmp_reward x y) as Hn by (unfold cmp_le; intros H'; by apply H').
    rewrite cmp_reward_le in Hn by done. lia.
Qed.

Lemma good_count_range g n : 0 < n → 1 ≤ good_count g n ≤ n.
Proof. unfold good_count. lia. Qed.

Lemma filter_sublist_count {A} (P : A → Prop) `{!∀ x, Decision (P x)} (l : list A) k :
  Forall P (take k l) → k ≤ length l → k ≤ length (filter P l).
Proof.
  intros HF Hk. rewrite <-(take_drop k l), filter_app, length_app, filter_all by done.
  rewrite length_take. lia.
Qed.

(** The split on enough trials: it succeeds; if it is not refused, the good and the
    bad vectors partition the history in order, every good reward is above every
    bad one, and at least [ceil(len * gamma)] (at least one) trials are good. *)
Lemma split_good_bad_ok p t : Forall reward_ok (trials t) →
  ∃ o, split_good_bad p t = Ok o ∧
    ∀ good bad, o = Some (good, bad) →
      Nat.max (trials_threshold p) 2 ≤ length (trials t) ∧
      ∃ gs bs, good = tr_vector <$> gs ∧ bad = tr_vector <$> bs ∧
        gs ++ bs ≡ₚ trials t ∧ gs ≠ [] ∧ bs ≠ [] ∧
        good_count (gamma p) (length (trials t)) ≤ length gs ∧
        ∀ g b, g ∈ gs → b ∈ bs → flt (tr_reward b) (tr_reward g) = true.
Proof.
  intros HF. unfold split_good_bad.
  destruct (Nat.ltb_spec (length (trials t)) (Nat.max (trials_threshold p) 2)) as [|Hlen];
    [by exists None|].
  cbv zeta. set (srt := sort_by cmp_reward (trials t)).
  assert (srt ≡ₚ trials t) as Hperm by apply sort_by_perm.
  assert (length srt = length (trials t)) as Hls by (by rewrite Hperm).
  rewrite Hls. pose proof (good_count_range (gamma p) (length (trials t)) ltac:(lia)) as Hk.
  set (k := good_count (gamma p) (length (trials t))) in *.
  destruct (lookup_lt_is_Some_2 srt (k - 1)) as [kth Hkth]; [lia|]. rewrite Hkth. simpl.
  set (gs := filter (λ x, fle (tr_reward kth) (tr_reward x) = true) (trials t)).
  set (bs := filter (λ x, fle (tr_reward kth) (tr_reward x) ≠ true) (trials t)).
  assert (Forall reward_ok srt) as HFs by by rewrite Hperm.
  assert (reward_ok kth) as Hok by (rewrite Forall_lookup in HFs; by eapply HFs).
  assert (k ≤ length gs) as Hcount.
  { unfold gs. rewrite <-Hperm. apply filter_sublist_count; [|lia].
    apply Forall_lookup. intros i x Hx. apply lookup_take_Some in Hx as [Hx Hi].
    assert (reward_ok x) by (rewrite Forall_lookup in HFs; by eapply HFs).
    rewrite fle_reward by done. apply Z.leb_le.
    destruct (decide (i = k - 1)) as [->|]; [simplify_eq; lia|].
    apply cmp_reward_le; [done|done|].
    apply (sorted_take_drop _ (k - 1) srt); [by apply sort_reward_sorted|..].
    - apply list_elem_of_lookup. exists i. by rewrite lookup_take_lt by lia.
    - apply list_elem_of_lookup. exists 0. rewrite lookup_drop. by rewrite Nat.add_0_r. }
  assert (gs ++ bs ≡ₚ trials t) as Hpart.
  { unfold gs, bs. clear. induction (trials t) as [|x l IH]; [done|].
    rewrite !filter_cons. destruct (decide (fle (tr_reward kth) (tr_reward x) = true)) as [Hx|Hx].
    - rewrite (decide_False (P := ¬ _)) by (intros Hn; by apply Hn). simpl. by rewrite IH.
    - rewrite (decide_True (P := ¬ _)) by done. rewrite <-Permutation_middle. by rewrite IH. }
  destruct (tr_vector <$> gs) as [|g0 gv] eqn:Eg; [by exists None|].
  destruct (tr_vector <$> bs) as [|b0 bv] eqn:Eb; [by exists None|].
  eexists. split; [done|]. intros good bad [= <- <-]. split; [done|].
  exists gs, bs. split_and!; [done|done|done|by intros Hn; rewrite Hn in Eg|
    by intros Hn; rewrite Hn in Eb|done|].
  intros g b [Hg Hg']%list_elem_of_filter [Hb Hb']%list_elem_of_filter.
  rewrite Forall_forall in HF. pose proof (HF _ Hg') as Rg. pose proof (HF _ Hb') as Rb.
  rewrite fle_reward in Hg, Hb by done. destruct Rg, Rb. rewrite flt_key by done.
  unfold rkey in *. apply Z.ltb_lt. apply Z.leb_le in Hg.
  destruct (Z.leb_spec (fkey (tr_reward kth)) (fkey (tr_reward b))); [done|lia].
Qed.

(** ** The history *)

Definition trial_ok (d : nat) (t : TpeTrial) : Prop := candidate_ok d (tr_vector t) ∧ reward_ok t.

(** A vector that is not set yet, or usable. *)
Definition vec_ok (d : nat) (v : list f64) : Prop := v = [] ∨ candidate_ok d v.

Record opt_inv (d : nat) (t : TpeState) : Prop := {
  oi_trials : Forall (trial_ok d) (trials t);
  oi_bound : length (trials t) ≤ MAX_TRIALS;
  oi_last : vec_ok d (last_vec t);
  oi_best : vec_ok d (best_fixed t);
}.

Lemma trials_reward_ok d t : opt_inv d t → Forall reward_ok (trials t).
Proof. intros [HF _ _ _]. eapply Forall_impl; [exact HF|]. by intros x []. Qed.

(** An observation adds at most one trial, drops the oldest beyond the limit, and
    keeps vectors in the unit cube. *)
Lemma observe_trial_ok d it v r a b t :
  opt_inv d t → Forall fvalid v → length v = d → fvalid r → is_nan r = false →
  opt_inv d (observe_trial it v r a b t).
Proof.
  intros Hinv HV Hl Hr Hn. unfold observe_trial.
  destruct (normalize_simplex_eps v) as [w|e|] eqn:Ew; [|done|done].
  destruct (normalize_simplex_ok v w HV Ew) as (Hlw & Hu & _).
  assert (trial_ok d (mkTrial it w r a b)) as Hnew by (split; [split; [simpl; lia|done]|done]).
  set (push := t <| trials := _ |>).
  assert (opt_inv d push) as Hpush.
  { unfold push. cbv zeta. split; cbn [trials upd eta_TpeState]; [| |apply Hinv..].
    - apply Forall_drop, Forall_app. split; [apply Hinv|]. by apply Forall_singleton.
    - rewrite length_drop. lia. }
  destruct (last (trials t)) as [l|] eqn:El; [|done].
  destruct (_ || _); [|done]. destruct (flt (tr_reward l) r); [|done].
  destruct Hinv as [HF Hb H1 H2].
  assert (trial_ok d l) as [Hc _].
  { rewrite Forall_forall in HF. apply HF. by apply last_Some_elem_of. }
  split; cbn [trials upd eta_TpeState]; [| |done..].
  - apply Forall_app. split; [by apply Forall_take|].
    apply Forall_singleton. split; [exact Hc|by split].
  - rewrite length_app, length_take. simpl.
    assert (length (trials t) ≠ 0) by (destruct (trials t); [done|simpl; lia]). lia.
Qed.

Lemma set_last_ok d v t : opt_inv d t → candidate_ok d v → opt_inv d (set_last_vec v t).
Proof.
  intros [T1 T2 T3 T4] Hv. split; try done. cbn. right.
  destruct (normalize_simplex_eps v) as [x|e|] eqn:Ex; [|done|done].
  destruct (normalize_simplex_ok v x (candidate_ok_valid _ _ Hv) Ex) as (Hl & Hu & _).
  split; [cbn; destruct Hv; lia|done].
Qed.

(** ** The pool of candidates *)

(** [s'] differs from [s] only in the candidate pool. *)
Definition pool_only (s s' : State) : Prop :=
  s' = s <| m_globals := m_globals s' |> ∧
  globals s' = (globals s) <| v_candidates := v_candidates (globals s') |>.

#[global] Instance pool_only_preorder : PreOrder pool_only.
Proof.
  split.
  - intros s. split; [by destruct s|]. by destruct (globals s).
  - intros s1 s2 s3 [E1 G1] [E2 G2]. split.
    + rewrite E2, E1. done.
    + rewrite G2, G1. done.
Qed.

Lemma replace_pool_only p s : pool_only s (replace_v_candidates p s).
Proof. split; [by destruct s|]. done. Qed.

Lemma push_pool_only v s : pool_only s (push_v_candidate v s).
Proof.
  split; [by destruct s|]. unfold push_v_candidate. rewrite globals_globals_mut.
  destruct (existsb _ _); [|done]. by destruct (globals s).
Qed.

Lemma pool_only_dim s s' : pool_only s s' → get_active_dim s' = get_active_dim s.
Proof. intros [_ G]. unfold get_active_dim. by rewrite G. Qed.

Lemma pool_only_mask s s' : pool_only s s' → m_mask s' = m_mask s.
Proof. intros [-> _]. done. Qed.

Lemma drop_seen_suffix hist pool : ∃ seen, pool = seen ++ drop_seen hist pool ∧
  Forall (λ v, existsb (λ h, (length h =? length v) && vecn_eq h v f_1e_3) hist = true) seen ∧
  ∀ v, head (drop_seen hist pool) = Some v →
    existsb (λ h, (length h =? length v) && vecn_eq h v f_1e_3) hist = false.
Proof.
  induction pool as [|v pool IH]; cbn [drop_seen].
  { exists []. split_and!; [done|constructor|done]. }
  destruct (existsb _ hist) eqn:E.
  - destruct IH as (seen & Hp & HF & Hh). exists (v :: seen). split_and!; [|by constructor|done].
    simpl. by rewrite <-Hp.
  - exists []. split_and!; [done|constructor|]. simpl. by intros ? [= <-].
Qed.

Record ctx_inv (d : nat) (c : Ctx) : Prop := {
  ci_opt : opt_inv d (opt_state c);
  ci_rng : rand_inv (c_rng c);
  ci_dim : get_active_dim (c_st c) = d;
  ci_pool : Forall (candidate_ok d) (get_v_candidates (c_st c));
  ci_init : ∀ m, m_mask (c_st c) = Some m → Forall fvalid (normalized_credit_init_v m);
  ci_bw : fvalid (bw (params (c_opt c)));
}.

(** The step keeps the optimizer's parameters, and of the state only the pool may
    change. *)
Definition ctx_step (c c' : Ctx) : Prop :=
  params (c_opt c') = params (c_opt c) ∧ pool_only (c_st c) (c_st c').

#[global] Instance ctx_step_preorder : PreOrder ctx_step.
Proof.
  split.
  - intros c. split; [done|reflexivity].
  - intros c1 c2 c3 [P1 S1] [P2 S2]. split; [congruence|by etrans].
Qed.

(** [next_untried_from_pool] returns a candidate that is not within the tolerance of
    any tried vector; it consumes the pool from the front and never panics. *)
Lemma next_untried_ok d c : ctx_inv d c →
  ∃ r c', next_untried_from_pool c = (Ok r, c') ∧ ctx_inv d c' ∧ ctx_step c c' ∧
    opt_state c' = opt_state c ∧
    (∀ v, r = Some v → candidate_ok d v ∧ ∃ seen raw rest,
       get_v_candidates (c_st c) = seen ++ raw :: rest ∧
       get_v_candidates (c_st c') = rest ∧ normalize_simplex_eps raw = Ok v ∧
       Forall (λ t, vecn_eq (tr_vector t) raw f_1e_3 = false) (trials (opt_state c))).
Proof.
  intros [Ho Hr Hd Hp Hi Hb]. unfold next_untried_from_pool.
  destruct (drop_seen_suffix (tr_vector <$> trials (opt_state c)) (get_v_candidates (c_st c)))
    as (seen & Hs & _ & Hh).
  assert (Forall (candidate_ok d) (drop_seen (tr_vector <$> trials (opt_state c))
    (get_v_candidates (c_st c)))) as Hds by (rewrite Hs, Forall_app in Hp; by destruct Hp).
  destruct (drop_seen _ _) as [|raw pool] eqn:E.
  - eexists None, _. split; [done|]. split_and!; [by split| |done|done].
    split; [done|]. apply replace_pool_only.
  - apply Forall_cons in Hds as [Hraw Hpool].
    eexists _, _. split; [done|]. split_and!; [by split| |done|].
    { split; [done|]. apply replace_pool_only. }
    intros v Hv. destruct (normalize_simplex_eps raw) as [w|e|] eqn:Ew; [|done|done].
    injection Hv as <-.
    destruct (normalize_simplex_ok raw w (candidate_ok_valid _ _ Hraw) Ew) as (Hl & Hu & _).
    split; [split; [destruct Hraw; lia|done]|].
    exists seen, raw, pool. split_and!; [done|done|done|].
    specialize (Hh raw eq_refl). apply Forall_forall. intros t Ht.
    destruct (vecn_eq (tr_vector t) raw f_1e_3) eqn:Ev; [|done]. exfalso.
    assert (existsb (λ h, (length h =? length raw) && vecn_eq h raw f_1e_3)
      (tr_vector <$> trials (opt_state c)) = true); [|congruence].
    apply existsb_exists. exists (tr_vector t).
    split; [by apply list_elem_of_In, list_elem_of_fmap_2|].
    rewrite Ev, andb_true_r. unfold vecn_eq in Ev. by apply andb_true_iff in Ev as [? _].
Qed.

(** ** Suggestions *)

Section Suggest.
Context `{Libm} `{!LibmLaws _}.

Lemma replicate_recip_ok d : small d → d ≠ 0 →
  candidate_ok d (replicate d (fdiv f1 (of_nat d))).
Proof.
  intros Hs Hd. split; [apply length_replicate|]. apply Forall_replicate, recip_unit.
  unfold small in Hs. lia.
Qed.

Lemma sample_center_ok d c center : ctx_inv d c → candidate_ok d center → small d → d ≠ 0 →
  ∃ v rng, logistic_normal_sample center (bw (params (c_opt c))) (c_rng c) = (v, rng) ∧
    candidate_ok d v ∧ ctx_inv d (c <| c_rng := rng |>).
Proof.
  intros [Ho Hr Hd Hp Hi Hb] Hc Hs Hd0.
  pose proof (logistic_normal_sample_inv center (bw (params (c_opt c))) (c_rng c) Hr) as Hri.
  destruct (logistic_normal_sample_ok center (bw (params (c_opt c))) (c_rng c)) as [Hl Hu];
    [by eapply candidate_ok_valid|destruct Hc as [-> _]; done|done|
     destruct Hc as [Hx _]; by destruct center|].
  destruct (logistic_normal_sample center _ _) as [v rng]. cbn [fst snd] in *.
  exists v, rng. split_and!; [done| |by split]. destruct Hc as [<- _]. by split.
Qed.

Lemma init_candidate_ok d c : ctx_inv d c → small d → d ≠ 0 →
  ∃ v c', init_candidate c = (Ok (Some v), c') ∧ ctx_inv d c' ∧ ctx_step c c' ∧
    opt_state c' = opt_state c ∧ candidate_ok d v.
Proof.
  intros Hc Hs Hd0. unfold init_candidate.
  destruct (next_untried_ok d c Hc) as (r & c1 & Hn & Hc1 & Hst & Ho1 & Hv).
  unfold bind. rewrite Hn. destruct r as [v|].
  { exists v, c1. split_and!; [done|done|done|done|]. by apply Hv. }
  unfold gets. rewrite (ci_dim _ _ Hc1). destruct (Nat.eqb_spec d 0); [done|].
  set (center := match _ with Some v => _ | None => _ end).
  assert (candidate_ok d center) as Hcen.
  { unfold center. destruct (m_mask (c_st c1)) as [m|] eqn:Em; simpl;
      [|by apply replicate_recip_ok].
    destruct (Nat.eqb_spec (length (normalized_credit_init_v m)) d) as [Hl|];
      [|by apply replicate_recip_ok].
    pose proof (ci_init _ _ Hc1 m Em) as HV.
    destruct (normalize_simplex_eps _) as [w|e|] eqn:Ew; simpl;
      [|by apply replicate_recip_ok..].
    destruct (normalize_simplex_ok _ _ HV Ew) as (? & ? & _). split; [lia|done]. }
  destruct (sample_center_ok d c1 center Hc1 Hcen Hs Hd0) as (v & rng & Hsm & Hok & Hc2).
  unfold sample. rewrite Hsm. exists v, (c1 <| c_rng := rng |>).
  split_and!; [done|done| |done|done]. etrans; [exact Hst|]. split; [done|reflexivity].
Qed.

Lemma best_sample_ok n d good bad best c :
  ctx_inv d c → small d → d ≠ 0 → good ≠ [] → Forall (candidate_ok d) good →
  (Z.of_nat (length good) ≤ u64_max)%Z →
  (∀ v, best.1 = Some v → candidate_ok d v) → (best.1 = None → best.2 = f_neg_inf) →
  ∃ best' c', best_sample n good bad best c = (Ok best', c') ∧ ctx_inv d c' ∧ ctx_step c c' ∧
    opt_state c' = opt_state c ∧ (∀ v, best'.1 = Some v → candidate_ok d v) ∧
    (best'.1 = None → best'.2 = f_neg_inf).
Proof.
  intros Hc Hs Hd Hne HF Hlen. revert best c Hc.
  induction n as [|n IH]; intros best c Hc Hb Hnone; cbn [best_sample].
  { exists best, c. split_and!; [done|done|reflexivity|done|done|done]. }
  unfold bind, gets, sample.
  destruct (sample_one_ok d good (bw (params (c_opt c))) (c_rng c)) as (v & rng & Hsm & Hv & Hr);
    [done|done|done|done|apply Hc|done|apply Hc|]. rewrite Hsm.
  set (c1 := c <| c_rng := rng |>).
  assert (ctx_inv d c1) as Hc1 by (destruct Hc; by split).
  set (b1 := if _ : bool then _ else _).
  destruct (IH b1 c1 Hc1) as (best' & c' & Hrun & Hc' & Hst & Ho & Hb' & Hn').
  { unfold b1. destruct (_ && _); [|done]. simpl. by intros ? [= <-]. }
  { unfold b1. by destruct (_ && _). }
  exists best', c'. split_and!; [done|done| |by rewrite Ho|done|done].
  etrans; [|exact Hst]. split; [done|reflexivity].
Qed.

(** Locking keeps the history and fixes a usable vector. *)
Lemma lock_best_ok d t : opt_inv d t →
  ∃ t', lock_best t = Ok t' ∧ lock_best_flag t' = true ∧ trials t' = trials t ∧ opt_inv d t'.
Proof.
  intros Hi. pose proof Hi as [HF Hb Hl Hbf]. unfold lock_best.
  destruct (best_by_reward_ok t (trials_reward_ok d t Hi)) as (o & -> & _ & Hv). cbn [obind].
  eexists. split; [done|].
  destruct o as [v|]; [|destruct (last_vec t) as [|x l] eqn:El].
  - split_and!; [done|done|]. split; try done. right.
    destruct (Hv v eq_refl) as (m & Hm & <- & _). rewrite Forall_forall in HF. by apply HF.
  - split_and!; [done|done|]. split; try done. by left.
  - split_and!; [done|done|]. rewrite <-El in Hl |- *. split; done.
Qed.

(** [suggest_next] never fails: it returns a usable vector of the active dimension,
    or nothing, and then the optimizer is locked. *)
Lemma suggest_next_ok d c : ctx_inv d c → small d → d ≠ 0 →
  ∃ r c', suggest_next c = (Ok r, c') ∧ ctx_inv d c' ∧ ctx_step c c' ∧
    trials (opt_state c') = trials (opt_state c) ∧
    (∀ v, r = Some v → candidate_ok d v) ∧
    (r = None → lock_best_flag (opt_state c') = true).
Proof.
  intros Hc Hs Hd. unfold suggest_next. unfold bind at 1, gets at 1.
  destruct (is_locked (opt_state c)) eqn:El.
  { exists None, c. split_and!; [done|done|reflexivity|done|done|done]. }
  destruct (next_untried_ok d c Hc) as (r & c1 & Hn & Hc1 & Hst & Ho1 & Hv).
  unfold bind at 1. rewrite Hn. destruct r as [v|].
  { exists (Some v), c1. split_and!; [done|done|done|by rewrite Ho1| |done].
    intros ? [= <-]. by apply Hv. }
  unfold bind, gets, lift.
  pose proof (trials_reward_ok _ _ (ci_opt _ _ Hc1)) as HR.
  destruct (split_good_bad_ok (params (c_opt c1)) (opt_state c1) HR) as (o & Hsp & Hgb).
  rewrite Hsp. destruct o as [[good bad]|].
  2: { destruct (init_candidate_ok d c1 Hc1 Hs Hd) as (v & c2 & Hi & Hc2 & Hst2 & Ho2 & Hok).
       exists (Some v), c2. split_and!; [done|done|by etrans|by rewrite Ho2, Ho1| |done].
       by intros ? [= <-]. }
  destruct (Hgb good bad eq_refl) as (_ & gs & bs & -> & -> & Hperm & Hg & _ & _ & _).
  assert (Forall (trial_ok d) gs) as HFg.
  { pose proof (oi_trials _ _ (ci_opt _ _ Hc1)) as HF. rewrite <-Hperm in HF.
    by apply Forall_app in HF as [? _]. }
  assert (length gs ≤ MAX_TRIALS) as Hlg.
  { pose proof (oi_bound _ _ (ci_opt _ _ Hc1)) as HB. rewrite <-Hperm, length_app in HB. lia. }
  destruct (best_sample_ok (Nat.max (samples (params (c_opt c1))) 1) d (tr_vector <$> gs)
    (tr_vector <$> bs) (None, f_neg_inf) c1) as (best & c2 & Hrun & Hc2 & Hst2 & Ho2 & Hb & Hn2);
    [done|done|done|by destruct gs| | |done|done|].
  { apply Forall_fmap. eapply Forall_impl; [exact HFg|]. by intros x []. }
  { rewrite length_fmap. assert (Z.of_nat MAX_TRIALS ≤ u64_max)%Z by (vm_compute; done). lia. }
  rewrite Hrun. destruct best as [bc bs']. cbn [fst snd] in *.
  destruct (is_finite bs' && flt f0 bs') eqn:Ef.
  - exists bc, c2. split_and!; [done|done|by etrans|by rewrite Ho2, Ho1|done|].
    intros ->. rewrite Hn2 in Ef by done. done.
  - destruct (lock_best_ok d (opt_state c2)) as (t' & Hlock & Hfl & Htr & Hlv); [apply Hc2|].
    rewrite Hlock. exists None, (set_opt_state t' c2). split_and!; [done| | | |done|done].
    + by destruct Hc2.
    + etrans; [exact Hst|]. etrans; [exact Hst2|]. split; [done|reflexivity].
    + cbn. by rewrite Htr, Ho2, Ho1.
Qed.
End Suggest.

(** ** Filling the pool *)

Lemma exact_sum_spec idx v acc : Forall fvalid v → fnn acc →
  (∀ r, exact_sum idx v acc = Ok r → Forall good_credit v ∧ r = foldl fadd acc v) ∧
  exact_sum idx v acc ≠ Panic.
Proof.
  revert idx acc. induction v as [|x v IH]; intros idx acc HV Ha; cbn [exact_sum].
  { split; [|done]. by intros r [= <-]. }
  apply Forall_cons in HV as [Vx HV]. destruct (is_finite x) eqn:F; cbn [negb]; [|done].
  destruct (flt x f0) eqn:N; [done|].
  destruct (IH (S idx) (fadd acc x) HV) as [H1 H2].
  { apply fadd_fnn; [done|]. by apply good_credit_fnn. }
  split; [|done]. intros r Hr. destruct (H1 r Hr) as [HG ->]. split; [by constructor|done].
Qed.

Lemma normalize_exact_ok v w : Forall fvalid v → normalize_simplex_exact v = Ok w →
  candidate_ok (length v) w.
Proof.
  intros HV. unfold normalize_simplex_exact. destruct v as [|x0 v0] eqn:Ev.
  { intros [= <-]. split; [done|constructor]. }
  rewrite <-Ev in *. clear x0 v0 Ev. intros Hn. inv_ok.
  destruct (exact_sum_spec 0 v f0 HV f0_fnn) as [H1 _].
  destruct (H1 a ltac:(done)) as [HG ->]. set (t := foldl fadd f0 v) in *.
  assert (Forall fnn v) as HN.
  { apply Forall_lookup. intros i x Hx. rewrite Forall_lookup in HV, HG.
    apply good_credit_fnn; [by eapply HV|by eapply HG]. }
  assert (fnn t) as Ht by (apply fold_fadd_fnn; [apply f0_fnn|done]).
  destruct (is_finite t) eqn:F; [|done]. destruct (fle t f0) eqn:L; [done|].
  cbn [negb orb] in Hn. injection Hn as <-.
  assert (0 < fv t)%Z as Hpos.
  { pose proof (flt_total f0 t eq_refl (fnn_not_nan _ Ht)) as Hx. rewrite L in Hx.
    symmetry in Hx. apply negb_false_iff in Hx. by apply fgt0_fv; [apply fnn_valid|..]. }
  destruct (fold_fadd_ge v f0 f0_fnn HN F) as [_ Hle].
  split; [apply length_fmap|]. apply Forall_fmap, Forall_lookup. intros i y Hy. simpl.
  rewrite Forall_lookup in HN, Hle. destruct (Hle _ _ Hy) as [Fy Hy'].
  apply fdiv_unit; [by eapply HN|done|done|done|exact Hy'|done].
Qed.

Lemma normalize_exact_total v : Forall fvalid v → normalize_simplex_exact v ≠ Panic.
Proof.
  intros HV. unfold normalize_simplex_exact. destruct v as [|x v]; [done|].
  destruct (exact_sum_spec 0 (x :: v) f0 HV f0_fnn) as [_ Hp].
  destruct (exact_sum _ _ _); [|done|done]. cbn [obind]. by destruct (_ || _).
Qed.

Lemma push_pool_mem v s u : u ∈ get_v_candidates s → u ∈ get_v_candidates (push_v_candidate v s).
Proof.
  intros Hu. unfold get_v_candidates at 1.
  destruct (push_v_candidate_spec v s) as [[-> _]|[-> _]]; [done|]. apply elem_of_app. by left.
Qed.

Lemma push_pool_ok d v s : candidate_ok d v → Forall (candidate_ok d) (get_v_candidates s) →
  Forall (candidate_ok d) (get_v_candidates (push_v_candidate v s)).
Proof.
  intros Hv HF. unfold get_v_candidates at 1.
  destruct (push_v_candidate_spec v s) as [[-> _]|[-> _]]; [done|].
  apply Forall_app. split; [done|]. by apply Forall_singleton.
Qed.

Lemma push_ctx_inv d v c : candidate_ok d v → ctx_inv d c →
  ctx_inv d (c <| c_st := push_v_candidate v (c_st c) |>).
Proof.
  intros Hv [Ho Hr Hd Hp Hi Hb]. split; try done.
  - rewrite <-Hd. exact (pool_only_dim _ _ (push_pool_only v (c_st c))).
  - exact (push_pool_ok d v (c_st c) Hv Hp).
Qed.

Section Enqueue.
Context `{Libm} `{!LibmLaws _}.

Lemma enqueue_samples_ok n d center c : ctx_inv d c → candidate_ok d center → small d → d ≠ 0 →
  ∃ c', enqueue_samples_n n center c = (Ok (), c') ∧ ctx_inv d c' ∧ ctx_step c c' ∧
    c_opt c' = c_opt c ∧
    (∀ u, u ∈ get_v_candidates (c_st c) → u ∈ get_v_candidates (c_st c')).
Proof.
  intros Hc Hcen Hs Hd. revert c Hc. induction n as [|n IH]; intros c Hc; cbn [enqueue_samples_n].
  { exists c. split_and!; [done|done|reflexivity|done|done]. }
  unfold bind, gets, sample, modify.
  destruct (sample_center_ok d c center Hc Hcen Hs Hd) as (v & rng & -> & Hv & Hc1).
  set (c1 := c <| c_rng := rng |>) in *.
  destruct (IH _ (push_ctx_inv d v c1 Hv Hc1)) as (c' & Hrun & Hc' & Hst & Ho & Hmem).
  exists c'. split_and!; [exact Hrun|done| |done|].
  - etrans; [|exact Hst]. split; [done|]. apply (push_pool_only v (c_st c)).
  - intros u Hu. apply Hmem. apply (push_pool_mem v (c_st c) u Hu).
Qed.

(** The exact center is queued first, so that the pool is not empty. *)
Lemma enqueue_exact_ok d center c : ctx_inv d c → Forall fvalid center → small d → d ≠ 0 →
  ∃ r c', enqueue_exact_then_neighbor_candidates center c = (r, c') ∧ ctx_inv d c' ∧
    ctx_step c c' ∧ c_opt c' = c_opt c ∧ r ≠ Panic ∧
    (r = Ok () → get_v_candidates (c_st c') ≠ [] ∧ length center = d).
Proof.
  intros Hc HV Hs Hd. unfold enqueue_exact_then_neighbor_candidates.
  unfold bind at 1, gets at 1. rewrite (ci_dim _ _ Hc).
  destruct (Nat.eqb_spec (length center) d) as [Hl|]; cbn [negb].
  2: { eexists _, c. split_and!; [done|done|reflexivity|done|done|done]. }
  destruct (Nat.eqb_spec d 0); [done|].
  unfold bind at 1, lift. pose proof (normalize_exact_total center HV) as Hnp.
  destruct (normalize_simplex_exact center) as [w|e|] eqn:Ew; [| |done].
  2: { eexists _, c. split_and!; [done|done|reflexivity|done|done|done]. }
  pose proof (normalize_exact_ok center w HV Ew) as Hw. rewrite Hl in Hw.
  unfold bind, modify, gets, enqueue_samples_around.
  set (c1 := c <| c_st := push_v_candidate w (c_st c) |>).
  pose proof (push_ctx_inv d w c Hw Hc) as Hc1. fold c1 in Hc1.
  destruct (enqueue_samples_ok (Nat.max (samples (params (c_opt c1))) 1) d w c1 Hc1 Hw Hs Hd)
    as (c' & Hrun & Hc' & Hst & Ho & Hmem).
  eexists _, c'. split_and!; [exact Hrun|done| |done|done|].
  - etrans; [|exact Hst]. split; [done|]. apply push_pool_only.
  - intros _. split; [|done].
    assert (∃ u, u ∈ get_v_candidates (c_st c1)) as [u Hu].
    { change (get_v_candidates (c_st c1)) with
        (v_candidates (globals (push_v_candidate w (c_st c)))).
      destruct (push_v_candidate_spec w (c_st c)) as [[-> (u & Hu & _)]|[-> _]]; [by exists u|].
      exists w. apply elem_of_app. right. by apply list_elem_of_singleton. }
    apply Hmem in Hu. intros Hn. rewrite Hn in Hu. by apply elem_of_nil in Hu.
Qed.

Lemma inverse_simplex_ok best : Forall fvalid best → small (length best) → best ≠ [] →
  candidate_ok (length best) (inverse_simplex best).
Proof.
  intros HV Hs Hne. unfold inverse_simplex. set (inv := _ <$> best).
  assert (Forall fvalid inv) as HVi.
  { apply Forall_fmap. eapply Forall_impl; [exact HV|]. intros w Hw. simpl.
    apply fdiv_valid; [done|]. apply fpowf_valid; [|done]. apply fadd_valid; [|done].
    apply fnn_valid, fnn_max0; done. }
  destruct (normalize_simplex_eps inv) as [v|e|] eqn:Ev.
  - destruct (normalize_simplex_ok inv v HVi Ev) as (Hl & Hu & _).
    split; [|done]. rewrite Hl. apply length_fmap.
  - split; [apply length_replicate|]. apply Forall_replicate, recip_unit.
    unfold small in Hs. destruct best; [done|]. simpl in *. lia.
  - by apply normalize_simplex_total in Ev.
Qed.

Lemma best_vec_ok d t : opt_inv d t →
  ∃ o, best_vec t = Ok o ∧ ∀ v, o = Some v → candidate_ok d v.
Proof.
  intros Hi. pose proof (oi_best _ _ Hi) as Hb. unfold best_vec. destruct (best_fixed t) as [|x l] eqn:Ef.
  - destruct (best_by_reward_ok t (trials_reward_ok d t Hi)) as (o & Ho & _ & Hv).
    exists o. split; [done|]. intros v Hov. destruct (Hv v Hov) as (m & Hm & <- & _).
    destruct Hi as [HF _ _ _]. rewrite Forall_forall in HF. by apply HF.
  - rewrite <-Ef in *. exists (Some (best_fixed t)). split; [by rewrite Ef|].
    intros v [= <-]. destruct Hb as [Hb|Hb]; [congruence|done].
Qed.

Lemma enqueue_inverse_ok d c : ctx_inv d c → small d → d ≠ 0 →
  ∃ c', enqueue_inverse_candidates c = (Ok (), c') ∧ ctx_inv d c' ∧ ctx_step c c'.
Proof.
  intros Hc Hs Hd. unfold enqueue_inverse_candidates.
  unfold bind at 1, gets at 1. unfold bind at 1, lift at 1.
  destruct (best_vec_ok d (opt_state c) (ci_opt _ _ Hc)) as (o & -> & Ho).
  destruct o as [best|]; [|by exists c; split_and!].
  specialize (Ho best eq_refl).
  assert (candidate_ok d (inverse_simplex best)) as Hinv.
  { pose proof (candidate_ok_valid _ _ Ho) as HV. destruct Ho as [<- _].
    apply inverse_simplex_ok; [done|done|by destruct best]. }
  unfold bind at 1, gets at 1. unfold bind at 1, enqueue_samples_around.
  destruct (enqueue_samples_ok (Nat.max (samples (params (c_opt c))) 1) d (inverse_simplex best) c)
    as (c' & -> & Hc' & Hst & Hop & _); [done|done|done|done|].
  eexists. split; [done|]. split; [|by destruct Hst; split].
  destruct Hc' as [[T1 T2 T3 T4] C2 C3 C4 C5 C6]. by split.
Qed.
End Enqueue.

(** ** Persistence *)

Lemma restore_trials_ok d i l :
  Forall (λ t : list f64 * f64 * u64, Forall fvalid t.1.1 ∧ length t.1.1 = d ∧
            fvalid t.1.2 ∧ is_nan t.1.2 = false) l →
  Forall (trial_ok d) (restore_trials i l) ∧ length (restore_trials i l) ≤ length l.
Proof.
  revert i. induction l as [|[[v r] ts] l IH]; intros i HF; cbn [restore_trials]; [done|].
  apply Forall_cons in HF as [(HV & Hl & Hr & Hn) HF]. destruct (IH (S i) HF) as [H1 H2].
  destruct (normalize_simplex_eps v) as [w|e|] eqn:Ew; cbn [length] in *; [|split; [done|lia]..].
  destruct (normalize_simplex_ok v w HV Ew) as (Hlw & Hu & _). cbn in Hl, Hr, Hn.
  split; [|lia]. constructor; [|done]. split; [split; [cbn; lia|done]|done].
Qed.
