(* ===== verification/TpeSpec.v ===== *)
(** * TpeSpec: what the optimizer of [feature_sched/tpe.rs] promises

    The optimizer as its client, the TPE stage, sees it: the operations it may be asked for
    ([OptOp]), in any order; the observation of a trial; the choice of the best trial; the
    split into good and bad trials; the next untried candidate. *)

From Stdlib Require Import ZArith Lia.
From S2P Require Import Prelude Float64 FloatFacts Rands Metadata State MaskSelection FeaturesMap Factor Tpe TpeFacts.

(** ** Sequences of operations *)

Inductive OptOp :=
| OpObserve (iteration : u64) (vector : list f64) (reward : f64) (active_start active_end : u64)
| OpNextUntried
| OpSuggest
| OpEnqueueExact (center : list f64)
| OpEnqueueInverse
| OpSetLast (v : list f64)
| OpLockBest
| OpUnlock.

Section Runs.
Context `{Libm}.

Definition run_op (op : OptOp) : M Ctx (option (list f64)) :=
  match op with
  | OpObserve it v r a b =>
    modify (λ c, set_opt_state (observe_trial it v r a b (opt_state c)) c) ;;; ret None
  | OpNextUntried => next_untried_from_pool
  | OpSuggest => suggest_next
  | OpEnqueueExact center => enqueue_exact_then_neighbor_candidates center ;;; ret None
  | OpEnqueueInverse => enqueue_inverse_candidates ;;; ret None
  | OpSetLast v => modify (λ c, set_opt_state (set_last_vec v (opt_state c)) c) ;;; ret None
  | OpLockBest =>
    t <- gets opt_state ;;
    t' <- lift (lock_best t) ;;
    modify (set_opt_state t') ;;; ret None
  | OpUnlock => modify (λ c, set_opt_state (unlock (opt_state c)) c) ;;; ret None
  end.

(** The vectors the operations hand out; an error ends an operation, not the run. *)
Fixpoint run_ops (ops : list OptOp) (c : Ctx) : option (list (list f64) * Ctx) :=
  match ops with
  | [] => Some ([], c)
  | op :: ops =>
    match run_op op c with
    | (Panic, _) => None
    | (Ok (Some v), c) => (λ p, (v :: p.1, p.2)) <$> run_ops ops c
    | (_, c) => run_ops ops c
    end
  end.

Definition op_ok (d : nat) (op : OptOp) : Prop :=
  match op with
  | OpObserve _ v r _ _ => Forall fvalid v ∧ length v = d ∧ fvalid r ∧ is_nan r = false
  | OpEnqueueExact center => Forall fvalid center
  | OpSetLast v => candidate_ok d v
  | _ => True
  end.
End Runs.

Lemma set_opt_inv d t c : ctx_inv d c → opt_inv d t → ctx_inv d (set_opt_state t c).
Proof. intros [C1 C2 C3 C4 C5 C6] Ht. by split. Qed.

Section Promises.
Context `{Libm} `{!LibmLaws _}.

Lemma run_op_ok d op c : ctx_inv d c → small d → d ≠ 0 → op_ok d op →
  ∃ r c', run_op op c = (r, c') ∧ r ≠ Panic ∧ ctx_inv d c' ∧
    ∀ v, r = Ok (Some v) → candidate_ok d v.
Proof.
  intros Hc Hs Hd Hop. destruct op as [it v r a b| | |center| |v| |]; cbn [run_op op_ok] in *.
  - destruct Hop as (? & ? & ? & ?). eexists _, _. split; [reflexivity|]. split_and!; [done| |done].
    apply set_opt_inv; [done|]. apply observe_trial_ok; try done. apply Hc.
  - destruct (next_untried_ok d c Hc) as (r & c' & ? & ? & _ & _ & Hv).
    exists (Ok r), c'. split_and!; [done|done|done|]. intros v [= ->]. by apply Hv.
  - destruct (suggest_next_ok d c Hc Hs Hd) as (r & c' & ? & ? & _ & _ & Hv & _).
    exists (Ok r), c'. split_and!; [done|done|done|]. intros v [= ->]. by apply Hv.
  - unfold bind. destruct (enqueue_exact_ok d center c Hc Hop Hs Hd) as (r & c' & -> & ? & _ & _ & ? & _).
    destruct r as [[]|e|]; [|eexists _, _; by split_and!|done]. eexists _, _. by split_and!.
  - unfold bind. destruct (enqueue_inverse_ok d c Hc Hs Hd) as (c' & -> & ? & _).
    eexists _, _. by split_and!.
  - eexists _, _. split; [reflexivity|]. split_and!; [done| |done]. apply set_opt_inv; [done|].
    apply set_last_ok; [apply Hc|done].
  - unfold bind, gets, lift. destruct (lock_best_ok d (opt_state c) (ci_opt _ _ Hc)) as (t' & -> & _ & _ & Ht).
    eexists _, _. split; [reflexivity|]. split_and!; [done| |done]. by apply set_opt_inv.
  - eexists _, _. split; [reflexivity|]. split_and!; [done| |done]. apply set_opt_inv; [done|].
    destruct (ci_opt _ _ Hc) as [T1 T2 T3 T4]. by split.
Qed.

(** C7. Whatever sequence of operations the optimizer is asked for, it never panics, every vector
    it hands out has the active dimension and entries in [0, 1], and at the end it still
    holds at most 1024 trials, all with usable vectors and rewards that are numbers. *)
Theorem optimizer_run_safe d ops c :
  ctx_inv d c → small d → d ≠ 0 → Forall (op_ok d) ops →
  ∃ vs c', run_ops ops c = Some (vs, c') ∧ Forall (candidate_ok d) vs ∧ ctx_inv d c' ∧
    length (trials (opt_state c')) ≤ MAX_TRIALS.
Proof.
  intros Hc Hs Hd HF. revert c Hc. induction HF as [|op ops Hop HF IH]; intros c Hc; cbn [run_ops].
  { exists [], c. split_and!; [done|constructor|done|apply (ci_opt _ _ Hc)]. }
  destruct (run_op_ok d op c Hc Hs Hd Hop) as (r & c1 & -> & Hr & Hc1 & Hv).
  destruct (IH c1 Hc1) as (vs & c' & Hrun & Hvs & Hc' & Hb).
  destruct r as [[v|]|e|]; [|by exists vs, c'|by exists vs, c'|done].
  exists (v :: vs), c'. rewrite Hrun. split_and!; [done| |done|done]. constructor; [by apply Hv|done].
Qed.

(** An observation of a reward: the trials stay within the limit and usable; every trial is an
    old one or carries the observed reward; and below the limit no reward is lost, the
    repeated observation of the last trial keeping the larger one. *)
Theorem observe_trial_spec d it v r a b t :
  opt_inv d t → Forall fvalid v → length v = d → fvalid r → is_nan r = false →
  let t' := observe_trial it v r a b t in
  opt_inv d t' ∧
  (∀ x, x ∈ trials t' → x ∈ trials t ∨ tr_reward x = r) ∧
  (length (trials t) < MAX_TRIALS → ∀ x, x ∈ trials t →
     ∃ y, y ∈ trials t' ∧ fle (tr_reward x) (tr_reward y) = true).
Proof.
  intros Hi HV Hl Hr Hn t'. pose proof (trials_reward_ok d t Hi) as HR.
  assert (∀ x, x ∈ trials t → fle (tr_reward x) (tr_reward x) = true) as Hrefl.
  { intros x Hx. rewrite Forall_forall in HR. pose proof (HR x Hx). rewrite fle_reward by done.
    apply Z.leb_refl. }
  split; [by apply observe_trial_ok|]. unfold t', observe_trial.
  destruct (normalize_simplex_eps v) as [w|e|]; [|by split; eauto..].
  set (push := t <| trials := _ |>).
  assert ((∀ x, x ∈ trials push → x ∈ trials t ∨ tr_reward x = r) ∧
          (length (trials t) < MAX_TRIALS → ∀ x, x ∈ trials t →
             ∃ y, y ∈ trials push ∧ fle (tr_reward x) (tr_reward y) = true)) as Hpush.
  { unfold push. cbn [trials upd eta_TpeState]. split.
    - intros x Hx. assert (x ∈ trials t ++ [mkTrial it w r a b]) as Hx'%elem_of_app.
      { rewrite <-(take_drop (length (trials t ++ [mkTrial it w r a b]) - MAX_TRIALS) (_ ++ _)).
        apply elem_of_app. by right. }
      clear Hx. rename Hx' into Hx. destruct Hx as [?|Hx%list_elem_of_singleton]; [by left|].
      right. by subst.
    - intros Hb x Hx. exists x. split; [|by apply Hrefl].
      rewrite length_app. cbn [length]. replace (_ - MAX_TRIALS) with 0 by lia.
      apply elem_of_app. by left. }
  destruct (last (trials t)) as [l|] eqn:El; [|done]. destruct (_ || _); [|done].
  destruct (flt (tr_reward l) r) eqn:Elt; [|by split; eauto].
  apply last_Some in El as [init El]. cbn [trials upd eta_TpeState].
  assert (take (length (trials t) - 1) (trials t) = init) as ->.
  { rewrite El, length_app. cbn [length]. rewrite Nat.add_sub. apply take_app_length. }
  split.
  - intros x [Hx|Hx%list_elem_of_singleton]%elem_of_app; [left|right; by subst].
    rewrite El. apply elem_of_app. by left.
  - intros _ x Hx. pose proof (Hrefl x Hx) as Hxx. rewrite El in Hx.
    apply elem_of_app in Hx as [Hx|Hx%list_elem_of_singleton].
    { exists x. split; [|done]. apply elem_of_app. by left. }
    subst x. eexists. split; [apply elem_of_app; right; by apply list_elem_of_singleton|].
    by apply flt_le.
Qed.

(** Locking picks a trial whose reward no other trial exceeds. *)
Theorem lock_best_optimal d t :
  opt_inv d t → trials t ≠ [] →
  ∃ t' m, lock_best t = Ok t' ∧ m ∈ trials t ∧ best_fixed t' = tr_vector m ∧
    lock_best_flag t' = true ∧ trials t' = trials t ∧
    ∀ x, x ∈ trials t → fle (tr_reward x) (tr_reward m) = true.
Proof.
  intros Hi Hne. destruct (best_by_reward_ok t (trials_reward_ok d t Hi)) as (o & Ho & Hn & Hv).
  destruct o as [v|]; [|by destruct Hne; apply Hn]. destruct (Hv v eq_refl) as (m & Hm & Em & Hmax).
  unfold lock_best. rewrite Ho. simpl. eexists _, m. split; [reflexivity|]. by split_and!.
Qed.

(** The split of the trials for the density estimate: it never fails; it is refused below the
    trial threshold; otherwise the two groups are a partition of the trials, both
    non-empty, every good trial has a strictly larger reward than every bad one, and the good
    group has at least the [gamma] share. *)
Theorem split_good_bad_spec p t :
  Forall reward_ok (trials t) →
  ∃ o, split_good_bad p t = Ok o ∧
    ∀ good bad, o = Some (good, bad) →
      Nat.max (trials_threshold p) 2 ≤ length (trials t) ∧
      ∃ gs bs, good = tr_vector <$> gs ∧ bad = tr_vector <$> bs ∧
        gs ++ bs ≡ₚ trials t ∧ gs ≠ [] ∧ bs ≠ [] ∧
        good_count (gamma p) (length (trials t)) ≤ length gs ∧
        ∀ g b, g ∈ gs → b ∈ bs → flt (tr_reward b) (tr_reward g) = true.
Proof. apply split_good_bad_ok. Qed.

(** The next candidate from the pool: the pool is consumed from the front up to the returned
    candidate, which is not within the tolerance of any trial, comes back normalised, and
    is of the active dimension with entries in [0, 1]; the trials do not change. *)
Theorem next_untried_spec d c :
  ctx_inv d c →
  ∃ r c', next_untried_from_pool c = (Ok r, c') ∧ ctx_inv d c' ∧ opt_state c' = opt_state c ∧
    (∀ v, r = Some v → candidate_ok d v ∧ ∃ seen raw rest,
       get_v_candidates (c_st c) = seen ++ raw :: rest ∧
       get_v_candidates (c_st c') = rest ∧ normalize_simplex_eps raw = Ok v ∧
       Forall (λ t, vecn_eq (tr_vector t) raw f_1e_3 = false) (trials (opt_state c))).
Proof.
  intros Hc. destruct (next_untried_ok d c Hc) as (r & c' & ? & ? & _ & ? & Hv).
  exists r, c'. by split_and!.
Qed.
End Promises.

(** ** A concrete optimizer *)

Definition demo_params : TpeParams :=
  mkTpeParams f_0_15 16 f_0_05 (from_secs 600) 2 (from_secs 3600).
Definition demo_trials : TpeState :=
  TpeState_default <| trials := [mkTrial 1 [f_half; f_half] f1 0 10; mkTrial 2 [f1; f0] f2 10 20] |>.
Definition demo_ctx : Ctx :=
  mkCtx ((optimizer_new demo_params) <| op_state := demo_trials |>) (RomuDuoJr.with_seed 3)
    (replace_v_candidates [[f_half; f_half]; [f0; f1]] demo_state).

Lemma unit_values : Forall in_unit [f_half; f1; f0].
Proof.
  repeat constructor; try done.
Qed.

Lemma demo_opt_inv : opt_inv 2 demo_trials.
Proof.
  pose proof unit_values as U. rewrite !Forall_cons in U. destruct U as (U1 & U2 & U3 & _).
  split; [|unfold MAX_TRIALS; simpl; lia|by left|by left].
  repeat constructor; done.
Qed.

Lemma demo_ctx_inv : ctx_inv 2 demo_ctx.
Proof.
  pose proof unit_values as U. rewrite !Forall_cons in U. destruct U as (U1 & U2 & U3 & _).
  split; [exact demo_opt_inv|apply std_rand_seeded; done|done| |done|done].
  repeat constructor; done.
Qed.

Lemma optimizer_run_safe_witness :
  ∃ vs c', run_ops (H := toy_libm) [OpNextUntried; OpSuggest; OpObserve 3 [f1; f0] f2 20 30; OpLockBest]
      demo_ctx = Some (vs, c') ∧ Forall (candidate_ok 2) vs.
Proof.
  destruct (optimizer_run_safe (H := toy_libm) 2
    [OpNextUntried; OpSuggest; OpObserve 3 [f1; f0] f2 20 30; OpLockBest] demo_ctx)
    as (vs & c' & ? & ? & _); [exact demo_ctx_inv|unfold small; lia|discriminate|repeat constructor|].
  exists vs, c'. split; assumption.
Defined.

Lemma observe_trial_spec_witness : opt_inv 2 (observe_trial 3 [f1; f0] f1 20 30 demo_trials).
Proof.
  apply (observe_trial_spec 2 3 [f1; f0] f1 20 30 demo_trials);
    [exact demo_opt_inv|repeat constructor|done|done|done].
Defined.

Lemma lock_best_optimal_witness : ∃ t' m, lock_best demo_trials = Ok t' ∧ m ∈ trials demo_trials ∧
  best_fixed t' = tr_vector m.
Proof.
  destruct (lock_best_optimal 2 demo_trials demo_opt_inv) as (t' & m & ? & ? & ? & _); [done|].
  by exists t', m.
Defined.

Lemma split_good_bad_spec_witness :
  split_good_bad demo_params demo_trials = Ok (Some ([[f1; f0]], [[f_half; f_half]])) ∧
  ∃ gs bs, [[f1; f0]] = tr_vector <$> gs ∧ [[f_half; f_half]] = tr_vector <$> bs ∧
    gs ++ bs ≡ₚ trials demo_trials.
Proof.
  destruct (split_good_bad_spec demo_params demo_trials) as (o & Ho & Hspec);
    [exact (trials_reward_ok 2 _ demo_opt_inv)|].
  assert (split_good_bad demo_params demo_trials = Ok (Some ([[f1; f0]], [[f_half; f_half]]))) as E
    by (vm_compute; reflexivity).
  rewrite E in Ho. injection Ho as <-.
  destruct (Hspec _ _ eq_refl) as (_ & gs & bs & ? & ? & ? & _). split; [exact E|]. by exists gs, bs.
Defined.

Lemma next_untried_spec_witness :
  ∃ v c', next_untried_from_pool demo_ctx = (Ok (Some v), c') ∧ candidate_ok 2 v.
Proof.
  destruct (next_untried_spec 2 demo_ctx demo_ctx_inv) as (r & c' & Hrun & _ & _ & Hv).
  assert (∃ v, r = Some v) as [v ->]; [|exists v, c'; split; [assumption|by apply Hv]].
  assert ((next_untried_from_pool demo_ctx).1 = Ok r) as Hr by by rewrite Hrun.
  vm_compute in Hr. injection Hr as <-. by eexists.
Defined.
