(* ===== verification/RuntimeData.v ===== *)
(** * RuntimeData: [feature_sched/runtime_data.rs]

    The export of the runtime data: the record that is serialized, the atomic
    replacement of the output file, and the rate limit of the export.  The JSON
    serializer is a parameter. *)

From Stdlib Require Import ZArith Lia Ascii.
From S2P Require Import Prelude Rands Float64 Metadata State MaskSelection Str FeaturesMap.

Definition RUNTIME_DATA_EXPORT_INTERVAL_SECS : u64 := 30.

Record RuntimeMaskExport := mkMaskExport {
  rm_mode : VecMaskMode;
  rm_credit_top_k : usize;
  rm_requested_explicit_mask : option string;
  rm_mask_committed : bool;
  rm_effective_mask : string;
  rm_selected_feature_names : list string;
  rm_selected_schema_indices : list usize;
  rm_positive_credit_count : usize;
  rm_positive_credit_sum : f64;
  rm_fallback_reason : option string;
}.

Record RuntimeInitializationExport := mkInitExport {
  ri_tpe_init_committed : bool;
  ri_source : option TpeInitSource;
  ri_candidate_file_path : option string;
  ri_candidate_file_loaded : bool;
  ri_explore_credits_full : list f64;
  ri_explore_credits_active : list f64;
  ri_normalized_credit_init_v : list f64;
}.

Record ExploreCreditExport := mkExploreExport {
  xe_coordinate_feature_names : list string;
  xe_cumulative : ExploreCreditMeta;
  xe_history : list ExploreCreditEntry;
}.

Record RuntimeCreditExport := mkRuntimeExport {
  xr_coordinate_feature_names : list string;
  xr_cumulative : RuntimeCreditMeta;
  xr_history : list RuntimeCreditEntry;
}.

Record TpeExport := mkTpeExport {
  xt_coordinate_feature_names : list string;
  xt_history : TpeHistoryMeta;
  xt_phase : TpePhase;
}.

Record RuntimeDataFile := mkRuntimeData {
  rd_schema_version : u64;
  rd_schema_features : list FeatureSpec;
  rd_mask : RuntimeMaskExport;
  rd_initialization : RuntimeInitializationExport;
  rd_explore : ExploreCreditExport;
  rd_runtime : RuntimeCreditExport;
  rd_tpe : TpeExport;
}.

(** [serde_json::to_writer_pretty]: the text, or the serializer's error. *)
Class JsonOut := to_json : RuntimeDataFile → string + string.

Definition explore_coordinate_feature_names (s : State) (mask_meta : VecMaskRuntimeMeta) :
    list string :=
  match vm_mode mask_meta with
  | Full | AutoCredit => fs_name <$> get_schema_features s
  | Explicit =>
    match selected_feature_names mask_meta with
    | [] => get_active_feature_names s
    | names => names
    end
  end.

Definition build_runtime_data (s : State) : RuntimeDataFile :=
  let mask_meta := default VecMaskRuntimeMeta_default (m_mask s) in
  let tpe_iter := default TpeIterationMeta_default (m_tpe s) in
  let active_names := get_active_feature_names s in
  mkRuntimeData (get_schema_version s) (get_schema_features s)
    (mkMaskExport (vm_mode mask_meta) (credit_top_k mask_meta)
       (mask_to_bitstring <$> requested_explicit_mask mask_meta) (mask_committed mask_meta)
       (mask_to_bitstring (effective_mask mask_meta)) (selected_feature_names mask_meta)
       (selected_schema_indices mask_meta) (positive_credit_count mask_meta)
       (positive_credit_sum mask_meta) (fallback_reason mask_meta))
    (mkInitExport (tpe_init_committed mask_meta) (tpe_init_source mask_meta)
       (candidate_file_path mask_meta) (candidate_file_loaded mask_meta)
       (explore_credits_full mask_meta) (explore_credits_active mask_meta)
       (normalized_credit_init_v mask_meta))
    (mkExploreExport (explore_coordinate_feature_names s mask_meta)
       (default CreditMeta_default (m_explore s)) (default [] (m_explore_history s)))
    (mkRuntimeExport active_names (default CreditMeta_default (m_runtime s))
       (default [] (m_runtime_history s)))
    (mkTpeExport active_names (default TpeHistoryMeta_default (m_history s)) (phase tpe_iter)).

(** The operations on the files, once the text is known. *)
Definition tmp_path (path : string) : string := (path +:+ ".tmp")%string.

(** The components of a path: repeated separators and "." are skipped, except a leading
    ".". *)
Definition components (path : string) : list string :=
  let root := starts_with (to_chars "/") (to_chars path) in
  let parts := of_chars <$> split "/"%char (to_chars path) in
  let named := filter (λ c, c ≠ ""%string ∧ c ≠ "."%string) parts in
  if root then "/"%string :: named
  else match parts with
       | "."%string :: _ => "."%string :: named
       | _ => named
       end.

(** [create_dir_all] of an empty parent does nothing. *)
Definition parent_ops (path : string) : list FsOp :=
  match parent (components path) with
  | Some ((_ :: _) as dir) => [CreateDirAll (path_display dir)]
  | _ => []
  end.

Definition prepare_ops (path : string) : list FsOp := parent_ops path ++ [CreateFile (tmp_path path)].
Definition commit_ops (path : string) : list FsOp :=
  [Append (tmp_path path) newline; Flush (tmp_path path); SyncAll (tmp_path path);
   Rename (tmp_path path) path].

Section ExportOps.
Context `{Env} `{JsonOut}.

Fixpoint run_ops (ops : list FsOp) : M State () :=
  match ops with
  | [] => ret ()
  | op :: ops => io op ;;; run_ops ops
  end.

(** A write error inside [to_writer_pretty] is reported as a serialization error,
    like an error of the serializer itself. *)
Definition write_atomic (path : string) (data : RuntimeDataFile) : M State () :=
  if String.eqb path "" then ret ()
  else
    run_ops (prepare_ops path) ;;;
    json <- lift match to_json data with
                 | inl err => Err (Serialize (fmt "{}" [AStr err]))
                 | inr json => Ok json
                 end ;;
    with_err (λ _, Serialize (fmt "io error" [])) (io (Append (tmp_path path) json)) ;;;
    run_ops (commit_ops path).

Definition maybe_export_runtime_data (force : bool) : M State () :=
  now <- now_ms ;;
  export_meta <- gets (λ s, default RuntimeDataExportMeta_default (m_export s)) ;;
  if String.eqb (output_path export_meta) "" then ret ()
  else if negb force && negb (last_export_ms export_meta =? 0)%Z &&
          (sat_sub now (last_export_ms export_meta)
           <? sat_mul RUNTIME_DATA_EXPORT_INTERVAL_SECS 1000)%Z
  then ret ()
  else
    data <- gets build_runtime_data ;;
    write_atomic (output_path export_meta) data ;;;
    modify (λ s, s <| m_export := Some ((default RuntimeDataExportMeta_default (m_export s))
                                          <| last_export_ms := now |>) |>).

(** ** Facts *)

Lemma tmp_path_ne path : tmp_path path ≠ path.
Proof.
  unfold tmp_path. induction path as [|c path IH]; [done|].
  cbn. intros [= He]. by apply IH.
Qed.

(** [s'] differs from [s] only in files other than [path] and in the tick count. *)
Definition target_kept (path : string) (s s' : State) : Prop :=
  files s' !! path = files s !! path ∧
  s' = s <| files := files s' |> <| ticks := ticks s' |>.

#[global] Instance target_kept_preorder path : PreOrder (target_kept path).
Proof.
  split.
  - intros s. split; [done|by destruct s].
  - intros s1 s2 s3 [F1 E1] [F2 E2]. split; [congruence|]. rewrite E2, E1. done.
Qed.

(** The file an operation changes. *)
Definition op_target (op : FsOp) : option string :=
  match op with
  | CreateFile p | Append p _ => Some p
  | Rename _ q => Some q
  | _ => None
  end.

Definition touches (path : string) (op : FsOp) : Prop :=
  match op with
  | CreateFile p | Append p _ => p = path
  | Rename p q => p = path ∨ q = path
  | _ => False
  end.

Lemma apply_op_kept path op fs : ¬ touches path op → apply_op op fs !! path = fs !! path.
Proof.
  destruct op; cbn; intros Ht; try done; [by rewrite lookup_insert_ne|by rewrite lookup_insert_ne|].
  destruct (fs !! p); [|done].
  rewrite lookup_insert_ne, lookup_delete_ne; [done|..]; naive_solver.
Qed.

Lemma io_kept path op : ¬ touches path op → keeps (target_kept path) (io op).
Proof.
  intros Ht s. unfold io. destruct (io_fail (ticks s)).
  - split; [|done]. destruct op; try done. cbn in *. by rewrite lookup_insert_ne.
  - split; [|done]. by apply apply_op_kept.
Qed.

Lemma run_ops_kept path ops : Forall (λ op, ¬ touches path op) ops →
  keeps (target_kept path) (run_ops ops).
Proof.
  induction 1 as [|op ops Hop _ IH]; cbn [run_ops].
  - apply keeps_ret; apply _.
  - apply keeps_bind; [apply _|by apply io_kept|done].
Qed.

Lemma run_ops_ok ops s s' : run_ops ops s = (Ok (), s') → files s' = foldl (flip apply_op) (files s) ops.
Proof.
  revert s. induction ops as [|op ops IH]; intros s; cbn [run_ops].
  { by intros [= <-]. }
  unfold bind, io. destruct (io_fail (ticks s)); [done|]. intros Hrun. apply IH in Hrun. done.
Qed.
End ExportOps.

(** ** Crash safety *)

(** The file-system operations of a complete export of [json]. *)
Definition export_ops (path json : string) : list FsOp :=
  prepare_ops path ++ Append (tmp_path path) json :: commit_ops path.

Lemma fold_ops_kept path ops fs : Forall (λ op, ¬ touches path op) ops →
  foldl (flip apply_op) fs ops !! path = fs !! path.
Proof.
  intros HF. revert fs. induction HF as [|op ops Hop _ IH]; intros fs; simpl; [done|].
  rewrite IH. by apply apply_op_kept.
Qed.

(** Every operation but the last. *)
Definition staged_ops (path json : string) : list FsOp :=
  prepare_ops path ++ Append (tmp_path path) json :: take 3 (commit_ops path).

Lemma export_ops_split path json :
  export_ops path json = staged_ops path json ++ [Rename (tmp_path path) path].
Proof. unfold export_ops, staged_ops. by rewrite <-app_assoc. Qed.

Lemma prepare_quiet path : Forall (λ op, ¬ touches path op) (prepare_ops path).
Proof.
  pose proof (tmp_path_ne path). apply Forall_app. split; [|by repeat constructor].
  unfold parent_ops. destruct (parent _) as [[|c d]|]; repeat constructor. cbn. tauto.
Qed.

Lemma commit_quiet path : Forall (λ op, ¬ touches path op) (take 3 (commit_ops path)).
Proof. pose proof (tmp_path_ne path). cbn. repeat apply Forall_cons_2; cbn; try tauto. constructor. Qed.

Lemma staged_quiet path json : Forall (λ op, ¬ touches path op) (staged_ops path json).
Proof.
  apply Forall_app. split; [apply prepare_quiet|]. constructor; [apply tmp_path_ne|apply commit_quiet].
Qed.

Lemma parent_ops_noop path fs : foldl (flip apply_op) fs (parent_ops path) = fs.
Proof. unfold parent_ops. by destruct (parent _) as [[|c d]|]. Qed.

Lemma export_complete path json fs :
  foldl (flip apply_op) fs (export_ops path json) !! path = Some (json +:+ newline)%string.
Proof.
  unfold export_ops, prepare_ops, commit_ops. rewrite <-app_assoc, foldl_app, parent_ops_noop.
  cbn [app foldl flip apply_op]. by rewrite !lookup_insert_eq.
Qed.

(** Whenever the export is interrupted, after any number of its operations, the
    output file has its old content or the complete new one. *)
Theorem export_crash_safe path json k fs :
  let fs' := foldl (flip apply_op) fs (take k (export_ops path json)) in
  fs' !! path = fs !! path ∨ fs' !! path = Some (json +:+ newline)%string.
Proof.
  cbv zeta. destruct (decide (k ≤ length (staged_ops path json))) as [Hk|Hk].
  - left. apply fold_ops_kept. rewrite export_ops_split, take_app_le by done.
    apply Forall_take, staged_quiet.
  - right. rewrite take_ge by (rewrite export_ops_split, length_app; cbn; lia). apply export_complete.
Qed.

Section ExportFacts.
Context `{Env} `{JsonOut}.

Lemma commit_ops_split path : commit_ops path =
  take 3 (commit_ops path) ++ [Rename (tmp_path path) path].
Proof. done. Qed.

Lemma run_ops_app ops1 ops2 s : run_ops (ops1 ++ ops2) s = (run_ops ops1 ;;; run_ops ops2) s.
Proof.
  revert s. induction ops1 as [|op ops IH]; intros s; [done|].
  cbn [app run_ops]. unfold bind in *. destruct (io op s) as [[[]|e|] s1]; [|done..]. apply IH.
Qed.

(** [write_atomic] whatever fails in it: the output file is untouched unless the
    call succeeds, and then it is the complete serialization; nothing but files
    changes. *)
Theorem write_atomic_spec path data s r s' :
  write_atomic path data s = (r, s') → path ≠ ""%string →
  s' = s <| files := files s' |> <| ticks := ticks s' |> ∧
  (r ≠ Ok () → files s' !! path = files s !! path) ∧
  (r = Ok () → ∃ json, to_json data = inr json ∧
     files s' !! path = Some (json +:+ newline)%string).
Proof.
  intros Hrun Hne. unfold write_atomic in Hrun.
  destruct (String.eqb_spec path ""); [done|].
  pose proof (tmp_path_ne path) as Htmp.
  pose proof (prepare_quiet path) as Hq1. pose proof (commit_quiet path) as Hq2.
  pose proof (run_ops_kept path _ Hq1 s) as K1. unfold bind at 1 in Hrun.
  destruct (run_ops (prepare_ops path) s) as [[[]|e|] s1] eqn:R1; cbn [snd] in K1.
  2: { injection Hrun as <- <-. destruct K1. split_and!; done. }
  2: { injection Hrun as <- <-. destruct K1. split_and!; done. }
  unfold bind at 1, lift in Hrun. destruct (to_json data) as [err|json] eqn:Ej.
  { injection Hrun as <- <-. destruct K1. split_and!; done. }
  pose proof (io_kept path (Append (tmp_path path) json) Htmp s1) as K2.
  unfold bind at 1, with_err in Hrun.
  destruct (io (Append (tmp_path path) json) s1) as [r2 s2] eqn:R2. cbn [snd] in K2.
  assert (target_kept path s s2) as K12 by by etrans.
  destruct r2 as [[]|e|]; cbn [map_err] in Hrun.
  2: { injection Hrun as <- <-. destruct K12. split_and!; done. }
  2: { injection Hrun as <- <-. destruct K12. split_and!; done. }
  rewrite commit_ops_split, run_ops_app in Hrun. unfold bind at 1 in Hrun.
  pose proof (run_ops_kept path _ Hq2 s2) as K3.
  destruct (run_ops (take 3 (commit_ops path)) s2) as [r3 s3] eqn:R3. cbn [snd] in K3.
  assert (target_kept path s s3) as K13 by by etrans.
  destruct r3 as [[]|e|].
  2: { injection Hrun as <- <-. destruct K13. split_and!; done. }
  2: { injection Hrun as <- <-. destruct K13. split_and!; done. }
  cbn [run_ops] in Hrun. unfold bind, io in Hrun.
  destruct (io_fail (ticks s3)) as [e|].
  { injection Hrun as <- <-. destruct K13 as [K E]. split_and!; [|done|done]. rewrite E. done. }
  unfold ret in Hrun. injection Hrun as <- <-. destruct K13 as [K E].
  split_and!; [rewrite E; done|done|]. intros _. exists json. split; [done|].
  cbn [files upd eta_State]. apply run_ops_ok in R1, R3.
  assert (files s2 = apply_op (Append (tmp_path path) json) (files s1)) as F2.
  { unfold io in R2. destruct (io_fail (ticks s1)); [done|]. by injection R2 as <-. }
  rewrite R3, F2, R1, <-(export_complete path json (files s)).
  unfold export_ops. rewrite foldl_app. done.
Qed.

(** [maybe_export_runtime_data] without an output path changes only the tick
    count; it never touches the files within the interval unless forced. *)
Lemma maybe_export_idle force s :
  (output_path (default RuntimeDataExportMeta_default (m_export s)) = ""%string ∨
   (force = false ∧ last_export_ms (default RuntimeDataExportMeta_default (m_export s)) ≠ 0%Z ∧
    (sat_sub (clock (ticks s)) (last_export_ms (default RuntimeDataExportMeta_default (m_export s)))
     < 30000)%Z)) →
  maybe_export_runtime_data force s = (Ok (), s <| ticks := S (ticks s) |>).
Proof.
  intros Hcase. unfold maybe_export_runtime_data, bind, now_ms, gets. cbn.
  set (em := default _ (m_export s)) in *.
  destruct (String.eqb_spec (output_path em) "") as [|Hp]; [done|].
  destruct Hcase as [?|(-> & Hl & Ht)]; [done|]. cbn.
  destruct (Z.eqb_spec (last_export_ms em) 0); [done|]. cbn.
  change (sat_mul RUNTIME_DATA_EXPORT_INTERVAL_SECS 1000) with 30000%Z.
  destruct (Z.ltb_spec (sat_sub (clock (ticks s)) (last_export_ms em)) 30000); [done|lia].
Qed.
End ExportFacts.

(** A serializer that writes the same text for every run. *)
Definition demo_run : State := empty_state (RomuDuoJr.with_seed 1).
Definition toy_json_out : JsonOut := λ _, inr "{}"%string.

Lemma write_atomic_spec_witness :
  ∃ s', write_atomic (H := toy_env) (H0 := toy_json_out) "out.json" (build_runtime_data demo_run) demo_run
          = (Ok (), s') ∧ files s' !! "out.json"%string = Some ("{}" +:+ newline)%string.
Proof.
  destruct (write_atomic (H := toy_env) (H0 := toy_json_out) "out.json" (build_runtime_data demo_run) demo_run)
    as [r s'] eqn:E.
  assert (r = Ok ()) as -> by (vm_compute in E; by injection E).
  destruct (write_atomic_spec (H := toy_env) (H0 := toy_json_out) _ _ _ _ _ E) as (_ & _ & H); [done|].
  destruct (H eq_refl) as (json & [= <-] & ?). by exists s'.
Defined.
