(* ===== verification/TpeStage.v ===== *)
(** * TpeStage: [feature_sched/tpe_stage.rs]

    The stage that drives the optimizer through the phases Explore,
    PendingRecompute, ActiveWindow and LockedBest.  A run works on [World]: the
    stage object and the fuzzer state.  The worker thread that computes the weights
    is the state of its channel ([Worker]): it runs on a snapshot, has sent its
    result, or has died without sending.  Lines written to standard error are not
    modelled. *)

From Stdlib Require Import ZArith Lia.
From S2P Require Import Prelude Float64 FloatFacts Rands Corpus Metadata State FrontierSets MaskSelection FeaturesMap Factor WeightRefresh Tpe TpeFacts RuntimeData.

Inductive Worker :=
| Running (snapshot : CorpusWeightSnapshot)
| Sent (result : WeightRecomputeResult)
| Died.

Record TpeStage := mkTpeStage {
  opt : TpeOptimizer;
  rng : StdRand;
  edges_name : string;
  pending_worker : bool;
  result_rx : option Worker;
  st_pending_iteration : option u64;
  last_explore_report_ms : u64;
}.
#[global] Instance eta_TpeStage : Eta TpeStage := λ r,
  mkTpeStage (opt r) (rng r) (edges_name r) (pending_worker r) (result_rx r)
    (st_pending_iteration r) (last_explore_report_ms r).

Definition stage_new (params : TpeParams) (edges_name : string) (rng : StdRand) : TpeStage :=
  mkTpeStage (optimizer_new params) rng edges_name false None None 0.

Record World := mkWorld { stage : TpeStage; st : State }.
#[global] Instance eta_World : Eta World := λ r, mkWorld (stage r) (st r).

(** A step of the state, or of the optimizer with the generator and the state, as a
    step of the stage. *)
Definition on_st {A} (m : M State A) : M World A := λ w,
  let '(r, s) := m (st w) in (r, w <| st := s |>).

Definition to_ctx (w : World) : Ctx := mkCtx (opt (stage w)) (rng (stage w)) (st w).
Definition from_ctx (w : World) (c : Ctx) : World :=
  mkWorld ((stage w) <| opt := c_opt c |> <| rng := c_rng c |>) (c_st c).
Definition on_ctx {A} (m : M Ctx A) : M World A := λ w,
  let '(r, c) := m (to_ctx w) in (r, from_ctx w c).

Definition tpe_state (w : World) : TpeState := op_state (opt (stage w)).
Definition set_tpe_state (t : TpeState) (w : World) : World :=
  w <| stage := (stage w) <| opt := (opt (stage w)) <| op_state := t |> |> |>.
Definition tpe_params (w : World) : TpeParams := params (opt (stage w)).

(** [x as u64] on the milliseconds of a duration. *)
Definition duration_ms (d : Duration) : u64 := wrap64 (as_millis d).

Definition current_edges (edges_name : string) (s : State) : u64 :=
  Z.of_nat (default 0 (num_covered_map_indexes <$> named_maps s !! edges_name)).

Definition tpe_meta (s : State) : TpeIterationMeta := default TpeIterationMeta_default (m_tpe s).
Definition get_phase (s : State) : TpePhase := phase (tpe_meta s).
Definition set_tpe_meta (f : TpeIterationMeta → TpeIterationMeta) (s : State) : State :=
  s <| m_tpe := Some (f (tpe_meta s)) |>.
Definition set_phase (ph : TpePhase) (s : State) : State :=
  set_tpe_meta (λ m, m <| phase := ph |>) s.

Definition schema_from_state (s : State) : FeatureSchemaFile :=
  mkSchema (get_schema_version s) (get_schema_features s).

Definition credits_with_dim (credits : list f64) (dim : usize) (label : string) :
    outcome Error (list f64) :=
  match credits with
  | [] => Ok (replicate dim f0)
  | _ =>
    if negb (length credits =? dim) then
      Err (illegal_state "BOFuzz {} credit length {} != expected dimension {}"
             [AStr label; ANat (length credits); ANat dim])
    else Ok credits
  end.

Definition positive_credit_stats (credits : list f64) : usize * f64 :=
  foldl (λ '(count, sum) credit,
           if flt f0 credit then (S count, fadd sum credit) else (count, sum))
    (0, f0) credits.

Definition selected_names (schema : FeatureSchemaFile) (mask : list bool) : list string :=
  (λ p : FeatureSpec * bool, fs_name p.1) <$>
    filter (λ p, p.2 = true) (zip (sc_features schema) mask).

Definition selected_indices (mask : list bool) : list usize := set_indices mask.

(** [map_err(Error::illegal_state)] on the message of a pure helper. *)
Definition as_illegal_state {A} (r : outcome Msg A) : outcome Error A := map_err IllegalState r.

Definition debug_phase (ph : TpePhase) : string :=
  match ph with
  | Explore => "Explore"
  | PendingRecompute => "PendingRecompute"
  | ActiveWindow => "ActiveWindow"
  | LockedBest => "LockedBest"
  end.
Definition debug_opt (o : option u64) : Arg :=
  match o with
  | Some x => AMsg (fmt "Some({})" [AInt x])
  | None => AStr "None"
  end.

(** The constant reports of the phases. *)
Definition explore_message : Msg :=
  fmt "phase=Explore, msg=BOFuzz explore phase running; collecting frontier credits." [].
Definition started_message : Msg :=
  fmt "phase=PendingRecompute, msg=started initial TPE weight recompute" [].
Definition published_message : Msg :=
  fmt "phase=ActiveWindow, msg=published feature weights and invalidated alias table" [].

Section Stage.
Context `{Libm} `{Env} `{JsonOut}.

Definition explore_done : M State bool :=
  now <- now_ms ;;
  start_ms <- gets get_fuzz_start ;;
  secs <- gets get_explore_time ;;
  ret (duration_ms (from_secs secs) <=? sat_sub now start_ms)%Z.

Definition start_pending_recompute (vector : list f64) : M World () :=
  busy <- gets (λ w, pending_worker (stage w)) ;;
  if (busy : bool) then ret ()
  else
    mode <- gets (λ w, default WeightComputeMode_default (m_weight_mode (st w))) ;;
    no_acfg <- gets (λ w, bool_decide (m_acfg (st w) = None)) ;;
    if bool_decide (mode = Frontier) && no_acfg then
      throw (illegal_state "frontier weight recompute requires SancovAcfgMeta" [])
    else
      next_iteration <- gets (λ w, match m_tpe (st w) with
                                   | Some m => sat_add (current_iteration m) 1
                                   | None => 1%Z
                                   end) ;;
      on_st (apply_v_to_features vector next_iteration) ;;;
      modify (λ w, set_tpe_state (set_last_vec vector (tpe_state w)) w) ;;;
      feature_weights <- gets (λ w, default [] (m_feats (st w))) ;;
      s <- gets st ;;
      snapshot <- lift (build_corpus_weight_snapshot s next_iteration mode feature_weights) ;;
      modify (λ w, w <| stage := (stage w) <| pending_worker := true |>
                                           <| result_rx := Some (Running snapshot) |>
                                           <| st_pending_iteration := Some next_iteration |> |>) ;;;
      on_st (modify (set_tpe_meta (λ m, m <| current_iteration := next_iteration |>
                                          <| pending_iteration := Some next_iteration |>
                                          <| phase := PendingRecompute |>))).

(** [handle.join()] and the receiver dropped. *)
Definition join_worker (w : World) : World :=
  w <| stage := (stage w) <| pending_worker := false |> <| result_rx := None |>
                          <| st_pending_iteration := None |> |>.

(** The end of [poll_pending] after the publication of iteration [iteration]. *)
Definition activate (iteration : u64) : M World bool :=
  on_st (modify (λ s, s <| m_dirty := Some (mkDirty iteration true) |>)) ;;;
  on_st (modify (set_features_active true)) ;;;
  now <- on_st now_ms ;;
  edges <- gets (λ w, current_edges (edges_name (stage w)) (st w)) ;;
  on_st (modify (set_tpe_meta (λ m, m <| active_iteration := Some iteration |>
                                      <| pending_iteration := None |>
                                      <| phase := ActiveWindow |>
                                      <| active_start_ms := Some now |>
                                      <| active_start_edges := Some edges |>
                                      <| last_new_edges_ms := Some now |>))) ;;;
  t <- gets tpe_state ;;
  on_st (persist_to_meta t) ;;;
  ret true.

Definition poll_pending : M World bool :=
  rx <- gets (λ w, result_rx (stage w)) ;;
  match rx with
  | None =>
    on_st (modify (set_phase ActiveWindow)) ;;;
    ret false
  | Some (Running _) => ret false
  | Some Died =>
    modify join_worker ;;;
    throw (unknown "BOFuzz weight recompute worker disconnected" [])
  | Some (Sent result) =>
    modify join_worker ;;;
    iteration <- gets (λ w, default 0%Z (current_iteration <$> m_tpe (st w))) ;;
    if negb (rr_iteration result =? iteration)%Z then ret false
    else
      on_st (publish_weight_recompute_result result) ;;;
      activate (rr_iteration result)
  end.

Definition init_source (candidate_file_loaded has_positive : bool) : TpeInitSource :=
  if candidate_file_loaded then ExternalCandidateFile
  else if has_positive then ExploreCreditsExactFirst
  else EqualSimplexFallback.

Definition commit_full (runtime : VecMaskRuntimeMeta) (schema : FeatureSchemaFile)
    (explore_credits_raw : list f64) : M World () :=
  let schema_dim := length (sc_features schema) in
  active_dim <- gets (λ w, get_active_dim (st w)) ;;
  if negb (active_dim =? schema_dim) then
    throw (illegal_state "BOFuzz full-mode error: active_dim {} != schema_dim {}"
             [ANat active_dim; ANat schema_dim])
  else
    credits <- lift (credits_with_dim explore_credits_raw active_dim "full") ;;
    norm <- lift (as_illegal_state (normalize_credit_or_equal_simplex credits)) ;;
    let '(normalized, has_positive, positive_sum) := norm : list f64 * bool * f64 in
    let '(positive_count, _) := positive_credit_stats credits in
    let mask := replicate schema_dim true in
    let runtime' :=
      runtime <| mask_committed := true |> <| tpe_init_committed := true |>
              <| effective_mask := mask |>
              <| selected_feature_names := selected_names schema mask |>
              <| selected_schema_indices := selected_indices mask |>
              <| explore_credits_full := credits |> <| explore_credits_active := credits |>
              <| normalized_credit_init_v := normalized |>
              <| positive_credit_count := positive_count |>
              <| positive_credit_sum := positive_sum |> <| fallback_reason := None |>
              <| tpe_init_source :=
                   Some (init_source (candidate_file_loaded runtime) has_positive) |> in
    on_st (modify (set_vec_mask_runtime_meta runtime')) ;;;
    if negb (candidate_file_loaded runtime) then
      on_st (modify (replace_v_candidates [])) ;;;
      on_ctx (enqueue_exact_then_neighbor_candidates normalized)
    else ret ().

Definition commit_explicit (runtime : VecMaskRuntimeMeta) (explore_credits_raw : list f64) :
    M World () :=
  requested <- lift (ok_or (requested_explicit_mask runtime)
    (illegal_state "BOFuzz explicit-mode error: missing persisted explicit mask" [])) ;;
  vmask <- gets (λ w, get_vec_mask (st w)) ;;
  if negb (bool_decide (vmask = requested)) then
    throw (illegal_state
      "BOFuzz resume error: explicit vec-mask differs from persisted committed mask" [])
  else
    active_dim <- gets (λ w, get_active_dim (st w)) ;;
    credits <- lift (credits_with_dim explore_credits_raw active_dim "explicit") ;;
    norm <- lift (as_illegal_state (normalize_credit_or_equal_simplex credits)) ;;
    let '(normalized, has_positive, positive_sum) := norm : list f64 * bool * f64 in
    let '(positive_count, _) := positive_credit_stats credits in
    names <- gets (λ w, get_active_feature_names (st w)) ;;
    let runtime' :=
      runtime <| mask_committed := true |> <| tpe_init_committed := true |>
              <| effective_mask := requested |>
              <| selected_feature_names := names |>
              <| selected_schema_indices := selected_indices requested |>
              <| explore_credits_full := [] |> <| explore_credits_active := credits |>
              <| normalized_credit_init_v := normalized |>
              <| positive_credit_count := positive_count |>
              <| positive_credit_sum := positive_sum |> <| fallback_reason := None |>
              <| tpe_init_source :=
                   Some (init_source (candidate_file_loaded runtime) has_positive) |> in
    on_st (modify (set_vec_mask_runtime_meta runtime')) ;;;
    if negb (candidate_file_loaded runtime) then
      on_st (modify (replace_v_candidates [])) ;;;
      on_ctx (enqueue_exact_then_neighbor_candidates normalized)
    else ret ().

Definition commit_auto_credit (runtime : VecMaskRuntimeMeta) (schema : FeatureSchemaFile)
    (explore_credits_raw : list f64) : M World () :=
  let schema_dim := length (sc_features schema) in
  credits <- lift (credits_with_dim explore_credits_raw schema_dim "auto-credit") ;;
  let '(positive_count, positive_sum) := positive_credit_stats credits in
  selected_mask <- lift (as_illegal_state
    (select_positive_credit_top_k_mask credits schema_dim (credit_top_k runtime))) ;;
  choice <-
    match selected_mask with
    | Some mask =>
      on_st (install_committed_runtime_mask schema mask) ;;;
      active_credits <- lift (as_illegal_state (project_vector_by_mask credits mask)) ;;
      norm <- lift (as_illegal_state (normalize_credit_or_equal_simplex active_credits)) ;;
      let '(normalized, _, _) := norm : list f64 * bool * f64 in
      ret (mask, active_credits, normalized, ExploreCreditsExactFirst, None)
    | None =>
      let mask := replicate schema_dim true in
      on_st (install_committed_runtime_mask schema mask) ;;;
      ret (mask, credits, equal_simplex schema_dim, EqualSimplexFallback,
           Some "no_positive_explore_credits"%string)
    end ;;
  let '(mask, active_credits, normalized, source, fallback) :=
    choice : list bool * list f64 * list f64 * TpeInitSource * option string in
  let runtime' :=
    runtime <| mask_committed := true |> <| tpe_init_committed := true |>
            <| effective_mask := mask |>
            <| selected_feature_names := selected_names schema mask |>
            <| selected_schema_indices := selected_indices mask |>
            <| candidate_file_loaded := false |> <| tpe_init_source := Some source |>
            <| explore_credits_full := credits |> <| explore_credits_active := active_credits |>
            <| normalized_credit_init_v := normalized |>
            <| positive_credit_count := positive_count |>
            <| positive_credit_sum := positive_sum |> <| fallback_reason := fallback |> in
  on_st (modify (set_vec_mask_runtime_meta runtime')) ;;;
  on_ctx (enqueue_exact_then_neighbor_candidates normalized).

Definition validate_dims : M World () := λ w, (validate_committed_vector_dimensions (st w), w).

Definition commit_mask_and_tpe_initialization_before_first_tpe : M World () :=
  runtime <- gets (λ w, vec_mask_runtime_meta (st w)) ;;
  if tpe_init_committed runtime then validate_dims
  else
    schema <- gets (λ w, schema_from_state (st w)) ;;
    explore_credits_raw <- gets (λ w, default [] (cr_credits <$> m_explore (st w))) ;;
    match vm_mode runtime with
    | Full => commit_full runtime schema explore_credits_raw
    | Explicit => commit_explicit runtime explore_credits_raw
    | AutoCredit => commit_auto_credit runtime schema explore_credits_raw
    end ;;;
    validate_dims.

Definition report (text : Msg) : M World () :=
  on_st (fire (UpdateUserStats "tpe-info" (mkUserStats (StatString text) AggNone))).

Definition report_trials : M World () :=
  t <- gets tpe_state ;;
  on_st (fire (UpdateUserStats "tpe-trials" (mkUserStats (StatString (snapshot_trials_text t)) AggNone))).

Definition perform_explore : M World () :=
  over <- on_st explore_done ;;
  if negb over then
    on_st (maybe_export_runtime_data false) ;;;
    now <- on_st now_ms ;;
    last <- gets (λ w, last_explore_report_ms (stage w)) ;;
    if (30000 <? sat_sub now last)%Z then
      modify (λ w, w <| stage := (stage w) <| last_explore_report_ms := now |> |>) ;;;
      report explore_message
    else ret ()
  else
    commit_mask_and_tpe_initialization_before_first_tpe ;;;
    cands <- gets (λ w, get_v_candidates (st w)) ;;
    match cands with
    | [] => throw (illegal_state
              "TPE initialization committed without available initial candidate" [])
    | _ =>
      ocand <- on_ctx next_untried_from_pool ;;
      candidate <- lift (ok_or ocand (illegal_state
                     "BOFuzz failed to retrieve committed initial TPE candidate" [])) ;;
      start_pending_recompute candidate ;;;
      on_st (maybe_export_runtime_data true) ;;;
      report started_message
    end.

Definition perform_pending : M World () :=
  published <- poll_pending ;;
  if (published : bool) then
    report published_message
  else ret ().

Definition credits_total (s : State) : f64 :=
  match m_runtime s with
  | Some m => fsum (cr_credits m)
  | None => match m_explore s with
            | Some m => fsum (cr_credits m)
            | None => f0
            end
  end.

(** The report on a closed window. *)
Definition window_message (w : World) (meta : TpeIterationMeta) (reward : f64) (edges : u64) (last_vec : list f64) : Msg :=
  fmt "phase={:?}, reward_edges={:.1}, edges={}, trials={}, corpus={}, active_dim={}, simplex_sum={:.6}, credits_sum={:.3}, bw={:.3}, gamma={:.3}, samples={}, pending_iteration={:?}, active_iteration={:?}"
    [AStr (debug_phase (get_phase (st w))); AFloat 1 reward; AInt edges;
     ANat (length (trials (tpe_state w))); ANat (InMemory.count (corpus (st w)));
     ANat (get_active_dim (st w)); AFloat 6 (fsum last_vec); AFloat 3 (credits_total (st w));
     AFloat 3 (bw (tpe_params w)); AFloat 3 (gamma (tpe_params w)); ANat (samples (tpe_params w));
     debug_opt (st_pending_iteration (stage w)); debug_opt (active_iteration meta)].

(** The end of an active window: observe the trial, choose the next vector or lock
    the best one. *)
Definition close_window (meta : TpeIterationMeta) (start_ms now : u64) : M World () :=
  edges <- gets (λ w, current_edges (edges_name (stage w)) (st w)) ;;
  let start_edges := default edges (active_start_edges meta) in
  let reward := of_Z (sat_sub edges start_edges) in
  last_vec <- gets (λ w, get_current_weight_vec (st w)) ;;
  match last_vec with
  | [] => ret ()
  | _ => modify (λ w, set_tpe_state (observe_trial
           (default (current_iteration meta) (active_iteration meta))
           last_vec reward start_ms now (tpe_state w)) w)
  end ;;;
  (if flt f0 reward then
     on_st (modify (set_tpe_meta (λ m, m <| last_new_edges_ms := Some now |>)))
   else ret ()) ;;;
  onext <- on_ctx suggest_next ;;
  match onext with
  | Some next => start_pending_recompute next
  | None =>
    t <- gets tpe_state ;;
    t <- lift (lock_best t) ;;
    modify (set_tpe_state t) ;;;
    on_st (modify (set_phase LockedBest))
  end ;;;
  t <- gets tpe_state ;;
  on_st (persist_to_meta t) ;;;
  on_st (maybe_export_runtime_data true) ;;;
  report_trials ;;;
  w <- gets (λ w, w) ;;
  report (window_message w meta reward edges last_vec).

Definition perform_active : M World () :=
  now <- on_st now_ms ;;
  meta <- gets (λ w, tpe_meta (st w)) ;;
  match active_start_ms meta with
  | None => ret ()
  | Some start_ms =>
    p <- gets tpe_params ;;
    if (sat_sub now start_ms <? duration_ms (period p))%Z then ret ()
    else close_window meta start_ms now
  end.

Definition perform_locked : M World () :=
  now <- on_st now_ms ;;
  edges <- gets (λ w, current_edges (edges_name (stage w)) (st w)) ;;
  meta <- gets (λ w, tpe_meta (st w)) ;;
  let start_edges := default edges (active_start_edges meta) in
  if (start_edges <? edges)%Z then
    on_st (modify (λ s, s <| m_tpe := Some (meta <| active_start_edges := Some edges |>
                                                 <| last_new_edges_ms := Some now |>) |>))
  else
    let last_new := default now (match last_new_edges_ms meta with
                                 | Some x => Some x
                                 | None => active_start_ms meta
                                 end) in
    p <- gets tpe_params ;;
    if (duration_ms (re_tpe_threshold p) <=? sat_sub now last_new)%Z then
      on_ctx enqueue_inverse_candidates ;;;
      on_st (maybe_export_runtime_data true) ;;;
      onext <- on_ctx suggest_next ;;
      match onext with
      | Some next => start_pending_recompute next
      | None => ret ()
      end
    else ret ().

(** A pending recompute whose worker is gone: the run was resumed. *)
Definition recover_pending (w : World) : World :=
  if bool_decide (get_phase (st w) = PendingRecompute) && negb (pending_worker (stage w)) then
    w <| st := set_phase (match get_current_weight_vec (st w) with
                          | [] => Explore
                          | _ => ActiveWindow
                          end) (st w) |>
  else w.

Definition stage_enabled (s : State) : bool :=
  get_feat_exists s && negb (get_feat_mode s =? 0) && get_tpe_satisfied s.

Definition stage_restore (w : World) : World :=
  set_tpe_state (restore_once (st w) (tpe_state w)) w.

Definition perform : M World () :=
  enabled <- gets (λ w, stage_enabled (st w)) ;;
  if negb enabled then ret ()
  else
    modify stage_restore ;;;
    modify recover_pending ;;;
    ph <- gets (λ w, get_phase (st w)) ;;
    match ph with
    | Explore => perform_explore
    | PendingRecompute => perform_pending
    | ActiveWindow => perform_active
    | LockedBest => perform_locked
    end.

Definition should_restart : M World bool :=
  modify stage_restore ;;;
  gets (λ w, stage_enabled (st w)).

Definition clear_progress : M World () := ret ().

(** The worker thread. *)
Definition worker_step (k : Worker) : Worker :=
  match k with
  | Running snapshot => Sent (compute_weights snapshot)
  | k => k
  end.
End Stage.
