(* ===== verification/TpeStageFacts.v ===== *)
(** * TpeStageFacts: the TPE stage as a state machine

    What each run of the stage may change: the transitions of the phase and of the
    iteration counter, the immutability of a committed mask, the agreement between
    the worker thread and the iteration that is pending. *)

From Stdlib Require Import ZArith Lia.
From S2P Require Import Prelude Float64 FloatFacts Rands Corpus Metadata State FrontierSets MaskSelection FeaturesMap Factor WeightRefresh Tpe TpeFacts TpeSpec RuntimeData TpeStage.

(** ** Frames *)

(** The part of the state that decides the active coordinates. *)
Definition same_mask (s s' : State) : Prop :=
  m_mask s' = m_mask s ∧ get_vec_mask s' = get_vec_mask s ∧
  get_active_dim s' = get_active_dim s ∧
  get_active_feature_names s' = get_active_feature_names s ∧
  get_schema_features s' = get_schema_features s ∧ get_schema_version s' = get_schema_version s.

(** Neither the mask nor the TPE iteration changes. *)
Definition quiet (s s' : State) : Prop := m_tpe s' = m_tpe s ∧ same_mask s s'.

#[global] Instance same_mask_preorder : PreOrder same_mask.
Proof.
  split; [by intros s|]. intros s1 s2 s3 H12 H23. unfold same_mask in *. naive_solver congruence.
Qed.
#[global] Instance quiet_preorder : PreOrder quiet.
Proof.
  split; [by intros s|]. intros s1 s2 s3 [E1 M1] [E2 M2]. split; [congruence|by etrans].
Qed.

Lemma pool_only_quiet s s' : pool_only s s' → quiet s s'.
Proof.
  intros [E G]. split; [by rewrite E|].
  unfold same_mask, get_vec_mask, get_active_dim, get_active_feature_names, get_schema_features,
    get_schema_version. rewrite G. by rewrite E.
Qed.

(** The fields of the stage that describe the worker. *)
Definition same_worker (a b : TpeStage) : Prop :=
  pending_worker b = pending_worker a ∧ result_rx b = result_rx a ∧
  st_pending_iteration b = st_pending_iteration a ∧ edges_name b = edges_name a ∧
  params (opt b) = params (opt a).

#[global] Instance same_worker_preorder : PreOrder same_worker.
Proof.
  split; [by intros s|]. intros s1 s2 s3 H12 H23. unfold same_worker in *. naive_solver congruence.
Qed.

Definition wquiet (w w' : World) : Prop :=
  quiet (st w) (st w') ∧ same_worker (stage w) (stage w').

#[global] Instance wquiet_preorder : PreOrder wquiet.
Proof.
  split; [by intros w; split|]. intros w1 w2 w3 [A B] [C D]. split; by etrans.
Qed.

(** The TPE iteration and the worker stay; the mask may change. *)
Definition wtpe (w w' : World) : Prop :=
  m_tpe (st w') = m_tpe (st w) ∧ same_worker (stage w) (stage w').

#[global] Instance wtpe_preorder : PreOrder wtpe.
Proof.
  split; [by intros w; split|]. intros w1 w2 w3 [A B] [C D]. split; [congruence|by etrans].
Qed.

Lemma wquiet_wtpe w w' : wquiet w w' → wtpe w w'.
Proof. intros [[E _] S]. by split. Qed.

Lemma keeps_sub {E S A} (R1 R2 : S → S → Prop) (m : ME E S A) :
  (∀ s s', R1 s s' → R2 s s') → keeps R1 m → keeps R2 m.
Proof. intros Hsub Hk s. apply Hsub, Hk. Qed.

(** ** Steps of the optimizer *)

Section Frames.
Context `{Libm} `{Env} `{JsonOut}.

Lemma keeps_sample {A} (f : StdRand → A * StdRand) : keeps ctx_step (sample f).
Proof. intros c. unfold sample. destruct (f (c_rng c)). by split. Qed.

Lemma ctx_step_push v c : ctx_step c (c <| c_st := push_v_candidate v (c_st c) |>).
Proof. split; [done|]. apply push_pool_only. Qed.

Lemma ctx_step_set_opt t c : ctx_step c (set_opt_state t c).
Proof. by split. Qed.

Lemma keeps_next_untried : keeps ctx_step next_untried_from_pool.
Proof.
  intros c. unfold next_untried_from_pool. destruct (drop_seen _ _);
    (split; [done|apply replace_pool_only]).
Qed.

Ltac keeps_step :=
  first [ apply keeps_sample | apply keeps_next_untried
        | apply keeps_ret; apply _ | apply keeps_throw; apply _ | apply keeps_gets; apply _
        | apply keeps_lift; apply _
        | apply keeps_modify; intros ?; solve [apply ctx_step_push | apply ctx_step_set_opt]
        | apply keeps_bind; [apply _| |intros ?] ].

Lemma keeps_enqueue_samples n center : keeps ctx_step (enqueue_samples_n n center).
Proof. induction n as [|n IH]; cbn [enqueue_samples_n]; repeat (done || keeps_step). Qed.

Lemma keeps_enqueue_exact center : keeps ctx_step (enqueue_exact_then_neighbor_candidates center).
Proof.
  unfold enqueue_exact_then_neighbor_candidates, enqueue_samples_around.
  keeps_step; [keeps_step|]. apply keeps_if; [keeps_step|]. apply keeps_if; [keeps_step|].
  repeat (apply keeps_enqueue_samples || keeps_step).
Qed.

Lemma keeps_enqueue_inverse : keeps ctx_step enqueue_inverse_candidates.
Proof.
  unfold enqueue_inverse_candidates, enqueue_samples_around.
  do 2 (keeps_step; [keeps_step|]). destruct a0 as [best|]; [|keeps_step].
  repeat (apply keeps_enqueue_samples || keeps_step).
Qed.

Lemma keeps_init_candidate : keeps ctx_step init_candidate.
Proof.
  unfold init_candidate. keeps_step; [keeps_step|]. destruct a; [keeps_step|].
  keeps_step; [keeps_step|]. apply keeps_if; repeat keeps_step.
Qed.

Lemma keeps_best_sample n good bad best : keeps ctx_step (best_sample n good bad best).
Proof.
  revert best. induction n as [|n IH]; intros best; cbn [best_sample]; [keeps_step|].
  do 2 (keeps_step; [keeps_step|]). destruct a0; apply IH.
Qed.

Lemma keeps_suggest_next : keeps ctx_step suggest_next.
Proof.
  unfold suggest_next. keeps_step; [keeps_step|]. apply keeps_if; [keeps_step|].
  keeps_step; [keeps_step|]. destruct a0; [keeps_step|].
  do 3 (keeps_step; [keeps_step|]). destruct a2 as [[good bad]|]; [|apply keeps_init_candidate].
  keeps_step; [apply keeps_best_sample|]. destruct a2. apply keeps_if; repeat keeps_step.
Qed.

Lemma keeps_on_ctx {A} (m : M Ctx A) : keeps ctx_step m → keeps wquiet (on_ctx m).
Proof.
  intros Hm w. unfold on_ctx. specialize (Hm (to_ctx w)). destruct (m (to_ctx w)) as [r c].
  destruct Hm as [P S]. split; [by apply pool_only_quiet|]. by split_and!.
Qed.

(** ** Steps of the state *)

Lemma keeps_on_st {A} (m : M State A) : keeps quiet m → keeps wquiet (on_st m).
Proof.
  intros Hm w. unfold on_st. specialize (Hm (st w)). destruct (m (st w)) as [r s]. by split.
Qed.

Lemma quiet_now : keeps quiet now_ms.
Proof. by intros s. Qed.
Lemma quiet_fire e : keeps quiet (fire e).
Proof. by intros s. Qed.
Lemma quiet_io op : keeps quiet (io op).
Proof. intros s. unfold io. by destruct (io_fail (ticks s)). Qed.

Lemma quiet_run_ops ops : keeps quiet (run_ops ops).
Proof.
  induction ops as [|op ops IH]; cbn [run_ops]; [apply keeps_ret; apply _|].
  apply keeps_bind; [apply _|apply quiet_io|done].
Qed.

Lemma quiet_export force : keeps quiet (maybe_export_runtime_data force).
Proof.
  unfold maybe_export_runtime_data, write_atomic.
  do 2 (apply keeps_bind; [apply _|apply quiet_now || (apply keeps_gets; apply _)|intros ?]).
  repeat (apply keeps_if; [apply keeps_ret; apply _|]).
  apply keeps_bind; [apply _|apply keeps_gets; apply _|intros data].
  apply keeps_bind; [apply _| |intros _; by apply keeps_modify].
  apply keeps_if; [apply keeps_ret; apply _|].
  apply keeps_bind; [apply _|apply quiet_run_ops|intros _].
  apply keeps_bind; [apply _|apply keeps_lift; apply _|intros json].
  apply keeps_bind; [apply _|apply keeps_with_err, quiet_io|intros _]. apply quiet_run_ops.
Qed.

Lemma quiet_persist t : keeps quiet (persist_to_meta t).
Proof. apply keeps_bind; [apply _|apply quiet_now|intros now]. by apply keeps_modify. Qed.

Lemma quiet_apply_v v it : keeps quiet (apply_v_to_features v it).
Proof.
  intros s. rewrite apply_v_run. destruct (negb _); [done|].
  by destruct (normalize_simplex_eps v).
Qed.

Lemma quiet_change id f : keeps quiet (change_testcase id f).
Proof. intros s. unfold change_testcase. by destruct (InMemory.update _ _ _). Qed.

Lemma quiet_publish_weights result items stats : keeps quiet (publish_weights result items stats).
Proof.
  revert stats. induction items as [|i items IH]; intros stats; cbn [publish_weights].
  { apply keeps_ret; apply _. }
  apply keeps_bind; [apply _|apply quiet_change|done].
Qed.

Lemma quiet_publish_factors params items : keeps quiet (publish_factors params items).
Proof.
  induction items as [|i items IH]; cbn [publish_factors]; [apply keeps_ret; apply _|].
  apply keeps_bind; [apply _|by intros s|intros entry].
  apply keeps_bind; [apply _|apply keeps_gets; apply _|intros s].
  apply keeps_bind; [apply _|apply keeps_lift; apply _|intros f].
  apply keeps_bind; [apply _|apply quiet_change|done].
Qed.

Lemma quiet_publish result : keeps quiet (publish_weight_recompute_result result).
Proof.
  apply keeps_bind; [apply _|apply quiet_publish_weights|intros stats].
  apply keeps_bind; [apply _|by apply keeps_modify|intros _].
  apply keeps_bind; [apply _|apply keeps_gets; apply _|intros params]. apply quiet_publish_factors.
Qed.
End Frames.

(** ** The abstract machine *)

Record Machine := mkMachine {
  mc_phase : TpePhase;
  mc_iteration : u64;
  mc_worker : option u64;
}.

(** The transitions of the TPE loop.  [ms_recover] resumes a run whose worker is
    gone; [ms_drop] is a worker that died or a result that could not be published. *)
Inductive machine_step : Machine → Machine → Prop :=
| ms_start ph n : ph ≠ PendingRecompute →
    machine_step (mkMachine ph n None)
      (mkMachine PendingRecompute (sat_add n 1) (Some (sat_add n 1)))
| ms_publish n : machine_step (mkMachine PendingRecompute n (Some n)) (mkMachine ActiveWindow n None)
| ms_drop n : machine_step (mkMachine PendingRecompute n (Some n)) (mkMachine PendingRecompute n None)
| ms_lock n : machine_step (mkMachine ActiveWindow n None) (mkMachine LockedBest n None).

Inductive machine_recover : Machine → Machine → Prop :=
| mr_explore n : machine_recover (mkMachine PendingRecompute n None) (mkMachine Explore n None)
| mr_active n : machine_recover (mkMachine PendingRecompute n None) (mkMachine ActiveWindow n None).

Definition worker_iteration (k : Worker) : option u64 :=
  match k with
  | Running snapshot => Some (cw_iteration snapshot)
  | Sent result => Some (rr_iteration result)
  | Died => None
  end.

Definition iteration_of (s : State) : u64 := current_iteration (tpe_meta s).

Definition abs (w : World) : Machine :=
  mkMachine (get_phase (st w)) (iteration_of (st w))
    (if pending_worker (stage w) then Some (iteration_of (st w)) else None).

(** The worker works on the iteration that is pending, and only in that phase. *)
Definition worker_ok (w : World) : Prop :=
  if pending_worker (stage w) then
    get_phase (st w) = PendingRecompute ∧
    st_pending_iteration (stage w) = Some (iteration_of (st w)) ∧
    ∃ k, result_rx (stage w) = Some k ∧
      ∀ n, worker_iteration k = Some n → n = iteration_of (st w)
  else result_rx (stage w) = None ∧ st_pending_iteration (stage w) = None.

(** Nothing the machine sees changes. *)
Definition wabs (w w' : World) : Prop :=
  get_phase (st w') = get_phase (st w) ∧ iteration_of (st w') = iteration_of (st w) ∧
  same_worker (stage w) (stage w').

#[global] Instance wabs_preorder : PreOrder wabs.
Proof.
  split; [by intros w; split|]. intros w1 w2 w3 (A & B & C) (D & E & F).
  split_and!; [congruence|congruence|by etrans].
Qed.

Lemma wtpe_wabs w w' : wtpe w w' → wabs w w'.
Proof. intros [E S]. unfold wabs, get_phase, iteration_of, tpe_meta. by rewrite E. Qed.

Lemma wquiet_wabs w w' : wquiet w w' → wabs w w'.
Proof. intros ?. by apply wtpe_wabs, wquiet_wtpe. Qed.

Lemma wabs_abs w w' : wabs w w' → abs w' = abs w.
Proof. intros (E1 & E2 & P & _). unfold abs. by rewrite E1, E2, P. Qed.

Lemma wabs_worker_ok w w' : wabs w w' → worker_ok w → worker_ok w'.
Proof.
  intros (E1 & E2 & P & R & I & _). unfold worker_ok. by rewrite P, R, I, E1, E2.
Qed.

(** From phase [ph], one transition of the machine, surrounded by steps it does not
    see. *)
Definition goes (ph : TpePhase) (w w' : World) : Prop :=
  get_phase (st w) = ph → worker_ok w →
  wabs w w' ∨ (worker_ok w' ∧ machine_step (abs w) (abs w')).

Section Goes.
Context {E A B : Type} (ph : TpePhase).

Lemma goes_pre (m : ME E World A) (k : A → ME E World B) :
  keeps wabs m → (∀ a, keeps (goes ph) (k a)) → keeps (goes ph) (bind m k).
Proof.
  intros Hm Hk w Hph Hok. unfold bind. specialize (Hm w).
  destruct (m w) as [[a|e|] w1]; cbn in *; [|by left..].
  specialize (Hk a w1). destruct (k a w1) as [r w2]. cbn in *. destruct Hk as [Hk|Hk].
  - destruct Hm as [Hm _]. congruence.
  - by eapply wabs_worker_ok.
  - left. by etrans.
  - right. by rewrite <-(wabs_abs w w1).
Qed.

Lemma goes_post (m : ME E World A) (k : A → ME E World B) :
  keeps (goes ph) m → (∀ a, keeps wabs (k a)) → keeps (goes ph) (bind m k).
Proof.
  intros Hm Hk w Hph Hok. unfold bind. specialize (Hm w Hph Hok).
  destruct (m w) as [[a|e|] w1]; cbn in *; [|done..].
  specialize (Hk a w1). destruct (k a w1) as [r w2]. cbn in *. destruct Hm as [Hm|[Hm1 Hm2]].
  - left. by etrans.
  - right. rewrite (wabs_abs w1 w2) by done. split; [|done]. by eapply wabs_worker_ok.
Qed.

Lemma goes_of_wabs (m : ME E World A) : keeps wabs m → keeps (goes ph) m.
Proof. intros Hm w _ _. left. apply Hm. Qed.
End Goes.

Section Transitions.
Context `{Libm} `{Env} `{JsonOut}.

Lemma wabs_on_st {A} (m : M State A) : keeps quiet m → keeps wabs (on_st m).
Proof. intros Hm. eapply keeps_sub; [apply wquiet_wabs|]. by apply keeps_on_st. Qed.

Lemma wabs_on_ctx {A} (m : M Ctx A) : keeps ctx_step m → keeps wabs (on_ctx m).
Proof. intros Hm. eapply keeps_sub; [apply wquiet_wabs|]. by apply keeps_on_ctx. Qed.

Lemma wabs_report text : keeps wabs (report text).
Proof. apply wabs_on_st, quiet_fire. Qed.

Lemma wabs_set_tpe_state t w : wabs w (set_tpe_state t w).
Proof. by split_and!. Qed.

Definition next_of (s : State) : u64 := sat_add (iteration_of s) 1.

(** The state after a successful start on [snapshot]. *)
Definition started (w : World) (n : u64) (snapshot : CorpusWeightSnapshot) : World :=
  mkWorld ((stage w) <| pending_worker := true |> <| result_rx := Some (Running snapshot) |>
                     <| st_pending_iteration := Some n |>)
    (set_tpe_meta (λ m, m <| current_iteration := n |> <| pending_iteration := Some n |>
                          <| phase := PendingRecompute |>) (st w)).

(** The possible runs of [start_pending_recompute]: nothing to do, refused before or
    after the vector was applied, or started. *)
Lemma start_run v w r w' : start_pending_recompute v w = (r, w') →
  (r = Ok () ∧ w' = w ∧ pending_worker (stage w) = true) ∨
  (pending_worker (stage w) = false ∧
   ((w' = w ∧ ∃ e, r = Err e) ∨
    ∃ ra sa, apply_v_to_features v (next_of (st w)) (st w) = (ra, sa) ∧
      ((r = ra ∧ ra ≠ Ok () ∧ w' = w <| st := sa |>) ∨
       (ra = Ok () ∧
        let wb := set_tpe_state (set_last_vec v (tpe_state w)) (w <| st := sa |>) in
        let snap := build_corpus_weight_snapshot sa (next_of (st w))
                      (default WeightComputeMode_default (m_weight_mode (st w)))
                      (default [] (m_feats sa)) in
        ((∃ sn, snap = Ok sn ∧ r = Ok () ∧ w' = started wb (next_of (st w)) sn) ∨
         (r ≠ Ok () ∧ (r = Panic → snap = Panic) ∧ w' = wb)))))).
Proof.
  intros Hrun. unfold start_pending_recompute in Hrun. unfold bind at 1, gets at 1 in Hrun.
  destruct (pending_worker (stage w)) eqn:Ep; [injection Hrun as <- <-; by left|].
  right. split; [done|]. do 2 unfold bind at 1, gets at 1 in Hrun.
  destruct (_ && _); [injection Hrun as <- <-; left; by eauto|].
  unfold bind at 1, gets at 1 in Hrun. right.
  assert (match m_tpe (st w) with Some m => sat_add (current_iteration m) 1 | None => 1%Z end
          = next_of (st w)) as En.
  { unfold next_of, iteration_of, tpe_meta. by destruct (m_tpe (st w)). }
  rewrite En in Hrun. unfold bind at 1, on_st at 1 in Hrun.
  destruct (apply_v_to_features v (next_of (st w)) (st w)) as [ra sa] eqn:Ea.
  exists ra, sa. split; [done|]. destruct ra as [[]|e|]; [|left; by simplify_eq..].
  right. split; [done|]. cbv zeta. unfold bind at 1, modify at 1 in Hrun.
  do 2 unfold bind at 1, gets at 1 in Hrun. unfold bind at 1, lift at 1 in Hrun.
  cbn [st set_tpe_state upd eta_World] in Hrun |- *.
  destruct (build_corpus_weight_snapshot sa _ _ _) as [sn|e|] eqn:Eb; [|right; by simplify_eq..].
  left. exists sn. split; [done|]. by injection Hrun as <- <-.
Qed.

Lemma snapshot_iteration s n mode fw sn :
  build_corpus_weight_snapshot s n mode fw = Ok sn → cw_iteration sn = n.
Proof. by intros (tcs & _ & [= <-])%obind_Ok_inv. Qed.

Lemma start_goes ph v : ph ≠ PendingRecompute → keeps (goes ph) (start_pending_recompute v).
Proof.
  intros Hne w Hph Hok. destruct (start_pending_recompute v w) as [r w'] eqn:Hrun. cbn [snd].
  destruct (start_run v w r w' Hrun) as [(_ & -> & _)|(Ep & [[-> _]|(ra & sa & Ea & Hc)])];
    [by left|by left|].
  pose proof (quiet_apply_v v (next_of (st w)) (st w)) as Hq. rewrite Ea in Hq. cbn [snd] in Hq.
  assert (wabs w (w <| st := sa |>)) as Hw by (apply wquiet_wabs; by split).
  destruct Hc as [(_ & _ & ->)|(_ & [(sn & Hsn & _ & ->)|(_ & _ & ->)])]; [by left| |].
  - right. apply snapshot_iteration in Hsn. split.
    + unfold worker_ok. cbn. split_and!; [done|done|]. eexists. split; [done|].
      intros k [= <-]. done.
    + unfold abs. rewrite Ep, Hph. by constructor.
  - left. etrans; [exact Hw|apply wabs_set_tpe_state].
Qed.

Lemma wtpe_on_st {A} (m : M State A) : (∀ s, m_tpe (m s).2 = m_tpe s) → keeps wtpe (on_st m).
Proof.
  intros Hm w. unfold on_st. specialize (Hm (st w)). destruct (m (st w)) as [r s]. by split.
Qed.

Lemma wtpe_on_ctx {A} (m : M Ctx A) : keeps ctx_step m → keeps wtpe (on_ctx m).
Proof. intros Hm. eapply keeps_sub; [apply wquiet_wtpe|]. by apply keeps_on_ctx. Qed.

Lemma install_committed_tpe schema mask s :
  m_tpe (install_committed_runtime_mask schema mask s).2 = m_tpe s.
Proof.
  destruct (install_committed_runtime_mask schema mask s) as [r s'] eqn:Hrun.
  apply install_committed_run in Hrun as [(_ & _ & _ & _ & _ & _ & E & _)|(e & _ & -> & _)]; done.
Qed.

Ltac wtpe_step :=
  first [ apply keeps_ret; apply _ | apply keeps_throw; apply _ | apply keeps_gets; apply _
        | apply keeps_lift; apply _
        | apply wtpe_on_ctx, keeps_enqueue_exact
        | apply wtpe_on_st; solve [by intros ? | intros ?; apply install_committed_tpe]
        | apply keeps_if
        | apply keeps_bind; [apply _| |intros ?] ].

Lemma commit_full_tpe runtime schema raw : keeps wtpe (commit_full runtime schema raw).
Proof.
  unfold commit_full. wtpe_step; [wtpe_step|]. wtpe_step; [wtpe_step|].
  do 2 (wtpe_step; [wtpe_step|]). destruct a1 as [[??]?], (positive_credit_stats a0).
  repeat wtpe_step.
Qed.

Lemma commit_explicit_tpe runtime raw : keeps wtpe (commit_explicit runtime raw).
Proof.
  unfold commit_explicit. do 2 (wtpe_step; [wtpe_step|]). wtpe_step; [wtpe_step|].
  do 3 (wtpe_step; [wtpe_step|]). destruct a3 as [[??]?], (positive_credit_stats a2).
  repeat wtpe_step.
Qed.

Lemma commit_auto_tpe runtime schema raw : keeps wtpe (commit_auto_credit runtime schema raw).
Proof.
  unfold commit_auto_credit. wtpe_step; [wtpe_step|]. destruct (positive_credit_stats a).
  wtpe_step; [wtpe_step|]. wtpe_step.
  - destruct a0; [|repeat wtpe_step]. do 3 (wtpe_step; [wtpe_step|]).
    destruct a2 as [[??]?]. wtpe_step.
  - destruct a1 as [[[[??]?]?]?]. repeat wtpe_step.
Qed.

Lemma commit_tpe : keeps wtpe commit_mask_and_tpe_initialization_before_first_tpe.
Proof.
  unfold commit_mask_and_tpe_initialization_before_first_tpe.
  wtpe_step; [wtpe_step|]. apply keeps_if; [by intros w|].
  do 2 (wtpe_step; [wtpe_step|]). wtpe_step; [|by intros w].
  destruct (vm_mode a); [apply commit_full_tpe|apply commit_explicit_tpe|apply commit_auto_tpe].
Qed.

Ltac wabs_step :=
  first [ apply keeps_ret; apply _ | apply keeps_throw; apply _ | apply keeps_gets; apply _
        | apply keeps_lift; apply _ | apply wabs_report
        | apply wabs_on_st; first [apply quiet_now | apply quiet_fire | apply quiet_export
                                  | apply quiet_persist | apply quiet_publish]
        | apply wabs_on_ctx; first [apply keeps_next_untried | apply keeps_suggest_next
                                   | apply keeps_enqueue_inverse]
        | apply keeps_modify; by intros ?
        | apply keeps_if
        | apply keeps_bind; [apply _| |intros ?] ].

Lemma perform_explore_goes : keeps (goes Explore) perform_explore.
Proof.
  unfold perform_explore. apply goes_pre.
  { apply wabs_on_st. repeat (apply quiet_now || (apply keeps_bind; [apply _| |intros ?]) ||
      (apply keeps_gets; apply _) || (apply keeps_ret; apply _)). }
  intros over. destruct over; cbn [negb].
  2: { apply goes_of_wabs. repeat wabs_step. }
  apply goes_pre; [eapply keeps_sub; [apply wtpe_wabs|apply commit_tpe]|intros _].
  apply goes_pre; [wabs_step|intros cands]. destruct cands; [apply goes_of_wabs; wabs_step|].
  apply goes_pre; [wabs_step|intros ocand]. apply goes_pre; [wabs_step|intros cand].
  apply goes_post; [by apply start_goes|intros _]. repeat wabs_step.
Qed.

Lemma perform_active_goes : keeps (goes ActiveWindow) perform_active.
Proof.
  unfold perform_active, close_window, report_trials.
  do 2 (apply goes_pre; [wabs_step|intros ?]).
  destruct (active_start_ms a0) as [start_ms|]; [|apply goes_of_wabs; wabs_step].
  apply goes_pre; [wabs_step|intros p]. destruct (_ <? _)%Z; [apply goes_of_wabs; wabs_step|].
  do 2 (apply goes_pre; [wabs_step|intros ?]).
  apply goes_pre; [destruct a2; wabs_step|intros _].
  apply goes_pre; [|intros _].
  { destruct (flt _ _); [|wabs_step]. by intros w. }
  apply goes_pre; [wabs_step|intros onext].
  apply goes_post; [|intros _; repeat wabs_step].
  destruct onext as [next|]; [by apply start_goes|].
  do 3 (apply goes_pre; [wabs_step|intros ?]).
  intros w Hph Hok. right. unfold on_st, modify. cbn [snd].
  assert (pending_worker (stage w) = false) as Ep.
  { unfold worker_ok in Hok. destruct (pending_worker (stage w)); [|done].
    destruct Hok as [? _]. congruence. }
  unfold worker_ok, abs in *. cbn. rewrite Ep in *. split; [done|]. rewrite Hph. constructor.
Qed.

Lemma perform_locked_goes : keeps (goes LockedBest) perform_locked.
Proof.
  unfold perform_locked. do 2 (apply goes_pre; [wabs_step|intros ?]).
  intros w Hph Hok. change (bind (gets ?f) ?k w) with (k (f w) w). cbv beta zeta.
  destruct (_ <? _)%Z; [by left|]. generalize (default a (match last_new_edges_ms (tpe_meta (st w)) with
    | Some x => Some x | None => active_start_ms (tpe_meta (st w)) end)). intros last_new.
  revert w Hph Hok. match goal with |- ∀ w, _ → _ → wabs w (?m w).2 ∨ _ =>
    change (keeps (goes LockedBest) m) end.
  apply goes_pre; [wabs_step|intros p]. destruct (_ <=? _)%Z; [|apply goes_of_wabs; wabs_step].
  do 3 (apply goes_pre; [wabs_step|intros ?]).
  destruct a3; [by apply start_goes|apply goes_of_wabs; wabs_step].
Qed.

Lemma join_worker_abs w : worker_ok w → get_phase (st w) = PendingRecompute →
  pending_worker (stage w) = true →
  worker_ok (join_worker w) ∧ machine_step (abs w) (abs (join_worker w)).
Proof.
  intros Hok Hph Ep. unfold abs, worker_ok. cbn. rewrite Hph, Ep. split; [done|constructor].
Qed.

(** The state [activate] leaves; it cannot fail. *)
Definition activated (n : u64) (s : State) (edges : u64) (t : TpeState) : State :=
  let now := clock (ticks s) in
  (persist_to_meta t (set_tpe_meta (λ m, m <| active_iteration := Some n |>
      <| pending_iteration := None |> <| phase := ActiveWindow |>
      <| active_start_ms := Some now |> <| active_start_edges := Some edges |>
      <| last_new_edges_ms := Some now |>)
    (set_features_active true (s <| m_dirty := Some (mkDirty n true) |>)
       <| ticks := S (ticks s) |>))).2.

Lemma activate_run n w : activate n w =
  (Ok true, w <| st := activated n (st w) (current_edges (edges_name (stage w)) (st w))
                         (tpe_state w) |>).
Proof. done. Qed.

(** The runs of [poll_pending] with a live worker: it waits, loses the worker, fails
    to publish, or publishes; the result is never one of another iteration. *)
Lemma poll_run w r w' : poll_pending w = (r, w') → worker_ok w → pending_worker (stage w) = true →
  ∃ k, result_rx (stage w) = Some k ∧
  match k with
  | Running _ => r = Ok false ∧ w' = w
  | Died => (∃ e, r = Err e) ∧ w' = join_worker w
  | Sent result =>
    rr_iteration result = iteration_of (st w) ∧
    ∃ rp sp, publish_weight_recompute_result result (st w) = (rp, sp) ∧
      ((rp = Ok () ∧ activate (rr_iteration result) ((join_worker w) <| st := sp |>) = (r, w')) ∨
       (rp ≠ Ok () ∧ r ≠ Ok true ∧ r ≠ Ok false ∧ (r = Panic → rp = Panic) ∧
        w' = (join_worker w) <| st := sp |>))
  end.
Proof.
  intros Hrun Hok Ep. unfold worker_ok in Hok. rewrite Ep in Hok.
  destruct Hok as (_ & _ & k & Hk & Hit). exists k. split; [done|].
  unfold poll_pending in Hrun. unfold bind at 1, gets at 1 in Hrun. rewrite Hk in Hrun.
  destruct k as [snapshot|result|].
  - by injection Hrun as <- <-.
  - specialize (Hit _ eq_refl). split; [done|].
    unfold bind at 1, modify at 1 in Hrun. unfold bind at 1, gets at 1 in Hrun.
    assert (default 0%Z (current_iteration <$> m_tpe (st (join_worker w))) = rr_iteration result)
      as Hcur by (rewrite Hit; unfold iteration_of, tpe_meta; cbn; by destruct (m_tpe (st w))).
    rewrite Hcur, Z.eqb_refl in Hrun. cbn [negb] in Hrun. unfold bind at 1, on_st at 1 in Hrun.
    change (st (join_worker w)) with (st w) in Hrun.
    destruct (publish_weight_recompute_result result (st w)) as [rp sp].
    exists rp, sp. split; [done|]. destruct rp as [[]|e|]; [by left|..];
      injection Hrun as <- <-; right; split_and!; done.
  - injection Hrun as <- <-. split; [by eexists|done].
Qed.

Lemma poll_goes w r w' : poll_pending w = (r, w') → get_phase (st w) = PendingRecompute →
  worker_ok w → pending_worker (stage w) = true →
  wabs w w' ∨ (worker_ok w' ∧ machine_step (abs w) (abs w')).
Proof.
  intros Hrun Hph Hok Ep. pose proof (join_worker_abs w Hok Hph Ep) as [Hj Hs].
  destruct (poll_run w r w' Hrun Hok Ep) as (k & Hk & Hc).
  destruct k as [snapshot|result|].
  - destruct Hc as [_ ->]. by left.
  - destruct Hc as (Hit & rp & sp & Hp & Hc). right.
    pose proof (quiet_publish result (st w)) as Hq. rewrite Hp in Hq. cbn [snd] in Hq.
    assert (wabs (join_worker w) ((join_worker w) <| st := sp |>)) as Hw
      by (apply wquiet_wabs; by split).
    destruct Hc as [(_ & Hact)|(_ & _ & _ & _ & ->)].
    + rewrite activate_run in Hact. injection Hact as <- <-.
      assert (iteration_of sp = iteration_of (st w)) as Hi by apply Hw.
      split; [done|]. unfold abs at 1. rewrite Hph, Ep, <-Hi. constructor.
    + split; [by eapply wabs_worker_ok|]. by rewrite (wabs_abs _ _ Hw).
  - destruct Hc as [_ ->]. by right.
Qed.

Lemma perform_abs w r w' : perform w = (r, w') → worker_ok w →
  worker_ok w' ∧
  ∃ m, (m = abs w ∨ machine_recover (abs w) m) ∧ (abs w' = m ∨ machine_step m (abs w')).
Proof.
  intros Hrun Hok. unfold perform in Hrun. unfold bind at 1, gets at 1 in Hrun.
  destruct (stage_enabled (st w)); cbn [negb] in Hrun.
  2: { injection Hrun as <- <-. split; [done|]. exists (abs w). by split; left. }
  unfold bind at 1, modify at 1 in Hrun. unfold bind at 1, modify at 1 in Hrun.
  assert (wabs w (stage_restore w)) as Hr0 by apply wabs_set_tpe_state.
  set (w0 := stage_restore w) in *.
  assert (worker_ok w0) as Hok0 by by eapply wabs_worker_ok.
  assert (∃ m, (m = abs w0 ∨ machine_recover (abs w0) m) ∧ m = abs (recover_pending w0) ∧
            worker_ok (recover_pending w0) ∧
            (get_phase (st (recover_pending w0)) = PendingRecompute →
               pending_worker (stage (recover_pending w0)) = true)) as (m & Hm & Em & Hok1 & Hpw).
  { unfold recover_pending. case_bool_decide as Hph; cbn [andb].
    2: { exists (abs w0). split_and!; [by left|done|done|done]. }
    destruct (pending_worker (stage w0)) eqn:Ep; cbn [negb].
    { exists (abs w0). split_and!; [by left|done|done|done]. }
    eexists. split_and!; [|reflexivity| |].
    - right. unfold abs. cbn [stage upd eta_World]. rewrite Hph, Ep.
      destruct (get_current_weight_vec (st w0)); constructor.
    - unfold worker_ok in *. cbn [stage upd eta_World]. by rewrite Ep in Hok0 |- *.
    - destruct (get_current_weight_vec (st w0)); discriminate. }
  rewrite <-(wabs_abs w w0 Hr0). set (w1 := recover_pending w0) in *.
  assert (wabs w1 w' ∨ (worker_ok w' ∧ machine_step (abs w1) (abs w'))) as Hgo.
  2: { destruct Hgo as [Hgo|[Hw' Hs]].
       - split; [by eapply wabs_worker_ok|]. exists m. split; [done|]. left. by rewrite Em, (wabs_abs w1 w').
       - split; [done|]. exists m. split; [done|]. right. by rewrite Em. }
  unfold bind at 1, gets at 1 in Hrun. destruct (get_phase (st w1)) eqn:Eph.
  - pose proof (perform_explore_goes w1 Eph Hok1) as Hg. by rewrite Hrun in Hg.
  - unfold perform_pending in Hrun. unfold bind at 1 in Hrun.
    destruct (poll_pending w1) as [rp wp] eqn:Hpoll.
    pose proof (poll_goes w1 rp wp Hpoll Eph Hok1 (Hpw eq_refl)) as Hg.
    assert (wabs wp w') as Hpost.
    { destruct rp as [b|e|]; [|by simplify_eq..]. pose proof (wabs_report) as Hrep.
      destruct b; [|by injection Hrun as <- <-]. specialize (Hrep published_message wp).
      by rewrite Hrun in Hrep. }
    destruct Hg as [Hg|[Hg1 Hg2]]; [left; by etrans|right].
    split; [by eapply wabs_worker_ok|]. by rewrite (wabs_abs wp w').
  - pose proof (perform_active_goes w1 Eph Hok1) as Hg. by rewrite Hrun in Hg.
  - pose proof (perform_locked_goes w1 Eph Hok1) as Hg. by rewrite Hrun in Hg.
Qed.

Lemma perform_worker w : worker_ok w → worker_ok (perform w).2.
Proof.
  intros Hok. destruct (perform w) as [r w'] eqn:E. by destruct (perform_abs w r w' E Hok).
Qed.

(** [perform] refines the abstract machine: it may first recover from a lost worker,
    and then makes at most one transition; the worker always works on the pending
    iteration. *)
Theorem perform_refines w r w' : perform w = (r, w') → worker_ok w →
  worker_ok w' ∧
  ∃ m, (m = abs w ∨ machine_recover (abs w) m) ∧ (abs w' = m ∨ machine_step m (abs w')).
Proof. apply perform_abs. Qed.

(** ** The committed mask *)

Definition committed (s : State) : bool := tpe_init_committed (vec_mask_runtime_meta s).

Definition mask_fixed (w w' : World) : Prop :=
  committed (st w) = true → same_mask (st w) (st w').

#[local] Instance mask_fixed_preorder : PreOrder mask_fixed.
Proof.
  split; [by intros w|]. intros w1 w2 w3 H12 H23 Hc. pose proof (H12 Hc) as M12.
  etrans; [exact M12|]. apply H23. unfold committed, vec_mask_runtime_meta in *.
  destruct M12 as [-> _]. done.
Qed.

Lemma mask_fixed_wquiet {A} (m : M World A) : keeps wquiet m → keeps mask_fixed m.
Proof. apply keeps_sub. by intros w w' [[_ Hm] _] _. Qed.

Lemma mask_fixed_st {A} (m : M State A) : keeps same_mask m → keeps mask_fixed (on_st m).
Proof.
  intros Hm w _. unfold on_st. specialize (Hm (st w)). by destruct (m (st w)).
Qed.

Lemma mask_fixed_start v : keeps mask_fixed (start_pending_recompute v).
Proof.
  intros w _. destruct (start_pending_recompute v w) as [r w'] eqn:Hrun. cbn [snd].
  destruct (start_run v w r w' Hrun) as [(_ & -> & _)|(_ & [[-> _]|(ra & sa & Ea & Hc)])];
    [done|done|].
  pose proof (quiet_apply_v v (next_of (st w)) (st w)) as [_ Hq]. rewrite Ea in Hq.
  by destruct Hc as [(_ & _ & ->)|(_ & [(sn & _ & _ & ->)|(_ & _ & ->)])].
Qed.

Ltac mask_step :=
  first [ apply keeps_ret; apply _ | apply keeps_throw; apply _ | apply keeps_gets; apply _
        | apply keeps_lift; apply _ | apply mask_fixed_start
        | apply mask_fixed_wquiet, keeps_on_ctx;
            first [apply keeps_next_untried | apply keeps_suggest_next | apply keeps_enqueue_inverse]
        | apply mask_fixed_wquiet, keeps_on_st;
            first [apply quiet_now | apply quiet_fire | apply quiet_export
                  | apply quiet_persist | apply quiet_publish]
        | apply mask_fixed_st; by intros ?
        | apply keeps_modify; by intros ? ?
        | apply keeps_if
        | apply keeps_bind; [apply _| |intros ?] ].

Lemma mask_fixed_commit : keeps mask_fixed commit_mask_and_tpe_initialization_before_first_tpe.
Proof.
  intros w Hc. unfold commit_mask_and_tpe_initialization_before_first_tpe.
  change (bind (gets ?f) ?k w) with (k (f w) w). cbv beta. unfold committed in Hc. by rewrite Hc.
Qed.

(** Once the mask and the initial candidates are committed, no run of the stage
    changes the mask, the active coordinates or the schema. *)
Lemma mask_fixed_perform : keeps mask_fixed perform.
Proof.
  unfold perform. mask_step; [mask_step|]. mask_step; [mask_step|].
  mask_step; [mask_step|].
  mask_step; [apply keeps_modify; intros w _; unfold recover_pending; by case_match|].
  mask_step; [mask_step|]. destruct a2.
  - unfold perform_explore, explore_done, report.
    mask_step; [apply mask_fixed_wquiet, keeps_on_st;
      repeat (apply quiet_now || (apply keeps_bind; [apply _| |intros ?]) ||
      (apply keeps_gets; apply _) || (apply keeps_ret; apply _))|].
    mask_step; [repeat mask_step|]. mask_step; [apply mask_fixed_commit|].
    mask_step; [mask_step|]. destruct a4; repeat mask_step.
  - unfold perform_pending, poll_pending, activate, report.
    mask_step; [|repeat mask_step]. mask_step; [mask_step|].
    destruct a2 as [[]|]; repeat mask_step.
  - unfold perform_active, close_window, report, report_trials.
    do 2 (mask_step; [mask_step|]). destruct (active_start_ms a3); [|mask_step].
    do 2 (mask_step; [mask_step|]). do 2 (mask_step; [mask_step|]).
    mask_step; [destruct a6; mask_step|].
    mask_step; [repeat mask_step|]. mask_step; [mask_step|].
    mask_step; [destruct a9; repeat mask_step|]. repeat mask_step.
  - unfold perform_locked.
    do 3 (mask_step; [mask_step|]). mask_step; [repeat mask_step|].
    mask_step; [mask_step|]. mask_step; [|mask_step].
    do 3 (mask_step; [mask_step|]). destruct a8; repeat mask_step.
Qed.

(** Once the mask and the initial candidates are committed, a run of the stage, whatever its
    outcome, leaves the mask metadata, the mask, the active features and the schema as they
    are. *)
Theorem perform_keeps_mask w r w' :
  perform w = (r, w') → committed (st w) = true → same_mask (st w) (st w').
Proof. intros Hrun Hc. pose proof (mask_fixed_perform w Hc) as Hm. by rewrite Hrun in Hm. Qed.

(** ** A stage that is resumed in its first recompute *)

(** The active window is open, but was never given a start. *)
Definition stuck (w : World) : Prop :=
  stage_enabled (st w) = true ∧ get_phase (st w) = ActiveWindow ∧
  active_start_ms (tpe_meta (st w)) = None.

Lemma stuck_step w : stuck w →
  perform w = (Ok (), (stage_restore w) <| st := (st w) <| ticks := S (ticks (st w)) |> |>).
Proof.
  intros (He & Hp & Ha). unfold perform. unfold bind at 1, gets at 1. rewrite He. cbn [negb].
  unfold bind at 1, modify at 1. unfold bind at 1, modify at 1.
  assert (st (stage_restore w) = st w) as Es by done.
  assert (recover_pending (stage_restore w) = stage_restore w) as ->.
  { unfold recover_pending. rewrite Es. by rewrite bool_decide_eq_false_2 by congruence. }
  unfold bind at 1, gets at 1. rewrite Es, Hp. unfold perform_active, bind, on_st, now_ms, gets.
  rewrite Es. cbn [st upd eta_World].
  change (tpe_meta ((st w) <| ticks := S (ticks (st w)) |>)) with (tpe_meta (st w)). by rewrite Ha.
Qed.

Lemma stuck_stays w : stuck w → stuck (perform w).2 ∧ iteration_of (st (perform w).2) = iteration_of (st w).
Proof. intros Hs. rewrite (stuck_step w Hs). split; [exact Hs|done]. Qed.

(** C40. A run that is interrupted during its first recompute (the vector is applied, no window was
    ever opened) and resumed comes back in the active window without a start time, and stays
    there: no later run of the stage closes the window, changes the iteration or reports an
    error. *)
Theorem resumed_first_recompute_stuck w n :
  stage_enabled (st w) = true → get_phase (st w) = PendingRecompute →
  pending_worker (stage w) = false → get_current_weight_vec (st w) ≠ [] →
  active_start_ms (tpe_meta (st w)) = None →
  let w' := Nat.iter (S n) (λ w, (perform w).2) w in
  get_phase (st w') = ActiveWindow ∧ iteration_of (st w') = iteration_of (st w) ∧
  (perform w').1 = Ok ().
Proof.
  intros He Hp Hw Hv Ha. set (w1 := w <| st := set_phase ActiveWindow (st w) |>).
  assert (stuck w1) as Hs1 by by (split_and!).
  assert ((perform w).2 = (perform w1).2) as E1.
  { rewrite (stuck_step w1 Hs1). unfold perform. unfold bind at 1, gets at 1. rewrite He. cbn [negb].
    unfold bind at 1, modify at 1. unfold bind at 1, modify at 1.
    assert (recover_pending (stage_restore w) = (stage_restore w) <| st := set_phase ActiveWindow (st w) |>) as ->.
    { unfold recover_pending. change (st (stage_restore w)) with (st w).
      change (pending_worker (stage (stage_restore w))) with (pending_worker (stage w)).
      rewrite bool_decide_eq_true_2, Hw by done. by destruct (get_current_weight_vec (st w)). }
    unfold bind at 1, gets at 1. cbn [st upd eta_World].
    change (get_phase (set_phase ActiveWindow (st w))) with ActiveWindow.
    unfold perform_active, bind, on_st, now_ms, gets. cbn [st upd eta_World].
    change (active_start_ms (tpe_meta ((set_phase ActiveWindow (st w)) <| ticks := S (ticks (set_phase ActiveWindow (st w))) |>)))
      with (active_start_ms (tpe_meta (st w))).
    by rewrite Ha. }
  assert (∀ m, stuck (Nat.iter (S m) (λ w, (perform w).2) w) ∧
               iteration_of (st (Nat.iter (S m) (λ w, (perform w).2) w)) = iteration_of (st w)) as Hall.
  { induction m as [|m [IH1 IH2]].
    - change (Nat.iter 1 _ w) with (perform w).2. rewrite E1. by apply (stuck_stays w1).
    - change (Nat.iter (S (S m)) _ w) with (perform (Nat.iter (S m) (λ w, (perform w).2) w)).2.
      destruct (stuck_stays _ IH1) as [? ->]. done. }
  cbv zeta. destruct (Hall n) as [Hs Hi]. split_and!; [apply Hs|exact Hi|].
  by rewrite (stuck_step _ Hs).
Qed.
End Transitions.

(** ** Concrete stages *)

Definition demo_stage : World :=
  mkWorld (stage_new demo_params "edges" (RomuDuoJr.with_seed 5))
    (set_tpe_satisfied true (set_feat_exists true (set_features_active true demo_one))).

Lemma perform_refines_witness :
  let w' := (perform (H := toy_libm) (H0 := toy_env) (H1 := toy_json_out) demo_stage).2 in
  worker_ok w' ∧ ∃ m, (m = abs demo_stage ∨ machine_recover (abs demo_stage) m) ∧
                      (abs w' = m ∨ machine_step m (abs w')).
Proof.
  cbv zeta.
  destruct (perform (H := toy_libm) (H0 := toy_env) (H1 := toy_json_out) demo_stage) as [r w'] eqn:E.
  by apply (perform_refines (H := toy_libm) (H0 := toy_env) (H1 := toy_json_out) demo_stage r w').
Defined.

(** The same stage after the commit. *)
Definition demo_committed : World :=
  demo_stage <| st := set_vec_mask_runtime_meta
    (VecMaskRuntimeMeta_default <| tpe_init_committed := true |> <| mask_committed := true |>
       <| effective_mask := [true; true] |> <| normalized_credit_init_v := [f_half; f_half] |>)
    (st demo_stage) |>.

Lemma perform_keeps_mask_witness :
  same_mask (st demo_committed)
    (st (perform (H := toy_libm) (H0 := toy_env) (H1 := toy_json_out) demo_committed).2).
Proof.
  destruct (perform (H := toy_libm) (H0 := toy_env) (H1 := toy_json_out) demo_committed) as [r w'] eqn:E.
  by apply (perform_keeps_mask (H := toy_libm) (H0 := toy_env) (H1 := toy_json_out) demo_committed r w').
Defined.

(** A state that was saved in its first recompute. *)
Definition demo_resumed : World :=
  demo_committed <| st := set_current_weight_vec [f_half; f_half]
    ((st demo_committed) <| m_tpe :=
       Some (mkTpeIteration 1 None (Some 1%Z) PendingRecompute None None None) |>) |>.

Lemma resumed_first_recompute_stuck_witness :
  get_phase (st (Nat.iter 8
    (λ w, (perform (H := toy_libm) (H0 := toy_env) (H1 := toy_json_out) w).2) demo_resumed)) = ActiveWindow.
Proof.
  apply (resumed_first_recompute_stuck (H := toy_libm) (H0 := toy_env) (H1 := toy_json_out)
    demo_resumed 7); done.
Defined.
