(* ===== verification/TpeStageSafe.v ===== *)
(** * TpeStageSafe: no run of the TPE stage panics

    The invariant of the TPE stage ([stage_inv]): every stored vector has the active
    dimension and lies in the unit cube, the history is bounded and free of NaN, the
    results of the worker are valid numbers.  Every run of the stage keeps it and
    ends in a value or an error, never in a panic; a successful commit leaves a
    non-empty pool of usable candidates. *)

From Stdlib Require Import ZArith Lia.
From S2P Require Import Prelude Float64 FloatFacts Rands Corpus Metadata State FrontierSets MaskSelection FeaturesMap Factor WeightRefresh Tpe TpeFacts TpeSpec RuntimeData TpeStage TpeStageFacts.

Import InMemoryFacts.

(** ** The invariant *)

Record hist_ok (d : nat) (h : TpeHistoryMeta) : Prop := {
  ho_trials : Forall (λ t : list f64 * f64 * u64, Forall fvalid t.1.1 ∧ length t.1.1 = d ∧
                        fvalid t.1.2 ∧ is_nan t.1.2 = false) (th_trials h);
  ho_bound : length (th_trials h) ≤ MAX_TRIALS;
  ho_last : Forall fvalid (th_last_vec h) ∧ (th_last_vec h = [] ∨ length (th_last_vec h) = d);
}.

Definition worker_valid (k : Worker) : Prop :=
  match k with
  | Running snapshot => Forall fvalid (cw_feature_weights_by_sancov snapshot)
  | Sent result => Forall (λ i, fvalid (tw_weight i)) (rr_per_testcase result)
  | Died => True
  end.

Record state_ok (d : nat) (s : State) : Prop := {
  so_hist : ∀ h, m_history s = Some h → hist_ok d h;
  so_current : vec_ok d (get_current_weight_vec s);
  so_credits : ∀ m, m_explore s = Some m → Forall fvalid (cr_credits m);
  so_schema : small (length (get_schema_features s));
  so_names : length (get_active_feature_names s) = d;
  so_feats : Forall fvalid (default [] (m_feats s));
  so_matrix : matrix_valid s;
  so_params : params_ok (get_factor_params s);
  so_corpus : ∀ id tc, tc_at (corpus s) id = Some tc → weights_valid tc;
}.

Record base (d : nat) (w : World) : Prop := {
  b_ctx : ctx_inv d (to_ctx w);
  b_dim : d ≠ 0 ∧ small d;
  b_state : state_ok d (st w);
  b_result : ∀ k, result_rx (stage w) = Some k → worker_valid k;
}.

(** Before the commit nothing has been tried. *)
Definition fresh (w : World) : Prop :=
  get_phase (st w) = Explore ∧ trials (tpe_state w) = [] ∧ last_vec (tpe_state w) = [] ∧
  best_fixed (tpe_state w) = [] ∧
  ∀ h, m_history (st w) = Some h → th_trials h = [] ∧ th_last_vec h = [].

Definition cinv (d : nat) (w : World) : Prop := base d w ∧ committed (st w) = true.
Definition inv (d : nat) (w : World) : Prop :=
  base d w ∧ (committed (st w) = true ∨ fresh w).
Definition stage_inv (w : World) : Prop := ∃ d, inv d w.

Lemma cinv_inv d w : cinv d w → inv d w.
Proof. intros [? ?]. split; [done|by left]. Qed.
Lemma cinv_stage_inv d w : cinv d w → stage_inv w.
Proof. intros ?. exists d. by apply cinv_inv. Qed.

(** ** Steps the invariant does not see *)

Definition benign (s s' : State) : Prop :=
  quiet s s' ∧ m_history s' = m_history s ∧ m_explore s' = m_explore s ∧
  m_feats s' = m_feats s ∧ m_matrix s' = m_matrix s ∧ corpus s' = corpus s ∧
  v_candidates (globals s') = v_candidates (globals s) ∧
  current_v (globals s') = current_v (globals s) ∧
  factor_params (globals s') = factor_params (globals s).

#[global] Instance benign_preorder : PreOrder benign.
Proof.
  split; [by intros s|]. intros s1 s2 s3 (Q1 & H1) (Q2 & H2). split; [by etrans|].
  naive_solver congruence.
Qed.

Lemma benign_state_ok d s s' : benign s s' → state_ok d s → state_ok d s'.
Proof.
  intros ((Ht & Hm & Hv & Hd & Hn & Hs & Hsv) & Hh & He & Hf & Hx & Hc & Hp & Hcv & Hfp)
    [S1 S2 S3 S4 S5 S6 S7 S8 S9].
  split; unfold matrix_valid, get_current_weight_vec, get_factor_params in *;
    rewrite ?Hh, ?Hcv, ?He, ?Hs, ?Hn, ?Hf, ?Hx, ?Hfp, ?Hc; done.
Qed.

Lemma benign_base d w s' : benign (st w) s' → base d w → base d (w <| st := s' |>).
Proof.
  intros Hb [[C1 C2 C3 C4 C5 C6] D S R]. split; [|done|by eapply benign_state_ok|done].
  destruct Hb as ((Ht & Hm & Hv & Hd & _) & _ & _ & _ & _ & _ & Hp & _).
  split; try done; cbn in *.
  - by rewrite Hd.
  - unfold get_v_candidates in *. by rewrite Hp.
  - by rewrite Hm.
Qed.

Lemma benign_committed s s' : benign s s' → committed s' = committed s.
Proof. intros ((_ & Hm & _) & _). unfold committed, vec_mask_runtime_meta. by rewrite Hm. Qed.

Lemma benign_inv d w s' : benign (st w) s' → inv d w → inv d (w <| st := s' |>).
Proof.
  intros Hb [B C]. split; [by apply benign_base|]. cbn [st upd eta_World].
  rewrite (benign_committed _ _ Hb). destruct C as [C|(P & T & L & F & Hh)]; [by left|right].
  destruct Hb as ((Ht & _) & Hhist & _). split_and!; try done.
  - unfold get_phase, tpe_meta in *. cbn [st upd eta_World]. by rewrite Ht.
  - cbn [st upd eta_World]. by rewrite Hhist.
Qed.

Lemma benign_cinv d w s' : benign (st w) s' → cinv d w → cinv d (w <| st := s' |>).
Proof.
  intros Hb [B C]. split; [by apply benign_base|]. cbn [st upd eta_World].
  by rewrite (benign_committed _ _ Hb).
Qed.

Lemma pool_only_state_ok d s s' : pool_only s s' → state_ok d s → state_ok d s'.
Proof.
  intros Hp [S1 S2 S3 S4 S5 S6 S7 S8 S9].
  pose proof (pool_only_quiet _ _ Hp) as (_ & _ & _ & _ & Hn & Hs & _). destruct Hp as [E G].
  assert (current_v (globals s') = current_v (globals s)) as Hcv by by rewrite G.
  assert (factor_params (globals s') = factor_params (globals s)) as Hfp by by rewrite G.
  destruct s', s. cbn in E. injection E as -> -> -> -> -> -> -> -> -> -> -> -> -> -> -> -> -> -> -> -> -> -> -> -> -> -> -> ->.
  split; unfold get_current_weight_vec, get_factor_params in *; rewrite ?Hcv, ?Hfp, ?Hn, ?Hs; done.
Qed.

Definition nopanic {E S A} (m : ME E S A) : Prop := ∀ s, (m s).1 ≠ Panic.

Lemma nopanic_bind {E S A B} (m : ME E S A) (k : A → ME E S B) :
  nopanic m → (∀ a, nopanic (k a)) → nopanic (bind m k).
Proof.
  intros Hm Hk s. unfold bind. specialize (Hm s). destruct (m s) as [[a|e|] s']; [apply Hk|done|done].
Qed.

Lemma triple_benign {A} (I : World → Prop) (m : M State A) :
  (∀ w s', benign (st w) s' → I w → I (w <| st := s' |>)) →
  keeps benign m → nopanic m → triple I (on_st m) (λ _, I) I.
Proof.
  intros HI Hk Hn w Hw. unfold on_st. specialize (Hk (st w)). specialize (Hn (st w)).
  destruct (m (st w)) as [[a|e|] s']; [by apply HI|by apply HI|done].
Qed.

Section BenignSteps.
Context `{Libm} `{Env} `{JsonOut}.

Lemma benign_io op : keeps benign (io op).
Proof. intros s. unfold io. by destruct (io_fail (ticks s)). Qed.
Lemma nopanic_io op : nopanic (io op).
Proof. intros s. unfold io. by destruct (io_fail (ticks s)). Qed.

Lemma run_ops_benign ops : keeps benign (run_ops ops) ∧ nopanic (run_ops ops).
Proof.
  induction ops as [|op ops [IH1 IH2]]; cbn [run_ops]; [done|]. split.
  - apply keeps_bind; [apply _|apply benign_io|done].
  - apply nopanic_bind; [apply nopanic_io|done].
Qed.

Lemma write_atomic_benign path data :
  keeps benign (write_atomic path data) ∧ nopanic (write_atomic path data).
Proof.
  unfold write_atomic. destruct (String.eqb path ""); [done|]. split.
  - apply keeps_bind; [apply _|apply run_ops_benign|intros _].
    apply keeps_bind; [apply _|apply keeps_lift; apply _|intros json].
    apply keeps_bind; [apply _|apply keeps_with_err, benign_io|intros _]. apply run_ops_benign.
  - apply nopanic_bind; [apply run_ops_benign|intros _].
    apply nopanic_bind; [intros s; unfold lift; by destruct (to_json data)|intros json].
    apply nopanic_bind; [|intros _; apply run_ops_benign].
    intros s. unfold with_err. pose proof (nopanic_io (Append (tmp_path path) json) s) as Hn.
    by destruct (io _ s) as [[]].
Qed.

Lemma export_benign force :
  keeps benign (maybe_export_runtime_data force) ∧ nopanic (maybe_export_runtime_data force).
Proof.
  unfold maybe_export_runtime_data. split.
  - do 2 (apply keeps_bind; [apply _|by intros s|intros ?]).
    repeat (apply keeps_if; [apply keeps_ret; apply _|]).
    apply keeps_bind; [apply _|by intros s|intros data].
    apply keeps_bind; [apply _|apply write_atomic_benign|intros _]. by apply keeps_modify.
  - do 2 (apply nopanic_bind; [done|intros ?]).
    repeat (destruct (_ : bool); [done|]).
    apply nopanic_bind; [done|intros data].
    apply nopanic_bind; [apply write_atomic_benign|done].
Qed.
End BenignSteps.

(** ** Publication *)

Section PublishSafe.
Context `{Env} `{Libm} `{!LibmLaws _}.

(** Only testcases and the statistics change. *)
Definition pub_frame (s s' : State) : Prop :=
  s' = s <| m_stats := m_stats s' |> <| corpus := corpus s' |>.

#[global] Instance pub_frame_preorder : PreOrder pub_frame.
Proof.
  split; [by intros []|]. intros s1 s2 s3 E1 E2. unfold pub_frame in *. rewrite E2, E1. done.
Qed.

Definition corpus_valid (s : State) : Prop :=
  ∀ id tc, tc_at (corpus s) id = Some tc → weights_valid tc.

Definition pub_inv (s0 s : State) : Prop := pub_frame s0 s ∧ corpus_valid s.

Lemma change_testcase_triple s0 id f (Q : option WeightStats → Prop) :
  (∀ tc, weights_valid tc → weights_valid (f tc)) →
  triple (λ s, pub_inv s0 s ∧ Q (m_stats s)) (change_testcase id f)
    (λ _ s, pub_inv s0 s ∧ Q (m_stats s)) (pub_inv s0).
Proof.
  intros Hf s ([Hfr Hv] & Hst). destruct (tc_at (corpus s) id) as [tc|] eqn:Et.
  - destruct (change_testcase_ok id f s tc Et) as (s' & -> & (Hs' & _ & _) & Hl).
    assert (pub_frame s s') as Hf2 by (unfold pub_frame; rewrite Hs'; done).
    split; [split; [by etrans|]|by rewrite Hs'].
    intros x tcx Hx. rewrite Hl in Hx. case_decide; [|by eapply Hv].
    injection Hx as <-. apply Hf. by eapply Hv.
  - unfold change_testcase. destruct (update_missing (corpus s) id f Et) as [e ->]. by split.
Qed.

Lemma publish_weights_triple s0 result items stats :
  Forall (λ i, fvalid (tw_weight i)) items → stats_valid stats →
  triple (pub_inv s0) (publish_weights result items stats)
    (λ st s, pub_inv s0 s ∧ stats_valid st) (pub_inv s0).
Proof.
  intros HF. revert stats. induction HF as [|i items Hi HF IH]; intros stats Hst;
    cbn [publish_weights].
  { apply triple_ret. by intros s Hs. }
  apply triple_bind with (λ _ s, pub_inv s0 s ∧ True).
  - eapply triple_weaken; [apply (change_testcase_triple s0 _ _ (λ _, True))|done|done|done].
    intros tc. by apply set_weight_valid.
  - intros _. eapply triple_weaken; [apply IH|by intros s []|done|done].
    by apply stats_update_valid.
Qed.

Definition stats_ok (o : option WeightStats) : Prop := ∀ st, o = Some st → stats_valid st.

Lemma publish_factors_triple s0 params items : params_ok params →
  triple (λ s, pub_inv s0 s ∧ stats_ok (m_stats s)) (publish_factors params items)
    (λ _, pub_inv s0) (pub_inv s0).
Proof.
  intros [Hb Ha Hbe]. induction items as [|i items IH]; cbn [publish_factors].
  { apply triple_ret. by intros s []. }
  intros s (Hp & Hst). unfold bind at 1, read_testcase.
  destruct (tc_at (corpus s) (tw_corpus_id i)) as [tc|] eqn:Et.
  2: { destruct (InMemory.get (tw_corpus_id i) (corpus s)) as [tc|e|] eqn:Eg; [|done|].
       - apply get_tc_at in Eg. congruence.
       - unfold InMemory.get, ok_or in Eg. by destruct (InMemory.map_get _ _). }
  apply get_tc_at in Et as Eg. rewrite Eg. unfold bind at 1, gets at 1. unfold bind at 1, lift.
  destruct (compute_factor_ok params s tc) as (f & -> & _); [done|done|done|done| |].
  { intros x Hx. eapply entry_weight_valid; [|exact Hx]. destruct Hp as [_ Hv]. by eapply Hv. }
  assert (triple (λ s, pub_inv s0 s ∧ stats_ok (m_stats s))
    (change_testcase (tw_corpus_id i) (λ tc, tc <| tc_perf_mult := Some f |>) ;;;
     publish_factors params items) (λ _, pub_inv s0) (pub_inv s0)) as Ht.
  { eapply triple_bind; [by apply change_testcase_triple|]. done. }
  exact (Ht s (conj Hp Hst)).
Qed.

Lemma publish_triple s0 result :
  params_ok (get_factor_params s0) → Forall (λ i, fvalid (tw_weight i)) (rr_per_testcase result) →
  triple (pub_inv s0) (publish_weight_recompute_result result) (λ _, pub_inv s0) (pub_inv s0).
Proof.
  intros Hp HF. unfold publish_weight_recompute_result.
  eapply triple_bind; [by apply publish_weights_triple|]. intros stats. cbn beta.
  apply triple_bind with (λ _ s, pub_inv s0 s ∧ stats_ok (m_stats s)).
  { apply triple_modify. intros s ([Hfr Hv] & Hst). split; [split; [|done]|by intros ? [= <-]].
    unfold pub_frame in *. rewrite Hfr. done. }
  intros _. apply triple_bind with (λ p s, p = get_factor_params s0 ∧ pub_inv s0 s ∧ stats_ok (m_stats s)).
  { apply triple_gets. intros s ([Hfr Hv] & Hst). split; [|done]. by rewrite Hfr. }
  intros p s (-> & Hs). by apply (publish_factors_triple s0).
Qed.
End PublishSafe.

(** ** Steps of the stage *)

Section StageSafe.
Context `{Libm} `{Env} `{JsonOut} `{!LibmLaws _}.
Context (fire_returns : ∀ e, fire_result e ≠ Panic).

Lemma now_triple (I : World → Prop) :
  (∀ w s', benign (st w) s' → I w → I (w <| st := s' |>)) →
  triple I (on_st now_ms) (λ _, I) I.
Proof. intros HI. by apply triple_benign. Qed.

Lemma fire_triple (I : World → Prop) e :
  (∀ w s', benign (st w) s' → I w → I (w <| st := s' |>)) →
  triple I (on_st (fire e)) (λ _, I) I.
Proof. intros HI. apply triple_benign; [done|by intros s|]. intros s. apply fire_returns. Qed.

Lemma export_triple (I : World → Prop) force :
  (∀ w s', benign (st w) s' → I w → I (w <| st := s' |>)) →
  triple I (on_st (maybe_export_runtime_data force)) (λ _, I) I.
Proof. intros HI. apply triple_benign; [done|apply export_benign..]. Qed.

(** Changes of the TPE iteration alone. *)
Lemma cinv_set_meta d f w : cinv d w → cinv d (w <| st := set_tpe_meta f (st w) |>).
Proof.
  intros [[[C1 C2 C3 C4 C5 C6] D [S1 S2 S3 S4 S5 S6 S7 S8 S9] R] Hc]. split; [|done].
  split; [by split|done|by split|done].
Qed.

Lemma set_meta_triple d f (Q : () → World → Prop) X : (∀ w, cinv d w → Q () w) →
  triple (cinv d) (on_st (modify (set_tpe_meta f))) Q X.
Proof. intros HQ w Hw. apply HQ, (cinv_set_meta d f w Hw). Qed.

Lemma set_opt_cinv d t w : opt_inv d t → cinv d w → cinv d (set_tpe_state t w).
Proof. intros Ht [[[C1 C2 C3 C4 C5 C6] D S R] Hc]. split; [|done]. by split. Qed.

Lemma cinv_opt d w : cinv d w → opt_inv d (tpe_state w).
Proof. intros [[[C1 C2 C3 C4 C5 C6] D S R] Hc]. done. Qed.

Lemma trials_hist_ok d t now last cov : opt_inv d t →
  hist_ok d (mkTpeHistory ((λ t, (tr_vector t, tr_reward t, tr_active_end_ms t)) <$> trials t)
    (last_vec t) now last cov MAX_TRIALS).
Proof.
  intros [HF Hb Hl _]. split; cbn.
  - apply Forall_fmap. eapply Forall_impl; [exact HF|]. intros x [Hc [Hv Hn]].
    pose proof (candidate_ok_valid _ _ Hc). by destruct Hc.
  - by rewrite length_fmap.
  - destruct Hl as [->|Hl]; [split; [constructor|by left]|].
    pose proof (candidate_ok_valid _ _ Hl). destruct Hl. split; [done|by right].
Qed.

Lemma persist_triple d t (P : World → Prop) : opt_inv d t → (∀ w, P w → cinv d w) →
  triple P (on_st (persist_to_meta t)) (λ _, cinv d) (cinv d).
Proof.
  intros Ht HP w Hw. apply HP in Hw as [[[C1 C2 C3 C4 C5 C6] D [S1 S2 S3 S4 S5 S6 S7 S8 S9] R] Hc].
  unfold on_st, persist_to_meta, bind, now_ms, modify. split; [|done].
  split; [by split|done| |done]. split; try done.
  intros h [= <-]. by apply trials_hist_ok.
Qed.

Lemma ctx_step_cinv d w c' : cinv d w → ctx_inv d c' → ctx_step (to_ctx w) c' →
  cinv d (from_ctx w c').
Proof.
  intros [[Hc D S R] Hcm] Hc' [Hp Hpo]. pose proof (pool_only_quiet _ _ Hpo) as [_ Hsm].
  split; [|unfold committed, vec_mask_runtime_meta in *; cbn; by destruct Hsm as [-> _]].
  split; [by destruct Hc'|done| |done]. by eapply pool_only_state_ok.
Qed.

Lemma ctx_triple {A} d (m : M Ctx A) (Q : A → Prop) :
  (∀ c, ctx_inv d c → ∃ r c', m c = (Ok r, c') ∧ ctx_inv d c' ∧ ctx_step c c' ∧ Q r) →
  triple (cinv d) (on_ctx m) (λ r w, cinv d w ∧ Q r) (cinv d).
Proof.
  intros Hm w Hw. destruct (Hm (to_ctx w)) as (r & c' & Hrun & Hc' & Hst & HQ); [apply Hw|].
  unfold on_ctx. rewrite Hrun. split; [|done]. by apply ctx_step_cinv.
Qed.

(** A successful call leaves a candidate in the pool. *)
Lemma enqueue_exact_triple d center : d ≠ 0 → small d → Forall fvalid center →
  triple (cinv d) (on_ctx (enqueue_exact_then_neighbor_candidates center))
    (λ _ w, cinv d w ∧ get_v_candidates (st w) ≠ []) (cinv d).
Proof.
  intros Hd Hs HV w Hw.
  destruct (enqueue_exact_ok d center (to_ctx w)) as (r & c' & Hrun & Hc' & Hst & _ & Hnp & Hok);
    [apply Hw|done|done|done|].
  pose proof (ctx_step_cinv d w c' Hw Hc' Hst) as Hw'. unfold on_ctx. rewrite Hrun.
  destruct r as [[]|e|]; [|done|done]. split; [done|]. by apply Hok.
Qed.

Lemma suggest_triple d : d ≠ 0 → small d →
  triple (cinv d) (on_ctx suggest_next) (λ r w, cinv d w ∧ ∀ v, r = Some v → candidate_ok d v) (cinv d).
Proof.
  intros Hd Hs. apply ctx_triple. intros c Hc.
  destruct (suggest_next_ok d c Hc Hs Hd) as (r & c' & ? & ? & ? & _ & ? & _). eauto 10.
Qed.

Lemma next_untried_triple d :
  triple (cinv d) (on_ctx next_untried_from_pool)
    (λ r w, cinv d w ∧ ∀ v, r = Some v → candidate_ok d v) (cinv d).
Proof.
  apply ctx_triple. intros c Hc.
  destruct (next_untried_ok d c Hc) as (r & c' & ? & ? & ? & _ & Hv).
  exists r, c'. split_and!; [done|done|done|]. intros v Hr. by apply Hv.
Qed.

Lemma enqueue_inverse_triple d : d ≠ 0 → small d →
  triple (cinv d) (on_ctx enqueue_inverse_candidates) (λ _ w, cinv d w ∧ True) (cinv d).
Proof.
  intros Hd Hs. apply ctx_triple. intros c Hc.
  destruct (enqueue_inverse_ok d c Hc Hs Hd) as (c' & ? & ? & ?). eauto 10.
Qed.

Lemma state_ok_pub d s s' : state_ok d s → pub_inv s s' → state_ok d s'.
Proof.
  intros [S1 S2 S3 S4 S5 S6 S7 S8 S9] [Hfr Hv]. unfold pub_frame in Hfr.
  unfold corpus_valid in Hv. revert Hv. rewrite Hfr. intros Hv. by split.
Qed.

Lemma publish_cinv d result : Forall (λ i, fvalid (tw_weight i)) (rr_per_testcase result) →
  triple (cinv d) (on_st (publish_weight_recompute_result result)) (λ _, cinv d) (cinv d).
Proof.
  intros HF w [[[C1 C2 C3 C4 C5 C6] D S R] Hc]. unfold on_st.
  pose proof (publish_triple (st w) result (so_params _ _ S) HF (st w)) as Ht.
  assert (∀ s', pub_inv (st w) s' → cinv d (w <| st := s' |>)) as Hall.
  { intros s' Hs'. pose proof (state_ok_pub d _ _ S Hs') as S'. destruct Hs' as [Hfr _].
    unfold pub_frame in Hfr. cbn in *. split.
    - split; [split; try done; cbn; rewrite Hfr; done|done|done|done].
    - unfold committed in *. cbn. rewrite Hfr. done. }
  destruct (publish_weight_recompute_result result (st w)) as [[a|e|] s'];
    [apply Hall..|]; apply Ht; (split; [by destruct (st w)|exact (so_corpus _ _ S)]).
Qed.

Lemma feats_for_valid d s v : state_ok d s → small d → Forall fvalid v →
  Forall fvalid (feats_for s v).
Proof.
  intros S Hs HV. unfold feats_for. destruct (m_matrix s) as [mx|] eqn:E.
  - apply align_Forall; [done|]. eapply Forall_impl.
    + apply combine_fin_nn; [by eapply so_matrix|done|by rewrite (so_names _ _ S)].
    + intros x [Hx _]. by apply fnn_valid.
  - apply align_Forall; [done|]. apply S.
Qed.

Lemma apply_v_state_ok d v n s sa ra : state_ok d s → small d → candidate_ok d v →
  apply_v_to_features v n s = (ra, sa) →
  state_ok d sa ∧ ra ≠ Panic ∧ m_history sa = m_history s ∧
  get_v_candidates sa = get_v_candidates s.
Proof.
  intros S Hs Hv Hrun. pose proof (quiet_apply_v v n s) as Hq. rewrite Hrun in Hq.
  destruct Hq as (_ & Hm & Hvm & Hd & Hn & Hsf & _). cbn [snd] in *. rewrite apply_v_run in Hrun.
  destruct (negb _); [by simplify_eq|].
  destruct (normalize_simplex_eps v) as [w|e|] eqn:Ew;
    [|by simplify_eq|
     by eapply normalize_simplex_total in Ew; [|by eapply candidate_ok_valid]].
  destruct (normalize_simplex_ok v w (candidate_ok_valid _ _ Hv) Ew) as (Hl & Hu & _).
  assert (candidate_ok d w) as Hw by (split; [destruct Hv; lia|done]).
  pose proof (feats_for_valid d s w S Hs (candidate_ok_valid _ _ Hw)) as Hff.
  injection Hrun as <- <-. destruct S as [S1 S2 S3 S4 S5 S6 S7 S8 S9].
  split_and!; try done. split; try done. by right.
Qed.

Lemma build_snapshot_total s n mode fw : build_corpus_weight_snapshot s n mode fw ≠ Panic.
Proof.
  unfold build_corpus_weight_snapshot. set (ids := InMemory.ids _). clearbody ids.
  assert (mapM (λ id, let? tc := InMemory.get id (corpus s) in
    Ok (mkTestcaseSnapshot id (default [] (tc_sancov tc)))) ids ≠ Panic) as Hm.
  { induction ids as [|id ids IH]; [done|]. cbn [mapM]. unfold InMemory.get at 1, ok_or.
    destruct (InMemory.map_get id _); [|done]. cbn [obind]. by destruct (mapM _ ids). }
  by destruct (mapM _ ids).
Qed.

Lemma start_triple d v : candidate_ok d v →
  triple (cinv d) (start_pending_recompute v) (λ _, cinv d) (cinv d).
Proof.
  intros Hv w Hw. destruct (start_pending_recompute v w) as [r w'] eqn:Hrun.
  assert (r ≠ Panic ∧ cinv d w') as [Hr Hw']; [|by destruct r].
  destruct (start_run v w r w' Hrun) as [(-> & -> & _)|(_ & [(-> & e & ->)|(ra & sa & Ea & Hc)])];
    [done|done|].
  pose proof (quiet_apply_v v (next_of (st w)) (st w)) as Hq. rewrite Ea in Hq.
  destruct Hw as [[[C1 C2 C3 C4 C5 C6] D S R] Hcm].
  destruct (apply_v_state_ok d v _ _ _ _ S (proj2 D) Hv Ea) as (Sa & Hnp & _ & Hpool).
  destruct Hq as (_ & Hm & _ & Hd & _). cbn in *.
  assert (cinv d (w <| st := sa |>)) as Hwa.
  { split; [|unfold committed, vec_mask_runtime_meta in *; cbn; by rewrite Hm].
    split; [|done|done|done]. split; try done; cbn; by rewrite ?Hd, ?Hpool, ?Hm. }
  destruct Hc as [(-> & _ & ->)|(_ & Hc)]; [done|].
  pose proof (set_last_ok d v (tpe_state w) C1 Hv) as Ho.
  pose proof (set_opt_cinv d _ _ Ho Hwa) as Hwb.
  destruct Hc as [(sn & Hsn & -> & ->)|(_ & Hpan & ->)].
  - split; [done|]. destruct Hwb as [[[B1 B2 B3 B4 B5 B6] _ [S1 S2 S3 S4 S5 S6 S7 S8 S9] _] Hbc].
    split; [|done]. split; [by split|done|by split|].
    intros k [= <-]. cbn. apply obind_Ok_inv in Hsn as (tcs & _ & [= <-]). cbn. apply Sa.
  - split; [|done]. intros ->. by apply (build_snapshot_total _ _ _ _ (Hpan eq_refl)).
Qed.

Lemma cinv_join d w : cinv d w → cinv d (join_worker w).
Proof. intros [[[C1 C2 C3 C4 C5 C6] D S R] Hc]. split; [|done]. by split. Qed.

Lemma gets_triple {A} (I : World → Prop) (f : World → A) : triple I (gets (E := Error) f) (λ _, I) I.
Proof. by apply triple_gets. Qed.

Lemma ret_triple {A} (I : World → Prop) (a : A) : triple I (ret (E := Error) a) (λ _, I) I.
Proof. by apply triple_ret. Qed.

(** The persisted history is the one of the optimizer. *)
Lemma persist_bind_triple {A} d (k : M World A) (Q : A → World → Prop) :
  triple (cinv d) k Q (cinv d) →
  triple (cinv d) (t <- gets tpe_state ;; on_st (persist_to_meta t) ;;; k) Q (cinv d).
Proof.
  intros Hk w Hw. change (bind (gets ?f) ?k w) with (k (f w) w). cbv beta.
  exact (triple_bind _ _ _ _ _ _
    (persist_triple d (tpe_state w) (cinv d) (cinv_opt d w Hw) (λ _ Hx, Hx)) (λ _, Hk) w Hw).
Qed.

Lemma activate_triple d n : triple (cinv d) (activate n) (λ _, cinv d) (cinv d).
Proof.
  unfold activate. apply triple_bind with (λ _, cinv d).
  { apply triple_benign; [apply benign_cinv|by intros s|done]. }
  intros ?. apply triple_bind with (λ _, cinv d).
  { apply triple_benign; [apply benign_cinv|by intros s|done]. }
  intros ?. eapply triple_bind; [apply now_triple, benign_cinv|intros now].
  eapply triple_bind; [apply gets_triple|intros edges].
  eapply triple_bind; [by apply (set_meta_triple d _ (λ _, cinv d))|intros ?].
  apply persist_bind_triple, ret_triple.
Qed.

Lemma poll_triple d : triple (cinv d) poll_pending (λ _, cinv d) (cinv d).
Proof.
  intros w Hw. unfold poll_pending. change (bind (gets ?f) ?k w) with (k (f w) w). cbv beta.
  destruct (result_rx (stage w)) as [[snapshot|result|]|] eqn:Er.
  - done.
  - assert (Forall (λ i, fvalid (tw_weight i)) (rr_per_testcase result)) as HF.
    { destruct Hw as [[_ _ _ R] _]. exact (R _ Er). }
    revert w Hw Er.
    assert (triple (cinv d) (modify join_worker ;;;
      iteration <- gets (λ w, default 0%Z (current_iteration <$> m_tpe (st w))) ;;
      if negb (rr_iteration result =? iteration)%Z then ret false
      else on_st (publish_weight_recompute_result result) ;;; activate (rr_iteration result))
      (λ _, cinv d) (cinv d)) as Ht; [|intros w Hw _; exact (Ht w Hw)].
    eapply triple_bind; [apply (triple_modify _ _ (λ _, cinv d)), cinv_join|intros ?].
    eapply triple_bind; [apply gets_triple|intros it]. apply triple_if; [apply ret_triple|].
    eapply triple_bind; [by apply publish_cinv|intros ?]. apply activate_triple.
  - exact (cinv_join d w Hw).
  - exact (cinv_set_meta d _ w Hw).
Qed.

Lemma report_triple (I : World → Prop) text :
  (∀ w s', benign (st w) s' → I w → I (w <| st := s' |>)) →
  triple I (report text) (λ _, I) I.
Proof. intros HI. by apply fire_triple. Qed.

Lemma perform_pending_triple d : triple (cinv d) perform_pending (λ _, cinv d) (cinv d).
Proof.
  eapply triple_bind; [apply poll_triple|]. intros published. apply triple_if.
  - apply report_triple, benign_cinv.
  - apply ret_triple.
Qed.

Lemma reward_valid z : fvalid (of_Z z) ∧ is_nan (of_Z z) = false.
Proof. split; [apply of_Z_valid|apply of_Z_not_nan]. Qed.

Lemma lock_triple d : triple (cinv d)
  (t <- gets tpe_state ;; t <- lift (lock_best t) ;; modify (set_tpe_state t) ;;;
   on_st (modify (set_phase LockedBest))) (λ _, cinv d) (cinv d).
Proof.
  intros w Hw. destruct (lock_best_ok d (tpe_state w) (cinv_opt d w Hw)) as (t' & Ht & _ & _ & Hi).
  unfold bind, gets, lift, modify. rewrite Ht.
  exact (cinv_set_meta d _ _ (set_opt_cinv d t' w Hi Hw)).
Qed.

Lemma observe_triple d it last_vec r a b : fvalid r → is_nan r = false → vec_ok d last_vec →
  triple (cinv d)
    (match last_vec return M World () with
     | [] => ret ()
     | _ => modify (λ w, set_tpe_state (observe_trial it last_vec r a b (tpe_state w)) w)
     end) (λ _, cinv d) (cinv d).
Proof.
  intros Hr Hn Hv. destruct Hv as [->|Hv]; [apply ret_triple|].
  destruct last_vec as [|x l]; [apply ret_triple|]. apply triple_modify. intros w Hw.
  apply set_opt_cinv; [|done]. apply observe_trial_ok; [by apply cinv_opt|
    by eapply candidate_ok_valid|by destruct Hv|done|done].
Qed.

Lemma close_window_triple d meta start_ms now : d ≠ 0 → small d →
  triple (cinv d) (close_window meta start_ms now) (λ _, cinv d) (cinv d).
Proof.
  intros Hd Hs. unfold close_window, report_trials.
  eapply triple_bind; [apply gets_triple|intros edges]. cbv zeta.
  set (reward := of_Z _). destruct (reward_valid (sat_sub edges (default edges (active_start_edges meta))))
    as [Vr Nr]. fold reward in Vr, Nr.
  apply triple_bind with (λ v w, cinv d w ∧ vec_ok d v).
  { apply triple_gets. intros w Hw. split; [done|]. destruct Hw as [[_ _ S _] _]. apply S. }
  intros last_vec. intros w [Hw Hv]. revert w Hw. match goal with
    |- ∀ w, _ → match ?m w with _ => _ end => change (triple (cinv d) m (λ _, cinv d) (cinv d)) end.
  eapply triple_bind; [by apply observe_triple|intros ?].
  eapply triple_bind; [apply triple_if; [by apply (set_meta_triple d _ (λ _, cinv d))|apply ret_triple]|intros ?].
  eapply triple_bind; [by apply suggest_triple|intros onext].
  apply triple_bind with (λ _, cinv d).
  { intros w [Hw Hn]. destruct onext as [next|].
    - exact (start_triple d next (Hn next eq_refl) w Hw).
    - exact (lock_triple d w Hw). }
  intros ?. apply persist_bind_triple.
  eapply triple_bind; [apply export_triple, benign_cinv|intros ?].
  eapply triple_bind; [eapply triple_bind; [apply gets_triple|]; intros t; apply fire_triple, benign_cinv|].
  intros ?. eapply triple_bind; [apply gets_triple|]. intros w'. apply report_triple, benign_cinv.
Qed.

Lemma cinv_dim d w : cinv d w → d ≠ 0 ∧ small d.
Proof. intros [[_ D _ _] _]. done. Qed.

(** Use the bounds on the dimension that the invariant holds. *)
Lemma triple_dim {A} d (m : M World A) (Q : A → World → Prop) X :
  (d ≠ 0 → small d → triple (cinv d) m Q X) → triple (cinv d) m Q X.
Proof. intros Hm w Hw. destruct (cinv_dim d w Hw) as [Hd Hs]. exact (Hm Hd Hs w Hw). Qed.

Lemma perform_active_triple d : triple (cinv d) perform_active (λ _, cinv d) (cinv d).
Proof.
  apply triple_dim. intros Hd Hs. unfold perform_active.
  eapply triple_bind; [apply now_triple, benign_cinv|intros now].
  eapply triple_bind; [apply gets_triple|intros meta].
  destruct (active_start_ms meta); [|apply ret_triple].
  eapply triple_bind; [apply gets_triple|intros p].
  apply triple_if; [apply ret_triple|by apply close_window_triple].
Qed.

Lemma perform_locked_triple d : triple (cinv d) perform_locked (λ _, cinv d) (cinv d).
Proof.
  apply triple_dim. intros Hd Hs. unfold perform_locked.
  eapply triple_bind; [apply now_triple, benign_cinv|intros now].
  eapply triple_bind; [apply gets_triple|intros edges].
  eapply triple_bind; [apply gets_triple|intros meta]. cbv zeta. apply triple_if.
  { intros w Hw. exact (cinv_set_meta d (λ _, meta <| active_start_edges := Some edges |>
      <| last_new_edges_ms := Some now |>) w Hw). }
  eapply triple_bind; [apply gets_triple|intros p]. apply triple_if; [|apply ret_triple].
  eapply triple_bind; [by apply enqueue_inverse_triple|intros ?].
  apply triple_bind with (λ _, cinv d).
  { eapply triple_weaken; [apply (export_triple (cinv d)), benign_cinv|by intros w []|done|done]. }
  intros ?. eapply triple_bind; [by apply suggest_triple|intros onext].
  intros w [Hw Hn]. destruct onext as [next|]; [|done].
  exact (start_triple d next (Hn next eq_refl) w Hw).
Qed.

(** ** The commit *)

Lemma credits_with_dim_ok raw dim label credits : Forall fvalid raw →
  credits_with_dim raw dim label = Ok credits → Forall fvalid credits ∧ length credits = dim.
Proof.
  intros HV. unfold credits_with_dim. destruct raw as [|x l].
  - intros [= <-]. split; [by apply Forall_replicate|apply length_replicate].
  - destruct (Nat.eqb_spec (length (x :: l)) dim); [|done]. by intros [= <-].
Qed.

Lemma credits_with_dim_total raw dim label : credits_with_dim raw dim label ≠ Panic.
Proof. unfold credits_with_dim. destruct raw; [done|]. by destruct (negb _). Qed.

Lemma unit_valid v : Forall in_unit v → Forall fvalid v.
Proof. intros HF. eapply Forall_impl; [exact HF|]. intros x (Hx & _). by apply fnn_valid. Qed.

(** What the committed metadata must satisfy. *)
Definition runtime_ok (r : VecMaskRuntimeMeta) : Prop :=
  tpe_init_committed r = true ∧ Forall fvalid (normalized_credit_init_v r).

Lemma set_runtime_cinv d r w : base d w → runtime_ok r →
  cinv d (w <| st := set_vec_mask_runtime_meta r (st w) |>).
Proof.
  intros [[C1 C2 C3 C4 C5 C6] D [S1 S2 S3 S4 S5 S6 S7 S8 S9] R] [Hr HV]. split; [|done].
  split; [|done|by split|done]. split; try done. by intros m [= <-].
Qed.

Lemma clear_pool_cinv d w : cinv d w → cinv d (w <| st := replace_v_candidates [] (st w) |>).
Proof.
  intros [[[C1 C2 C3 C4 C5 C6] D [S1 S2 S3 S4 S5 S6 S7 S8 S9] R] Hc]. split; [|done].
  split; [|done|by split|done]. by split.
Qed.

(** The end of the full and explicit commits. *)
Lemma commit_tail_triple d r loaded normalized : runtime_ok r → Forall fvalid normalized →
  triple (base d)
    (on_st (modify (set_vec_mask_runtime_meta r)) ;;;
     if negb loaded then
       on_st (modify (replace_v_candidates [])) ;;;
       on_ctx (enqueue_exact_then_neighbor_candidates normalized)
     else ret ())
    (λ _ w, cinv d w ∧ (loaded = false → get_v_candidates (st w) ≠ [])) (cinv d).
Proof.
  intros Hr HV. apply triple_bind with (λ _, cinv d).
  { intros w Hw. by apply set_runtime_cinv. }
  intros _. destruct loaded; cbn [negb]; [by apply triple_ret|].
  apply triple_bind with (λ _, cinv d); [intros w Hw; by apply clear_pool_cinv|].
  intros _. apply triple_dim. intros Hd Hs.
  eapply triple_weaken; [by apply enqueue_exact_triple|done|by intros ? ? []|done].
Qed.

Definition ready (d : nat) (w : World) : Prop := base d w ∧ fresh w.

Lemma ready_stage_inv d w : ready d w → stage_inv w.
Proof. intros [B F]. exists d. split; [done|by right]. Qed.

Lemma triple_lift {A} (P : World → Prop) (r : outcome Error A) (Q : A → World → Prop) X :
  r ≠ Panic → (∀ a, r = Ok a → ∀ w, P w → Q a w) → (∀ w, P w → X w) → triple P (lift r) Q X.
Proof.
  intros Hr HQ HX w Hw. unfold lift. destruct r as [a|e|]; [by apply HQ|by apply HX|done].
Qed.

Lemma as_illegal_total {A} (r : outcome Msg A) : r ≠ Panic → as_illegal_state r ≠ Panic.
Proof. by destruct r. Qed.
Lemma as_illegal_Ok {A} (r : outcome Msg A) a : as_illegal_state r = Ok a → r = Ok a.
Proof. by destruct r; intros [= ->]. Qed.

Lemma credit_sum_total i v sum : credit_sum i v sum ≠ Panic.
Proof.
  revert i sum. induction v as [|x v IH]; intros i sum; cbn [credit_sum]; [done|].
  repeat (case_match; try done). 
Qed.

Lemma normalize_credit_total credits : normalize_credit_or_equal_simplex credits ≠ Panic.
Proof.
  unfold normalize_credit_or_equal_simplex. destruct credits as [|c cs]; [done|].
  pose proof (credit_sum_total 0 (c :: cs) f0) as Hn.
  destruct (credit_sum _ _ _); cbn [obind]; [by case_match|done|done].
Qed.

(** Normalising the credits: the vector has their length and is valid. *)
Lemma norm_triple (P : World → Prop) credits X : (∀ w, P w → X w) → Forall fvalid credits →
  small (length credits) →
  triple P (lift (as_illegal_state (normalize_credit_or_equal_simplex credits)))
    (λ r w, P w ∧ length r.1.1 = length credits ∧ Forall fvalid r.1.1) X.
Proof.
  intros HX HV Hs. apply triple_lift; [by apply as_illegal_total, normalize_credit_total| |done].
  intros [[v b] t] Hr%as_illegal_Ok w Hw.
  destruct (proj2 (normalize_credit_spec credits HV Hs) v b t Hr) as (Hl & Hu & _).
  split_and!; [done|done|by apply unit_valid].
Qed.

Lemma credits_triple (P : World → Prop) raw dim label X : (∀ w, P w → X w) → Forall fvalid raw →
  triple P (lift (credits_with_dim raw dim label))
    (λ c w, P w ∧ Forall fvalid c ∧ length c = dim) X.
Proof.
  intros HX HV. apply triple_lift; [apply credits_with_dim_total| |done].
  intros c Hc w Hw. split; [done|]. by eapply credits_with_dim_ok.
Qed.

(** A pure precondition of a triple. *)
Lemma triple_pure {A} (P : World → Prop) (F : Prop) (m : M World A) Q X :
  (F → triple P m Q X) → triple (λ w, P w ∧ F) m Q X.
Proof. intros Hm w [Hw HF]. exact (Hm HF w Hw). Qed.

Lemma commit_full_triple d runtime schema raw : Forall fvalid raw →
  triple (ready d) (commit_full runtime schema raw)
    (λ _ w, cinv d w ∧ (candidate_file_loaded runtime = false → get_v_candidates (st w) ≠ []))
    stage_inv.
Proof.
  intros HV. unfold commit_full.
  apply triple_bind with (λ a w, ready d w ∧ a = d).
  { apply triple_gets. intros w Hw. split; [done|]. apply Hw. }
  intros a. apply triple_pure. intros ->.
  apply triple_if; [apply triple_throw, ready_stage_inv|].
  eapply triple_bind; [by apply credits_triple; [apply ready_stage_inv|]|]. intros credits.
  apply triple_pure. intros [HVc Hlc].
  apply triple_bind with (λ r w, ready d w ∧ length r.1.1 = length credits ∧ Forall fvalid r.1.1).
  { intros w Hw. assert (small (length credits)) as Hs by (rewrite Hlc; apply Hw).
    by apply (norm_triple (ready d) credits stage_inv (ready_stage_inv d) HVc Hs w). }
  intros [[normalized has_positive] psum]. apply triple_pure. intros [Hl HVn].
  destruct (positive_credit_stats credits) as [pc ?]. cbn [fst] in *.
  eapply triple_weaken; [by apply (commit_tail_triple d)|by intros w []|done|].
  intros w. apply cinv_stage_inv.
Qed.

Lemma commit_explicit_triple d runtime raw : Forall fvalid raw →
  triple (ready d) (commit_explicit runtime raw)
    (λ _ w, cinv d w ∧ (candidate_file_loaded runtime = false → get_v_candidates (st w) ≠ []))
    stage_inv.
Proof.
  intros HV. unfold commit_explicit.
  apply triple_bind with (λ _, ready d).
  { apply triple_lift; [by destruct (requested_explicit_mask runtime)|done|apply ready_stage_inv]. }
  intros requested. apply triple_bind with (λ _, ready d); [by apply triple_gets|]. intros vmask.
  apply triple_if; [apply triple_throw, ready_stage_inv|].
  apply triple_bind with (λ a w, ready d w ∧ a = d).
  { apply triple_gets. intros w Hw. split; [done|]. apply Hw. }
  intros a. apply triple_pure. intros ->.
  eapply triple_bind; [by apply credits_triple; [apply ready_stage_inv|]|]. intros credits.
  apply triple_pure. intros [HVc Hlc].
  apply triple_bind with (λ r w, ready d w ∧ length r.1.1 = length credits ∧ Forall fvalid r.1.1).
  { intros w Hw. assert (small (length credits)) as Hs by (rewrite Hlc; apply Hw).
    by apply (norm_triple (ready d) credits stage_inv (ready_stage_inv d) HVc Hs w). }
  intros [[normalized has_positive] psum]. apply triple_pure. intros [Hl HVn].
  destruct (positive_credit_stats credits) as [pc ?]. cbn [fst] in *.
  apply triple_bind with (λ _, ready d); [by apply triple_gets|]. intros names.
  eapply triple_weaken; [by apply (commit_tail_triple d)|by intros w []|done|].
  intros w. apply cinv_stage_inv.
Qed.

Lemma filter_active_valid m names : map_valid m → map_valid (filter_active_features m names).
Proof.
  intros Hm. unfold filter_active_features.
  assert (map_valid ∅) as Hacc by (intros name arr; by rewrite lookup_empty).
  revert Hacc. generalize (∅ : gmap string (list f64)).
  induction names as [|name names IH]; intros acc Hacc; [done|]. cbn [foldl]. apply IH.
  destruct (m !! name) as [arr|] eqn:E; [|done]. intros x a Hx.
  apply lookup_insert_Some in Hx as [[_ <-]|[_ Hx]]; [by eapply Hm|by eapply Hacc].
Qed.

Lemma count_true_le mask : count_true mask ≤ length mask.
Proof. unfold count_true. apply length_filter. Qed.

(** A mask installed before anything was tried: the invariant holds at the new
    dimension. *)
Lemma install_ready d mask w :
  triple (λ w', w' = w ∧ ready d w)
    (on_st (install_committed_runtime_mask (schema_from_state (st w)) mask))
    (λ _ w', ready (count_true mask) w' ∧ length mask = length (get_schema_features (st w)))
    stage_inv.
Proof.
  intros ? [-> [B F]]. unfold on_st.
  destruct (install_committed_runtime_mask (schema_from_state (st w)) mask (st w)) as [r s'] eqn:Hrun.
  destruct (install_committed_run _ _ _ _ _ Hrun)
    as [(-> & Hlen & Hne & [I1 I2 I3 I4 [I5 I6] I7 I8 I9] & Hh & Hm & Ht & Hco)|(e & -> & -> & _)].
  2: { assert (w <| st := st w |> = w) as -> by by destruct w. by eapply ready_stage_inv. }
  cbn [sc_features schema_from_state] in *. split; [|done].
  assert (m_explore s' = m_explore (st w) ∧ m_feats s' = m_feats (st w) ∧
          factor_params (globals s') = factor_params (globals (st w)) ∧
          (matrix_valid (st w) → matrix_valid s')) as (He & Hf & Hfp & Hmx).
  { unfold install_committed_runtime_mask in Hrun. destruct (negb _); [done|].
    destruct (forallb negb mask); [done|]. unfold bind, modify in Hrun. injection Hrun as <-.
    unfold matrix_valid. cbn. destruct (m_matrix (st w)) as [mx|] eqn:Emx; split_and!; try done.
    - intros Hv mx' [= <-]. cbn. by apply filter_active_valid, Hv.
    - cbn. by rewrite Emx. }
  destruct B as [[C1 C2 C3 C4 C5 C6] [D1 D2] [S1 S2 S3 S4 S5 S6 S7 S8 S9] R].
  destruct F as (P & T & L & Bf & Hhist).
  pose proof (count_true_le mask) as Hle.
  split; [split|].
  - split; cbn in *; try done.
    + change (opt_inv (count_true mask) (tpe_state w)). split; rewrite ?T, ?L, ?Bf;
        [constructor|cbn; lia|by left|by left].
    + rewrite I7. constructor.
    + by rewrite Hm.
  - split; [done|]. unfold small in *. lia.
  - split; cbn; unfold get_current_weight_vec in *; rewrite ?I8, ?He, ?I5, ?Hf, ?Hco; try done.
    + intros h Hs. rewrite Hh in Hs. destruct (Hhist h Hs) as [Ht0 Hl0].
      split; rewrite ?Ht0, ?Hl0; [constructor|cbn; lia|split; [constructor|by left]].
    + by left.
    + rewrite I4, length_fmap. by apply compute_active_length.
    + by apply Hmx.
    + unfold get_factor_params. by rewrite Hfp.
  - done.
  - unfold fresh, get_phase, tpe_meta in *. cbn. rewrite Ht, Hh. by split_and!.
Qed.

Lemma project_valid credits mask v : project_vector_by_mask credits mask = Ok v →
  Forall fvalid credits → small (length credits) → Forall fvalid v ∧ small (length v).
Proof.
  intros Hp HV Hs. apply project_ok_length in Hp as Hl. split.
  - unfold project_vector_by_mask in Hp. destruct (negb _); [done|]. injection Hp as <-.
    apply Forall_fmap, Forall_forall. intros [x b] [_ Hx]%list_elem_of_filter.
    apply elem_of_zip_l in Hx. rewrite Forall_forall in HV. by apply HV.
  - pose proof (count_true_le mask). unfold small in *. lia.
Qed.

(** The installation, with the facts of the old state no longer needed. *)
Lemma install_triple d mask w (Q : () → World → Prop) :
  (∀ w', ready (count_true mask) w' → Q () w') →
  triple (λ w', w' = w ∧ ready d w)
    (on_st (install_committed_runtime_mask (schema_from_state (st w)) mask)) Q stage_inv.
Proof.
  intros HQ. eapply triple_weaken; [apply (install_ready d)|done| |done].
  intros [] w' [Hw' _]. by apply HQ.
Qed.

Lemma commit_auto_triple d runtime raw w : Forall fvalid raw →
  triple (λ w', w' = w ∧ ready d w) (commit_auto_credit runtime (schema_from_state (st w)) raw)
    (λ _ w', (∃ d', cinv d' w') ∧ get_v_candidates (st w') ≠ []) stage_inv.
Proof.
  intros HV. unfold commit_auto_credit. cbn [sc_features schema_from_state].
  set (n := length (get_schema_features (st w))).
  assert (∀ w', w' = w ∧ ready d w → stage_inv w') as Hst by (intros ? [-> ?]; by eapply ready_stage_inv).
  eapply triple_bind; [by apply credits_triple|]. intros credits.
  apply triple_pure. intros [HVc Hlc]. destruct (positive_credit_stats credits) as [pc ps].
  apply triple_bind with (λ _ w', w' = w ∧ ready d w).
  { apply triple_lift; [|done|done]. apply as_illegal_total.
    by destruct (select_mask_ok credits n (credit_top_k runtime) HVc) as (_ & _ & _ & ?). }
  intros selected. intros ? [-> Hw]. assert (small n) as Hn by apply Hw.
  eassert (triple (λ w', w' = w ∧ ready d w) _ (λ _ w', (∃ d', cinv d' w') ∧ get_v_candidates (st w') ≠ [])
    stage_inv) as Ht; [|exact (Ht w (conj eq_refl Hw))]. clear Hw.
  apply triple_bind with (λ c w', (∃ d', ready d' w') ∧ Forall fvalid c.1.1.2).
  - destruct selected as [mask|].
    + eapply triple_bind; [apply (install_triple d mask w (λ _, ready (count_true mask))); done|].
      intros ?. cbv beta. apply triple_bind with (λ v w', ready (count_true mask) w' ∧
        Forall fvalid v ∧ small (length v)).
      { apply triple_lift; [|intros v Hv%as_illegal_Ok w' Hw'; split; [done|]|apply ready_stage_inv].
        - apply as_illegal_total. unfold project_vector_by_mask. by destruct (negb _).
        - eapply project_valid; [exact Hv|done|by rewrite Hlc]. }
      intros ac. apply triple_pure. intros [HVa Hsa].
      eapply triple_bind; [by apply norm_triple; [apply ready_stage_inv|..]|].
      intros [[normalized b] t]. apply triple_ret. cbn. intros w' (Hw' & _ & HVn).
      split; [by eexists|done].
    + eapply triple_bind; [apply (install_triple d (replicate n true) w
        (λ _, ready (count_true (replicate n true)))); done|].
      intros ?. apply triple_ret. cbn. intros w' Hw'. split; [by eexists|].
      by apply unit_valid, equal_simplex_unit.
  - intros [[[[mask ac] normalized] source] fallback]. apply triple_pure. cbn [fst snd]. intros HVn.
    apply triple_bind with (λ _ w', ∃ d', cinv d' w').
    { intros w' (d' & [B _]). exists d'. by apply set_runtime_cinv. }
    intros ? w' (d' & Hw'). destruct (cinv_dim d' w' Hw') as [Hd' Hs'].
    pose proof (enqueue_exact_triple d' normalized Hd' Hs' HVn w' Hw') as He.
    destruct (on_ctx _ w') as [[[]|e|] w'']; [destruct He; split; [by eexists|done]| |done].
    by eapply cinv_stage_inv.
Qed.

Lemma validate_triple (P : World → Prop) : (∀ w, P w → stage_inv w) →
  triple P validate_dims (λ _ w, P w ∧ dims_ok (st w)) stage_inv.
Proof.
  intros HP w Hw. unfold validate_dims.
  destruct (validate_committed_vector_dimensions (st w)) as [[]|e|] eqn:Ev.
  - split; [done|]. by apply validate_dims_iff.
  - by apply HP.
  - unfold validate_committed_vector_dimensions in Ev. repeat (case_match; try done).
Qed.

Definition committed_somewhere (w : World) : Prop := ∃ d, cinv d w.

Lemma committed_stage_inv w : committed_somewhere w → stage_inv w.
Proof. intros [d Hd]. by eapply cinv_stage_inv. Qed.

(** Whether this commit fills the pool itself. *)
Definition fills_pool (s : State) : Prop :=
  committed s = false ∧
  (vm_mode (vec_mask_runtime_meta s) = AutoCredit ∨
   candidate_file_loaded (vec_mask_runtime_meta s) = false).

Lemma commit_triple d w :
  triple (λ w', w' = w ∧ inv d w) commit_mask_and_tpe_initialization_before_first_tpe
    (λ _ w', committed_somewhere w' ∧ dims_ok (st w') ∧
             (fills_pool (st w) → get_v_candidates (st w') ≠ []))
    stage_inv.
Proof.
  intros ? [-> [B HC]]. unfold commit_mask_and_tpe_initialization_before_first_tpe.
  change (bind (gets ?f) ?k w) with (k (f w) w). cbv beta.
  change (tpe_init_committed (vec_mask_runtime_meta (st w))) with (committed (st w)).
  destruct (committed (st w)) eqn:Ec.
  { pose proof (validate_triple committed_somewhere committed_stage_inv w) as Ht.
    specialize (Ht (ex_intro _ d (conj B Ec))). destruct (validate_dims w) as [[[]|e|] w'];
      [|done|done]. destruct Ht as [? ?]. split_and!; [done|done|]. by intros [? _]; congruence. }
  destruct HC as [HC|HF]; [congruence|].
  assert (ready d w) as Hw by done.
  assert (Forall fvalid (default [] (cr_credits <$> m_explore (st w)))) as HV.
  { destruct (m_explore (st w)) as [m|] eqn:Em; [|constructor]. by apply (so_credits _ _ (b_state _ _ B)). }
  do 2 (change (bind (gets ?f) ?k w) with (k (f w) w); cbv beta).
  eassert (triple (λ w', w' = w ∧ ready d w) _ (λ _ w', committed_somewhere w' ∧ dims_ok (st w') ∧
    (fills_pool (st w) → get_v_candidates (st w') ≠ [])) stage_inv) as Ht;
    [|exact (Ht w (conj eq_refl Hw))].
  apply triple_bind with (λ _ w', committed_somewhere w' ∧
    (fills_pool (st w) → get_v_candidates (st w') ≠ [])).
  - destruct (vm_mode (vec_mask_runtime_meta (st w))) eqn:Em.
    + eapply triple_weaken; [by apply (commit_full_triple d)|by intros ? [-> ?]| |done].
      intros [] w' [Hc Hp]. split; [by exists d|]. intros [_ [?|?]]; [congruence|by apply Hp].
    + eapply triple_weaken; [by apply (commit_explicit_triple d)|by intros ? [-> ?]| |done].
      intros [] w' [Hc Hp]. split; [by exists d|]. intros [_ [?|?]]; [congruence|by apply Hp].
    + eapply triple_weaken; [by apply (commit_auto_triple d)|done| |done].
      by intros [] w' [Hc Hp].
  - intros ?. eapply triple_weaken; [apply (validate_triple (λ w', committed_somewhere w' ∧
      (fills_pool (st w) → get_v_candidates (st w') ≠ [])))|done| |done].
    + intros w' [? _]. by apply committed_stage_inv.
    + by intros ? w' [[? ?] ?].
Qed.

Lemma benign_stage_inv w s' : benign (st w) s' → stage_inv w → stage_inv (w <| st := s' |>).
Proof. intros Hb [d Hd]. exists d. by apply benign_inv. Qed.

(** Continue with the dimension the commit has fixed. *)
Lemma triple_committed {A} (m : M World A) : (∀ d, triple (cinv d) m (λ _, cinv d) (cinv d)) →
  triple committed_somewhere m (λ _, stage_inv) stage_inv.
Proof.
  intros Hm w [d Hd]. specialize (Hm d w Hd). destruct (m w) as [[a|e|] w']; [|by eapply cinv_stage_inv|done].
  by eapply cinv_stage_inv.
Qed.

Lemma explore_done_benign : keeps benign explore_done ∧ nopanic explore_done.
Proof. by split. Qed.

Lemma perform_explore_triple : triple stage_inv perform_explore (λ _, stage_inv) stage_inv.
Proof.
  unfold perform_explore. eapply triple_bind.
  { apply triple_benign; [apply benign_stage_inv|apply explore_done_benign..]. }
  intros over. apply triple_if.
  { eapply triple_bind; [apply export_triple, benign_stage_inv|intros ?].
    eapply triple_bind; [apply now_triple, benign_stage_inv|intros now].
    eapply triple_bind; [apply gets_triple|intros last]. apply triple_if; [|apply ret_triple].
    apply triple_bind with (λ _, stage_inv); [|intros ?; apply report_triple, benign_stage_inv].
    apply triple_modify. intros w (d & [[C D S R] HC]). exists d. split; [|exact HC].
    destruct C. by split. }
  apply triple_bind with (λ _, committed_somewhere).
  { intros w [d Hd]. pose proof (commit_triple d w w (conj eq_refl Hd)) as Ht.
    destruct (commit_mask_and_tpe_initialization_before_first_tpe w) as [[a|e|] w']; [apply Ht|done|done]. }
  intros ?. apply triple_committed. intros d.
  eapply triple_bind; [apply gets_triple|intros cands]. destruct cands as [|c cs].
  { by apply triple_throw. }
  eapply triple_bind; [apply next_untried_triple|intros ocand]. apply triple_pure. intros Hv.
  apply triple_bind with (λ c w, cinv d w ∧ candidate_ok d c).
  { apply triple_lift; [by destruct ocand|intros a0 Ha w Hw|done]. split; [done|].
    destruct ocand; [|done]. injection Ha as <-. by apply Hv. }
  intros cand. apply triple_pure. intros Hc.
  eapply triple_bind; [by apply start_triple|intros ?].
  eapply triple_bind; [apply export_triple, benign_cinv|intros ?]. apply report_triple, benign_cinv.
Qed.

Lemma restore_opt_inv d s t : opt_inv d t → (∀ h, m_history s = Some h → hist_ok d h) →
  opt_inv d (restore_once s t).
Proof.
  intros Ht Hh. unfold restore_once. destruct (restored_once t); [done|].
  destruct Ht as [T1 T2 T3 T4]. destruct (m_history s) as [h|]; [|by split].
  destruct (Hh h eq_refl) as [H1' H2' [HV Hl]].
  destruct (restore_trials_ok d 0 (th_trials h) H1') as [HF Hlen].
  split; [done|by etrans| |done]. cbn [last_vec upd eta_TpeState].
  destruct (normalize_simplex_eps (th_last_vec h)) as [v|e|] eqn:Ev; [|by left|by left].
  destruct (normalize_simplex_ok _ _ HV Ev) as (Hlv & Hu & _). cbn.
  destruct Hl as [Hl|Hl].
  - left. rewrite Hl in Hlv. by apply nil_length_inv.
  - right. split; [lia|done].
Qed.

Lemma restore_stage_inv w : stage_inv w → stage_inv (stage_restore w).
Proof.
  intros (d & [[[C1 C2 C3 C4 C5 C6] D S R] HC]). exists d. split.
  - split; [|done|done|done]. split; try done. cbn. apply restore_opt_inv; [done|apply S].
  - destruct HC as [HC|(P & T & L & F & Hh)]; [by left|right].
    assert (∀ t, trials t = [] → last_vec t = [] → best_fixed t = [] →
      trials (restore_once (st w) t) = [] ∧ last_vec (restore_once (st w) t) = [] ∧
      best_fixed (restore_once (st w) t) = []) as Hres.
    { intros t Ht Hl Hb. unfold restore_once. destruct (restored_once t); [done|].
      destruct (m_history (st w)) as [h|] eqn:Eh; [|done]. destruct (Hh h eq_refl) as [Eh1 Eh2].
      cbn. by rewrite Eh1, Eh2. }
    destruct (Hres _ T L F) as (?&?&?). by split_and!.
Qed.

Lemma recover_stage_inv w : stage_inv w → stage_inv (recover_pending w).
Proof.
  intros (d & [B HC]). unfold recover_pending. case_bool_decide as Hp; [|by exists d].
  destruct (pending_worker (stage w)); [by exists d|]. cbn [negb andb].
  destruct HC as [HC|(P & _)]; [|congruence].
  exists d. apply cinv_inv, cinv_set_meta. by split.
Qed.

(** From a state in [stage_inv], a phase other than Explore means the commit
    was made. *)
Lemma phase_triple {A} ph (m : M World A) : ph ≠ Explore →
  (∀ d, triple (cinv d) m (λ _, cinv d) (cinv d)) →
  triple (λ w, stage_inv w ∧ get_phase (st w) = ph) m (λ _, stage_inv) stage_inv.
Proof.
  intros Hne Hm w [(d & [B HC]) Hph]. apply (triple_committed m Hm w).
  destruct HC as [HC|(P & _)]; [by exists d|congruence].
Qed.

Lemma perform_triple : triple stage_inv perform (λ _, stage_inv) stage_inv.
Proof.
  unfold perform. eapply triple_bind; [apply gets_triple|intros enabled].
  apply triple_if; [apply ret_triple|].
  apply triple_bind with (λ _, stage_inv); [apply triple_modify, restore_stage_inv|intros ?].
  apply triple_bind with (λ _, stage_inv); [apply triple_modify, recover_stage_inv|intros ?].
  apply triple_bind with (λ ph w, stage_inv w ∧ get_phase (st w) = ph); [by apply triple_gets|].
  intros ph. destruct ph.
  - eapply triple_weaken; [apply perform_explore_triple|by intros w []|done|done].
  - apply phase_triple; [done|apply perform_pending_triple].
  - apply phase_triple; [done|apply perform_active_triple].
  - apply phase_triple; [done|apply perform_locked_triple].
Qed.

(** A run of the stage that starts in a state with usable numbers (valid feature values, vectors
    of the active dimension, a history without NaN, sane factor parameters) ends in a value
    or an error, never in a panic, and the next run starts in such a state again. *)
Theorem perform_safe w : stage_inv w → (perform w).1 ≠ Panic ∧ stage_inv (perform w).2.
Proof.
  intros Hw. pose proof (perform_triple w Hw) as Ht. by destruct (perform w) as [[[]|e|] w'].
Qed.

(** C5. The commit before the first trial: it does not panic; when it succeeds, the mask and the
    initial vector are committed, every stored vector has the dimension of the mask, the
    candidates lie in the unit cube, and the pool is not empty unless a candidate file had
    already filled it. *)
Theorem commit_spec w r w' :
  commit_mask_and_tpe_initialization_before_first_tpe w = (r, w') → stage_inv w →
  r ≠ Panic ∧ stage_inv w' ∧
  (r = Ok () →
     committed (st w') = true ∧ dims_ok (st w') ∧
     Forall (candidate_ok (get_active_dim (st w'))) (get_v_candidates (st w')) ∧
     (fills_pool (st w) → get_v_candidates (st w') ≠ [])).
Proof.
  intros Hrun [d Hd]. pose proof (commit_triple d w w (conj eq_refl Hd)) as Ht. rewrite Hrun in Ht.
  destruct r as [[]|e|]; [|done|done]. destruct Ht as ([d' Hc] & Hdim & Hp).
  split_and!; [done|by eapply cinv_stage_inv|]. intros _. split_and!; [apply Hc|done| |done].
  destruct Hc as [[Hctx _ _ _] _]. rewrite (ci_dim _ _ Hctx : get_active_dim (st w') = d').
  exact (ci_pool _ _ Hctx).
Qed.
End StageSafe.

(** ** A concrete stage *)

Lemma demo_stage_inv : stage_inv demo_stage.
Proof.
  exists 2. split; [|right; by split_and!]. split.
  - split; [|apply std_rand_seeded; done|done|constructor|done|done].
    split; [constructor|unfold MAX_TRIALS; simpl; lia|by left|by left].
  - split; [done|unfold small; lia].
  - split; [done|by left|done|unfold small; simpl; lia|done|constructor| | |].
    + intros mx [= <-]. exact demo_matrix_valid.
    + exact default_params_ok.
    + exact demo_weights_valid.
  - done.
Qed.

Lemma perform_safe_witness :
  (perform (H := toy_libm) (H0 := toy_env) (H1 := toy_json_out) demo_stage).1 ≠ Panic.
Proof.
  apply (perform_safe (H := toy_libm) (H0 := toy_env) (H1 := toy_json_out)); [done|].
  exact demo_stage_inv.
Defined.

Lemma commit_spec_witness :
  ∃ w', commit_mask_and_tpe_initialization_before_first_tpe (H := toy_libm) demo_stage = (Ok (), w') ∧
    committed (st w') = true ∧ dims_ok (st w').
Proof.
  destruct (commit_mask_and_tpe_initialization_before_first_tpe (H := toy_libm) demo_stage)
    as [r w'] eqn:E.
  destruct (commit_spec (H := toy_libm) demo_stage r w' E demo_stage_inv) as (_ & _ & H).
  assert (r = Ok ()) as -> by (vm_compute in E; by injection E).
  destruct (H eq_refl) as (Hc & Hd & _). exists w'. exact (conj eq_refl (conj Hc Hd)).
Defined.
