(* ===== verification/TestcaseScore.v ===== *)
(** * TestcaseScore: [schedulers/testcase_score.rs]

    The scores the scheduler and the power stage give to a testcase.  The trait
    [TestcaseScore] is a class with one method; [compute] may change the testcase
    (it caches its length).  [u32] and [usize] arithmetic wraps, as in a release
    build. *)

From Stdlib Require Import ZArith Lia.
From S2P Require Import Prelude Float64 FloatFacts Rands Corpus Metadata State Factor.

Class TestcaseScore := compute : State → Testcase → outcome Error (f64 * Testcase).

Definition wrap32 (x : Z) : Z := (x mod 2 ^ 32)%Z.

Definition f_0_1 : f64 := S754_finite false 7205759403792794 (-56).
Definition f_0_2 : f64 := S754_finite false 7205759403792794 (-55).
Definition f_0_25 : f64 := S754_finite false 4503599627370496 (-54).
Definition f_0_3 : f64 := S754_finite false 5404319552844595 (-54).
Definition f_0_4 : f64 := S754_finite false 7205759403792794 (-54).
Definition f_0_75 : f64 := S754_finite false 6755399441055744 (-53).
Definition f_0_8 : f64 := S754_finite false 7205759403792794 (-53).
Definition f_1_15 : f64 := S754_finite false 5179139571476070 (-52).
Definition f_1_5 : f64 := S754_finite false 6755399441055744 (-52).

Definition POWER_BETA : f64 := f1.
Definition MAX_FACTOR : f64 := fmul POWER_BETA (of_Z 32).
Definition HAVOC_MAX_MULT : f64 := of_Z 64.

Definition get_feat_mode_from_state (s : State) : nat := default 0 (m_feat_mode s).

(** [state.metadata::<SchedulerMetadata>()?] and
    [entry.metadata::<SchedulerTestcaseMetadata>()?]. *)
Definition sched_meta (s : State) : outcome Error SchedulerMetadata :=
  ok_or (m_sched s) (key_not_found "{} not found" [AStr "SchedulerMetadata"]).
Definition testcase_meta (tc : Testcase) : outcome Error SchedulerTestcaseMetadata :=
  ok_or (tc_sched tc) (key_not_found "{} not found" [AStr "SchedulerTestcaseMetadata"]).

(** [psmeta.n_fuzz()[i]] panics out of range. *)
Definition n_fuzz_at (ps : SchedulerMetadata) (i : nat) : outcome Error Z :=
  unwrap (sm_n_fuzz ps !! i).

(** ** [LenTimeMulTestcaseScore] *)

(** [Testcase::load_len] on the in-memory corpus, whose [load_input_into] does nothing:
    without an input and a cached length the recursion overflows the stack. *)
Definition load_len (tc : Testcase) : outcome Error (usize * Testcase) :=
  match tc_input tc with
  | Some i => Ok (length i, tc <| tc_cached_len := Some (length i) |>)
  | None => match tc_cached_len tc with
            | Some l => Ok (l, tc)
            | None => Panic
            end
  end.

Definition len_time_mul (s : State) (entry : Testcase) : outcome Error (f64 * Testcase) :=
  let ms := match tc_exec_time entry with Some d => (d / 1000000)%Z | None => 1%Z end in
  let? r := load_len entry in
  Ok (fmul (of_Z ms) (of_nat r.1), r.2).

(** ** [CorpusPowerTestcaseScore] *)

(** The sum of [log2(n_fuzz)] over the corpus, and the number of entries. *)
Section Power.
Context `{Libm}.

Fixpoint sum_log_fuzz (s : State) (ps : SchedulerMetadata) (entry : Testcase) (cur : CorpusId)
    (ids : list CorpusId) (v : f64) : outcome Error f64 :=
  match ids with
  | [] => Ok v
  | id :: ids =>
    let? tcmeta := if id =? cur then testcase_meta entry
                   else let? tc := InMemory.get id (corpus s) in testcase_meta tc in
    let? hits := n_fuzz_at ps (n_fuzz_entry tcmeta) in
    sum_log_fuzz s ps entry cur ids (fadd v (flog2 (of_Z hits)))
  end.

Definition compute_fuzz_mu (s : State) (ps : SchedulerMetadata) (entry : Testcase) :
    outcome Error f64 :=
  match sm_strat ps with
  | Some strat =>
    if bool_decide (ps_base strat = COE) then
      let? cur := unwrap (InMemory.current (corpus s)) in
      let ids := InMemory.ids (corpus s) in
      let? v := sum_log_fuzz s ps entry cur ids f0 in
      match ids with
      | [] => Err (unknown "Queue state corrput" [])
      | _ => Ok (fdiv v (of_nat (length ids)))
      end
    else Ok f0
  | None => Ok f0
  end.

Definition exec_score (q_exec_us avg_exec_us : f64) : f64 :=
  if flt avg_exec_us (fmul q_exec_us f_0_1) then of_Z 10
  else if flt avg_exec_us (fmul q_exec_us f_0_2) then of_Z 25
  else if flt avg_exec_us (fmul q_exec_us f_half) then of_Z 50
  else if flt avg_exec_us (fmul q_exec_us f_0_75) then of_Z 75
  else if flt (fmul q_exec_us (of_Z 4)) avg_exec_us then of_Z 300
  else if flt (fmul q_exec_us (of_Z 3)) avg_exec_us then of_Z 200
  else if flt (fmul q_exec_us f2) avg_exec_us then of_Z 150
  else of_Z 100.

Definition bitmap_score (q_bitmap_size avg_bitmap_size perf_score : f64) : f64 :=
  if flt avg_bitmap_size (fmul q_bitmap_size f_0_3) then fmul perf_score (of_Z 3)
  else if flt avg_bitmap_size (fmul q_bitmap_size f_half) then fmul perf_score f2
  else if flt avg_bitmap_size (fmul q_bitmap_size f_0_75) then fmul perf_score f_1_5
  else if flt (fmul q_bitmap_size (of_Z 3)) avg_bitmap_size then fmul perf_score f_0_25
  else if flt (fmul q_bitmap_size f2) avg_bitmap_size then fmul perf_score f_half
  else if flt (fmul q_bitmap_size f_1_5) avg_bitmap_size then fmul perf_score f_0_75
  else perf_score.

Definition handicap_score (h : u64) (perf_score : f64) : f64 :=
  if (4 <=? h)%Z then fmul perf_score (of_Z 4)
  else if (0 <? h)%Z then fmul perf_score f2
  else perf_score.

Definition depth_score (d : u64) (perf_score : f64) : f64 :=
  if ((4 <=? d) && (d <? 8))%Z then fmul perf_score f2
  else if ((8 <=? d) && (d <? 14))%Z then fmul perf_score (of_Z 3)
  else if ((14 <=? d) && (d <? 25))%Z then fmul perf_score (of_Z 4)
  else if (25 <=? d)%Z then fmul perf_score (of_Z 5)
  else perf_score.

(** The ranges of [match lg]. *)
Definition fast_factor (lg : f64) (favored : bool) : f64 :=
  let within lo hi := fle lo lg && flt lg hi in
  if flt lg f2 then of_Z 4
  else if within f2 (of_Z 4) then of_Z 3
  else if within (of_Z 4) (of_Z 5) then f2
  else if within (of_Z 6) (of_Z 7) then (if favored then f1 else f_0_8)
  else if within (of_Z 7) (of_Z 8) then (if favored then f1 else f_0_6)
  else if fle (of_Z 8) lg then (if favored then f1 else f_0_4)
  else f1.

Definition schedule_factor (ps : SchedulerMetadata) (tcmeta : SchedulerTestcaseMetadata)
    (entry : Testcase) (fuzz_mu : f64) (favored : bool) : outcome Error f64 :=
  match sm_strat ps with
  | None => Ok f1
  | Some strat =>
    match ps_base strat with
    | EXPLORE => Ok f1
    | EXPLOIT => Ok MAX_FACTOR
    | COE =>
      let? hits := n_fuzz_at ps (n_fuzz_entry tcmeta) in
      Ok (if flt fuzz_mu (flog2 (of_Z hits)) && negb favored then f0 else f1)
    | FAST =>
      if scheduled_count entry =? 0 then Ok f1
      else
        let? hits := n_fuzz_at ps (n_fuzz_entry tcmeta) in
        let factor := fast_factor (flog2 (of_Z hits)) favored in
        Ok (if favored then fmul factor f_1_15 else factor)
    | LIN =>
      let? hits := n_fuzz_at ps (n_fuzz_entry tcmeta) in
      Ok (fdiv (of_nat (scheduled_count entry)) (of_Z (wrap32 (hits + 1))))
    | QUAD =>
      let? hits := n_fuzz_at ps (n_fuzz_entry tcmeta) in
      let sq := wrap64 (Z.of_nat (scheduled_count entry) * Z.of_nat (scheduled_count entry)) in
      Ok (fdiv (of_Z sq) (of_Z (wrap32 (hits + 1))))
    end
  end.

Definition base_is (ps : SchedulerMetadata) (b : BaseSchedule) : bool :=
  match sm_strat ps with
  | Some strat => bool_decide (ps_base strat = b)
  | None => false
  end.

Definition apply_factor (ps : SchedulerMetadata) (factor perf_score : f64) : f64 :=
  if bool_decide (is_Some (sm_strat ps)) && negb (base_is ps EXPLORE) then
    fmul perf_score (fdiv (if flt MAX_FACTOR factor then MAX_FACTOR else factor) POWER_BETA)
  else perf_score.

(** The external multiplier of BOFuzz, applied in the given modes. *)
Definition external_mult (on : bool) (entry : Testcase) (x : f64) : f64 :=
  if on then
    match tc_perf_mult entry with
    | Some m =>
      if is_finite m && flt f_1e_12 (fabs (fsub m f1)) && flt f0 m then fmul x m else x
    | None => x
    end
  else x.

Definition crash_penalty (ps : SchedulerMetadata) (entry : Testcase) (x : f64) : f64 :=
  if (0 <? objectives_found entry) &&
     match sm_strat ps with Some strat => avoid_crash strat | None => false end
  then fmul x f0 else x.

Definition avg_bitmap (ps : SchedulerMetadata) : Z :=
  if (sm_bitmap_entries ps =? 0)%Z then 1%Z else (sm_bitmap_size ps / sm_bitmap_entries ps)%Z.

Definition base_score (ps : SchedulerMetadata) (tcmeta : SchedulerTestcaseMetadata)
    (q_exec_us : f64) : f64 :=
  let avg_exec_us := fdiv (of_Z (sm_exec_time ps)) (of_Z (sm_cycles ps)) in
  let perf_score := exec_score q_exec_us avg_exec_us in
  let perf_score := bitmap_score (of_Z (tm_bitmap_size tcmeta)) (of_Z (avg_bitmap ps)) perf_score in
  let perf_score := handicap_score (handicap tcmeta) perf_score in
  depth_score (depth tcmeta) perf_score.

Definition corpus_power (s : State) (entry : Testcase) : outcome Error (f64 * Testcase) :=
  let? ps := sched_meta s in
  let? fuzz_mu := compute_fuzz_mu s ps entry in
  let? exec_time := ok_or (tc_exec_time entry) (key_not_found "exec_time not set" []) in
  let favored := tc_favored entry in
  let? tcmeta := testcase_meta entry in
  let perf_score := base_score ps tcmeta (of_Z exec_time) in
  let? factor := schedule_factor ps tcmeta entry fuzz_mu favored in
  let perf_score := apply_factor ps factor perf_score in
  let perf_score := if base_is ps COE && flt perf_score f1 then f1 else perf_score in
  let bound := fmul HAVOC_MAX_MULT (of_Z 100) in
  let perf_score := if flt bound perf_score then bound else perf_score in
  let mode := get_feat_mode_from_state s in
  let perf_score := external_mult ((mode =? 2) || (mode =? 3)) entry perf_score in
  Ok (crash_penalty ps entry perf_score, entry).

(** ** [CorpusWeightTestcaseScore] *)

Definition hit_weight (ps : SchedulerMetadata) (tcmeta : SchedulerTestcaseMetadata) (weight : f64) :
    outcome Error f64 :=
  if base_is ps FAST || base_is ps COE || base_is ps LIN || base_is ps QUAD then
    let? hits := n_fuzz_at ps (n_fuzz_entry tcmeta) in
    Ok (if (0 <? hits)%Z then fdiv weight (fadd (flog10 (of_Z hits)) f1) else weight)
  else Ok weight.

Definition corpus_weight (s : State) (entry : Testcase) : outcome Error (f64 * Testcase) :=
  let? ps := sched_meta s in
  let? tcmeta := testcase_meta entry in
  if (scheduled_count entry =? 0) || (sm_cycles ps =? 0)%Z then Ok (f1, entry)
  else
    let? exec_time := ok_or (tc_exec_time entry) (key_not_found "exec_time not set" []) in
    let q_exec_us := of_Z exec_time in
    let avg_exec_us := fdiv (of_Z (sm_exec_time ps)) (of_Z (sm_cycles ps)) in
    let avg_bitmap_size := fdiv (sm_bitmap_size_log ps) (of_Z (sm_bitmap_entries ps)) in
    let? weight := hit_weight ps tcmeta f1 in
    let weight := fmul weight (fdiv avg_exec_us q_exec_us) in
    let weight := fmul weight (fdiv (fmax (flog2 (of_Z (tm_bitmap_size tcmeta))) f1) avg_bitmap_size) in
    let tc_ref := match tc_map_indexes entry with Some m => of_Z (tcref m) | None => f0 end in
    let? top := ok_or (m_top_rateds s)
                  (key_not_found "{e:?} You have to use Minimizer scheduler with this." []) in
    let avg_top_size := of_nat (size top) in
    let weight := fmul weight (fadd f1 (fdiv tc_ref avg_top_size)) in
    let weight := if tc_favored entry then fmul weight (of_Z 5) else weight in
    let weight := if scheduled_count entry =? 0 then fmul weight f2 else weight in
    let weight := crash_penalty ps entry weight in
    let mode := get_feat_mode_from_state s in
    let weight := external_mult ((mode =? 1) || (mode =? 3)) entry weight in
    if is_normal weight then Ok (weight, entry) else Panic.
End Power.

(** The implementations of the trait. *)
Definition LenTimeMulTestcaseScore : TestcaseScore := len_time_mul.
Definition CorpusPowerTestcaseScore `{Libm} : TestcaseScore := corpus_power.
Definition CorpusWeightTestcaseScore `{Libm} : TestcaseScore := corpus_weight.

(** ** Bounds of the power *)

(** A usable score before the schedule's factor: positive and finite. *)
Definition pos_fin (x : f64) : bool :=
  match x with S754_finite false m e => valid_binary prec emax x | _ => false end.

Lemma pos_fin_spec x : pos_fin x = true → fnn x ∧ is_finite x = true ∧ (0 < fv x)%Z.
Proof.
  destruct x as [| | |[] m e]; try done. intros Hv. change (fvalid (S754_finite false m e)) in Hv.
  pose proof (fvalid_exp _ _ _ Hv). split_and!; [by split|done|]. cbn.
  pose proof (pow2_pos (e + 1074) ltac:(lia)). lia.
Qed.

Definition exec_scores : list f64 := of_Z <$> [10; 25; 50; 75; 300; 200; 150; 100]%Z.
Definition scaled (l factors : list f64) : list f64 := l ++ (factors ≫= λ f, (λ x, fmul x f) <$> l).

Lemma elem_scaled x f l fs : x ∈ l → f ∈ fs → fmul x f ∈ scaled l fs.
Proof.
  intros Hx Hf. apply elem_of_app. right. apply list_elem_of_bind. exists f. split; [|done].
  apply list_elem_of_fmap. by exists x.
Qed.
Lemma elem_scaled_id x l fs : x ∈ l → x ∈ scaled l fs.
Proof. intros Hx. apply elem_of_app. by left. Qed.

Ltac in_list :=
  repeat first [apply list_elem_of_here | apply list_elem_of_further].

Definition bitmap_factors : list f64 := [of_Z 3; f2; f_1_5; f_0_25; f_half; f_0_75].
Definition base_scores : list f64 :=
  scaled (scaled (scaled exec_scores bitmap_factors) [of_Z 4; f2]) [f2; of_Z 3; of_Z 4; of_Z 5].

Lemma base_score_elem ps tcmeta q : base_score ps tcmeta q ∈ base_scores.
Proof.
  unfold base_score, base_scores. cbv zeta. set (a := fdiv _ _).
  assert (exec_score q a ∈ exec_scores) as H1.
  { unfold exec_score, exec_scores. repeat case_match; cbn [fmap list_fmap]; in_list. }
  set (x1 := exec_score q a) in *. clearbody x1.
  assert (bitmap_score (of_Z (tm_bitmap_size tcmeta)) (of_Z (avg_bitmap ps)) x1
    ∈ scaled exec_scores bitmap_factors) as H2.
  { unfold bitmap_score.
    repeat case_match; first [by apply elem_scaled_id|apply elem_scaled; [done|]];
      unfold bitmap_factors; in_list. }
  set (x2 := bitmap_score _ _ x1) in *. clearbody x2.
  assert (handicap_score (handicap tcmeta) x2
    ∈ scaled (scaled exec_scores bitmap_factors) [of_Z 4; f2]) as H3.
  { unfold handicap_score.
    repeat case_match; first [by apply elem_scaled_id|apply elem_scaled; [done|]]; in_list. }
  set (x3 := handicap_score _ x2) in *. clearbody x3. unfold depth_score.
  repeat case_match; first [by apply elem_scaled_id|apply elem_scaled; [done|]]; in_list.
Qed.

Lemma base_scores_pos : Forall (λ x, pos_fin x = true) base_scores.
Proof.
  apply Forall_forall. intros x Hx. revert x Hx.
  assert (forallb pos_fin base_scores = true) as Hall by (vm_compute; reflexivity).
  rewrite forallb_forall in Hall. intros x Hx. by apply Hall, list_elem_of_In.
Qed.

Section Bounds.
Context `{Libm}.

(** The hit counters are below the largest [u32], so that [n_fuzz + 1] does not wrap. *)
Definition n_fuzz_ok (ps : SchedulerMetadata) : Prop :=
  ∀ i h, sm_n_fuzz ps !! i = Some h → (0 ≤ h < 2 ^ 32 - 1)%Z.

Lemma wrap32_hits h : (0 ≤ h < 2 ^ 32 - 1)%Z →
  fnn (of_Z (wrap32 (h + 1))) ∧ is_finite (of_Z (wrap32 (h + 1))) = true ∧
  (0 < fv (of_Z (wrap32 (h + 1))))%Z.
Proof.
  intros Hh. unfold wrap32. rewrite Z.mod_small by lia.
  destruct (of_Z_exact (h + 1)) as (? & ? & ->); [lia|]. split_and!; [done|done|].
  pose proof (pow2_pos 1074 ltac:(lia)). nia.
Qed.

Lemma fast_factor_fnn lg (favored : bool) :
  fnn (if favored then fmul (fast_factor lg favored) f_1_15 else fast_factor lg favored).
Proof.
  unfold fast_factor. cbv zeta.
  destruct favored; repeat (case_match; [apply pos_fin_spec; vm_compute; reflexivity|]);
    apply pos_fin_spec; vm_compute; reflexivity.
Qed.

Lemma schedule_factor_fnn ps tcmeta entry mu favored r : n_fuzz_ok ps →
  schedule_factor ps tcmeta entry mu favored = Ok r → fnn r.
Proof.
  intros Hn. unfold schedule_factor, n_fuzz_at.
  destruct (sm_strat ps) as [strat|]; [|by intros [= <-]].
  destruct (ps_base strat); [by intros [= <-]|by intros [= <-]| | | |].
  - destruct (_ =? 0); [by intros [= <-]|].
    destruct (sm_n_fuzz ps !! _) as [h|] eqn:Eh; [|done]. cbn [unwrap obind].
    intros [= <-]. apply fast_factor_fnn.
  - destruct (sm_n_fuzz ps !! _) as [h|] eqn:Eh; [|done]. cbn [unwrap obind].
    intros [= <-]. by destruct (_ && _).
  - destruct (sm_n_fuzz ps !! _) as [h|] eqn:Eh; [|done]. cbn [unwrap obind].
    intros [= <-]. destruct (wrap32_hits h (Hn _ _ Eh)) as (? & ? & ?).
    apply fdiv_fnn; [|done|done|done]. apply of_Z_fnn. lia.
  - destruct (sm_n_fuzz ps !! _) as [h|] eqn:Eh; [|done]. cbn [unwrap obind].
    intros [= <-]. destruct (wrap32_hits h (Hn _ _ Eh)) as (? & ? & ?).
    apply fdiv_fnn; [|done|done|done]. apply of_Z_fnn.
    pose proof (wrap64_is_u64 (Z.of_nat (scheduled_count entry) * Z.of_nat (scheduled_count entry))) as [? _].
    done.
Qed.

Lemma apply_factor_fnn ps f x : fnn f → pos_fin x = true → fnn (apply_factor ps f x).
Proof.
  intros Hf (Hx & Fx & Px)%pos_fin_spec. unfold apply_factor.
  destruct (_ && _); [|done]. apply fmul_fnn_pos; [done|done|done|].
  apply fdiv_fnn; [by destruct (flt _ f)|done|done|done].
Qed.

Definition power_max : f64 := fmul HAVOC_MAX_MULT (of_Z 100).

Lemma clip_power x : fnn x → fnn (if flt power_max x then power_max else x) ∧
  fle (if flt power_max x then power_max else x) power_max = true.
Proof.
  intros Hx. pose proof (pos_fin_spec power_max ltac:(vm_compute; reflexivity)) as (Hm & _ & _).
  destruct (flt power_max x) eqn:E; [split; [done|vm_compute; reflexivity]|]. split; [done|].
  rewrite flt_key in E by (by apply fnn_valid || by apply fnn_not_nan).
  rewrite fle_key by (by apply fnn_valid || by apply fnn_not_nan). lia.
Qed.

Lemma crash_penalty_bounds ps entry x : fnn x → fle x power_max = true →
  fnn (crash_penalty ps entry x) ∧ fle (crash_penalty ps entry x) power_max = true.
Proof.
  intros Hx Hle. unfold crash_penalty. destruct (_ && _); [|done].
  assert (is_finite x = true) as Fx.
  { destruct Hx as [V S]. destruct x as [|[]| |]; try done. }
  split; [by apply fmul_fnn|].
  destruct x as [[]| | |[]]; try done; vm_compute; reflexivity.
Qed.

Lemma power_bounds_ok s ps entry r entry' :
  corpus_power s entry = Ok (r, entry') → m_sched s = Some ps → n_fuzz_ok ps →
  get_feat_mode_from_state s ≠ 2 → get_feat_mode_from_state s ≠ 3 →
  entry' = entry ∧ fnn r ∧ fle r power_max = true ∧
  (base_is ps COE = true → objectives_found entry = 0 → fle f1 r = true).
Proof.
  intros Hrun Hps Hn H2 H3. unfold corpus_power, sched_meta in Hrun. rewrite Hps in Hrun.
  cbn [ok_or obind] in Hrun.
  destruct (compute_fuzz_mu s ps entry) as [mu|e|]; [|done|done]. cbn [obind] in Hrun.
  destruct (tc_exec_time entry) as [t|]; [|done]. cbn [ok_or obind] in Hrun. unfold testcase_meta in Hrun.
  destruct (tc_sched entry) as [tcmeta|]; [|done]. cbn [ok_or obind] in Hrun.
  destruct (schedule_factor ps tcmeta entry mu (tc_favored entry)) as [f|e|] eqn:Ef; [|done|done].
  cbn [obind] in Hrun. apply schedule_factor_fnn in Ef; [|done].
  assert (pos_fin (base_score ps tcmeta (of_Z t)) = true) as Hb.
  { pose proof base_scores_pos as HF. rewrite Forall_forall in HF. apply HF, base_score_elem. }
  pose proof (apply_factor_fnn ps f _ Ef Hb) as Ha.
  set (x1 := apply_factor ps f _) in *.
  set (x2 := if base_is ps COE && flt x1 f1 then f1 else x1) in *.
  assert (fnn x2) as Hx2 by (unfold x2; by destruct (_ && _)).
  destruct (clip_power x2 Hx2) as [Hc1 Hc2]. unfold power_max in Hc1, Hc2.
  set (x3 := if flt (fmul HAVOC_MAX_MULT (of_Z 100)) x2 then _ else x2) in *.
  assert ((get_feat_mode_from_state s =? 2) || (get_feat_mode_from_state s =? 3) = false) as Hm.
  { apply orb_false_iff. rewrite !Nat.eqb_neq. done. }
  rewrite Hm in Hrun. cbn [external_mult] in Hrun. injection Hrun as <- <-.
  destruct (crash_penalty_bounds ps entry x3 Hc1 Hc2) as [Hr1 Hr2].
  split_and!; [done|done|done|].
  intros Hcoe Hobj. unfold crash_penalty. rewrite Hobj. cbn [Nat.ltb Nat.leb andb].
  unfold x3. destruct (flt _ x2); [vm_compute; reflexivity|]. unfold x2. rewrite Hcoe.
  destruct (flt x1 f1) eqn:E1; [vm_compute; reflexivity|]. cbn [andb].
  rewrite flt_key in E1 by (by apply fnn_valid || by apply fnn_not_nan).
  rewrite fle_key by (by apply fnn_valid || by apply fnn_not_nan). lia.
Qed.

(** Without BOFuzz's multiplier, the power of a testcase is a number in [0, 6400]
    (and at least 1 under COE, if no crash penalty applies); the testcase is not
    changed. *)
Theorem corpus_power_bounds s ps entry r entry' :
  corpus_power s entry = Ok (r, entry') → m_sched s = Some ps → n_fuzz_ok ps →
  get_feat_mode_from_state s ≠ 2 → get_feat_mode_from_state s ≠ 3 →
  entry' = entry ∧ fnn r ∧ fle r power_max = true ∧
  (base_is ps COE = true → objectives_found entry = 0 → fle f1 r = true).
Proof. apply power_bounds_ok. Qed.

(** ** The weight of entries that found an objective *)

Lemma zero_not_normal x : is_normal (fmul x f0) = false.
Proof. by destruct x as [[]|[]| |[]]. Qed.

Lemma external_zero on entry x : is_normal (external_mult on entry (fmul x f0)) = false.
Proof.
  unfold external_mult. destruct on; [|apply zero_not_normal].
  destruct (tc_perf_mult entry) as [m|]; [|apply zero_not_normal].
  destruct (is_finite m && _ && _) eqn:E; [|apply zero_not_normal].
  by destruct x as [[]|[]| |[]], m as [[]|[]| |[]].
Qed.

(** With [avoid_crash], a calibrated entry that found an objective has no weight: the
    penalty multiplies the weight by zero and the weight is then asserted to be normal, so
    the call panics whenever everything it reads is there. *)
Theorem corpus_weight_crash_panics s ps strat entry tcmeta :
  m_sched s = Some ps → sm_strat ps = Some strat → avoid_crash strat = true →
  tc_sched entry = Some tcmeta → n_fuzz_entry tcmeta < length (sm_n_fuzz ps) →
  is_Some (tc_exec_time entry) → is_Some (m_top_rateds s) →
  objectives_found entry ≠ 0 → scheduled_count entry ≠ 0 → sm_cycles ps ≠ 0%Z →
  corpus_weight s entry = Panic.
Proof.
  intros Hps Hst Hav Htm Hnf [t Ht] [top Htop] Hob Hsc Hcy. unfold corpus_weight, sched_meta, testcase_meta.
  rewrite Hps, Htm. cbn [ok_or obind].
  destruct (Nat.eqb_spec (scheduled_count entry) 0); [done|].
  destruct (Z.eqb_spec (sm_cycles ps) 0); [done|]. cbn [orb]. rewrite Ht. cbn [ok_or obind].
  assert (∃ w1, hit_weight ps tcmeta f1 = Ok w1) as [w1 ->].
  { unfold hit_weight, n_fuzz_at. apply lookup_lt_is_Some in Hnf as [h ->]. simpl. by case_match; eexists. }
  cbn [obind]. rewrite Htop. cbn [ok_or obind]. unfold crash_penalty. rewrite Hst, Hav.
  destruct (Nat.ltb_spec 0 (objectives_found entry)); [|lia]. cbn [andb].
  by rewrite external_zero.
Qed.
End Bounds.

(** ** Concrete entries *)

Definition demo_sched (avoid : bool) : SchedulerMetadata :=
  mkSchedulerMetadata (Some (mkPowerSchedule FAST avoid)) 1000 10 30 (of_Z 12) 3 1 [5; 1]%Z.
Definition demo_scored (avoid : bool) : State :=
  (empty_state (RomuDuoJr.with_seed 1)) <| m_sched := Some (demo_sched avoid) |> <| m_top_rateds := Some ∅ |>.
Definition demo_entry_meta : SchedulerTestcaseMetadata := mkSchedulerTestcase 8 0 2 1 (0%Z, 0).
Definition demo_scored_entry (objectives : usize) : Testcase :=
  (Testcase_new []) <| tc_exec_time := Some 120%Z |> <| scheduled_count := 1 |>
    <| objectives_found := objectives |> <| tc_sched := Some demo_entry_meta |>.

Lemma corpus_power_bounds_witness :
  ∃ r, corpus_power (H := toy_libm) (demo_scored false) (demo_scored_entry 0) = Ok (r, demo_scored_entry 0) ∧
    fnn r ∧ fle r power_max = true.
Proof.
  eexists. split; [vm_compute; reflexivity|].
  edestruct (corpus_power_bounds (H := toy_libm) (demo_scored false) (demo_sched false) (demo_scored_entry 0))
    as (_ & H1 & H2 & _); [vm_compute; reflexivity|done| |done|done|exact (conj H1 H2)].
  intros [|[|i]] h; cbn; intros [= <-]; lia.
Defined.

Lemma corpus_weight_crash_panics_witness :
  corpus_weight (H := toy_libm) (demo_scored true) (demo_scored_entry 1) = Panic.
Proof.
  apply (corpus_weight_crash_panics (H := toy_libm) (demo_scored true) (demo_sched true)
    (mkPowerSchedule FAST true) (demo_scored_entry 1) demo_entry_meta); try done; simpl; lia.
Defined.
