(* ===== verification/Weighted.v ===== *)
(** * Weighted: the schedulers

    [WeightedScheduler] ([schedulers/weighted.rs]) with its alias table, the default
    metadata hooks and the random scheduler of [schedulers/mod.rs], and
    [PowerQueueScheduler] ([schedulers/powersched.rs]).  A scheduler runs on its own
    object and the fuzzer state.  The weighted scheduler is proved correct against
    the interface [TestcaseScore]: any score that returns a value for every entry
    of the corpus. *)

From Stdlib Require Import ZArith Lia.
From S2P Require Import Prelude Float64 FloatFacts Rands Corpus Metadata State Factor WeightRefresh TestcaseScore.

(** A scheduler object of type [T] and the state. *)
Record Sched (T : Type) := mkSched { obj : T; sst : State }.
Arguments mkSched {T} _ _.
Arguments obj {T} _.
Arguments sst {T} _.
#[global] Instance eta_Sched T : Eta (Sched T) := λ r, mkSched (obj r) (sst r).

Definition on_sst {T A} (m : M State A) : M (Sched T) A := λ w,
  let '(r, s) := m (sst w) in (r, w <| sst := s |>).

(** ** The default metadata hooks *)

(** [state.testcase(id)?.metadata::<SchedulerTestcaseMetadata>()?] *)
Definition testcase_sched (id : CorpusId) : M State SchedulerTestcaseMetadata :=
  tc <- read_testcase id ;;
  lift (testcase_meta tc).

Definition on_add_metadata_default (last_hash : usize) (id : CorpusId) : M State () :=
  current_id <- gets (λ s, InMemory.current (corpus s)) ;;
  depth <- match current_id with
           | Some parent_idx => m <- testcase_sched parent_idx ;; ret (depth m)
           | None => ret 0%Z
           end ;;
  change_testcase id (λ tc,
    tc <| tc_sched := Some (with_n_fuzz_entry (wrap64 (depth + 1)) last_hash) |>
       <| parent_id := current_id |>).

(** [hash] is the hash of the observer, if the observer is there. *)
Definition on_evaluation_metadata_default (hash : option u64) : M State usize :=
  hash <- lift (ok_or hash (key_not_found "Observer not found" [])) ;;
  ps <- gets m_sched ;;
  ps <- lift (ok_or ps (key_not_found "{} not found" [AStr "SchedulerMetadata"])) ;;
  let len := length (sm_n_fuzz ps) in
  if len =? 0 then panic
  else
    let hash := Z.to_nat (hash mod Z.of_nat len) in
    hits <- lift (n_fuzz_at ps hash) ;;
    modify (λ s, s <| m_sched :=
      Some (ps <| sm_n_fuzz := <[hash := Z.min (2 ^ 32 - 1) (hits + 1)]> (sm_n_fuzz ps) |>) |>) ;;;
    ret hash.

Definition lower_handicap (m : SchedulerTestcaseMetadata) : SchedulerTestcaseMetadata :=
  if (4 <=? handicap m)%Z then m <| handicap := (handicap m - 4)%Z |>
  else if (0 <? handicap m)%Z then m <| handicap := (handicap m - 1)%Z |>
  else m.

Definition on_next_metadata_default : M State () :=
  current_id <- gets (λ s, InMemory.current (corpus s)) ;;
  match current_id with
  | Some id =>
    tcmeta <- testcase_sched id ;;
    change_testcase id (λ tc, tc <| tc_sched := Some (lower_handicap tcmeta) |>)
  | None => ret ()
  end.

Definition set_current (next_id : option CorpusId) (s : State) : State :=
  s <| corpus := (corpus s) <| InMemory.current := next_id |> |>.

(** [set_current_scheduled] of the weighted and the queue scheduler. *)
Definition set_current_scheduled (next_id : option CorpusId) : M State () :=
  on_next_metadata_default ;;;
  modify (set_current next_id).

(** [random_corpus_id!(corpus, rand)] for a corpus with [cnt > 0] entries. *)
Definition random_corpus_id : M State CorpusId :=
  c <- gets corpus ;;
  n <- (λ s, let '(n, r) := below (InMemory.count c) (rand s) in (Ok n, s <| rand := r |>)) ;;
  lift (InMemory.nth n c).

Definition rand_next_float : M State f64 := λ s,
  let '(x, r) := next_float (rand s) in (Ok x, s <| rand := r |>).

Definition no_entries : Error := Empty (fmt
  "No entries in corpus. This often implies the target is not properly instrumented." []).

(** ** The alias table *)

Record Alias := mkAlias {
  al_table : gmap CorpusId CorpusId;
  al_prob : gmap CorpusId f64;
  p_arr : gmap CorpusId f64;
  s_arr : gmap usize CorpusId;
  n_s : usize;
  l_arr : gmap usize CorpusId;
  n_l : usize;
}.
#[global] Instance eta_Alias : Eta Alias := λ r,
  mkAlias (al_table r) (al_prob r) (p_arr r) (s_arr r) (n_s r) (l_arr r) (n_l r).

(** The division into the queues S and L, in reverse order of the ids. *)
Fixpoint divide (ids : list CorpusId) (a : Alias) : outcome Error Alias :=
  match ids with
  | [] => Ok a
  | s :: ids =>
    let? p := unwrap (p_arr a !! s) in
    divide ids
      (if flt p f1 then a <| s_arr := <[n_s a := s]> (s_arr a) |> <| n_s := S (n_s a) |>
       else a <| l_arr := <[n_l a := s]> (l_arr a) |> <| n_l := S (n_l a) |>)
  end.

(** One round of [while n_s > 0 && n_l > 0]. *)
Definition pair_step (al : Alias) : outcome Error Alias :=
  let ns := n_s al - 1 in
  let nl := n_l al - 1 in
  let? a := unwrap (s_arr al !! ns) in
  let? g := unwrap (l_arr al !! nl) in
  let? pa := unwrap (p_arr al !! a) in
  let? pg := unwrap (p_arr al !! g) in
  let pg := fadd pg (fsub pa f1) in
  let al := al <| n_s := ns |> <| n_l := nl |>
               <| al_prob := <[a := pa]> (al_prob al) |>
               <| al_table := <[a := g]> (al_table al) |>
               <| p_arr := <[g := pg]> (p_arr al) |> in
  Ok (if flt pg f1 then al <| s_arr := <[ns := g]> (s_arr al) |> <| n_s := S ns |>
      else al <| l_arr := <[nl := g]> (l_arr al) |> <| n_l := S nl |>).

Fixpoint pair_loop (fuel : nat) (al : Alias) : outcome Error Alias :=
  if (0 <? n_s al) && (0 <? n_l al) then
    match fuel with
    | O => Panic
    | S fuel => let? al := pair_step al in pair_loop fuel al
    end
  else Ok al.

(** [while n > 0 { n -= 1; alias_probability.insert(arr[n], 1.0) }] *)
Fixpoint fill_ones (n : nat) (arr : gmap usize CorpusId) (prob : gmap CorpusId f64) :
    outcome Error (gmap CorpusId f64) :=
  match n with
  | O => Ok prob
  | S n => let? id := unwrap (arr !! n) in fill_ones n arr (<[id := f1]> prob)
  end.

Definition build_alias (ids_rev : list CorpusId) (p : gmap CorpusId f64) :
    outcome Error (gmap CorpusId CorpusId * gmap CorpusId f64) :=
  let? al := divide ids_rev (mkAlias ∅ ∅ p ∅ 0 ∅ 0) in
  let? al := pair_loop (n_s al + n_l al) al in
  let? prob := fill_ones (n_l al) (l_arr al) (al_prob al) in
  let? prob := fill_ones (n_s al) (s_arr al) prob in
  Ok (al_table al, prob).

Section Weighted.
Context `{TestcaseScore}.

(** The weights, and their sum in the order of the ids. *)
Fixpoint weigh (ids : list CorpusId) (weights : gmap CorpusId f64) (sum : f64) :
    M State (gmap CorpusId f64 * f64) :=
  match ids with
  | [] => ret (weights, sum)
  | i :: ids =>
    tc <- read_testcase i ;;
    s <- gets (λ s, s) ;;
    r <- lift (compute s tc) ;;
    change_testcase i (λ _, r.2) ;;;
    weigh ids (<[i := r.1]> weights) (fadd sum r.1)
  end.

Definition weighted_meta : M State WeightedScheduleMetadata :=
  m <- gets m_weighted ;;
  lift (ok_or m (key_not_found "{} not found" [AStr "WeightedScheduleMetadata"])).

Definition create_alias_table : M State () :=
  n <- gets (λ s, InMemory.count (corpus s)) ;;
  ids <- gets (λ s, InMemory.ids (corpus s)) ;;
  r <- weigh ids ∅ f0 ;;
  let '(weights, sum) := r : gmap CorpusId f64 * f64 in
  let p_arr := (λ w, fdiv (fmul w (of_nat n)) sum) <$> weights in
  ids_rev <- gets (λ s, InMemory.ids_rev (corpus s)) ;;
  t <- lift (build_alias ids_rev p_arr) ;;
  wsmeta <- weighted_meta ;;
  modify (λ s, s <| m_weighted := Some (wsmeta <| alias_probability := t.2 |>
                                               <| Metadata.alias_table := t.1 |>) |>).

Record WeightedScheduler := mkWeightedScheduler {
  table_invalidated : bool;
  strat : option PowerSchedule;
  last_hash : usize;
  queue_cycles : u64;
  cycle_schedules : bool;
}.
#[global] Instance eta_WeightedScheduler : Eta WeightedScheduler := λ r,
  mkWeightedScheduler (table_invalidated r) (strat r) (last_hash r) (queue_cycles r)
    (cycle_schedules r).

Definition with_schedule (strat : option PowerSchedule) (s : State) : WeightedScheduler * State :=
  (mkWeightedScheduler true strat 0 0 false,
   s <| m_sched := Some (default (SchedulerMetadata_new strat) (m_sched s)) |>
     <| m_weighted := Some (default WeightedScheduleMetadata_new (m_weighted s)) |>).

Definition cycling_scheduler (w : WeightedScheduler) : WeightedScheduler :=
  w <| cycle_schedules := true |>.

Definition next_base (b : BaseSchedule) : BaseSchedule :=
  match b with
  | EXPLORE => EXPLOIT
  | COE => LIN
  | LIN => QUAD
  | FAST => COE
  | QUAD => FAST
  | EXPLOIT => EXPLORE
  end.

(** [cycle_schedule(self, metadata)] on the state's [SchedulerMetadata]. *)
Definition cycle_schedule : M (Sched WeightedScheduler) () :=
  ops <- gets (λ w, m_sched (sst w)) ;;
  ps <- lift (ok_or ops (key_not_found "{} not found" [AStr "SchedulerMetadata"])) ;;
  strat <- lift (ok_or (sm_strat ps) (illegal_argument
    "No strategy specified when initializing scheduler; cannot cycle!" [])) ;;
  modify (λ w, w <| sst := (sst w) <| m_sched := Some (ps <| sm_strat :=
    Some (strat <| ps_base := next_base (ps_base strat) |>) |>) |> |>) ;;;
  modify (λ w, w <| obj := (obj w) <| table_invalidated := true |> |>).

Definition invalidate : M (Sched WeightedScheduler) () :=
  modify (λ w, w <| obj := (obj w) <| table_invalidated := true |> |>).
Definition on_remove : M (Sched WeightedScheduler) () := invalidate.
Definition on_replace : M (Sched WeightedScheduler) () := invalidate.

Definition on_add (id : CorpusId) : M (Sched WeightedScheduler) () :=
  h <- gets (λ w, last_hash (obj w)) ;;
  on_sst (on_add_metadata_default h id) ;;;
  invalidate.

Definition on_evaluation (hash : option u64) : M (Sched WeightedScheduler) () :=
  h <- on_sst (on_evaluation_metadata_default hash) ;;
  modify (λ w, w <| obj := (obj w) <| last_hash := h |> |>).

(** The start of [next]: rebuild the table if it is invalid. *)
Definition refresh_table : M (Sched WeightedScheduler) () :=
  dirty <- gets (λ w, match m_dirty (sst w) with Some m => dirty m | None => false end) ;;
  (if (dirty : bool) then
     invalidate ;;;
     modify (λ w, w <| sst := (sst w) <| m_dirty :=
       (λ m, m <| Metadata.dirty := false |>) <$> m_dirty (sst w) |> |>)
   else ret ()) ;;;
  invalid <- gets (λ w, table_invalidated (obj w)) ;;
  if (invalid : bool) then
    on_sst create_alias_table ;;;
    modify (λ w, w <| obj := (obj w) <| table_invalidated := false |> |>)
  else ret ().

(** The end of a queue cycle: counters and, if asked for, the next schedule. *)
Definition end_of_cycle : M (Sched WeightedScheduler) () :=
  modify (λ w, w <| obj := (obj w) <| queue_cycles := wrap64 (queue_cycles (obj w) + 1) |> |>) ;;;
  ops <- gets (λ w, m_sched (sst w)) ;;
  ps <- lift (ok_or ops (key_not_found "{} not found" [AStr "SchedulerMetadata"])) ;;
  modify (λ w, w <| sst := (sst w) <| m_sched :=
    Some (ps <| sm_queue_cycles := queue_cycles (obj w) |>) |> |>) ;;;
  cyc <- gets (λ w, cycle_schedules (obj w)) ;;
  if (cyc : bool) then cycle_schedule else ret ().

Definition next : M (Sched WeightedScheduler) CorpusId :=
  refresh_table ;;;
  corpus_counts <- gets (λ w, InMemory.count (corpus (sst w))) ;;
  if corpus_counts =? 0 then throw no_entries
  else
    s <- on_sst random_corpus_id ;;
    probability <- on_sst rand_next_float ;;
    wsmeta <- on_sst weighted_meta ;;
    let runs := runs_in_current_cycle wsmeta in
    on_sst (modify (λ st, st <| m_weighted := Some (wsmeta <| runs_in_current_cycle :=
      if corpus_counts <=? runs then 0 else S runs |>) |>)) ;;;
    p <- lift (unwrap (alias_probability wsmeta !! s)) ;;
    idx <- lift (if flt probability p then Ok s
                 else unwrap (Metadata.alias_table wsmeta !! s)) ;;
    (if corpus_counts <=? runs then end_of_cycle
     else ret ()) ;;;
    on_sst (set_current_scheduled (Some idx)) ;;;
    ret idx.
End Weighted.

(** The part of the fuzzer's [process_execution] that stores an interesting testcase:
    [state.corpus_mut().add(testcase)?] and [scheduler.on_add(state, id)?]. *)
Definition corpus_add (testcase : Testcase) : M State CorpusId := λ s,
  match InMemory.add testcase (corpus s) with
  | Ok (id, c) => (Ok id, s <| corpus := c |>)
  | Err e => (Err e, s)
  | Panic => (Panic, s)
  end.
Definition store_testcase (testcase : Testcase) : M (Sched WeightedScheduler) CorpusId :=
  id <- on_sst (corpus_add testcase) ;;
  on_add id ;;;
  ret id.

(** ** [PowerQueueScheduler] and [RandScheduler] *)

Module PowerQueue.
Record PowerQueueScheduler := mkPowerQueue {
  queue_cycles : u64;
  strat : PowerSchedule;
  last_hash : usize;
}.
#[global] Instance eta_PowerQueue : Eta PowerQueueScheduler := λ r,
  mkPowerQueue (queue_cycles r) (strat r) (last_hash r).

Definition new (strat : PowerSchedule) (s : State) : PowerQueueScheduler * State :=
  (mkPowerQueue 0 strat 0,
   match m_sched s with
   | Some _ => s
   | None => s <| m_sched := Some (SchedulerMetadata_new (Some strat)) |>
   end).

Definition on_add (id : CorpusId) : M (Sched PowerQueueScheduler) () :=
  h <- gets (λ w, last_hash (obj w)) ;;
  on_sst (on_add_metadata_default h id).

Definition on_evaluation (hash : option u64) : M (Sched PowerQueueScheduler) () :=
  h <- on_sst (on_evaluation_metadata_default hash) ;;
  modify (λ w, w <| obj := (obj w) <| last_hash := h |> |>).

Definition next : M (Sched PowerQueueScheduler) CorpusId :=
  c <- gets (λ w, corpus (sst w)) ;;
  if InMemory.count c =? 0 then throw no_entries
  else
    id <- match InMemory.current c with
          | Some cur =>
            match InMemory.map_next cur (InMemory.enabled (InMemory.storage c)) with
            | Some next => ret next
            | None =>
              modify (λ w, w <| obj := (obj w) <| queue_cycles := wrap64 (queue_cycles (obj w) + 1) |> |>) ;;;
              ops <- gets (λ w, m_sched (sst w)) ;;
              ps <- lift (ok_or ops (key_not_found "{} not found" [AStr "SchedulerMetadata"])) ;;
              modify (λ w, w <| sst := (sst w) <| m_sched :=
                Some (ps <| sm_queue_cycles := queue_cycles (obj w) |>) |> |>) ;;;
              lift (unwrap (InMemory.map_first (InMemory.enabled (InMemory.storage c))))
            end
          | None => lift (unwrap (InMemory.map_first (InMemory.enabled (InMemory.storage c))))
          end ;;
    on_sst (set_current_scheduled (Some id)) ;;;
    ret id.
End PowerQueue.

Module RandSched.
Definition on_add (id : CorpusId) : M State () :=
  current_id <- gets (λ s, InMemory.current (corpus s)) ;;
  change_testcase id (λ tc, tc <| parent_id := current_id |>).

Definition next : M State CorpusId :=
  n <- gets (λ s, InMemory.count (corpus s)) ;;
  if n =? 0 then throw no_entries
  else
    id <- random_corpus_id ;;
    modify (set_current (Some id)) ;;;
    ret id.
End RandSched.

(** ** The alias table is total *)

Section AliasFacts.
Context (all : list CorpusId).

(** The first [n] cells of a queue hold entries of the corpus. *)
Definition queue_ok (arr : gmap usize CorpusId) (n : nat) : Prop :=
  ∀ i, i < n → ∃ a, arr !! i = Some a ∧ a ∈ all.
Definition queued (arr : gmap usize CorpusId) (n : nat) (id : CorpusId) : Prop :=
  ∃ i, i < n ∧ arr !! i = Some id.

(** An entry that has its probability and its alias. *)
Definition settled (al : Alias) (id : CorpusId) : Prop :=
  is_Some (al_prob al !! id) ∧ ∃ g, al_table al !! id = Some g ∧ g ∈ all.
Definition accounted (al : Alias) (id : CorpusId) : Prop :=
  queued (s_arr al) (n_s al) id ∨ queued (l_arr al) (n_l al) id ∨ settled al id.

Record alias_inv (seen : list CorpusId) (al : Alias) : Prop := {
  ai_s : queue_ok (s_arr al) (n_s al);
  ai_l : queue_ok (l_arr al) (n_l al);
  ai_p : ∀ id, id ∈ all → is_Some (p_arr al !! id);
  ai_seen : ∀ id, id ∈ seen → accounted al id;
  ai_dom : ∀ id, is_Some (al_prob al !! id) → id ∈ all;
}.

Lemma queue_push arr n x : queue_ok arr n → x ∈ all → queue_ok (<[n := x]> arr) (S n).
Proof.
  intros Hq Hx i Hi. destruct (decide (i = n)) as [->|].
  - exists x. by rewrite lookup_insert_eq.
  - rewrite lookup_insert_ne by done. apply Hq. lia.
Qed.
Lemma queued_push arr n x id : queued arr n id → queued (<[n := x]> arr) (S n) id.
Proof.
  intros (i & Hi & Ha). exists i. split; [lia|]. rewrite lookup_insert_ne by lia. done.
Qed.
Lemma queued_new arr n x : queued (<[n := x]> arr) (S n) x.
Proof. exists n. split; [lia|]. by rewrite lookup_insert_eq. Qed.
Lemma queue_pop arr n : queue_ok arr n → queue_ok arr (n - 1).
Proof. intros Hq i Hi. apply Hq. lia. Qed.
Lemma queued_pop arr n x id : queued arr n id → arr !! (n - 1) = Some x → id = x ∨ queued arr (n - 1) id.
Proof.
  intros (i & Hi & Ha) Hx. destruct (decide (i = n - 1)) as [->|]; [left; congruence|right].
  exists i. split; [lia|done].
Qed.

Lemma divide_ok ids seen al : alias_inv seen al → (∀ id, id ∈ ids → id ∈ all) →
  ∃ al', divide ids al = Ok al' ∧ alias_inv (ids ++ seen) al'.
Proof.
  revert seen al. induction ids as [|s ids IH]; intros seen al Hinv Hin; cbn [divide].
  { by exists al. }
  destruct Hinv as [Is Il Ip Iseen Idom].
  assert (s ∈ all) as Hs by (apply Hin; left). destruct (Ip s Hs) as [p Hp]. rewrite Hp. cbn [unwrap obind].
  set (al1 := if flt p f1 then _ else _).
  assert (alias_inv (s :: seen) al1) as H1.
  { unfold al1. destruct (flt p f1).
    - split; cbn; [by apply queue_push|done|done| |done].
      intros id [->|Hid]%elem_of_cons; [left; apply queued_new|].
      destruct (Iseen id Hid) as [?|[?|?]]; [left; by apply queued_push|right; by left|right; by right].
    - split; cbn; [done|by apply queue_push|done| |done].
      intros id [->|Hid]%elem_of_cons; [right; left; apply queued_new|].
      destruct (Iseen id Hid) as [?|[?|?]]; [by left|right; left; by apply queued_push|right; by right]. }
  destruct (IH (s :: seen) al1 H1) as (al' & Hrun & H').
  { intros id Hid. apply Hin. by right. }
  exists al'. split; [done|]. destruct H' as [Js Jl Jp Jseen Jdom]. split; try done.
  intros id Hid. apply Jseen. set_solver.
Qed.

Lemma pair_step_ok seen al : alias_inv seen al → 0 < n_s al → 0 < n_l al →
  ∃ al', pair_step al = Ok al' ∧ alias_inv seen al' ∧ S (n_s al' + n_l al') = n_s al + n_l al.
Proof.
  intros [Is Il Ip Iseen Idom] Hns Hnl. unfold pair_step.
  destruct (Is (n_s al - 1)) as (a & Ha & Hall); [lia|]. rewrite Ha. cbn [unwrap obind].
  destruct (Il (n_l al - 1)) as (g & Hg & Gall); [lia|]. rewrite Hg. cbn [unwrap obind].
  destruct (Ip a Hall) as [pa Hpa]. rewrite Hpa. cbn [unwrap obind].
  destruct (Ip g Gall) as [pg Hpg]. rewrite Hpg. cbn [unwrap obind].
  assert (∀ x id, id ∈ all → is_Some (<[g := x]> (p_arr al) !! id)) as Hp'.
  { intros x id Hid. destruct (decide (id = g)) as [->|]; [by rewrite lookup_insert_eq|].
    rewrite lookup_insert_ne by done. by apply Ip. }
  assert (∀ id, is_Some (<[a := pa]> (al_prob al) !! id) → id ∈ all) as Hd'.
  { intros id. destruct (decide (id = a)) as [->|]; [done|]. rewrite lookup_insert_ne by done. apply Idom. }
  set (base := al <| n_s := n_s al - 1 |> <| n_l := n_l al - 1 |>
    <| al_prob := <[a := pa]> (al_prob al) |> <| al_table := <[a := g]> (al_table al) |>
    <| p_arr := <[g := fadd pg (fsub pa f1)]> (p_arr al) |>).
  assert (∀ id, id ∈ seen → id ≠ g → accounted base id) as Hacc.
  { intros id Hid Hne. destruct (decide (id = a)) as [->|Hna].
    { right; right. split; cbn; [by rewrite lookup_insert_eq|].
      exists g. by rewrite lookup_insert_eq. }
    destruct (Iseen id Hid) as [Hq|[Hq|[Hp (g' & Ht & Hg')]]].
    - left. destruct (queued_pop _ _ a id Hq Ha); done.
    - right; left. destruct (queued_pop _ _ g id Hq Hg); done.
    - right; right. split; cbn; [by rewrite lookup_insert_ne|]. exists g'. by rewrite lookup_insert_ne. }
  destruct (flt (fadd pg (fsub pa f1)) f1).
  - eexists. split; [done|]. split; [|cbn; lia]. split; cbn; [|by apply queue_pop|auto| |done].
    + apply queue_push; [by apply queue_pop|done].
    + intros id Hid. destruct (decide (id = g)) as [->|Hne]; [left; apply queued_new|].
      destruct (Hacc id Hid Hne) as [?|[?|?]]; [left; by apply queued_push|right; by left|right; by right].
  - eexists. split; [done|]. split; [|cbn; lia]. split; cbn; [by apply queue_pop| |auto| |done].
    + apply queue_push; [by apply queue_pop|done].
    + intros id Hid. destruct (decide (id = g)) as [->|Hne]; [right; left; apply queued_new|].
      destruct (Hacc id Hid Hne) as [?|[?|?]]; [by left|right; left; by apply queued_push|right; by right].
Qed.

Lemma pair_loop_ok seen fuel al : alias_inv seen al → n_s al + n_l al ≤ fuel →
  ∃ al', pair_loop fuel al = Ok al' ∧ alias_inv seen al'.
Proof.
  revert al. induction fuel as [|fuel IH]; intros al Hinv Hf; cbn [pair_loop].
  - destruct (Nat.ltb_spec 0 (n_s al)); [lia|]. by exists al.
  - destruct (Nat.ltb_spec 0 (n_s al)) as [H1|]; [|by exists al].
    destruct (Nat.ltb_spec 0 (n_l al)) as [H2|]; [|by exists al]. cbn [andb].
    destruct (pair_step_ok seen al Hinv H1 H2) as (al1 & -> & Hinv1 & Hlt). cbn [obind].
    apply IH; [done|lia].
Qed.

Lemma fill_ones_ok n arr prob : queue_ok arr n →
  ∃ prob', fill_ones n arr prob = Ok prob' ∧
    (∀ id, queued arr n id → prob' !! id = Some f1) ∧
    (∀ id, prob' !! id = prob !! id ∨ (queued arr n id ∧ prob' !! id = Some f1)).
Proof.
  revert prob. induction n as [|n IH]; intros prob Hq; cbn [fill_ones].
  { exists prob. split_and!; [done|by intros id (i & ? & _); lia|by left]. }
  destruct (Hq n) as (id & Hid & _); [lia|]. rewrite Hid. cbn [unwrap obind].
  destruct (IH (<[id := f1]> prob)) as (prob' & Hrun & Hin & Hout).
  { intros i Hi. apply Hq. lia. }
  assert (prob' !! id = Some f1) as H1.
  { destruct (Hout id) as [->|[_ ->]]; [by rewrite lookup_insert_eq|done]. }
  exists prob'. split_and!; [done| |].
  - intros x (i & Hi & Hx). destruct (decide (i = n)) as [->|]; [congruence|].
    apply Hin. exists i. split; [lia|done].
  - intros x. destruct (decide (x = id)) as [->|Hne].
    + right. split; [|done]. exists n. split; [lia|done].
    + destruct (Hout x) as [Hx|[(i & Hi & Hx) H1']].
      * left. by rewrite Hx, lookup_insert_ne.
      * right. split; [|done]. exists i. split; [lia|done].
Qed.

(** The table on which a pick cannot fail: every entry has a probability, and an
    alias in the corpus unless the probability is 1. *)
Definition table_ok (table : gmap CorpusId CorpusId) (prob : gmap CorpusId f64) : Prop :=
  ∀ id, id ∈ all → ∃ p, prob !! id = Some p ∧
    (p = f1 ∨ ∃ g, table !! id = Some g ∧ g ∈ all).

(** The construction terminates without a failed [unwrap] and yields such a table. *)
Lemma build_alias_ok ids p : ids ≡ₚ all → (∀ id, id ∈ all → is_Some (p !! id)) →
  ∃ table prob, build_alias ids p = Ok (table, prob) ∧ table_ok table prob ∧
    (∀ id, is_Some (prob !! id) → id ∈ all).
Proof.
  intros Hperm Hp. unfold build_alias.
  assert (alias_inv [] (mkAlias ∅ ∅ p ∅ 0 ∅ 0)) as H0.
  { split; cbn; [intros i Hi; lia|intros i Hi; lia|done|by intros id ?%elem_of_nil|].
    intros id Hid. rewrite lookup_empty in Hid. by destruct Hid. }
  destruct (divide_ok ids [] _ H0) as (al1 & -> & H1).
  { intros id Hid. by rewrite <-Hperm. }
  cbn [obind]. destruct (pair_loop_ok (ids ++ []) (n_s al1 + n_l al1) al1 H1) as (al & -> & Hinv); [done|].
  cbn [obind]. destruct Hinv as [Is Il Ip Iseen Idom].
  destruct (fill_ones_ok (n_l al) (l_arr al) (al_prob al) Il) as (prob1 & -> & Hq1 & Ho1). cbn [obind].
  destruct (fill_ones_ok (n_s al) (s_arr al) prob1 Is) as (prob & -> & Hq2 & Ho2). cbn [obind].
  eexists _, prob. split; [done|]. split.
  - intros id Hid. rewrite <-Hperm in Hid. destruct (Iseen id) as [Hs|[Hl|[[q Hq] Hg]]].
    + rewrite app_nil_r. done.
    + exists f1. split; [by apply Hq2|by left].
    + exists f1. split; [|by left]. destruct (Ho2 id) as [->|[_ ->]]; [by apply Hq1|done].
    + destruct (Ho2 id) as [E2|[_ E2]]; [|by eauto]. destruct (Ho1 id) as [E1|[_ E1]].
      * exists q. split; [congruence|by right].
      * exists f1. split; [congruence|by left].
  - intros id Hid. destruct (Ho2 id) as [E2|[(i & Hi & Ha) _]].
    + destruct (Ho1 id) as [E1|[(i & Hi & Ha) _]].
      * apply Idom. congruence.
      * destruct (Il i Hi) as (x & Hx & ?). congruence.
    + destruct (Is i Hi) as (x & Hx & ?). congruence.
Qed.
End AliasFacts.

(** The alias table over any list of entries that all have a probability: the pairing
    terminates within as many rounds as there are entries, no lookup fails, and a pick can
    always be completed, since every entry has a threshold that is 1 or comes with an alias
    among the entries. *)
Theorem alias_table_complete ids p :
  (∀ id, id ∈ ids → is_Some (p !! id)) →
  ∃ table prob, build_alias ids p = Ok (table, prob) ∧
    (∀ id, id ∈ ids → ∃ q, prob !! id = Some q ∧ (q = f1 ∨ ∃ g, table !! id = Some g ∧ g ∈ ids)) ∧
    (∀ id, is_Some (prob !! id) → id ∈ ids).
Proof.
  intros Hp. destruct (build_alias_ok ids ids p) as (table & prob & ? & Ht & ?); [done|done|].
  exists table, prob. by split_and!.
Qed.

Lemma alias_table_complete_witness :
  ∃ table prob, build_alias [2; 1; 0] (list_to_map [(0, f_half); (1, f2); (2, f_half)]) = Ok (table, prob) ∧
    ∃ q, prob !! 2 = Some q ∧ (q = f1 ∨ ∃ g, table !! 2 = Some g ∧ g ∈ [2; 1; 0]).
Proof.
  destruct (alias_table_complete [2; 1; 0] (list_to_map [(0, f_half); (1, f2); (2, f_half)]))
    as (table & prob & Hb & Ht & _).
  - intros id. rewrite !elem_of_cons, elem_of_nil. intros [->|[->|[->|[]]]]; by eexists.
  - exists table, prob. split; [exact Hb|]. apply Ht. by left.
Defined.

(** ** A pick from the weighted scheduler *)

Import InMemoryFacts.

(** What the scheduler needs of the state. *)
Record sched_inv (s : State) : Prop := {
  si_corpus : cwf (corpus s);
  si_rand : rand_inv (rand s);
  si_weighted : is_Some (m_weighted s);
  si_sched : is_Some (m_sched s);
  si_meta : ∀ id tc, tc_at (corpus s) id = Some tc → is_Some (tc_sched tc);
  si_current : ∀ id, InMemory.current (corpus s) = Some id → id ∈ InMemory.ids (corpus s);
  si_count : (Z.of_nat (InMemory.count (corpus s)) ≤ u64_max)%Z;
}.

(** Only the corpus changes, and of it neither the ids nor the current entry. *)
Definition corpus_frame (s s' : State) : Prop :=
  s' = s <| corpus := corpus s' |> ∧ InMemory.ids (corpus s') = InMemory.ids (corpus s) ∧
  InMemory.current (corpus s') = InMemory.current (corpus s) ∧ same_disabled (corpus s) (corpus s').

#[global] Instance corpus_frame_preorder : PreOrder corpus_frame.
Proof.
  split; [by intros []|]. intros s1 s2 s3 (E1 & I1 & C1 & D1) (E2 & I2 & C2 & D2). unfold same_disabled in *.
  split_and!; [|congruence|congruence|congruence]. rewrite E2, E1. done.
Qed.

Lemma change_sched_inv id f s : sched_inv s → id ∈ InMemory.ids (corpus s) →
  (∀ tc, is_Some (tc_sched tc) → is_Some (tc_sched (f tc))) →
  ∃ s', change_testcase id f s = (Ok (), s') ∧ sched_inv s' ∧ corpus_frame s s'.
Proof.
  intros [C R W P M Cu Co] Hid Hf. apply tc_at_ids in Hid as [tc Htc]; [|done].
  unfold change_testcase. destruct (update_ok (corpus s) id f tc Htc) as (c' & Eu & Hw & Hi & Hc & Hl). rewrite Eu.
  eexists. split; [done|]. assert (corpus_frame s (s <| corpus := c' |>)) as Hfr.
  { split_and!; [done|auto|done|by eapply update_disabled]. }
  assert (InMemory.count c' = InMemory.count (corpus s)) as Hcnt.
  { rewrite (count_ids c'), (count_ids (corpus s)) by auto. by rewrite Hi. }
  split; [|done]. split; cbn [corpus upd eta_State]; [auto|done|done|done| | |by rewrite Hcnt].
  - intros x tcx Hx. rewrite Hl in Hx. case_decide; [|by eapply M]. simplify_eq. apply Hf. by eapply M.
  - intros x Hx. rewrite Hi by done. apply Cu. congruence.
Qed.

(** What a score promises to the scheduler: a value for every entry of a good state,
    and a good state after the testcase it may have changed is stored. *)
Class ScoreLaws (T : TestcaseScore) (good : State → Prop) := {
  compute_total : ∀ s id tc, good s → tc_at (corpus s) id = Some tc →
    ∃ w tc', compute s tc = Ok (w, tc');
  compute_sched : ∀ s tc w tc', compute s tc = Ok (w, tc') → tc_sched tc' = tc_sched tc;
  compute_good : ∀ s id tc w tc' s', good s → tc_at (corpus s) id = Some tc →
    compute s tc = Ok (w, tc') → change_testcase id (λ _, tc') s = (Ok (), s') → good s';
}.

Section Pick.
Context `{T : TestcaseScore} {good : State → Prop} `{!ScoreLaws T good}.

Lemma weigh_ok ids weights sum s : sched_inv s → good s →
  (∀ id, id ∈ ids → id ∈ InMemory.ids (corpus s)) →
  ∃ weights' sum' s', weigh ids weights sum s = (Ok (weights', sum'), s') ∧
    sched_inv s' ∧ good s' ∧ corpus_frame s s' ∧
    (∀ id, id ∈ ids ∨ is_Some (weights !! id) → is_Some (weights' !! id)).
Proof.
  revert weights sum s. induction ids as [|i ids IH]; intros weights sum s Hs Hg Hin; cbn [weigh].
  { exists weights, sum, s. split_and!; [done|done|done|reflexivity|].
    intros id [Hid|Hid]; [by apply elem_of_nil in Hid|done]. }
  assert (i ∈ InMemory.ids (corpus s)) as Hi by (apply Hin; left).
  pose proof (proj2 (tc_at_ids (corpus s) i (si_corpus _ Hs)) Hi) as [tc Htc].
  unfold bind, read_testcase, gets, lift. rewrite (proj2 (get_tc_at _ _ _) Htc).
  destruct (compute_total s i tc Hg Htc) as (w & tc' & Hc). rewrite Hc. cbn [fst snd].
  destruct (change_sched_inv i (λ _, tc') s Hs Hi) as (s1 & Hch & Hs1 & Hfr).
  { intros _ _. rewrite (compute_sched _ _ _ _ Hc). by eapply (si_meta _ Hs). }
  rewrite Hch. pose proof (compute_good s i tc w tc' s1 Hg Htc Hc Hch) as Hg1.
  destruct (IH (<[i := w]> weights) (fadd sum w) s1 Hs1 Hg1) as (w' & sum' & s2 & Hrun & Hs2 & Hg2 & Hfr2 & Hdom).
  { intros id Hid. destruct Hfr as (_ & -> & _). apply Hin. by right. }
  exists w', sum', s2. split_and!; [done|done|done|by etrans|].
  intros id Hid. apply Hdom. destruct (decide (id = i)) as [->|].
  - right. by rewrite lookup_insert_eq.
  - rewrite lookup_insert_ne by done. destruct Hid as [Hid|?]; [|by right].
    apply elem_of_cons in Hid as [?|?]; [done|by left].
Qed.

(** The table of the metadata fits the corpus. *)
Definition tables_fit (s : State) : Prop :=
  ∃ m, m_weighted s = Some m ∧
    table_ok (InMemory.ids (corpus s)) (Metadata.alias_table m) (alias_probability m).

Lemma create_alias_table_ok s : sched_inv s → good s →
  ∃ s', create_alias_table s = (Ok (), s') ∧ sched_inv s' ∧ tables_fit s' ∧
    InMemory.ids (corpus s') = InMemory.ids (corpus s) ∧
    m_sched s' = m_sched s ∧ m_dirty s' = m_dirty s ∧
    InMemory.current (corpus s') = InMemory.current (corpus s).
Proof.
  intros Hs Hg. unfold create_alias_table. do 2 unfold bind at 1, gets at 1. unfold bind at 1.
  destruct (weigh_ok (InMemory.ids (corpus s)) ∅ f0 s Hs Hg) as (ws & sum & s1 & -> & Hs1 & _ & Hfr & Hdom);
    [done|]. pose proof Hfr as (E1 & I1 & C1 & _).
  unfold bind at 1, gets at 1. unfold bind at 1, lift at 1.
  set (p := (λ w, fdiv (fmul w (of_nat (InMemory.count (corpus s)))) sum) <$> ws).
  destruct (build_alias_ok (InMemory.ids (corpus s1)) (InMemory.ids_rev (corpus s1)) p)
    as (table & prob & -> & Htab & _).
  { rewrite ids_rev_reverse by apply Hs1. apply reverse_Permutation. }
  { intros id Hid. unfold p. rewrite lookup_fmap. rewrite I1 in Hid.
    destruct (Hdom id) as [w ->]; [by left|]. by eexists. }
  destruct Hs1 as [C R [m W] P M Cu Co]. unfold weighted_meta, bind, gets, lift, ok_or, modify. rewrite W.
  eexists. split; [done|]. split_and!; [|by eexists|done|by rewrite E1|by rewrite E1|done].
  by split.
Qed.

(** The table may be used as it is, or will be rebuilt. *)
Definition table_valid (w : Sched WeightedScheduler) : Prop :=
  table_invalidated (obj w) = true ∨
  match m_dirty (sst w) with Some m => dirty m | None => false end = true ∨
  tables_fit (sst w).

Lemma dirty_sched_inv s d : sched_inv s → sched_inv (s <| m_dirty := d |>).
Proof. intros [C R W P M Cu Co]. by split. Qed.

Lemma refresh_ok w : sched_inv (sst w) → good (sst w) →
  (∀ d, good (sst w) → good ((sst w) <| m_dirty := d |>)) → table_valid w →
  ∃ w', refresh_table w = (Ok (), w') ∧ sched_inv (sst w') ∧ tables_fit (sst w') ∧
    InMemory.ids (corpus (sst w')) = InMemory.ids (corpus (sst w)) ∧
    m_sched (sst w') = m_sched (sst w) ∧ cycle_schedules (obj w') = cycle_schedules (obj w).
Proof.
  intros Hs Hg Hgd Hv. unfold refresh_table.
  set (b := match m_dirty (sst w) with Some m => dirty m | None => false end) in *.
  unfold bind at 1, gets at 1. fold b. unfold bind at 1.
  assert (∀ o s, sched_inv s → good s → cycle_schedules o = cycle_schedules (obj w) →
    InMemory.ids (corpus s) = InMemory.ids (corpus (sst w)) → m_sched s = m_sched (sst w) →
    ∃ w', (on_sst create_alias_table ;;; modify (λ w, w <| obj := (obj w) <| table_invalidated := false |> |>))
            (mkSched o s) = (Ok (), w') ∧ sched_inv (sst w') ∧ tables_fit (sst w') ∧
      InMemory.ids (corpus (sst w')) = InMemory.ids (corpus (sst w)) ∧
      m_sched (sst w') = m_sched (sst w) ∧ cycle_schedules (obj w') = cycle_schedules (obj w)) as Hbuild.
  { intros o s Hs1 Hg1 Ho Hi Hm. destruct (create_alias_table_ok s Hs1 Hg1)
      as (s2 & Hrun & Hs2 & Hf2 & Hi2 & Hm2 & _ & _).
    unfold bind, on_sst. cbn [sst]. rewrite Hrun. eexists. split; [done|].
    split_and!; [exact Hs2|exact Hf2|exact (eq_trans Hi2 Hi)|exact (eq_trans Hm2 Hm)|exact Ho]. }
  destruct b eqn:Eb.
  - unfold invalidate, bind, modify, gets. apply (Hbuild _ _); [by apply dirty_sched_inv|by apply Hgd|done..].
  - unfold ret, bind at 1, gets at 1. destruct (table_invalidated (obj w)) eqn:Et.
    + destruct w. by apply Hbuild.
    + exists w. unfold b in Eb. destruct Hv as [?|[?|?]]; [congruence|congruence|]. by split_and!.
Qed.

Lemma random_id_ok s : sched_inv s → InMemory.count (corpus s) ≠ 0 →
  ∃ id r, random_corpus_id s = (Ok id, s <| rand := r |>) ∧ id ∈ InMemory.ids (corpus s) ∧ rand_inv r.
Proof.
  intros Hs Hne. unfold random_corpus_id, bind, gets, lift.
  destruct (below_lt (InMemory.count (corpus s)) (rand s) (si_rand _ Hs)) as [Hlt Hr];
    [lia|apply Hs|]. destruct (below _ (rand s)) as [n r]. cbn [fst snd] in *.
  rewrite count_ids in Hlt by apply Hs. apply lookup_lt_is_Some in Hlt as [id Hid].
  rewrite nth_ids by apply Hs. rewrite Hid. exists id, r. split_and!; [done| |done].
  by eapply list_elem_of_lookup_2.
Qed.

Lemma rand_sched_inv s r : sched_inv s → rand_inv r → sched_inv (s <| rand := r |>).
Proof. intros [C R W P M Cu Co] Hr. by split. Qed.

Lemma lower_handicap_inv s : sched_inv s →
  ∃ s', on_next_metadata_default s = (Ok (), s') ∧ sched_inv s' ∧ corpus_frame s s'.
Proof.
  intros Hs. unfold on_next_metadata_default, bind at 1, gets at 1.
  destruct (InMemory.current (corpus s)) as [id|] eqn:Ec.
  2: { exists s. split_and!; [done|done|reflexivity]. }
  pose proof (si_current _ Hs id Ec) as Hid.
  pose proof (proj2 (tc_at_ids (corpus s) id (si_corpus _ Hs)) Hid) as [tc Htc].
  destruct (si_meta _ Hs id tc Htc) as [m Hm].
  unfold testcase_sched, bind, read_testcase, lift, testcase_meta.
  rewrite (proj2 (get_tc_at _ _ _) Htc), Hm. cbn [ok_or].
  apply change_sched_inv; [done|done|by eexists].
Qed.

Lemma set_current_ok s id : sched_inv s → id ∈ InMemory.ids (corpus s) →
  ∃ s', set_current_scheduled (Some id) s = (Ok (), s') ∧ sched_inv s' ∧
    InMemory.ids (corpus s') = InMemory.ids (corpus s) ∧
    InMemory.current (corpus s') = Some id ∧ m_weighted s' = m_weighted s.
Proof.
  intros Hs Hid. unfold set_current_scheduled, bind.
  destruct (lower_handicap_inv s Hs) as (s1 & -> & [C R W P M Cu Co] & (E & I & _)).
  eexists. split; [done|]. split_and!; [|done|done|by rewrite E].
  split; [by destruct C; split|done..| |done]. intros x [= <-].
  change (id ∈ InMemory.ids (corpus s1)). by rewrite I.
Qed.

Lemma end_of_cycle_ok w : sched_inv (sst w) →
  (cycle_schedules (obj w) = true → ∃ ps, m_sched (sst w) = Some ps ∧ is_Some (sm_strat ps)) →
  ∃ w', end_of_cycle w = (Ok (), w') ∧ sched_inv (sst w') ∧ corpus (sst w') = corpus (sst w) ∧
    m_weighted (sst w') = m_weighted (sst w).
Proof.
  intros [C R W [ps P] M Cu Co] Hcyc. unfold end_of_cycle, bind, modify, gets, lift.
  cbn [sst obj upd eta_Sched]. rewrite P. cbn [ok_or].
  change (cycle_schedules ((obj w) <| queue_cycles := wrap64 (queue_cycles (obj w) + 1) |>))
    with (cycle_schedules (obj w)).
  destruct (cycle_schedules (obj w)).
  - destruct (Hcyc eq_refl) as (ps' & P' & [strat Hst]). rewrite P in P'. injection P' as <-.
    unfold cycle_schedule, bind, gets, lift, modify. cbn. rewrite Hst. cbn.
    eexists. split; [done|]. split_and!; [|done|done]. by split.
  - eexists. split; [done|]. split_and!; [|done|done]. by split.
Qed.

(** One pick of the weighted scheduler. *)
Lemma pick_ok w :
  sched_inv (sst w) → good (sst w) → (∀ d, good (sst w) → good ((sst w) <| m_dirty := d |>)) →
  table_valid w → InMemory.count (corpus (sst w)) ≠ 0 →
  (cycle_schedules (obj w) = true →
     ∃ ps, m_sched (sst w) = Some ps ∧ is_Some (sm_strat ps)) →
  ∃ idx w', next w = (Ok idx, w') ∧ idx ∈ InMemory.ids (corpus (sst w)) ∧
    InMemory.current (corpus (sst w')) = Some idx ∧
    InMemory.ids (corpus (sst w')) = InMemory.ids (corpus (sst w)) ∧
    sched_inv (sst w') ∧ tables_fit (sst w').
Proof.
  intros Hs Hg Hgd Hv Hne Hcyc. unfold next. unfold bind at 1.
  destruct (refresh_ok w Hs Hg Hgd Hv) as (w1 & -> & Hs1 & (m & Hm & Htab) & Hi1 & Hp1 & Hc1).
  unfold bind at 1, gets at 1.
  assert (InMemory.count (corpus (sst w1)) ≠ 0) as Hne1.
  { rewrite count_ids, Hi1, <-count_ids by (apply Hs || apply Hs1). done. }
  destruct (Nat.eqb_spec (InMemory.count (corpus (sst w1))) 0) as [|_]; [done|].
  set (n := InMemory.count (corpus (sst w1))) in *.
  destruct (random_id_ok (sst w1) Hs1 Hne1) as (id & r & Hrun & Hid & Hr).
  unfold bind at 1, on_sst at 1. rewrite Hrun.
  pose proof (rand_sched_inv _ r Hs1 Hr) as Hs2. set (s2 := (sst w1) <| rand := r |>) in *.
  unfold bind at 1, on_sst at 1, rand_next_float. cbn [sst upd eta_Sched].
  destruct (next_float_unit (rand s2) (si_rand _ Hs2)) as (_ & _ & Hlt & Hr2).
  destruct (next_float (rand s2)) as [x r2]. cbn [fst snd] in *.
  pose proof (rand_sched_inv _ r2 Hs2 Hr2) as Hs3. set (s3 := s2 <| rand := r2 |>) in *.
  unfold bind at 1, on_sst at 1, weighted_meta, bind at 1, gets at 1, lift at 1.
  change (m_weighted (sst (_ : Sched WeightedScheduler))) with (m_weighted (sst w1)).
  rewrite Hm. cbn [ok_or].
  unfold bind at 1, on_sst at 1, modify at 1. cbv zeta.
  set (m' := m <| runs_in_current_cycle := _ |>).
  set (w4 := mkSched (obj w1) (s3 <| m_weighted := Some m' |>)).
  match goal with |- context [bind (lift _) _ ?w0] => change w0 with w4 end.
  assert (sched_inv (sst w4) ∧ tables_fit (sst w4)) as [Hs4 Ht4].
  { split; [by destruct Hs3; split|]. by exists m'. }
  destruct (Htab id Hid) as (p & Hp & Hcase). unfold bind at 1, lift at 1. rewrite Hp. cbn [unwrap].
  unfold bind at 1, lift at 1.
  assert (∃ idx, (if flt x p then Ok id else unwrap (E := Error) (Metadata.alias_table m !! id)) = Ok idx ∧
            idx ∈ InMemory.ids (corpus (sst w1))) as (idx & -> & Hidx).
  { destruct Hcase as [->|(g & Hg' & Hgin)]; [rewrite Hlt; by eexists|].
    destruct (flt x p); [by eexists|]. rewrite Hg'. by eexists. }
  unfold bind at 1.
  assert (∃ w5, (if n <=? runs_in_current_cycle m then end_of_cycle else ret ()) w4 = (Ok (), w5) ∧
    sched_inv (sst w5) ∧ corpus (sst w5) = corpus (sst w4) ∧
    m_weighted (sst w5) = m_weighted (sst w4)) as (w5 & -> & Hs5 & Hco5 & Hw5).
  { destruct (n <=? _); [|by exists w4]. apply end_of_cycle_ok; [done|].
    change (cycle_schedules (obj w4)) with (cycle_schedules (obj w1)). rewrite Hc1.
    change (m_sched (sst w4)) with (m_sched (sst w1)). by rewrite Hp1. }
  assert (InMemory.ids (corpus (sst w5)) = InMemory.ids (corpus (sst w))) as Hi5.
  { rewrite Hco5. exact Hi1. }
  destruct (set_current_ok (sst w5) idx Hs5) as (s6 & Hcur & Hs6 & Hi6 & Hc6 & Hw6).
  { rewrite Hi5, <-Hi1. done. }
  unfold bind, on_sst. rewrite Hcur. exists idx. eexists. split; [done|].
  split_and!; [by rewrite <-Hi1|done|by etrans|done|].
  destruct Ht4 as (m4 & Hm4 & Htab4). exists m4. cbn [sst upd eta_Sched]. split; [congruence|].
  rewrite Hi6, Hi5, <-Hi1. exact Htab4.
Qed.

(** The weighted scheduler always picks an entry of a non-empty corpus and makes it
    current; neither an [unwrap] of the alias tables nor anything else panics, and
    the table stays usable as long as the corpus does not change. *)
Theorem weighted_next_ok w :
  sched_inv (sst w) → good (sst w) → (∀ d, good (sst w) → good ((sst w) <| m_dirty := d |>)) →
  table_valid w → InMemory.count (corpus (sst w)) ≠ 0 →
  (cycle_schedules (obj w) = true →
     ∃ ps, m_sched (sst w) = Some ps ∧ is_Some (sm_strat ps)) →
  ∃ idx w', next w = (Ok idx, w') ∧ idx ∈ InMemory.ids (corpus (sst w)) ∧
    InMemory.current (corpus (sst w')) = Some idx ∧
    InMemory.ids (corpus (sst w')) = InMemory.ids (corpus (sst w)) ∧
    sched_inv (sst w') ∧ tables_fit (sst w').
Proof. apply pick_ok. Qed.
End Pick.

(** The depth a new entry gets: one more than the current entry's. *)
Definition parent_depth (s : State) : u64 :=
  match InMemory.current (corpus s) ≫= tc_at (corpus s) with
  | Some tc => default 0%Z (depth <$> tc_sched tc)
  | None => 0%Z
  end.

Lemma store_ok w tc :
  sched_inv (sst w) → (Z.of_nat (InMemory.count (corpus (sst w))) < u64_max)%Z →
  ∃ id w', store_testcase tc w = (Ok id, w') ∧ sched_inv (sst w') ∧ table_valid w' ∧
    InMemory.ids (corpus (sst w')) = InMemory.ids (corpus (sst w)) ++ [id] ∧
    InMemory.current (corpus (sst w')) = InMemory.current (corpus (sst w)) ∧
    (∃ tc', tc_at (corpus (sst w')) id = Some tc' ∧
       parent_id tc' = InMemory.current (corpus (sst w)) ∧
       tc_sched tc' = Some (with_n_fuzz_entry (wrap64 (parent_depth (sst w) + 1)) (last_hash (obj w)))) ∧
    (∀ x, x ∈ InMemory.ids (corpus (sst w)) → tc_at (corpus (sst w')) x = tc_at (corpus (sst w)) x).
Proof.
  destruct w as [o s]. cbn [sst obj]. intros [C R W P M Cu Co] Hlt.
  destruct (corpus_add_ok (corpus s) tc C) as (id & c1 & Hadd & C1 & Hids & Hnew & Hget & Hoth & Hcnt).
  assert (InMemory.current c1 = InMemory.current (corpus s)) as Hcur.
  { unfold InMemory.add, InMemory.insert_inner in Hadd. cbn in Hadd. destruct (InMemory.map_push _ _ _); by simplify_eq/=. }
  assert (∀ x, x ≠ id → tc_at c1 x = tc_at (corpus s) x) as Hat.
  { intros x Hx. by apply tc_at_get_eq, Hoth. }
  unfold store_testcase, on_add, bind, on_sst, corpus_add, gets, invalidate, modify, ret. cbn [sst obj].
  rewrite Hadd. cbn [sst obj upd eta_Sched]. set (s1 := s <| corpus := c1 |>).
  assert (∀ d, (match InMemory.current (corpus s1) with
                | Some p => m <- testcase_sched p ;; ret (depth m) | None => ret d end) s1
              = (Ok (match InMemory.current (corpus s) with Some _ => parent_depth s | None => d end), s1)) as Hdep.
  { intros d. unfold parent_depth. change (corpus s1) with c1. rewrite Hcur.
    destruct (InMemory.current (corpus s)) as [p|] eqn:Ep; [|done]. cbn [mbind option_bind].
    pose proof (Cu p eq_refl) as Hp. apply tc_at_ids in Hp as [t Ht]; [|done]. rewrite Ht.
    destruct (M p t Ht) as [m Hm]. rewrite Hm.
    assert (p ≠ id) as Hne by (intros ->; apply Hnew, tc_at_ids; eauto).
    unfold testcase_sched, bind, read_testcase, lift, testcase_meta, ret.
    rewrite <-(Hat p Hne) in Ht. apply get_tc_at in Ht. change (corpus s1) with c1. rewrite Ht, Hm. done. }
  unfold on_add_metadata_default. unfold bind at 1, gets at 1. unfold bind at 1. rewrite Hdep.
  apply get_tc_at in Hget.
  destruct (update_ok c1 id (λ tc, tc <| tc_sched := Some (with_n_fuzz_entry (wrap64
    (match InMemory.current (corpus s) with Some _ => parent_depth s | None => 0 end + 1)) (last_hash o)) |>
    <| parent_id := InMemory.current (corpus s1) |>) tc Hget) as (c2 & Hupd & Hw2 & Hi2 & Hc2 & Hl2).
  unfold change_testcase. change (corpus s1) with c1 at 2. rewrite Hupd. cbn [sst obj upd eta_Sched].
  assert (InMemory.ids c2 = InMemory.ids (corpus s) ++ [id]) as Hids2 by (rewrite Hi2; done).
  exists id. eexists. split; [done|]. cbn [sst obj upd eta_Sched corpus eta_State].
  split_and!; [|by left|done|by rewrite Hc2| |].
  - split; cbn [corpus upd eta_State]; [by apply Hw2|done|done|done| | |].
    + intros x t Hx. rewrite Hl2 in Hx. case_decide; [by simplify_eq; eexists|].
      rewrite Hat in Hx by done. by eapply M.
    + intros x Hx. rewrite Hids2. apply elem_of_app. left. apply Cu. congruence.
    + rewrite (count_ids c2) by (by apply Hw2). rewrite Hids2, length_app, <-(count_ids (corpus s)) by done.
      cbn [length]. lia.
  - eexists. rewrite Hl2, decide_True by done. split; [done|]. split.
    + change (corpus s1) with c1. exact Hcur.
    + cbn. do 3 f_equal. unfold parent_depth. by destruct (InMemory.current (corpus s)).
  - intros x Hx. assert (x ≠ id) as Hne by by intros ->. rewrite Hl2, decide_False by done. by apply Hat.
Qed.

(** Storing an interesting testcase never fails: the entry gets a fresh id at the end of the
    corpus, the current entry as its parent and one more than its depth; the other entries stay
    as they are, and the alias table, which does not know the entry, is marked for a rebuild
    before the next pick. *)
Theorem store_testcase_ok w tc :
  sched_inv (sst w) → (Z.of_nat (InMemory.count (corpus (sst w))) < u64_max)%Z →
  ∃ id w', store_testcase tc w = (Ok id, w') ∧ sched_inv (sst w') ∧ table_valid w' ∧
    InMemory.ids (corpus (sst w')) = InMemory.ids (corpus (sst w)) ++ [id] ∧
    InMemory.current (corpus (sst w')) = InMemory.current (corpus (sst w)) ∧
    (∃ tc', tc_at (corpus (sst w')) id = Some tc' ∧
       parent_id tc' = InMemory.current (corpus (sst w)) ∧
       tc_sched tc' = Some (with_n_fuzz_entry (wrap64 (parent_depth (sst w) + 1)) (last_hash (obj w)))) ∧
    (∀ x, x ∈ InMemory.ids (corpus (sst w)) → tc_at (corpus (sst w')) x = tc_at (corpus (sst w)) x).
Proof. apply store_ok. Qed.

(** ** Scores that keep the promise *)

Lemma change_same id tc s : tc_at (corpus s) id = Some tc →
  change_testcase id (λ _, tc) s = (Ok (), s).
Proof.
  intros Htc. unfold tc_at, InMemory.map_get in Htc. unfold change_testcase, InMemory.update.
  destruct (InMemory.map (InMemory.enabled (InMemory.storage (corpus s))) !! id) as [it|] eqn:E; [|done].
  cbn in Htc. injection Htc as <-. cbn [ok_or obind].
  assert (it <| InMemory.testcase := InMemory.testcase it |> = it) as -> by by destruct it.
  rewrite insert_id by done. destruct s. cbn.
  match goal with c : Corpus |- _ => destruct c as [st cur]; by destruct st as [[] ? ?] end.
Qed.

Section Scores.
Context `{L : Libm}.

Lemma corpus_weight_same s tc w tc' : corpus_weight s tc = Ok (w, tc') → tc' = tc.
Proof.
  unfold corpus_weight. intros Hrun. apply obind_Ok_inv in Hrun as (ps & _ & Hrun).
  apply obind_Ok_inv in Hrun as (m & _ & Hrun). destruct (_ || _); [by injection Hrun|].
  apply obind_Ok_inv in Hrun as (t & _ & Hrun). cbv zeta in Hrun.
  apply obind_Ok_inv in Hrun as (w1 & _ & Hrun). apply obind_Ok_inv in Hrun as (top & _ & Hrun).
  destruct (is_normal _); [by injection Hrun|done].
Qed.

(** Every entry of the corpus has a weight. *)
Definition weights_defined (s : State) : Prop :=
  ∀ id tc, tc_at (corpus s) id = Some tc → ∃ w, corpus_weight s tc = Ok (w, tc).

#[global] Instance corpus_weight_laws : ScoreLaws CorpusWeightTestcaseScore weights_defined.
Proof.
  split.
  - intros s id tc Hg Htc. destruct (Hg id tc Htc) as [w Hw]. by exists w, tc.
  - intros s tc w tc' Hc. by rewrite (corpus_weight_same s tc w tc' Hc).
  - intros s id tc w tc' s' Hg Htc Hc Hch. apply corpus_weight_same in Hc as ->.
    rewrite change_same in Hch by done. by injection Hch as <-.
Qed.

(** Before any calibration every entry weighs 1. *)
Lemma weights_defined_uncalibrated s ps : m_sched s = Some ps → sm_cycles ps = 0%Z →
  (∀ id tc, tc_at (corpus s) id = Some tc → is_Some (tc_sched tc)) → weights_defined s.
Proof.
  intros Hps Hcy Hm id tc Htc. exists f1. unfold corpus_weight, sched_meta, testcase_meta.
  rewrite Hps. destruct (Hm id tc Htc) as [m ->]. cbn [ok_or obind].
  by rewrite Hcy, orb_true_r.
Qed.
End Scores.

(** Every entry has its input or its length. *)
Definition lengths_known (s : State) : Prop :=
  ∀ id tc, tc_at (corpus s) id = Some tc → is_Some (tc_input tc) ∨ is_Some (tc_cached_len tc).

#[global] Instance len_time_laws : ScoreLaws LenTimeMulTestcaseScore lengths_known.
Proof.
  split.
  - intros s id tc Hg Htc. unfold compute, LenTimeMulTestcaseScore, len_time_mul, load_len.
    destruct (tc_input tc) eqn:Ei; [eexists _, _; done|].
    destruct (Hg id tc Htc) as [[? ?]|[l ->]]; [congruence|]. eexists _, _. done.
  - intros s tc w tc' Hc. unfold compute, LenTimeMulTestcaseScore, len_time_mul, load_len in Hc.
    destruct (tc_input tc); [by injection Hc as <- <-|].
    destruct (tc_cached_len tc); [by injection Hc as <- <-|done].
  - intros s id tc w tc' s' Hg Htc Hc Hch.
    destruct (change_testcase_ok id (λ _, tc') s tc Htc) as (s1 & Hch' & _ & Hl).
    rewrite Hch in Hch'. injection Hch' as <-. intros x tcx Hx. rewrite Hl in Hx.
    case_decide; [|by eapply Hg]. injection Hx as <-.
    unfold compute, LenTimeMulTestcaseScore, len_time_mul, load_len in Hc.
    destruct (tc_input tc) eqn:Ei; [injection Hc as <- <-; right; by eexists|].
    destruct (tc_cached_len tc) eqn:El; [injection Hc as <- <-|done]. right. by eexists.
Qed.

(** ** A concrete scheduler *)

(** A new scheduler (with a small hit-count table) on an empty corpus, before any calibration. *)
Definition demo_empty : Sched WeightedScheduler :=
  mkSched (mkWeightedScheduler true (Some (mkPowerSchedule FAST false)) 0 0 false)
    ((empty_state (RomuDuoJr.with_seed 1))
       <| m_sched := Some (mkSchedulerMetadata (Some (mkPowerSchedule FAST false)) 0 0 0 f0 0 0 [0%Z]) |>
       <| m_weighted := Some WeightedScheduleMetadata_new |>).

Lemma demo_empty_inv : sched_inv (sst demo_empty).
Proof.
  split; [apply cwf_new|apply std_rand_seeded; done|by eexists|by eexists| |done|done].
  intros id tc Htc. assert (id ∈ InMemory.ids (corpus (sst demo_empty))) as Hid
    by (apply tc_at_ids; [apply cwf_new|by eexists]).
  vm_compute in Hid. by apply elem_of_nil in Hid.
Qed.

Lemma store_testcase_ok_witness :
  ∃ id w', store_testcase (Testcase_new []) demo_empty = (Ok id, w') ∧
    InMemory.ids (corpus (sst w')) = [id] ∧ table_valid w'.
Proof.
  destruct (store_testcase_ok demo_empty (Testcase_new []) demo_empty_inv)
    as (id & w' & Hrun & _ & ? & Hids & _); [done|].
  exists id, w'. split_and!; [exact Hrun|exact Hids|done].
Defined.

Lemma weighted_next_ok_witness :
  ∃ id w', store_testcase (Testcase_new []) demo_empty = (Ok id, w') ∧
    ∃ idx w2, next (H := CorpusWeightTestcaseScore (H := toy_libm)) w' = (Ok idx, w2) ∧ idx = id.
Proof.
  destruct (store_ok demo_empty (Testcase_new []) demo_empty_inv)
    as (id & w' & Hrun & Hinv & Hval & Hids & _); [done|].
  exists id, w'. split; [exact Hrun|].
  assert (∃ ps, m_sched (sst w') = Some ps ∧ sm_cycles ps = 0%Z ∧ cycle_schedules (obj w') = false)
    as (ps & Hps & Hcy & Hcs).
  { vm_compute in Hrun. injection Hrun as _ <-. by eexists. }
  destruct (weighted_next_ok (T := CorpusWeightTestcaseScore (H := toy_libm))
    (good := weights_defined (L := toy_libm)) w') as (idx & w2 & Hnext & Hidx & _).
  - exact Hinv.
  - eapply weights_defined_uncalibrated; [exact Hps|exact Hcy|apply Hinv].
  - intros d _. eapply weights_defined_uncalibrated; [exact Hps|exact Hcy|apply Hinv].
  - exact Hval.
  - rewrite (count_ids _ (si_corpus _ Hinv)), Hids. done.
  - intros Hc. congruence.
  - exists idx, w2. split; [exact Hnext|]. rewrite Hids in Hidx. by apply list_elem_of_singleton in Hidx.
Defined.
