(* ===== verification/Minimizer.v ===== *)
(** * Minimizer: [libafl/src/schedulers/minimizer.rs]

    The scheduler BOFuzz puts around the weighted one.  For every index of the coverage map it
    remembers the corpus entry that reaches it at the least cost ([TopRatedsMetadata]); an entry that is
    needed to cover all indexes is favoured, and an entry that is not favoured is skipped with high
    probability.  The base scheduler is an instance of the class [Scheduler], the cost an instance of
    [TestcaseScore]; the metadata [M] is [MapIndexesMetadata], with its reference count.  An
    [isize] counter is an integer. *)

From Stdlib Require Import ZArith Lia.
From S2P Require Import Prelude Float64 FloatFacts Rands Corpus Metadata State Factor WeightRefresh TestcaseScore Weighted.

(** The trait [Scheduler] with [RemovableScheduler]; a scheduler of type [T]. *)
Class Scheduler (T : Type) := mkScheduler {
  sch_on_add : CorpusId → M (Sched T) ();
  sch_on_evaluation : option u64 → M (Sched T) ();
  sch_next : M (Sched T) CorpusId;
  sch_on_replace : CorpusId → M (Sched T) ();
  sch_on_remove : CorpusId → M (Sched T) ();
}.

(** The weighted scheduler with its score. *)
Definition WeightedBase (T : TestcaseScore) : Scheduler WeightedScheduler :=
  mkScheduler _ on_add on_evaluation (next (H := T)) (λ _, on_replace) (λ _, on_remove).

(** [0.95] *)
Definition DEFAULT_SKIP_NON_FAVORED_PROB : f64 := S754_finite false 8556839292003942 (-53).

Record MinimizerScheduler (T : Type) := mkMinimizer {
  base : T;
  skip_non_favored_prob : f64;
  remove_metadata : bool;
}.
Arguments mkMinimizer {T} _ _ _.
Arguments base {T} _.
Arguments skip_non_favored_prob {T} _.
Arguments remove_metadata {T} _.
#[global] Instance eta_Minimizer T : Eta (MinimizerScheduler T) :=
  λ r, mkMinimizer (base r) (skip_non_favored_prob r) (remove_metadata r).

Definition new {T} (base : T) : MinimizerScheduler T := mkMinimizer base DEFAULT_SKIP_NON_FAVORED_PROB true.
Definition non_metadata_removing {T} (base : T) : MinimizerScheduler T :=
  mkMinimizer base DEFAULT_SKIP_NON_FAVORED_PROB false.
Definition with_skip_prob {T} (base : T) (skip_non_favored_prob : f64) : MinimizerScheduler T :=
  mkMinimizer base skip_non_favored_prob true.

(** The map of [TopRatedsMetadata]. *)
Definition tops (s : State) : gmap usize CorpusId := default ∅ (m_top_rateds s).

(** ** Scores *)

Section Score.
Context `{F : TestcaseScore}.

(** [F::compute(state, &mut *entry)?] on the entry [id] of the corpus. *)
Definition score_entry (id : CorpusId) : M State f64 :=
  tc <- read_testcase id ;;
  s <- gets (λ s, s) ;;
  r <- lift (compute s tc) ;;
  change_testcase id (λ _, r.2) ;;;
  ret r.1.

(** The metadata of an entry, or an error. *)
Definition indexes_of (missing : CorpusId → Error) (id : CorpusId) : M State MapIndexesMetadata :=
  tc <- read_testcase id ;;
  lift (ok_or (tc_map_indexes tc) (missing id)).
Definition set_indexes (id : CorpusId) (m : option MapIndexesMetadata) : M State () :=
  change_testcase id (λ tc, tc <| tc_map_indexes := m |>).

Definition missing_own (id : CorpusId) : Error :=
  key_not_found "Metadata needed for MinimizerScheduler not found in testcase #{}" [ANat id].
Definition missing_other (id : CorpusId) : Error :=
  key_not_found "{} needed for MinimizerScheduler not found in testcase #{}"
    [AStr "libafl::feedbacks::map::MapIndexesMetadata"; ANat id].

(** One reference less; the last one takes the metadata with it. *)
Definition release (remove_metadata : bool) (old_id : CorpusId) : M State () :=
  old_meta <- indexes_of missing_other old_id ;;
  let refcnt := (tcref old_meta - 1)%Z in
  set_indexes old_id
    (if (refcnt <=? 0)%Z && remove_metadata then None else Some (old_meta <| tcref := refcnt |>)).

(** The loop over the indexes of the entry [id]: those it is the best entry for. *)
Fixpoint claim_elems (remove_metadata : bool) (id : CorpusId) (factor : f64) (top : gmap usize CorpusId)
    (elems : list usize) : M State (list usize) :=
  match elems with
  | [] => ret []
  | elem :: elems =>
    keep <- match top !! elem with
            | Some old_id =>
              if old_id =? id then ret true
              else
                old_factor <- score_entry old_id ;;
                if flt old_factor factor then ret false
                else release remove_metadata old_id ;;; ret true
            | None => ret true
            end ;;
    rest <- claim_elems remove_metadata id factor top elems ;;
    ret (if (keep : bool) then elem :: rest else rest)
  end.

Definition update_score (remove_metadata : bool) (id : CorpusId) : M State () :=
  modify (λ s, s <| m_top_rateds := Some (tops s) |>) ;;;
  factor <- score_entry id ;;
  meta <- indexes_of missing_own id ;;
  top <- gets tops ;;
  new_favoreds <- claim_elems remove_metadata id factor top (mi_list meta) ;;
  set_indexes id (Some (meta <| tcref := Z.of_nat (length new_favoreds) |>)) ;;;
  if bool_decide (new_favoreds = []) && remove_metadata then set_indexes id None
  else modify (λ s, s <| m_top_rateds := Some (foldl (λ t elem, <[elem := id]> t) (tops s) new_favoreds) |>).

(** ** Favoured entries *)

Fixpoint cull_loop (entries : list (usize * CorpusId)) (acc : gset usize) : M State () :=
  match entries with
  | [] => ret ()
  | (key, id) :: entries =>
    if decide (key ∈ acc) then cull_loop entries acc
    else
      meta <- indexes_of missing_other id ;;
      change_testcase id (λ tc, tc <| tc_favored := true |>) ;;;
      cull_loop entries (acc ∪ list_to_set (mi_list meta))
  end.

Context `{Env}.

Definition cull : M State () :=
  top_rated <- gets m_top_rateds ;;
  match top_rated with
  | Some map => cull_loop (hash_order (map_to_list map)) ∅
  | None => ret ()
  end.

(** ** Removal *)

(** The walk along two sorted lists: their common elements. *)
Fixpoint common (entries : list usize) : list usize → list usize :=
  fix walk (indexes : list usize) :=
    match entries, indexes with
    | e :: entries', me :: indexes' =>
      match Nat.compare e me with
      | Lt => common entries' indexes
      | Eq => e :: common entries' indexes'
      | Gt => walk indexes'
      end
    | _, _ => []
    end.

(** [map.entry(e).and_modify(..).or_insert((factor, current_id))] *)
Definition elect (factor : f64) (current_id : CorpusId) (best : gmap usize (f64 * CorpusId)) (e : usize) :
    gmap usize (f64 * CorpusId) :=
  <[e := match best !! e with
         | Some (f, id) => if flt factor f then (factor, current_id) else (f, id)
         | None => (factor, current_id)
         end]> best.

Fixpoint elect_all (entries : list usize) (ids : list CorpusId) (best : gmap usize (f64 * CorpusId)) :
    M State (gmap usize (f64 * CorpusId)) :=
  match ids with
  | [] => ret best
  | current_id :: ids =>
    factor <- score_entry current_id ;;
    old <- read_testcase current_id ;;
    let best := match tc_map_indexes old with
                | Some old_map => foldl (elect factor current_id) best (common entries (mi_list old_map))
                | None => best
                end in
    elect_all entries ids best
  end.

(** The new holders take their indexes, with one reference each. *)
Fixpoint crown (elected : list (usize * (f64 * CorpusId))) (map : gmap usize CorpusId) :
    M State (gmap usize CorpusId) :=
  match elected with
  | [] => ret map
  | (entry, (_, new_id)) :: elected =>
    new_meta <- indexes_of missing_other new_id ;;
    set_indexes new_id (Some (new_meta <| tcref := (tcref new_meta + 1)%Z |>)) ;;;
    crown elected (<[entry := new_id]> map)
  end.

Definition reassign (id : CorpusId) : M State () :=
  top_rated <- gets m_top_rateds ;;
  match top_rated with
  | None => ret ()
  | Some map =>
    let entries := sort_by Nat.compare (fst <$> filter (λ kv, kv.2 = id) (map_to_list map)) in
    modify (λ s, s <| m_top_rateds := Some (filter (λ kv, kv.2 ≠ id) map) |>) ;;;
    ids <- gets (λ s, InMemory.ids (corpus s)) ;;
    best <- elect_all entries ids ∅ ;;
    map <- gets tops ;;
    modify (λ s, s <| m_top_rateds := None |>) ;;;
    map <- crown (hash_order (map_to_list best)) map ;;
    modify (λ s, s <| m_top_rateds := Some map |>)
  end.

(** ** The scheduler *)

Context {T : Type} `{Scheduler T}.

Definition on_base {A} (m : M (Sched T) A) : M (Sched (MinimizerScheduler T)) A := λ w,
  let '(r, b) := m (mkSched (base (obj w)) (sst w)) in
  (r, mkSched ((obj w) <| base := obj b |>) (sst b)).

Definition removing (w : Sched (MinimizerScheduler T)) : bool := remove_metadata (obj w).

Definition on_add (id : CorpusId) : M (Sched (MinimizerScheduler T)) () :=
  on_base (sch_on_add id) ;;;
  b <- gets removing ;;
  on_sst (update_score b id).
Definition on_replace (id : CorpusId) : M (Sched (MinimizerScheduler T)) () :=
  on_base (sch_on_replace id) ;;;
  b <- gets removing ;;
  on_sst (update_score b id).
Definition on_remove (id : CorpusId) : M (Sched (MinimizerScheduler T)) () :=
  on_base (sch_on_remove id) ;;;
  on_sst (reassign id).
Definition on_evaluation (hash : option u64) : M (Sched (MinimizerScheduler T)) () :=
  on_base (sch_on_evaluation hash).

Definition is_favored (id : CorpusId) : M State bool :=
  tc <- read_testcase id ;; ret (tc_favored tc).
Definition rand_coinflip (success_prob : f64) : M State bool := λ s,
  let '(b, r) := coinflip success_prob (rand s) in (Ok b, s <| rand := r |>).

(** The loop of [next]: [None] after [fuel] skipped entries. *)
Fixpoint skip_loop (fuel : nat) (id : CorpusId) : M (Sched (MinimizerScheduler T)) (option CorpusId) :=
  favored <- on_sst (is_favored id) ;;
  if (favored : bool) then ret (Some id)
  else
    prob <- gets (λ w, skip_non_favored_prob (obj w)) ;;
    skip <- on_sst (rand_coinflip prob) ;;
    if (skip : bool) then
      match fuel with
      | O => ret None
      | S fuel => id <- on_base sch_next ;; skip_loop fuel id
      end
    else ret (Some id).

Definition next (fuel : nat) : M (Sched (MinimizerScheduler T)) (option CorpusId) :=
  on_sst cull ;;;
  id <- on_base sch_next ;;
  skip_loop fuel id.

(** The base scheduler has done it already. *)
Definition set_current_scheduled (next_id : option CorpusId) : M (Sched (MinimizerScheduler T)) () := ret ().
End Score.

(** ** Counting the indexes of an entry *)

Definition held (top : gmap usize CorpusId) (id : CorpusId) : nat :=
  size (filter (λ kv : usize * CorpusId, kv.2 = id) top).

Lemma held_fresh top e id x : top !! e = None →
  held (<[e := id]> top) x = held top x + if decide (x = id) then 1 else 0.
Proof.
  intros He. unfold held. case_decide as Hx.
  - subst x. rewrite map_filter_insert_True by done. rewrite map_size_insert_None; [lia|].
    apply map_lookup_filter_None. by left.
  - rewrite map_filter_insert_not'; [lia|cbn; congruence|]. intros y. by rewrite He.
Qed.

Lemma held_delete top e id : top !! e = Some id →
  ∀ x, held top x = held (delete e top) x + if decide (x = id) then 1 else 0.
Proof.
  intros He x. rewrite <-(insert_delete_id top e id He) at 1.
  apply held_fresh, lookup_delete_eq.
Qed.

(** An index changes hands. *)
Lemma held_insert top e id x :
  held (<[e := id]> top) x + (if decide (top !! e = Some x) then 1 else 0) =
  held top x + (if decide (x = id) then 1 else 0).
Proof.
  destruct (top !! e) as [old|] eqn:He.
  - rewrite <-(insert_delete_eq top), held_fresh by apply lookup_delete_eq.
    rewrite (held_delete top e old He x). repeat case_decide; simplify_eq; lia.
  - rewrite held_fresh by done. repeat case_decide; simplify_eq; lia.
Qed.

Lemma held_pos top e id : top !! e = Some id → 0 < held top id.
Proof. intros He. rewrite (held_delete top e id He id), decide_True by done. lia. Qed.

(** The number of the indexes an entry holds, given as a list. *)
Lemma held_list top id (l : list usize) : NoDup l → (∀ e, top !! e = Some id ↔ e ∈ l) → held top id = length l.
Proof.
  intros Hl Hin. unfold held. rewrite <-(size_dom (filter _ top)).
  assert (dom (filter (λ kv : usize * CorpusId, kv.2 = id) top) = list_to_set (C := gset usize) l) as ->.
  { apply set_eq. intros e. rewrite elem_of_dom, elem_of_list_to_set, <-Hin. split.
    - intros [x [Hx Hid]%map_lookup_filter_Some]. cbn in Hid. by subst.
    - intros He. exists id. by apply map_lookup_filter_Some. }
  by apply size_list_to_set.
Qed.

Lemma held_zero top id : held top id = 0 → ∀ e, top !! e ≠ Some id.
Proof. intros Hz e He. apply held_pos in He. lia. Qed.

(** ** What the score promises *)

(** The cost of a testcase is a value of the testcase alone, and neither the computation nor the
    bookkeeping of the scheduler changes it. *)
Class CostLaws (F : TestcaseScore) (scorable : Testcase → Prop) (cost : Testcase → f64) := {
  cost_compute : ∀ s tc, scorable tc → ∃ tc', compute s tc = Ok (cost tc, tc') ∧ scorable tc' ∧
    cost tc' = cost tc ∧ tc_map_indexes tc' = tc_map_indexes tc ∧ tc_favored tc' = tc_favored tc ∧
    tc_sched tc' = tc_sched tc ∧ tc_input tc' = tc_input tc;
  cost_bookkeeping : ∀ tc m b, scorable tc →
    scorable (tc <| tc_map_indexes := m |>) ∧ cost (tc <| tc_map_indexes := m |>) = cost tc ∧
    scorable (tc <| tc_favored := b |>) ∧ cost (tc <| tc_favored := b |>) = cost tc;
  cost_counters : ∀ tc n, scorable tc →
    scorable (tc <| objectives_found := n |>) ∧ cost (tc <| objectives_found := n |>) = cost tc ∧
    scorable (tc <| scheduled_count := n |>) ∧ cost (tc <| scheduled_count := n |>) = cost tc;
}.

(** The cost in milliseconds and bytes, for a testcase whose length is known. *)
Definition length_known (tc : Testcase) : Prop := is_Some (tc_input tc) ∨ is_Some (tc_cached_len tc).
Definition len_time_cost (tc : Testcase) : f64 :=
  let ms := match tc_exec_time tc with Some d => (d / 1000000)%Z | None => 1%Z end in
  fmul (of_Z ms) (of_nat match tc_input tc with
                         | Some i => length i
                         | None => default 0 (tc_cached_len tc)
                         end).
#[global] Instance len_time_cost_laws : CostLaws LenTimeMulTestcaseScore length_known len_time_cost.
Proof.
  split.
  - intros s tc Hk. unfold compute, LenTimeMulTestcaseScore, len_time_mul, load_len, len_time_cost.
    destruct (tc_input tc) as [i|] eqn:Ei.
    + eexists. split; [done|]. cbn. rewrite Ei. split_and!; [left; cbn; rewrite Ei; by eexists|done..].
    + destruct Hk as [[? ?]|[l Hl]]; [congruence|]. rewrite Hl. eexists. split; [done|].
      cbn [snd]. rewrite Ei, Hl. split_and!; [right; by exists l|done..].
  - done.
  - done.
Qed.

Import InMemoryFacts.

Section Facts.
Context `{F : TestcaseScore} {scorable : Testcase → Prop} {cost : Testcase → f64}.
Context `{!CostLaws F scorable cost}.

(** The indexes of an entry. *)
Definition idx (s : State) (id : CorpusId) : option MapIndexesMetadata := tc_at (corpus s) id ≫= tc_map_indexes.

(** A step of the bookkeeping: ids, current entry, costs and the metadata of the base scheduler
    stay; [favored] says whether favoured entries may be added. *)
Definition same_entry (favored : bool) (tc tc' : Testcase) : Prop :=
  scorable tc' ∧ cost tc' = cost tc ∧ tc_sched tc' = tc_sched tc ∧
  tc_input tc' = tc_input tc ∧
  (tc_favored tc = true → tc_favored tc' = true) ∧
  (favored = false → tc_favored tc' = tc_favored tc).
Definition touch (favored : bool) (s s' : State) : Prop :=
  corpus_frame s s' ∧ (cwf (corpus s) → cwf (corpus s')) ∧
  ∀ x, match tc_at (corpus s) x, tc_at (corpus s') x with
       | Some tc, Some tc' => scorable tc → same_entry favored tc tc'
       | None, None => True
       | _, _ => False
       end.

#[global] Instance touch_preorder favored : PreOrder (touch favored).
Proof.
  split.
  - intros s. split_and!; [reflexivity|done|]. intros x. destruct (tc_at _ x); [|done]. by intros ?; split_and!.
  - intros s1 s2 s3 (F1 & W1 & E1) (F2 & W2 & E2). split_and!; [by etrans|auto|]. intros x.
    specialize (E1 x). specialize (E2 x).
    destruct (tc_at (corpus s1) x), (tc_at (corpus s2) x), (tc_at (corpus s3) x); try done.
    intros Hs. destruct (E1 Hs) as (S1 & C1 & M1 & I1 & T1 & K1). destruct (E2 S1) as (S2 & C2 & M2 & I2 & T2 & K2).
    split_and!; [done|congruence|congruence|congruence|auto|]. intros Hf. rewrite (K2 Hf). auto.
Qed.

Lemma touch_tops favored s s' : touch favored s s' → m_top_rateds s' = m_top_rateds s.
Proof. intros [[-> _] _]. done. Qed.

Lemma touch_at favored s s' x tc : touch favored s s' → tc_at (corpus s) x = Some tc → scorable tc →
  ∃ tc', tc_at (corpus s') x = Some tc' ∧ same_entry favored tc tc'.
Proof.
  intros (_ & _ & E) Htc Hs. specialize (E x). rewrite Htc in E.
  destruct (tc_at (corpus s') x) as [tc'|]; [|done]. exists tc'. auto.
Qed.

(** A change of one entry in its cell. *)
Lemma change_touch favored id f s tc : cwf (corpus s) → tc_at (corpus s) id = Some tc →
  (scorable tc → same_entry favored tc (f tc)) →
  ∃ s', change_testcase id f s = (Ok (), s') ∧ touch favored s s' ∧
    ∀ x, tc_at (corpus s') x = if decide (x = id) then Some (f tc) else tc_at (corpus s) x.
Proof.
  intros C Htc Hf. unfold change_testcase.
  destruct (update_ok (corpus s) id f tc Htc) as (c' & Eu & Hw & Hi & Hc & Hl). rewrite Eu.
  eexists. split; [done|]. split; [|exact Hl].
  split_and!; [split_and!; [done|auto|done|by eapply update_disabled]|done|].
  intros x. cbn [corpus upd eta_State]. rewrite Hl. case_decide; [subst x; by rewrite Htc|].
  destruct (tc_at (corpus s) x); [|done]. by intros ?; split_and!.
Qed.

Lemma idx_at s id tc : tc_at (corpus s) id = Some tc → idx s id = tc_map_indexes tc.
Proof. intros Htc. unfold idx. by rewrite Htc. Qed.
Lemma idx_inv s id m : idx s id = Some m → ∃ tc, tc_at (corpus s) id = Some tc ∧ tc_map_indexes tc = Some m.
Proof. unfold idx. destruct (tc_at (corpus s) id) as [tc|]; [|done]. by exists tc. Qed.

Definition all_scorable (s : State) : Prop := ∀ id tc, tc_at (corpus s) id = Some tc → scorable tc.
Lemma touch_scorable favored s s' : touch favored s s' → all_scorable s → all_scorable s'.
Proof.
  intros (_ & _ & E) Hs id tc' Htc'. specialize (E id). rewrite Htc' in E.
  destruct (tc_at (corpus s) id) as [tc|] eqn:Htc; [|done]. by apply (E (Hs id tc Htc)).
Qed.

Lemma score_entry_ok id s tc : cwf (corpus s) → all_scorable s → tc_at (corpus s) id = Some tc →
  ∃ s', score_entry id s = (Ok (cost tc), s') ∧ touch false s s' ∧ ∀ x, idx s' x = idx s x.
Proof.
  intros C Hs Htc. unfold score_entry. unfold bind at 1, read_testcase.
  rewrite (proj2 (get_tc_at _ _ _) Htc). rewrite bind_gets. unfold bind at 1, lift.
  destruct (cost_compute s tc (Hs id tc Htc)) as (tc' & -> & Sc & Co & Mi & Fa & Sd & In).
  destruct (change_touch false id (λ _, tc') s tc C Htc) as (s' & Hch & Ht & Hl).
  { intros _. split_and!; [done|done|done|done|congruence|done]. }
  cbn [snd fst]. unfold bind, ret. rewrite Hch. exists s'. split_and!; [done|done|].
  intros x. unfold idx. rewrite Hl. case_decide; [|done]. subst x. rewrite Htc. cbn. done.
Qed.

Lemma set_indexes_ok id m s tc : cwf (corpus s) → tc_at (corpus s) id = Some tc →
  ∃ s', set_indexes id m s = (Ok (), s') ∧ touch false s s' ∧
    ∀ x, idx s' x = if decide (x = id) then m else idx s x.
Proof.
  intros C Htc. destruct (change_touch false id (λ tc, tc <| tc_map_indexes := m |>) s tc C Htc)
    as (s' & Hch & Ht & Hl).
  { intros Hs. destruct (cost_bookkeeping tc m true Hs) as (S1 & C1 & _). split_and!; done. }
  exists s'. split_and!; [done|done|]. intros x. unfold idx. rewrite Hl. by case_decide.
Qed.

Lemma indexes_of_ok missing id s m : idx s id = Some m → indexes_of missing id s = (Ok m, s).
Proof.
  intros (tc & Htc & Hm)%idx_inv. unfold indexes_of, bind, read_testcase, lift.
  by rewrite (proj2 (get_tc_at _ _ _) Htc), Hm.
Qed.
(** ** The reference counts *)

(** The entries other than [skip]: an index is held by an entry that has it, and the reference
    count is the number of indexes held. *)
Definition book (skip : CorpusId → Prop) (top : gmap usize CorpusId) (s : State) : Prop :=
  (∀ e x, ¬ skip x → top !! e = Some x → ∃ m, idx s x = Some m ∧ e ∈ mi_list m) ∧
  (∀ x m, ¬ skip x → idx s x = Some m → tcref m = Z.of_nat (held top x) ∧ NoDup (mi_list m)).

Lemma book_idx skip top s s' : (∀ x, idx s' x = idx s x) → book skip top s → book skip top s'.
Proof. intros Hi [B1 B2]. split; intros *; rewrite Hi; eauto. Qed.

(** An index that nobody else holds goes to a skipped entry. *)
Lemma book_take (skip : CorpusId → Prop) top s e id : skip id →
  (∀ x, top !! e = Some x → skip x) → book skip top s → book skip (<[e := id]> top) s.
Proof.
  intros Hid He [B1 B2]. split.
  - intros e' x Hx [[-> <-]|[Hne He']]%lookup_insert_Some; [done|]. by apply B1.
  - intros x m Hx Hm. destruct (B2 x m Hx Hm) as [Hr Hn]. split; [|done].
    pose proof (held_insert top e id x) as Hh.
    rewrite (decide_False (P := x = id)) in Hh by by intros ->.
    rewrite decide_False in Hh; [|intros Hex; by apply Hx, He]. lia.
Qed.

(** An index leaves its holder, whose count goes down; the metadata goes with the last one. *)
Lemma release_ok (skip : CorpusId → Prop) remove top s e old id :
  cwf (corpus s) → skip id → ¬ skip old → top !! e = Some old → book skip top s →
  ∃ s', release remove old s = (Ok (), s') ∧ touch false s s' ∧
    (∀ x, skip x → idx s' x = idx s x) ∧ book skip (<[e := id]> top) s'.
Proof.
  intros C Hid Hold He [B1 B2]. destruct (B1 e old Hold He) as (m & Hm & Hem).
  destruct (B2 old m Hold Hm) as [Hr Hn]. destruct (idx_inv _ _ _ Hm) as (tc & Htc & Htm).
  unfold release, bind. rewrite (indexes_of_ok _ _ _ _ Hm).
  set (m' := if _ && _ then None else _).
  destruct (set_indexes_ok old m' s tc C Htc) as (s' & -> & Ht & Hi).
  exists s'. split_and!; [done|done| |].
  { intros x Hx. rewrite Hi, decide_False; [done|]. by intros ->. }
  pose proof (held_pos top e old He) as Hpos.
  assert (held (<[e := id]> top) old + 1 = held top old) as Hh.
  { pose proof (held_insert top e id old) as Hh.
    rewrite decide_True in Hh by done. rewrite decide_False in Hh by by intros ->. lia. }
  split.
  - intros e' x Hx He'. pose proof He' as [[-> <-]|[Hne Het]]%lookup_insert_Some; [done|].
    destruct (B1 e' x Hx Het) as (mx & Hmx & Hemx). rewrite Hi. case_decide as Hxo; [|by exists mx].
    subst x. rewrite Hm in Hmx. injection Hmx as <-. apply held_pos in He'.
    unfold m'. destruct (Z.leb_spec (tcref m - 1) 0); [lia|]. by exists (m <| tcref := (tcref m - 1)%Z |>).
  - intros x mx Hx. rewrite Hi. case_decide as Hxo.
    + subst x. unfold m'. destruct (_ && _); [done|]. intros [= <-]. cbn. split; [lia|done].
    + intros Hmx. destruct (B2 x mx Hx Hmx) as [Hrx Hnx]. split; [|done].
      pose proof (held_insert top e id x) as Hhx. rewrite decide_False in Hhx by congruence.
      rewrite decide_False in Hhx by by intros ->. lia.
Qed.

(** Whether the entry [id] of cost [factor] takes over the index [e]. *)
Definition takes (s : State) (top : gmap usize CorpusId) (id : CorpusId) (factor : f64) (e : usize) : Prop :=
  match top !! e with
  | Some old => old = id ∨ ∃ tc, tc_at (corpus s) old = Some tc ∧ flt (cost tc) factor = false
  | None => True
  end.

Lemma takes_touch s s' top id factor e : all_scorable s → touch false s s' →
  takes s' top id factor e ↔ takes s top id factor e.
Proof.
  intros Hs (_ & _ & E). unfold takes. destruct (top !! e) as [old|]; [|done]. specialize (E old).
  destruct (tc_at (corpus s) old) as [tc|] eqn:Htc, (tc_at (corpus s') old) as [tc'|] eqn:Htc'; try done.
  destruct (E (Hs _ _ Htc)) as (_ & Hc & _).
  split; (intros [?|(t & [= <-] & Hf)]; [by left|right; eexists; split; [done|congruence]]).
Qed.

Lemma claim_ok remove id factor top elems tk s :
  cwf (corpus s) → all_scorable s → NoDup elems → (∀ e, e ∈ elems → tk !! e = top !! e) →
  book (eq id) tk s →
  ∃ fs s', claim_elems remove id factor top elems s = (Ok fs, s') ∧ touch false s s' ∧ idx s' id = idx s id ∧
    book (eq id) (foldl (λ t e, <[e := id]> t) tk fs) s' ∧
    NoDup fs ∧ ∀ e, e ∈ fs ↔ e ∈ elems ∧ takes s top id factor e.
Proof.
  revert tk s. induction elems as [|e elems IH]; intros tk s C Hs Hnd Htk HB.
  { exists [], s. split_and!; [done|reflexivity|done|done|constructor|].
    intros e. rewrite !elem_of_nil. naive_solver. }
  apply NoDup_cons in Hnd as [He Hnd]. cbn [claim_elems].
  assert (∃ keep s1, (match top !! e with
            | Some old_id =>
              if old_id =? id then ret true
              else
                old_factor <- score_entry old_id ;;
                if flt old_factor factor then ret false
                else release remove old_id ;;; ret true
            | None => ret true
            end) s = (Ok keep, s1) ∧ touch false s s1 ∧ idx s1 id = idx s id ∧
      book (eq id) (if keep then <[e := id]> tk else tk) s1 ∧ (keep = true ↔ takes s top id factor e))
    as (keep & s1 & Hrun & Ht1 & Hi1 & HB1 & Hk).
  { unfold takes. rewrite <-(Htk e) by left. destruct (tk !! e) as [old|] eqn:Etk.
    2: { exists true, s. split_and!; [done|reflexivity|done| |done]. apply book_take; [done| |done]. congruence. }
    destruct (Nat.eqb_spec old id) as [->|Hne].
    { exists true, s. split_and!; [done|reflexivity|done| |naive_solver].
      apply book_take; [done| |done]. intros x Hx. congruence. }
    destruct (proj1 HB e old) as (m & Hm & _); [congruence|done|].
    destruct (idx_inv _ _ _ Hm) as (tc & Htc & _).
    destruct (score_entry_ok old s tc C Hs Htc) as (sa & Hsc & Hta & Hia).
    unfold bind at 1. rewrite Hsc. destruct (flt (cost tc) factor) eqn:Ef.
    - exists false, sa. split_and!; [done|done|apply Hia|by eapply book_idx|]. naive_solver congruence.
    - destruct (release_ok (eq id) remove tk sa e old id) as (sb & Hrel & Htb & Hib & HBb);
        [by apply Hta|done|congruence|done|by eapply book_idx|].
      unfold bind. rewrite Hrel. exists true, sb. split_and!; [done|by etrans| |done|naive_solver].
      by rewrite Hib. }
  unfold bind at 1. rewrite Hrun.
  destruct (IH (if keep then <[e := id]> tk else tk) s1) as (fs & s' & Hrun' & Ht' & Hi' & HB' & Hnd' & Hfs).
  - by apply Ht1.
  - by eapply touch_scorable.
  - done.
  - intros e' He'. destruct keep; [|apply Htk; by right].
    rewrite lookup_insert_ne by (intros ->; done). apply Htk. by right.
  - done.
  - unfold bind. rewrite Hrun'. exists (if keep then e :: fs else fs), s'.
    assert (∀ e', e' ∈ fs ↔ e' ∈ elems ∧ takes s top id factor e') as Hfs'.
    { intros e'. rewrite Hfs. by rewrite takes_touch. }
    split_and!; [done|by etrans|congruence|by destruct keep| |].
    + destruct keep; [|done]. apply NoDup_cons. split; [|done]. by intros [? _]%Hfs'.
    + intros e'. rewrite elem_of_cons. destruct keep.
      * rewrite elem_of_cons, Hfs'. naive_solver.
      * rewrite Hfs'. split; [naive_solver|]. intros [[->|?] ?]; naive_solver.
Qed.
(** ** The state of the scheduler *)

Definition min_inv (s : State) : Prop :=
  cwf (corpus s) ∧ all_scorable s ∧ book (λ _, False) (tops s) s.

(** Only the corpus and the top-rated map change. *)
Definition moved (favored : bool) (s s' : State) : Prop :=
  touch favored (s <| m_top_rateds := m_top_rateds s' |>) s'.

Lemma touch_set_top favored s s' t : touch favored s s' →
  touch favored (s <| m_top_rateds := t |>) (s' <| m_top_rateds := t |>).
Proof. intros ((E & I & Cu & D) & W & H). split_and!; [|done|done]. split_and!; [|done|done|done]. by rewrite E. Qed.

Lemma book_weaken (skip skip' : CorpusId → Prop) top s : (∀ x, skip x → skip' x) →
  book skip top s → book skip' top s.
Proof. intros Hw [B1 B2]. split; intros; [eapply B1|eapply B2]; eauto. Qed.

Lemma foldl_insert_lookup (id : CorpusId) fs (top : gmap usize CorpusId) e :
  foldl (λ t e, <[e := id]> t) top fs !! e = if decide (e ∈ fs) then Some id else top !! e.
Proof.
  revert top. induction fs as [|f fs IH]; intros top; [done|]. cbn [foldl]. rewrite IH.
  destruct (decide (e ∈ fs)) as [Hin|Hin].
  - rewrite decide_True; [done|by right].
  - destruct (decide (e = f)) as [->|Hne].
    + rewrite lookup_insert_eq, decide_True; [done|left].
    + rewrite lookup_insert_ne by done. rewrite decide_False; [done|]. by intros [?|?]%elem_of_cons.
Qed.

(** The books of the other entries, and those of [id] itself. *)
Lemma book_close id top s l : book (eq id) top s → NoDup l → (∀ e, top !! e = Some id ↔ e ∈ l) →
  (∀ m, idx s id = Some m → tcref m = Z.of_nat (length l) ∧ NoDup (mi_list m)) →
  (l ≠ [] → ∃ m, idx s id = Some m ∧ ∀ e, e ∈ l → e ∈ mi_list m) →
  book (λ _, False) top s.
Proof.
  intros [B1 B2] Hl Hin Hm Hlm. split.
  - intros e x _ Hx. destruct (decide (id = x)) as [<-|Hne]; [|by apply B1].
    apply Hin in Hx. destruct Hlm as (m & Hi & Hsub); [by intros ->; apply elem_of_nil in Hx|].
    exists m. auto.
  - intros x m _ Hx. destruct (decide (id = x)) as [<-|Hne]; [|by apply B2].
    rewrite (held_list _ _ _ Hl Hin). auto.
Qed.

Lemma update_score_ok remove id s tc m :
  min_inv s → tc_at (corpus s) id = Some tc → tc_map_indexes tc = Some m →
  ∃ s', update_score remove id s = (Ok (), s') ∧ min_inv s' ∧ is_Some (m_top_rateds s') ∧ moved false s s' ∧
    (∀ e, e ∈ mi_list m → takes s (tops s) id (cost tc) e → tops s' !! e = Some id) ∧
    (∀ e, ¬ (e ∈ mi_list m ∧ takes s (tops s) id (cost tc) e) → tops s' !! e = tops s !! e).
Proof.
  intros (C & Hs & HB) Htc Htm. unfold update_score. rewrite bind_modify.
  set (s0 := s <| m_top_rateds := _ |>).
  destruct (score_entry_ok id s0 tc C Hs Htc) as (s1 & Hsc & Ht1 & Hi1).
  assert (tops s1 = tops s) as Htop. { unfold tops. by rewrite (touch_tops _ _ _ Ht1). }
  assert (idx s1 id = Some m) as Hidx. { rewrite Hi1. unfold idx. cbn. by rewrite Htc. }
  assert (cwf (corpus s1)) as C1 by by apply Ht1.
  assert (all_scorable s1) as Hs1 by by eapply touch_scorable.
  assert (book (λ _, False) (tops s) s1) as HB1 by by eapply book_idx, HB.
  unfold bind at 1. rewrite Hsc. unfold bind at 1. rewrite (indexes_of_ok _ _ _ _ Hidx).
  rewrite bind_gets, Htop. pose proof (proj2 HB1 id m (λ H, H) Hidx) as [_ Hnd].
  destruct (claim_ok remove id (cost tc) (tops s) (mi_list m) (tops s) s1)
    as (fs & s2 & Hcl & Ht2 & Hi2 & HB2 & Hndf & Hfs); [done..|by eapply book_weaken, HB1|].
  unfold bind at 1. rewrite Hcl.
  assert (∀ e, e ∈ fs ↔ e ∈ mi_list m ∧ takes s (tops s) id (cost tc) e) as Hfs'.
  { intros e. rewrite Hfs. by rewrite (takes_touch s0 s1). }
  set (top' := foldl _ _ fs) in HB2. assert (cwf (corpus s2)) as C2 by by apply Ht2.
  destruct (idx_inv s2 id m) as (tc2 & Htc2 & _); [congruence|].
  destruct (set_indexes_ok id (Some (m <| tcref := Z.of_nat (length fs) |>)) s2 tc2 C2 Htc2)
    as (s3 & Hset & Ht3 & Hi3).
  unfold bind at 1. rewrite Hset.
  assert (touch false s0 s3) as Ht03 by (etrans; [exact Ht1|]; by etrans).
  assert (tops s3 = tops s) as Htop3. { unfold tops. by rewrite (touch_tops _ _ _ Ht03). }
  assert (∀ e, top' !! e = Some id ↔ e ∈ fs) as Hid.
  { intros e. unfold top'. rewrite foldl_insert_lookup. case_decide as Hin; [done|]. split; [|done].
    intros He. destruct (proj1 HB1 e id (λ H, H) He) as (m' & Hm' & Hem). rewrite Hidx in Hm'. injection Hm' as <-.
    apply Hfs'. split; [done|]. unfold takes. rewrite He. by left. }
  assert ((∀ e, e ∈ mi_list m → takes s (tops s) id (cost tc) e → top' !! e = Some id) ∧
    (∀ e, ¬ (e ∈ mi_list m ∧ takes s (tops s) id (cost tc) e) → top' !! e = tops s !! e)) as Hres.
  { unfold top'. split; intros e; rewrite foldl_insert_lookup.
    - intros Hem Htk. by rewrite decide_True by by apply Hfs'.
    - intros Hno. by rewrite decide_False by by rewrite Hfs'. }
  assert (∀ s4 om, (∀ x, idx s4 x = if decide (x = id) then om else idx s2 x) →
    (om = None ∧ fs = [] ∨ om = Some (m <| tcref := Z.of_nat (length fs) |>)) →
    book (λ _, False) top' s4) as Hbook.
  { intros s4 om Hi4 Hom. apply (book_close id _ _ fs); [|done|done| |].
    - split; intros x; intros * Hx; [intros Hk; rewrite Hi4, decide_False by congruence; by eapply HB2|].
      rewrite Hi4, decide_False by congruence. by apply HB2.
    - intros mm. rewrite Hi4, decide_True by done. intros ->. destruct Hom as [[? _]|Hom]; [done|]. injection Hom as ->. by split.
    - intros Hne. rewrite Hi4, decide_True by done. destruct Hom as [[_ ?]| ->]; [done|]. eexists. split; [done|].
      intros e He. by apply Hfs' in He as [He _]. }
  destruct (bool_decide (fs = []) && remove) eqn:Eb.
  - apply andb_true_iff in Eb as [Hfsn%bool_decide_eq_true _]. subst fs.
    destruct (touch_at false s2 s3 id tc2 Ht3 Htc2) as (tc3 & Htc3 & _).
    { eapply (touch_scorable false s1 s2 Ht2 Hs1). exact Htc2. }
    destruct (set_indexes_ok id None s3 tc3) as (s4 & -> & Ht4 & Hi4); [by apply Ht3|done|].
    assert (touch false s0 s4) as Ht04 by by etrans.
    pose proof (touch_tops _ _ _ Ht04) as Hm4.
    exists s4. split_and!; [done| | | | |].
    + split_and!; [by apply Ht4, Ht3|by eapply touch_scorable|].
      replace (tops s4) with top' by (unfold tops; by rewrite Hm4).
      apply (Hbook s4 None); [|by left]. intros x. rewrite Hi4, Hi3. by case_decide.
    + rewrite Hm4. by eexists.
    + unfold moved. by rewrite Hm4.
    + intros e He Htk. replace (tops s4) with top' by (unfold tops; by rewrite Hm4). by apply Hres.
    + intros e He. replace (tops s4) with top' by (unfold tops; by rewrite Hm4). by apply Hres.
  - unfold modify. rewrite Htop3. fold top'. set (s4 := s3 <| m_top_rateds := Some top' |>).
    exists s4. split_and!; [done| |by eexists| |by apply Hres|by apply Hres].
    + split_and!; [by apply Ht3| |].
      * intros x tcx Hx. by apply (touch_scorable false s0 s3 Ht03 Hs x tcx).
      * apply (Hbook s4 (Some (m <| tcref := Z.of_nat (length fs) |>))); [exact Hi3|by right].
    + by apply (touch_set_top false s0 s3).
Qed.
(** ** Favoured entries cover all indexes *)

(** A favoured entry reaches the index [k]. *)
Definition fav_covers (s : State) (k : usize) : Prop :=
  ∃ x tc m, tc_at (corpus s) x = Some tc ∧ tc_favored tc = true ∧ tc_map_indexes tc = Some m ∧ k ∈ mi_list m.

Lemma fav_covers_touch s s' k : touch true s s' → all_scorable s → (∀ x, idx s' x = idx s x) →
  fav_covers s k → fav_covers s' k.
Proof.
  intros Ht Hs Hi (x & tc & m & Htc & Hf & Hm & Hk).
  destruct (touch_at true s s' x tc Ht Htc) as (tc' & Htc' & (_ & _ & _ & _ & Hf' & _)); [by eapply Hs|].
  exists x, tc', m. split_and!; [done|auto| |done].
  specialize (Hi x). unfold idx in Hi. rewrite Htc, Htc' in Hi. cbn in Hi. congruence.
Qed.

Lemma touch_min_inv favored s s' : touch favored s s' → (∀ x, idx s' x = idx s x) → min_inv s → min_inv s'.
Proof.
  intros Ht Hi (C & Hs & HB). split_and!; [by apply Ht|by eapply touch_scorable|].
  eapply book_idx; [exact Hi|]. unfold tops. by rewrite (touch_tops _ _ _ Ht).
Qed.

Lemma favor_ok id s tc : cwf (corpus s) → tc_at (corpus s) id = Some tc →
  ∃ s', change_testcase id (λ tc, tc <| tc_favored := true |>) s = (Ok (), s') ∧ touch true s s' ∧
    (∀ x, idx s' x = idx s x) ∧ ∃ tc', tc_at (corpus s') id = Some tc' ∧ tc_favored tc' = true.
Proof.
  intros C Htc. destruct (change_touch true id (λ tc, tc <| tc_favored := true |>) s tc C Htc) as (s' & Hch & Ht & Hl).
  { intros Hs. destruct (cost_bookkeeping tc None true Hs) as (_ & _ & S1 & C1). split_and!; done. }
  exists s'. split_and!; [done|done| |].
  - intros x. unfold idx. rewrite Hl. case_decide; [|done]. subst x. by rewrite Htc.
  - eexists. rewrite Hl, decide_True by done. done.
Qed.

Lemma cull_loop_ok entries acc s : min_inv s → (∀ k x, (k, x) ∈ entries → tops s !! k = Some x) →
  (∀ k, k ∈ acc → fav_covers s k) →
  ∃ s', cull_loop entries acc s = (Ok (), s') ∧ touch true s s' ∧ (∀ x, idx s' x = idx s x) ∧
    (∀ k, k ∈ acc → fav_covers s' k) ∧ (∀ k x, (k, x) ∈ entries → fav_covers s' k).
Proof.
  revert acc s. induction entries as [|[k x] entries IH]; intros acc s Hinv Hent Hacc; cbn [cull_loop].
  { exists s. split_and!; [done|reflexivity|done|done|]. intros k x Hk. by apply elem_of_nil in Hk. }
  destruct (decide (k ∈ acc)) as [Hk|Hk].
  - destruct (IH acc s Hinv) as (s' & Hrun & Ht & Hi & Ha & He); [|done|].
    { intros k' x' Hin. apply Hent. by right. }
    exists s'. split_and!; [done|done|done|done|].
    intros k' x' [[= -> ->]|Hin]%elem_of_cons; [by apply Ha|by eapply He].
  - destruct Hinv as (C & Hs & HB). destruct (proj1 HB k x (λ H, H) (Hent k x ltac:(left))) as (m & Hm & Hkm).
    destruct (idx_inv _ _ _ Hm) as (tc & Htc & Htm).
    unfold bind at 1. rewrite (indexes_of_ok _ _ _ _ Hm).
    destruct (favor_ok x s tc C Htc) as (s1 & Hch & Ht1 & Hi1 & tc1 & Htc1 & Hf1).
    unfold bind at 1. rewrite Hch.
    assert (∀ k', k' ∈ mi_list m → fav_covers s1 k') as Hnew.
    { intros k' Hk'. exists x, tc1, m. split_and!; [done|done| |done].
      specialize (Hi1 x). rewrite Hm in Hi1. unfold idx in Hi1. by rewrite Htc1 in Hi1. }
    destruct (IH (acc ∪ list_to_set (mi_list m)) s1) as (s' & Hrun & Ht & Hi & Ha & He).
    + eapply touch_min_inv; [done..|]. by split_and!.
    + intros k' x' Hin. unfold tops. rewrite (touch_tops _ _ _ Ht1). apply Hent. by right.
    + intros k' [Hk'|Hk'%elem_of_list_to_set]%elem_of_union; [|by apply Hnew].
      by eapply fav_covers_touch, Hacc.
    + exists s'. split_and!; [done|by etrans|intros y; by rewrite Hi, Hi1| |].
      * intros k' Hk'. apply Ha, elem_of_union. by left.
      * intros k' x' [[= -> ->]|Hin]%elem_of_cons; [|by eapply He].
        apply Ha, elem_of_union. right. by apply elem_of_list_to_set.
Qed.

Section Cull.
Context `{Env, !EnvLaws _}.

Lemma cull_ok s : min_inv s →
  ∃ s', cull s = (Ok (), s') ∧ min_inv s' ∧ touch true s s' ∧ (∀ x, idx s' x = idx s x) ∧
    ∀ k, is_Some (tops s' !! k) → fav_covers s' k.
Proof.
  intros Hinv. unfold cull. rewrite bind_gets. destruct (m_top_rateds s) as [top|] eqn:Etop.
  - destruct (cull_loop_ok (hash_order (map_to_list top)) ∅ s Hinv) as (s' & Hrun & Ht & Hi & _ & He).
    + intros k x. rewrite hash_order_perm. intros Hin%elem_of_map_to_list. unfold tops. by rewrite Etop.
    + intros k Hk. by apply elem_of_empty in Hk.
    + exists s'. split_and!; [done|by eapply touch_min_inv|done|done|]. intros k [x Hx].
      unfold tops in Hx. rewrite (touch_tops _ _ _ Ht), Etop in Hx.
      apply (He k x). rewrite hash_order_perm. by apply elem_of_map_to_list.
  - exists s. split_and!; [done|done|reflexivity|done|]. unfold tops. rewrite Etop. cbn.
    intros k. rewrite lookup_empty. by intros [].
Qed.
End Cull.
(** ** What the base scheduler promises *)

(** The base scheduler leaves the bookkeeping of the minimizer alone. *)
Definition same_book (tc tc' : Testcase) : Prop :=
  tc_map_indexes tc' = tc_map_indexes tc ∧ tc_favored tc' = tc_favored tc ∧
  tc_input tc' = tc_input tc ∧ (scorable tc → scorable tc' ∧ cost tc' = cost tc).
(** The entries and their inputs are the same. *)
Definition same_inputs (c c' : Corpus) : Prop :=
  same_disabled c c' ∧ ∀ x t', tc_at c' x = Some t' → ∃ t, tc_at c x = Some t ∧ tc_input t' = tc_input t.
Lemma same_inputs_refl c : same_inputs c c.
Proof. split; [done|]. intros x t' Ht. by exists t'. Qed.
Lemma same_inputs_trans c1 c2 c3 : same_inputs c1 c2 → same_inputs c2 c3 → same_inputs c1 c3.
Proof.
  intros [D1 K1] [D2 K2]. unfold same_inputs, same_disabled in *. split; [congruence|]. intros x t3 Ht3.
  destruct (K2 x t3 Ht3) as (t2 & Ht2 & ->). by apply K1.
Qed.
Definition bframe (s s' : State) : Prop :=
  m_top_rateds s' = m_top_rateds s ∧ outside s s' ∧
  (cwf (corpus s) → cwf (corpus s') ∧ InMemory.ids (corpus s') = InMemory.ids (corpus s)) ∧
  same_disabled (corpus s) (corpus s') ∧
  ∀ x, match tc_at (corpus s) x, tc_at (corpus s') x with
       | Some tc, Some tc' => same_book tc tc'
       | None, None => True
       | _, _ => False
       end.

#[global] Instance bframe_preorder : PreOrder bframe.
Proof.
  split.
  - intros s. split; [done|]. split; [done|]. split; [done|]. split; [done|]. intros x. by destruct (tc_at _ x).
  - intros s1 s2 s3 (T1 & O1 & W1 & D1 & E1) (T2 & O2 & W2 & D2 & E2). unfold same_disabled in *.
    split; [congruence|]. split; [by etrans|]. split; [|split; [congruence|]].
    + intros C. destruct (W1 C) as [C2 I2]. destruct (W2 C2) as [C3 I3]. split; [done|congruence].
    + intros x. specialize (E1 x). specialize (E2 x).
      destruct (tc_at (corpus s1) x), (tc_at (corpus s2) x), (tc_at (corpus s3) x); try done.
      destruct E1 as (M1 & F1 & I1 & S1), E2 as (M2 & F2 & I2 & S2). split_and!; [congruence..|].
      intros Hs. destruct (S1 Hs) as [Hs2 C2]. destruct (S2 Hs2) as [Hs3 C3]. split; [done|congruence].
Qed.

Lemma bframe_idx s s' x : bframe s s' → idx s' x = idx s x.
Proof.
  intros (_ & _ & _ & _ & E). specialize (E x). unfold idx.
  destruct (tc_at (corpus s) x), (tc_at (corpus s') x); try done.
  destruct E as (E & _). exact E.
Qed.

Lemma bframe_inputs s s' : bframe s s' → same_inputs (corpus s) (corpus s').
Proof.
  intros (_ & _ & _ & D & E). split; [done|]. intros x t' Ht'. specialize (E x). rewrite Ht' in E.
  destruct (tc_at (corpus s) x) as [t|]; [|done]. exists t. by destruct E as (_ & _ & -> & _).
Qed.
Lemma touch_inputs favored s s' : touch favored s s' → all_scorable s → same_inputs (corpus s) (corpus s').
Proof.
  intros ((_ & _ & _ & D) & _ & Hx) Hs. split; [done|]. intros x t' Ht'. specialize (Hx x). rewrite Ht' in Hx.
  destruct (tc_at (corpus s) x) as [t|] eqn:Ht; [|done]. exists t. by destruct (Hx (Hs x t Ht)) as (_ & _ & _ & -> & _).
Qed.

Lemma bframe_min_inv s s' : bframe s s' → min_inv s → min_inv s'.
Proof.
  intros Hb (C & Hs & HB). split_and!; [by apply Hb| |].
  - intros x tc' Htc'. destruct Hb as (_ & _ & _ & _ & E). specialize (E x). rewrite Htc' in E.
    destruct (tc_at (corpus s) x) as [tc|] eqn:Htc; [|done]. by apply E, (Hs x).
  - eapply book_idx; [intros x; by apply bframe_idx|]. unfold tops. by rewrite (proj1 Hb).
Qed.

Lemma bframe_covers s s' k : bframe s s' → fav_covers s k → fav_covers s' k.
Proof.
  intros (_ & _ & _ & _ & E) (x & tc & m & Htc & Hf & Hm & Hk). specialize (E x). rewrite Htc in E.
  destruct (tc_at (corpus s') x) as [tc'|] eqn:Htc'; [|done]. destruct E as (M1 & F1 & _).
  exists x, tc', m. split_and!; [done|congruence|congruence|done].
Qed.

Lemma sched_part_min_inv s s' : sched_part s s' → min_inv s → min_inv s'.
Proof.
  intros (Hc & Ht & _) (C & Hs & HB). unfold min_inv, all_scorable, tops. rewrite Hc, Ht. split_and!; [done|done|].
  eapply book_idx; [|exact HB]. intros x. unfold idx. by rewrite Hc.
Qed.

Lemma moved_outside favored s s' : moved favored s s' → outside s s'.
Proof. intros ((E & _) & _). rewrite E. done. Qed.

(** [binv] is what the base scheduler needs; it is not disturbed by the bookkeeping. *)
Class BaseLaws {T : Type} (B : Scheduler T) (binv : Sched T → Prop) := {
  base_next : ∀ w, binv w → InMemory.ids (corpus (sst w)) ≠ [] →
    ∃ id w', sch_next w = (Ok id, w') ∧ id ∈ InMemory.ids (corpus (sst w)) ∧ binv w' ∧ bframe (sst w) (sst w');
  base_add : ∀ w tc id c, binv w → InMemory.add tc (corpus (sst w)) = Ok (id, c) →
    (Z.of_nat (InMemory.count (corpus (sst w))) < u64_max)%Z →
    ∃ w', sch_on_add id (mkSched (obj w) ((sst w) <| corpus := c |>)) = (Ok (), w') ∧ binv w' ∧
      bframe ((sst w) <| corpus := c |>) (sst w');
  base_moved : ∀ o s s' favored, binv (mkSched o s) → moved favored s s' → all_scorable s → binv (mkSched o s');
  base_evaluation : ∀ w h, binv w →
    ∃ w', sch_on_evaluation (Some h) w = (Ok (), w') ∧ binv w' ∧ bframe (sst w) (sst w');
  base_frame : ∀ o s s', binv (mkSched o s) → sched_part s s' → binv (mkSched o s');
  base_rand : ∀ o s r, binv (mkSched o s) → rand_inv r → binv (mkSched o (s <| rand := r |>));
  base_rand_inv : ∀ w, binv w → rand_inv (rand (sst w));
  base_cwf : ∀ w, binv w → cwf (corpus (sst w));
}.

Section Sched.
Context `{Env, !EnvLaws _} {T : Type} `{B : Scheduler T} {binv : Sched T → Prop} `{!BaseLaws B binv}.

Definition base_of (w : Sched (MinimizerScheduler T)) : Sched T := mkSched (base (obj w)) (sst w).

(** The state of the two schedulers together. *)
Definition full_inv (w : Sched (MinimizerScheduler T)) : Prop := binv (base_of w) ∧ min_inv (sst w).

Lemma on_base_ok {A} (m : M (Sched T) A) w r b :
  m (base_of w) = (r, b) → on_base m w = (r, mkSched ((obj w) <| base := obj b |>) (sst b)).
Proof. intros Hm. unfold on_base. fold (base_of w). by rewrite Hm. Qed.

Lemma min_next_step w : full_inv w → InMemory.ids (corpus (sst w)) ≠ [] →
  ∃ id w', on_base sch_next w = (Ok id, w') ∧ id ∈ InMemory.ids (corpus (sst w)) ∧ full_inv w' ∧
    bframe (sst w) (sst w') ∧ skip_non_favored_prob (obj w') = skip_non_favored_prob (obj w) ∧
    remove_metadata (obj w') = remove_metadata (obj w).
Proof.
  intros [Hb Hm] Hne. destruct (base_next (base_of w) Hb Hne) as (id & b & Hrun & Hid & Hb' & Hf).
  eexists id, _. split; [by apply on_base_ok|]. cbn [obj sst]. split_and!; [done| |done|done|done].
  split; [by destruct b|by eapply bframe_min_inv].
Qed.

Lemma is_favored_ok w id tc : tc_at (corpus (sst w)) id = Some tc →
  on_sst (T := MinimizerScheduler T) (is_favored id) w = (Ok (tc_favored tc), w).
Proof.
  intros Htc. unfold on_sst, is_favored, bind, read_testcase, ret.
  rewrite (proj2 (get_tc_at _ _ _) Htc). by destruct w.
Qed.

Lemma coin_ok prob w : full_inv w →
  ∃ b w', on_sst (rand_coinflip prob) w = (Ok b, w') ∧ full_inv w' ∧ bframe (sst w) (sst w').
Proof.
  intros [Hb Hm]. unfold on_sst, rand_coinflip, coinflip.
  destruct (next_float_unit (rand (sst w)) (base_rand_inv (base_of w) Hb)) as (_ & _ & _ & Hr).
  destruct (next_float (rand (sst w))) as [x r]. cbn [snd] in Hr.
  eexists _, _. split; [done|]. destruct w as [o s]. cbn [sst obj upd eta_Sched] in *.
  assert (bframe s (s <| rand := r |>)) as Hf.
  { do 4 (split; [done|]). intros y. cbn. by destruct (tc_at (corpus s) y). }
  split; [|done]. split; [by apply base_rand|by eapply bframe_min_inv].
Qed.

Lemma bframe_at s s' x tc' : bframe s s' → tc_at (corpus s') x = Some tc' →
  ∃ tc, tc_at (corpus s) x = Some tc ∧ tc_favored tc = tc_favored tc'.
Proof.
  intros (_ & _ & _ & _ & E) Htc'. specialize (E x). rewrite Htc' in E.
  destruct (tc_at (corpus s) x) as [tc|]; [|done]. exists tc. by destruct E as (_ & -> & _).
Qed.

(** The loop ends with an entry of the corpus; it runs out of fuel only when the corpus has
    an entry that is not favoured. *)
Lemma skip_loop_ok fuel id w : full_inv w → id ∈ InMemory.ids (corpus (sst w)) →
  ∃ r w', skip_loop fuel id w = (Ok r, w') ∧ full_inv w' ∧ bframe (sst w) (sst w') ∧
    (∀ x, r = Some x → x ∈ InMemory.ids (corpus (sst w))) ∧
    (r = None → ∃ x tc, tc_at (corpus (sst w)) x = Some tc ∧ tc_favored tc = false).
Proof.
  revert id w. induction fuel as [|fuel IH]; intros id w Hw Hid;
    pose proof (base_cwf _ (proj1 Hw)) as C; pose proof (proj2 (tc_at_ids _ _ C) Hid) as [tc Htc];
    cbn [skip_loop]; unfold bind at 1; rewrite (is_favored_ok w id tc Htc);
    destruct (tc_favored tc) eqn:Ef;
    try (exists (Some id), w; split_and!; [done|done|reflexivity|by intros x [= <-]|done]);
    rewrite bind_gets; unfold bind at 1;
    destruct (coin_ok (skip_non_favored_prob (obj w)) w Hw) as (b & w1 & -> & Hw1 & Hf1);
    (destruct b; [|exists (Some id), w1; split_and!; [done|done|done|by intros x [= <-]|done]]).
  - exists None, w1. split_and!; [done|done|done|done|]. intros _. by exists id, tc.
  - pose proof (proj1 (proj2 (proj2 Hf1))) as Hids. destruct (Hids C) as [C1 Hi1].
    assert (InMemory.ids (corpus (sst w1)) ≠ []) as Hne.
    { intros Hn. rewrite <-Hi1, Hn in Hid. by apply elem_of_nil in Hid. }
    destruct (min_next_step w1 Hw1 Hne) as (id2 & w2 & Hrun2 & Hid2 & Hw2 & Hf2 & _).
    unfold bind. rewrite Hrun2. destruct (proj1 (proj2 (proj2 Hf2)) C1) as [C2 Hi2].
    destruct (IH id2 w2 Hw2) as (r & w' & Hrun & Hw' & Hf' & Hr & Hn); [by rewrite Hi2|].
    exists r, w'. split_and!; [done|done|by do 2 (etrans; [eassumption|])| |].
    + intros x Hx. rewrite <-Hi1, <-Hi2. by apply Hr.
    + intros _. by exists id, tc.
Qed.

Lemma min_next_ok fuel w : full_inv w → InMemory.ids (corpus (sst w)) ≠ [] →
  ∃ r w', next fuel w = (Ok r, w') ∧ full_inv w' ∧ tops (sst w') = tops (sst w) ∧
    InMemory.ids (corpus (sst w')) = InMemory.ids (corpus (sst w)) ∧
    (∀ x, idx (sst w') x = idx (sst w) x) ∧
    (∀ k, is_Some (tops (sst w') !! k) → fav_covers (sst w') k) ∧
    (∀ x, r = Some x → x ∈ InMemory.ids (corpus (sst w))) ∧
    (r = None → ∃ x tc, tc_at (corpus (sst w')) x = Some tc ∧ tc_favored tc = false) ∧
    outside (sst w) (sst w') ∧ same_inputs (corpus (sst w)) (corpus (sst w')).
Proof.
  intros [Hb Hm] Hne. pose proof (base_cwf _ Hb) as C. cbn [base_of sst] in C.
  destruct (cull_ok (sst w) Hm) as (s1 & Hcull & Hm1 & Ht1 & Hi1 & Hcov).
  unfold next. unfold bind at 1, on_sst at 1. rewrite Hcull. destruct w as [o s]. cbn [sst obj upd eta_Sched] in *.
  set (w1 := mkSched o s1). change ((mkSched o s) <| sst := s1 |>) with w1.
  assert (full_inv w1) as Hw1.
  { split; [|done]. apply (base_moved (base o) s s1 true); [done| |by apply Hm].
    unfold moved. rewrite (touch_tops _ _ _ Ht1). by destruct s. }
  pose proof Ht1 as ((_ & Hids1 & _) & _ & _).
  destruct (min_next_step w1 Hw1) as (id & w2 & Hrun2 & Hid2 & Hw2 & Hf2 & _).
  { cbn [w1 sst]. by rewrite Hids1. }
  unfold bind at 1. rewrite Hrun2. destruct (proj1 (proj2 (proj2 Hf2))) as [C2 Hi2]; [by apply Ht1|]. cbn [w1 sst] in *.
  destruct (skip_loop_ok fuel id w2 Hw2) as (r & w' & Hrun & Hw' & Hf' & Hr & Hn); [by rewrite Hi2|].
  assert (bframe s1 (sst w')) as Hf by by etrans. destruct (proj1 (proj2 (proj2 Hf))) as [C' Hi']; [by apply Ht1|].
  assert (tops (sst w') = tops s1) as Htp by (unfold tops; by rewrite (proj1 Hf)).
  exists r, w'. do 2 (split; [done|]). refine (conj _ (conj _ (conj _ (conj _ (conj _ (conj _ (conj _ _))))))); [|congruence|..].
  - rewrite Htp. unfold tops. by rewrite (touch_tops _ _ _ Ht1).
  - intros x. by rewrite (bframe_idx _ _ x Hf).
  - intros k Hk. rewrite Htp in Hk. by eapply bframe_covers, Hcov.
  - intros x Hx. rewrite <-Hids1, <-Hi2. by apply Hr.
  - intros Hx. destruct (Hn Hx) as (x & tc & Htc & Hf0). exists x.
    destruct Hf' as (_ & _ & _ & _ & E). specialize (E x). rewrite Htc in E.
    destruct (tc_at (corpus (sst w')) x) as [tc'|]; [|done]. exists tc'. split; [done|].
    destruct E as (_ & -> & _). done.
  - etrans; [|exact (proj1 (proj2 Hf))]. destruct Ht1 as ((E & _) & _). rewrite E. done.
  - eapply same_inputs_trans; [apply (touch_inputs _ _ _ Ht1), Hm|by apply bframe_inputs].
Qed.
(** ** Storing an entry *)

(** An interesting testcase as the map feedback leaves it. *)
Definition indexed (tc : Testcase) (l : list usize) : Prop :=
  tc_map_indexes tc = Some (MapIndexesMetadata_new l) ∧ NoDup l ∧ scorable tc.

Lemma min_inv_add s tc l id c :
  min_inv s → indexed tc l → cwf c → id ∉ InMemory.ids (corpus s) → tc_at c id = Some tc →
  (∀ x, x ≠ id → tc_at c x = tc_at (corpus s) x) → min_inv (s <| corpus := c |>).
Proof.
  intros (C & Hs & B1 & B2) (Hm & Hl & Hsc) C' Hnew Htc Hoth.
  assert (idx s id = None) as Hnone.
  { unfold idx. destruct (tc_at (corpus s) id) eqn:E; [|done]. destruct Hnew. by apply tc_at_ids; [|rewrite E]. }
  assert (∀ x, idx (s <| corpus := c |>) x = if decide (x = id) then Some (MapIndexesMetadata_new l) else idx s x) as Hi.
  { intros x. unfold idx. cbn [corpus upd eta_State]. case_decide; [subst; by rewrite Htc|]. by rewrite Hoth. }
  split_and!; [done| |].
  - intros x tcx. cbn [corpus upd eta_State]. destruct (decide (x = id)) as [->|].
    + rewrite Htc. by intros [= <-].
    + rewrite Hoth by done. apply Hs.
  - change (tops (s <| corpus := c |>)) with (tops s). split.
    + intros e x _ He. destruct (B1 e x (λ H, H) He) as (m & Hx & Hem). exists m. rewrite Hi.
      case_decide; [congruence|done].
    + intros x m _. rewrite Hi. case_decide; [|by apply (B2 x m (λ H, H))]. subst x. intros [= <-]. split; [|done]. cbn.
      rewrite (held_list (tops s) id []); [done|constructor|].
      intros e. rewrite elem_of_nil. split; [|done]. intros He.
      destruct (B1 e id (λ H, H) He) as (m & Hx & _). congruence.
Qed.

(** The branch of [process_execution] that stores an interesting testcase. *)
Definition store (tc : Testcase) : M (Sched (MinimizerScheduler T)) CorpusId :=
  id <- on_sst (corpus_add tc) ;;
  on_add id ;;;
  ret id.

Lemma min_store_ok w tc l : full_inv w → indexed tc l →
  (Z.of_nat (InMemory.count (corpus (sst w))) < u64_max)%Z →
  ∃ id w', store tc w = (Ok id, w') ∧ full_inv w' ∧
    InMemory.ids (corpus (sst w')) = InMemory.ids (corpus (sst w)) ++ [id] ∧
    (∀ k, is_Some (tops (sst w') !! k) ↔ is_Some (tops (sst w) !! k) ∨ k ∈ l) ∧
    outside (sst w) (sst w') ∧ (∃ tc', tc_at (corpus (sst w')) id = Some tc' ∧ tc_input tc' = tc_input tc) ∧
    same_disabled (corpus (sst w)) (corpus (sst w')) ∧
    ∀ x t', x ≠ id → tc_at (corpus (sst w')) x = Some t' → ∃ t, tc_at (corpus (sst w)) x = Some t ∧ tc_input t' = tc_input t.
Proof.
  intros [Hb Hm] Htc Hcnt. destruct w as [o s]. cbn [sst obj] in *. pose proof Hm as (C & _ & _).
  destruct (corpus_add_ok (corpus s) tc C) as (id & c & Hadd & C1 & Hids & Hnew & Hget & Hoth & _).
  assert (∀ x, x ≠ id → tc_at c x = tc_at (corpus s) x) as Hat.
  { intros x Hx. by apply tc_at_get_eq, Hoth. }
  apply get_tc_at in Hget.
  assert (min_inv (s <| corpus := c |>)) as Hm1 by by eapply min_inv_add.
  unfold store. unfold bind at 1, on_sst at 1, corpus_add. cbn [sst obj upd eta_Sched]. rewrite Hadd.
  cbn [sst obj upd eta_Sched]. set (s1 := s <| corpus := c |>) in *.
  destruct (base_add (mkSched (base o) s) tc id c Hb Hadd Hcnt) as (b & Hbadd & Hb2 & Hf2). cbn [sst obj] in *.
  assert (min_inv (sst b)) as Hm2 by by eapply bframe_min_inv.
  destruct Hf2 as (Htop & Hout2 & Hcw & D2 & E). specialize (Hcw C1) as [C2 Hids2].
  pose proof (E id) as Eid. cbn [s1 corpus upd eta_State] in Eid. rewrite Hget in Eid.
  destruct (tc_at (corpus (sst b)) id) as [tc2|] eqn:Htc2; [|done].
  destruct Eid as (Hmi & _ & Hinp & _). destruct Htc as (Htm & Hnd & Hsc). rewrite Htm in Hmi.
  destruct (update_score_ok (remove_metadata o) id (sst b) tc2 _ Hm2 Htc2 Hmi)
    as (s3 & Hupd & Hm3 & _ & Hmv & Hin & Hout).
  change ((mkSched o s) <| sst := s1 |>) with (mkSched o s1).
  unfold bind at 1, on_add. unfold bind at 1.
  rewrite (on_base_ok (sch_on_add id) (mkSched o s1) _ _ Hbadd). rewrite bind_gets.
  unfold removing. cbn [obj sst remove_metadata upd eta_Minimizer]. unfold on_sst, ret. cbn [sst obj]. rewrite Hupd.
  eexists id, _. split; [done|]. cbn [sst obj upd eta_Sched].
  pose proof Hmv as ((_ & Hids3 & _) & _ & _).
  refine (conj (conj _ _) (conj _ (conj _ (conj _ (conj _ (conj _ _)))))).
  - eapply base_moved; [|exact Hmv|by apply Hm2]. cbn. by destruct b.
  - done.
  - rewrite Hids3. etrans; [exact Hids2|]. exact Hids.
  - intros k. assert (tops (sst b) = tops s) as Hts by (unfold tops; by rewrite Htop).
    destruct (decide (k ∈ l)) as [Hk|Hk].
    + split; [by right|]. intros _.
      destruct (tops s !! k) as [old|] eqn:Ek.
      * destruct (decide (old = id)) as [Ho|Ho].
        { rewrite Hin; [by eexists|done|]. unfold takes. rewrite Hts, Ek. by left. }
        destruct (proj1 (proj2 (proj2 Hm2)) k old (λ H, H)) as (mo & Hmo & _); [by rewrite Hts|].
        destruct (idx_inv _ _ _ Hmo) as (tco & Htco & _).
        destruct (flt (cost tco) (cost tc2)) eqn:Ef.
        -- rewrite Hout; [rewrite Hts, Ek; by eexists|]. intros [_ Htk]. unfold takes in Htk. rewrite Hts, Ek in Htk.
           destruct Htk as [?|(t & Ht & Hf)]; [done|congruence].
        -- rewrite Hin; [by eexists|done|]. unfold takes. rewrite Hts, Ek. right. by exists tco.
      * rewrite Hin; [by eexists|done|]. unfold takes. by rewrite Hts, Ek.
    + rewrite Hout by (intros [? _]; done). rewrite Hts. naive_solver.
  - etrans; [exact Hout2|]. by eapply moved_outside.
  - destruct Hmv as (_ & _ & Emv). specialize (Emv id). cbn in Emv. rewrite Htc2 in Emv.
    destruct (tc_at (corpus s3) id) as [tc3|]; [|done]. exists tc3. split; [done|].
    destruct Emv as (_ & _ & _ & -> & _); [by apply Hm2 with id|]. exact Hinp.
  - pose proof (add_same_disabled _ _ _ _ Hadd) as D1. destruct Hmv as ((_ & _ & _ & D3) & _). unfold same_disabled in *.
    cbn in D2, D3. congruence.
  - intros x t' Hx Ht'. destruct Hmv as (_ & _ & Emv). specialize (Emv x). specialize (E x). cbn in Emv, E.
    rewrite Ht' in Emv. rewrite (Hat x Hx) in E. destruct (tc_at (corpus (sst b)) x) as [t2|] eqn:Ht2; [|done].
    destruct (tc_at (corpus s) x) as [t|]; [|done]. exists t. split; [done|].
    destruct Emv as (_ & _ & _ & -> & _); [by apply Hm2 with x|]. by destruct E as (_ & _ & ? & _).
Qed.
End Sched.
End Facts.

(** ** Removal of an entry *)

Section Removal.
Context `{F : TestcaseScore} {scorable : Testcase → Prop} {cost : Testcase → f64}.
Context `{!CostLaws F scorable cost}.
Abbreviation touch := (touch (scorable := scorable) (cost := cost)).
Abbreviation min_inv := (min_inv (scorable := scorable)).

Lemma common_spec es ms e : StronglySorted lt es → StronglySorted lt ms →
  e ∈ common es ms ↔ e ∈ es ∧ e ∈ ms.
Proof.
  intros Hes. revert ms. induction Hes as [|x es Hes IH Hx]; intros ms Hms.
  { destruct ms; cbn; rewrite !elem_of_nil; naive_solver. }
  induction Hms as [|y ms Hms IHm Hy]; [cbn; rewrite !elem_of_nil; naive_solver|].
  pose proof (proj1 (Forall_forall _ _) Hx) as Hx'. pose proof (proj1 (Forall_forall _ _) Hy) as Hy'.
  cbn [common].
  destruct (Nat.compare_spec x y) as [->|Hlt|Hgt].
  - rewrite elem_of_cons, IH, !elem_of_cons by done. split; [naive_solver|].
    intros [[->|H1] [H2|H2]]; [by left|by left| |by right].
    subst. specialize (Hx' _ H1). lia.
  - rewrite IH by by constructor. rewrite !elem_of_cons. split; [naive_solver|].
    intros [[->|H1] H2]; [|done]. destruct H2 as [->|H2]; [lia|]. specialize (Hy' _ H2). lia.
  - fold (common (x :: es)). rewrite IHm, !elem_of_cons. split; [naive_solver|].
    intros [H1 [->|H2]]; [|done]. destruct H1 as [->|H1]; [lia|]. specialize (Hx' _ H1). lia.
Qed.

(** The entry [x] has the index [e]. *)
Definition has (s : State) (x : CorpusId) (e : usize) : Prop := ∃ m, idx s x = Some m ∧ e ∈ mi_list m.

Definition elected_ok (s : State) (entries : list usize) (ids : list CorpusId)
    (best best' : gmap usize (f64 * CorpusId)) : Prop :=
  (∀ e, is_Some (best' !! e) ↔ is_Some (best !! e) ∨ (e ∈ entries ∧ ∃ x, x ∈ ids ∧ has s x e)) ∧
  (∀ e f x, best' !! e = Some (f, x) → (∃ f', best !! e = Some (f', x)) ∨ (e ∈ entries ∧ has s x e)).

Lemma elect_fold factor x best l :
  (∀ e, is_Some (foldl (elect factor x) best l !! e) ↔ is_Some (best !! e) ∨ e ∈ l) ∧
  (∀ e f y, foldl (elect factor x) best l !! e = Some (f, y) → best !! e = Some (f, y) ∨ (e ∈ l ∧ y = x)).
Proof.
  revert best. induction l as [|k l IH]; intros best; cbn [foldl].
  { split; [|by left]. intros e. rewrite elem_of_nil. naive_solver. }
  destruct (IH (elect factor x best k)) as [I1 I2]. split.
  - intros e. rewrite I1, elem_of_cons. unfold elect. destruct (decide (e = k)) as [->|Hne].
    + rewrite lookup_insert_eq. split; [naive_solver|]. intros _. left. by eexists.
    + rewrite lookup_insert_ne by done. naive_solver.
  - intros e f y He. destruct (I2 e f y He) as [H1|[H1 H2]]; [|right; split; [by right|done]].
    unfold elect in H1. destruct (decide (e = k)) as [->|Hne].
    + rewrite lookup_insert_eq in H1. destruct (best !! k) as [[f0 y0]|] eqn:Eb.
      * destruct (flt factor f0); [|by left]. injection H1 as <- <-. right. split; [by left|done].
      * injection H1 as <- <-. right. split; [by left|done].
    + rewrite lookup_insert_ne in H1 by done. by left.
Qed.

Lemma elect_all_ok entries ids best s : cwf (corpus s) → all_scorable (scorable := scorable) s →
  StronglySorted lt entries → (∀ x m, idx s x = Some m → StronglySorted lt (mi_list m)) →
  (∀ x, x ∈ ids → x ∈ InMemory.ids (corpus s)) →
  ∃ best' s', elect_all entries ids best s = (Ok best', s') ∧ touch false s s' ∧ (∀ x, idx s' x = idx s x) ∧
    elected_ok s entries ids best best'.
Proof.
  intros C Hs He. revert best s C Hs. induction ids as [|x ids IH]; intros best s C Hs Hso Hids; cbn [elect_all].
  { exists best, s. split_and!; [done|reflexivity|done|]. split; [|intros e f x Hb; left; by exists f].
    intros e. setoid_rewrite elem_of_nil. naive_solver. }
  pose proof (Hids x ltac:(left)) as Hx. apply tc_at_ids in Hx as [tc Htc]; [|done].
  destruct (score_entry_ok x s tc C Hs Htc) as (s1 & Hsc & Ht1 & Hi1).
  unfold bind at 1. rewrite Hsc. assert (cwf (corpus s1)) as C1 by by apply Ht1.
  destruct (touch_at false s s1 x tc Ht1 Htc (Hs x tc Htc)) as (tc1 & Htc1 & _).
  unfold bind at 1, read_testcase. rewrite (proj2 (get_tc_at _ _ _) Htc1). cbv zeta.
  set (best1 := match tc_map_indexes tc1 with Some _ => _ | None => _ end).
  assert (tc_map_indexes tc1 = idx s x) as Hix. { rewrite <-Hi1. unfold idx. by rewrite Htc1. }
  assert ((∀ e, is_Some (best1 !! e) ↔ is_Some (best !! e) ∨ (e ∈ entries ∧ has s x e)) ∧
    (∀ e f y, best1 !! e = Some (f, y) → best !! e = Some (f, y) ∨ (e ∈ entries ∧ has s x e ∧ y = x))) as [B1 B2].
  { unfold best1, has. rewrite Hix. destruct (idx s x) as [m|] eqn:Em; [|naive_solver].
    destruct (elect_fold (cost tc) x best (common entries (mi_list m))) as [E1 E2].
    split; intros e; [rewrite E1|intros f y Hy; destruct (E2 e f y Hy) as [?|[Hin ->]]; [by left|right]];
      [|apply common_spec in Hin as [? ?]; [|done|by eapply Hso]; naive_solver].
    rewrite common_spec by (done || by eapply Hso). naive_solver. }
  destruct (IH best1 s1) as (best' & s' & Hrun & Ht' & Hi' & E1 & E2).
  - done.
  - by eapply touch_scorable.
  - intros y m. rewrite Hi1. apply Hso.
  - intros y Hy. pose proof Ht1 as ((_ & -> & _) & _). apply Hids. by right.
  - exists best', s'. split_and!; [done|by etrans|intros y; by rewrite Hi'|].
    assert (∀ y e, has s1 y e ↔ has s y e) as Hhas by (intros y e; unfold has; by rewrite Hi1).
    split.
    + intros e. rewrite E1, B1. setoid_rewrite Hhas. setoid_rewrite elem_of_cons. naive_solver.
    + intros e f y Hy. destruct (E2 e f y Hy) as [[f' Hb]|[Hin Hh]]; [|right; by rewrite <-Hhas].
      destruct (B2 e f' y Hb) as [?|(? & ? & ->)]; [left; by exists f'|by right].
Qed.

(** A new holder for an index that has none. *)
Lemma grant_ok e x m top s : cwf (corpus s) → book (λ _, False) top s → top !! e = None →
  idx s x = Some m → e ∈ mi_list m →
  ∃ s', set_indexes x (Some (m <| tcref := (tcref m + 1)%Z |>)) s = (Ok (), s') ∧ touch false s s' ∧
    (∀ y k, has s' y k ↔ has s y k) ∧ book (λ _, False) (<[e := x]> top) s'.
Proof.
  intros C [B1 B2] He Hx Hem. destruct (idx_inv _ _ _ Hx) as (tc & Htc & _).
  destruct (set_indexes_ok (cost := cost) x (Some (m <| tcref := (tcref m + 1)%Z |>)) s tc C Htc) as (s' & Hrun & Ht & Hi).
  assert (∀ y k, has s' y k ↔ has s y k) as Hhas.
  { intros y k. unfold has. rewrite Hi. case_decide; [subst y|done]. rewrite Hx.
    split; intros (m' & [= <-] & ?); by eexists. }
  exists s'. split_and!; [done|done|done|]. split.
  - intros k y _ [[-> <-]|[Hne Hk]]%lookup_insert_Some; apply Hhas; [by exists m|by apply (B1 k y (λ H, H))].
  - intros y m' _. rewrite Hi, held_fresh by done. case_decide; [subst y|].
    + intros [= <-]. destruct (B2 x m (λ H, H) Hx) as [Hr Hn]. cbn. split; [lia|done].
    + intros Hm'. destruct (B2 y m' (λ H, H) Hm') as [Hr Hn]. split; [lia|done].
Qed.

Lemma crown_ok elected top s : cwf (corpus s) → all_scorable (scorable := scorable) s →
  book (λ _, False) top s → NoDup (fst <$> elected) →
  (∀ e f x, (e, (f, x)) ∈ elected → top !! e = None ∧ has s x e) →
  ∃ top' s', crown elected top s = (Ok top', s') ∧ touch false s s' ∧ book (λ _, False) top' s' ∧
    (∀ e, top' !! e = match list_find (λ p, p.1 = e) elected with Some (_, (_, (_, x))) => Some x | None => top !! e end) ∧
    (∀ y k, has s' y k ↔ has s y k).
Proof.
  revert top s. induction elected as [|[e [f x]] elected IH]; intros top s C Hs HB Hnd Hel; cbn [crown].
  { exists top, s. by split_and!. }
  cbn in Hnd. apply NoDup_cons in Hnd as [Hnew Hnd].
  destruct (Hel e f x ltac:(left)) as [He (m & Hx & Hem)].
  unfold bind at 1. rewrite (indexes_of_ok _ _ _ _ Hx).
  destruct (grant_ok e x m top s C HB He Hx Hem) as (s1 & Hset & Ht1 & Hh1 & HB1).
  unfold bind at 1. rewrite Hset.
  destruct (IH (<[e := x]> top) s1) as (top' & s' & Hrun & Ht' & HB' & Hl & Hh').
  - by apply Ht1.
  - by eapply touch_scorable.
  - done.
  - done.
  - intros e' f' x' Hin. destruct (Hel e' f' x' ltac:(by right)) as [He' Hx'].
    rewrite Hh1, lookup_insert_ne; [done|]. intros <-. apply Hnew. apply list_elem_of_fmap. by exists (e, (f', x')).
  - exists top', s'. split_and!; [done|by etrans|done| |intros y k; by rewrite Hh', Hh1].
    intros k. rewrite Hl. cbn [list_find]. destruct (decide (e = k)) as [->|Hne].
    + rewrite decide_True by done. assert (list_find (λ p : usize * (f64 * CorpusId), p.1 = k) elected = None) as ->.
      { apply list_find_None, Forall_forall. intros [k' ?] Hin Heq. cbn in Heq. subst k'.
        apply Hnew, list_elem_of_fmap. by eexists (_, _). }
      by rewrite lookup_insert_eq.
    + rewrite decide_False by done. rewrite lookup_insert_ne by done.
      by destruct (list_find _ elected) as [[i [? [? ?]]]|].
Qed.
(** *** The indexes of the removed entry *)

Definition orphans (map : gmap usize CorpusId) (id : CorpusId) : list usize :=
  fst <$> filter (λ kv : usize * CorpusId, kv.2 = id) (map_to_list map).

Lemma orphans_spec map id e : e ∈ orphans map id ↔ map !! e = Some id.
Proof.
  unfold orphans. rewrite list_elem_of_fmap. split.
  - intros ([k x] & -> & [Hx Hin]%list_elem_of_filter). cbn in *. subst. by apply elem_of_map_to_list.
  - intros He. exists (e, id). split; [done|]. apply list_elem_of_filter. split; [done|]. by apply elem_of_map_to_list.
Qed.

Lemma nodup_fst_filter {A} (P : usize * A → Prop) `{!∀ x, Decision (P x)} l :
  NoDup (fst <$> l) → NoDup (fst <$> filter P l).
Proof.
  induction l as [|[k x] l IH]; [done|]. rewrite fmap_cons, NoDup_cons. intros [Hk Hl].
  rewrite filter_cons. case_decide; [|by apply IH]. rewrite fmap_cons, NoDup_cons. split; [|by apply IH].
  intros (y & Hy & [_ Hin]%list_elem_of_filter)%list_elem_of_fmap. apply Hk, list_elem_of_fmap. by exists y.
Qed.

Lemma orphans_sorted map id : StronglySorted lt (sort_by Nat.compare (orphans map id)).
Proof.
  assert (NoDup (sort_by Nat.compare (orphans map id))) as Hnd.
  { rewrite sort_by_perm. apply nodup_fst_filter, NoDup_fst_map_to_list. }
  assert (StronglySorted (cmp_le Nat.compare) (sort_by Nat.compare (orphans map id))) as Hs.
  { apply (sort_by_sorted _ (λ _, True)).
    - intros x y z _ _ _. unfold cmp_le. rewrite !Nat.compare_le_iff. lia.
    - intros x y _ _. unfold cmp_le. rewrite Nat.compare_gt_iff, Nat.compare_le_iff. lia.
    - by apply Forall_true. }
  induction Hs as [|x l Hs IH Hx]; [constructor|]. apply NoDup_cons in Hnd as [Hn Hnd].
  constructor; [by apply IH|]. apply Forall_forall. intros y Hy.
  apply (proj1 (Forall_forall _ _) Hx) in Hy as Hle. unfold cmp_le in Hle.
  apply Nat.compare_le_iff in Hle. destruct (decide (x = y)) as [->|]; [done|lia].
Qed.

Lemma book_drop id top s : book (eq id) top s → idx s id = None →
  book (λ _, False) (filter (λ kv : usize * CorpusId, kv.2 ≠ id) top) s.
Proof.
  intros [B1 B2] Hid. split.
  - intros e x _ [He Hx]%map_lookup_filter_Some. cbn in Hx. by apply (B1 e x); [congruence|].
  - intros x m _ Hm. assert (id ≠ x) as Hne by congruence. destruct (B2 x m Hne Hm) as [Hr Hn]. split; [|done].
    rewrite Hr. f_equal. unfold held. f_equal. apply map_eq. intros e. apply option_eq. intros y.
    rewrite !map_lookup_filter_Some. cbn. naive_solver congruence.
Qed.

Section Reassign.
Context `{Env, !EnvLaws _}.

Lemma find_elected (best : gmap usize (f64 * CorpusId)) e :
  (match list_find (λ p, p.1 = e) (hash_order (map_to_list best)) with
   | Some (_, (_, (_, x))) => Some x | None => None end) = snd <$> best !! e.
Proof.
  assert (∀ p, p ∈ hash_order (map_to_list best) ↔ best !! p.1 = Some p.2) as Hin.
  { intros [k v]. rewrite hash_order_perm. apply elem_of_map_to_list. }
  destruct (list_find _ _) as [[i [k [f x]]]|] eqn:Ef.
  - apply list_find_Some in Ef as (Hl & Hk & _). cbn in Hk. subst k. apply list_elem_of_lookup_2, Hin in Hl.
    cbn in Hl. by rewrite Hl.
  - apply list_find_None in Ef. destruct (best !! e) as [[f x]|] eqn:Eb; [|done].
    rewrite Forall_forall in Ef. destruct (Ef (e, (f, x))); [|done]. by apply Hin.
Qed.

Lemma reassign_ok id s : cwf (corpus s) → all_scorable (scorable := scorable) s →
  idx s id = None → book (eq id) (tops s) s →
  (∀ x m, idx s x = Some m → StronglySorted lt (mi_list m)) →
  ∃ s', reassign id s = (Ok (), s') ∧ min_inv s' ∧ moved (scorable := scorable) (cost := cost) false s s' ∧
    (∀ e, tops s !! e ≠ Some id → tops s' !! e = tops s !! e) ∧
    (∀ e, tops s !! e = Some id → tops s' !! e ≠ Some id ∧
       (is_Some (tops s' !! e) ↔ ∃ x, has s x e)).
Proof.
  intros C Hs Hid HB Hso. unfold reassign. rewrite bind_gets.
  destruct (m_top_rateds s) as [map|] eqn:Etop.
  2: { exists s. assert (tops s = ∅) as Ht by (unfold tops; by rewrite Etop). split_and!; [done| | |done|].
       - split_and!; [done|done|]. split; [by rewrite Ht|]. intros x m _ Hm. apply HB; [congruence|done].
       - unfold moved. rewrite Etop. assert (s <| m_top_rateds := None |> = s) as -> by (destruct s; cbn in *; by subst).
         reflexivity.
       - intros e. rewrite Ht, lookup_empty. done. }
  assert (tops s = map) as Ht by (unfold tops; by rewrite Etop). rewrite Ht in *. cbv zeta.
  fold (orphans map id). set (entries := sort_by _ _). rewrite bind_modify.
  set (map1 := filter (λ kv : usize * CorpusId, kv.2 ≠ id) map). set (s1 := s <| m_top_rateds := Some map1 |>).
  assert (∀ e, e ∈ entries ↔ map !! e = Some id) as Hent.
  { intros e. unfold entries. rewrite sort_by_perm. apply orphans_spec. }
  rewrite bind_gets.
  destruct (elect_all_ok entries (InMemory.ids (corpus s1)) ∅ s1) as (best & s2 & Hel & Ht2 & Hi2 & E1 & E2);
    [done|done|apply orphans_sorted|done|done|].
  unfold bind at 1. rewrite Hel. rewrite bind_gets, bind_modify.
  assert (tops s2 = map1) as Htop2 by (unfold tops; by rewrite (touch_tops _ _ _ Ht2)). rewrite Htop2.
  set (s3 := s2 <| m_top_rateds := None |>).
  assert (∀ e, map1 !! e = if decide (map !! e = Some id) then None else map !! e) as Hm1.
  { intros e. unfold map1. case_decide as Hd.
    - apply map_lookup_filter_None. right. intros x Hx Hne. cbn in Hne. congruence.
    - destruct (map !! e) as [x|] eqn:Ex; [|by apply map_lookup_filter_None; left].
      apply map_lookup_filter_Some. split; [done|]. cbn. congruence. }
  assert (∀ e f x, best !! e = Some (f, x) → map !! e = Some id ∧ has s x e) as Hbest.
  { intros e f x Hb. destruct (E2 e f x Hb) as [[f' Hf]|[Hin Hh]]; [by rewrite lookup_empty in Hf|].
    split; [by apply Hent|done]. }
  destruct (crown_ok (hash_order (map_to_list best)) map1 s3) as (top' & s4 & Hcr & Ht4 & HB4 & Hl & Hh4).
  - by apply Ht2.
  - by apply (touch_scorable false s1 s2 Ht2).
  - eapply (book_idx _ _ s); [exact Hi2|]. by apply book_drop.
  - rewrite hash_order_perm. apply NoDup_fst_map_to_list.
  - intros e f x. rewrite hash_order_perm. intros Hin%elem_of_map_to_list. destruct (Hbest e f x Hin) as [Hm (m & Hx & Hem)].
    split; [by rewrite Hm1, decide_True|]. exists m. split; [|done]. change (idx s2 x = Some m). by rewrite Hi2.
  - unfold bind. rewrite Hcr. unfold modify. set (s' := s4 <| m_top_rateds := Some top' |>). exists s'.
    assert (∀ e, top' !! e = match snd <$> best !! e with Some x => Some x | None => map1 !! e end) as Htop'.
    { intros e. rewrite Hl, <-find_elected. by destruct (list_find _ _) as [[? [? [? ?]]]|]. }
    assert (touch false s3 s4 ∧ touch false s1 s2) as [Ha Hb] by done.
    split_and!; [done| | | |].
    + split_and!; [by apply Ht4, Ht2| |exact HB4].
      intros x tc Hx. apply (touch_scorable false s3 s4 Ht4) with (id := x); [|done].
      intros y tcy Hy. by apply (touch_scorable false s1 s2 Ht2 Hs y tcy).
    + unfold moved. cbn [s' m_top_rateds upd eta_State].
      apply (touch_set_top false s1 s2 (Some top')) in Hb. apply (touch_set_top false s3 s4 (Some top')) in Ha.
      etrans; [exact Hb|exact Ha].
    + intros e He. change (tops s') with top'. rewrite Htop', Hm1, decide_False by done.
      destruct (best !! e) as [[f x]|] eqn:Eb; [|done]. by destruct (Hbest e f x Eb).
    + intros e He. change (tops s') with top'. rewrite Htop', Hm1, decide_True by done.
      destruct (best !! e) as [[f x]|] eqn:Eb; cbn.
      * destruct (Hbest e f x Eb) as [_ Hh]. split.
        -- intros [= ->]. destruct Hh as (m & Hm & _). congruence.
        -- split; [|by eexists]. intros _. by exists x.
      * split; [done|]. split; [by intros []|]. intros (x & Hh). exfalso.
        assert (is_Some (best !! e)) as [? ?]; [|congruence]. apply E1. right. split; [by apply Hent|].
        exists x. split; [|done]. destruct Hh as (m & Hm & _). apply idx_inv in Hm as (tc & Htc & _).
        apply tc_at_ids; [done|by eexists].
Qed.
End Reassign.
End Removal.

(** ** The weighted scheduler as the base *)

Section WeightedBase.
Context `{L : Libm} {scorable : Testcase → Prop} {cost : Testcase → f64}.
Context (cost_sched : ∀ tc m p, scorable tc →
  scorable (tc <| tc_sched := m |>) ∧ cost (tc <| tc_sched := m |>) = cost tc ∧
  scorable (tc <| tc_sched := m |> <| parent_id := p |>) ∧
  cost (tc <| tc_sched := m |> <| parent_id := p |>) = cost tc).
Abbreviation bframe := (bframe (scorable := scorable) (cost := cost)).
Abbreviation same_book := (same_book (scorable := scorable) (cost := cost)).

Lemma same_book_refl tc : same_book tc tc.
Proof. by split_and!. Qed.

Lemma keeps_change id f : (∀ tc, same_book tc (f tc)) → keeps bframe (change_testcase id f).
Proof.
  intros Hf s. destruct (tc_at (corpus s) id) as [tc|] eqn:Htc.
  - unfold change_testcase. destruct (update_ok (corpus s) id f tc Htc) as (c & Eu & Hw & Hi & _ & Hl). rewrite Eu.
    cbn [snd]. split; [done|]. split; [done|]. split; [by auto|]. split; [by eapply update_disabled|]. intros x. cbn [corpus upd eta_State]. rewrite Hl.
    case_decide; [subst x; by rewrite Htc|]. destruct (tc_at (corpus s) x); [apply same_book_refl|done].
  - assert ((change_testcase id f s).2 = s) as ->; [|reflexivity].
    unfold change_testcase, InMemory.update. unfold tc_at, InMemory.map_get in Htc.
    destruct (InMemory.map (InMemory.enabled (InMemory.storage (corpus s))) !! id); done.
Qed.

(** A step of the weighted scheduler: the calibration, the size of the hit-count table and the
    mode of the schedules stay. *)
Definition same_table (ps ps' : SchedulerMetadata) : Prop :=
  sm_cycles ps' = sm_cycles ps ∧ length (sm_n_fuzz ps') = length (sm_n_fuzz ps).
Definition wstep (w w' : Sched WeightedScheduler) : Prop :=
  bframe (sst w) (sst w') ∧ cycle_schedules (obj w') = cycle_schedules (obj w) ∧
  (∀ ps, m_sched (sst w) = Some ps → ∃ ps', m_sched (sst w') = Some ps' ∧ same_table ps ps').
Definition sstep (s s' : State) : Prop :=
  bframe s s' ∧
  (∀ ps, m_sched s = Some ps → ∃ ps', m_sched s' = Some ps' ∧ same_table ps ps').

Lemma same_table_refl ps : same_table ps ps.
Proof. done. Qed.
#[local] Hint Resolve same_table_refl : core.

#[local] Instance sstep_preorder : PreOrder sstep.
Proof.
  split; [intros s; split; [reflexivity|by eauto]|]. intros s1 s2 s3 [B1 P1] [B2 P2]. split; [by etrans|].
  intros ps Hps. destruct (P1 ps Hps) as (ps2 & Hps2 & E2). destruct (P2 ps2 Hps2) as (ps3 & Hps3 & E3).
  exists ps3. split; [done|]. destruct E2, E3. split; congruence.
Qed.
#[local] Instance wstep_preorder : PreOrder wstep.
Proof.
  split; [intros w; split_and!; [reflexivity|done|by eauto]|].
  intros w1 w2 w3 (B1 & C1 & P1) (B2 & C2 & P2).
  destruct (transitivity (R := sstep) (conj B1 P1) (conj B2 P2)) as [B P]. split_and!; [done|congruence|done].
Qed.

Lemma keeps_on_sst {A} (m : M State A) : keeps sstep m → keeps wstep (on_sst m).
Proof.
  intros Hm w. unfold on_sst. specialize (Hm (sst w)). destruct (m (sst w)) as [r s].
  destruct Hm as [B P]. by split_and!.
Qed.
Lemma sstep_change id f : (∀ tc, same_book tc (f tc)) → keeps sstep (change_testcase id f).
Proof.
  intros Hf s. split; [by apply keeps_change|]. intros ps Hps. exists ps. split; [|done].
  unfold change_testcase. by destruct (InMemory.update id f (corpus s)).
Qed.
Lemma sstep_modify f :
  (∀ s, corpus (f s) = corpus s ∧ m_top_rateds (f s) = m_top_rateds s ∧ m_sched (f s) = m_sched s ∧ outside s (f s)) →
  keeps sstep (modify (E := Error) f).
Proof.
  intros Hf s. destruct (Hf s) as (Hc & Ht & Hm & Ho). split; [|intros ps Hps; exists ps; split; [cbn; congruence|done]].
  cbn. split; [done|]. split; [done|]. split; [by rewrite Hc|]. split; [unfold same_disabled; by rewrite Hc|]. intros x. rewrite Hc.
  destruct (tc_at (corpus s) x); [apply same_book_refl|done].
Qed.

Ltac keep :=
  first [ apply keeps_ret; apply _ | apply keeps_throw; apply _ | apply keeps_panic; apply _
        | apply keeps_gets; apply _ | apply keeps_lift; apply _
        | apply keeps_on_sst | apply sstep_modify; intros ?; by split_and!
        | apply keeps_bind; [apply _| |intros ?] ].

Lemma keeps_read id : keeps sstep (read_testcase id).
Proof. intros s. reflexivity. Qed.

Lemma keeps_weigh ids weights sum :
  keeps sstep (weigh (H := CorpusWeightTestcaseScore) ids weights sum).
Proof.
  revert weights sum. induction ids as [|i ids IH]; intros weights sum s; [reflexivity|]. cbn [weigh].
  unfold bind at 1, read_testcase. destruct (InMemory.get i (corpus s)) as [tc|e|] eqn:Hg; [|reflexivity..].
  rewrite bind_gets. unfold bind at 1, lift.
  destruct (compute s tc) as [[x tc']|e|] eqn:Hc; [|reflexivity..].
  apply corpus_weight_same in Hc as ->. cbn [fst snd]. unfold bind at 1.
  rewrite change_same by by apply get_tc_at. apply IH.
Qed.

Lemma keeps_create_table : keeps sstep (create_alias_table (H := CorpusWeightTestcaseScore)).
Proof.
  unfold create_alias_table. keep; [keep|]. keep; [keep|]. keep; [apply keeps_weigh|].
  destruct a1 as [ws sum]. keep; [keep|]. keep; [keep|]. keep; [unfold weighted_meta; repeat keep|]. keep.
Qed.

Lemma keeps_obj (f : WeightedScheduler → WeightedScheduler) :
  (∀ o, cycle_schedules (f o) = cycle_schedules o) →
  keeps wstep (modify (E := Error) (λ w, w <| obj := f (obj w) |>)).
Proof. intros Hf w. split_and!; [reflexivity|apply Hf|by eauto]. Qed.

Lemma keeps_refresh : keeps wstep (refresh_table (H := CorpusWeightTestcaseScore)).
Proof.
  unfold refresh_table. keep; [keep|]. keep.
  - apply keeps_if; [|keep]. keep; [by apply (keeps_obj (λ o, o <| table_invalidated := true |>))|].
    intros w. split_and!; [|done|by eauto].
    apply (sstep_modify (λ s, s <| m_dirty := (λ m, m <| dirty := false |>) <$> m_dirty s |>)). done.
  - keep; [keep|]. apply keeps_if; [|keep]. keep; [apply keeps_on_sst, keeps_create_table|].
    by apply (keeps_obj (λ o, o <| table_invalidated := false |>)).
Qed.

Lemma wstep_sched w ps ps' : m_sched (sst w) = Some ps → same_table ps ps' →
  wstep w (w <| sst := (sst w) <| m_sched := Some ps' |> |>).
Proof.
  intros Hps Hc. split_and!; [|done|].
  - cbn. do 4 (split; [done|]). intros x. cbn. destruct (tc_at _ x); [apply same_book_refl|done].
  - intros ps0 Hps0. rewrite Hps in Hps0. injection Hps0 as <-. by exists ps'.
Qed.

Lemma keeps_cycle : keeps wstep cycle_schedule.
Proof.
  unfold cycle_schedule. intros w. rewrite bind_gets. unfold bind at 1, lift.
  destruct (m_sched (sst w)) as [ps|] eqn:Hps; [|cbn [ok_or]; reflexivity]. cbn [ok_or]. unfold bind at 1.
  destruct (sm_strat ps) as [st|]; [|cbn [ok_or]; reflexivity]. cbn [ok_or]. rewrite bind_modify.
  etrans; [by apply (wstep_sched w ps (ps <| sm_strat :=
    Some (st <| ps_base := next_base (ps_base st) |>) |>) Hps)|].
  by apply (keeps_obj (λ o, o <| table_invalidated := true |>)).
Qed.

Lemma keeps_end_of_cycle : keeps wstep end_of_cycle.
Proof.
  unfold end_of_cycle. keep; [by apply (keeps_obj (λ o, o <| queue_cycles := wrap64 (queue_cycles o + 1) |>))|].
  intros w. rewrite bind_gets. unfold bind at 1, lift.
  destruct (m_sched (sst w)) as [ps|] eqn:Hps; [|cbn [ok_or]; reflexivity]. cbn [ok_or]. rewrite bind_modify.
  etrans; [by apply (wstep_sched w ps (ps <| sm_queue_cycles := queue_cycles (obj w) |>) Hps)|].
  assert (keeps wstep (cyc <- gets (λ w, cycle_schedules (obj w)) ;; if (cyc : bool) then cycle_schedule else ret ()))
    as Hk by (keep; [keep|]; apply keeps_if; [apply keeps_cycle|keep]).
  apply Hk.
Qed.

Lemma keeps_sched_meta id : keeps sstep (testcase_sched id).
Proof. unfold testcase_sched. keep; [apply keeps_read|keep]. Qed.

Lemma same_book_sched tc m p : same_book tc (tc <| tc_sched := m |>) ∧
  same_book tc (tc <| tc_sched := m |> <| parent_id := p |>).
Proof.
  split; (split_and!; [done|done|done|]; intros Hs; destruct (cost_sched tc m p Hs) as (? & ? & ? & ?); done).
Qed.

Lemma keeps_set_current next_id : keeps sstep (Weighted.set_current_scheduled next_id).
Proof.
  unfold Weighted.set_current_scheduled. keep.
  - unfold on_next_metadata_default. keep; [keep|]. destruct a as [id|]; [|keep].
    keep; [apply keeps_sched_meta|]. apply sstep_change. intros tc. by apply (same_book_sched tc _ None).
  - intros s. split; [|by eauto using same_table_refl]. cbn. split; [done|]. split; [done|]. split; [|split; [done|]].
    + intros [W1 W2]. done.
    + intros x. cbn. unfold set_current. cbn. destruct (tc_at _ x); [apply same_book_refl|done].
Qed.

Lemma sstep_rand s r : sstep s (s <| rand := r |>).
Proof.
  assert (keeps sstep (modify (E := Error) (λ s, s <| rand := r |>))) as Hk by by apply sstep_modify.
  apply (Hk s).
Qed.

Lemma keeps_random_id : keeps sstep random_corpus_id.
Proof.
  unfold random_corpus_id. apply keeps_bind; [apply _|keep|]. intros c. apply keeps_bind; [apply _| |intros n; keep].
  intros s. destruct (below _ (rand s)). apply sstep_rand.
Qed.
Lemma keeps_rand_float : keeps sstep rand_next_float.
Proof. intros s. unfold rand_next_float. destruct (next_float (rand s)). apply sstep_rand. Qed.

Lemma keeps_weighted_next : keeps wstep (Weighted.next (H := CorpusWeightTestcaseScore)).
Proof.
  unfold Weighted.next. keep; [apply keeps_refresh|]. keep; [keep|]. apply keeps_if; [keep|].
  keep; [apply keeps_on_sst, keeps_random_id|]. keep; [apply keeps_on_sst, keeps_rand_float|].
  keep; [keep; unfold weighted_meta; keep; keep|]. cbv zeta.
  keep; [apply keeps_on_sst, sstep_modify; done|]. keep; [keep|]. keep; [keep|].
  keep; [apply keeps_if; [apply keeps_end_of_cycle|keep]|].
  keep; [apply keeps_on_sst, keeps_set_current|keep].
Qed.

Lemma keeps_weighted_add id : keeps wstep (Weighted.on_add id).
Proof.
  unfold Weighted.on_add. keep; [keep|]. keep; [|by apply (keeps_obj (λ o, o <| table_invalidated := true |>))].
  apply keeps_on_sst. unfold on_add_metadata_default. keep; [keep|]. keep.
  - destruct a0 as [p|]; [|keep]. keep; [apply keeps_sched_meta|keep].
  - apply sstep_change. intros tc. apply same_book_sched.
Qed.

(** Before the first calibration every entry weighs 1. *)
Definition uncalibrated (s : State) : Prop := ∃ ps, m_sched s = Some ps ∧ sm_cycles ps = 0%Z ∧ sm_n_fuzz ps ≠ [].
Definition weighted_inv (w : Sched WeightedScheduler) : Prop :=
  sched_inv (sst w) ∧ table_valid w ∧ uncalibrated (sst w) ∧ cycle_schedules (obj w) = false.

Lemma uncalibrated_good s : sched_inv s → uncalibrated s → weights_defined s.
Proof. intros Hs (ps & Hps & Hc & _). eapply weights_defined_uncalibrated; [done|done|apply Hs]. Qed.

Lemma wstep_uncalibrated w w' : wstep w w' → uncalibrated (sst w) → uncalibrated (sst w').
Proof.
  intros (_ & _ & P) (ps & Hps & Hc & Hn). destruct (P ps Hps) as (ps' & ? & E1 & E2). exists ps'.
  split_and!; [done|congruence|]. intros E. apply Hn, length_zero_iff_nil. by rewrite <-E2, E.
Qed.

Lemma moved_sched_inv favored s s' : moved (scorable := scorable) (cost := cost) favored s s' →
  all_scorable (scorable := scorable) s → sched_inv s → sched_inv s'.
Proof.
  intros ((E & I & Cu & _) & W & H) Hs [C R Wt P M Cur Co].
  assert (cwf (corpus s')) as C' by by apply W.
  assert (InMemory.count (corpus s') = InMemory.count (corpus s)) as Hcnt.
  { rewrite !count_ids by done. by rewrite I. }
  assert (rand s' = rand s ∧ m_weighted s' = m_weighted s ∧ m_sched s' = m_sched s) as (E1 & E2 & E3).
  { by rewrite E. }
  split; [done|by rewrite E1|by rewrite E2|by rewrite E3| | |by rewrite Hcnt].
  - intros x tc' Htc'. specialize (H x). rewrite Htc' in H. cbn in H.
    destruct (tc_at (corpus s) x) as [tc|] eqn:Htc; [|done]. destruct (H (Hs x tc Htc)) as (_ & _ & -> & _).
    by eapply M.
  - intros x Hx. rewrite I. apply Cur. by rewrite Cu in Hx.
Qed.

Lemma weighted_inv_part o s s' : weighted_inv (mkSched o s) → sched_part s s' → weighted_inv (mkSched o s').
Proof.
  intros ([C R W P M Cur Co] & Hv & Hu & Hc) (E1 & E2 & E3 & E4 & E5 & E6). cbn [sst obj] in *.
  split_and!; [|by unfold table_valid, tables_fit in *; cbn [sst obj] in *; rewrite E1, E4, E5|by unfold uncalibrated; cbn; rewrite E3|done].
  split; cbn [sst]; rewrite ?E1, ?E3, ?E4, ?E6; done.
Qed.

(** Counting the hash of an execution. *)
Lemma weighted_evaluation_ok w h : weighted_inv w →
  ∃ w', Weighted.on_evaluation (Some h) w = (Ok (), w') ∧ weighted_inv w' ∧ bframe (sst w) (sst w') ∧
    corpus (sst w') = corpus (sst w).
Proof.
  intros ([C R W P M Cur Co] & Hv & (ps & Hps & Hcy & Hn) & Hc). unfold Weighted.on_evaluation.
  unfold on_sst, on_evaluation_metadata_default. cbn [ok_or]. unfold bind at 1. rewrite bind_lift.
  rewrite bind_gets, Hps. cbn [ok_or]. rewrite bind_lift.
  destruct (Nat.eqb_spec (length (sm_n_fuzz ps)) 0) as [E|E]; [by apply length_zero_iff_nil in E|].
  set (i := Z.to_nat (h mod Z.of_nat (length (sm_n_fuzz ps)))).
  assert (i < length (sm_n_fuzz ps)) as Hi.
  { unfold i. pose proof (Z.mod_pos_bound h (Z.of_nat (length (sm_n_fuzz ps)))). lia. }
  destruct (lookup_lt_is_Some_2 _ _ Hi) as [hits Hh]. unfold n_fuzz_at. rewrite Hh. cbn [unwrap].
  rewrite bind_lift, bind_modify. unfold ret, modify. eexists. split; [done|].
  set (ps' := ps <| sm_n_fuzz := _ |>). destruct w as [o s]. cbn [sst obj] in *.
  split; [|split; [|done]].
  - split_and!; [|exact Hv| |exact Hc]; cbn; [by split|]. exists ps'. split_and!; [done|done|].
    cbn. intros Hnil. apply (f_equal length) in Hnil. rewrite length_insert in Hnil. cbn in Hnil. lia.
  - do 4 (split; [done|]). intros x. cbn.
    destruct (tc_at _ x); [apply same_book_refl|done].
Qed.

#[global] Instance weighted_base_laws :
  BaseLaws (scorable := scorable) (cost := cost) (WeightedBase CorpusWeightTestcaseScore) weighted_inv.
Proof.
  split.
  - intros w (Hs & Hv & Hu & Hc) Hne. cbn [sch_next WeightedBase].
    destruct (pick_ok (T := CorpusWeightTestcaseScore) (good := weights_defined) w) as (id & w' & Hrun & Hid & _ & _ & Hs' & Hf');
      [done|by apply uncalibrated_good| |done| |congruence|].
    + intros d _. apply uncalibrated_good; [by apply dirty_sched_inv|exact Hu].
    + rewrite count_ids by apply Hs. by destruct (InMemory.ids _).
    + pose proof (keeps_weighted_next w) as Hk. rewrite Hrun in Hk. cbn [snd] in Hk.
      exists id, w'. split_and!; [done|done| |by apply Hk].
      split_and!; [done|by right; right|by eapply wstep_uncalibrated|]. destruct Hk as (_ & -> & _). done.
  - intros [o s] tc id c (Hs & Hv & Hu & Hc) Hadd Hcnt. cbn [sch_on_add WeightedBase sst obj] in *.
    destruct (store_ok (mkSched o s) tc Hs Hcnt) as (id' & w' & Hrun & Hs' & Hv' & _).
    unfold store_testcase in Hrun. apply bind_Ok_inv in Hrun as (i1 & w1 & H1 & Hrun).
    unfold on_sst, corpus_add in H1. cbn [sst] in H1. rewrite Hadd in H1. injection H1 as <- <-.
    apply bind_Ok_inv in Hrun as ([] & w2 & H2 & Hrun). injection Hrun as <- <-.
    match type of H2 with Weighted.on_add _ ?w1 = _ => pose proof (keeps_weighted_add id w1) as Hk end.
    rewrite H2 in Hk. cbn [snd] in Hk. exists w2. split_and!; [done| |by apply Hk].
    split_and!; [done|done|by eapply wstep_uncalibrated|]. destruct Hk as (_ & -> & _). done.
  - intros o s s' favored (Hs & Hv & Hu & Hc) Hm Ha. cbn [sst obj] in *.
    assert (m_dirty s' = m_dirty s ∧ m_weighted s' = m_weighted s ∧ m_sched s' = m_sched s ∧
      InMemory.ids (corpus s') = InMemory.ids (corpus s)) as (E1 & E2 & E3 & E4).
    { destruct Hm as ((E & I & _) & _). by rewrite E. }
    split_and!; [by eapply moved_sched_inv| | |done].
    + unfold table_valid, tables_fit in *. cbn [sst obj] in *. by rewrite E1, E2, E4.
    + unfold uncalibrated. cbn [sst]. by rewrite E3.
  - intros w h Hw. destruct (weighted_evaluation_ok w h Hw) as (w' & ? & ? & ? & _). by exists w'.
  - intros o s s' Hw Hp. by eapply weighted_inv_part.
  - intros o s r (Hs & Hv & Hu & Hc) Hr. split_and!; [by apply rand_sched_inv|done|done|done].
  - intros w (Hs & _). apply Hs.
  - intros w (Hs & _). apply Hs.
Qed.
End WeightedBase.

(** ** What the minimizer promises *)

Section Promises.
Context `{F : TestcaseScore} {scorable : Testcase → Prop} {cost : Testcase → f64}.
Context `{!CostLaws F scorable cost} `{Env, !EnvLaws _}.
Abbreviation min_inv := (min_inv (scorable := scorable)).
Abbreviation moved := (moved (scorable := scorable) (cost := cost)).
Abbreviation takes := (takes (cost := cost)).
Abbreviation indexed := (indexed (scorable := scorable)).

(** The score of an entry is updated without an error: the entry becomes the holder of exactly
    those of its indexes that nobody holds, that it holds already, or whose holder does not cost
    less; every other index keeps its holder.  The reference counts are again the numbers of
    the indexes held, so that the metadata of an entry is dropped only when it holds none. *)
Theorem update_score_spec remove id s tc m :
  min_inv s → tc_at (corpus s) id = Some tc → tc_map_indexes tc = Some m →
  ∃ s', update_score remove id s = (Ok (), s') ∧ min_inv s' ∧ moved false s s' ∧
    (∀ e, e ∈ mi_list m → takes s (tops s) id (cost tc) e → tops s' !! e = Some id) ∧
    (∀ e, ¬ (e ∈ mi_list m ∧ takes s (tops s) id (cost tc) e) → tops s' !! e = tops s !! e).
Proof.
  intros Hm Htc Htm. destruct (update_score_ok remove id s tc m Hm Htc Htm) as (s' & ? & ? & _ & ? & ? & ?).
  by exists s'.
Qed.

(** Culling never fails, and whatever the order in which the hash map is walked, afterwards every
    index that has a holder is reached by a favoured entry; no entry loses its favour and nothing
    else changes. *)
Theorem cull_covers s : min_inv s →
  ∃ s', cull s = (Ok (), s') ∧ min_inv s' ∧ moved true s s' ∧ tops s' = tops s ∧
    ∀ k, is_Some (tops s' !! k) → fav_covers s' k.
Proof.
  intros Hm. destruct (cull_ok s Hm) as (s' & Hrun & Hm' & Ht & _ & Hc). exists s'.
  split_and!; [done|done| |unfold tops; by rewrite (touch_tops _ _ _ Ht)|done].
  unfold moved. rewrite (touch_tops _ _ _ Ht). by destruct s.
Qed.

(** An entry is removed from the corpus and the scheduler is told: nothing fails and the
    bookkeeping is exact again.  No index is left to the removed entry; each of its indexes goes
    to an entry that reaches it, whenever there is one that kept its indexes, and is dropped
    otherwise; all other indexes keep their holders. *)
Theorem remove_spec id s tc :
  min_inv s → tc_at (corpus s) id = Some tc →
  (∀ x m, idx s x = Some m → StronglySorted lt (mi_list m)) →
  ∃ c s', InMemory.remove id (corpus s) = Ok (tc, c) ∧ reassign id (s <| corpus := c |>) = (Ok (), s') ∧
    min_inv s' ∧ moved false (s <| corpus := c |>) s' ∧
    (∀ e, tops s !! e ≠ Some id → tops s' !! e = tops s !! e) ∧
    (∀ e, tops s !! e = Some id → tops s' !! e ≠ Some id ∧
       (is_Some (tops s' !! e) ↔ ∃ x, x ≠ id ∧ has s x e)).
Proof.
  intros (C & Hs & B1 & B2) Htc Hso. destruct (corpus_remove_ok _ _ _ C Htc) as (c & Hrem & C' & _ & Hl).
  set (s1 := s <| corpus := c |>).
  assert (∀ x, idx s1 x = if decide (x = id) then None else idx s x) as Hi.
  { intros x. unfold idx. change (corpus s1) with c. rewrite Hl. by case_decide. }
  destruct (reassign_ok id s1) as (s' & Hrun & Hm & Hmv & Hk & Ho).
  - done.
  - intros x t Hx. change (corpus s1) with c in Hx. rewrite Hl in Hx. case_decide; [done|]. by eapply Hs.
  - by rewrite Hi, decide_True.
  - split; intros ? ? Hne; rewrite Hi, decide_False by congruence; [apply B1; auto|apply B2; auto].
  - intros x m. rewrite Hi. case_decide; [done|]. apply Hso.
  - exists c, s'. split_and!; [done|done|done|done|exact Hk|]. intros e He. destruct (Ho e He) as [? Hx].
    split; [done|]. rewrite Hx. apply exist_proper. intros x. unfold has. rewrite Hi. case_decide; naive_solver.
Qed.

Context {T : Type} `{B : Scheduler T} {binv : Sched T → Prop}.
Context `{!BaseLaws (scorable := scorable) (cost := cost) B binv}.
Abbreviation full_inv := (full_inv (scorable := scorable) (binv := binv)).

(** What the fuzzer asks of the scheduler. *)
Inductive MinOp := Store (tc : Testcase) (l : list usize) | Next (fuel : nat).
Definition run_op (op : MinOp) : M (Sched (MinimizerScheduler T)) () :=
  match op with
  | Store tc _ => store tc ;;; ret ()
  | Next fuel => next fuel ;;; ret ()
  end.
Fixpoint run_ops (ops : list MinOp) : M (Sched (MinimizerScheduler T)) () :=
  match ops with
  | [] => ret ()
  | op :: ops => run_op op ;;; run_ops ops
  end.
Definition op_ok (op : MinOp) : Prop := match op with Store tc l => indexed tc l | Next _ => True end.
Definition stored (ops : list MinOp) (k : usize) : Prop := ∃ tc l, Store tc l ∈ ops ∧ k ∈ l.
(** There is something to pick. *)
Definition ready (w : Sched (MinimizerScheduler T)) (ops : list MinOp) : Prop :=
  InMemory.ids (corpus (sst w)) ≠ [] ∨ match ops with Next _ :: _ => False | _ => True end.

Lemma min_op_ok op w : full_inv w → op_ok op → ready w [op] →
  (Z.of_nat (InMemory.count (corpus (sst w))) < u64_max)%Z →
  ∃ w', run_op op w = (Ok (), w') ∧ full_inv w' ∧ InMemory.ids (corpus (sst w')) ≠ [] ∧
    InMemory.count (corpus (sst w')) ≤ S (InMemory.count (corpus (sst w))) ∧
    ∀ k, is_Some (tops (sst w') !! k) ↔ is_Some (tops (sst w) !! k) ∨ stored [op] k.
Proof.
  intros Hw Hop Hr Hc. pose proof (proj1 (proj2 Hw)) as C. destruct op as [tc l|fuel].
  - destruct (min_store_ok w tc l Hw Hop Hc) as (id & w' & Hrun & Hw' & Hids & Hk & _).
    exists w'. cbn [run_op]. unfold bind. rewrite Hrun. split_and!; [done|done| | |].
    + rewrite Hids. by intros []%app_nil.
    + rewrite !count_ids by (apply Hw' || done). rewrite Hids, length_app. cbn. lia.
    + intros k. rewrite Hk. unfold stored. setoid_rewrite list_elem_of_singleton. naive_solver.
  - destruct (min_next_ok fuel w Hw) as (r & w' & Hrun & Hw' & Ht & Hids & _); [by destruct Hr|].
    exists w'. cbn [run_op]. unfold bind. rewrite Hrun. split_and!; [done|done| | |].
    + rewrite Hids. by destruct Hr.
    + rewrite !count_ids by (apply Hw' || done). rewrite Hids. lia.
    + intros k. rewrite Ht. split; [by left|]. intros [?|(tc & l & Hin & _)]; [done|].
      by apply list_elem_of_singleton in Hin.
Qed.

(** C20. A campaign of the scheduler: over any sequence of stored testcases and picks, on top of any
    base scheduler that keeps its promise, no operation fails; the indexes with a holder are
    exactly those that had one or belong to a stored testcase, and after one more pick each
    of them is reached by a favoured entry; the pick is an entry of the corpus, and the search
    for one goes on only while the corpus has an entry that is not favoured. *)
Theorem minimizer_run w ops fuel :
  full_inv w → Forall op_ok ops → ready w (ops ++ [Next fuel]) →
  (Z.of_nat (InMemory.count (corpus (sst w)) + length ops) < u64_max)%Z →
  ∃ w' r w'', run_ops ops w = (Ok (), w') ∧ full_inv w' ∧
    (∀ k, is_Some (tops (sst w') !! k) ↔ is_Some (tops (sst w) !! k) ∨ stored ops k) ∧
    next fuel w' = (Ok r, w'') ∧ full_inv w'' ∧
    (∀ k, is_Some (tops (sst w') !! k) → fav_covers (sst w'') k) ∧
    (∀ x, r = Some x → x ∈ InMemory.ids (corpus (sst w'))) ∧
    (r = None → ∃ x tc, tc_at (corpus (sst w'')) x = Some tc ∧ tc_favored tc = false).
Proof.
  intros Hw Hops. revert w Hw. induction Hops as [|op ops Hop Hops IH]; intros w Hw Hr Hc.
  - destruct (min_next_ok fuel w Hw) as (r & w' & Hrun & Hw' & Ht & _ & _ & Hk & Hx & Hn & _); [by destruct Hr|].
    exists w, r, w'. rewrite Ht in Hk. split_and!; try done. intros k. split; [by left|].
    intros [?|(tc & l & Hin & _)]; [done|]. by apply elem_of_nil in Hin.
  - cbn [length] in Hc. destruct (min_op_ok op w Hw Hop) as (w1 & Hrun & Hw1 & Hne & Hc1 & Hk1); [|lia|].
    { destruct Hr as [?|Hr]; [by left|]. right. by destruct op. }
    destruct (IH w1 Hw1) as (w' & r & w'' & Hrun' & Hw' & Hk' & Hrest); [by left|lia|].
    exists w', r, w''. cbn [run_ops]. unfold bind. rewrite Hrun.
    split; [done|]. split; [done|]. split; [|exact Hrest].
    intros k. rewrite Hk', Hk1. unfold stored. setoid_rewrite list_elem_of_singleton. setoid_rewrite elem_of_cons.
    naive_solver.
Qed.
End Promises.

(** ** A concrete scheduler *)

Definition demo_min : Sched (MinimizerScheduler WeightedScheduler) :=
  mkSched (new (obj demo_empty)) (sst demo_empty).
(** Two testcases with overlapping indexes; the second one is shorter. *)
Definition demo_tc1 : Testcase :=
  (Testcase_new [Byte.x00; Byte.x01]) <| tc_map_indexes := Some (MapIndexesMetadata_new [1; 2]) |>.
Definition demo_tc2 : Testcase :=
  (Testcase_new [Byte.x00]) <| tc_map_indexes := Some (MapIndexesMetadata_new [2; 3]) |>.
Definition demo_base : Scheduler WeightedScheduler :=
  WeightedBase (CorpusWeightTestcaseScore (H := toy_libm)).

Lemma len_time_sched tc m p : length_known tc →
  length_known (tc <| tc_sched := m |>) ∧ len_time_cost (tc <| tc_sched := m |>) = len_time_cost tc ∧
  length_known (tc <| tc_sched := m |> <| parent_id := p |>) ∧
  len_time_cost (tc <| tc_sched := m |> <| parent_id := p |>) = len_time_cost tc.
Proof. done. Qed.

Definition demo_base_laws : BaseLaws demo_base weighted_inv :=
  weighted_base_laws (L := toy_libm) len_time_sched.

Lemma demo_min_inv : min_inv (scorable := length_known) (sst demo_min).
Proof.
  split_and!; [apply cwf_new| |].
  - intros id tc Htc. assert (id ∈ InMemory.ids (corpus (sst demo_min))) as Hid
      by (apply tc_at_ids; [apply cwf_new|by eexists]).
    vm_compute in Hid. by apply elem_of_nil in Hid.
  - split; [done|]. intros x m _ Hm. apply idx_inv in Hm as (tc & Htc & _).
    assert (x ∈ InMemory.ids (corpus (sst demo_min))) as Hid
      by (apply tc_at_ids; [apply cwf_new|by eexists]).
    vm_compute in Hid. by apply elem_of_nil in Hid.
Qed.
Lemma demo_full_inv : full_inv (scorable := length_known) (binv := weighted_inv) demo_min.
Proof.
  split; [|exact demo_min_inv]. split_and!; [exact demo_empty_inv|by left|by eexists|done].
Qed.

Lemma minimizer_run_witness :
  ∃ w' r w'', run_ops (F := LenTimeMulTestcaseScore) (B := demo_base) (H := toy_env)
      [Store demo_tc1 [1; 2]; Next 5; Store demo_tc2 [2; 3]] demo_min = (Ok (), w') ∧
    next (H := toy_env) (H0 := demo_base) 5 w' = (Ok r, w'') ∧
    fav_covers (sst w'') 1 ∧ fav_covers (sst w'') 3.
Proof.
  destruct (minimizer_run (F := LenTimeMulTestcaseScore) (cost := len_time_cost) (H := toy_env)
    (BaseLaws0 := demo_base_laws)
    demo_min [Store demo_tc1 [1; 2]; Next 5; Store demo_tc2 [2; 3]] 5 demo_full_inv)
    as (w' & r & w'' & Hrun & _ & Hk & Hnext & _ & Hcov & _).
  - repeat constructor; try done; try (by left); try (by eexists); set_solver.
  - by right.
  - done.
  - exists w', r, w''. split_and!; [exact Hrun|exact Hnext| |]; apply Hcov, Hk; right.
    + exists demo_tc1, [1; 2]. split; [by left|by left].
    + exists demo_tc2, [2; 3]. split; [right; right; by left|right; by left].
Defined.

(** The state after both testcases were stored. *)
Abbreviation demo_ops := (run_ops (F := LenTimeMulTestcaseScore) (B := demo_base) (H := toy_env)).
Definition demo_stored : Sched (MinimizerScheduler WeightedScheduler) :=
  (demo_ops [Store demo_tc1 [1; 2]; Store demo_tc2 [2; 3]] demo_min).2.

Lemma demo_stored_inv : min_inv (scorable := length_known) (sst demo_stored).
Proof.
  assert (∀ op w, full_inv (scorable := length_known) (binv := weighted_inv) w → op_ok (scorable := length_known) op →
    (if op is Next _ then false else true) = true →
    (Z.of_nat (InMemory.count (corpus (sst w))) < u64_max)%Z →
    full_inv (scorable := length_known) (binv := weighted_inv) (demo_ops [op] w).2) as Hstep.
  { intros op w Hw Hop Hop' Hc.
    destruct (min_op_ok (F := LenTimeMulTestcaseScore) (cost := len_time_cost) (H := toy_env)
      (BaseLaws0 := demo_base_laws) op w Hw Hop) as (w' & Hrun & Hw' & _); [by right; destruct op|done|].
    cbn [run_ops]. unfold bind. by rewrite Hrun. }
  assert (full_inv (scorable := length_known) (binv := weighted_inv) (demo_ops [Store demo_tc1 [1; 2]] demo_min).2) as H1.
  { apply Hstep; [exact demo_full_inv| |done|done].
    split_and!; [done|repeat constructor; set_solver|left; by eexists]. }
  assert (full_inv (scorable := length_known) (binv := weighted_inv)
    (demo_ops [Store demo_tc2 [2; 3]] (demo_ops [Store demo_tc1 [1; 2]] demo_min).2).2) as H2.
  { apply Hstep; [exact H1| |done|vm_compute; reflexivity].
    split_and!; [done|repeat constructor; set_solver|left; by eexists]. }
  assert ((demo_ops [Store demo_tc2 [2; 3]] (demo_ops [Store demo_tc1 [1; 2]] demo_min).2).2 = demo_stored) as E
    by (vm_compute; reflexivity).
  rewrite E in H2. apply H2.
Qed.

Lemma update_score_spec_witness : ∃ s',
  update_score (F := LenTimeMulTestcaseScore) true 1 (sst demo_stored) = (Ok (), s') ∧ tops s' !! 3 = Some 1.
Proof.
  destruct (update_score_spec (F := LenTimeMulTestcaseScore) (cost := len_time_cost) true 1 (sst demo_stored)
    (default demo_tc1 (tc_at (corpus (sst demo_stored)) 1)) (mkMapIndexes [2; 3] 2) demo_stored_inv)
    as (s' & Hrun & _ & _ & Ht & _); [vm_compute; reflexivity|vm_compute; reflexivity|].
  exists s'. split; [exact Hrun|]. apply Ht; [by right; left|]. unfold takes.
  assert (tops (sst demo_stored) !! 3 = Some 1) as -> by (vm_compute; reflexivity). by left.
Defined.

Lemma cull_covers_witness : ∃ s',
  cull (H := toy_env) (sst demo_stored) = (Ok (), s') ∧ fav_covers s' 1.
Proof.
  destruct (cull_covers (F := LenTimeMulTestcaseScore) (cost := len_time_cost) (H := toy_env)
    (sst demo_stored) demo_stored_inv) as (s' & Hrun & _ & _ & Ht & Hc).
  exists s'. split; [exact Hrun|]. apply Hc. rewrite Ht. vm_compute. by eexists.
Defined.

(** The second entry goes: its index 2 falls back to the first one, its index 3 is dropped. *)
Lemma remove_spec_witness : ∃ c s',
  InMemory.remove 1 (corpus (sst demo_stored)) = Ok (default demo_tc1 (tc_at (corpus (sst demo_stored)) 1), c) ∧
  reassign (F := LenTimeMulTestcaseScore) (H := toy_env) 1 ((sst demo_stored) <| corpus := c |>) = (Ok (), s') ∧
  is_Some (tops s' !! 2).
Proof.
  destruct (remove_spec (F := LenTimeMulTestcaseScore) (cost := len_time_cost) (H := toy_env) 1 (sst demo_stored)
    (default demo_tc1 (tc_at (corpus (sst demo_stored)) 1)) demo_stored_inv)
    as (c & s' & Hrem & Hrun & _ & _ & _ & Ho).
  - vm_compute; reflexivity.
  - intros x m Hx. assert (x ∈ InMemory.ids (corpus (sst demo_stored))) as Hid.
    { apply idx_inv in Hx as (tc & Htc & _). apply tc_at_ids; [apply demo_stored_inv|by eexists]. }
    vm_compute in Hid. apply list_elem_of_In in Hid as [<-|[<-|[]]]; vm_compute in Hx; injection Hx as <-;
      repeat constructor.
  - exists c, s'. split_and!; [exact Hrem|exact Hrun|]. apply Ho; [vm_compute; reflexivity|]. exists 0. split; [done|].
    exists (mkMapIndexes [1; 2] 1). split; [vm_compute; reflexivity|by right; left].
Defined.
