(* ===== verification/Fuzzer.v ===== *)
(** * Fuzzer: [libafl/src/fuzzer/mod.rs]

    [StdFuzzer]: an input is executed, the objective and the feedback judge what the observers saw, and
    the input is stored as a solution, stored in the corpus and announced to the scheduler, or
    dropped; [fuzz_one] picks an entry and runs the stages on it, and [fuzz_loop_for] does so a number of times, for any stages that
    keep the contract [stages_ok].  The scheduler is the minimizer
    over any base scheduler, the feedback any instance of [Feedback], the objective a feedback on the
    exit kind; the theorems ask for [BaseLaws] of the first and [FeedbackLaws] of the second.

    The program under test is the class [Target]: what it leaves in the counters, how it ends and how long
    it takes.  The event manager's other answers are the class [Manager].  Both corpora are in-memory
    corpora of [Corpus]; those that keep their entries in files are in [DiskCorpus]. *)

From Stdlib Require Import ZArith Lia.
From S2P Require Import Prelude Float64 FloatFacts Rands Corpus Metadata State Factor WeightRefresh MapObserver MapFeedback CreditFeedback Feedbacks TestcaseScore Weighted Minimizer.
Import InMemoryFacts.

(** ** The target and the event manager *)

(** [run input n] is the [n]th execution: exit kind, raw counters of edges and sancov sites,
    runtime.  [hash_map] is [hash_simple] of the edges map. *)
Class Target := mkTarget {
  run : list Byte.byte → u64 → outcome Error (ExitKind * list Z * list Z * Duration);
  hash_map : list Z → u64;
  little_endian : bool;
  map_align : usize;
}.

(** A target that can be run leaves bytes in the counters; a map of two-byte words begins at most one byte
    before an aligned address. *)
Class TargetLaws (E : Target) := {
  run_ok : ∀ input n, ∃ kind edges sancov elapsed, run input n = Ok (kind, edges, sancov, elapsed);
  run_u8 : ∀ input n kind edges sancov elapsed, run input n = Ok (kind, edges, sancov, elapsed) → Forall is_u8 edges;
  run_aligned : map_align ≤ 1;
}.

Class Manager := mkManager {
  should_send : bool;
  always_unique : bool;
  serialize_observers : Observers → outcome Error (option (list Byte.byte));
  process_events : State → outcome Error ();
  on_shutdown : State → outcome Error ();
  maybe_report_progress : State → outcome Error ();
  report_progress : State → outcome Error ();
}.

Inductive ExecuteInputResult := ResNone | ResCorpus | ResSolution.
#[global] Instance ExecuteInputResult_eq_dec : EqDecision ExecuteInputResult.
Proof. solve_decision. Defined.

(** The fuzzer with the observers of its executor and the state. *)
Record StdFuzzer (T F : Type) := mkFuzzer {
  scheduler : MinimizerScheduler T;
  feedback : F;
  objective : ExitKindFeedback;
  observers : Observers;
  fst_state : State;
}.
Arguments mkFuzzer {T F} _ _ _ _ _.
Arguments scheduler {T F} _.
Arguments feedback {T F} _.
Arguments objective {T F} _.
Arguments observers {T F} _.
Arguments fst_state {T F} _.
#[global] Instance eta_StdFuzzer T F : Eta (StdFuzzer T F) := λ r,
  mkFuzzer (scheduler r) (feedback r) (objective r) (observers r) (fst_state r).

Section Fuzzer.
Context `{Env} `{Target} `{Manager} `{TestcaseScore} {T F : Type} `{Scheduler T} `{Feedback F}.
Abbreviation Fuzz A := (M (StdFuzzer T F) A).

(** ** Parts of the fuzzer *)

Definition on_state {A} (m : M State A) : Fuzz A := λ z,
  let '(r, s) := m (fst_state z) in (r, z <| fst_state := s |>).
Definition on_scheduler {A} (m : M (Sched (MinimizerScheduler T)) A) : Fuzz A := λ z,
  let '(r, w) := m (mkSched (scheduler z) (fst_state z)) in
  (r, z <| scheduler := obj w |> <| fst_state := sst w |>).
(** A method of the feedback or of the objective that changes its object. *)
Definition on_feedback {A} (m : F → M State (A * F)) : Fuzz A := λ z,
  match m (feedback z) (fst_state z) with
  | (Ok (a, f), s) => (Ok a, z <| feedback := f |> <| fst_state := s |>)
  | (Err e, s) => (Err e, z <| fst_state := s |>)
  | (Panic, s) => (Panic, z <| fst_state := s |>)
  end.
Definition on_objective {A} (m : ExitKindFeedback → M State (A * ExitKindFeedback)) : Fuzz A := λ z,
  match m (objective z) (fst_state z) with
  | (Ok (a, f), s) => (Ok a, z <| objective := f |> <| fst_state := s |>)
  | (Err e, s) => (Err e, z <| fst_state := s |>)
  | (Panic, s) => (Panic, z <| fst_state := s |>)
  end.
Definition swap {A B} (m : M State (A * B)) : M State (B * A) := r <- m ;; ret (r.2, r.1).
Definition discard {A} (m : M State A) : M State (() * A) := a <- m ;; ret ((), a).

(** ** Execution *)

(** [execute_input], with the executor's [run_target], which counts the execution. *)
Definition execute_input (input : list Byte.byte) : Fuzz ExitKind :=
  modify (λ z, z <| observers := pre_exec_all (observers z) |>) ;;;
  n <- gets (λ z, executions (fst_state z)) ;;
  on_state (modify (λ s, s <| executions := wrap64 (executions s + 1) |>)) ;;;
  r <- lift (run input n) ;;
  let '(exit_kind, edges, sancov, elapsed) := r : ExitKind * list Z * list Z * Duration in
  modify (λ z, z <| observers := (observers z)
    <| ob_edges := (ob_edges (observers z)) <| mo_entries := edges |> |>
    <| ob_sancov := (ob_sancov (observers z)) <| mo_entries := sancov |> |> |>) ;;;
  modify (λ z, z <| observers := post_exec_all little_endian map_align elapsed (observers z) |>) ;;;
  ret exit_kind.

(** ** Judging an execution *)

Definition check_results (exit_kind : ExitKind) : Fuzz ExecuteInputResult :=
  obs <- gets observers ;;
  is_solution <- on_objective (λ o, fb_is_interesting o obs exit_kind) ;;
  if (is_solution : bool) then ret ResSolution
  else
    corpus_worthy <- on_feedback (λ f, fb_is_interesting f obs exit_kind) ;;
    ret (if (corpus_worthy : bool) then ResCorpus else ResNone).

(** [state.current_testcase_mut()], if there is one. *)
Definition found_objective : M State () :=
  cur <- gets corpus_id ;;
  match cur with
  | None => ret ()
  | Some id =>
    c <- gets corpus ;;
    match InMemory.get id c with
    | Ok _ => change_testcase id (λ tc, tc <| objectives_found :=
                if (Z.of_nat (objectives_found tc) <? u64_max)%Z then S (objectives_found tc)
                else objectives_found tc |>)
    | _ => ret ()
    end
  end.

Definition solutions_add (tc : Testcase) : M State CorpusId :=
  c <- gets solutions ;;
  r <- lift (InMemory.add tc c) ;;
  modify (λ s, s <| solutions := r.2 |>) ;;;
  ret r.1.

Definition process_execution (input : list Byte.byte) (exec_res : ExecuteInputResult) : Fuzz (option CorpusId) :=
  obs <- gets observers ;;
  match exec_res with
  | ResNone =>
    on_feedback (λ f, discard (fb_discard_metadata f)) ;;;
    on_objective (λ o, discard (fb_discard_metadata o)) ;;;
    ret None
  | ResCorpus =>
    on_objective (λ o, discard (fb_discard_metadata o)) ;;;
    testcase <- on_feedback (λ f, swap (fb_append_metadata f obs (Testcase_new input))) ;;
    id <- on_state (corpus_add testcase) ;;
    on_scheduler (on_add id) ;;;
    ret (Some id)
  | ResSolution =>
    on_feedback (λ f, discard (fb_discard_metadata f)) ;;;
    parent <- gets (λ z, InMemory.current (corpus (fst_state z))) ;;
    let testcase := (Testcase_new input) <| parent_id := parent |> in
    on_state found_objective ;;;
    testcase <- on_objective (λ o, swap (fb_append_metadata o obs testcase)) ;;
    on_state (solutions_add testcase) ;;;
    ret None
  end.

Definition dispatch_event (input : list Byte.byte) (exec_res : ExecuteInputResult)
    (observers_buf : option (list Byte.byte)) (exit_kind : ExitKind) : Fuzz () :=
  match exec_res with
  | ResCorpus =>
    if should_send then
      on_state (size <- gets (λ s, InMemory.count (corpus s)) ;;
                time <- now_ms ;;
                fire (NewTestcase input observers_buf exit_kind size time))
    else ret ()
  | ResSolution =>
    if should_send then
      on_state (size <- gets (λ s, InMemory.count (solutions s)) ;;
                time <- now_ms ;;
                fire (Objective size time))
    else ret ()
  | ResNone => ret ()
  end.

Definition serialize_and_dispatch (input : list Byte.byte) (exec_res : ExecuteInputResult) (exit_kind : ExitKind) :
    Fuzz () :=
  obs <- gets observers ;;
  observers_buf <- match exec_res with
                   | ResCorpus =>
                     if should_send then
                       if always_unique then ret None else lift (serialize_observers obs)
                     else ret None
                   | _ => ret None
                   end ;;
  dispatch_event input exec_res observers_buf exit_kind.

Definition set_last_found_time : M State () :=
  time <- now_ms ;; modify (λ s, s <| last_found_time := time |>).

Definition evaluate_execution (input : list Byte.byte) (exit_kind : ExitKind) (send_events : bool) :
    Fuzz (ExecuteInputResult * option CorpusId) :=
  exec_res <- check_results exit_kind ;;
  corpus_id <- process_execution input exec_res ;;
  (if send_events then serialize_and_dispatch input exec_res exit_kind else ret ()) ;;;
  (if bool_decide (exec_res ≠ ResNone) then on_state set_last_found_time else ret ()) ;;;
  ret (exec_res, corpus_id).

(** ** Evaluating an input *)

Definition evaluate_input_with_observers (input : list Byte.byte) (send_events : bool) :
    Fuzz (ExecuteInputResult * option CorpusId) :=
  exit_kind <- execute_input input ;;
  obs <- gets observers ;;
  on_scheduler (on_evaluation (Some (hash_map (mo_entries (ob_edges obs))))) ;;;
  evaluate_execution input exit_kind send_events.

Definition evaluate_input_events := evaluate_input_with_observers.
Definition evaluate_input (input : list Byte.byte) : Fuzz (ExecuteInputResult * option CorpusId) :=
  evaluate_input_events input true.

(** An input that is stored in any case. *)
Definition add_input (input : list Byte.byte) : Fuzz CorpusId :=
  on_state set_last_found_time ;;;
  exit_kind <- execute_input input ;;
  obs <- gets observers ;;
  is_solution <- on_objective (λ o, fb_is_interesting o obs exit_kind) ;;
  if (is_solution : bool) then
    testcase <- on_objective (λ o, swap (fb_append_metadata o obs (Testcase_new input))) ;;
    id <- on_state (solutions_add testcase) ;;
    on_state (size <- gets (λ s, InMemory.count (solutions s)) ;;
              time <- now_ms ;;
              fire (Objective size time)) ;;;
    ret id
  else
    on_objective (λ o, discard (fb_discard_metadata o)) ;;;
    _corpus_worthy <- on_feedback (λ f, fb_is_interesting f obs exit_kind) ;;
    testcase <- on_feedback (λ f, swap (fb_append_metadata f obs (Testcase_new input))) ;;
    id <- on_state (corpus_add testcase) ;;
    on_scheduler (on_add id) ;;;
    observers_buf <- (if always_unique then ret None else lift (serialize_observers obs)) ;;
    on_state (size <- gets (λ s, InMemory.count (corpus s)) ;;
              time <- now_ms ;;
              fire (NewTestcase input observers_buf exit_kind size time)) ;;;
    ret id.

Definition add_disabled_input (input : list Byte.byte) : M State CorpusId :=
  c <- gets corpus ;;
  r <- lift (InMemory.add_disabled ((Testcase_new input) <| tc_disabled := true |>) c) ;;
  modify (λ s, s <| corpus := r.2 |>) ;;;
  ret r.1.

(** ** The loop *)

Definition bump_scheduled (id : CorpusId) : M State () :=
  c <- gets corpus ;;
  match InMemory.get id c with
  | Ok _ => change_testcase id (λ tc, tc <| scheduled_count := S (scheduled_count tc) |>)
  | _ => ret ()
  end.

(** What follows the stages. *)
Definition round_end (id : CorpusId) : Fuzz (option CorpusId) :=
  s <- gets fst_state ;;
  lift (process_events s) ;;;
  on_state (bump_scheduled id) ;;;
  on_state (modify (λ s, s <| corpus_id := None |>)) ;;;
  stop <- gets (λ z, stop_requested (fst_state z)) ;;
  if (stop : bool) then
    on_state (modify (λ s, s <| stop_requested := false |>)) ;;;
    s <- gets fst_state ;;
    lift (on_shutdown s) ;;;
    throw ShuttingDown
  else ret (Some id).

(** [None] when the search of the minimizer uses up [fuel].  [stages] is [perform_all], which changes the stages [st]. *)
Definition fuzz_one {St} (fuel : nat) (stages : St → Fuzz St) (st : St) : Fuzz (option CorpusId * St) :=
  cur <- gets (λ z, corpus_id (fst_state z)) ;;
  oid <- match cur with
         | Some id => ret (Some id)
         | None =>
           oid <- on_scheduler (next fuel) ;;
           match oid with
           | Some id => on_state (modify (λ s, s <| corpus_id := Some id |>)) ;;; ret (Some id)
           | None => ret None
           end
         end ;;
  match oid with
  | None => ret (None, st)
  | Some id => st <- stages st ;; r <- round_end id ;; ret (r, st)
  end.

(** The rounds of [fuzz_loop_for]; [fuzz_loop] repeats the same round for ever. *)
Fixpoint fuzz_rounds {St} (fuel : nat) (stages : St → Fuzz St) (iters : nat) (last : option CorpusId) (st : St) :
    Fuzz (option CorpusId * St) :=
  match iters with
  | O => ret (last, st)
  | S iters =>
    s <- gets fst_state ;;
    lift (maybe_report_progress s) ;;;
    r <- fuzz_one fuel stages st ;;
    match r with
    | (None, st) => ret (None, st)
    | (Some id, st) => fuzz_rounds fuel stages iters (Some id) st
    end
  end.
Definition fuzz_loop_for {St} (fuel : nat) (stages : St → Fuzz St) (iters : nat) (st : St) : Fuzz (option CorpusId * St) :=
  if iters =? 0 then throw (illegal_argument "Cannot fuzz for 0 iterations!" [])
  else
    r <- fuzz_rounds fuel stages iters None st ;;
    match r with
    | (None, st) => ret (None, st)
    | (Some id, st) => s <- gets fst_state ;; lift (report_progress s) ;;; ret (Some id, st)
    end.
End Fuzzer.

(** ** What the fuzzer keeps *)

Section Facts.
Context `{Env, !EnvLaws _} `{Target} `{Manager}.
Context `{TS : TestcaseScore} {scorable : Testcase → Prop} {cost : Testcase → f64} `{!CostLaws TS scorable cost}.
Context {T F : Type} `{B : Scheduler T} {binv : Sched T → Prop}.
Context `{!BaseLaws (scorable := scorable) (cost := cost) B binv}.
Context `{FB : Feedback F} {P : FeedbackSpec F} `{!FeedbackLaws FB P}.
Abbreviation full_inv := (full_inv (scorable := scorable) (binv := binv)).
Abbreviation min_inv := (min_inv (scorable := scorable)).
Abbreviation touch := (touch (scorable := scorable) (cost := cost)).
Abbreviation moved := (moved (scorable := scorable) (cost := cost)).

Definition sched_of (z : StdFuzzer T F) : Sched (MinimizerScheduler T) := mkSched (scheduler z) (fst_state z).

(** Schedulers and feedback are in order, and the indexes that have a holder among the corpus
    entries are exactly those the feedback knows as covered. *)
Definition fuzz_inv (z : StdFuzzer T F) : Prop :=
  full_inv (sched_of z) ∧ fs_inv P (feedback z) (fst_state z) ∧
  (∀ k, is_Some (tops (fst_state z) !! k) ↔ fs_cover P (fst_state z) k) ∧ cwf (solutions (fst_state z)) ∧
  watching (observers z).

Lemma full_inv_part o s s' : full_inv (mkSched o s) → sched_part s s' → full_inv (mkSched o s').
Proof.
  intros [Hb Hm] Hp. split; [by eapply base_frame|by eapply sched_part_min_inv].
Qed.
Lemma part_tops s s' : sched_part s s' → tops s' = tops s.
Proof. intros (_ & E & _). unfold tops. by rewrite E. Qed.

(** A step of neither scheduler nor feedback. *)
Lemma fuzz_inv_frame z s' obs : fuzz_inv z → sched_part (fst_state z) s' → feedback_part (fst_state z) s' →
  cwf (solutions s') → watching obs → fuzz_inv (z <| observers := obs |> <| fst_state := s' |>).
Proof.
  intros (Hw & Hf & Hc & _) Hp Hfp Hs Ho. destruct (law_part _ _ _ Hf Hfp) as (Hf' & Hc' & _).
  unfold fuzz_inv, sched_of. cbn. split; [by eapply full_inv_part|split; [done|split; [|by split]]].
  intros k. by rewrite (part_tops _ _ Hp), Hc', Hc.
Qed.

(** A change of the entries that the bookkeeping does not see. *)
Lemma touch_full_inv favored o s s' : full_inv (mkSched o s) → touch favored s s' → (∀ x, idx s' x = idx s x) →
  full_inv (mkSched o s').
Proof.
  intros [Hb Hm] Ht Hi. split; [|by eapply touch_min_inv]. eapply (base_moved _ s); [done| |by apply Hm].
  unfold Minimizer.moved. cbn [sst]. rewrite (touch_tops _ _ _ Ht). by destruct s.
Qed.

Lemma touch_outside favored s s' : touch favored s s' → outside s s'.
Proof. intros ((E & _) & _). rewrite E. done. Qed.

Lemma fuzz_inv_touch favored z s' : fuzz_inv z → touch favored (fst_state z) s' →
  (∀ x, idx s' x = idx (fst_state z) x) → fuzz_inv (z <| fst_state := s' |>).
Proof.
  intros (Hw & Hf & Hc & Hs & Ho) Ht Hi. pose proof (touch_outside _ _ _ Ht) as [Hfp Hzp].
  destruct (law_part _ _ _ Hf Hfp) as (Hf' & Hc' & _).
  unfold fuzz_inv, sched_of. cbn. split; [by eapply touch_full_inv|split; [done|split; [|split; [|done]]]].
  - intros k. unfold tops. by rewrite (touch_tops _ _ _ Ht), Hc', <-Hc.
  - destruct Hzp as (-> & _). done.
Qed.

(** ** What the mutators rely on *)

(** Dictionary, logged comparisons, swarm, size limit and the current entry stay; so do the inputs of the
    entries, and an entry that is new has the input [input]. *)
Definition mut_part (s s' : State) : Prop :=
  m_tokens s' = m_tokens s ∧ m_cmps s' = m_cmps s ∧ m_mopt s' = m_mopt s ∧ max_size s' = max_size s ∧
  corpus_id s' = corpus_id s ∧ stop_requested s' = stop_requested s.
#[global] Instance mut_part_equivalence : Equivalence mut_part.
Proof. split; unfold mut_part; repeat intro; destruct_and?; split_and!; congruence. Qed.
Definition kept_inputs (input : list Byte.byte) (s s' : State) : Prop :=
  same_disabled (corpus s) (corpus s') ∧
  ∀ x t', tc_at (corpus s') x = Some t' →
    (∃ t, tc_at (corpus s) x = Some t ∧ tc_input t' = tc_input t) ∨ tc_input t' = Some input.
Definition grew (input : list Byte.byte) (s s' : State) : Prop := mut_part s s' ∧ kept_inputs input s s'.
#[global] Instance grew_preorder input : PreOrder (grew input).
Proof.
  split.
  - intros s. split; [done|]. split; [done|]. intros x t' Ht. left. by exists t'.
  - intros s1 s2 s3 [M1 [D1 K1]] [M2 [D2 K2]]. unfold grew, kept_inputs, same_disabled in *.
    split; [by etrans|]. split; [congruence|]. intros x t3 Ht3.
    destruct (K2 x t3 Ht3) as [(t2 & Ht2 & E2)|?]; [|by right]. rewrite E2. by apply (K1 x).
Qed.

Lemma fuzzer_mut_part s s' : fuzzer_part s s' → mut_part s s'.
Proof. intros (? & ? & ? & ? & ? & ? & ? & ? & ?). by split_and!. Qed.
Lemma grew_same input s s' : mut_part s s' → corpus s' = corpus s → grew input s s'.
Proof.
  intros Hm Hc. split; [done|]. unfold kept_inputs. rewrite Hc. split; [done|]. intros x t' Ht. left. by exists t'.
Qed.
Lemma grew_touch input favored s s' : touch favored s s' → all_scorable (scorable := scorable) s → grew input s s'.
Proof.
  intros ((E & _ & _ & D) & _ & Hx) Hs. split; [rewrite E; by split_and!|]. split; [done|]. intros x t' Ht'. specialize (Hx x).
  rewrite Ht' in Hx. destruct (tc_at (corpus s) x) as [t|] eqn:Ht; [|done]. left. exists t. split; [done|].
  by destruct (Hx (Hs x t Ht)) as (_ & _ & _ & -> & _).
Qed.

(** ** Execution *)

(** What the observers show after an execution. *)
Definition observed (obs : Observers) (edges sancov : list Z) (elapsed : Duration) : Observers :=
  post_exec_all little_endian map_align elapsed
    ((pre_exec_all obs) <| ob_edges := (ob_edges (pre_exec_all obs)) <| mo_entries := edges |> |>
       <| ob_sancov := (ob_sancov (pre_exec_all obs)) <| mo_entries := sancov |> |>).

Definition executed (z : StdFuzzer T F) (obs : Observers) : StdFuzzer T F :=
  z <| observers := obs |> <| fst_state := (fst_state z) <| executions := wrap64 (executions (fst_state z) + 1) |> |>.

Lemma execute_ok input z kind edges sancov elapsed :
  run input (executions (fst_state z)) = Ok (kind, edges, sancov, elapsed) →
  execute_input input z = (Ok kind, executed z (observed (observers z) edges sancov elapsed)).
Proof.
  intros Hrun. unfold execute_input. rewrite bind_modify, bind_gets. unfold bind at 1, on_state, modify.
  cbn [fst_state]. unfold bind at 1, lift. cbn. rewrite Hrun. by destruct z.
Qed.

Lemma observed_watching obs edges sancov elapsed : watching obs → watching (observed obs edges sancov elapsed).
Proof. done. Qed.
Lemma executed_inv z obs : fuzz_inv z → watching obs → fuzz_inv (executed z obs).
Proof. intros Hz Ho. apply fuzz_inv_frame; [done|done|done|apply Hz|done]. Qed.

(** The scheduler counts the execution. *)
Lemma evaluation_ok z h : fuzz_inv z →
  ∃ z', on_scheduler (on_evaluation (Some h)) z = (Ok (), z') ∧ fuzz_inv z' ∧
    feedback z' = feedback z ∧ objective z' = objective z ∧ observers z' = observers z ∧
    outside (fst_state z) (fst_state z') ∧
    InMemory.ids (corpus (fst_state z')) = InMemory.ids (corpus (fst_state z)) ∧
    ∀ input, grew input (fst_state z) (fst_state z').
Proof.
  intros (Hw & Hf & Hc & Hs & Ho). destruct Hw as [Hb Hm].
  destruct (base_evaluation (base_of (sched_of z)) h Hb) as (b & Hrun & Hb' & Hfr).
  unfold on_scheduler, on_evaluation. fold (sched_of z). rewrite (on_base_ok _ _ _ _ Hrun).
  eexists. split; [done|]. cbn.
  pose proof (bframe_min_inv _ _ Hfr Hm) as Hm'. destruct Hfr as (Ht & [Hfp Hzp] & Hcw & D & E).
  destruct (law_part _ _ _ Hf Hfp) as (Hf' & Hc' & _).
  split; [|do 3 (split; [done|])].
  - unfold fuzz_inv, sched_of. cbn. split; [split; [by destruct b|done]|split; [done|split; [|split; [|done]]]].
    + intros k. rewrite Hc', <-Hc. unfold tops. by rewrite Ht.
    + destruct Hzp as (-> & _). done.
  - split; [by split|]. split; [apply Hcw, Hm|]. intros input. split; [by apply fuzzer_mut_part|]. split; [done|].
    intros x t' Ht'. specialize (E x). rewrite Ht' in E. cbn in E. destruct (tc_at (corpus (fst_state z)) x) as [t|]; [|done].
    left. exists t. by destruct E as (_ & _ & ? & _).
Qed.

(** ** Judging *)

Definition is_solution (z : StdFuzzer T F) (kind : ExitKind) : bool := check_exit_kind (ek_logic (objective z)) kind.

(** What the judgement and the storing of a testcase leave alone. *)
Definition same_judges (z z' : StdFuzzer T F) : Prop :=
  objective z' = objective z ∧ observers z' = observers z ∧ scheduler z' = scheduler z.

Lemma objective_pure {A} (m : ExitKindFeedback → M State (A * ExitKindFeedback)) a (z : StdFuzzer T F) :
  m (objective z) (fst_state z) = (Ok (a, objective z), fst_state z) → on_objective m z = (Ok a, z).
Proof. intros Hm. unfold on_objective. rewrite Hm. by destruct z. Qed.

Lemma check_ok kind z : fuzz_inv z → fs_sees P (observers z) →
  ∃ res z', check_results kind z = (Ok res, z') ∧ fuzz_inv z' ∧ same_judges z z' ∧
    sched_part (fst_state z) (fst_state z') ∧ fuzzer_part (fst_state z) (fst_state z') ∧
    match res with
    | ResSolution => is_solution z kind = true
    | ResCorpus => is_solution z kind = false ∧ fs_novel P (fst_state z) (observers z)
    | ResNone => is_solution z kind = false ∧ ¬ fs_novel P (fst_state z) (observers z)
    end.
Proof.
  intros Hz Hsee. pose proof Hz as (Hw & Hf & Hc & Hs & Ho). unfold check_results. rewrite bind_gets. unfold bind at 1.
  rewrite (objective_pure _ (is_solution z kind)) by done. destruct (is_solution z kind) eqn:Ek.
  { exists ResSolution, z. by split_and!. }
  destruct (law_interesting _ _ kind _ Hf Hsee) as (b & f' & s' & Hrun & Hb & Hf' & P1 & P2 & Hcov).
  unfold bind, on_feedback. rewrite Hrun. set (z' := z <| feedback := f' |> <| fst_state := s' |>).
  assert (fuzz_inv z') as Hz'.
  { unfold fuzz_inv, sched_of. cbn. split; [by eapply full_inv_part|split; [done|split; [|split; [by destruct P2 as (-> & _)|done]]]].
    intros k. by rewrite (part_tops _ _ P1), Hcov. }
  destruct b; [exists ResCorpus, z'|exists ResNone, z']; (split; [done|]); (split; [done|]); (split; [done|]);
    (split; [done|]); (split; [done|]); (split; [done|]).
  - by apply Hb.
  - intros Hn. by apply Hb in Hn.
Qed.

(** ** Storing *)

Lemma process_none_ok input z : process_execution input ResNone z = (Ok None, z).
Proof.
  unfold process_execution. rewrite bind_gets. unfold bind at 1, on_feedback. unfold discard at 1, bind at 1.
  rewrite law_discard. cbn [ret]. unfold bind at 1. rewrite (objective_pure _ ()) by by destruct z. by destruct z.
Qed.

Lemma store_on_scheduler (tc : Testcase) z id w' : store tc (sched_of z) = (Ok id, w') →
  (id <- on_state (corpus_add tc) ;; on_scheduler (on_add id) ;;; ret (Some id)) z =
    (Ok (Some id), z <| scheduler := obj w' |> <| fst_state := sst w' |>).
Proof.
  intros Hst. unfold store in Hst. apply bind_Ok_inv in Hst as (i & w1 & Hadd & Hst).
  apply bind_Ok_inv in Hst as ([] & w2 & Hon & Hst). injection Hst as <- <-.
  destruct z as [o f ob obs s]. unfold on_sst, sched_of in Hadd. cbn [sst obj fst_state scheduler] in Hadd.
  destruct (corpus_add tc s) as [r s1] eqn:Ea. injection Hadd as -> <-.
  change ((mkSched o s) <| sst := s1 |>) with (mkSched o s1) in Hon.
  unfold bind at 1, on_state. cbn [fst_state]. rewrite Ea. unfold bind, on_scheduler.
  match goal with |- context [on_add i ?w] => change w with (mkSched o s1) end. by rewrite Hon.
Qed.

Context (scorable_input : ∀ tc, is_Some (tc_input tc) → scorable tc).

Lemma process_corpus_ok input z : fuzz_inv z → fs_sees P (observers z) →
  (Z.of_nat (InMemory.count (corpus (fst_state z))) < u64_max)%Z →
  ∃ id tc z', process_execution input ResCorpus z = (Ok (Some id), z') ∧ fuzz_inv z' ∧
    objective z' = objective z ∧ observers z' = observers z ∧ fuzzer_part (fst_state z) (fst_state z') ∧
    InMemory.ids (corpus (fst_state z')) = InMemory.ids (corpus (fst_state z)) ++ [id] ∧
    tc_at (corpus (fst_state z')) id = Some tc ∧ tc_input tc = Some input ∧
    ¬ fs_novel P (fst_state z') (observers z) ∧
    (∀ k, fs_cover P (fst_state z') k ↔ fs_cover P (fst_state z) k ∨ k ∈ fs_hits P (observers z)) ∧
    grew input (fst_state z) (fst_state z').
Proof.
  intros (Hw & Hf & Hc & Hs & Ho) Hsee Hcnt. unfold process_execution. rewrite bind_gets.
  unfold bind at 1. rewrite (objective_pure _ ()) by by destruct z.
  destruct (law_append _ _ (Testcase_new input) _ Hf Hsee)
    as (f' & tc & s1 & Hrun & Hf1 & P1 & P2 & Hcov & Hnov & Hmi & Hnd & Hin).
  unfold bind at 1, on_feedback at 1, swap. unfold bind at 1. rewrite Hrun. cbn [ret fst snd].
  set (z1 := z <| feedback := f' |> <| fst_state := s1 |>).
  assert (full_inv (sched_of z1)) as Hw1 by by eapply full_inv_part.
  destruct (min_store_ok (sched_of z1) tc (fs_hits P (observers z)) Hw1)
    as (id & w' & Hst & Hw' & Hids & Htop & [Hfp Hzp] & (tc' & Htc' & Hin') & Dst & Kst).
  { split_and!; [done|done|]. apply scorable_input. rewrite Hin. by eexists. }
  { destruct P1 as (E & _). cbn. by rewrite E. }
  rewrite (store_on_scheduler tc z1 id w' Hst). destruct (law_part _ _ _ Hf1 Hfp) as (Hf' & Hc' & Hn').
  eexists id, tc', _. split; [done|]. cbn. cbn in Hids, Htop, Hfp, Hzp, Hc', Hn'.
  split; [|split; [done|split; [done|split; [by etrans|split; [|split; [done|split; [by rewrite Hin', Hin|split]]]]]]].
  - unfold fuzz_inv, sched_of. cbn. split; [by destruct w'|split; [done|split; [|split; [|done]]]].
    + intros k. by rewrite Htop, Hc', Hcov, (part_tops _ _ P1), Hc.
    + destruct Hzp as (-> & _). destruct P2 as (-> & _). done.
  - rewrite Hids. by destruct P1 as (-> & _).
  - by rewrite Hn'.
  - split; [intros k; by rewrite Hc', Hcov|]. cbn in Dst, Kst. assert (corpus s1 = corpus (fst_state z)) as Ec by apply P1.
    rewrite Ec in Dst, Kst. split; [apply fuzzer_mut_part; by etrans|]. split; [done|]. intros x t' Ht'.
    destruct (decide (x = id)) as [->|Hx]; [|left; by apply Kst]. right. rewrite Htc' in Ht'. injection Ht' as <-. by rewrite Hin', Hin.
Qed.

(** The entry that led to a solution counts it. *)
Definition counted (z z' : StdFuzzer T F) : Prop :=
  ∀ id tc, corpus_id (fst_state z) = Some id → tc_at (corpus (fst_state z)) id = Some tc →
    (Z.of_nat (objectives_found tc) < u64_max)%Z →
    ∃ tc', tc_at (corpus (fst_state z')) id = Some tc' ∧ objectives_found tc' = S (objectives_found tc).

Lemma found_objective_ok z : fuzz_inv z →
  ∃ s', found_objective (fst_state z) = (Ok (), s') ∧ touch false (fst_state z) s' ∧
    (∀ x, idx s' x = idx (fst_state z) x) ∧
    counted z (z <| fst_state := s' |>).
Proof.
  intros (Hw & _). destruct Hw as [_ (C & Hs & _)]. unfold found_objective. rewrite bind_gets.
  unfold counted.
  destruct (corpus_id (fst_state z)) as [id|]; [|by exists (fst_state z)]. rewrite bind_gets.
  cbn [sched_of sst] in *. set (s := fst_state z) in *.
  destruct (InMemory.get id (corpus s)) as [tc|e|] eqn:Hg.
  2,3: exists s; split_and!; [done|reflexivity|done|];
    intros ? tc [= <-] Htc; apply get_tc_at in Htc; congruence.
  apply get_tc_at in Hg. set (f := λ tc : Testcase, tc <| objectives_found := _ |>).
  destruct (change_touch (cost := cost) (scorable := scorable) false id f s tc C Hg) as (s' & Hch & Ht & Hl).
  { intros Hsc. unfold f. destruct (cost_counters tc (if (Z.of_nat (objectives_found tc) <? u64_max)%Z
      then S (objectives_found tc) else objectives_found tc) Hsc) as (A & E & _). by split_and!. }
  exists s'. split_and!; [done|done| |].
  - intros x. unfold idx. rewrite Hl. case_decide; [|done]. subst x. by rewrite Hg.
  - intros ? tc' [= <-] Htc' Hlt. rewrite Hg in Htc'. injection Htc' as <-. exists (f tc).
    rewrite Hl, decide_True by done. split; [done|]. unfold f. cbn. by apply Z.ltb_lt in Hlt as ->.
Qed.

Lemma process_solution_ok input z : fuzz_inv z →
  ∃ z' id tc, process_execution input ResSolution z = (Ok None, z') ∧ fuzz_inv z' ∧
    objective z' = objective z ∧ observers z' = observers z ∧
    InMemory.ids (corpus (fst_state z')) = InMemory.ids (corpus (fst_state z)) ∧
    (∀ k, fs_cover P (fst_state z') k ↔ fs_cover P (fst_state z) k) ∧
    InMemory.ids (solutions (fst_state z')) = InMemory.ids (solutions (fst_state z)) ++ [id] ∧
    tc_at (solutions (fst_state z')) id = Some tc ∧ tc_input tc = Some input ∧ counted z z' ∧
    grew input (fst_state z) (fst_state z').
Proof.
  intros Hz. pose proof Hz as (Hw & Hf & Hc & Hs & Ho).
  destruct (found_objective_ok z Hz) as (s1 & Hfo & Ht & Hi & Hobj).
  pose proof (fuzz_inv_touch false z s1 Hz Ht Hi) as Hz1.
  unfold process_execution. rewrite bind_gets. unfold bind at 1, on_feedback. unfold discard, bind at 1.
  rewrite law_discard. cbn [ret]. assert (z <| feedback := feedback z |> <| fst_state := fst_state z |> = z) as -> by by destruct z.
  rewrite bind_gets. cbv zeta. unfold bind at 1, on_state at 1. rewrite Hfo. set (z1 := z <| fst_state := s1 |>) in *.
  set (tc := (Testcase_new input) <| parent_id := _ |>).
  unfold bind at 1. rewrite (objective_pure _ tc) by done.
  destruct (corpus_add_ok (solutions s1) tc) as (id & c & Hadd & C1 & Hids & Hnew & Hget & _); [apply Hz1|].
  assert (solutions_add tc s1 = (Ok id, s1 <| solutions := c |>)) as Hsol.
  { unfold solutions_add. rewrite bind_gets, Hadd, bind_lift. by rewrite bind_modify. }
  unfold bind at 1, on_state at 1. change (fst_state z1) with s1. rewrite Hsol.
  pose proof Ht as ((E & Eids & _) & _).
  exists (z1 <| fst_state := s1 <| solutions := c |> |>), id, tc. split; [done|].
  change (fst_state (z1 <| fst_state := s1 <| solutions := c |> |>)) with (s1 <| solutions := c |>).
  change (solutions (s1 <| solutions := c |>)) with c. change (corpus (s1 <| solutions := c |>)) with (corpus s1).
  split; [|split; [done|split; [done|split; [|split]]]].
  - apply (fuzz_inv_frame z1 (s1 <| solutions := c |>) (observers z)) in Hz1; [|done|done|done|done].
    destruct z. exact Hz1.
  - done.
  - intros k. destruct (law_part (feedback z1) s1 (s1 <| solutions := c |>)) as (_ & E1 & _); [apply Hz1|done|].
    destruct (law_part (feedback z) (fst_state z) s1) as (_ & E2 & _); [apply Hz|by apply (touch_outside _ _ _ Ht)|].
    by rewrite E1, E2.
  - rewrite Hids. split; [f_equal; by rewrite E|split; [by apply get_tc_at|split; [done|split; [exact Hobj|]]]].
    etrans; [eapply grew_touch; [exact Ht|apply Hw]|]. by apply grew_same.
Qed.

(** ** Events *)

Context (accepts : ∀ e, fire_result e = Ok ()) (serializes : ∀ o, ∃ b, serialize_observers o = Ok b).

(** Only the clock and the list of events change. *)
Definition announced (s s' : State) : Prop := s' = s <| ticks := ticks s' |> <| events := events s' |>.

Lemma announced_parts s s' : announced s s' → sched_part s s' ∧ outside s s'.
Proof. intros ->. done. Qed.

Lemma dispatch_ok input res kind (z : StdFuzzer T F) :
  ∃ s', serialize_and_dispatch input res kind z = (Ok (), z <| fst_state := s' |>) ∧ announced (fst_state z) s'.
Proof.
  unfold serialize_and_dispatch. rewrite bind_gets.
  assert (∃ b, (match res with
                | ResCorpus => if should_send then if always_unique then ret None else lift (serialize_observers (observers z))
                               else ret None
                | _ => ret None
                end) z = (Ok b, z)) as [b Hb].
  { destruct res; [by eexists| |by eexists]. destruct should_send; [|by eexists]. destruct always_unique; [by eexists|].
    unfold lift. destruct (serializes (observers z)) as [b ->]. by eexists. }
  unfold bind at 1. rewrite Hb. unfold dispatch_event.
  destruct res; [|destruct should_send..]; try (exists (fst_state z); split; [by destruct z|by destruct (fst_state z)]);
    unfold on_state, bind, gets, now_ms, fire; rewrite accepts; eexists; done.
Qed.

Lemma last_found_ok (s : State) :
  ∃ s', set_last_found_time s = (Ok (), s') ∧ sched_part s s' ∧ feedback_part s s' ∧ solutions s' = solutions s ∧
    executions s' = executions s ∧ mut_part s s'.
Proof. eexists. split; [reflexivity|]. done. Qed.

(** ** Evaluation *)

Context `{!TargetLaws _}.

Lemma observed_sees z kind input edges sancov elapsed : fuzz_inv z →
  run input (executions (fst_state z)) = Ok (kind, edges, sancov, elapsed) →
  fs_sees P (observed (observers z) edges sancov elapsed).
Proof.
  intros (_ & _ & _ & _ & Ho) Hrun. apply law_sees; [by apply observed_watching|].
  apply post_exec_u8; [by eapply run_u8|apply run_aligned].
Qed.

(** What an evaluation has to do with an input, by what was judged. *)
Definition judged (input : list Byte.byte) (kind : ExitKind) (z z' : StdFuzzer T F)
    (res : ExecuteInputResult) (oid : option CorpusId) : Prop :=
  let s := fst_state z in let s' := fst_state z' in let obs := observers z' in
  match res with
  | ResSolution => is_solution z kind = true ∧ oid = None ∧
      InMemory.ids (corpus s') = InMemory.ids (corpus s) ∧
      (∀ k, fs_cover P s' k ↔ fs_cover P s k) ∧
      ∃ id tc, InMemory.ids (solutions s') = InMemory.ids (solutions s) ++ [id] ∧
        tc_at (solutions s') id = Some tc ∧ tc_input tc = Some input
  | ResCorpus => is_solution z kind = false ∧ fs_novel P s obs ∧ ¬ fs_novel P s' obs ∧
      InMemory.ids (solutions s') = InMemory.ids (solutions s) ∧
      (∀ k, fs_cover P s' k ↔ fs_cover P s k ∨ k ∈ fs_hits P obs) ∧
      ∃ id tc, oid = Some id ∧ InMemory.ids (corpus s') = InMemory.ids (corpus s) ++ [id] ∧
        tc_at (corpus s') id = Some tc ∧ tc_input tc = Some input
  | ResNone => is_solution z kind = false ∧ ¬ fs_novel P s obs ∧ oid = None ∧
      InMemory.ids (corpus s') = InMemory.ids (corpus s) ∧ InMemory.ids (solutions s') = InMemory.ids (solutions s) ∧
      ∀ k, fs_cover P s' k ↔ fs_cover P s k
  end.

Lemma judged_frame input kind z z1 z2 res oid :
  observers z2 = observers z1 → corpus (fst_state z2) = corpus (fst_state z1) →
  solutions (fst_state z2) = solutions (fst_state z1) →
  (∀ k, fs_cover P (fst_state z2) k ↔ fs_cover P (fst_state z1) k) →
  (∀ o, fs_novel P (fst_state z2) o ↔ fs_novel P (fst_state z1) o) →
  judged input kind z z1 res oid → judged input kind z z2 res oid.
Proof.
  intros Eb Ec Es Hcov Hnov. unfold judged. cbv zeta. rewrite Eb, Ec, Es. destruct res.
  - intros (A1 & A2 & A3 & A4 & A5 & A6). do 5 (split; [done|]). intros k. by rewrite Hcov.
  - intros (A1 & A2 & A3 & A4 & A5 & A6). do 2 (split; [done|]). split; [by rewrite Hnov|]. split; [done|].
    split; [|done]. intros k. by rewrite Hcov.
  - intros (A1 & A2 & A3 & A4 & A5). do 3 (split; [done|]). split; [|done]. intros k. by rewrite Hcov.
Qed.

(** After the judgement: what was stored, with the events and the time. *)
Lemma finish_ok input res kind send z : fuzz_inv z →
  ∃ z', ((if send : bool then serialize_and_dispatch input res kind else ret ()) ;;;
         (if bool_decide (res ≠ ResNone) then on_state set_last_found_time else ret ())) z = (Ok (), z') ∧
    fuzz_inv z' ∧ objective z' = objective z ∧ observers z' = observers z ∧
    sched_part (fst_state z) (fst_state z') ∧ feedback_part (fst_state z) (fst_state z') ∧
    solutions (fst_state z') = solutions (fst_state z) ∧ mut_part (fst_state z) (fst_state z').
Proof.
  intros Hz.
  assert (∃ s1, (if send : bool then serialize_and_dispatch input res kind else ret ()) z =
    (Ok (), z <| fst_state := s1 |>) ∧ announced (fst_state z) s1) as (s1 & Hd & Ha).
  { destruct send; [apply dispatch_ok|]. exists (fst_state z). split; [by destruct z|by destruct (fst_state z)]. }
  apply announced_parts in Ha as [P1 [F1 Z1]]. unfold bind at 1. rewrite Hd. set (z1 := z <| fst_state := s1 |>).
  assert (solutions s1 = solutions (fst_state z)) as Es by apply Z1.
  assert (fuzz_inv z1) as Hz1.
  { apply (fuzz_inv_frame z s1 (observers z)) in Hz; [by destruct z|done|done|rewrite Es; apply Hz|apply Hz]. }
  destruct (bool_decide _).
  2: { exists z1. split; [done|]. do 5 (split; [done|]). split; [done|]. by apply fuzzer_mut_part. }
  destruct (last_found_ok s1) as (s2 & Hl & P2 & F2 & Es2 & _ & M2). unfold on_state. change (fst_state z1) with s1.
  rewrite Hl. eexists. split; [done|].
  split; [|do 2 (split; [done|]); split; [by etrans|split; [by etrans|split; [etrans; [exact Es2|done]|]]]].
  2: { etrans; [by apply fuzzer_mut_part|exact M2]. }
  apply (fuzz_inv_frame z1 s2 (observers z)) in Hz1; [by destruct z|done|done|rewrite Es2; apply Hz1|apply Hz1].
Qed.

Lemma judge_ok input kind send z : fuzz_inv z → fs_sees P (observers z) →
  (Z.of_nat (InMemory.count (corpus (fst_state z))) < u64_max)%Z →
  ∃ res oid z', evaluate_execution input kind send z = (Ok (res, oid), z') ∧ fuzz_inv z' ∧
    objective z' = objective z ∧ observers z' = observers z ∧ judged input kind z z' res oid ∧
    grew input (fst_state z) (fst_state z').
Proof.
  intros Hz Hsee Hcnt. destruct (check_ok kind z Hz Hsee) as (res & z1 & Hrun & Hz1 & (Eo & Eb & _) & P1 & Z1 & Hres).
  assert (corpus (fst_state z1) = corpus (fst_state z)) as Ec by apply P1.
  assert (solutions (fst_state z1) = solutions (fst_state z)) as Es by apply Z1.
  assert (∀ k, fs_cover P (fst_state z1) k ↔ fs_cover P (fst_state z) k) as Hcov1.
  { intros k. destruct Hz as (_ & _ & <- & _), Hz1 as (_ & _ & <- & _). by rewrite (part_tops _ _ P1). }
  unfold evaluate_execution. unfold bind at 1. rewrite Hrun.
  assert (∃ oid z2, process_execution input res z1 = (Ok oid, z2) ∧ fuzz_inv z2 ∧ objective z2 = objective z ∧
    observers z2 = observers z ∧ grew input (fst_state z1) (fst_state z2) ∧ judged input kind z z2 res oid)
    as (oid & z2 & Hp & Hz2 & Eo2 & Eb2 & Hg2 & Hj).
  { destruct res.
    - exists None, z1. split; [apply process_none_ok|]. do 3 (split; [congruence||done|]). split; [reflexivity|].
      unfold judged. cbv zeta. rewrite Eb, Ec, Es. naive_solver.
    - destruct (process_corpus_ok input z1 Hz1) as (id & tc & z2 & Hp & Hz2 & Eo2 & Eb2 & Z2 & Hids & Htc & Hin & Hnn & Hcov2 & Hg2);
        [by rewrite Eb|by rewrite Ec|].
      exists (Some id), z2. split; [done|]. do 3 (split; [congruence||done|]). split; [done|].
      unfold judged. cbv zeta. rewrite Eb2, Eb in *. destruct Hres as [Hk Hn]. do 3 (split; [done|]).
      split; [destruct Z2 as (-> & _); by rewrite Es|].
      split; [intros k; by rewrite Hcov2, Hcov1|]. exists id, tc. by rewrite Hids, Ec.
    - destruct (process_solution_ok input z1 Hz1) as (z2 & id & tc & Hp & Hz2 & Eo2 & Eb2 & Hids & Hcov2 & Hsol & Htc & Hin & _ & Hg2).
      exists None, z2. split; [done|]. do 3 (split; [congruence||done|]). split; [done|].
      unfold judged. cbv zeta. do 2 (split; [done|]). split; [by rewrite Hids, Ec|].
      split; [intros k; by rewrite Hcov2, Hcov1|]. exists id, tc. by rewrite Hsol, Es. }
  unfold bind at 1. rewrite Hp.
  destruct (finish_ok input res kind send z2 Hz2) as (z' & Hfin & Hz' & Eo' & Eb' & P' & F' & Es' & M').
  rewrite (bind_seq _ _ _ _ _ _ Hfin). exists res, oid, z'. split; [done|]. do 3 (split; [congruence||done|]).
  assert (corpus (fst_state z') = corpus (fst_state z2)) as Ec' by apply P'.
  assert (∀ k, fs_cover P (fst_state z') k ↔ fs_cover P (fst_state z2) k) as Hcov'
    by by apply (law_part (feedback z2)); [apply Hz2|].
  assert (∀ o, fs_novel P (fst_state z') o ↔ fs_novel P (fst_state z2) o) as Hnov'
    by by apply (law_part (feedback z2)); [apply Hz2|].
  split; [by apply (judged_frame input kind z z2 z')|].
  etrans; [apply (grew_same input _ (fst_state z1)); [by apply fuzzer_mut_part|done]|]. etrans; [exact Hg2|]. by apply grew_same.
Qed.

Lemma judged_from input kind z1 z z' res oid :
  objective z = objective z1 → InMemory.ids (corpus (fst_state z)) = InMemory.ids (corpus (fst_state z1)) →
  solutions (fst_state z) = solutions (fst_state z1) →
  (∀ k, fs_cover P (fst_state z) k ↔ fs_cover P (fst_state z1) k) →
  (∀ o, fs_novel P (fst_state z) o ↔ fs_novel P (fst_state z1) o) →
  judged input kind z z' res oid → judged input kind z1 z' res oid.
Proof.
  intros Eo Ec Es Hcov Hnov. unfold judged, is_solution. cbv zeta. rewrite Eo, Ec, Es. destruct res.
  - intros (A1 & A2 & A3 & A4 & A5 & A6). split; [done|]. split; [by rewrite <-Hnov|]. do 3 (split; [done|]).
    intros k. by rewrite A6, Hcov.
  - intros (A1 & A2 & A3 & A4 & A5 & A6). split; [done|]. split; [by rewrite <-Hnov|]. do 2 (split; [done|]).
    split; [|done]. intros k. by rewrite A5, Hcov.
  - intros (A1 & A2 & A3 & A4 & A5). do 3 (split; [done|]). split; [|done]. intros k. by rewrite A4, Hcov.
Qed.

Lemma evaluate_ok input send z : fuzz_inv z →
  (Z.of_nat (InMemory.count (corpus (fst_state z))) < u64_max)%Z →
  ∃ kind edges sancov elapsed res oid z',
    run input (executions (fst_state z)) = Ok (kind, edges, sancov, elapsed) ∧
    evaluate_input_with_observers input send z = (Ok (res, oid), z') ∧ fuzz_inv z' ∧ objective z' = objective z ∧
    observers z' = observed (observers z) edges sancov elapsed ∧ judged input kind z z' res oid ∧
    grew input (fst_state z) (fst_state z').
Proof.
  intros Hz Hcnt. destruct (run_ok input (executions (fst_state z))) as (kind & edges & sancov & elapsed & Hrun).
  exists kind, edges, sancov, elapsed. unfold evaluate_input_with_observers. unfold bind at 1.
  rewrite (execute_ok input z kind edges sancov elapsed Hrun). rewrite bind_gets.
  pose proof (observed_sees z _ _ _ _ _ Hz Hrun) as Hsee. set (obs := observed (observers z) edges sancov elapsed) in *.
  pose proof (executed_inv z obs Hz (observed_watching _ _ _ _ (proj2 (proj2 (proj2 (proj2 Hz)))))) as Hz1. set (z1 := executed z obs) in *.
  destruct (evaluation_ok z1 (hash_map (mo_entries (ob_edges (observers z1)))) Hz1)
    as (z2 & Hev & Hz2 & Ef & Eo & Eb & [F2 Z2] & Ei & Hg2). unfold bind at 1. rewrite Hev.
  assert (InMemory.count (corpus (fst_state z2)) = InMemory.count (corpus (fst_state z))) as Ecnt.
  { destruct Hz2 as ([_ (C2 & _)] & _), Hz as ([_ (C & _)] & _). rewrite !count_ids by done. by rewrite Ei. }
  destruct (judge_ok input kind send z2 Hz2) as (res & oid & z' & Hj & Hz' & Eo' & Eb' & Hjd & Hg').
  { by rewrite Eb. } { by rewrite Ecnt. }
  destruct (law_part (feedback z) (fst_state z) (fst_state z2)) as (_ & Hcov & Hnov);
    [apply Hz|by etrans; [|exact F2]|].
  exists res, oid, z'. do 3 (split; [done|]). split; [by rewrite Eo', Eo|]. split; [by rewrite Eb', Eb|].
  split; [apply (judged_from input kind z z2); [by rewrite Eo|by rewrite Ei|by destruct Z2 as (-> & _)|done|done|done]|].
  etrans; [|exact Hg']. etrans; [|apply Hg2]. by apply grew_same.
Qed.

(** The scheduler picks. *)
Lemma pick_fuzz_ok fuel z : fuzz_inv z → InMemory.ids (corpus (fst_state z)) ≠ [] →
  ∃ r z', on_scheduler (next fuel) z = (Ok r, z') ∧ fuzz_inv z' ∧ feedback z' = feedback z ∧
    outside (fst_state z) (fst_state z') ∧
    InMemory.ids (corpus (fst_state z')) = InMemory.ids (corpus (fst_state z)) ∧
    (∀ k, fs_cover P (fst_state z') k ↔ fs_cover P (fst_state z) k) ∧
    (∀ k, fs_cover P (fst_state z') k → fav_covers (fst_state z') k) ∧
    (∀ id, r = Some id → id ∈ InMemory.ids (corpus (fst_state z))) ∧
    (r = None → ∃ x tc, tc_at (corpus (fst_state z')) x = Some tc ∧ tc_favored tc = false) ∧
    same_inputs (corpus (fst_state z)) (corpus (fst_state z')).
Proof.
  intros (Hw & Hf & Hc & Hs & Ho') Hne.
  destruct (min_next_ok fuel (sched_of z) Hw Hne) as (r & w' & Hrun & Hw' & Ht & Hids & _ & Hk & Hx & Hn & Ho & Hin).
  cbn in Ht, Hids, Ho. unfold on_scheduler. fold (sched_of z). rewrite Hrun. eexists r, _. split; [done|]. cbn.
  destruct Ho as [F1 Z1]. destruct (law_part _ _ _ Hf F1) as (Hf' & Hc' & _).
  split; [|split; [done|split; [done|split; [done|split; [done|split; [|done]]]]]].
  - unfold fuzz_inv, sched_of. cbn. split; [by destruct w'|split; [done|split; [|split; [by destruct Z1 as (-> & _)|done]]]].
    intros k. by rewrite Ht, Hc', Hc.
  - intros k Hcov. apply Hk. rewrite Ht. by apply Hc, Hc'.
Qed.

(** ** The theorems *)

(** C13. Evaluating an input never fails, and keeps schedulers, feedback and corpus in step: the input is a
    solution exactly when the exit kind says so, and is then stored with the solutions only; otherwise
    it is stored in the corpus, and announced to the scheduler, exactly when the feedback finds it
    novel, and the same observation is not novel again; in all other cases nothing is stored.  Throughout,
    the indexes that have a holder among the corpus entries are exactly the covered ones. *)
Theorem evaluate_spec input send z : fuzz_inv z →
  (Z.of_nat (InMemory.count (corpus (fst_state z))) < u64_max)%Z →
  ∃ kind edges sancov elapsed res oid z',
    run input (executions (fst_state z)) = Ok (kind, edges, sancov, elapsed) ∧
    evaluate_input_with_observers input send z = (Ok (res, oid), z') ∧ fuzz_inv z' ∧ objective z' = objective z ∧
    observers z' = observed (observers z) edges sancov elapsed ∧ judged input kind z z' res oid.
Proof.
  intros Hz Hcnt. destruct (evaluate_ok input send z Hz Hcnt) as (kind & e & c & d & res & oid & z' & ? & ? & ? & ? & ? & ? & _).
  by exists kind, e, c, d, res, oid, z'.
Qed.

(** ** One round of the loop *)

(** Both corpora have only richer, and no coverage is lost. *)
Definition richer (z z' : StdFuzzer T F) : Prop :=
  InMemory.ids (corpus (fst_state z)) `prefix_of` InMemory.ids (corpus (fst_state z')) ∧
  InMemory.ids (solutions (fst_state z)) `prefix_of` InMemory.ids (solutions (fst_state z')) ∧
  ∀ k, fs_cover P (fst_state z) k → fs_cover P (fst_state z') k.
#[global] Instance richer_preorder : PreOrder richer.
Proof.
  split; [by intros z; split_and!|]. intros z1 z2 z3 (C1 & S1 & K1) (C2 & S2 & K2). split_and!; [by etrans|by etrans|auto].
Qed.

(** What the loop itself does to the state between the runs of the stages. *)
Definition undisturbed (s s' : State) : Prop :=
  m_tokens s' = m_tokens s ∧ m_cmps s' = m_cmps s ∧ m_mopt s' = m_mopt s ∧ max_size s' = max_size s ∧
  InMemory.ids (corpus s') = InMemory.ids (corpus s) ∧ same_inputs (corpus s) (corpus s').
#[global] Instance undisturbed_preorder : PreOrder undisturbed.
Proof.
  split; [intros s; split_and!; [done..|apply same_inputs_refl]|].
  intros s1 s2 s3 (A1 & A2 & A3 & A4 & A5 & A6) (B1 & B2 & B3 & B4 & B5 & B6).
  split_and!; [congruence..|by eapply same_inputs_trans].
Qed.
Lemma outside_between s s' : outside s s' → InMemory.ids (corpus s') = InMemory.ids (corpus s) →
  same_inputs (corpus s) (corpus s') → undisturbed s s'.
Proof. intros [_ (_ & _ & _ & _ & _ & A1 & A2 & A3 & A4)] Hi Hs. by split_and!. Qed.

(** The contract of stages: [J n] says that they can run [n] more times. *)
Record stages_ok {St} (J : nat → St → StdFuzzer T F → Prop) (stages : St → M (StdFuzzer T F) St) : Prop := {
  so_run : ∀ n st z id, J (S n) st z → fuzz_inv z → corpus_id (fst_state z) = Some id → id ∈ InMemory.ids (corpus (fst_state z)) →
    ∃ st' z', stages st z = (Ok st', z') ∧ fuzz_inv z' ∧ J n st' z' ∧ richer z z';
  so_between : ∀ n st z z', J n st z → fuzz_inv z' → undisturbed (fst_state z) (fst_state z') → J n st z';
}.

Lemma bump_ok id z : fuzz_inv z →
  ∃ s', bump_scheduled id (fst_state z) = (Ok (), s') ∧ fuzz_inv (z <| fst_state := s' |>) ∧
    outside (fst_state z) s' ∧ undisturbed (fst_state z) s'.
Proof.
  intros Hz. pose proof Hz as ([_ (C & Hs & _)] & _). cbn [sched_of sst] in C, Hs. unfold bump_scheduled. rewrite bind_gets.
  destruct (InMemory.get id (corpus (fst_state z))) as [tc|e|] eqn:Hg.
  2,3: exists (fst_state z); split; [done|]; split; [by destruct z|done].
  apply get_tc_at in Hg.
  destruct (change_touch (cost := cost) (scorable := scorable) false id
    (λ tc, tc <| scheduled_count := S (scheduled_count tc) |>) _ tc C Hg) as (s' & Hch & Ht & Hl).
  { intros Hsc. destruct (cost_counters tc (S (scheduled_count tc)) Hsc) as (_ & _ & A & E). by split_and!. }
  exists s'. split; [done|]. split; [|split].
  - apply (fuzz_inv_touch false); [done|done|]. intros x. unfold idx. rewrite Hl. case_decide; [|done]. subst x. by rewrite Hg.
  - by apply (touch_outside _ _ _ Ht).
  - apply outside_between; [by apply (touch_outside _ _ _ Ht)|by destruct Ht as ((_ & -> & _) & _)|by eapply touch_inputs].
Qed.

Lemma set_fuzzer_part z f : fuzz_inv z → (∀ s, sched_part s (f s) ∧ feedback_part s (f s) ∧ solutions (f s) = solutions s) →
  on_state (modify f) z = (Ok (), z <| fst_state := f (fst_state z) |>) ∧ fuzz_inv (z <| fst_state := f (fst_state z) |>).
Proof.
  intros Hz Hf. split; [done|]. destruct (Hf (fst_state z)) as (P1 & F1 & E).
  apply (fuzz_inv_frame z (f (fst_state z)) (observers z)) in Hz; [by destruct z|done|done|rewrite E; apply Hz|apply Hz].
Qed.

(** The coverage the feedback knows does not depend on the loop's own part of the state. *)
Lemma quiet_richer z z' : fuzz_inv z → feedback_part (fst_state z) (fst_state z') → solutions (fst_state z') = solutions (fst_state z) →
  InMemory.ids (corpus (fst_state z')) = InMemory.ids (corpus (fst_state z)) → richer z z'.
Proof.
  intros (_ & Hf & _) F1 Es Ei. destruct (law_part _ _ _ Hf F1) as (_ & Hc & _). unfold richer. rewrite Es, Ei.
  split_and!; [done..|]. intros k. by rewrite Hc.
Qed.

Context (processes : ∀ s, process_events s = Ok ()) (shuts_down : ∀ s, on_shutdown s = Ok ()).
Context (reports : ∀ s, maybe_report_progress s = Ok ()) (reports_last : ∀ s, report_progress s = Ok ()).

(** The end of a round, after the stages. *)
Lemma round_end_ok id z : fuzz_inv z →
  ∃ z', round_end id z = (if stop_requested (fst_state z) then Err ShuttingDown else Ok (Some id), z') ∧ fuzz_inv z' ∧
    corpus_id (fst_state z') = None ∧ stop_requested (fst_state z') = false ∧
    richer z z' ∧ undisturbed (fst_state z) (fst_state z').
Proof.
  intros Hz. unfold round_end. rewrite bind_gets, processes, bind_lift. unfold bind at 1, on_state at 1.
  destruct (bump_ok id z Hz) as (s1 & Hb & Hz1 & [F1 Z1] & Hc1). rewrite Hb. set (z1 := z <| fst_state := s1 |>) in *.
  assert (stop_requested s1 = stop_requested (fst_state z)) as Est by apply Z1.
  assert (∀ c b, richer z (z1 <| fst_state := s1 <| corpus_id := c |> <| stop_requested := b |> |>)) as Hg.
  { intros c b. apply quiet_richer; [done|exact F1|apply Z1|apply Hc1]. }
  destruct (set_fuzzer_part z1 (λ s, s <| corpus_id := None |>) Hz1) as [Hr2 Hz2]; [done|].
  unfold bind at 1. rewrite Hr2. set (z2 := z1 <| fst_state := _ |>) in *. rewrite bind_gets.
  change (stop_requested (fst_state z2)) with (stop_requested s1). rewrite Est.
  destruct (stop_requested (fst_state z)) eqn:Es.
  2: { exists z2. split_and!; [done|done|done|cbn; congruence| |exact Hc1]. specialize (Hg None (stop_requested s1)).
       unfold richer in *. exact Hg. }
  destruct (set_fuzzer_part z2 (λ s, s <| stop_requested := false |>) Hz2) as [Hr3 Hz3]; [done|].
  unfold bind at 1. rewrite Hr3. set (z3 := z2 <| fst_state := _ |>) in *. rewrite bind_gets, shuts_down, bind_lift.
  exists z3. split_and!; [done..|apply (Hg None false)|exact Hc1].
Qed.

Section Loop.
Context {St : Type} (J : nat → St → StdFuzzer T F → Prop) (stages : St → M (StdFuzzer T F) St) (Hst : stages_ok J stages).
Implicit Types st : St.

(** How a round opens: with the entry it is resumed on or with the scheduler's pick, at which every covered index of the map
    is reached by a favoured entry. *)
Definition opened (fuel : nat) (id : CorpusId) (z z1 : StdFuzzer T F) : Prop :=
  id ∈ InMemory.ids (corpus (fst_state z)) ∧
  (corpus_id (fst_state z) = Some id ∧ z1 = z ∨
   corpus_id (fst_state z) = None ∧ ∃ zp, on_scheduler (next fuel) z = (Ok (Some id), zp) ∧
     (∀ k, fs_cover P (fst_state z) k → fav_covers (fst_state zp) k) ∧
     z1 = zp <| fst_state := (fst_state zp) <| corpus_id := Some id |> |>).
(** The stages have run on entry [id]. *)
Definition worked (fuel : nat) (id : CorpusId) st z st' z' : Prop :=
  ∃ z1, opened fuel id z z1 ∧ stages st z1 = (Ok st', z').
(** Whole rounds, by the entries they were spent on. *)
Inductive fuzzed (fuel : nat) : list CorpusId → St → StdFuzzer T F → St → StdFuzzer T F → Prop :=
| fuzzed_nil st z : fuzzed fuel [] st z st z
| fuzzed_cons id ids st z st1 z1 z2 st' z' :
    worked fuel id st z st1 z1 → round_end id z1 = (Ok (Some id), z2) → fuzzed fuel ids st1 z2 st' z' →
    fuzzed fuel (id :: ids) st z st' z'.
(** The entry a round would be resumed on is one of the corpus. *)
Definition on_entry (z : StdFuzzer T F) : Prop :=
  ∀ id, corpus_id (fst_state z) = Some id → id ∈ InMemory.ids (corpus (fst_state z)).

(** How a round ends. *)
Definition round_result (fuel n : nat) st (z z' : StdFuzzer T F) (r : outcome Error (option CorpusId * St)) : Prop :=
  match r with
  | Ok (Some id, st') => ∃ z1, worked fuel id st z st' z1 ∧ round_end id z1 = (Ok (Some id), z') ∧
      J n st' z' ∧ corpus_id (fst_state z') = None
  | Ok (None, _) => ∃ x tc, tc_at (corpus (fst_state z')) x = Some tc ∧ tc_favored tc = false
  | Err e => e = ShuttingDown ∧ ∃ id st1 z1, worked fuel id st z st1 z1 ∧ stop_requested (fst_state z1) = true
  | Panic => False
  end.

Lemma fuzz_one_ok fuel n st z : fuzz_inv z → J (S n) st z → InMemory.ids (corpus (fst_state z)) ≠ [] → on_entry z →
  ∃ r z', fuzz_one fuel stages st z = (r, z') ∧ fuzz_inv z' ∧ richer z z' ∧ round_result fuel n st z z' r.
Proof.
  intros Hz HJ Hne Hres. unfold fuzz_one. rewrite bind_gets.
  assert (∀ id z1, opened fuel id z z1 → fuzz_inv z1 → J (S n) st z1 → richer z z1 → corpus_id (fst_state z1) = Some id →
    InMemory.ids (corpus (fst_state z1)) = InMemory.ids (corpus (fst_state z)) →
    ∃ r z', (st <- stages st ;; r <- round_end id ;; ret (r, st)) z1 = (r, z') ∧ fuzz_inv z' ∧ richer z z' ∧
      round_result fuel n st z z' r) as Hround.
  { intros id z1 Ho Hz1 HJ1 Hg1 Hcur Hids. pose proof (proj1 Ho) as Hin. rewrite <-Hids in Hin.
    destruct (so_run _ _ Hst n st z1 id HJ1 Hz1 Hcur Hin) as (st' & z2 & Hrun & Hz2 & HJ2 & Hg2).
    destruct (round_end_ok id z2 Hz2) as (z' & Hend & Hz' & Ec & Es & Hg' & Hc').
    unfold bind at 1. rewrite Hrun. unfold bind. rewrite Hend. assert (richer z z') as Hg by (transitivity z2; [by transitivity z1|done]).
    destruct (stop_requested (fst_state z2)) eqn:E; (eexists _, z'; split; [done|]; split; [done|]; split; [done|]); cbn.
    - split; [done|]. exists id, st', z2. split; [by exists z1|done].
    - exists z2. split; [by exists z1|]. split; [done|]. split; [|done]. by eapply (so_between _ _ Hst). }
  destruct (corpus_id (fst_state z)) as [id|] eqn:Ecur.
  { apply Hround; [|done..]. split; [by apply Hres|]. by left. }
  destruct (pick_fuzz_ok fuel z Hz Hne) as (r & z1 & Hpick & Hz1 & _ & Ho & Hids & Hcov & Hfav & Hx & Hn & Hin).
  assert (richer z z1) as Hg1 by (apply quiet_richer; [done|apply Ho|apply Ho|done]).
  unfold bind at 1. unfold bind at 1. rewrite Hpick. destruct r as [id|].
  2: { eexists _, z1. split; [done|]. split; [done|]. split; [done|]. by apply Hn. }
  destruct (set_fuzzer_part z1 (λ s, s <| corpus_id := Some id |>) Hz1) as [Hr2 Hz2]; [done|].
  unfold bind at 1. rewrite Hr2. cbn [ret]. apply Hround; [|exact Hz2| |apply quiet_richer; [done|apply Ho|apply Ho|done]|done|exact Hids].
  - split; [by apply Hx|]. right. split; [done|]. exists z1. split; [done|]. split; [|done]. intros k Hk. by apply Hfav, Hcov.
  - eapply (so_between _ _ Hst); [exact HJ|done|]. by apply (outside_between (fst_state z) (fst_state z1)).
Qed.

(** How the loop ends: after all its rounds, when the scheduler's search gives up, or when the stages asked for a stop. *)
Definition loop_result (fuel iters : nat) st (z z' : StdFuzzer T F) (r : outcome Error (option CorpusId * St)) : Prop :=
  ∃ ids st1 z1, fuzzed fuel ids st z st1 z1 ∧
  match r with
  | Ok (Some id, st') => length ids = iters ∧ last ids = Some id ∧ st' = st1 ∧ z' = z1
  | Ok (None, _) => length ids < iters ∧ ∃ x tc, tc_at (corpus (fst_state z')) x = Some tc ∧ tc_favored tc = false
  | Err e => length ids < iters ∧ e = ShuttingDown ∧
      ∃ id st2 z2, worked fuel id st1 z1 st2 z2 ∧ stop_requested (fst_state z2) = true
  | Panic => False
  end.

Lemma fuzz_rounds_ok fuel iters : ∀ l st z, fuzz_inv z → J iters st z → InMemory.ids (corpus (fst_state z)) ≠ [] → on_entry z →
  (iters = 0 → is_Some l) →
  ∃ r z', fuzz_rounds fuel stages iters l st z = (r, z') ∧ fuzz_inv z' ∧ richer z z' ∧
    (iters = 0 ∧ r = Ok (l, st) ∧ z' = z ∨ iters ≠ 0 ∧ loop_result fuel iters st z z' r).
Proof.
  induction iters as [|iters IH]; intros l st z Hz HJ Hne Hres Hl.
  { eexists _, z. split; [done|]. split; [done|]. split; [done|]. by left. }
  cbn [fuzz_rounds]. rewrite bind_gets, reports, bind_lift.
  destruct (fuzz_one_ok fuel iters st z Hz HJ Hne Hres) as (r & z1 & Hone & Hz1 & Hg1 & Hr).
  unfold bind at 1. rewrite Hone. destruct r as [[[id|] st1]|e|]; [| | |done].
  - destruct Hr as (z0 & Hw & Hend & HJ1 & Hc1).
    assert (InMemory.ids (corpus (fst_state z1)) ≠ []) as Hne1.
    { destruct Hg1 as ([l1 E1] & _). intros E. rewrite E in E1. by symmetry in E1; apply app_nil in E1 as [? _]. }
    destruct (IH (Some id) st1 z1 Hz1 HJ1 Hne1) as (r & z' & Hrun & Hz' & Hg' & Hcase); [intros i Hi; congruence|by eexists|].
    exists r, z'. split; [exact Hrun|]. split; [done|]. split; [by etrans|]. right. split; [done|].
    destruct Hcase as [(-> & -> & ->)|(Hi & ids & st2 & z2 & Hf & Hr)].
    + exists [id], st1, z1. split; [by eapply fuzzed_cons, fuzzed_nil|done].
    + exists (id :: ids), st2, z2. split; [by eapply fuzzed_cons|]. destruct r as [[[i|] st3]|e|]; [| | |done]; cbn [length].
      * destruct Hr as (L1 & L2 & L3). split; [lia|]. split; [|done]. by destruct ids.
      * destruct Hr as (L1 & L2). split; [lia|done].
      * destruct Hr as (L1 & L2). split; [lia|done].
  - eexists _, z1. split; [done|]. split; [done|]. split; [done|]. right. split; [done|].
    exists [], st, z. split; [constructor|]. split; [cbn; lia|done].
  - eexists _, z1. split; [done|]. split; [done|]. split; [done|]. right. split; [done|].
    exists [], st, z. split; [constructor|]. split; [cbn; lia|done].
Qed.

(** The loop with any stages that keep the contract. *)
Lemma fuzz_loop_ok fuel iters st z : iters ≠ 0 → fuzz_inv z → J iters st z → InMemory.ids (corpus (fst_state z)) ≠ [] → on_entry z →
  ∃ r z', fuzz_loop_for fuel stages iters st z = (r, z') ∧ fuzz_inv z' ∧ richer z z' ∧ loop_result fuel iters st z z' r.
Proof.
  intros Hi Hz HJ Hne Hres. unfold fuzz_loop_for. assert ((iters =? 0) = false) as -> by by apply Nat.eqb_neq.
  destruct (fuzz_rounds_ok fuel iters None st z Hz HJ Hne Hres) as (r & z' & Hrun & Hz' & Hg & [(? & _)|(_ & Hr)]); [done|done|].
  unfold bind at 1. rewrite Hrun. destruct r as [[[id|] st']|e|]; [|by eexists _, z'..].
  rewrite bind_gets, reports_last, bind_lift. by eexists _, z'.
Qed.
End Loop.
End Facts.

(** ** A concrete campaign *)

#[local] Existing Instance toy_env.

(** A target with four edges: the first byte of an input selects the edge it reaches, and an input that
    begins with [0xff] crashes. *)
Definition demo_run (input : list Byte.byte) (n : u64) : outcome Error (ExitKind * list Z * list Z * Duration) :=
  let edge := match input with [] => 0 | b :: _ => Byte.to_nat b `mod` 4 end in
  let kind := match input with Byte.xff :: _ => Crash | _ => ExitOk end in
  Ok (kind, <[edge := 1%Z]> (replicate 4 0%Z), replicate 4 0%Z, 5%Z).
Definition demo_target : Target := mkTarget demo_run (λ _, 0%Z) true 0.
#[global] Instance demo_target_laws : TargetLaws demo_target.
Proof.
  split; cbn [run demo_target map_align]; [|unfold demo_run|lia].
  - intros input n. by do 4 eexists.
  - intros input n kind edges sancov elapsed [= _ <- _ _]. apply Forall_insert; [|done]. by repeat constructor.
Qed.
Definition demo_manager : Manager :=
  mkManager true false (λ _, Ok (Some [])) (λ _, Ok ()) (λ _, Ok ()) (λ _, Ok ()) (λ _, Ok ()).

Definition demo_observers : Observers :=
  mkObservers (mkMapObserver 0 (replicate 4 0%Z)) (mkMapObserver 0 (replicate 4 0%Z)) (Time.new "time").
Abbreviation DemoFuzzer := (StdFuzzer WeightedScheduler BofuzzFeedback).
(** A new fuzzer, its feedback initialised. *)
Definition demo_fuzzer : DemoFuzzer :=
  mkFuzzer (obj demo_min) (bofuzz_feedback (H := toy_env)) (ExitKindFeedback_new CrashLogic) demo_observers
    (MapFeedback.init_state (MapFeedback.new false "edges") (sst demo_min)).2.

Lemma demo_fuzz_inv : fuzz_inv (scorable := length_known) (binv := weighted_inv) (P := bofuzz_spec (H := toy_env)) demo_fuzzer.
Proof.
  unfold fuzz_inv, sched_of, demo_fuzzer. cbn [scheduler feedback objective observers fst_state].
  assert (sched_part (sst demo_min) (MapFeedback.init_state (MapFeedback.new false "edges") (sst demo_min)).2) as Hp by done.
  split; [apply (full_inv_part (cost := len_time_cost) (B := demo_base)
    (BaseLaws0 := demo_base_laws) _ (sst demo_min)); [exact demo_full_inv|done]|].
  split; [|split; [|split; [apply cwf_new|done]]].
  - split; [done|]. split; [by eexists|]. split; [by split; [constructor|]|].
    split; [by intros ?|]. split; [by intros ?|]. split; [by split; intros ?|by intros ??].
  - intros k. cbn. split; [by intros []|]. intros []. done.
Qed.

(** The fuzzer of the demonstration. *)
Abbreviation demo_evaluate := (evaluate_input_with_observers (H := toy_env) (H0 := demo_target) (H1 := demo_manager)
  (H2 := LenTimeMulTestcaseScore) (H3 := demo_base) (H4 := EagerOrFeedback)).

Lemma demo_scorable tc : is_Some (tc_input tc) → length_known tc.
Proof. by left. Qed.
Lemma demo_accepts e : fire_result (Env := toy_env) e = Ok ().
Proof. done. Qed.
Lemma demo_serializes o : ∃ b, serialize_observers (Manager := demo_manager) o = Ok b.
Proof. by eexists. Qed.

(** A first input is stored, a second one that reaches nothing new is dropped and one that
    crashes is a solution. *)
Lemma evaluate_spec_witness :
  ∃ z', demo_evaluate [Byte.x01] true demo_fuzzer = (Ok (ResCorpus, Some 0), z') ∧
    fuzz_inv (scorable := length_known) (binv := weighted_inv) (P := bofuzz_spec (H := toy_env)) z' ∧
    fs_cover (bofuzz_spec (H := toy_env)) (fst_state z') 1.
Proof.
  destruct (evaluate_spec (TS := LenTimeMulTestcaseScore) (cost := len_time_cost) (BaseLaws0 := demo_base_laws)
    (FeedbackLaws0 := bofuzz_laws demo_accepts) (H0 := demo_target) (H1 := demo_manager)
    demo_scorable demo_accepts demo_serializes [Byte.x01] true demo_fuzzer demo_fuzz_inv)
    as (kind & edges & sancov & elapsed & res & oid & z' & _ & Hrun & Hz' & _ & Hobs & Hj).
  - vm_compute. reflexivity.
  - assert ((demo_evaluate [Byte.x01] true demo_fuzzer).1 = Ok (ResCorpus, Some 0)) as E by (vm_compute; reflexivity).
    rewrite Hrun in E. injection E as -> ->. exists z'. split; [exact Hrun|]. split; [exact Hz'|].
    destruct Hj as (_ & _ & _ & _ & Hk & _). apply Hk. right.
    assert ((demo_evaluate [Byte.x01] true demo_fuzzer).2 = z') as <- by (rewrite Hrun; reflexivity).
    vm_compute. by left.
Defined.

(** The fuzzer after its first input. *)
Definition demo_fed_fuzzer : DemoFuzzer := (demo_evaluate [Byte.x01] true demo_fuzzer).2.
Lemma demo_fed_inv :
  fuzz_inv (scorable := length_known) (binv := weighted_inv) (P := bofuzz_spec (H := toy_env)) demo_fed_fuzzer.
Proof.
  destruct (evaluate_ok (TS := LenTimeMulTestcaseScore) (cost := len_time_cost) (BaseLaws0 := demo_base_laws)
    (FeedbackLaws0 := bofuzz_laws demo_accepts) (H0 := demo_target) (H1 := demo_manager)
    demo_scorable demo_accepts demo_serializes [Byte.x01] true demo_fuzzer demo_fuzz_inv)
    as (kind & edges & sancov & elapsed & res & oid & z' & _ & Hrun & Hz' & _).
  - vm_compute. reflexivity.
  - unfold demo_fed_fuzzer. rewrite Hrun. exact Hz'.
Qed.
