(* ===== verification/Calibrate.v ===== *)
(** * Calibrate: [libafl/src/stages/calibrate.rs]

    The first time an entry is scheduled it is run a few times over: its time and the size of its map are
    measured for the schedulers, and the entries of the map in which the runs differ are taken out of the
    search for novelties.  Runs that fail and maps that differ make the stage run the entry more often.

    The map is the one of the edges, with entries of a byte.  [Stopwatch] is [current_time()]; a [Duration] is
    its number of nanoseconds and [-] panics where it would be negative.  The debug assertion on the filled entries is part of the model; counters wrap. *)

From Stdlib Require Import ZArith Lia.
From S2P Require Import Prelude Float64 FloatFacts Rands Corpus Metadata State Factor WeightRefresh MapObserver MapFeedback CreditFeedback Feedbacks TestcaseScore Weighted Minimizer Fuzzer.
Import InMemoryFacts.

Class Stopwatch := { time_at : nat → Duration }.

Definition CAL_STAGE_START : usize := 4.
Definition CAL_STAGE_MAX : usize := 8.

Record CalibrationStage := mkCalibration {
  cal_map_name : string;
  cal_name : string;
  stage_max : usize;
  track_stability : bool;
}.
#[global] Instance eta_CalibrationStage : Eta CalibrationStage := λ r,
  mkCalibration (cal_map_name r) (cal_name r) (stage_max r) (track_stability r).
Definition CalibrationStage_new (map_name : string) : CalibrationStage :=
  mkCalibration map_name ("calibration:" ++ map_name) CAL_STAGE_START true.
Definition ignore_stability (map_name : string) : CalibrationStage :=
  (CalibrationStage_new map_name) <| track_stability := false |>.

(** [Duration] addition, up to [u64::MAX] seconds. *)
Definition duration_max : Duration := (u64_max * 1000000000 + 999999999)%Z.
Definition duration_add (a b : Duration) : outcome Error Duration :=
  if (a + b <=? duration_max)%Z then Ok (a + b)%Z else Panic.

(** The entries that differ from the first run and are not yet marked: they are marked with the largest value,
    and [num_covered_map_indexes] counts the ones that had not been covered. *)
Fixpoint mark_entries (idx : nat) (first cur history : list Z) : list Z * nat * list nat :=
  match first, cur, history with
  | f :: first, c :: cur, h :: history =>
    let '(history, new, unstable) := mark_entries (S idx) first cur history in
    if negb (f =? c)%Z && negb (h =? 255)%Z then
      (255%Z :: history, (if (h =? 0)%Z then 1 else 0) + new, idx :: unstable)
    else (h :: history, new, unstable)
  | _, _, _ => (history, 0, [])
  end.

(** The variables of the loop. *)
Record Calibration := mkCal {
  cal_iter : usize;
  cal_i : usize;
  has_errors : bool;
  total_time : Duration;
  cal_unstable : list nat;
}.
#[global] Instance eta_Calibration : Eta Calibration := λ r,
  mkCal (cal_iter r) (cal_i r) (has_errors r) (total_time r) (cal_unstable r).
Definition more_runs (c : Calibration) : Calibration :=
  if cal_iter c <? CAL_STAGE_MAX then c <| cal_iter := cal_iter c + 2 |> else c.

Section Calibrate.
Context `{Env} `{Target} `{Libm} `{Stopwatch} {T F : Type}.
Abbreviation Fuzz A := (M (StdFuzzer T F) A).
Abbreviation on_state := (on_state (T := T) (F := F)).

Definition current_time : M State Duration := λ s, (Ok (time_at (ticks s)), s <| ticks := S (ticks s) |>).
Definition elapsed_since (start : Duration) : M State Duration :=
  now <- current_time ;; lift (if (now <? start)%Z then Panic else Ok (now - start)%Z).
Definition log_errored : M State () := fire (Log LogWarn "Corpus entry errored on execution!").

Definition current_input_cloned : M State (list Byte.byte) :=
  cur <- gets corpus_id ;;
  id <- lift (ok_or cur (illegal_state "We are not currently processing a testcase" [])) ;;
  tc <- read_testcase id ;;
  lift (unwrap (tc_input tc)).

(** ** A run *)

Definition pre_exec : Fuzz () := modify (λ z, z <| observers := pre_exec_all (observers z) |>).
Definition post_exec (elapsed : Duration) : Fuzz () :=
  modify (λ z, z <| observers := post_exec_all little_endian map_align elapsed (observers z) |>).
(** The exit kind, and the time the time observer sees. *)
Definition run_target (input : list Byte.byte) : Fuzz (ExitKind * Duration) :=
  n <- gets (λ z, executions (fst_state z)) ;;
  on_state (modify (λ s, s <| executions := wrap64 (executions s + 1) |>)) ;;;
  r <- lift (run input n) ;;
  let '(exit_kind, edges, sancov, elapsed) := r : ExitKind * list Z * list Z * Duration in
  modify (λ z, z <| observers := (observers z)
    <| ob_edges := (ob_edges (observers z)) <| mo_entries := edges |> |>
    <| ob_sancov := (ob_sancov (observers z)) <| mo_entries := sancov |> |> |>) ;;;
  ret (exit_kind, elapsed).

Definition edges_now (z : StdFuzzer T F) : list Z := mo_entries (ob_edges (observers z)).

Definition first_run (input : list Byte.byte) : Fuzz Duration :=
  pre_exec ;;;
  start <- on_state current_time ;;
  r <- run_target input ;;
  total <- (if bool_decide (r.1 = ExitOk) then on_state (elapsed_since start)
            else on_state log_errored ;;; ret 1000000000%Z) ;;
  post_exec r.2 ;;;
  ret total.

(** [num_covered_map_indexes] of the feedback, or what the map shows. *)
Definition filled_count (self : CalibrationStage) (z : StdFuzzer T F) : usize :=
  match named_maps (fst_state z) !! cal_map_name self with
  | Some metadata => num_covered_map_indexes metadata
  | None => Z.to_nat (StdMap.count_bytes (ob_edges (observers z)))
  end.

(** ** The loop *)

Definition count_errors (exit_kind : ExitKind) (c : Calibration) : Fuzz Calibration :=
  if bool_decide (exit_kind = ExitOk) then ret c
  else
    (if has_errors c then ret () else on_state log_errored) ;;;
    ret (more_runs (c <| has_errors := true |>)).

Definition track (self : CalibrationStage) (map_first : list Z) (c : Calibration) : Fuzz Calibration :=
  map <- gets edges_now ;;
  maps <- gets (λ z, named_maps (fst_state z)) ;;
  map_state <- lift (unwrap (maps !! cal_map_name self)) ;;
  let map_state := grown (length map_first) 0 map_state in
  let '(history, new, unstable) := mark_entries 0 map_first map (history_map map_state) in
  on_state (modify (λ s, s <| named_maps := <[cal_map_name self :=
    mkMapFeedbackMeta history (num_covered_map_indexes map_state + new)]> (named_maps s) |>)) ;;;
  let c := c <| cal_unstable := cal_unstable c ++ unstable |> in
  ret (match cal_unstable c with [] => c | _ => more_runs c end).

Definition cal_round (self : CalibrationStage) (map_first : list Z) (c : Calibration) : Fuzz Calibration :=
  input <- on_state current_input_cloned ;;
  pre_exec ;;;
  start <- on_state current_time ;;
  r <- run_target input ;;
  c <- count_errors r.1 c ;;
  d <- on_state (elapsed_since start) ;;
  total <- lift (duration_add (total_time c) d) ;;
  let c := c <| total_time := total |> in
  post_exec r.2 ;;;
  c <- (if track_stability self && negb (bool_decide (r.1 = Timeout)) then track self map_first c else ret c) ;;
  ret (c <| cal_i := S (cal_i c) |>).

(** [while i < iter]; the fuel is never used up, see [cal_loop_ends]. *)
Fixpoint cal_loop (fuel : nat) (self : CalibrationStage) (map_first : list Z) (c : Calibration) : Fuzz Calibration :=
  match fuel with
  | O => ret c
  | S fuel =>
    if cal_i c <? cal_iter c then
      c <- cal_round self map_first c ;;
      cal_loop fuel self map_first c
    else ret c
  end.
Definition cal_fuel (self : CalibrationStage) : nat := Nat.max (stage_max self) (CAL_STAGE_MAX + 1).

(** ** The results *)

(** Whether the stability of a map without unstable entries is to be sent. *)
Definition note_unstable (unstable : list nat) (filled : usize) : M State bool :=
  m <- gets m_unstable ;;
  match unstable with
  | [] =>
    match m with
    | None => modify (λ s, s <| m_unstable := Some UnstableEntriesMetadata_new |>) ;;; ret true
    | Some _ => ret false
    end
  | _ =>
    let m := default UnstableEntriesMetadata_new m in
    modify (λ s, s <| m_unstable := Some (mkUnstable (list_to_set unstable ∪ unstable_entries m) filled) |>) ;;;
    ret false
  end.

(** The metadata of the testcase; the parent is read while the testcase is borrowed. *)
Definition own_metadata (id : CorpusId) (tc : Testcase) : M State SchedulerTestcaseMetadata :=
  match tc_sched tc with
  | Some data => ret data
  | None =>
    depth <- match parent_id tc with
             | Some p =>
               if decide (p = id) then panic
               else parent <- read_testcase p ;;
                    ret (match tc_sched parent with Some data => wrap64 (depth data + 1) | None => 0%Z end)
             | None => ret 0%Z
             end ;;
    ret (with_n_fuzz_entry depth 0)
  end.

Definition update_schedule (total : Duration) (iter : usize) (bitmap_size : u64) : M State () :=
  m <- gets m_sched ;;
  match m with
  | None => ret ()
  | Some psmeta =>
    if (bitmap_size <? 1)%Z then
      throw (InvalidCorpus (fmt "This testcase does not trigger any edges. Check your instrumentation!" []))
    else
      let handicap' := sm_queue_cycles psmeta in
      exec_time <- lift (duration_add (sm_exec_time psmeta) total) ;;
      modify (λ s, s <| m_sched := Some (psmeta
        <| sm_exec_time := exec_time |>
        <| sm_cycles := wrap64 (sm_cycles psmeta + Z.of_nat iter) |>
        <| sm_bitmap_size := wrap64 (sm_bitmap_size psmeta + bitmap_size) |>
        <| sm_bitmap_size_log := fadd (sm_bitmap_size_log psmeta) (flog2 (of_Z bitmap_size)) |>
        <| sm_bitmap_entries := wrap64 (sm_bitmap_entries psmeta + 1) |>) |>) ;;;
      cur <- gets corpus_id ;;
      id <- lift (ok_or cur (illegal_state "We are not currently processing a testcase" [])) ;;
      tc <- read_testcase id ;;
      average <- lift (if iter =? 0 then Panic else Ok (total / Z.of_nat iter)%Z) ;;
      change_testcase id (λ tc, tc <| tc_exec_time := Some average |>) ;;;
      data <- own_metadata id tc ;;
      change_testcase id (λ tc, tc <| tc_sched := Some (data
        <| cycle_and_time := (total, iter) |>
        <| tm_bitmap_size := bitmap_size |>
        <| handicap := handicap' |>) |>)
  end.

Definition send_stability (unstable : list nat) (send_default : bool) (filled : usize) : M State () :=
  m <- gets m_unstable ;;
  match unstable, m with
  | _ :: _, Some meta =>
    if filled =? 0 then panic
    else fire (UpdateUserStats "stability"
           (mkUserStats (Ratio (Z.of_nat (filled - size (unstable_entries meta))) (Z.of_nat filled)) AggAvg))
  | _ :: _, None => ret ()
  | [], _ =>
    if send_default then fire (UpdateUserStats "stability" (mkUserStats (Ratio (Z.of_nat filled) (Z.of_nat filled)) AggAvg)) else ret ()
  end.

Definition perform (self : CalibrationStage) : Fuzz () :=
  cur <- gets (λ z, corpus_id (fst_state z)) ;;
  id <- lift (ok_or cur (key_not_found "We are not currently processing a testcase" [])) ;;
  tc <- on_state (read_testcase id) ;;
  if 0 <? scheduled_count tc then ret ()
  else
    input <- on_state current_input_cloned ;;
    total <- first_run input ;;
    filled <- gets (filled_count self) ;;
    map_first <- gets edges_now ;;
    c <- cal_loop (cal_fuel self) self map_first (mkCal (stage_max self) 1 false total []) ;;
    send_default <- on_state (note_unstable (cal_unstable c) filled) ;;
    bitmap_size <- gets (λ z, StdMap.count_bytes (ob_edges (observers z))) ;;
    on_state (update_schedule (total_time c) (cal_iter c) bitmap_size) ;;;
    on_state (send_stability (cal_unstable c) send_default filled).
End Calibrate.

(** ** Marking *)

(** The two runs differ in an entry. *)
Definition differ (first cur : list Z) (j : nat) : bool :=
  match first !! j, cur !! j with Some f, Some c => negb (f =? c)%Z | _, _ => false end.

Lemma nonzero_cons x h : nonzero (x :: h) = (if (x =? 0)%Z then 0 else 1) + nonzero h.
Proof.
  unfold nonzero. rewrite filter_cons. destruct (Z.eqb_spec x 0) as [->|Hx].
  - by rewrite decide_False by (intros []; done).
  - by rewrite decide_True by done.
Qed.

Definition marked (first cur hist hist' : list Z) (idx new : nat) (us : list nat) : Prop :=
  (∀ j, default 0%Z (hist' !! j) = if differ first cur j then 255%Z else default 0%Z (hist !! j)) ∧
  nonzero hist' = nonzero hist + new ∧ (Forall is_u8 hist → Forall is_u8 hist') ∧
  ∀ x, x ∈ us ↔ ∃ j, x = idx + j ∧ differ first cur j = true ∧ default 0%Z (hist !! j) ≠ 255%Z.

Lemma marked_none first cur hist idx : (∀ j, differ first cur j = false) → marked first cur hist hist idx 0 [].
Proof.
  intros Hd. split; [intros j; by rewrite Hd|]. split; [lia|]. split; [done|]. intros x.
  split; [by intros ?%elem_of_nil|]. intros (j & _ & E & _). by rewrite Hd in E.
Qed.

Lemma mark_spec idx first cur hist : length first ≤ length hist →
  let '(hist', new, us) := mark_entries idx first cur hist in marked first cur hist hist' idx new us.
Proof.
  revert idx cur hist. induction first as [|f first IH]; intros idx cur hist Hlen.
  { apply marked_none. by intros []. }
  destruct cur as [|c cur]; [apply marked_none; intros j; unfold differ; by case_match|].
  destruct hist as [|h hist]; [cbn in Hlen; lia|]. cbn [mark_entries length] in *.
  specialize (IH (S idx) cur hist ltac:(lia)). destruct (mark_entries (S idx) first cur hist) as [[hist' new] us].
  destruct IH as (A & N & U & X).
  assert (∀ j, differ (f :: first) (c :: cur) (S j) = differ first cur j) as ES by done.
  assert (differ (f :: first) (c :: cur) 0 = negb (f =? c)%Z) as E0 by done.
  assert (∀ x, x ∈ us ↔ ∃ j, x = idx + S j ∧ differ first cur j = true ∧ default 0%Z (hist !! j) ≠ 255%Z) as X'.
  { intros x. rewrite X. by setoid_rewrite Nat.add_succ_r. }
  destruct (negb (f =? c)%Z && negb (h =? 255)%Z) eqn:E.
  - apply andb_true_iff in E as [Ef Eh%negb_true_iff%Z.eqb_neq]. split; [|split; [|split]].
    + intros [|j]; cbn [lookup list_lookup]; [by rewrite E0, Ef|]. rewrite ES. apply A.
    + rewrite !nonzero_cons, N. cbn [Z.eqb]. destruct (h =? 0)%Z; lia.
    + intros [? ?]%Forall_cons. constructor; [|auto]. unfold is_u8. lia.
    + intros x. rewrite elem_of_cons, X'. split.
      * intros [->|(j & ? & ?)]; [exists 0; split; [lia|by rewrite E0]|by exists (S j)].
      * intros ([|j] & -> & Hd & Hh); [left; lia|]. right. by exists j.
  - assert (negb (f =? c)%Z = true → h = 255%Z) as Hh0.
    { intros Ef. rewrite Ef in E. by apply negb_false_iff, Z.eqb_eq in E. }
    split; [|split; [|split]].
    + intros [|j]; cbn [lookup list_lookup]; [|rewrite ES; apply A]. rewrite E0.
      destruct (negb (f =? c)%Z); [cbn; auto|done].
    + rewrite !nonzero_cons. lia.
    + intros [? ?]%Forall_cons. constructor; auto.
    + intros x. rewrite X'. split; [intros (j & ? & ?); by exists (S j)|].
      intros ([|j] & -> & Hd & Hh); [|by exists j]. rewrite E0 in Hd. cbn in Hh. by destruct Hh; apply Hh0.
Qed.

(** ** The runs *)

(** [current_time] is the system's clock, which can be set back: it is not, and it stands at less than 584 years. *)
Definition steady_clock `{Stopwatch} : Prop := ∀ i, (time_at i ≤ time_at (S i))%Z ∧ (0 ≤ time_at i < 2 ^ 64)%Z.

Section Facts.
Context `{Env} `{Target, !TargetLaws _} `{Libm} `{Stopwatch} {T F : Type}.
Context (accepts : ∀ e, fire_result e = Ok ()).
Implicit Types z : StdFuzzer T F.

(** What a run shows in the map, and how it ends. *)
Definition seen (input : list Byte.byte) (n : u64) : list Z :=
  match run input n with Ok (_, edges, _, _) => Hitcounts.post_exec little_endian map_align edges | _ => [] end.
Definition ended (input : list Byte.byte) (n : u64) : ExitKind :=
  match run input n with Ok (kind, _, _, _) => kind | _ => ExitOk end.
(** The counter of executions at the [k]th run. *)
Definition nth_exec (n : u64) (k : nat) : u64 := Nat.iter k (λ x, wrap64 (x + 1)) n.

Definition in_run z (obs : Observers) : StdFuzzer T F :=
  z <| observers := obs |> <| fst_state := (fst_state z)
    <| executions := wrap64 (executions (fst_state z) + 1) |> <| ticks := S (ticks (fst_state z)) |> |>.

Lemma begin_run {A} input z (k : Duration → ExitKind * Duration → M (StdFuzzer T F) A) :
  ∃ elapsed obs, (pre_exec ;;; start <- on_state current_time ;; r <- run_target input ;; k start r) z =
      k (time_at (ticks (fst_state z))) (ended input (executions (fst_state z)), elapsed) (in_run z obs) ∧
    mo_entries (ob_edges (post_exec_all little_endian map_align elapsed obs)) = seen input (executions (fst_state z)) ∧
    (watching (observers z) → watching (post_exec_all little_endian map_align elapsed obs)).
Proof.
  destruct (run_ok input (executions (fst_state z))) as (kind & edges & sancov & elapsed & Hrun).
  exists elapsed. eexists. split; [|split].
  - unfold pre_exec. rewrite bind_modify. unfold bind at 1, on_state at 1, current_time at 1.
    unfold run_target. unfold bind at 1. rewrite bind_gets. unfold bind at 1, on_state at 1, modify at 1.
    unfold bind at 1, lift at 1. cbn [fst_state executions upd eta_StdFuzzer eta_State]. rewrite Hrun. cbn [upd].
    unfold ended. rewrite Hrun. rewrite bind_modify. cbn [ret]. by destruct z.
  - unfold seen. by rewrite Hrun.
  - done.
Qed.

Lemma elapsed_ok (s : State) n : steady_clock → ticks s = S n →
  ∃ d, elapsed_since (time_at n) s = (Ok d, s <| ticks := S (ticks s) |>) ∧ (0 ≤ d ≤ 2 ^ 64)%Z.
Proof.
  intros Hclock Ht. unfold elapsed_since, bind, current_time, lift. rewrite Ht. destruct (Hclock n) as [Hf ?], (Hclock (S n)) as [_ ?]. rewrite (proj2 (Z.ltb_ge _ _) Hf). eexists. split; [done|]. lia.
Qed.
Lemma log_ok (s : State) : log_errored s = (Ok (), s <| events := events s ++ [Log LogWarn "Corpus entry errored on execution!"] |>).
Proof. unfold log_errored, fire. by rewrite accepts. Qed.

(** Between two steps of the stage only observers, counters, maps and events differ. *)
Definition running z z' : Prop :=
  z' = z <| observers := observers z' |> <| fst_state := (fst_state z)
         <| executions := executions (fst_state z') |> <| named_maps := named_maps (fst_state z') |>
         <| ticks := ticks (fst_state z') |> <| events := events (fst_state z') |> |> ∧
  (watching (observers z) → watching (observers z')).

Lemma running_trans z1 z2 z3 : running z1 z2 → running z2 z3 → running z1 z3.
Proof. intros [E1 W1] [E2 W2]. split; [|auto]. rewrite E2, E1. done. Qed.

Lemma first_run_ok input z : steady_clock → watching (observers z) →
  ∃ d z', first_run input z = (Ok d, z') ∧ running z z' ∧ (0 ≤ d ≤ 2 ^ 64)%Z ∧
    named_maps (fst_state z') = named_maps (fst_state z) ∧
    executions (fst_state z') = wrap64 (executions (fst_state z) + 1) ∧ edges_now z' = seen input (executions (fst_state z)).
Proof.
  intros Hclock Hw. unfold first_run.
  match goal with |- context [(pre_exec ;;; start <- _ ;; r <- _ ;; @?k start r) z] =>
    destruct (begin_run input z k) as (elapsed & obs & E & Hseen & Hwatch) end.
  cbv beta in E. rewrite E. cbn [fst snd]. set (z1 := in_run z obs).
  destruct (bool_decide (ended input (executions (fst_state z)) = ExitOk)).
  - destruct (elapsed_ok (fst_state z1) (ticks (fst_state z)) Hclock) as (d & Hd & Hb); [done|].
    unfold bind at 1, on_state.
    rewrite Hd. unfold post_exec. rewrite bind_modify. eexists d, _. split; [done|].
    split; [split; [by destruct z|intros _; by apply Hwatch]|]. done.
  - unfold bind at 1. unfold bind at 1, on_state. rewrite log_ok. unfold ret at 1, post_exec. rewrite bind_modify.
    eexists _, _. split; [done|]. split; [split; [by destruct z|intros _; by apply Hwatch]|]. split; [lia|]. done.
Qed.

(** A first run during which the clock was set back. *)
Lemma first_run_panics input z : ended input (executions (fst_state z)) = ExitOk →
  (time_at (S (ticks (fst_state z))) < time_at (ticks (fst_state z)))%Z → (first_run input z).1 = Panic.
Proof.
  intros Hk Hback. unfold first_run.
  match goal with |- context [(pre_exec ;;; start <- _ ;; r <- _ ;; @?k start r) z] =>
    destruct (begin_run input z k) as (elapsed & obs & E & _) end.
  cbv beta in E. rewrite E. cbn [fst snd]. rewrite bool_decide_true by done.
  unfold bind at 1, on_state, elapsed_since, bind at 1, current_time. cbn [in_run fst_state ticks upd eta_StdFuzzer eta_State].
  by rewrite (proj2 (Z.ltb_lt _ _) Hback).
Qed.

(** ** The loop *)

Section Loop.
Context (Hclock : steady_clock).
Context (self : CalibrationStage) (input : list Byte.byte) (z0 : StdFuzzer T F) (id : CorpusId) (tc : Testcase).
Context (m0 : MapFeedbackMetadata).
Context (Hcur : corpus_id (fst_state z0) = Some id) (Htc : tc_at (corpus (fst_state z0)) id = Some tc).
Context (Hin : tc_input tc = Some input) (Hmap : named_maps (fst_state z0) !! cal_map_name self = Some m0) (Hm0 : map_inv m0).
Context (Hwatch : watching (observers z0)) (Hmax : 1 ≤ stage_max self ≤ 1000).
Abbreviation n0 := (executions (fst_state z0)).
Abbreviation first := (seen input n0).

Lemma input_ok z : running z0 z → on_state current_input_cloned z = (Ok input, z).
Proof.
  intros [E _]. unfold on_state, current_input_cloned.
  assert (corpus_id (fst_state z) = Some id ∧ corpus (fst_state z) = corpus (fst_state z0)) as [E1 E2].
  { rewrite E. done. }
  unfold bind, gets, lift, read_testcase. rewrite E1. cbn [ok_or]. rewrite E2, (proj2 (get_tc_at _ _ _) Htc), Hin. by destruct z.
Qed.

(** The entries in which one of the first [k] runs differed from the first one. *)
Definition flaky_run (i j : nat) : bool :=
  negb (bool_decide (ended input (nth_exec n0 i) = Timeout)) && differ first (seen input (nth_exec n0 i)) j.
Definition flaky (k j : nat) : bool :=
  track_stability self && existsb (λ i, flaky_run i j) (seq 1 (k - 1)).

Lemma flaky_succ k j : 1 ≤ k → flaky (S k) j = flaky k j || (track_stability self && flaky_run k j).
Proof.
  intros Hk. unfold flaky. replace (S k - 1) with (k - 1 + 1) by lia. rewrite seq_app, existsb_app. cbn [seq existsb].
  replace (1 + (k - 1)) with k by lia. rewrite orb_false_r. by destruct (track_stability self), (existsb _ _).
Qed.

Record loop_inv (k : nat) (c : Calibration) (z : StdFuzzer T F) : Prop := {
  li_running : running z0 z;
  li_exec : executions (fst_state z) = nth_exec n0 k;
  li_map : ∃ m, named_maps (fst_state z) = <[cal_map_name self := m]> (named_maps (fst_state z0)) ∧ map_inv m ∧
    ∀ j, default 0%Z (history_map m !! j) = if flaky k j then 255%Z else default 0%Z (history_map m0 !! j);
  li_edges : edges_now z = seen input (nth_exec n0 (k - 1));
  li_i : cal_i c = k;
  li_iter : k ≤ cal_iter c ∧ stage_max self ≤ cal_iter c ≤ cal_fuel self;
  li_total : (0 ≤ total_time c ≤ Z.of_nat k * 2 ^ 64)%Z;
  li_unstable : ∀ j, j ∈ cal_unstable c ↔ flaky k j = true ∧ default 0%Z (history_map m0 !! j) ≠ 255%Z;
  li_calm : (∀ i, 1 ≤ i < k → ended input (nth_exec n0 i) = ExitOk) → cal_unstable c = [] → cal_iter c = stage_max self;
}.

Lemma errors_ok kind c z :
  ∃ c' ev, count_errors kind c z = (Ok c', z <| fst_state := (fst_state z) <| events := ev |> |>) ∧
    cal_i c' = cal_i c ∧ total_time c' = total_time c ∧ cal_unstable c' = cal_unstable c ∧
    (kind = ExitOk → c' = c) ∧ (cal_iter c' = cal_iter c ∨ cal_iter c < CAL_STAGE_MAX ∧ cal_iter c' = cal_iter c + 2).
Proof.
  unfold count_errors. case_bool_decide as Hk.
  { exists c, (events (fst_state z)). split; [by destruct z as [? ? ? ? []]|]. split_and!; [done..|by left]. }
  assert (∃ ev, (if has_errors c then ret () else on_state log_errored) z =
    (Ok (), z <| fst_state := (fst_state z) <| events := ev |> |>)) as [ev E].
  { destruct (has_errors c); [exists (events (fst_state z)); by destruct z as [? ? ? ? []]|].
    unfold on_state. rewrite log_ok. by eexists. }
  unfold bind. rewrite E. eexists _, ev. split; [done|]. unfold more_runs. cbn [cal_iter upd eta_Calibration].
  destruct (Nat.ltb_spec (cal_iter c) CAL_STAGE_MAX); cbn; (split_and!; [done..| |auto]); by intros ->.
Qed.

(** The map after a run is compared with the first one. *)
Lemma track_ok k c z : 1 ≤ k → loop_inv k c z → ∀ c1 z1, running z z1 → named_maps (fst_state z1) = named_maps (fst_state z) →
  edges_now z1 = seen input (nth_exec n0 k) → cal_unstable c1 = cal_unstable c → track_stability self = true →
  ended input (nth_exec n0 k) ≠ Timeout →
  ∃ c2 m, track self first c1 z1 = (Ok c2, z1 <| fst_state := (fst_state z1)
      <| named_maps := <[cal_map_name self := m]> (named_maps (fst_state z0)) |> |>) ∧
    map_inv m ∧ (∀ j, default 0%Z (history_map m !! j) = if flaky (S k) j then 255%Z else default 0%Z (history_map m0 !! j)) ∧
    (∀ j, j ∈ cal_unstable c2 ↔ flaky (S k) j = true ∧ default 0%Z (history_map m0 !! j) ≠ 255%Z) ∧
    cal_i c2 = cal_i c1 ∧ total_time c2 = total_time c1 ∧ (cal_unstable c2 = [] → c2 = c1) ∧
    (cal_iter c2 = cal_iter c1 ∨ cal_iter c1 < CAL_STAGE_MAX ∧ cal_iter c2 = cal_iter c1 + 2).
Proof.
  intros Hk I c1 z1 Hr Emaps Eedges Eun Htr Hto. destruct I as [_ _ (m & Em & Hm & Hh) _ _ _ _ Hun _].
  unfold track. rewrite !bind_gets, Eedges, Emaps, Em, lookup_insert_eq. cbn [unwrap]. rewrite bind_lift. cbv zeta.
  pose proof (mark_spec 0 first (seen input (nth_exec n0 k)) (history_map (grown (length first) 0 m)) (grown_length _ _ _)) as Hms.
  destruct (mark_entries _ _ _ _) as [[h' new] us]. destruct Hms as (A & N & U & X).
  assert (∀ j, flaky (S k) j = flaky k j || differ first (seen input (nth_exec n0 k)) j) as Ef.
  { intros j. rewrite flaky_succ by done. unfold flaky_run. by rewrite Htr, bool_decide_false by done. }
  pose proof (grown_inv (length first) m Hm) as [Gu Gn].
  set (c2 := c1 <| cal_unstable := cal_unstable c1 ++ us |>).
  exists (match cal_unstable c2 with [] => c2 | _ => more_runs c2 end),
    (mkMapFeedbackMeta h' (num_covered_map_indexes (grown (length first) 0 m) + new)).
  split; [unfold bind at 1, on_state, modify; rewrite Emaps, Em, insert_insert_eq; done|].
  split; [split; [by apply U|cbn [history_map num_covered_map_indexes]; by rewrite N, Gn]|]. split; [|split].
  - intros j. cbn [history_map]. rewrite A, grown_at, Hh, Ef. by destruct (flaky k j), (differ _ _ j).
  - intros j. assert (cal_unstable (match cal_unstable c2 with [] => c2 | _ => more_runs c2 end) = cal_unstable c ++ us) as ->.
    { unfold more_runs. destruct (_ <? _), (cal_unstable c2) eqn:E; unfold c2 in *; cbn in *; congruence. }
    rewrite elem_of_app, Hun, X, Ef. setoid_rewrite grown_at. setoid_rewrite Hh. split.
    + intros [[-> ?]|(j' & -> & Hd & Hn)]; [done|]. cbn. rewrite Hd, orb_true_r. split; [done|]. by destruct (flaky k j').
    + intros [Hf Hn]. destruct (flaky k j) eqn:Efk; [by left|]. right. exists j. cbn in Hf. by rewrite Efk.
  - unfold more_runs. destruct (cal_unstable c2) as [|x l] eqn:E.
    + assert (us = [] ∧ cal_unstable c1 = []) as [-> E1] by (unfold c2 in E; cbn in E; by apply app_nil in E as [-> ->]).
      unfold c2. rewrite app_nil_r. split_and!; [by destruct c1..|by left].
    + destruct (Nat.ltb_spec (cal_iter c2) CAL_STAGE_MAX); cbn; (split_and!; [done|done| |auto]); intros E'; unfold c2 in E; cbn in E; congruence.
Qed.

Lemma add_ok k t d : k < cal_fuel self → (0 ≤ t ≤ Z.of_nat k * 2 ^ 64)%Z → (0 ≤ d ≤ 2 ^ 64)%Z →
  duration_add t d = Ok (t + d)%Z ∧ (0 ≤ t + d ≤ Z.of_nat (S k) * 2 ^ 64)%Z.
Proof.
  unfold cal_fuel, CAL_STAGE_MAX. intros Hk Ht Hd. unfold duration_add, duration_max, u64_max.
  destruct (Z.leb_spec (t + d) ((2 ^ 64 - 1) * 1000000000 + 999999999)); [split; [done|lia]|]. lia.
Qed.

(** The end of a round, after the run. *)
Lemma round_rest k c z c2 z3 : 1 ≤ k → loop_inv k c z → running z z3 → executions (fst_state z3) = nth_exec n0 (S k) →
  edges_now z3 = seen input (nth_exec n0 k) → named_maps (fst_state z3) = named_maps (fst_state z) →
  cal_i c2 = cal_i c → cal_unstable c2 = cal_unstable c → (0 ≤ total_time c2 ≤ Z.of_nat (S k) * 2 ^ 64)%Z →
  (ended input (nth_exec n0 k) = ExitOk → cal_iter c2 = cal_iter c) →
  k < cal_iter c2 ∧ stage_max self ≤ cal_iter c2 ≤ cal_fuel self →
  ∃ c' z', (c <- (if track_stability self && negb (bool_decide (ended input (nth_exec n0 k) = Timeout))
                  then track self first c2 else ret c2) ;; ret (c <| cal_i := S (cal_i c) |>)) z3 = (Ok c', z') ∧
    loop_inv (S k) c' z'.
Proof.
  intros Hk I Hr3 Hex3 Hed3 Em3 Ei2 Eu2 Ht2 Ek2 [Hi2 Hb2]. pose proof I as [Hr Hex (m & Em & Hm & Hh) Hed Hci Hit Htot Hun Hcalm].
  assert (running z0 z3) as Hr03 by by eapply running_trans.
  assert (∀ c', cal_iter c' = cal_iter c2 → (∀ j, j ∈ cal_unstable c → j ∈ cal_unstable c') →
    (∀ i, 1 ≤ i < S k → ended input (nth_exec n0 i) = ExitOk) → cal_unstable c' = [] → cal_iter c' = stage_max self) as Hc'.
  { intros c' Ec Hmono Hall Hnil. rewrite Ec, Ek2 by (apply Hall; lia).
    apply Hcalm; [intros; apply Hall; lia|]. destruct (cal_unstable c) as [|x l]; [done|].
    exfalso. specialize (Hmono x ltac:(left)). rewrite Hnil in Hmono. by apply elem_of_nil in Hmono. }
  destruct (track_stability self && negb (bool_decide (ended input (nth_exec n0 k) = Timeout))) eqn:Etr.
  - apply andb_true_iff in Etr as [Et Hto]. rewrite negb_true_iff, bool_decide_eq_false in Hto.
    destruct (track_ok k c z Hk I c2 z3 Hr3 Em3 Hed3 Eu2 Et Hto) as (c3 & m' & E3 & Hm' & Hh' & Hu' & Ei3 & Et3 & En3 & Eit3).
    unfold bind at 1. rewrite E3. eexists _, _. split; [done|]. split.
    + eapply running_trans; [exact Hr03|]. split; [by destruct z3 as [? ? ? ? []]|done].
    + exact Hex3.
    + by exists m'.
    + rewrite Nat.sub_1_r. exact Hed3.
    + cbn. by rewrite Ei3, Ei2, Hci.
    + cbn [cal_iter upd eta_Calibration]. unfold cal_fuel, CAL_STAGE_MAX in *. lia.
    + cbn. rewrite Et3. exact Ht2.
    + exact Hu'.
    + intros Hall Hnil. cbn in Hnil |- *. apply Hc'; [by rewrite (En3 Hnil)| |done|done].
      intros j Hj. apply Hu'. rewrite flaky_succ by done. apply Hun in Hj as [-> ?]. done.
  - unfold bind at 1. cbn [ret]. eexists _, _. split; [done|].
    assert (∀ j, flaky (S k) j = flaky k j) as Ef.
    { intros j. rewrite flaky_succ by done. unfold flaky_run. rewrite andb_assoc, Etr. apply orb_false_r. }
    split.
    + exact Hr03.
    + exact Hex3.
    + exists m. split; [by rewrite Em3|]. split; [done|]. intros j. by rewrite Ef.
    + rewrite Nat.sub_1_r. exact Hed3.
    + cbn. by rewrite Ei2, Hci.
    + cbn [cal_iter upd eta_Calibration]. lia.
    + exact Ht2.
    + intros j. rewrite Ef. cbn. rewrite Eu2. apply Hun.
    + cbn. apply (Hc' c2); [done|]. intros j Hj. by rewrite Eu2.
Qed.

Lemma round_ok k c z : 1 ≤ k → loop_inv k c z → k < cal_iter c →
  ∃ c' z', cal_round self first c z = (Ok c', z') ∧ loop_inv (S k) c' z'.
Proof.
  intros Hk I Hi. pose proof I as [Hr Hex _ _ _ [_ Hb] Htot _ _].
  unfold cal_round. unfold bind at 1. rewrite (input_ok z Hr).
  match goal with |- context [(pre_exec ;;; start <- _ ;; r <- _ ;; @?k start r) z] =>
    destruct (begin_run input z k) as (elapsed & obs & E & Hseen & Hw) end.
  cbv beta in E. rewrite E. clear E. cbn [fst snd]. rewrite Hex in Hseen |- *. set (z1 := in_run z obs).
  destruct (errors_ok (ended input (nth_exec n0 k)) c z1) as (c1 & ev & E1 & Ei1 & Et1 & Eu1 & Ek1 & Eit1).
  unfold bind at 1. rewrite E1. clear E1. set (z2 := z1 <| fst_state := _ |>).
  destruct (elapsed_ok (fst_state z2) (ticks (fst_state z)) Hclock) as (d & Ed & Hd); [done|].
  unfold bind at 1, on_state at 1. rewrite Ed. clear Ed.
  destruct (add_ok k (total_time c) d) as [Eadd Hadd]; [lia|done|done|]. rewrite Et1, Eadd, bind_lift. cbv zeta.
  unfold post_exec. rewrite bind_modify. apply (round_rest k c z); [done|done| | |exact Hseen|done|done|done|exact Hadd| |].
  - split; [by destruct z|by intros ?%Hw].
  - cbn. by rewrite Hex.
  - intros Hok. cbn. by rewrite (Ek1 Hok).
  - cbn [cal_iter upd eta_Calibration]. unfold cal_fuel, CAL_STAGE_MAX in *. lia.
Qed.

(** The loop ends before its fuel does. *)
Lemma cal_loop_ends fuel : ∀ k c z, 1 ≤ k → loop_inv k c z → cal_fuel self ≤ k + fuel →
  ∃ c' z', cal_loop fuel self first c z = (Ok c', z') ∧ loop_inv (cal_iter c') c' z'.
Proof.
  induction fuel as [|fuel IH]; intros k c z Hk I Hf.
  - exists c, z. split; [done|]. destruct I as [? ? ? ? ? [? ?] ? ? ?]. assert (cal_iter c = k) as -> by lia. by split.
  - cbn [cal_loop]. pose proof (li_i _ _ _ I) as Ei. rewrite Ei. destruct (Nat.ltb_spec k (cal_iter c)) as [Hlt|Hge].
    + destruct (round_ok k c z Hk I Hlt) as (c' & z' & E & I'). unfold bind. rewrite E.
      apply (IH (S k)); [lia|done|lia].
    + exists c, z. split; [done|]. pose proof (li_iter _ _ _ I). assert (cal_iter c = k) as -> by lia. done.
Qed.
End Loop.

(** ** The results *)

Lemma note_ok us filled (s : State) : ∃ b mu, note_unstable us filled s = (Ok b, s <| m_unstable := Some mu |>) ∧
  ∀ j, j ∈ unstable_entries mu ↔ j ∈ us ∨ j ∈ unstable_entries (default UnstableEntriesMetadata_new (m_unstable s)).
Proof.
  unfold note_unstable. rewrite bind_gets. destruct us as [|x us].
  - destruct (m_unstable s) as [mu|] eqn:E.
    + exists false, mu. split; [destruct s; cbn in *; by subst|]. cbn. set_solver.
    + eexists true, _. split; [done|]. cbn. set_solver.
  - eexists false, _. split; [done|]. intros j. cbn [unstable_entries]. set_solver.
Qed.

Lemma stability_ok us b filled (s : State) mu : filled ≠ 0 → m_unstable s = Some mu →
  ∃ ev, send_stability us b filled s = (Ok (), s <| events := ev |>).
Proof.
  intros Hf Hm. unfold send_stability. rewrite bind_gets, Hm.
  destruct us; [destruct b; [|exists (events s); by destruct s]|].
  2: destruct (Nat.eqb_spec filled 0); [done|].
  all: unfold fire; rewrite accepts; by eexists.
Qed.

(** What the schedulers learn of an entry. *)
Definition measured (ps : SchedulerMetadata) (total : Duration) (iter : usize) (bitmap_size : u64) : SchedulerMetadata :=
  ps <| sm_exec_time := (sm_exec_time ps + total)%Z |>
     <| sm_cycles := wrap64 (sm_cycles ps + Z.of_nat iter) |>
     <| sm_bitmap_size := wrap64 (sm_bitmap_size ps + bitmap_size) |>
     <| sm_bitmap_size_log := fadd (sm_bitmap_size_log ps) (flog2 (of_Z bitmap_size)) |>
     <| sm_bitmap_entries := wrap64 (sm_bitmap_entries ps + 1) |>.
Definition calibrated (ps : SchedulerMetadata) (tc tc' : Testcase) (total : Duration) (iter : usize) (bitmap_size : u64) : Prop :=
  ∃ data, tc' = tc <| tc_exec_time := Some (total / Z.of_nat iter)%Z |> <| tc_sched := Some data |> ∧
    cycle_and_time data = (total, iter) ∧ tm_bitmap_size data = bitmap_size ∧ handicap data = sm_queue_cycles ps ∧
    (∀ data0, tc_sched tc = Some data0 → depth data = depth data0).
(** The parent of an entry without metadata is another entry of the corpus. *)
Definition parent_ok (s : State) (id : CorpusId) (tc : Testcase) : Prop :=
  tc_sched tc = None → ∀ p, parent_id tc = Some p → p ≠ id ∧ is_Some (tc_at (corpus s) p).

Lemma own_ok id tc (s : State) : parent_ok s id tc →
  ∃ data, own_metadata id tc s = (Ok data, s) ∧ ∀ data0, tc_sched tc = Some data0 → data = data0.
Proof.
  intros Hp. unfold own_metadata. destruct (tc_sched tc) as [data|] eqn:Es.
  { exists data. split; [done|]. by intros ? [= ->]. }
  destruct (parent_id tc) as [p|] eqn:Ep; [|eexists; by split].
  destruct (Hp Es p Ep) as [Hne [t Ht]]. rewrite decide_False by done.
  unfold bind, read_testcase. rewrite (proj2 (get_tc_at _ _ _) Ht). eexists. by split.
Qed.

Lemma update_schedule_ok (s : State) id tc ps total iter bs : corpus_id s = Some id → tc_at (corpus s) id = Some tc →
  m_sched s = Some ps → parent_ok s id tc → iter ≠ 0 → (1 ≤ bs)%Z → (sm_exec_time ps + total ≤ duration_max)%Z →
  ∃ c' tc', update_schedule total iter bs s = (Ok (), s <| m_sched := Some (measured ps total iter bs) |> <| corpus := c' |>) ∧
    calibrated ps tc tc' total iter bs ∧ (cwf (corpus s) → cwf c' ∧ InMemory.ids c' = InMemory.ids (corpus s)) ∧
    ∀ x, tc_at c' x = if decide (x = id) then Some tc' else tc_at (corpus s) x.
Proof.
  intros Hcur Htc Hps Hp Hit Hbs Hle. unfold update_schedule. rewrite bind_gets, Hps.
  rewrite (proj2 (Z.ltb_ge _ _) Hbs). cbv zeta. unfold duration_add. rewrite (proj2 (Z.leb_le _ _) Hle), bind_lift, bind_modify, bind_gets.
  set (s1 := s <| m_sched := _ |>). change (corpus_id s1) with (corpus_id s). rewrite Hcur. cbn [ok_or]. rewrite bind_lift.
  unfold bind at 1, read_testcase. change (corpus s1) with (corpus s). rewrite (proj2 (get_tc_at _ _ _) Htc).
  rewrite (proj2 (Nat.eqb_neq _ _) Hit), bind_lift.
  destruct (update_ok (corpus s) id (λ tc, tc <| tc_exec_time := Some (total / Z.of_nat iter)%Z |>) tc Htc)
    as (c1 & E1 & W1 & I1 & _ & L1).
  unfold bind at 1. unfold change_testcase at 1. change (corpus s1) with (corpus s). rewrite E1.
  set (s2 := s1 <| corpus := c1 |>).
  assert (parent_ok s2 id tc) as Hp2.
  { intros Es p Ep. destruct (Hp Es p Ep) as [Hne Hpar]. split; [done|]. cbn. by rewrite L1, decide_False. }
  destruct (own_ok id tc s2 Hp2) as (data & E2 & Hd). unfold bind at 1. rewrite E2.
  assert (tc_at c1 id = Some (tc <| tc_exec_time := Some (total / Z.of_nat iter)%Z |>)) as Htc1 by by rewrite L1, decide_True.
  set (data' := data <| cycle_and_time := _ |> <| tm_bitmap_size := _ |> <| handicap := _ |>).
  destruct (update_ok c1 id (λ tc, tc <| tc_sched := Some data' |>) _ Htc1) as (c2 & E3 & W2 & I2 & _ & L2).
  unfold change_testcase. change (corpus s2) with c1. rewrite E3. eexists c2, _. split; [done|].
  split; [|split].
  - exists data'. split; [done|]. split_and!; [done..|]. intros data0 E0. cbn. by rewrite (Hd data0 E0).
  - intros C. split; [auto|]. rewrite I2, I1; auto.
  - intros x. rewrite L2. case_decide; [done|]. rewrite L1. by rewrite decide_False.
Qed.

(** ** The theorem *)

(** An entry that is calibrated for the first time. *)
Record to_calibrate (self : CalibrationStage) (z : StdFuzzer T F) (id : CorpusId) (tc : Testcase) (input : list Byte.byte)
    (m : MapFeedbackMetadata) (ps : SchedulerMetadata) : Prop := {
  tc_current : corpus_id (fst_state z) = Some id;
  tc_entry : tc_at (corpus (fst_state z)) id = Some tc;
  tc_bytes : tc_input tc = Some input;
  tc_first : scheduled_count tc = 0;
  tc_parent : parent_ok (fst_state z) id tc;
  tc_history : named_maps (fst_state z) !! cal_map_name self = Some m;
  tc_map : map_inv m ∧ num_covered_map_indexes m ≠ 0;
  tc_meta : m_sched (fst_state z) = Some ps;
  tc_time : (0 ≤ sm_exec_time ps ≤ duration_max - 1000 * 2 ^ 64)%Z;
  tc_watching : watching (observers z);
  tc_max : 1 ≤ stage_max self ≤ 1000;
}.

(** What is left of the entry and the schedulers' metadata, by how the stage ends. *)
Definition calibration_result (z z' : StdFuzzer T F) (id : CorpusId) (tc : Testcase) (ps : SchedulerMetadata) (n : nat)
    (r : outcome Error ()) : Prop :=
  let s := fst_state z in let s' := fst_state z' in
  let bitmap_size := StdMap.count_bytes (ob_edges (observers z')) in
  match r with
  | Ok _ => (1 ≤ bitmap_size)%Z ∧
    ∃ total tc', m_sched s' = Some (measured ps total n bitmap_size) ∧ calibrated ps tc tc' total n bitmap_size ∧
      ∀ x, tc_at (corpus s') x = if decide (x = id) then Some tc' else tc_at (corpus s) x
  | Err e => (bitmap_size < 1)%Z ∧ m_sched s' = Some ps ∧ corpus s' = corpus s ∧
    e = InvalidCorpus (fmt "This testcase does not trigger any edges. Check your instrumentation!" [])
  | Panic => False
  end.

(** The stage from the second run on. *)
Definition after_first (self : CalibrationStage) (total : Duration) : M (StdFuzzer T F) () :=
  filled <- gets (filled_count self) ;;
  map_first <- gets edges_now ;;
  c <- cal_loop (cal_fuel self) self map_first (mkCal (stage_max self) 1 false total []) ;;
  send_default <- on_state (note_unstable (cal_unstable c) filled) ;;
  bitmap_size <- gets (λ z, StdMap.count_bytes (ob_edges (observers z))) ;;
  on_state (update_schedule (total_time c) (cal_iter c) bitmap_size) ;;;
  on_state (send_stability (cal_unstable c) send_default filled).
Lemma perform_first self z id tc input m ps : to_calibrate self z id tc input m ps →
  perform self z = (total <- first_run input ;; after_first self total) z.
Proof.
  intros [Hcur Htc Hin Hsc _ _ _ _ _ _ _].
  unfold perform. rewrite bind_gets, Hcur. cbn [ok_or]. rewrite bind_lift. unfold bind at 1, on_state at 1, read_testcase at 1.
  rewrite (proj2 (get_tc_at _ _ _) Htc), Hsc. cbn [Nat.ltb Nat.leb].
  assert (z <| fst_state := fst_state z |> = z) as -> by by destruct z.
  assert (running z z) as Hrr by (split; [by destruct z as [? ? ? ? []]|done]).
  unfold bind at 1. by rewrite (input_ok input z id tc Hcur Htc Hin z Hrr).
Qed.
Lemma perform_panics self z id tc input m ps : to_calibrate self z id tc input m ps →
  ended input (executions (fst_state z)) = ExitOk → (time_at (S (ticks (fst_state z))) < time_at (ticks (fst_state z)))%Z →
  (perform self z).1 = Panic.
Proof.
  intros Hto Hk Hback. rewrite (perform_first _ _ _ _ _ _ _ Hto). pose proof (first_run_panics input z Hk Hback) as Hp.
  unfold bind. by destruct (first_run input z) as [[] z1].
Qed.

(** C31. The calibration of an entry that is scheduled for the first time, with the event manager accepting its events and,
    for an entry without metadata, the parent another entry of the corpus.  While the clock is not set back, it does not panic
    and always ends, after at least [stage_max] runs and at most two more than the limit: exactly [stage_max] when every
    run was clean and no entry of the map changed.  Exactly the entries of the map in which a run differed from the first, those that
    timed out apart, are taken out of the search for novelties, the counter of the covered indexes stays
    exact, the metadata of the schedulers is that of the runs, no other entry of the corpus changes, and the only error
    is a map without any hit.  When the clock is set back during a clean first run, it panics. *)
Theorem calibrate_spec self z id tc input m ps : to_calibrate self z id tc input m ps →
  (steady_clock → ∃ r z' n m' mu, perform self z = (r, z') ∧
    stage_max self ≤ n ≤ Nat.max (stage_max self) (CAL_STAGE_MAX + 1) ∧
    executions (fst_state z') = nth_exec (executions (fst_state z)) n ∧
    edges_now z' = seen input (nth_exec (executions (fst_state z)) (n - 1)) ∧
    named_maps (fst_state z') = <[cal_map_name self := m']> (named_maps (fst_state z)) ∧ map_inv m' ∧
    (∀ j, default 0%Z (history_map m' !! j) = if flaky self input z n j then 255%Z else default 0%Z (history_map m !! j)) ∧
    m_unstable (fst_state z') = Some mu ∧
    (∀ j, j ∈ unstable_entries mu ↔ flaky self input z n j = true ∧ default 0%Z (history_map m !! j) ≠ 255%Z ∨
      j ∈ unstable_entries (default UnstableEntriesMetadata_new (m_unstable (fst_state z)))) ∧
    ((∀ i, i < n → ended input (nth_exec (executions (fst_state z)) i) = ExitOk) → (∀ j, flaky self input z n j = false) →
      n = stage_max self) ∧
    calibration_result z z' id tc ps n r) ∧
  (ended input (executions (fst_state z)) = ExitOk → (time_at (S (ticks (fst_state z))) < time_at (ticks (fst_state z)))%Z →
    (perform self z).1 = Panic).
Proof.
  intros Hto. split; [|by eapply perform_panics]. intros Hclock. pose proof (perform_first _ _ _ _ _ _ _ Hto) as Ep.
  destruct Hto as [Hcur Htc Hin Hsc Hpar Hmap [Hm Hfill] Hps Htime Hw Hmax]. rewrite Ep. clear Ep. unfold after_first.
  destruct (first_run_ok input z Hclock Hw) as (d & z1 & E1 & Hr1 & Hd & Em1 & Ex1 & Ee1). unfold bind at 1. rewrite E1. clear E1.
  rewrite !bind_gets. unfold filled_count. rewrite Em1, Hmap, Ee1.
  set (c0 := mkCal (stage_max self) 1 false d []).
  assert (loop_inv self input z m 1 c0 z1) as I1.
  { split; [done|done| |done|done|unfold cal_fuel; cbn; lia|cbn; lia| |done].
    - exists m. split; [by rewrite insert_id|]. split; [done|]. intros j. unfold flaky. cbn. by rewrite andb_false_r.
    - intros j. unfold flaky. cbn. rewrite andb_false_r. split; [by intros ?%elem_of_nil|by intros []]. }
  destruct (cal_loop_ends Hclock self input z id tc m Hcur Htc Hin Hmax (cal_fuel self) 1 c0 z1) as (c & z2 & E2 & I2); [lia|done|lia|].
  unfold bind at 1. rewrite E2. clear E2. destruct I2 as [[Er2 Hw2] Ex2 (m' & Em2 & Hm' & Hh) Ee2 _ [_ Hit] Htot Hun Hcalm].
  set (n := cal_iter c) in *.
  destruct (note_ok (cal_unstable c) (num_covered_map_indexes m) (fst_state z2)) as (b & mu & E3 & Hmu).
  unfold bind at 1, on_state at 1. rewrite E3. clear E3. rewrite bind_gets. set (s3 := (fst_state z2) <| m_unstable := Some mu |>).
  set (z3 := z2 <| fst_state := s3 |>). change (observers z3) with (observers z2).
  set (bs := StdMap.count_bytes (ob_edges (observers z2))).
  assert (m_sched s3 = Some ps ∧ corpus s3 = corpus (fst_state z) ∧ corpus_id s3 = Some id ∧
    m_unstable (fst_state z2) = m_unstable (fst_state z)) as (F1 & F2 & F3 & F4).
  { unfold s3. cbn. rewrite Er2. done. }
  assert ((∀ i, i < n → ended input (nth_exec (executions (fst_state z)) i) = ExitOk) →
    (∀ j, flaky self input z n j = false) → n = stage_max self) as Hcalm'.
  { intros Hall Hfl. apply Hcalm; [intros; apply Hall; lia|]. destruct (cal_unstable c) as [|x l]; [done|].
    destruct (proj1 (Hun x) ltac:(left)) as [E _]. by rewrite Hfl in E. }
  setoid_rewrite Hun in Hmu. rewrite F4 in Hmu.
  destruct (Z.lt_ge_cases bs 1) as [Hlt|Hge].
  - unfold bind, on_state. change (fst_state z3) with s3. unfold update_schedule at 1. unfold bind, gets. rewrite F1.
    rewrite (proj2 (Z.ltb_lt _ _) Hlt). unfold throw. eexists _, _, n, m', mu. split; [done|].
    do 9 (split; [done|]). split; [done|]. split; [done|]. by split.
  - destruct (update_schedule_ok s3 id tc ps (total_time c) n bs) as (c' & tc' & E4 & Hcal & _ & Hl).
    { done. } { by rewrite F2. } { done. } { intros Es p Ep. rewrite F2. by apply Hpar. } { lia. } { done. }
    { unfold cal_fuel, CAL_STAGE_MAX in Hit. lia. }
    unfold bind at 1, on_state at 1. change (fst_state z3) with s3. rewrite E4. set (s4 := s3 <| m_sched := _ |> <| corpus := c' |>).
    destruct (stability_ok (cal_unstable c) b (num_covered_map_indexes m) s4 mu) as [ev E5]; [done|done|].
    unfold on_state. cbn [fst_state upd eta_StdFuzzer]. rewrite E5. eexists _, _, n, m', mu. split; [done|].
    do 9 (split; [done|]). split; [done|]. exists (total_time c), tc'.
    split; [done|]. split; [done|]. intros x. rewrite Hl. by rewrite F2.
Qed.
End Facts.

(** ** A concrete calibration *)

#[local] Existing Instance toy_env.
#[local] Existing Instance toy_libm.

(** A clock that ticks microseconds. *)
Definition demo_stopwatch : Stopwatch := {| time_at n := Z.min (1000 * Z.of_nat n) (2 ^ 64 - 1) |}.
Lemma demo_stopwatch_steady : steady_clock (H := demo_stopwatch).
Proof. intros i. cbn [time_at demo_stopwatch]. lia. Qed.

(** A target that reaches a second edge in every other run. *)
Definition flaky_target : Target :=
  mkTarget (λ _ n, Ok (ExitOk, if Z.even n then [0; 1; 0; 0]%Z else [0; 1; 1; 0]%Z, replicate 4 0%Z, 5%Z)) (λ _, 0%Z) true 0.
#[global] Instance flaky_target_laws : TargetLaws flaky_target.
Proof.
  split; cbn [run flaky_target map_align]; [|intros input n kind edges sancov elapsed [= _ <- _ _]|lia].
  - intros input n. by do 4 eexists.
  - destruct (Z.even n); repeat (constructor; [unfold is_u8; lia|]); constructor.
Qed.

(** The entry of the demonstration is scheduled. *)
Definition demo_scheduled : StdFuzzer WeightedScheduler BofuzzFeedback :=
  demo_fed_fuzzer <| fst_state := (fst_state demo_fed_fuzzer) <| corpus_id := Some 0 |> |>.
Definition demo_calibrating : Testcase := default (Testcase_new []) (tc_at (corpus (fst_state demo_scheduled)) 0).
Definition demo_history : MapFeedbackMetadata :=
  default MapFeedbackMetadata_default (named_maps (fst_state demo_scheduled) !! "edges"%string).
Definition demo_schedule : SchedulerMetadata := default (SchedulerMetadata_new None) (m_sched (fst_state demo_scheduled)).

Lemma demo_to_calibrate : to_calibrate (CalibrationStage_new "edges") demo_scheduled 0 demo_calibrating [Byte.x01]
  demo_history demo_schedule.
Proof.
  split.
  - vm_compute. reflexivity.
  - vm_compute. reflexivity.
  - vm_compute. reflexivity.
  - vm_compute. reflexivity.
  - assert (tc_sched demo_calibrating ≠ None) as Hs by (vm_compute; discriminate). intros E. by destruct Hs.
  - vm_compute. reflexivity.
  - split; [split|].
    + assert (history_map demo_history = [0; 1; 0; 0]%Z) as E by (vm_compute; reflexivity). unfold u8_map. rewrite E.
      repeat (constructor; [unfold is_u8; lia|]). constructor.
    + vm_compute. reflexivity.
    + vm_compute. discriminate.
  - vm_compute. reflexivity.
  - vm_compute. split; discriminate.
  - vm_compute. split; reflexivity.
  - unfold CalibrationStage_new, CAL_STAGE_START. cbn [stage_max]. lia.
Qed.

Abbreviation demo_perform := (perform (H := toy_env) (H0 := flaky_target) (H1 := toy_libm) (H2 := demo_stopwatch)).

Lemma calibrate_spec_witness : ∃ z' n, demo_perform (CalibrationStage_new "edges") demo_scheduled = (Ok (), z') ∧
  4 ≤ n ≤ 9 ∧ executions (fst_state z') = nth_exec (executions (fst_state demo_scheduled)) n.
Proof.
  destruct (calibrate_spec (H0 := flaky_target) (H2 := demo_stopwatch) demo_accepts (CalibrationStage_new "edges") demo_scheduled 0
    demo_calibrating [Byte.x01] demo_history demo_schedule demo_to_calibrate) as [Hcal _].
  destruct (Hcal demo_stopwatch_steady) as (r & z' & n & m' & mu & Hrun & Hn & Hex & _).
  assert ((demo_perform (CalibrationStage_new "edges") demo_scheduled).1 = Ok ()) as E by (vm_compute; reflexivity).
  rewrite Hrun in E. cbn [fst] in E. subst r. exists z', n. split; [exact Hrun|]. split; [exact Hn|exact Hex].
Defined.

(** Eight runs; the edge that comes and goes is marked. *)
Example demo_calibrated :
  let z' := (demo_perform (CalibrationStage_new "edges") demo_scheduled).2 in
  (executions (fst_state z') - executions (fst_state demo_scheduled))%Z = 8%Z ∧
  history_map <$> named_maps (fst_state z') !! "edges"%string = Some [0; 1; 255; 0]%Z.
Proof. split; vm_compute; reflexivity. Qed.
