(* ===== verification/Mutational.v ===== *)
(** * Mutational: [libafl/src/stages/mutational.rs] and [power.rs]

    The stages that do the fuzzing: the input of the current entry is mutated again and again, each
    result is evaluated, and the mutator learns what became of it.  [StdMutationalStage] draws the number of mutations,
    [PowerMutationalStage] takes the energy of the entry.  Both run any mutator: the class [MutatorOf] has the trait's two
    methods, [MutatorLaws] what a mutator promises; the stacked mutator and MOpt keep the promise.  At the end the loop of [Fuzzer]
    runs over the mutational stage ([campaign_covers]).

    Testcases hold their inputs (the corpus is in memory), so that nothing is loaded; the transformation
    of an input into itself is the identity. *)

From Stdlib Require Import ZArith Lia.
From S2P Require Import Prelude Float64 FloatFacts Rands Corpus Metadata State Factor WeightRefresh MapObserver MapFeedback CreditFeedback Feedbacks Mutations Tokens Havoc MOpt TestcaseScore Weighted Minimizer Fuzzer.
Import InMemoryFacts.

(** The trait [Mutator] for bytes. *)
Class MutatorOf (Mu : Type) := {
  mu_mutate : Mu → list Byte.byte → M State (Mu * (MutationResult * list Byte.byte));
  mu_post_exec : Mu → option CorpusId → M State Mu;
}.
Definition scheduled_mutator (little : bool) : MutatorOf StdScheduledMutator :=
  {| mu_mutate := scheduled_mutate little; mu_post_exec self _ := ret self |}.
Definition mopt_mutator (little : bool) : MutatorOf StdMOptMutator :=
  {| mu_mutate := mopt_mutate little; mu_post_exec self _ := mopt_post_exec self |}.

Section Mutational.
Context `{Env} `{Target} `{Manager} `{TestcaseScore} {T F : Type} `{Scheduler T} `{Feedback F} {Mu : Type} `{MutatorOf Mu}.
Abbreviation Fuzz A := (M (StdFuzzer T F) A).

(** [NopInputFilter]: every input is executed. *)
Definition nop_should_execute (input : list Byte.byte) : bool := true.
Definition evaluate_filtered (input : list Byte.byte) : Fuzz (ExecuteInputResult * option CorpusId) :=
  if nop_should_execute input then evaluate_input input else ret (ResNone, None).

Definition current_testcase_mut : M State (CorpusId * Testcase) :=
  cur <- gets corpus_id ;;
  id <- lift (ok_or cur (illegal_state "We are not currently processing a testcase" [])) ;;
  tc <- read_testcase id ;;
  ret (id, tc).

(** [for _ in 0..num] *)
Fixpoint mutate_rounds (num : nat) (input : list Byte.byte) (mutator : Mu) : Fuzz Mu :=
  match num with
  | O => ret mutator
  | S num =>
    r <- on_state (mu_mutate mutator input) ;;
    let '(mutator, (mutated, input')) := r : Mu * (MutationResult * list Byte.byte) in
    match mutated with
    | Skipped => mutate_rounds num input mutator
    | Mutated =>
      e <- evaluate_filtered input' ;;
      mutator <- on_state (mu_post_exec mutator e.2) ;;
      mutate_rounds num input mutator
    end
  end.

(** [perform_mutational] of both stages; [iterations] is the stage's. *)
Definition perform_mutational (iterations : M State nat) (mutator : Mu) : Fuzz Mu :=
  num <- on_state iterations ;;
  tc <- on_state current_testcase_mut ;;
  input <- lift (unwrap (tc_input tc.2)) ;;
  mutate_rounds num input mutator.

Definition DEFAULT_MUTATIONAL_MAX_ITERATIONS : usize := 128.
(** [StdMutationalStage] *)
Definition std_iterations (max_iterations : usize) : M State nat := n <- rand_below max_iterations ;; ret (1 + n).
Definition std_mutational (mutator : Mu) : Fuzz Mu :=
  perform_mutational (std_iterations DEFAULT_MUTATIONAL_MAX_ITERATIONS) mutator.

(** [PowerMutationalStage] with the score [score]. *)
Definition power_iterations (score : TestcaseScore) : M State nat :=
  tc <- current_testcase_mut ;;
  s <- gets (λ s, s) ;;
  r <- lift (compute (TestcaseScore := score) s tc.2) ;;
  change_testcase tc.1 (λ _, r.2) ;;;
  ret (as_usize r.1).
Definition power_mutational (score : TestcaseScore) (mutator : Mu) : Fuzz Mu :=
  perform_mutational (power_iterations score) mutator.
End Mutational.

(** ** What a mutator promises *)

(** [mu_ready n]: the mutator can go through [n] more executions; [mu_pending n]: it has mutated and waits
    for the execution. *)
Class MutatorLaws {Mu : Type} (U : MutatorOf Mu) (mu_ready mu_pending : nat → Mu → State → Prop) := {
  law_mutate : ∀ n mu l s, mu_ready (S n) mu s → mut_ok s → tokens_ok s → cmps_ok s → known_size l →
    ∃ mu' r l' s', mu_mutate mu l s = (Ok (mu', (r, l')), s') ∧ MOpt.moved s s' ∧ known_size l' ∧
      (r = Skipped → mu_ready n mu' s') ∧ mu_pending n mu' s';
  law_post : ∀ n mu oid s s', mu_pending n mu s → mut_part s s' → (found s ≤ found s' ≤ found s + 1)%Z →
    ∃ mu' s'', mu_post_exec mu oid s' = (Ok mu', s'') ∧ s'' = s' <| m_mopt := m_mopt s'' |> ∧ mu_ready n mu' s'';
  law_ready : ∀ n n' mu s s', mu_ready n mu s → n' ≤ n → m_mopt s' = m_mopt s → mu_ready n' mu s';
}.

Lemma same_mutators_nonempty ms ms' : ms ≠ [] → Forall2 same_mutator ms ms' → ms' ≠ [] ∧ length ms' = length ms.
Proof. intros Hne Hf. pose proof (Forall2_length _ _ _ Hf). split; [|done]. intros ->. by destruct ms. Qed.

(** The stacked mutator. *)
Definition scheduled_ready (_ : nat) (self : StdScheduledMutator) (s : State) : Prop :=
  ssm_mutations self ≠ [] ∧ (Z.of_nat (length (ssm_mutations self)) ≤ u64_max)%Z ∧ max_stack_pow self ≤ 63.
#[global] Instance scheduled_laws little : MutatorLaws (scheduled_mutator little) scheduled_ready scheduled_ready.
Proof.
  split.
  - intros n mu l s (Hne & Hlen & Hpow) Hok Ht Hc Hl.
    destruct (scheduled_ok little s mu l Hok Ht Hc Hl Hne Hlen Hpow) as (mu' & r & l' & s' & Hrun & Hd & Ep & Hms & _ & Hb & _).
    destruct (same_mutators_nonempty _ _ Hne Hms) as [Hne' El].
    assert (scheduled_ready n mu' s') as Hr by (unfold scheduled_ready; rewrite El, Ep; done).
    exists mu', r, l', s'. split; [done|]. split; [|split; [by eapply bounded_known|done]].
    destruct Hd as [E Hr']. split; [rewrite E; by destruct s|done].
  - intros n mu oid s s' Hr _ _. exists mu, s'. split; [done|]. split; [by destruct s'|done].
  - done.
Qed.

(** MOpt, as long as the finds can be summed exactly. *)
Definition mopt_ready (n : nat) (self : StdMOptMutator) (s : State) : Prop :=
  mm_mutations self ≠ [] ∧ mm_max_stack_pow self ≤ 63 ∧
  ∃ m, m_mopt s = Some m ∧ mopt_inv m ∧ few m (total_finds m + Z.of_nat n).
Definition mopt_pending (n : nat) (self : StdMOptMutator) (s : State) : Prop :=
  mopt_ready (S n) self s ∧ finds_before self = found s.

Lemma few_mono m m' x y : operator_num m' = operator_num m → swarm_num m' = swarm_num m → (y ≤ x)%Z → few m x → few m' y.
Proof.
  unfold few. intros -> -> Hle Hf. eapply Z.le_lt_trans; [apply Z.mul_le_mono_nonneg_l; [lia|exact Hle]|exact Hf].
Qed.

#[global] Instance mopt_laws little : MutatorLaws (mopt_mutator little) mopt_ready mopt_pending.
Proof.
  split.
  - intros n mu l s (Hne & Hpow & m & Em & I & Hf) Hok Ht Hc Hl.
    destruct (mopt_mutate_ok little s mu l m Hok Ht Hc Hl Hne Hpow Em I)
      as (mu' & r & l' & s' & m' & Hrun & Hmv & Em' & I' & (K1 & K2 & K3 & K4) & _ & Ef & Ep & Hms & _ & Hb & _).
    destruct (same_mutators_nonempty _ _ Hne Hms) as [Hne' _].
    assert (∀ k, k ≤ S n → mopt_ready k mu' s') as Hr.
    { intros k Hk. split; [done|]. split; [by rewrite Ep|]. exists m'. split; [done|]. split; [done|].
      eapply few_mono; [exact K1|exact K2| |exact Hf]. lia. }
    exists mu', r, l', s'. split; [done|]. split; [done|]. split; [by eapply bounded_known|].
    split; [intros _; apply Hr; lia|]. split; [by apply Hr|]. rewrite Ef. destruct Hmv as [-> _]. done.
  - intros n mu oid s s' [(Hne & Hpow & m & Em & I & Hf) Efb] (_ & _ & E3 & _) Hfd.
    destruct (mopt_post_ok s' mu m) as (mu' & m' & Hrun & I' & K1 & K2 & K3 & K4 & K5); [congruence|done| |].
    { eapply few_mono; [done|done| |exact Hf]. lia. }
    exists mu', (s' <| m_mopt := Some m' |>). split; [done|]. split; [done|].
    split; [by rewrite K4|]. split; [by rewrite K5|]. exists m'. split; [done|]. split; [done|].
    eapply few_mono; [exact K1|exact K2| |exact Hf]. lia.
  - intros n n' mu s s' (Hne & Hpow & m & Em & I & Hf) Hn E. split; [done|]. split; [done|]. exists m.
    split; [by rewrite E|]. split; [done|]. eapply few_mono; [done|done| |exact Hf]. lia.
Qed.

(** The cast of a float that is not larger than an integer. *)
Lemma as_usize_le x c k : fvalid x → fvalid c → is_nan x = false → is_nan c = false → fle x c = true →
  (fkey c ≤ Z.of_nat k * 2 ^ 1074 < inf_key)%Z → as_usize x ≤ k.
Proof.
  intros Vx Vc Nx Nc Hle [Hk Hinf]. rewrite (fle_key x c) in Hle by done. apply Z.leb_le in Hle.
  assert (fkey x ≤ Z.of_nat k * 2 ^ 1074)%Z as Hx by lia. clear Hle Hk Vc Nc c.
  destruct x as [|[]| |[] m e]; cbn [as_usize]; try lia; cbn [fkey fv cond_Zopp] in Hx; [lia|].
  unfold fvalid in Vx. rewrite valid_finite in Vx. destruct Vx as [(_ & He & _) _].
  assert (0 < 2 ^ 1074)%Z as Hp by (apply Z.pow_pos_nonneg; lia).
  destruct (Z.leb_spec 0 e).
  - rewrite Z.pow_add_r, Z.mul_assoc in Hx by lia. apply Z.mul_le_mono_pos_r in Hx; [|done]. lia.
  - assert (0 < 2 ^ (- e))%Z by (apply Z.pow_pos_nonneg; lia). assert (0 < 2 ^ (e + 1074))%Z by (apply Z.pow_pos_nonneg; lia).
    pose proof (Z.mul_div_le (Zpos m) (2 ^ (- e)) ltac:(lia)) as Hd.
    assert (Zpos m / 2 ^ (- e) * 2 ^ 1074 ≤ Z.of_nat k * 2 ^ 1074)%Z as Hq.
    { replace (2 ^ 1074)%Z with (2 ^ (- e) * 2 ^ (e + 1074))%Z at 1 by (rewrite <-Z.pow_add_r by lia; f_equal; lia). nia. }
    apply Z.mul_le_mono_pos_r in Hq; [lia|done].
Qed.

(** ** The stage *)

Section Facts.
Context `{Env, !EnvLaws _} `{Target, !TargetLaws _} `{Manager}.
Context `{TS : TestcaseScore} {scorable : Testcase → Prop} {cost : Testcase → f64} `{!CostLaws TS scorable cost}.
Context {T F : Type} `{B : Scheduler T} {binv : Sched T → Prop}.
Context `{!BaseLaws (scorable := scorable) (cost := cost) B binv}.
Context `{FB : Feedback F} {P : FeedbackSpec F} `{!FeedbackLaws FB P}.
Context (scorable_input : ∀ tc, is_Some (tc_input tc) → scorable tc).
Context (accepts : ∀ e, fire_result e = Ok ()) (serializes : ∀ o, ∃ b, serialize_observers o = Ok b).
Context {Mu : Type} {U : MutatorOf Mu} {mu_ready mu_pending : nat → Mu → State → Prop} `{!MutatorLaws U mu_ready mu_pending}.
Abbreviation fuzz_inv := (fuzz_inv (scorable := scorable) (binv := binv) (P := P)).
Abbreviation Fuzzer := (StdFuzzer T F).

(** The number of entries of the corpus, the disabled ones included, is that of a vector. *)
Definition space (n : nat) (s : State) : Prop := (Z.of_nat (InMemory.count_all (corpus s) + n) < u64_max)%Z.

Record stage_inv (z : Fuzzer) : Prop := {
  sg_fuzz : fuzz_inv z;
  sg_mut : mut_ok (fst_state z);
  sg_tokens : tokens_ok (fst_state z);
  sg_cmps : cmps_ok (fst_state z);
}.

Lemma get_from_all_cases (c : Corpus) id tc : InMemory.get_from_all id c = Ok tc →
  tc_at c id = Some tc ∨ tc_at c id = None ∧ InMemory.map_get id (InMemory.disabled (InMemory.storage c)) = Some tc.
Proof.
  unfold InMemory.get_from_all, tc_at. destruct (InMemory.map_get id (InMemory.enabled (InMemory.storage c))); [by intros [= ->]; left|].
  destruct (InMemory.map_get id (InMemory.disabled (InMemory.storage c))); [by intros [= ->]; right|done].
Qed.

(** Draws of the generator and the swarm are nobody else's business. *)
Lemma moved_fuzz_inv z s' : fuzz_inv z → MOpt.moved (fst_state z) s' → fuzz_inv (z <| fst_state := s' |>).
Proof.
  intros ([Hb Hm] & Hf & Hcov & Hs & Ho) [E Hr]. set (s := fst_state z) in *. set (s1 := s <| rand := rand s' |>).
  assert (bframe (scorable := scorable) (cost := cost) s s1) as Hbf.
  { do 4 (split; [done|]). intros y. cbn. by destruct (tc_at (corpus s) y). }
  assert (sched_part s1 s') as Hp by (rewrite E; done).
  destruct (law_part (feedback z) s s' Hf) as (Hf' & Hc1 & _); [rewrite E; done|].
  split; [split|split; [exact Hf'|split; [|split; [rewrite E; exact Hs|exact Ho]]]].
  - eapply base_frame; [|exact Hp]. by apply base_rand.
  - eapply sched_part_min_inv; [exact Hp|]. by eapply bframe_min_inv.
  - intros k. cbn [fst_state upd eta_StdFuzzer]. unfold tops. rewrite Hc1, <-Hcov. unfold tops. by rewrite E.
Qed.
Lemma moved_stage_inv z s' : stage_inv z → MOpt.moved (fst_state z) s' → stage_inv (z <| fst_state := s' |>).
Proof.
  intros [Hz Hok Ht Hc] Hmv. destruct (moved_ok _ _ Hmv Hok Ht Hc) as (Hok' & Ht' & Hc'). split; [|done..].
  by apply moved_fuzz_inv.
Qed.

(** The corpus after an evaluation. *)
Lemma mut_ok_kept l s s' : mut_ok s → max_size s' = max_size s → kept_inputs l s s' → known_size l → rand_inv (rand s') → cwf (corpus s') →
  InMemory.ids (corpus s) `prefix_of` InMemory.ids (corpus s') → (Z.of_nat (InMemory.count_all (corpus s')) ≤ u64_max)%Z → mut_ok s'.
Proof.
  intros [R Mx C Ne Cn Hin] Em [D K] Hl Hr C' Hpre Hcnt. split; [done|by rewrite Em|done| |done|].
  - pose proof (prefix_length _ _ Hpre) as Hle. rewrite <-!count_ids in Hle by done. unfold InMemory.count_all, InMemory.count_disabled in *. rewrite D. lia.
  - intros id tc Hg. apply get_from_all_cases in Hg as [Hg|[Hno Hg]].
    + destruct (K id tc Hg) as [(t & Ht & ->)| ->]; [|by exists l].
      apply (Hin id t). unfold InMemory.get_from_all. unfold tc_at in Ht. by rewrite Ht.
    + rewrite D in Hg. destruct (tc_at (corpus s) id) as [t|] eqn:Ht.
      * assert (is_Some (tc_at (corpus s') id)) as [? ?]; [|congruence].
        apply tc_at_ids; [done|]. eapply elem_of_prefix; [|exact Hpre]. apply tc_at_ids; [done|]. by eexists.
      * apply (Hin id tc). unfold InMemory.get_from_all. unfold tc_at in Ht. rewrite Ht. by rewrite Hg.
Qed.

(** What the rounds of a stage leave: both corpora have only grown, and no coverage is lost. *)
Definition progressed (n : nat) (z z' : Fuzzer) : Prop :=
  corpus_id (fst_state z') = corpus_id (fst_state z) ∧
  InMemory.ids (corpus (fst_state z)) `prefix_of` InMemory.ids (corpus (fst_state z')) ∧
  InMemory.ids (solutions (fst_state z)) `prefix_of` InMemory.ids (solutions (fst_state z')) ∧
  InMemory.count_all (corpus (fst_state z')) ≤ InMemory.count_all (corpus (fst_state z)) + n ∧
  ∀ k, fs_cover P (fst_state z) k → fs_cover P (fst_state z') k.

Lemma progressed_trans a b z1 z2 z3 : progressed a z1 z2 → progressed b z2 z3 → progressed (a + b) z1 z3.
Proof.
  intros (C1 & P1 & S1 & N1 & K1) (C2 & P2 & S2 & N2 & K2). split_and!; [congruence|by etrans|by etrans|lia|auto].
Qed.
Lemma progressed_weaken a b z z' : progressed a z z' → a ≤ b → progressed b z z'.
Proof. intros (C1 & P1 & S1 & N1 & K1) Hle. split_and!; [done..|lia|done]. Qed.

(** Only the generator or the swarm moves. *)
Lemma progressed_moved z s' : stage_inv z → MOpt.moved (fst_state z) s' → progressed 0 z (z <| fst_state := s' |>).
Proof.
  intros [Hz _ _ _] [E _]. destruct Hz as (_ & Hf & _).
  destruct (law_part (feedback z) (fst_state z) s' Hf) as (_ & Hc & _); [rewrite E; done|].
  unfold progressed. cbn [fst_state upd eta_StdFuzzer].
  assert (corpus s' = corpus (fst_state z) ∧ solutions s' = solutions (fst_state z) ∧ corpus_id s' = corpus_id (fst_state z))
    as (-> & -> & ->) by (rewrite E; done).
  split_and!; [done..|lia|]. intros k. by rewrite Hc.
Qed.

Lemma space_mono n m s s' : space n s → InMemory.count_all (corpus s') + m ≤ InMemory.count_all (corpus s) + n → space m s'.
Proof. unfold space. lia. Qed.

Lemma evaluate_stage l z : stage_inv z → space 1 (fst_state z) → known_size l →
  ∃ e z', evaluate_filtered l z = (Ok e, z') ∧ stage_inv z' ∧ mut_part (fst_state z) (fst_state z') ∧ progressed 1 z z' ∧
    (found (fst_state z) ≤ found (fst_state z') ≤ found (fst_state z) + 1)%Z.
Proof.
  intros [Hz Hok Ht Hc] Hsp Hl.
  destruct (evaluate_ok scorable_input accepts serializes l true z Hz) as (kind & ed & sv & el & res & oid & z' & _ & Hrun & Hz' & _ & _ & Hj & Hg).
  { unfold space, InMemory.count_all in Hsp. lia. }
  pose proof Hz' as ([Hb' (C' & _)] & _ & _ & Cs' & _). pose proof Hz as ([_ (C & _)] & _ & _ & Cs & _). cbn in C, C', Cs, Cs'.
  assert (InMemory.ids (corpus (fst_state z)) `prefix_of` InMemory.ids (corpus (fst_state z')) ∧
    InMemory.ids (solutions (fst_state z)) `prefix_of` InMemory.ids (solutions (fst_state z')) ∧
    length (InMemory.ids (corpus (fst_state z'))) + length (InMemory.ids (solutions (fst_state z'))) ≤
      S (length (InMemory.ids (corpus (fst_state z))) + length (InMemory.ids (solutions (fst_state z)))) ∧
    ∀ k, fs_cover P (fst_state z) k → fs_cover P (fst_state z') k) as (P1 & P2 & Hlen & Hcov).
  { unfold judged in Hj. cbv zeta in Hj. destruct res.
    - destruct Hj as (_ & _ & _ & -> & -> & Hk). split_and!; [done|done|lia|]. intros k. by rewrite Hk.
    - destruct Hj as (_ & _ & _ & -> & Hk & id & tc & _ & -> & _). rewrite length_app. cbn.
      split_and!; [by eexists|done|lia|]. intros k ?. rewrite Hk. by left.
    - destruct Hj as (_ & _ & -> & Hk & id & tc & -> & _). rewrite length_app. cbn. split_and!; [done|by eexists|lia|].
      intros k. by rewrite Hk. }
  pose proof (prefix_length _ _ P1) as L1. pose proof (prefix_length _ _ P2) as L2.
  rewrite <-(count_ids _ C), <-(count_ids _ C'), <-(count_ids _ Cs), <-(count_ids _ Cs') in Hlen.
  rewrite <-(count_ids _ C), <-(count_ids _ C') in L1. rewrite <-(count_ids _ Cs), <-(count_ids _ Cs') in L2.
  assert (InMemory.count_disabled (corpus (fst_state z')) = InMemory.count_disabled (corpus (fst_state z))) as Ed.
  { unfold InMemory.count_disabled. by rewrite (proj1 (proj2 Hg)). }
  unfold space, InMemory.count_all in Hsp.
  assert (mut_ok (fst_state z')) as Hok'.
  { eapply mut_ok_kept; [exact Hok|apply Hg|apply Hg|done|by apply (base_rand_inv _ Hb')|done|done|].
    unfold InMemory.count_all. rewrite Ed. lia. }
  pose proof (proj1 Hg) as Hm. destruct Hm as (M1 & M2 & M3 & M4 & M5 & M6).
  exists (res, oid), z'. split; [exact Hrun|]. split; [split; [done|done|unfold tokens_ok; by rewrite M1|unfold cmps_ok; by rewrite M2]|].
  split; [by split_and!|]. split; [|unfold found; lia].
  unfold progressed, InMemory.count_all. rewrite Ed. split_and!; [done..|lia|done].
Qed.

Lemma on_state_ok {A} (m : M State A) (z : Fuzzer) r s' : m (fst_state z) = (r, s') → on_state m z = (r, z <| fst_state := s' |>).
Proof. intros E. unfold on_state. by rewrite E. Qed.

(** What [n] rounds are, said without the loop: every round mutates the input of the entry itself; a mutation that is
    skipped is all there is to its round, any other is evaluated, [x] in all, and its outcome reported to the mutator. *)
Inductive rounds (input : list Byte.byte) : nat → nat → Mu → Fuzzer → Mu → Fuzzer → Prop :=
| rounds_done mu z : rounds input 0 0 mu z mu z
| rounds_skipped n x mu z mu1 l s1 mu' z' :
    mu_mutate mu input (fst_state z) = (Ok (mu1, (Skipped, l)), s1) →
    rounds input n x mu1 (z <| fst_state := s1 |>) mu' z' → rounds input (S n) x mu z mu' z'
| rounds_evaluated n x mu z mu1 l s1 e z2 mu2 s3 mu' z' :
    mu_mutate mu input (fst_state z) = (Ok (mu1, (Mutated, l)), s1) →
    evaluate_input l (z <| fst_state := s1 |>) = (Ok e, z2) →
    mu_post_exec mu1 e.2 (fst_state z2) = (Ok mu2, s3) →
    rounds input n x mu2 (z2 <| fst_state := s3 |>) mu' z' → rounds input (S n) (S x) mu z mu' z'.

Lemma rounds_ok num k input : known_size input → ∀ mu z, stage_inv z → space num (fst_state z) → mu_ready (num + k) mu (fst_state z) →
  ∃ x mu' z', mutate_rounds num input mu z = (Ok mu', z') ∧ rounds input num x mu z mu' z' ∧ x ≤ num ∧
    stage_inv z' ∧ progressed x z z' ∧ mu_ready k mu' (fst_state z').
Proof.
  intros Hl. induction num as [|num IH]; intros mu z Hz Hsp Hr.
  { exists 0, mu, z. split; [done|]. split; [constructor|]. split; [done|]. split; [done|]. split; [|done]. split_and!; [done..|lia|done]. }
  destruct Hz as [Hzf Hok Ht Hc] eqn:Ez. clear Ez.
  destruct (law_mutate (num + k) mu input (fst_state z) Hr Hok Ht Hc Hl) as (mu1 & r & l' & s1 & Hrun & Hmv & Hl' & Hskip & Hpend).
  pose proof (moved_stage_inv z s1 Hz Hmv) as Hz1. pose proof (progressed_moved z s1 Hz Hmv) as Hp1.
  cbn [mutate_rounds]. unfold bind at 1. rewrite (on_state_ok _ _ _ _ Hrun).
  assert (space (S num) s1) as Hsp1 by (eapply space_mono; [exact Hsp|destruct Hp1 as (_ & _ & _ & Hn & _); cbn in Hn; lia]).
  destruct r.
  2: { destruct (IH mu1 (z <| fst_state := s1 |>) Hz1) as (x & mu' & z' & Hrun' & Hrs & Hx & Hz' & Hp' & Hr'); [unfold space in *; cbn; lia|by apply Hskip|].
       exists x, mu', z'. split; [exact Hrun'|]. split; [by eapply rounds_skipped|]. split; [lia|]. split; [done|]. split; [|done].
       by apply (progressed_trans 0 x _ (z <| fst_state := s1 |>)). }
  destruct (evaluate_stage l' (z <| fst_state := s1 |>) Hz1) as (e & z2 & Hev & Hz2 & Hm2 & Hp2 & Hfd); [unfold space in *; cbn; lia|done|].
  unfold bind at 1. rewrite Hev.
  destruct (law_post (num + k) mu1 e.2 s1 (fst_state z2) Hpend Hm2 Hfd) as (mu2 & s3 & Hpost & E3 & Hr3).
  assert (MOpt.moved (fst_state z2) s3) as Hmv3.
  { split; [rewrite E3; by destruct (fst_state z2)|]. rewrite E3. apply Hz2. }
  pose proof (moved_stage_inv z2 s3 Hz2 Hmv3) as Hz3. pose proof (progressed_moved z2 s3 Hz2 Hmv3) as Hp3.
  unfold bind at 1. rewrite (on_state_ok _ _ _ _ Hpost).
  pose proof (progressed_trans _ _ _ _ _ (progressed_trans _ _ _ _ _ Hp1 Hp2) Hp3) as Hp.
  destruct (IH mu2 (z2 <| fst_state := s3 |>) Hz3) as (x & mu' & z' & Hrun' & Hrs & Hx & Hz' & Hp' & Hr'); [|done|].
  { eapply space_mono; [exact Hsp|]. destruct Hp as (_ & _ & _ & Hn & _). lia. }
  exists (S x), mu', z'. split; [exact Hrun'|]. split; [by eapply rounds_evaluated|]. split; [lia|]. split; [done|]. split; [|done].
  apply (progressed_weaken (0 + 1 + 0 + x)); [by eapply progressed_trans|lia].
Qed.

(** Both stages, once the number of mutations is known. *)
Lemma mutational_ok iterations num k s1 mu z id tc : stage_inv z → corpus_id (fst_state z) = Some id →
  tc_at (corpus (fst_state z)) id = Some tc → iterations (fst_state z) = (Ok num, s1) → MOpt.moved (fst_state z) s1 →
  m_mopt s1 = m_mopt (fst_state z) → space num (fst_state z) → mu_ready (num + k) mu (fst_state z) →
  ∃ input x mu' z', tc_input tc = Some input ∧ perform_mutational iterations mu z = (Ok mu', z') ∧
    rounds input num x mu (z <| fst_state := s1 |>) mu' z' ∧ x ≤ num ∧
    stage_inv z' ∧ progressed x z z' ∧ mu_ready k mu' (fst_state z').
Proof.
  intros Hz Hcur Htc Hit Hmv Hmo Hsp Hr.
  pose proof (moved_stage_inv z s1 Hz Hmv) as Hz1. pose proof (progressed_moved z s1 Hz Hmv) as Hp1.
  destruct (mok_inputs _ (sg_mut _ Hz) id tc) as (input & Ein & Hl).
  { unfold InMemory.get_from_all. unfold tc_at in Htc. by rewrite Htc. }
  unfold perform_mutational. unfold bind at 1. rewrite (on_state_ok _ _ _ _ Hit). set (z1 := z <| fst_state := s1 |>) in *.
  assert (corpus_id s1 = Some id ∧ corpus s1 = corpus (fst_state z)) as [E1 E2] by (destruct Hmv as [-> _]; done).
  assert (current_testcase_mut s1 = (Ok (id, tc), s1)) as Ecur.
  { unfold current_testcase_mut, bind, gets, lift, read_testcase, ret. rewrite E1. cbn [ok_or].
    by rewrite E2, (proj2 (get_tc_at _ _ _) Htc). }
  unfold bind at 1. rewrite (on_state_ok current_testcase_mut z1 _ _ Ecur). cbn [snd]. rewrite Ein. cbn [unwrap]. rewrite bind_lift.
  change (z1 <| fst_state := s1 |>) with z1.
  destruct (rounds_ok num k input Hl mu z1 Hz1) as (x & mu' & z' & Hrun & Hrs & Hx & Hz' & Hp' & Hr').
  { unfold space. cbn. by rewrite E2. } { by eapply law_ready. }
  exists input, x, mu', z'. split; [done|]. split; [done|]. split; [done|]. split; [done|]. split; [done|]. split; [|done].
  by apply (progressed_trans 0 x z z1 z').
Qed.

(** [HAVOC_MAX_MULT * 100] *)
Definition max_power : nat := Z.to_nat 6400.

Lemma set_current_inv z cur m : fuzz_inv z →
  fuzz_inv (z <| fst_state := (fst_state z) <| corpus_id := cur |> <| m_mopt := m |> |>).
Proof.
  intros Hz. apply (fuzz_inv_frame z ((fst_state z) <| corpus_id := cur |> <| m_mopt := m |>) (observers z)) in Hz;
    [by destruct z|done|done|apply Hz|apply Hz].
Qed.

(** A fuzzer whose corpus is one entry, without a dictionary. *)
Lemma one_entry_inv z cur m tc l : fuzz_inv z → InMemory.ids (corpus (fst_state z)) = [0] →
  InMemory.disabled (InMemory.storage (corpus (fst_state z))) = InMemory.map_new → tc_at (corpus (fst_state z)) 0 = Some tc →
  tc_input tc = Some l → known_size l → (0 ≤ max_size (fst_state z) ≤ isize_max)%Z → m_tokens (fst_state z) = None →
  m_cmps (fst_state z) = None → stage_inv (z <| fst_state := (fst_state z) <| corpus_id := cur |> <| m_mopt := m |> |>).
Proof.
  intros Hz Ei Ed Htc Hin Hl Hmax Et Ec. pose proof Hz as ([Hb (C & _)] & _). cbn [sched_of sst] in C.
  assert (InMemory.count_all (corpus (fst_state z)) = 1) as En.
  { unfold InMemory.count_all, InMemory.count_disabled. by rewrite (count_ids _ C), Ei, Ed. }
  split; [by apply set_current_inv| |by intros t; cbn; rewrite Et|by intros t; cbn; rewrite Ec].
  split; cbn; [by apply (base_rand_inv _ Hb)|done|done|by rewrite En|by rewrite En|].
  intros id t Hg. apply get_from_all_cases in Hg as [Hg|[_ Hg]]; [|by rewrite Ed in Hg].
  assert (id ∈ [0]) as Hid%list_elem_of_singleton; [rewrite <-Ei; apply tc_at_ids; [done|by eexists]|]. subst id.
  rewrite Htc in Hg. injection Hg as <-. by exists l.
Qed.

(** ** The theorems *)

Lemma std_mutational_ok k mu z id tc : stage_inv z → corpus_id (fst_state z) = Some id →
  tc_at (corpus (fst_state z)) id = Some tc → space 128 (fst_state z) → mu_ready (128 + k) mu (fst_state z) →
  ∃ input num s1 x mu' z', tc_input tc = Some input ∧ std_iterations 128 (fst_state z) = (Ok num, s1) ∧ 1 ≤ num ≤ 128 ∧
    std_mutational mu z = (Ok mu', z') ∧ rounds input num x mu (z <| fst_state := s1 |>) mu' z' ∧ x ≤ num ∧
    stage_inv z' ∧ progressed x z z' ∧ mu_ready k mu' (fst_state z').
Proof.
  intros Hz Hcur Htc Hsp Hr. pose proof (mok_rand _ (sg_mut _ Hz)) as Hrand.
  destruct (draws_below (fst_state z) 128 ltac:(lia) ltac:(done) (fst_state z) (drawn_refl _ Hrand)) as (j & s1 & Hrun & [E Hr1] & Hj).
  assert (std_iterations 128 (fst_state z) = (Ok (1 + j), s1)) as Hit by (unfold std_iterations, bind; by rewrite Hrun).
  destruct (mutational_ok (std_iterations 128) (1 + j) k s1 mu z id tc Hz Hcur Htc Hit) as (input & x & mu' & z' & Hin & Hp & Hrs & Hx & Hz' & Hpr & Hr').
  - split; [rewrite E; by destruct (fst_state z)|done].
  - by rewrite E.
  - unfold space in *. lia.
  - eapply law_ready; [exact Hr|lia|done].
  - exists input, (1 + j), s1, x, mu', z'. split; [done|]. split; [done|]. split; [lia|]. done.
Qed.

(** The mutational stage with any mutator that keeps its promise, on a state whose dictionary has no empty token and whose
    log of comparisons has operands of equal length, with a target and an event manager that do not fail: it
    draws a number between 1 and 128 and runs exactly as many rounds on the input of the current entry, none of which fails;
    afterwards schedulers, feedback, corpus and mutator are in order, both corpora have only grown, by no more than was
    evaluated, and no coverage is lost. *)
Theorem std_mutational_safe mu z id tc : stage_inv z → corpus_id (fst_state z) = Some id →
  tc_at (corpus (fst_state z)) id = Some tc → space 128 (fst_state z) → mu_ready 128 mu (fst_state z) →
  ∃ input num s1 x mu' z', tc_input tc = Some input ∧ std_iterations 128 (fst_state z) = (Ok num, s1) ∧ 1 ≤ num ≤ 128 ∧
    std_mutational mu z = (Ok mu', z') ∧ rounds input num x mu (z <| fst_state := s1 |>) mu' z' ∧ x ≤ num ∧
    stage_inv z' ∧ progressed x z z' ∧ mu_ready 0 mu' (fst_state z').
Proof. apply (std_mutational_ok 0). Qed.

(** C27. The power stage: without BOFuzz's multiplier the energy of an entry is at most 6400, and exactly as many rounds
    as it says are run on the entry's input: each mutates it, evaluates the result unless the mutation was skipped, and tells
    the mutator.  None fails, for any mutator that keeps its promise, on a state whose dictionary has no empty token and whose
    log of comparisons has operands of equal length, with a target and an event manager that do not fail; schedulers,
    feedback, corpus and mutator stay in order, both corpora only grow, by no more than was evaluated, and no coverage
    is lost. *)
Theorem power_mutational_safe `{Libm} mu z id tc ps x tc' : stage_inv z → corpus_id (fst_state z) = Some id →
  tc_at (corpus (fst_state z)) id = Some tc → corpus_power (fst_state z) tc = Ok (x, tc') →
  m_sched (fst_state z) = Some ps → n_fuzz_ok ps →
  get_feat_mode_from_state (fst_state z) ≠ 2 → get_feat_mode_from_state (fst_state z) ≠ 3 →
  space max_power (fst_state z) → mu_ready max_power mu (fst_state z) →
  ∃ input n mu' z', tc_input tc = Some input ∧ as_usize x ≤ max_power ∧
    power_mutational CorpusPowerTestcaseScore mu z = (Ok mu', z') ∧ rounds input (as_usize x) n mu z mu' z' ∧ n ≤ as_usize x ∧
    stage_inv z' ∧ progressed n z z' ∧ mu_ready 0 mu' (fst_state z').
Proof.
  intros Hz Hcur Htc Hx Hps Hn Hm2 Hm3 Hsp Hr.
  destruct (power_bounds_ok (fst_state z) ps tc x tc' Hx Hps Hn Hm2 Hm3) as (-> & [Vx Sx] & Hle & _).
  assert (as_usize x ≤ max_power) as Hb.
  { apply (as_usize_le x power_max); [done|by vm_compute|by destruct x|done|done|]. split; [vm_compute; discriminate|by vm_compute]. }
  assert (MOpt.moved (fst_state z) (fst_state z)) as Hmv by (apply moved_refl, (sg_mut _ Hz)).
  destruct (mutational_ok (power_iterations CorpusPowerTestcaseScore) (as_usize x) 0 (fst_state z) mu z id tc Hz Hcur Htc)
    as (input & n & mu' & z' & Hin & Hp & Hrs & Hx' & Hz' & Hpr & Hr').
  - unfold power_iterations, current_testcase_mut, bind, gets, lift, read_testcase, ret. rewrite Hcur. cbn [ok_or].
    rewrite (proj2 (get_tc_at _ _ _) Htc). cbn [fst snd]. unfold compute, CorpusPowerTestcaseScore. rewrite Hx. cbn [fst snd].
    by rewrite change_same.
  - done.
  - done.
  - unfold space in *. lia.
  - eapply law_ready; [exact Hr|lia|done].
  - exists input, n, mu', z'. do 3 (split; [done|]). split; [by destruct z|done].
Qed.

(** ** The loop over the stage *)

(** The mutational stage can be run [n] more times. *)
Definition mutational_ready (n : nat) (mu : Mu) (z : Fuzzer) : Prop :=
  mut_ok (fst_state z) ∧ tokens_ok (fst_state z) ∧ cmps_ok (fst_state z) ∧
  space (128 * n) (fst_state z) ∧ mu_ready (128 * n) mu (fst_state z).

Lemma progressed_richer n z z' : progressed n z z' → richer (P := P) z z'.
Proof. intros (_ & P1 & P2 & _ & Hk). done. Qed.

(** What the loop does between the runs of the stage is no matter for the mutators. *)
Lemma mut_ok_undisturbed (z z' : Fuzzer) : mut_ok (fst_state z) → fuzz_inv z' → undisturbed (fst_state z) (fst_state z') →
  mut_ok (fst_state z') ∧ InMemory.count_all (corpus (fst_state z')) = InMemory.count_all (corpus (fst_state z)).
Proof.
  intros Hok ([Hb' (C' & _)] & _) (_ & _ & _ & Em & Hids & [D K]). cbn [sched_of sst] in C'.
  assert (InMemory.count_all (corpus (fst_state z')) = InMemory.count_all (corpus (fst_state z))) as En.
  { unfold InMemory.count_all, InMemory.count_disabled. rewrite D, (count_ids _ C'), (count_ids _ (mok_corpus _ Hok)). by rewrite Hids. }
  split; [|done]. apply (mut_ok_kept [] (fst_state z)); [done|done| |done|by apply (base_rand_inv _ Hb')|done|by rewrite Hids|].
  - split; [done|]. intros x t' Ht'. left. by apply K.
  - rewrite En. apply (mok_count _ Hok).
Qed.

Lemma mutational_stages_ok : stages_ok (scorable := scorable) (binv := binv) (P := P) mutational_ready std_mutational.
Proof.
  split.
  - intros n mu z id (Hok & Ht & Hc & Hsp & Hr) Hz Hcur Hid.
    apply tc_at_ids in Hid as [tc Htc]; [|apply (mok_corpus _ Hok)].
    destruct (std_mutational_ok (128 * n) mu z id tc) as (input & num & s1 & x & mu' & z' & _ & _ & Hn & Hrun & _ & Hx & Hz' & Hp & Hr');
      [by split|done|done|unfold space in *; lia|by replace (128 + 128 * n) with (128 * S n) by lia|].
    exists mu', z'. split; [done|]. split; [apply Hz'|]. split; [|by eapply progressed_richer].
    split_and!; [apply Hz'..| |done]. eapply space_mono; [exact Hsp|]. destruct Hp as (_ & _ & _ & Hcount & _). lia.
  - intros n mu z z' (Hok & Ht & Hc & Hsp & Hr) Hz' Hu. destruct (mut_ok_undisturbed z z' Hok Hz' Hu) as [Hok' En].
    destruct Hu as (M1 & M2 & M3 & _). split; [done|]. split; [unfold tokens_ok; by rewrite M1|]. split; [unfold cmps_ok; by rewrite M2|].
    split; [unfold space in *; by rewrite En|]. by eapply law_ready.
Qed.

Context (processes : ∀ s, process_events s = Ok ()) (shuts_down : ∀ s, on_shutdown s = Ok ()).
Context (reports : ∀ s, maybe_report_progress s = Ok ()) (reports_last : ∀ s, report_progress s = Ok ()).

(** C12. The fuzzing loop with the mutational stage, for any mutator and base scheduler that keep their promises, a
    dictionary without empty tokens, a log of operands of equal length, and a target and an event manager that do not fail:
    [iters] rounds run one after the other, each of them on an entry of the corpus, the one the loop is
    resumed on or the scheduler's pick, at which every index of the map covered so far is reached by a favoured entry;
    the loop ends early only when the scheduler's search gives up on an entry that is not favoured or a stop was
    requested.  Nothing else fails; corpus and solutions only grow, no coverage is lost, and schedulers and feedback stay in step. *)
Theorem campaign_covers fuel iters mu z : iters ≠ 0 → fuzz_inv z → mutational_ready iters mu z →
  InMemory.ids (corpus (fst_state z)) ≠ [] → on_entry z →
  ∃ r z', fuzz_loop_for fuel std_mutational iters mu z = (r, z') ∧ fuzz_inv z' ∧
    richer (P := P) z z' ∧ loop_result (P := P) std_mutational fuel iters mu z z' r.
Proof. by apply (fuzz_loop_ok processes shuts_down reports reports_last mutational_ready), mutational_stages_ok. Qed.
End Facts.

(** ** A concrete stage *)

#[local] Existing Instance toy_env.
#[local] Existing Instance toy_libm.

(** The fuzzer after its first input, which is the current entry; with a swarm [m]. *)
Definition demo_stage (m : option MOpt) : DemoFuzzer :=
  demo_fed_fuzzer <| fst_state := (fst_state demo_fed_fuzzer) <| corpus_id := Some 0 |> <| m_mopt := m |> |>.
Definition demo_tc : Testcase := default (Testcase_new []) (tc_at (corpus (fst_state demo_fed_fuzzer)) 0).
Abbreviation demo_stage_inv := (stage_inv (scorable := length_known)
  (binv := weighted_inv) (P := bofuzz_spec (H := toy_env))).

Lemma demo_entry_at m : tc_at (corpus (fst_state (demo_stage m))) 0 = Some demo_tc.
Proof. vm_compute. reflexivity. Qed.

Lemma demo_stage_ok m : demo_stage_inv (demo_stage m).
Proof.
  refine (one_entry_inv (BaseLaws0 := demo_base_laws) (cost := len_time_cost) (FeedbackLaws0 := bofuzz_laws demo_accepts)
    demo_fed_fuzzer (Some 0) m demo_tc [Byte.x01] demo_fed_inv _ _ _ _ _ _ _ _).
  1-3,4,7,8: vm_compute; reflexivity.
  - by vm_compute.
  - vm_compute. split; discriminate.
Qed.

Lemma std_mutational_safe_witness : ∃ num mu' z',
  std_mutational (H := toy_env) (H0 := demo_target) (H1 := demo_manager) (H2 := LenTimeMulTestcaseScore) (H3 := demo_base)
    (H4 := EagerOrFeedback) (H5 := scheduled_mutator true) (StdScheduledMutator_new bofuzz_mutations) (demo_stage None) = (Ok mu', z') ∧
  1 ≤ num ≤ 128 ∧ demo_stage_inv z'.
Proof.
  destruct (std_mutational_safe (TS := LenTimeMulTestcaseScore) (cost := len_time_cost) (BaseLaws0 := demo_base_laws)
    (FeedbackLaws0 := bofuzz_laws demo_accepts) (H0 := demo_target) (H1 := demo_manager) (MutatorLaws0 := scheduled_laws true)
    demo_scorable demo_accepts demo_serializes (StdScheduledMutator_new bofuzz_mutations) (demo_stage None) 0 demo_tc (demo_stage_ok None))
    as (input & num & s1 & x & mu' & z' & _ & _ & Hn & Hrun & _ & _ & Hz' & _).
  - reflexivity.
  - apply demo_entry_at.
  - vm_compute. reflexivity.
  - split; [discriminate|]. split; [vm_compute; discriminate|]. cbn. lia.
  - exists num, mu', z'. split; [exact Hrun|]. split; [exact Hn|exact Hz'].
Defined.

Lemma power_mutational_safe_witness : ∃ m mu' z',
  power_mutational (H := toy_env) (H0 := demo_target) (H1 := demo_manager) (H2 := LenTimeMulTestcaseScore) (H3 := demo_base)
    (H4 := EagerOrFeedback) (H5 := mopt_mutator true) CorpusPowerTestcaseScore
    (mkMOptMutator Pilotfuzzing 0 bofuzz_mutations 7) (demo_stage (Some m)) = (Ok mu', z') ∧ demo_stage_inv z'.
Proof.
  destruct demo_swarm as (m & (_ & I & E1) & E2 & E3). exists m.
  assert (∃ x tc', corpus_power (fst_state (demo_stage (Some m))) demo_tc = Ok (x, tc')) as (x & tc' & Hx) by (vm_compute; eauto).
  destruct (power_mutational_safe (TS := LenTimeMulTestcaseScore) (cost := len_time_cost) (BaseLaws0 := demo_base_laws)
    (FeedbackLaws0 := bofuzz_laws demo_accepts) (H0 := demo_target) (H1 := demo_manager) (MutatorLaws0 := mopt_laws true)
    demo_scorable demo_accepts demo_serializes (mkMOptMutator Pilotfuzzing 0 bofuzz_mutations 7) (demo_stage (Some m)) 0 demo_tc
    (default (SchedulerMetadata_new None) (m_sched (fst_state demo_fed_fuzzer))) x tc' (demo_stage_ok (Some m)))
    as (input & n & mu' & z' & _ & _ & Hrun & _ & _ & Hz' & _).
  - reflexivity.
  - apply demo_entry_at.
  - exact Hx.
  - vm_compute. reflexivity.
  - intros i h Hi. vm_compute in Hi. destruct i; [injection Hi as <-; lia|discriminate].
  - vm_compute. discriminate.
  - vm_compute. discriminate.
  - vm_compute. reflexivity.
  - split; [discriminate|]. split; [cbn; lia|]. exists m. split; [reflexivity|]. split; [exact I|].
    unfold few. rewrite E1, E2, E3. vm_compute. reflexivity.
  - exists mu', z'. split; [exact Hrun|exact Hz'].
Defined.

(** The fuzzer before a round. *)
Definition demo_idle : DemoFuzzer :=
  demo_fed_fuzzer <| fst_state := (fst_state demo_fed_fuzzer) <| corpus_id := None |> <| m_mopt := None |> |>.
Abbreviation demo_mutational := (std_mutational (H := toy_env) (H0 := demo_target) (H1 := demo_manager)
  (H2 := LenTimeMulTestcaseScore) (H3 := demo_base) (H4 := EagerOrFeedback) (H5 := scheduled_mutator true)).

Lemma demo_idle_ok : demo_stage_inv demo_idle.
Proof.
  refine (one_entry_inv (BaseLaws0 := demo_base_laws) (cost := len_time_cost) (FeedbackLaws0 := bofuzz_laws demo_accepts)
    demo_fed_fuzzer None None demo_tc [Byte.x01] demo_fed_inv _ _ _ _ _ _ _ _).
  1-3,4,7,8: vm_compute; reflexivity.
  - by vm_compute.
  - vm_compute. split; discriminate.
Qed.

(** Three rounds with the stacked mutator. *)
Lemma campaign_covers_witness : ∃ r z',
  fuzz_loop_for (H := toy_env) (H1 := demo_manager) (H3 := demo_base) 5 demo_mutational 3 (StdScheduledMutator_new bofuzz_mutations) demo_idle = (r, z') ∧
  loop_result (H1 := demo_manager) (B := demo_base) (P := bofuzz_spec (H := toy_env)) demo_mutational 5 3 (StdScheduledMutator_new bofuzz_mutations) demo_idle z' r ∧
  fs_cover (bofuzz_spec (H := toy_env)) (fst_state z') 1.
Proof.
  destruct (campaign_covers (TS := LenTimeMulTestcaseScore) (cost := len_time_cost) (BaseLaws0 := demo_base_laws)
    (FeedbackLaws0 := bofuzz_laws demo_accepts) (H0 := demo_target) (H1 := demo_manager) (MutatorLaws0 := scheduled_laws true)
    demo_scorable demo_accepts demo_serializes (λ _, eq_refl) (λ _, eq_refl) (λ _, eq_refl) (λ _, eq_refl)
    5 3 (StdScheduledMutator_new bofuzz_mutations) demo_idle)
    as (r & z' & Hrun & _ & (_ & _ & Hk) & Hr).
  - discriminate.
  - apply demo_idle_ok.
  - split; [apply demo_idle_ok|]. split; [apply demo_idle_ok|]. split; [apply demo_idle_ok|]. split; [vm_compute; reflexivity|].
    split; [discriminate|]. split; [vm_compute; discriminate|]. cbn. lia.
  - assert (InMemory.ids (corpus (fst_state demo_idle)) = [0]) as -> by (vm_compute; reflexivity). discriminate.
  - intros id E. discriminate E.
  - exists r, z'. split; [exact Hrun|]. split; [exact Hr|]. apply Hk. vm_compute. done.
Defined.
