(* ===== verification/CmpLog.v ===== *)
(** * CmpLog: logged comparisons and the tracing stage

    [libafl_targets/src/cmps/mod.rs] (the map the instrumentation writes to), its observer
    [cmps/observers/cmplog.rs], the metadata of [libafl/src/observers/cmp.rs], and
    [libafl/src/stages/tracing.rs], which runs the current entry once more to fill the log.

    The log is what the mutator [I2SRandReplace] works on: it relies on operands of
    equal length, and the stage provides them ([traced_mutational_safe]). *)

From Stdlib Require Import ZArith Lia.
From S2P Require Import Prelude Float64 FloatFacts Rands Corpus Metadata State Factor WeightRefresh MapObserver MapFeedback CreditFeedback Feedbacks Mutations Tokens Havoc MOpt TestcaseScore Weighted Minimizer Fuzzer Calibrate Mutational.
Import InMemoryFacts.

(** ** The map

    Width and height are constants the build script generates. *)
Class CmpLogSizes := { CMPLOG_MAP_W : usize; CMPLOG_MAP_H : usize }.

Definition CMPLOG_RTN_LEN : usize := 32.
Definition CMPLOG_KIND_INS : Z := 0.
Definition CMPLOG_KIND_RTN : Z := 1.
(** [size_of] the two structs of the log: two [u64] and a [u8], padded; two arrays. *)
Definition size_of_instruction : usize := 24.
Definition size_of_routine : usize := 64.

Record CmpLogHeader := mkCmpLogHeader { hits : Z; shape : Z; kind : Z }.

(** [vals] is the memory of the union: rows of instructions and rows of routines start at the
    same address. *)
Record CmpLogMap := mkCmpLogMap { headers : list CmpLogHeader; vals : bytes }.
#[global] Instance eta_CmpLogMap : Eta CmpLogMap := λ r, mkCmpLogMap (headers r) (vals r).

Section CmpLog.
Context `{CmpLogSizes} (little : bool).

Definition CMPLOG_MAP_RTN_H : usize := CMPLOG_MAP_H * size_of_instruction / size_of_routine.

(** Indexing an array panics out of range. *)
Definition header (self : CmpLogMap) (idx : usize) : outcome Error CmpLogHeader := unwrap (headers self !! idx).

Definition executions_for (self : CmpLogMap) (idx : usize) : outcome Error usize :=
  let? h := header self idx in Ok (Z.to_nat (hits h)).

Definition usable_executions_for (self : CmpLogMap) (idx : usize) : outcome Error usize :=
  let? h := header self idx in
  let? n := executions_for self idx in
  if (kind h =? CMPLOG_KIND_INS)%Z then Ok (if n <? CMPLOG_MAP_H then n else CMPLOG_MAP_H)
  else Ok (if n <? CMPLOG_MAP_RTN_H then n else CMPLOG_MAP_RTN_H).

(** [vals.operands[idx][execution]] *)
Definition instruction (self : CmpLogMap) (idx execution : usize) : outcome Error (Z * Z * Z) :=
  if (idx <? CMPLOG_MAP_W) && (execution <? CMPLOG_MAP_H) then
    let off := (idx * CMPLOG_MAP_H + execution) * size_of_instruction in
    Ok (from_ne_bytes little (piece (vals self) off 8), from_ne_bytes little (piece (vals self) (off + 8) 8),
        from_ne_bytes little (piece (vals self) (off + 16) 1))
  else Panic.
(** [vals.routines[idx][execution]] *)
Definition routine (self : CmpLogMap) (idx execution : usize) : outcome Error (bytes * bytes) :=
  if (idx <? CMPLOG_MAP_W) && (execution <? CMPLOG_MAP_RTN_H) then
    let off := (idx * CMPLOG_MAP_RTN_H + execution) * size_of_routine in
    Ok (piece (vals self) off CMPLOG_RTN_LEN, piece (vals self) (off + CMPLOG_RTN_LEN) CMPLOG_RTN_LEN)
  else Panic.

Definition values_of (self : CmpLogMap) (idx execution : usize) : outcome Error (option CmpValues) :=
  let? h := header self idx in
  if (kind h =? CMPLOG_KIND_INS)%Z then
    if (shape h =? 1)%Z then
      let? v := instruction self idx execution in
      Ok (Some (CmpU8 (v.1.1 mod 2 ^ 8) (v.1.2 mod 2 ^ 8) (v.2 =? 1)))%Z
    else if (shape h =? 2)%Z then
      let? v := instruction self idx execution in
      Ok (Some (CmpU16 (v.1.1 mod 2 ^ 16) (v.1.2 mod 2 ^ 16) (v.2 =? 1)))%Z
    else if (shape h =? 4)%Z then
      let? v := instruction self idx execution in
      Ok (Some (CmpU32 (v.1.1 mod 2 ^ 32) (v.1.2 mod 2 ^ 32) (v.2 =? 1)))%Z
    else if (shape h =? 8)%Z then
      let? v := instruction self idx execution in
      Ok (Some (CmpU64 v.1.1 v.1.2 (v.2 =? 1)))%Z
    else Ok None
  else
    let? v := routine self idx execution in
    Ok (Some (CmpBytes (mkCmplogBytes v.1 CMPLOG_RTN_LEN) (mkCmplogBytes v.2 CMPLOG_RTN_LEN))).

(** Only the headers are reset. *)
Definition reset (self : CmpLogMap) : CmpLogMap :=
  self <| headers := replicate (length (headers self)) (mkCmpLogHeader 0 0 0) |>.

(** ** The metadata *)

(** The operands; the flag that goes with them is not read. *)
Definition to_u64_tuple (v : CmpValues) : option (Z * Z) :=
  match v with
  | CmpU8 a b _ | CmpU16 a b _ | CmpU32 a b _ | CmpU64 a b _ => Some (a, b)
  | CmpBytes _ _ => None
  end.

Record LoopCounts := mkLoopCounts {
  increasing_v0 : nat; increasing_v1 : nat; decreasing_v0 : nat; decreasing_v1 : nat;
  last_value : option CmpValues }.

(** One logged value against the one before it. *)
Definition count_value (c : LoopCounts) (ov : option CmpValues) : LoopCounts :=
  match ov with
  | None => c
  | Some val =>
    match last_value c ≫= to_u64_tuple, to_u64_tuple val with
    | Some l, Some v =>
      mkLoopCounts
        (increasing_v0 c + (if (wrap64 (l.1 + 1) =? v.1)%Z then 1 else 0))
        (increasing_v1 c + (if (wrap64 (l.2 + 1) =? v.2)%Z then 1 else 0))
        (decreasing_v0 c + (if (wrap64 (l.1 - 1) =? v.1)%Z then 1 else 0))
        (decreasing_v1 c + (if (wrap64 (l.2 - 1) =? v.2)%Z then 1 else 0))
        (Some val)
    | _, _ =>
      mkLoopCounts (increasing_v0 c) (increasing_v1 c) (decreasing_v0 c) (decreasing_v1 c) (Some val)
    end
  end.

Definition is_loop (execs : usize) (vs : list (option CmpValues)) : bool :=
  let c := foldl count_value (mkLoopCounts 0 0 0 0 None) vs in
  (execs - 2 <=? increasing_v0 c) || (execs - 2 <=? increasing_v1 c) ||
  (execs - 2 <=? decreasing_v0 c) || (execs - 2 <=? decreasing_v1 c).

(** What one comparison contributes: nothing when it was the condition of a loop. *)
Definition add_row (map : CmpLogMap) (i : usize) : outcome Error (list CmpValues) :=
  let? execs := usable_executions_for map i in
  if 0 <? execs then
    let? vs := mapM (values_of map i) (seq 0 execs) in
    Ok (if (4 <? execs) && is_loop execs vs then [] else omap id vs)
  else Ok [].

Definition add_from (usable_count : usize) (map : CmpLogMap) : outcome Error (list CmpValues) :=
  let? rows := mapM (add_row map) (seq 0 usable_count) in Ok (concat rows).

(** ** The observer *)

Record CmpLogObserver := mkCmpLogObserver {
  cl_map : CmpLogMap;
  cl_size : option usize;
  add_meta : bool;
  cmplog_enabled : bool;
}.
#[global] Instance eta_CmpLogObserver : Eta CmpLogObserver := λ r,
  mkCmpLogObserver (cl_map r) (cl_size r) (add_meta r) (cmplog_enabled r).

Definition usable_count (self : CmpLogObserver) : usize := default CMPLOG_MAP_W (cl_size self).
Definition cl_pre_exec (self : CmpLogObserver) : CmpLogObserver :=
  self <| cl_map := reset (cl_map self) |> <| cmplog_enabled := true |>.
Definition cl_post_exec (self : CmpLogObserver) (s : State) : outcome Error (CmpLogObserver * State) :=
  let self := self <| cmplog_enabled := false |> in
  if add_meta self then
    let? l := add_from (usable_count self) (cl_map self) in Ok (self, s <| m_cmps := Some l |>)
  else Ok (self, s).
End CmpLog.

(** ** The tracing stage *)

(** The target with the tracer's instrumentation: an execution finds the coverage map and the log as they are in
    memory (the tracer does not reset the former) and leaves both, the sancov counters, and its exit kind. *)
Class Tracer := {
  traced : bytes → u64 → list Z → CmpLogMap → outcome Error (ExitKind * list Z * list Z * CmpLogMap);
}.

Record Tracing (T F : Type) := mkTracing { tr_observer : CmpLogObserver; tr_fuzzer : StdFuzzer T F }.
Arguments mkTracing {T F} _ _.
Arguments tr_observer {T F} _.
Arguments tr_fuzzer {T F} _.
#[global] Instance eta_Tracing T F : Eta (Tracing T F) := λ r, mkTracing (tr_observer r) (tr_fuzzer r).

Section Tracing.
Context `{CmpLogSizes} `{Tracer} (little : bool) {T F : Type}.
Abbreviation Trace A := (M (Tracing T F) A).

Definition on_fuzzer {A} (m : M (StdFuzzer T F) A) : Trace A := λ w,
  let '(r, z) := m (tr_fuzzer w) in (r, w <| tr_fuzzer := z |>).

(** [run_target] of the tracer's executor, which counts the execution. *)
Definition tracer_run_target (input : bytes) : Trace ExitKind :=
  n <- gets (λ w, executions (fst_state (tr_fuzzer w))) ;;
  on_fuzzer (on_state (modify (λ s, s <| executions := wrap64 (executions s + 1) |>))) ;;;
  w <- gets (λ w, w) ;;
  r <- lift (traced input n (mo_entries (ob_edges (observers (tr_fuzzer w)))) (cl_map (tr_observer w))) ;;
  let '(exit_kind, edges, sancov, log) := r : ExitKind * list Z * list Z * CmpLogMap in
  on_fuzzer (modify (λ z, z <| observers := (observers z)
    <| ob_edges := (ob_edges (observers z)) <| mo_entries := edges |> |>
    <| ob_sancov := (ob_sancov (observers z)) <| mo_entries := sancov |> |> |>)) ;;;
  modify (λ w, w <| tr_observer := (tr_observer w) <| cl_map := log |> |>) ;;;
  ret exit_kind.

Definition trace : Trace () :=
  input <- on_fuzzer (on_state current_input_cloned) ;;
  modify (λ w, w <| tr_observer := cl_pre_exec (tr_observer w) |>) ;;;
  exit_kind <- tracer_run_target input ;;
  w <- gets (λ w, w) ;;
  r <- lift (cl_post_exec little (tr_observer w) (fst_state (tr_fuzzer w))) ;;
  modify (λ w, w <| tr_observer := r.1 |> <| tr_fuzzer := (tr_fuzzer w) <| fst_state := r.2 |> |>).
End Tracing.

(** ** The log is read correctly *)

Section LogFacts.
Context `{CmpLogSizes} (little : bool).

Record map_wf (map : CmpLogMap) : Prop := {
  wf_headers : length (headers map) = CMPLOG_MAP_W;
  wf_vals : length (vals map) = CMPLOG_MAP_W * CMPLOG_MAP_H * size_of_instruction;
}.

(** How often a sequence makes a given step. *)
Fixpoint steps (f : Z → Z) (l : list Z) : nat :=
  match l with
  | a :: (b :: _) as l' => (if (f a =? b)%Z then 1 else 0) + steps f l'
  | _ => 0
  end.
Definition up (x : Z) : Z := wrap64 (x + 1).
Definition down (x : Z) : Z := wrap64 (x - 1).

(** The operands of one comparison over the executions: all but two steps of one side go up by one, or all but two go
    down by one. *)
Definition counting_loop (n : nat) (l : list (Z * Z)) : bool :=
  (n - 2 <=? steps up (fst <$> l)) || (n - 2 <=? steps up (snd <$> l)) ||
  (n - 2 <=? steps down (fst <$> l)) || (n - 2 <=? steps down (snd <$> l)).

Lemma omap_length {A B} (f : A → option B) l : length (omap f l) ≤ length l.
Proof. induction l as [|x l IH]; cbn; [lia|]. destruct (f x); cbn; lia. Qed.

Lemma count_values l vs c v : omap to_u64_tuple vs = l → length l = length vs →
  last_value c = Some v → ∀ a, to_u64_tuple v = Some a →
  let c' := foldl count_value c (Some <$> vs) in
  increasing_v0 c' = increasing_v0 c + steps up (fst <$> a :: l) ∧ increasing_v1 c' = increasing_v1 c + steps up (snd <$> a :: l) ∧
  decreasing_v0 c' = decreasing_v0 c + steps down (fst <$> a :: l) ∧ decreasing_v1 c' = decreasing_v1 c + steps down (snd <$> a :: l).
Proof.
  revert l c v. induction vs as [|x vs IH]; intros l c v Hl Hlen Hv a Ha; cbn in Hl; subst l.
  { cbn. lia. }
  destruct (to_u64_tuple x) as [b|] eqn:Hx.
  2: { exfalso. cbn in Hlen.
       pose proof (omap_length to_u64_tuple vs). lia. }
  cbn in Hlen. cbn [fmap list_fmap foldl].
  destruct (IH (omap to_u64_tuple vs) (count_value c (Some x)) x eq_refl ltac:(lia)) with (a := b) as (I1 & I2 & I3 & I4); [|done|].
  { cbn. rewrite Hv. cbn. by rewrite Ha, Hx. }
  change (foldl count_value (count_value c (Some x)) (Some <$> vs)) with (foldl count_value (count_value c (Some x)) (list_fmap _ _ Some vs)) in *.
  rewrite I1, I2, I3, I4. cbn [count_value]. rewrite Hv. cbn [mbind option_bind]. rewrite Ha, Hx. cbn. unfold up, down. lia.
Qed.

(** A comparison of numbers, throughout. *)
Lemma is_loop_numbers n vs l : omap to_u64_tuple vs = l → length l = length vs →
  is_loop n (Some <$> vs) = counting_loop n l.
Proof.
  intros Hl Hlen. destruct vs as [|x vs]; [by subst l|]. cbn in Hl. destruct (to_u64_tuple x) as [a|] eqn:Hx.
  2: { exfalso. subst l. cbn in Hlen.
       pose proof (omap_length to_u64_tuple vs). lia. }
  subst l. cbn in Hlen. set (c := mkLoopCounts 0 0 0 0 (Some x)).
  destruct (count_values (omap to_u64_tuple vs) vs c x eq_refl ltac:(lia) eq_refl a Hx) as (H1 & H2 & H3 & H4).
  unfold is_loop, counting_loop. change (foldl count_value (mkLoopCounts 0 0 0 0 None) (Some <$> x :: vs)) with (foldl count_value c (Some <$> vs)).
  by rewrite H1, H2, H3, H4.
Qed.

(** Nothing is counted when there are no numbers. *)
Lemma is_loop_none n vs : 2 < n → Forall (λ o, o ≫= to_u64_tuple = None) vs → is_loop n vs = false.
Proof.
  intros Hn HF. unfold is_loop. assert (∀ c, last_value c ≫= to_u64_tuple = None → let c' := foldl count_value c vs in
    increasing_v0 c' = increasing_v0 c ∧ increasing_v1 c' = increasing_v1 c ∧ decreasing_v0 c' = decreasing_v0 c ∧ decreasing_v1 c' = decreasing_v1 c) as Hall.
  { induction HF as [|o vs Ho _ IH]; intros c Hc; [done|]. cbn [foldl]. destruct o as [x|]; [|by apply IH].
    cbn in Ho. cbn [count_value]. rewrite Hc.
    destruct (IH (mkLoopCounts (increasing_v0 c) (increasing_v1 c) (decreasing_v0 c) (decreasing_v1 c) (Some x)) Ho) as (-> & -> & -> & ->). done. }
  destruct (Hall (mkLoopCounts 0 0 0 0 None) eq_refl) as (-> & -> & -> & ->). cbn [increasing_v0 increasing_v1 decreasing_v0 decreasing_v1].
  destruct (Nat.leb_spec (n - 2) 0); [lia|done].
Qed.

(** What the log holds for a comparison. *)
Definition execs_of (map : CmpLogMap) (i : nat) : nat := match usable_executions_for map i with Ok n => n | _ => 0 end.
Definition logged (map : CmpLogMap) (i : nat) : list CmpValues :=
  omap (λ j, match values_of little map i j with Ok o => o | _ => None end) (seq 0 (execs_of map i)).
(** A comparison that counts through a loop is left out. *)
Definition kept_values (map : CmpLogMap) (i : nat) : list CmpValues :=
  if (4 <? execs_of map i) && counting_loop (execs_of map i) (omap to_u64_tuple (logged map i)) then [] else logged map i.

(** Either side of a logged comparison has its width. *)
Definition value_ok (v : CmpValues) : Prop :=
  match v with
  | CmpU8 a b _ => (0 ≤ a < 2 ^ 8 ∧ 0 ≤ b < 2 ^ 8)%Z
  | CmpU16 a b _ => (0 ≤ a < 2 ^ 16 ∧ 0 ≤ b < 2 ^ 16)%Z
  | CmpU32 a b _ => (0 ≤ a < 2 ^ 32 ∧ 0 ≤ b < 2 ^ 32)%Z
  | CmpU64 _ _ _ => True
  | CmpBytes a b => length (as_slice a) = CMPLOG_RTN_LEN ∧ length (as_slice b) = CMPLOG_RTN_LEN
  end.

Lemma rtn_fits : CMPLOG_MAP_RTN_H * size_of_routine ≤ CMPLOG_MAP_H * size_of_instruction.
Proof. unfold CMPLOG_MAP_RTN_H. rewrite Nat.mul_comm. apply Nat.Div0.mul_div_le. Qed.

Lemma routine_ok map i j : map_wf map → i < CMPLOG_MAP_W → j < CMPLOG_MAP_RTN_H →
  ∃ a b, routine map i j = Ok (a, b) ∧ length a = CMPLOG_RTN_LEN ∧ length b = CMPLOG_RTN_LEN.
Proof.
  intros [_ Hv] Hi Hj. unfold routine. assert ((i <? CMPLOG_MAP_W) && (j <? CMPLOG_MAP_RTN_H) = true) as -> by (apply andb_true_iff; rewrite !Nat.ltb_lt; done).
  eexists _, _. split; [done|]. pose proof rtn_fits as Hfit.
  assert ((i * CMPLOG_MAP_RTN_H + j + 1) * size_of_routine ≤ length (vals map)) as Hend.
  { rewrite Hv. transitivity (CMPLOG_MAP_W * (CMPLOG_MAP_RTN_H * size_of_routine)); [|nia].
    rewrite Nat.mul_assoc. apply Nat.mul_le_mono_r. nia. }
  unfold size_of_routine, CMPLOG_RTN_LEN in *. split; apply piece_length; lia.
Qed.

Lemma instruction_ok map i j : i < CMPLOG_MAP_W → j < CMPLOG_MAP_H → ∃ v, instruction little map i j = Ok v.
Proof.
  intros Hi Hj. unfold instruction. assert ((i <? CMPLOG_MAP_W) && (j <? CMPLOG_MAP_H) = true) as -> by (apply andb_true_iff; rewrite !Nat.ltb_lt; done).
  by eexists.
Qed.

Lemma header_ok map i : map_wf map → i < CMPLOG_MAP_W → ∃ h, header map i = Ok h.
Proof.
  intros [Hh _] Hi. unfold header. destruct (lookup_lt_is_Some_2 (headers map) i) as [h ->]; [lia|]. by exists h.
Qed.

Lemma execs_ok map i h : header map i = Ok h →
  usable_executions_for map i = Ok (execs_of map i) ∧ execs_of map i ≤ CMPLOG_MAP_H ∧
  ((kind h =? CMPLOG_KIND_INS)%Z = false → execs_of map i ≤ CMPLOG_MAP_RTN_H).
Proof.
  intros Hh. assert (CMPLOG_MAP_RTN_H ≤ CMPLOG_MAP_H) as Hle.
  { pose proof rtn_fits. unfold size_of_routine, size_of_instruction in *. lia. }
  unfold execs_of, usable_executions_for, executions_for. rewrite Hh. cbn [obind].
  destruct (kind h =? CMPLOG_KIND_INS)%Z; cbn [obind]; (split; [done|]); (split; [|intros; try done]);
    match goal with |- (if ?a <? ?b then _ else _) ≤ _ => destruct (Nat.ltb_spec a b) end; lia.
Qed.

Definition number_shape (h : CmpLogHeader) : bool := ((shape h =? 1) || (shape h =? 2) || (shape h =? 4) || (shape h =? 8))%Z.

Lemma low_bits x n : (0 < n)%Z → (0 ≤ x mod 2 ^ n < 2 ^ n)%Z.
Proof. intros. apply Z.mod_pos_bound, Z.pow_pos_nonneg; lia. Qed.

Lemma number_ok map i h j : header map i = Ok h → kind h = CMPLOG_KIND_INS → i < CMPLOG_MAP_W → j < CMPLOG_MAP_H →
  if number_shape h then ∃ v a, values_of little map i j = Ok (Some v) ∧ to_u64_tuple v = Some a ∧ value_ok v
  else values_of little map i j = Ok None.
Proof.
  intros Hh Hk Hi Hj. destruct (instruction_ok map i j Hi Hj) as [v Hins]. unfold values_of, number_shape. rewrite Hh. cbn [obind].
  rewrite Hk. change (CMPLOG_KIND_INS =? CMPLOG_KIND_INS)%Z with true. cbv iota.
  destruct (shape h =? 1)%Z; [|destruct (shape h =? 2)%Z; [|destruct (shape h =? 4)%Z; [|destruct (shape h =? 8)%Z; [|done]]]];
    rewrite Hins; cbn [orb obind]; eexists _, _; (split; [reflexivity|]); (split; [reflexivity|]).
  - split; by apply low_bits.
  - split; by apply low_bits.
  - split; by apply low_bits.
  - done.
Qed.

Lemma bytes_ok map i h j : map_wf map → header map i = Ok h → kind h ≠ CMPLOG_KIND_INS → i < CMPLOG_MAP_W → j < CMPLOG_MAP_RTN_H →
  ∃ v, values_of little map i j = Ok (Some v) ∧ to_u64_tuple v = None ∧ value_ok v.
Proof.
  intros Hw Hh Hk Hi Hj. unfold values_of. rewrite Hh. cbn [obind]. assert ((kind h =? CMPLOG_KIND_INS)%Z = false) as -> by by apply Z.eqb_neq.
  destruct (routine_ok map i j Hw Hi Hj) as (a & b & Hr & La & Lb). rewrite Hr. cbn [obind]. eexists. split; [reflexivity|]. split; [done|].
  cbn [value_ok]. unfold as_slice. cbn [cb_len cb_buf fst snd]. by rewrite !take_ge by lia.
Qed.

(** The values of a comparison are all numbers, all strings, or not logged at all. *)
Lemma row_ok map i : map_wf map → i < CMPLOG_MAP_W →
  usable_executions_for map i = Ok (execs_of map i) ∧ execs_of map i ≤ CMPLOG_MAP_H ∧ Forall value_ok (logged map i) ∧
  ∃ ovs, mapM (values_of little map i) (seq 0 (execs_of map i)) = Ok ovs ∧ omap id ovs = logged map i ∧
    (ovs = Some <$> logged map i ∧ length (omap to_u64_tuple (logged map i)) = length (logged map i) ∨ Forall (λ o, o ≫= to_u64_tuple = None) ovs).
Proof.
  intros Hw Hi. destruct (header_ok map i Hw Hi) as [h Hh]. destruct (execs_ok map i h Hh) as (Hu & Hle & Hrtn).
  split; [done|]. split; [done|]. unfold logged. set (n := execs_of map i) in *.
  assert (∀ (l : list nat) (Q : CmpValues → Prop), Forall (λ j, ∃ o, values_of little map i j = Ok o ∧ ∀ v, o = Some v → Q v) l →
    ∃ ovs, mapM (values_of little map i) l = Ok ovs ∧ Forall2 (λ j o, values_of little map i j = Ok o) l ovs ∧ Forall (λ o, ∀ v, o = Some v → Q v) ovs) as Hmap.
  { clear. intros l Q HF. induction HF as [|j l (o & Ho & Hq) _ (ovs & E & H2 & HQ)]; [by exists []|].
    exists (o :: ovs). cbn. rewrite Ho. cbn. rewrite E. split; [done|]. split; by constructor. }
  assert (∀ l ovs, Forall2 (λ j o, values_of little map i j = Ok o) l ovs →
    omap (λ j, match values_of little map i j with Ok o => o | _ => None end) l = omap id ovs) as Hom.
  { clear. induction 1 as [|j o l ovs E _ IH]; [done|]. cbn. rewrite E, IH. done. }
  destruct (Z.eq_dec (kind h) CMPLOG_KIND_INS) as [Hk|Hk].
  - destruct (number_shape h) eqn:Hs.
    + destruct (Hmap (seq 0 n) (λ v, (∃ a, to_u64_tuple v = Some a) ∧ value_ok v)) as (ovs & E & H2 & HQ).
      { apply Forall_seq. intros j Hj. pose proof (number_ok map i h j Hh Hk Hi ltac:(lia)) as Hn. rewrite Hs in Hn.
        destruct Hn as (v & a & Ev & Ea & Hv). exists (Some v). split; [done|]. intros ? [= <-]. eauto. }
      assert (∃ vs, ovs = Some <$> vs ∧ Forall (λ v, (∃ a, to_u64_tuple v = Some a) ∧ value_ok v) vs) as (vs & -> & HF).
      { clear -H2 HQ Hh Hk Hi Hs Hle. assert (∀ j o, j < n → values_of little map i j = Ok o → is_Some o) as Hsome.
        { intros j o Hj Ho. pose proof (number_ok map i h j Hh Hk Hi ltac:(lia)) as Hn. rewrite Hs, Ho in Hn. destruct Hn as (v & a & [= ->] & _). by eexists. }
        assert (Forall (λ j, j < n) (seq 0 n)) as Hlt by (apply Forall_seq; lia). revert Hlt HQ. induction H2 as [|j o l ovs Ho _ IH]; intros Hlt HQ; [by exists []|].
        apply Forall_cons in Hlt as [Hj Hlt]. apply Forall_cons in HQ as [Hq HQ]. destruct (IH Hlt HQ) as (vs & -> & HF).
        destruct (Hsome j o Hj Ho) as [v ->]. exists (v :: vs). split; [done|]. constructor; [by apply Hq|done]. }
      rewrite (Hom _ _ H2). assert (omap id (Some <$> vs) = vs) as Ei by (clear; induction vs as [|v vs IH]; [done|]; cbn; by rewrite IH).
      rewrite Ei. split; [by eapply Forall_impl; [exact HF|]; intros v []|]. exists (Some <$> vs). split; [done|]. split; [done|]. left. split; [done|].
      clear -HF. induction HF as [|v vs [[a Ha] _] _ IH]; [done|]. cbn. rewrite Ha. cbn. by rewrite IH.
    + destruct (Hmap (seq 0 n) (λ _, False)) as (ovs & E & H2 & HQ).
      { apply Forall_seq. intros j Hj. pose proof (number_ok map i h j Hh Hk Hi ltac:(lia)) as Hn. rewrite Hs in Hn. by exists None. }
      rewrite (Hom _ _ H2). assert (omap id ovs = [] ∧ Forall (λ o : option CmpValues, o ≫= to_u64_tuple = None) ovs) as [Ei HF].
      { clear -HQ. induction HQ as [|[v|] ovs Hq _ [IH1 IH2]]; [done|by destruct (Hq v eq_refl)|]. split; [done|by constructor]. }
      rewrite Ei. split; [done|]. exists ovs. split; [done|]. split; [done|]. by right.
  - destruct (Hmap (seq 0 n) (λ v, to_u64_tuple v = None ∧ value_ok v)) as (ovs & E & H2 & HQ).
    { apply Forall_seq. intros j Hj. assert ((kind h =? CMPLOG_KIND_INS)%Z = false) as Hkb by by apply Z.eqb_neq. specialize (Hrtn Hkb).
      destruct (bytes_ok map i h j Hw Hh Hk Hi ltac:(lia)) as (v & Ev & Ht & Hv). exists (Some v). split; [done|]. intros ? [= <-]. done. }
    rewrite (Hom _ _ H2). split.
    { clear -HQ. induction HQ as [|[v|] ovs Hq _ IH]; [done| |done]. cbn. constructor; [by apply Hq|done]. }
    exists ovs. split; [done|]. split; [done|]. right. eapply Forall_impl; [exact HQ|]. intros [v|] Hq; [|done]. cbn. by apply Hq.
Qed.

Lemma add_row_ok map i : map_wf map → i < CMPLOG_MAP_W → add_row little map i = Ok (kept_values map i).
Proof.
  intros Hw Hi. destruct (row_ok map i Hw Hi) as (Hu & _ & _ & ovs & E & Eo & Hcase). unfold add_row. rewrite Hu. cbn [obind].
  unfold kept_values. destruct (Nat.ltb_spec 0 (execs_of map i)) as [Hn|Hn].
  - rewrite E. cbn [obind]. rewrite Eo. destruct (Nat.ltb_spec 4 (execs_of map i)) as [H4|H4]; [|done]. cbn [andb].
    destruct Hcase as [[-> Hlen]|Hnone]; [by rewrite (is_loop_numbers _ _ _ eq_refl Hlen)|].
    rewrite is_loop_none by (done || lia). assert (omap to_u64_tuple (logged map i) = []) as ->.
    { rewrite <-Eo. clear -Hnone. induction Hnone as [|[v|] ovs Hv _ IH]; [done| |done]. cbn in *. by rewrite Hv. }
    unfold counting_loop. cbn [steps fmap list_fmap]. by destruct (Nat.leb_spec (execs_of map i - 2) 0); [lia|].
  - assert (execs_of map i = 0) as E0 by lia. unfold logged. by rewrite E0.
Qed.

Lemma kept_values_ok map i : map_wf map → i < CMPLOG_MAP_W → Forall value_ok (kept_values map i) ∧ length (kept_values map i) ≤ CMPLOG_MAP_H.
Proof.
  intros Hw Hi. destruct (row_ok map i Hw Hi) as (_ & Hle & Hv & ovs & E & Eo & _). apply mapM_length in E. rewrite length_seq in E.
  assert (length (logged map i) ≤ CMPLOG_MAP_H) as Hlen.
  { rewrite <-Eo. etrans; [apply omap_length|]. lia. }
  unfold kept_values. case_match; [|done]. split; [done|cbn; lia].
Qed.

Lemma add_from_ok count map : map_wf map → count ≤ CMPLOG_MAP_W →
  add_from little count map = Ok (concat (kept_values map <$> seq 0 count)) ∧
  Forall value_ok (concat (kept_values map <$> seq 0 count)) ∧
  length (concat (kept_values map <$> seq 0 count)) ≤ count * CMPLOG_MAP_H.
Proof.
  intros Hw Hc. assert (∀ l, Forall (λ i, i < CMPLOG_MAP_W) l →
    mapM (add_row little map) l = Ok (kept_values map <$> l) ∧ Forall value_ok (concat (kept_values map <$> l)) ∧
    length (concat (kept_values map <$> l)) ≤ length l * CMPLOG_MAP_H) as Hall.
  { induction 1 as [|i l Hi _ (IH1 & IH2 & IH3)]; [done|]. destruct (kept_values_ok map i Hw Hi) as [Hv Hl].
    cbn [mapM fmap list_fmap concat length]. rewrite (add_row_ok map i Hw Hi). cbn [obind]. rewrite IH1. cbn [obind].
    split; [done|]. split; [by apply Forall_app|]. rewrite length_app, Nat.mul_succ_l. lia. }
  destruct (Hall (seq 0 count)) as (E & Hv & Hl); [apply Forall_seq; lia|]. unfold add_from. rewrite E. rewrite length_seq in Hl. done.
Qed.

(** The log is turned into the metadata without reading outside it: for every comparison in order, the values
    it was logged with, unless it counted through a loop; every value has the width of its kind. *)
Theorem add_from_exact count map : map_wf map → count ≤ CMPLOG_MAP_W →
  add_from little count map = Ok (concat (kept_values map <$> seq 0 count)) ∧
  Forall value_ok (concat (kept_values map <$> seq 0 count)) ∧
  length (concat (kept_values map <$> seq 0 count)) ≤ count * CMPLOG_MAP_H.
Proof. apply add_from_ok. Qed.
End LogFacts.

(** ** The stage *)

Class TracerLaws `{CmpLogSizes} (Tr : Tracer) := {
  traced_ok : ∀ input n edges map, map_wf map → ∃ k edges' sancov map', traced input n edges map = Ok (k, edges', sancov, map') ∧ map_wf map';
  log_small : (Z.of_nat (CMPLOG_MAP_W * CMPLOG_MAP_H) ≤ u64_max)%Z;
}.

Section TracingFacts.
Context `{CmpLogSizes} `{Tracer, !TracerLaws _} (little : bool).
Context `{Env, !EnvLaws _} `{Target, !TargetLaws _} `{Manager}.
Context `{TS : TestcaseScore} {scorable : Testcase → Prop} {cost : Testcase → f64} `{!CostLaws TS scorable cost}.
Context {T F : Type} `{B : Scheduler T} {binv : Sched T → Prop}.
Context `{!BaseLaws (scorable := scorable) (cost := cost) B binv}.
Context `{FB : Feedback F} {P : FeedbackSpec F} `{!FeedbackLaws FB P}.
Context (scorable_input : ∀ tc, is_Some (tc_input tc) → scorable tc).
Context (accepts : ∀ e, fire_result e = Ok ()) (serializes : ∀ o, ∃ b, serialize_observers o = Ok b).
Abbreviation stage_inv := (stage_inv (scorable := scorable) (binv := binv) (P := P)).
Implicit Types w : Tracing T F.

Record tracer_ok (self : CmpLogObserver) : Prop := {
  tro_map : map_wf (cl_map self);
  tro_meta : add_meta self = true;
  tro_size : usable_count self ≤ CMPLOG_MAP_W;
}.

Lemma reset_wf map : map_wf map → map_wf (reset map).
Proof. intros [Hh Hv]. split; [|done]. cbn. by rewrite length_replicate. Qed.

Lemma value_cmp_ok v : value_ok v → cmp_ok v.
Proof. destruct v; cbn; [done..|]. intros [-> ->]. done. Qed.

(** The stage only counts an execution, renews the log and leaves what the target left in the maps. *)
Lemma trace_ok w id tc input : tracer_ok (tr_observer w) → corpus_id (fst_state (tr_fuzzer w)) = Some id →
  tc_at (corpus (fst_state (tr_fuzzer w))) id = Some tc → tc_input tc = Some input →
  ∃ w' log edges sancov, trace little w = (Ok (), w') ∧ tracer_ok (tr_observer w') ∧ cmplog_enabled (tr_observer w') = false ∧
    log = concat (kept_values little (cl_map (tr_observer w')) <$> seq 0 (usable_count (tr_observer w'))) ∧
    Forall value_ok log ∧ length log ≤ CMPLOG_MAP_W * CMPLOG_MAP_H ∧
    tr_fuzzer w' = (tr_fuzzer w) <| observers := (observers (tr_fuzzer w))
        <| ob_edges := (ob_edges (observers (tr_fuzzer w))) <| mo_entries := edges |> |>
        <| ob_sancov := (ob_sancov (observers (tr_fuzzer w))) <| mo_entries := sancov |> |> |>
      <| fst_state := (fst_state (tr_fuzzer w)) <| executions := wrap64 (executions (fst_state (tr_fuzzer w)) + 1) |> <| m_cmps := Some log |> |>.
Proof.
  intros [Hm Ha Hu] Hcur Htc Hin. destruct w as [o z]. cbn [tr_observer tr_fuzzer] in *.
  destruct (traced_ok input (executions (fst_state z)) (mo_entries (ob_edges (observers z))) (reset (cl_map o)) (reset_wf _ Hm))
    as (k & edges & sancov & map & Hrun & Hmap).
  destruct (add_from_ok little (usable_count o) map Hmap Hu) as (Hadd & Hv & Hl).
  assert (on_state current_input_cloned z = (Ok input, z)) as Hinput.
  { unfold on_state, current_input_cloned, bind, gets, lift, read_testcase. rewrite Hcur. cbn [ok_or]. rewrite (proj2 (get_tc_at _ _ _) Htc). cbn [snd].
    rewrite Hin. by destruct z. }
  eexists _, _, edges, sancov. split.
  - unfold trace, bind at 1, on_fuzzer at 1. cbn [tr_fuzzer]. rewrite Hinput. rewrite bind_modify. unfold tracer_run_target.
    unfold bind at 1. rewrite bind_gets. unfold bind at 1, on_fuzzer at 1, on_state at 1, modify at 1. cbn [tr_fuzzer fst_state upd eta_Tracing eta_StdFuzzer].
    rewrite bind_gets. cbn [tr_fuzzer tr_observer observers upd eta_Tracing eta_StdFuzzer cl_map cl_pre_exec eta_CmpLogObserver].
    rewrite Hrun, bind_lift. unfold bind at 1, on_fuzzer at 1, modify at 1. rewrite bind_modify. cbn [ret]. rewrite bind_gets.
    unfold cl_post_exec. cbn [tr_observer upd eta_Tracing add_meta cl_pre_exec eta_CmpLogObserver cl_map]. rewrite Ha.
    change (usable_count _) with (usable_count o). rewrite Hadd. cbn [obind]. rewrite bind_lift. reflexivity.
  - cbn [tr_observer upd eta_Tracing fst cl_map eta_CmpLogObserver cl_pre_exec]. split; [by split|]. split; [done|]. split; [reflexivity|].
    split; [done|]. split; [etrans; [exact Hl|]; by apply Nat.mul_le_mono_r|]. by destruct z as [? ? ? [] []].
Qed.

Lemma trace_keeps (z : StdFuzzer T F) edges sancov log : fuzz_inv (scorable := scorable) (binv := binv) (P := P) z → mut_ok (fst_state z) → tokens_ok (fst_state z) →
  Forall value_ok log → length log ≤ CMPLOG_MAP_W * CMPLOG_MAP_H →
  stage_inv (z <| observers := (observers z)
        <| ob_edges := (ob_edges (observers z)) <| mo_entries := edges |> |>
        <| ob_sancov := (ob_sancov (observers z)) <| mo_entries := sancov |> |> |>
      <| fst_state := (fst_state z) <| executions := wrap64 (executions (fst_state z) + 1) |> <| m_cmps := Some log |> |>).
Proof.
  intros (Hfull & Hf & Hcov & Hsol & Hw) Hmut Htok Hlog Hlen. split.
  - set (s' := (fst_state z) <| executions := wrap64 (executions (fst_state z) + 1) |> <| m_cmps := Some log |>).
    destruct (law_part (feedback z) (fst_state z) s' Hf) as (Hf' & Hc & _); [done|].
    split; [by apply (full_inv_part (scheduler z) (fst_state z))|]. split; [exact Hf'|]. split; [|done].
    intros k. change (is_Some (tops s' !! k) ↔ fs_cover P s' k). rewrite (part_tops (fst_state z) s') by done. rewrite Hcov. symmetry. apply Hc.
  - destruct Hmut. by split.
  - exact Htok.
  - intros cmps [= <-]. split; [pose proof log_small; lia|]. eapply Forall_impl; [exact Hlog|]. apply value_cmp_ok.
Qed.

Context {Mu : Type} {U : MutatorOf Mu} {mu_ready mu_pending : nat → Mu → State → Prop} `{!MutatorLaws U mu_ready mu_pending}.

(** C28. The tracing stage followed by a mutational stage, with a dictionary without empty tokens, a mutator that keeps its promise, and
    targets and an event manager that do not fail: whatever the log held before, tracing succeeds and leaves a log
    in which both sides of a logged string have the same length, as the replacement of operands needs; the stage then draws
    a number between 1 and 128 and runs exactly as many rounds on the entry's input, without a failure, and everything
    the fuzzer relies on is kept. *)
Theorem traced_mutational_safe w mu id tc input : tracer_ok (tr_observer w) →
  fuzz_inv (scorable := scorable) (binv := binv) (P := P) (tr_fuzzer w) → mut_ok (fst_state (tr_fuzzer w)) → tokens_ok (fst_state (tr_fuzzer w)) →
  corpus_id (fst_state (tr_fuzzer w)) = Some id → tc_at (corpus (fst_state (tr_fuzzer w))) id = Some tc → tc_input tc = Some input →
  space 128 (fst_state (tr_fuzzer w)) → mu_ready 128 mu (fst_state (tr_fuzzer w)) →
  ∃ w' num s1 x mu' z', trace little w = (Ok (), w') ∧ tracer_ok (tr_observer w') ∧ cmplog_enabled (tr_observer w') = false ∧
    m_cmps (fst_state (tr_fuzzer w')) = Some (concat (kept_values little (cl_map (tr_observer w')) <$> seq 0 (usable_count (tr_observer w')))) ∧
    std_iterations 128 (fst_state (tr_fuzzer w')) = (Ok num, s1) ∧ 1 ≤ num ≤ 128 ∧
    std_mutational mu (tr_fuzzer w') = (Ok mu', z') ∧
    rounds input num x mu ((tr_fuzzer w') <| fst_state := s1 |>) mu' z' ∧ x ≤ num ∧
    stage_inv z' ∧ progressed (P := P) x (tr_fuzzer w') z'.
Proof.
  intros Htr Hf Hmut Htok Hcur Htc Hin Hsp Hr.
  destruct (trace_ok w id tc input Htr Hcur Htc Hin) as (w' & log & edges & sancov & E & Htr' & Hoff & El & Hlog & Hlen & Ez).
  assert (stage_inv (tr_fuzzer w')) as Hinv by (rewrite Ez; by apply trace_keeps).
  assert (corpus_id (fst_state (tr_fuzzer w')) = Some id ∧ tc_at (corpus (fst_state (tr_fuzzer w'))) id = Some tc ∧ space 128 (fst_state (tr_fuzzer w')) ∧
    m_mopt (fst_state (tr_fuzzer w')) = m_mopt (fst_state (tr_fuzzer w)) ∧ m_cmps (fst_state (tr_fuzzer w')) = Some log) as (E1 & E2 & E3 & E4 & E5) by (rewrite Ez; done).
  destruct (std_mutational_ok scorable_input accepts serializes 0 mu (tr_fuzzer w') id tc Hinv E1 E2 E3)
    as (i & num & s1 & x & mu' & z' & Hin' & Hit & Hn & Hrun & Hrs & Hx & Hz' & Hp & _).
  { eapply law_ready; [exact Hr|lia|done]. }
  rewrite Hin in Hin'. injection Hin' as <-. exists w', num, s1, x, mu', z'. rewrite E5, El. done.
Qed.
End TracingFacts.

(** ** A concrete trace *)

#[local] Existing Instance toy_env.
#[local] Existing Instance toy_libm.

Definition demo_sizes : CmpLogSizes := {| CMPLOG_MAP_W := 2; CMPLOG_MAP_H := 8 |}.
(** The target compares a byte with 65 eight times, and a counter with its bound: the second comparison is a loop. *)
Definition demo_row (f : nat → Byte.byte) (g : nat → Byte.byte) : bytes :=
  concat ((λ j, f j :: replicate 7 Byte.x00 ++ g j :: replicate 15 Byte.x00) <$> seq 0 8).
Definition demo_log : CmpLogMap :=
  mkCmpLogMap [mkCmpLogHeader 8 1 0; mkCmpLogHeader 8 1 0]
    (demo_row (λ _, Byte.x41) (λ _, Byte.x07) ++ demo_row (λ j, to_u8 (Z.of_nat j)) (λ _, Byte.x40)).
Definition demo_tracer : Tracer := {| traced _ _ edges map := Ok (ExitOk, edges, [], demo_log) |}.
#[global] Instance demo_tracer_laws : TracerLaws (H := demo_sizes) demo_tracer.
Proof. split; [|by vm_compute]. intros input n edges map _. eexists _, _, _, _. split; [reflexivity|]. split; by vm_compute. Qed.

Definition demo_observer : CmpLogObserver := mkCmpLogObserver demo_log None true false.

Lemma add_from_exact_witness : add_from (H := demo_sizes) true 2 demo_log = Ok (replicate 8 (CmpU8 65 7 false)).
Proof.
  destruct (add_from_exact (H := demo_sizes) true 2 demo_log) as (-> & _); [split; by vm_compute|by vm_compute|]. by vm_compute.
Defined.

Lemma traced_mutational_safe_witness : ∃ w' mu' z',
  trace (H := demo_sizes) (H0 := demo_tracer) true (mkTracing demo_observer (demo_stage None)) = (Ok (), w') ∧
  m_cmps (fst_state (tr_fuzzer w')) = Some (replicate 8 (CmpU8 65 7 false)) ∧
  std_mutational (H := toy_env) (H0 := demo_target) (H1 := demo_manager) (H2 := LenTimeMulTestcaseScore) (H3 := demo_base)
    (H4 := EagerOrFeedback) (H5 := scheduled_mutator true) (StdScheduledMutator_new i2s_mutations) (tr_fuzzer w') = (Ok mu', z').
Proof.
  destruct (demo_stage_ok None) as [Hf Hm Ht _].
  destruct (traced_mutational_safe (H := demo_sizes) (H0 := demo_tracer) true (TS := LenTimeMulTestcaseScore) (cost := len_time_cost) (BaseLaws0 := demo_base_laws)
    (FeedbackLaws0 := bofuzz_laws demo_accepts) (H2 := demo_target) (H3 := demo_manager) (MutatorLaws0 := scheduled_laws true)
    demo_scorable demo_accepts demo_serializes (mkTracing demo_observer (demo_stage None)) (StdScheduledMutator_new i2s_mutations) 0 demo_tc [Byte.x01])
    as (w' & num & s1 & x & mu' & z' & E & _ & _ & Hl & _ & _ & Hrun & _).
  - split; [split; by vm_compute|done|done].
  - exact Hf.
  - exact Hm.
  - exact Ht.
  - reflexivity.
  - apply demo_entry_at.
  - by vm_compute.
  - vm_compute. reflexivity.
  - split; [discriminate|]. split; [vm_compute; discriminate|]. cbn. lia.
  - exists w', mu', z'. split; [exact E|]. split; [|exact Hrun]. rewrite Hl. clear -E. f_equal.
    assert (tr_observer w' = demo_observer) as ->; [|by vm_compute]. by vm_compute in E; injection E as <-.
Defined.
