(* ===== verification/Monitor.v ===== *)
(** * Monitor: what the user sees ([custom_monitor.rs], [monitors/mod.rs], [events/simple.rs])

    The event manager of BOFuzz hands every event to the monitor, which keeps the numbers of its
    client and prints a line per event; the messages of the accounting stage and of the TPE stage are
    parsed and printed in a form of their own.

    The theorems: what the manager prints, event by event, as long as the clock is not set back, and the panic when it is
    ([manager_run]); how the executions of a client that is restarted add up ([executions_add_up]); and what becomes
    of the two kinds of messages ([features_info_exact], [tpe_info_exact]). *)

From Stdlib Require Import ZArith Lia Ascii.
From S2P Require Import Prelude Float64 FloatFacts Rands Str NumParse Format Corpus Metadata State FeaturesMap AccountingStage Tpe TpeStage TpeStageFacts Calibrate.

(** ** Values of user statistics *)

Definition f_1e6 : f64 := of_Z 1000000.
Definition f_1000 : f64 := of_Z 1000.
Definition f_100 : f64 := of_Z 100.
Definition f_10 : f64 := of_Z 10.
Definition f_1e9 : f64 := of_Z 1000000000.

Definition prettify_float (value : f64) : Msg :=
  let '(value, suffix) :=
    if fle f_1e6 value then (fdiv value f_1e6, "M"%string)
    else if fle f_1000 value then (fdiv value f_1000, "k"%string)
    else (value, ""%string) in
  if fle f_1e6 value then fmt "{value:.2}{suffix}" [AFloat 2 value; AStr suffix]
  else if fle f_1000 value then fmt "{value:.1}{suffix}" [AFloat 1 value; AStr suffix]
  else if fle f_100 value then fmt "{value:.1}{suffix}" [AFloat 1 value; AStr suffix]
  else if fle f_10 value then fmt "{value:.2}{suffix}" [AFloat 2 value; AStr suffix]
  else fmt "{value:.3}{suffix}" [AFloat 3 value; AStr suffix].

(** [Display] of a value. *)
Definition display_value (v : UserStatsValue) : Msg :=
  match v with
  | StatNumber n => fmt "{n}" [AInt n]
  | StatFloat x => fmt "{}" [AMsg (prettify_float x)]
  | Percent x => fmt "{:.3}%" [AFloat 3 (fmul x f_100)]
  | StatString s => fmt "{s}" [AMsg s]
  | Ratio a b =>
    if (b =? 0)%Z then fmt "{a}/{b}" [AInt a; AInt b]
    else fmt "{a}/{b} ({}%)" [AInt a; AInt b; AInt (wrap64 (a * 100) / b)%Z]
  end.

(** ** The numbers of a client *)

Record ClientStats := mkClientStats {
  cs_enabled : bool;
  cs_corpus_size : u64;
  cs_last_corpus_time : Duration;
  cs_executions : u64;
  prev_state_executions : u64;
  cs_objective_size : u64;
  cs_last_objective_time : Duration;
  cs_last_window_time : Duration;
  cs_start_time : Duration;
  user_monitor : gmap string UserStats;
}.
#[global] Instance eta_ClientStats : Eta ClientStats := λ r,
  mkClientStats (cs_enabled r) (cs_corpus_size r) (cs_last_corpus_time r) (cs_executions r)
    (prev_state_executions r) (cs_objective_size r) (cs_last_objective_time r) (cs_last_window_time r)
    (cs_start_time r) (user_monitor r).
Definition ClientStats_default : ClientStats := mkClientStats false 0 0 0 0 0 0 0 0 ∅.

Definition update_executions (executions : u64) (self : ClientStats) : ClientStats :=
  let self := if (wrap64 (prev_state_executions self + executions) <? cs_executions self)%Z
              then self <| prev_state_executions := cs_executions self |> else self in
  self <| cs_executions := wrap64 (prev_state_executions self + executions) |>.

Definition update_objective_size (objective_size : u64) (self : ClientStats) : ClientStats :=
  self <| cs_objective_size := objective_size |>.

Definition update_user_stats (name : string) (value : UserStats) (self : ClientStats) : ClientStats :=
  self <| user_monitor := <[name := value]> (user_monitor self) |>.

(** [Duration::as_secs_f64] *)
Definition as_secs_f64 (d : Duration) : f64 :=
  fadd (of_Z (d / 1000000000)) (fdiv (of_Z (d mod 1000000000)) f_1e9).

Definition client_execs_per_sec (cur_time : Duration) (self : ClientStats) : f64 :=
  if (cs_executions self =? 0)%Z then f0
  else
    let elapsed := if (cs_last_window_time self <=? cur_time)%Z
                   then as_secs_f64 (cur_time - cs_last_window_time self) else f0 in
    if as_usize elapsed =? 0 then f0
    else fdiv (of_Z (cs_executions self)) elapsed.

(** ** The monitor and the event manager *)

Record CustomMonitor := mkCustomMonitor {
  mon_start_time : Duration;
  print_user_monitor : bool;
  client_stats : list ClientStats;
}.
#[global] Instance eta_CustomMonitor : Eta CustomMonitor := λ r,
  mkCustomMonitor (mon_start_time r) (print_user_monitor r) (client_stats r).

(** The manager with its monitor, the events it keeps for the client, the lines printed so far and the
    readings of the clock. *)
Record SimpleEventManager := mkSimpleManager {
  monitor : CustomMonitor;
  mgr_events : list Event;
  printed : list Msg;
  readings : nat;
}.
#[global] Instance eta_SimpleEventManager : Eta SimpleEventManager := λ r,
  mkSimpleManager (monitor r) (mgr_events r) (printed r) (readings r).

Inductive BrokerEventResult := Handled | Forward.

(** [Event::name] *)
Definition event_name (e : Event) : string :=
  match e with
  | NewTestcase _ _ _ _ _ => "Testcase"
  | UpdateExecStats _ _ => "Client Heartbeat"
  | UpdateUserStats _ _ => "UserStats"
  | Objective _ _ => "Objective"
  | Log _ _ => "Log"
  | Stop => "Stop"
  end.

(** ** The messages of BOFuzz *)

Record FeaturesInfo := mkFeaturesInfo {
  fi_enabled : bool;
  fi_active : bool;
  fi_feat_exists : bool;
  fi_feat_mode : u64;
  fi_alpha : f64;
  fi_beta : f64;
  fi_gmin : f64;
  fi_gmax : f64;
  fi_use_tanh : bool;
  fi_active_dim : u64;
  fi_v_candidates_len : u64;
  fi_current_v : chars;
  fi_feat0 : f64;
  fi_path_w : f64;
  fi_factor : f64;
}.
#[global] Instance eta_FeaturesInfo : Eta FeaturesInfo := λ r,
  mkFeaturesInfo (fi_enabled r) (fi_active r) (fi_feat_exists r) (fi_feat_mode r) (fi_alpha r) (fi_beta r)
    (fi_gmin r) (fi_gmax r) (fi_use_tanh r) (fi_active_dim r) (fi_v_candidates_len r) (fi_current_v r)
    (fi_feat0 r) (fi_path_w r) (fi_factor r).
Definition FeaturesInfo_default : FeaturesInfo :=
  mkFeaturesInfo false false false 0 f0 f0 f0 f0 false 0 0 [] f0 f0 f0.

Record TpeInfo := mkTpeInfo {
  ti_reward : f64;
  ti_cov : f64;
  ti_trials : u64;
  ti_corpus : u64;
  ti_alpha : f64;
  ti_v_norm : f64;
  ti_active_dim : u64;
  ti_vec : chars;
  ti_bw : f64;
  ti_gamma : f64;
  ti_samples : u64;
  ti_period : chars;
}.
#[global] Instance eta_TpeInfo : Eta TpeInfo := λ r,
  mkTpeInfo (ti_reward r) (ti_cov r) (ti_trials r) (ti_corpus r) (ti_alpha r) (ti_v_norm r)
    (ti_active_dim r) (ti_vec r) (ti_bw r) (ti_gamma r) (ti_samples r) (ti_period r).
Definition TpeInfo_default : TpeInfo := mkTpeInfo f0 f0 0 0 f0 f0 0 [] f0 f0 0 [].

Fixpoint find_char (c : ascii) (l : chars) : option nat :=
  match l with
  | [] => None
  | c' :: l => if Ascii.eqb c' c then Some 0 else S <$> find_char c l
  end.

Definition strip_prefix_bracket (s : chars) : option chars :=
  match s with
  | [] => None
  | c :: _ =>
    if negb (Ascii.eqb c "[") then Some s
    else idx ← find_char "]" s; Some (trim_start (drop (S idx) s))
  end.

(** [splitn(2, '=')] yields a second part only when there is a separator. *)
Definition split_kv (seg : chars) : option (chars * chars) :=
  '(k, v) ← split_once "=" seg; Some (trim k, trim v).

Definition parse_bool (s : chars) : bool :=
  let s := of_chars s in
  String.eqb s "1" || String.eqb s "true" || String.eqb s "True" || String.eqb s "TRUE" ||
  String.eqb s "yes" || String.eqb s "Yes" || String.eqb s "on" || String.eqb s "On".

(** [trim_end_matches] of a character. *)
Fixpoint strip_start (c : ascii) (l : chars) : chars :=
  match l with
  | [] => []
  | c' :: l' => if Ascii.eqb c' c then strip_start c l' else l
  end.
Definition trim_end_matches (c : ascii) (l : chars) : chars := reverse (strip_start c (reverse l)).

Definition parse_num (s : chars) : f64 := default f_nan (parse_f64 (trim_end_matches "%" s)).

Definition parse_trailing_num (s : chars) : f64 :=
  match find_char "=" (reverse s) with
  | Some k => parse_num (drop (length s - k) s)
  | None => parse_num s
  end.

(** [v.parse().ok().unwrap_or(0)] at [u64] *)
Definition parse_u64 (v : chars) : u64 := default 0%Z (parse_uint u64_max v).

Definition set_feature (k v : chars) (out : FeaturesInfo) : FeaturesInfo :=
  let key s := String.eqb (of_chars k) s in
  if key "enabled" then out <| fi_enabled := parse_bool v |>
  else if key "active" then out <| fi_active := parse_bool v |>
  else if key "feat_exists" then out <| fi_feat_exists := parse_bool v |>
  else if key "feat_mode" then out <| fi_feat_mode := parse_u64 v |>
  else if key "alpha" then out <| fi_alpha := parse_num v |>
  else if key "beta" then out <| fi_beta := parse_num v |>
  else if key "gmin" then out <| fi_gmin := parse_num v |>
  else if key "gmax" then out <| fi_gmax := parse_num v |>
  else if key "use_tanh" then out <| fi_use_tanh := parse_bool v |>
  else if key "active_dim" then out <| fi_active_dim := parse_u64 v |>
  else if key "v_candidates_len" then out <| fi_v_candidates_len := parse_u64 v |>
  else if key "current_v" then out <| fi_current_v := v |>
  else if key "feat0" then out <| fi_feat0 := parse_num v |>
  else if key "path_w" then out <| fi_path_w := parse_num v |>
  else if key "factor" then out <| fi_factor := parse_num v |>
  else out.

Definition set_tpe (k v : chars) (out : TpeInfo) : TpeInfo :=
  let key s := String.eqb (of_chars k) s in
  if key "reward" then out <| ti_reward := parse_trailing_num v |>
  else if key "Coverage" then out <| ti_cov := parse_trailing_num v |>
  else if key "trials" then out <| ti_trials := parse_u64 v |>
  else if key "corpus" then out <| ti_corpus := parse_u64 v |>
  else if key "alpha" then out <| ti_alpha := parse_num v |>
  else if key "v_norm" then out <| ti_v_norm := parse_num v |>
  else if key "active_dim" then out <| ti_active_dim := parse_u64 v |>
  else if key "v" then out <| ti_vec := v |>
  else if key "bw" then out <| ti_bw := parse_num v |>
  else if key "gamma" then out <| ti_gamma := parse_num v |>
  else if key "samples" then out <| ti_samples := parse_u64 v |>
  else if key "period" then out <| ti_period := v |>
  else out.

(** The loop over the segments of a message: a segment without [=] makes it fail. *)
Fixpoint feed {A} (set : chars → chars → A → A) (segs : list chars) (out : A) : option A :=
  match segs with
  | [] => Some out
  | seg :: segs =>
    match split_kv (trim seg) with
    | None => None
    | Some (k, v) => feed set segs (set k v out)
    end
  end.

Definition parse_features_info (s : chars) : option FeaturesInfo :=
  kv_part ← strip_prefix_bracket s; feed set_feature (split "," kv_part) FeaturesInfo_default.
Definition parse_tpe_info (s : chars) : option TpeInfo :=
  kv_part ← strip_prefix_bracket s; feed set_tpe (split "," kv_part) TpeInfo_default.

Abbreviation AChars s := (AStr (of_chars s)) (only parsing).

(** The lines for the three messages of BOFuzz. *)
Definition features_line (s : Msg) : Msg :=
  match parse_features_info (render s) with
  | Some p => fmt "[BOFuzz features-info] enabled={} active={} mode={} exists={} α={:.2} β={:.2} g=[{:.2},{:.2}] tanh={} active_dim={} v_cands={} feat0={:.3} path_w={:.3} factor={:.3} v={}"
      [ABool (fi_enabled p); ABool (fi_active p); AInt (fi_feat_mode p); ABool (fi_feat_exists p);
       AFloat 2 (fi_alpha p); AFloat 2 (fi_beta p); AFloat 2 (fi_gmin p); AFloat 2 (fi_gmax p); ABool (fi_use_tanh p);
       AInt (fi_active_dim p); AInt (fi_v_candidates_len p); AFloat 3 (fi_feat0 p); AFloat 3 (fi_path_w p);
       AFloat 3 (fi_factor p); AChars (fi_current_v p)]
  | None => fmt "[BOFuzz features-info] {}" [AMsg s]
  end.
Definition tpe_line (s : Msg) : Msg :=
  match parse_tpe_info (render s) with
  | Some p => fmt "[BOFuzz tpe-info] ΔEdges={:.1} Coverage={} trials={} corpus={} α={:.2} ‖v‖={:.2} active_dim={} bw={:.2} γ={:.2} samples={} period={} v={}"
      [AFloat 1 (ti_reward p); ADisplay (ti_cov p); AInt (ti_trials p); AInt (ti_corpus p); AFloat 2 (ti_alpha p);
       AFloat 2 (ti_v_norm p); AInt (ti_active_dim p); AFloat 2 (ti_bw p); AFloat 2 (ti_gamma p); AInt (ti_samples p);
       AChars (ti_period p); AChars (ti_vec p)]
  | None => fmt "[BOFuzz tpe-info] {}" [AMsg s]
  end.

(** [str::lines]: the parts between newlines, without a carriage return at their ends; a last empty part is
    not a line. *)
Definition chomp (l : chars) : chars :=
  match last l with
  | Some c => if Ascii.eqb c (ascii_of_nat 13) then take (length l - 1) l else l
  | None => l
  end.
Definition lines (l : chars) : list chars :=
  let parts := split (ascii_of_nat 10) l in
  chomp <$> match last parts with Some [] => take (length parts - 1) parts | _ => parts end.
Definition trials_lines (s : Msg) : list Msg := (λ l, fmt "{}" [AChars l]) <$> lines (render s).

(** ** The operations *)

Section Manager.
Context `{Stopwatch} `{Env}.
Abbreviation Mgr A := (M SimpleEventManager A).

Definition read_clock : Mgr Duration := λ m, (Ok (time_at (readings m)), m <| readings := S (readings m) |>).
Definition print (line : Msg) : Mgr () := modify (λ m, m <| printed := printed m ++ [line] |>).
Definition clients (m : SimpleEventManager) : list ClientStats := client_stats (monitor m).
Definition set_clients (l : list ClientStats) (m : SimpleEventManager) : SimpleEventManager :=
  m <| monitor := (monitor m) <| client_stats := l |> |>.

(** [client_stats_mut_for]: indexing panics out of range. *)
Definition client_stats_for (id : nat) : Mgr ClientStats :=
  l <- gets clients ;; match l !! id with Some c => ret c | None => panic end.
Definition change_client (id : nat) (f : ClientStats → ClientStats) : Mgr () :=
  c <- client_stats_for id ;; modify (λ m, set_clients (<[id := f c]> (clients m)) m).

Definition client_stats_insert (id : nat) : Mgr () :=
  modify (λ m, set_clients (clients m ++ replicate (S id - length (clients m)) ClientStats_default) m) ;;;
  new_stat <- client_stats_for id ;;
  if cs_enabled new_stat then ret ()
  else
    timestamp <- read_clock ;;
    change_client id (λ c, c <| cs_start_time := timestamp |> <| cs_last_window_time := timestamp |> <| cs_enabled := true |>).

Definition sum_u64 (f : ClientStats → u64) (l : list ClientStats) : u64 :=
  foldl (λ acc x, wrap64 (acc + f x)) 0%Z l.
Definition client_stats_count (l : list ClientStats) : nat := length (filter (λ c, cs_enabled c = true) l).

Definition execs_per_sec : Mgr f64 :=
  cur_time <- read_clock ;;
  gets (λ m, foldl (λ acc x, fadd acc (client_execs_per_sec cur_time x)) f0 (clients m)).

Definition format_duration_hms (d : Duration) : Msg :=
  let secs := (d / 1000000000)%Z in
  fmt "{}h-{}m-{}s" [AInt (secs / 60 / 60); AInt (secs / 60 mod 60); AInt (secs mod 60)].

(** The line every event gets. *)
Definition status_line (event_msg : string) (sender_id : nat) : Mgr () :=
  now <- read_clock ;;
  start <- gets (λ m, mon_start_time (monitor m)) ;;
  if (now <? start)%Z then panic
  else
    l <- gets clients ;;
    rate <- execs_per_sec ;;
    print (fmt "[{} #{}] run time: {}, clients: {}, corpus: {}, objectives: {}, executions: {}, exec/sec: {}"
      [AStr event_msg; ANat sender_id; AMsg (format_duration_hms (now - start)); ANat (client_stats_count l);
       AInt (sum_u64 cs_corpus_size l); AInt (sum_u64 cs_objective_size l); AInt (sum_u64 cs_executions l);
       AMsg (prettify_float rate)]).

Definition special (name : string) : bool :=
  String.eqb name "features-info" || String.eqb name "tpe-info" || String.eqb name "tpe-trials".

(** The other user statistics, in the order of the hash map. *)
Definition user_lines (client : ClientStats) : list Msg :=
  (λ kv : string * UserStats, fmt "[{}] {}" [AStr kv.1; AMsg (display_value (stat_value kv.2))]) <$>
  filter (λ kv : string * UserStats, special kv.1 = false) (hash_order (map_to_list (user_monitor client))).

(** Take one of the messages out of the map and print it. *)
Definition message_lines (name : string) (u : option UserStats) : list Msg :=
  match stat_value <$> u with
  | Some (StatString s) =>
    if String.eqb name "features-info" then [features_line s]
    else if String.eqb name "tpe-info" then [tpe_line s]
    else trials_lines s
  | _ => []
  end.
Definition remove_stat (id : nat) (name : string) : Mgr (list Msg) :=
  client <- client_stats_for id ;;
  change_client id (λ c, c <| user_monitor := delete name (user_monitor c) |>) ;;;
  ret (message_lines name (user_monitor client !! name)).

Definition display (event_msg : string) (sender_id : nat) : Mgr () :=
  status_line event_msg sender_id ;;;
  print_user <- gets (λ m, print_user_monitor (monitor m)) ;;
  client_stats_insert sender_id ;;;
  client <- client_stats_for sender_id ;;
  let l0 := if print_user : bool then user_lines client else [] in
  l1 <- remove_stat sender_id "features-info" ;;
  l2 <- remove_stat sender_id "tpe-info" ;;
  l3 <- remove_stat sender_id "tpe-trials" ;;
  modify (λ m, m <| printed := printed m ++ l0 ++ l1 ++ l2 ++ l3 |>).

(** [SimpleEventManager::handle_in_broker]: the only client is number 0. *)
Definition handle_in_broker (e : Event) : Mgr BrokerEventResult :=
  match e with
  | NewTestcase _ _ _ corpus_size _ =>
    client_stats_insert 0 ;;;
    time <- read_clock ;;
    change_client 0 (λ c, c <| cs_corpus_size := Z.of_nat corpus_size |> <| cs_last_corpus_time := time |>) ;;;
    display (event_name e) 0 ;;;
    ret Handled
  | UpdateExecStats _ executions =>
    client_stats_insert 0 ;;;
    change_client 0 (update_executions executions) ;;;
    display (event_name e) 0 ;;;
    ret Handled
  | UpdateUserStats name value =>
    client_stats_insert 0 ;;;
    change_client 0 (update_user_stats name value) ;;;
    display (event_name e) 0 ;;;
    ret Handled
  | Objective objective_size _ =>
    client_stats_insert 0 ;;;
    change_client 0 (update_objective_size (Z.of_nat objective_size)) ;;;
    display (event_name e) 0 ;;;
    ret Handled
  | Log _ _ => ret Handled
  | Stop => ret Forward
  end.

Definition mgr_fire (e : Event) : Mgr () :=
  r <- handle_in_broker e ;;
  match r with
  | Forward => modify (λ m, m <| mgr_events := mgr_events m ++ [e] |>)
  | Handled => ret ()
  end.

Fixpoint fire_all (es : list Event) : Mgr () :=
  match es with
  | [] => ret ()
  | e :: es => mgr_fire e ;;; fire_all es
  end.

Definition CustomMonitor_new : Mgr () :=
  start <- read_clock ;;
  modify (λ m, m <| monitor := mkCustomMonitor start false [] |>).
Definition CustomMonitor_with_user_monitor : Mgr () :=
  start <- read_clock ;;
  modify (λ m, m <| monitor := mkCustomMonitor start true [] |>).

(** ** The client's side: the events that come back, and the reports of progress *)

Definition handle_in_client (e : Event) : M State () :=
  match e with
  | Stop => modify (λ s, s <| stop_requested := true |>)
  | _ => throw (unknown "Received illegal message that message should not have arrived: {event:?}." [])
  end.

(** The manager and the state of the fuzzer. *)
Record Session := mkSession { ses_mgr : SimpleEventManager; ses_state : State }.
#[local] Instance eta_Session : Eta Session := λ r, mkSession (ses_mgr r) (ses_state r).
Definition on_mgr {A} (m : Mgr A) : M Session A := λ w,
  let '(r, g) := m (ses_mgr w) in (r, w <| ses_mgr := g |>).
Definition on_ses {A} (m : M State A) : M Session A := λ w,
  let '(r, s) := m (ses_state w) in (r, w <| ses_state := s |>).

(** [Vec::pop] takes the newest event first; an error leaves the rest. *)
Fixpoint process_loop (evs : list Event) : M Session () :=
  match evs with
  | [] => on_mgr (modify (λ m, m <| mgr_events := [] |>))
  | e :: evs =>
    on_mgr (modify (λ m, m <| mgr_events := reverse evs |>)) ;;;
    on_ses (handle_in_client e) ;;;
    process_loop evs
  end.
Definition process : M Session nat :=
  evs <- gets (λ w, mgr_events (ses_mgr w)) ;;
  process_loop (reverse evs) ;;;
  ret (length evs).

Definition std_report_progress : M Session () :=
  executions <- gets (λ w, executions (ses_state w)) ;;
  cur <- on_mgr read_clock ;;
  on_mgr (mgr_fire (UpdateExecStats cur executions)) ;;;
  on_ses (modify (λ s, s <| last_report_time := Some cur |>)).

Definition std_maybe_report_progress (monitor_timeout : Duration) : M Session () :=
  last <- gets (λ w, last_report_time (ses_state w)) ;;
  match last with
  | None =>
    now <- on_mgr read_clock ;;
    on_ses (modify (λ s, s <| last_report_time := Some now |>))
  | Some last_report_time =>
    cur <- on_mgr read_clock ;;
    if (monitor_timeout <? Z.max 0 (cur - last_report_time))%Z then std_report_progress else ret ()
  end.
End Manager.

(** ** The manager's runs *)

Section ManagerFacts.
Context `{Stopwatch} `{Env}.
Implicit Types m : SimpleEventManager.

(** What the manager shows of its only client. *)
Definition client_of m : ClientStats := default ClientStats_default (clients m !! 0).
Definition numbers (c : ClientStats) := (cs_corpus_size c, cs_objective_size c, cs_executions c, prev_state_executions c, user_monitor c).

(** The messages of BOFuzz are gone once they have been shown. *)
Definition no_message (c : ClientStats) : Prop := ∀ name, special name = true → user_monitor c !! name = None.

Record mgr_inv m : Prop := {
  inv_clients : clients m = [] ∨ ∃ c, clients m = [c] ∧ cs_enabled c = true ∧ no_message c;
  inv_quiet : print_user_monitor (monitor m) = false;
  inv_events : Forall (eq Stop) (mgr_events m);
}.

(** [current_time] is the system's clock, which can be set: it is not set back behind the start of the monitor. *)
Definition steady m : Prop := ∀ k, readings m ≤ k → (mon_start_time (monitor m) ≤ time_at k)%Z.
(** Since when the client's rate of executions is measured. *)
Definition window m : Duration :=
  match clients m with [] => time_at (readings m) | c :: _ => cs_last_window_time c end.

(** Apart from the client's numbers and the output, nothing changes but the time. *)
Record calm m m' : Prop := {
  calm_start : mon_start_time (monitor m') = mon_start_time (monitor m);
  calm_quiet : print_user_monitor (monitor m') = print_user_monitor (monitor m);
  calm_events : mgr_events m' = mgr_events m;
  calm_time : readings m ≤ readings m';
}.
#[local] Instance calm_preorder : PreOrder calm.
Proof. split; [by split|]. intros ? ? ? [] []. split; [congruence..|lia]. Qed.

Lemma calm_steady m m' : calm m m' → steady m → steady m'.
Proof. intros [E _ _ Hr] Hs k Hk. rewrite E. apply Hs. lia. Qed.
Lemma calm_set l m : calm m (set_clients l m).
Proof. by split. Qed.
Lemma set_clients_same m : set_clients (clients m) m = m.
Proof. by destruct m as [[]]. Qed.
Lemma clients_set l m : clients (set_clients l m) = l.
Proof. done. Qed.

Lemma client_one m c : clients m = [c] → client_stats_for 0 m = (Ok c, m).
Proof. intros E. unfold client_stats_for. by rewrite bind_gets, E. Qed.

Lemma change_one m c f : clients m = [c] → change_client 0 f m = (Ok (), set_clients [f c] m).
Proof. intros E. unfold change_client, bind. rewrite (client_one _ _ E). unfold modify. by rewrite E. Qed.

Lemma insert_again m c : clients m = [c] → cs_enabled c = true → client_stats_insert 0 m = (Ok (), m).
Proof.
  intros E He. unfold client_stats_insert. rewrite bind_modify, E. cbn [length Nat.sub replicate]. rewrite app_nil_r, <-E, set_clients_same.
  unfold bind. by rewrite (client_one _ _ E), He.
Qed.

Lemma insert_first m : mgr_inv m → ∃ m' c, client_stats_insert 0 m = (Ok (), m') ∧ clients m' = [c] ∧ cs_enabled c = true ∧
  numbers c = numbers (client_of m) ∧ cs_last_window_time c = window m ∧ no_message c ∧ calm m m' ∧ printed m' = printed m.
Proof.
  intros [Hc _ _]. unfold window. destruct Hc as [E|(c & E & He & Hn)].
  - unfold client_stats_insert. rewrite bind_modify, E. cbn [length Nat.sub replicate app].
    set (m1 := set_clients [ClientStats_default] m). assert (clients m1 = [ClientStats_default]) as E1 by done.
    unfold bind at 1. rewrite (client_one _ _ E1). cbn [cs_enabled ClientStats_default]. unfold bind, read_clock.
    rewrite (change_one _ ClientStats_default) by done. eexists _, _. split; [done|].
    split_and!; [done|done|by unfold client_of; rewrite E|done|by intros ? ?|split; cbn; by auto|done].
  - exists m, c. rewrite (insert_again m c E He). unfold client_of. rewrite E. done.
Qed.

(** The numbers on the screen: entries of the corpus, objectives, and executions with those of earlier processes. *)
Record Board := mkBoard { b_corpus : u64; b_objectives : u64; b_executions : u64 * u64 }.
Definition board_of (c : ClientStats) : Board :=
  mkBoard (cs_corpus_size c) (cs_objective_size c) (cs_executions c, prev_state_executions c).
Definition board m : Board := board_of (client_of m).
Definition board_small (b : Board) : Prop := is_u64 (b_corpus b) ∧ is_u64 (b_objectives b) ∧ is_u64 (b_executions b).1.

(** The status line of an event, with the two readings of the clock it takes, for the client measured since [w]. *)
Definition rate_since (w cur : Duration) (executions : u64) : f64 :=
  client_execs_per_sec cur (ClientStats_default <| cs_executions := executions |> <| cs_last_window_time := w |>).
Definition status_text (start w : Duration) (t : Duration * Duration) (b : Board) (e : Event) : Msg :=
  fmt "[{} #{}] run time: {}, clients: {}, corpus: {}, objectives: {}, executions: {}, exec/sec: {}"
    [AStr (event_name e); ANat 0; AMsg (format_duration_hms (t.1 - start)); ANat 1; AInt (b_corpus b); AInt (b_objectives b);
     AInt (b_executions b).1; AMsg (prettify_float (fadd f0 (rate_since w t.2 (b_executions b).1)))].

Lemma status_ok e m c : clients m = [c] → cs_enabled c = true → board_small (board_of c) →
  (mon_start_time (monitor m) ≤ time_at (readings m))%Z →
  ∃ m', status_line (event_name e) 0 m = (Ok (), m') ∧
    printed m' = printed m ++ [status_text (mon_start_time (monitor m)) (cs_last_window_time c)
      (time_at (readings m), time_at (S (readings m))) (board_of c) e] ∧
    clients m' = [c] ∧ calm m m' ∧ readings m' = S (S (readings m)).
Proof.
  intros E He (S1 & S2 & S3) Hs. unfold status_line, bind at 1, read_clock at 1. rewrite bind_gets.
  cbn [monitor upd eta_SimpleEventManager]. assert ((time_at (readings m) <? mon_start_time (monitor m)) = false)%Z as -> by (apply Z.ltb_ge; lia).
  rewrite bind_gets. change (clients (m <| readings := S (readings m) |>)) with (clients m). rewrite E.
  unfold execs_per_sec, bind, read_clock, gets, print, modify. cbn [readings upd eta_SimpleEventManager].
  change (clients (m <| readings := S (readings m) |> <| readings := S (S (readings m)) |>)) with (clients m). rewrite E. eexists. split; [reflexivity|].
  split_and!; [|exact E|split; cbn; by auto|done]. cbn [printed upd eta_SimpleEventManager]. do 2 f_equal. unfold status_text, sum_u64. cbn [foldl].
  unfold board_small, board_of in *. cbn [b_corpus b_objectives b_executions fst snd] in *. rewrite !wrap64_small by (done || by rewrite Z.add_0_l).
  unfold client_stats_count. by rewrite filter_cons_True by done.
Qed.

Lemma remove_one name m c : clients m = [c] →
  remove_stat 0 name m = (Ok (message_lines name (user_monitor c !! name)), set_clients [c <| user_monitor := delete name (user_monitor c) |>] m).
Proof. intros E. unfold remove_stat, bind. by rewrite (client_one _ _ E), (change_one _ _ _ E). Qed.

(** The lines for the messages a client holds, and the client without them. *)
Definition told (c : ClientStats) : list Msg :=
  message_lines "features-info" (user_monitor c !! "features-info"%string) ++
  message_lines "tpe-info" (user_monitor c !! "tpe-info"%string) ++
  message_lines "tpe-trials" (user_monitor c !! "tpe-trials"%string).
Definition forget (c : ClientStats) : ClientStats :=
  c <| user_monitor := delete "tpe-trials"%string (delete "tpe-info"%string (delete "features-info"%string (user_monitor c))) |>.

Lemma forget_no_message c : no_message (forget c).
Proof.
  intros name Hn. cbn. unfold special in Hn.
  apply orb_true_iff in Hn as [Hn|Hn]; [apply orb_true_iff in Hn as [Hn|Hn]|]; apply String.eqb_eq in Hn as ->;
    by rewrite ?lookup_delete_eq, ?(lookup_delete_ne _ "tpe-trials"), ?(lookup_delete_ne _ "tpe-info"), ?lookup_delete_eq by done.
Qed.

Lemma display_ok e m c : clients m = [c] → cs_enabled c = true → board_small (board_of c) → print_user_monitor (monitor m) = false →
  steady m →
  ∃ i m', display (event_name e) 0 m = (Ok (), m') ∧ readings m ≤ i < readings m' ∧
    printed m' = printed m ++ status_text (mon_start_time (monitor m)) (cs_last_window_time c) (time_at i, time_at (S i)) (board_of c) e :: told c ∧
    clients m' = [forget c] ∧ calm m m'.
Proof.
  intros E He Hb Hq Hs. destruct (status_ok e m c E He Hb (Hs _ (Nat.le_refl _))) as (m1 & E1 & Hp & Ec & Hc & Hr).
  unfold display, bind at 1. rewrite E1, bind_gets. rewrite (calm_quiet _ _ Hc), Hq.
  unfold bind at 1. rewrite (insert_again m1 c Ec He). unfold bind at 1. rewrite (client_one m1 c Ec).
  unfold bind at 1. rewrite (remove_one _ _ _ Ec). unfold bind at 1. erewrite remove_one by reflexivity.
  unfold bind at 1. erewrite remove_one by reflexivity. unfold modify. eexists (readings m), _. split; [reflexivity|].
  split_and!; [done|cbn; rewrite Hr; lia| |done|by rewrite Hc]. cbn. rewrite Hp, <-app_assoc. cbn [app]. f_equal. f_equal. unfold told.
  by rewrite ?lookup_delete_ne by done.
Qed.

(** The statistics an event brings to the client. *)
Definition brings (e : Event) (time : Duration) (c : ClientStats) : ClientStats :=
  match e with
  | NewTestcase _ _ _ n _ => c <| cs_corpus_size := Z.of_nat n |> <| cs_last_corpus_time := time |>
  | UpdateExecStats _ n => update_executions n c
  | UpdateUserStats name value => update_user_stats name value c
  | Objective n _ => update_objective_size (Z.of_nat n) c
  | _ => c
  end.
Definition visible (e : Event) : bool := match e with Log _ _ | Stop => false | _ => true end.

Lemma brings_enabled e t c : cs_enabled (brings e t c) = cs_enabled c.
Proof. destruct e; try done. cbn. unfold update_executions. by case_match. Qed.

Lemma brings_window e t c : cs_last_window_time (brings e t c) = cs_last_window_time c.
Proof. destruct e; try done. cbn. unfold update_executions. by case_match. Qed.

(** A count that fits its machine integer. *)
Definition fits (e : Event) : Prop :=
  match e with
  | NewTestcase _ _ _ n _ => is_u64 (Z.of_nat n)
  | Objective n _ => is_u64 (Z.of_nat n)
  | UpdateExecStats _ n => is_u64 n
  | _ => True
  end.
(** The numbers after an event: the sizes are those it reports; a count of executions that falls behind what is shown is that of
    a new process. *)
Definition executions_after (x : u64 * u64) (n : u64) : u64 * u64 :=
  let p := if (wrap64 (x.2 + n) <? x.1)%Z then x.1 else x.2 in (wrap64 (p + n), p).
Definition board_after (b : Board) (e : Event) : Board :=
  match e with
  | NewTestcase _ _ _ n _ => mkBoard (Z.of_nat n) (b_objectives b) (b_executions b)
  | Objective n _ => mkBoard (b_corpus b) (Z.of_nat n) (b_executions b)
  | UpdateExecStats _ n => mkBoard (b_corpus b) (b_objectives b) (executions_after (b_executions b) n)
  | _ => b
  end.
Lemma board_after_small b e : board_small b → fits e → board_small (board_after b e).
Proof. intros (B1 & B2 & B3). destruct e; cbn; try done. intros _. split_and!; [done..|apply wrap64_is_u64]. Qed.
Lemma brings_board e t c : board_of (brings e t c) = board_after (board_of c) e.
Proof. destruct e; try done. cbn. unfold update_executions, board_of, executions_after. cbn. by case_match. Qed.

Lemma broker_ok e m : mgr_inv m → steady m → board_small (board m) → fits e → visible e = true →
  ∃ i t c m', handle_in_broker e m = (Ok Handled, m') ∧ readings m ≤ i < readings m' ∧
    board_of c = board m ∧ cs_last_window_time c = window m ∧ no_message c ∧ cs_enabled c = true ∧
    printed m' = printed m ++ status_text (mon_start_time (monitor m)) (window m) (time_at i, time_at (S i)) (board_after (board m) e) e ::
      told (brings e t c) ∧
    clients m' = [forget (brings e t c)] ∧ calm m m'.
Proof.
  intros Hi Hst Hb Hf Hv. destruct (insert_first m Hi) as (m1 & c & E1 & Ec & He & Hn & Hw & Hm & Hc & Hp). destruct Hi as [_ Hq _].
  assert (board_of c = board m) as Hbc by (unfold board, board_of; injection Hn as N1 N2 N3 N4 _; congruence).
  assert (∀ t m2, calm m m2 → printed m2 = printed m → clients m2 = [brings e t c] →
    ∃ i m', display (event_name e) 0 m2 = (Ok (), m') ∧ readings m ≤ i < readings m' ∧
      printed m' = printed m ++ status_text (mon_start_time (monitor m)) (window m) (time_at i, time_at (S i)) (board_after (board m) e) e ::
        told (brings e t c) ∧
      clients m' = [forget (brings e t c)] ∧ calm m m') as Hshow.
  { intros t m2 Hc2 Hp2 Ec2. destruct (display_ok e m2 (brings e t c)) as (i & m' & E & Hr & Hp' & Ec' & Hc'); [done|..].
    - by rewrite brings_enabled.
    - rewrite brings_board, Hbc. by apply board_after_small.
    - by rewrite (calm_quiet _ _ Hc2).
    - by eapply calm_steady.
    - exists i, m'. split; [done|]. pose proof (calm_time _ _ Hc2). split; [lia|]. split; [|split; [done|by rewrite Hc2]].
      by rewrite Hp', Hp2, brings_window, brings_board, Hbc, Hw, (calm_start _ _ Hc2). }
  destruct e; try discriminate Hv; unfold handle_in_broker, bind at 1; rewrite E1.
  - unfold bind at 1. rewrite (change_one _ _ _ Ec). destruct (Hshow 0%Z (set_clients [update_executions executions c] m1)) as (i & m' & E & Hr); [by rewrite Hc|done|done|].
    exists i, 0%Z, c, m'. unfold bind at 1. rewrite E. naive_solver.
  - unfold bind at 1. rewrite (change_one _ _ _ Ec). destruct (Hshow 0%Z (set_clients [update_user_stats name value c] m1)) as (i & m' & E & Hr); [by rewrite Hc|done|done|].
    exists i, 0%Z, c, m'. unfold bind at 1. rewrite E. naive_solver.
  - unfold bind at 1, read_clock. unfold bind at 1. rewrite (change_one _ c) by done. set (t := time_at (readings m1)).
    destruct (Hshow t (set_clients [c <| cs_corpus_size := Z.of_nat corpus_size |> <| cs_last_corpus_time := t |>] (m1 <| readings := S (readings m1) |>))) as (i & m' & E & Hr).
    + rewrite Hc. split; cbn; by auto.
    + done.
    + done.
    + exists i, t, c, m'. unfold bind at 1. rewrite E. naive_solver.
  - unfold bind at 1. rewrite (change_one _ _ _ Ec). destruct (Hshow 0%Z (set_clients [update_objective_size (Z.of_nat objective_size) c] m1)) as (i & m' & E & Hr); [by rewrite Hc|done|done|].
    exists i, 0%Z, c, m'. unfold bind at 1. rewrite E. naive_solver.
Qed.

(** A clock that stands before the start of the monitor makes the subtraction in the status line panic. *)
Lemma broker_panics e m : mgr_inv m → visible e = true → (∀ k, readings m ≤ k → (time_at k < mon_start_time (monitor m))%Z) →
  (handle_in_broker e m).1 = Panic.
Proof.
  intros Hi Hv Hback. destruct (insert_first m Hi) as (m1 & c & E1 & Ec & _ & _ & _ & _ & Hc & _).
  assert (∀ m2, calm m m2 → ∃ m', display (event_name e) 0 m2 = (Panic, m')) as Hshow.
  { intros m2 [Es _ _ Hr]. unfold display, status_line, bind, read_clock, gets. cbn [monitor upd eta_SimpleEventManager]. rewrite Es.
    assert ((time_at (readings m2) <? mon_start_time (monitor m)) = true)%Z as -> by (by apply Z.ltb_lt, Hback). by eexists. }
  destruct e; try discriminate Hv; unfold handle_in_broker, bind at 1; rewrite E1; unfold bind at 1.
  3: { unfold read_clock. unfold bind at 1. rewrite (change_one _ c) by done. unfold bind at 1.
       edestruct Hshow as [m' ->]; [|done]. rewrite Hc. split; cbn; by auto. }
  all: rewrite (change_one _ _ _ Ec); unfold bind at 1; edestruct Hshow as [m' ->]; [|done]; by rewrite Hc.
Qed.

(** The lines an event adds below its status line: those of its message, if it brings one. *)
Definition shown (e : Event) : list Msg :=
  match e with
  | UpdateUserStats name value => if special name then message_lines name (Some value) else []
  | _ => []
  end.

Lemma told_shown e t c : no_message c → told (brings e t c) = shown e.
Proof.
  intros Hn. unfold told. destruct e; cbn [brings shown]; try (by cbn; rewrite !Hn by done).
  - assert (user_monitor (update_executions executions c) = user_monitor c) as -> by (unfold update_executions; by case_match).
    by rewrite !Hn by done.
  - cbn [update_user_stats user_monitor upd eta_ClientStats]. unfold special.
    destruct (String.eqb_spec name "features-info") as [->|H1].
    { by rewrite lookup_insert_eq, !lookup_insert_ne, !Hn, app_nil_r by done. }
    destruct (String.eqb_spec name "tpe-info") as [->|H2].
    { by rewrite lookup_insert_eq, !lookup_insert_ne, !Hn, app_nil_r by done. }
    destruct (String.eqb_spec name "tpe-trials") as [->|H3].
    { by rewrite lookup_insert_eq, !lookup_insert_ne, !Hn by done. }
    by rewrite !lookup_insert_ne, !Hn by done.
Qed.

Lemma fire_visible e m : mgr_inv m → steady m → board_small (board m) → fits e → visible e = true →
  ∃ i m', mgr_fire e m = (Ok (), m') ∧ mgr_inv m' ∧ steady m' ∧ mon_start_time (monitor m') = mon_start_time (monitor m) ∧
    readings m ≤ i < readings m' ∧ window m' = window m ∧
    printed m' = printed m ++ status_text (mon_start_time (monitor m)) (window m) (time_at i, time_at (S i)) (board_after (board m) e) e :: shown e ∧
    mgr_events m' = mgr_events m ∧ board m' = board_after (board m) e.
Proof.
  intros Hi Hst Hb Hf Hv. destruct (broker_ok e m Hi Hst Hb Hf Hv) as (i & t & c & m' & E & Hr & Hbc & Hw & Hm & He & Hp & Ec & Hc).
  exists i, m'. unfold mgr_fire, bind. rewrite E. split; [done|]. split; [|split; [by eapply calm_steady|split; [apply (calm_start _ _ Hc)|]]].
  - destruct Hi as [_ Hq Hev]. split.
    + right. eexists. split; [exact Ec|]. split; [|apply forget_no_message]. cbn. by rewrite brings_enabled.
    + by rewrite (calm_quiet _ _ Hc).
    + by rewrite (calm_events _ _ Hc).
  - split_and!; [lia|lia| |by rewrite Hp, told_shown|apply (calm_events _ _ Hc)|].
    + unfold window at 1. rewrite Ec. cbn. by rewrite brings_window.
    + unfold board at 1, client_of. rewrite Ec. cbn [default lookup list_lookup]. rewrite <-Hbc. apply (brings_board e t c).
Qed.

Definition is_stop (e : Event) : bool := match e with Stop => true | _ => false end.
Abbreviation seen_events es := (filter (λ e, visible e = true) es).
Abbreviation stops es := (filter (λ e, is_stop e = true) es).

(** What a sequence of events puts on the screen, given the readings of the clock for the status lines: for every visible event its
    line, with the numbers as they stand after it, and below it the message it brings. *)
Fixpoint screen (start w : Duration) (b : Board) (es : list Event) (ts : list (Duration * Duration)) : list Msg :=
  match es with
  | [] => []
  | e :: es =>
    if visible e then
      match ts with
      | [] => []
      | t :: ts => (status_text start w t (board_after b e) e :: shown e) ++ screen start w (board_after b e) es ts
      end
    else screen start w b es ts
  end.
(** Two readings in a row. *)
Definition read_in m m' (t : Duration * Duration) : Prop :=
  ∃ i, readings m ≤ i < readings m' ∧ t = (time_at i, time_at (S i)).

Lemma fire_hidden e m : mgr_inv m → visible e = false →
  ∃ m', mgr_fire e m = (Ok (), m') ∧ mgr_inv m' ∧ calm (m <| mgr_events := mgr_events m ++ stops [e] |>) m' ∧
    clients m' = clients m ∧ readings m' = readings m ∧ printed m' = printed m.
Proof.
  intros Hi Hv. destruct e; try discriminate Hv.
  - exists m. split; [done|]. split; [done|]. split; [|done]. split; [done..| |done]. cbn. by rewrite app_nil_r.
  - eexists. split; [reflexivity|]. destruct Hi as [I1 I2 I3]. split; [|done]. split; [done..|]. cbn. apply Forall_app. by auto.
Qed.

Lemma fire_all_ok es m : mgr_inv m → steady m → board_small (board m) → Forall fits es →
  ∃ ts m', fire_all es m = (Ok (), m') ∧ mgr_inv m' ∧ board_small (board m') ∧ length ts = length (seen_events es) ∧
    readings m ≤ readings m' ∧ Forall (read_in m m') ts ∧
    printed m' = printed m ++ screen (mon_start_time (monitor m)) (window m) (board m) es ts ∧
    mgr_events m' = mgr_events m ++ stops es ∧ board m' = foldl board_after (board m) es.
Proof.
  intros Hi Hst Hs HF. revert m Hi Hst Hs. induction HF as [|e es He _ IH]; intros m Hi Hst Hs.
  { exists [], m. cbn. rewrite !app_nil_r. done. }
  cbn [fire_all foldl screen]. destruct (visible e) eqn:Hv.
  - destruct (fire_visible e m Hi Hst Hs He Hv) as (i & m1 & E & Hi1 & Hst1 & Es1 & Hr1 & Hw1 & Hp1 & He1 & Hb1).
    destruct (IH m1 Hi1 Hst1) as (ts & m' & E' & Hi' & Hs' & Hl & Hr & Hts & Hp & Hev & Hb); [rewrite Hb1; by apply board_after_small|].
    exists ((time_at i, time_at (S i)) :: ts), m'. unfold bind. rewrite E. rewrite filter_cons_True by done. cbn [length].
    assert (is_stop e = false) as Hstop by (by destruct e). rewrite (filter_cons_False _ e) by (by rewrite Hstop).
    split_and!; [exact E'|done|done|by rewrite Hl|lia| |by rewrite Hp, Hp1, Es1, Hw1, Hb1, <-app_assoc|by rewrite Hev, He1|by rewrite Hb, Hb1].
    constructor; [exists i; split; [lia|done]|]. eapply Forall_impl; [exact Hts|]. intros t (j & Hj & ->). exists j. split; [lia|done].
  - destruct (fire_hidden e m Hi Hv) as (m1 & E & Hi1 & Hc1 & Ec1 & Er1 & Hp1).
    assert (board m1 = board m ∧ window m1 = window m) as [Hb1 Hw1] by (unfold board, window, client_of; by rewrite Ec1, Er1).
    destruct (IH m1 Hi1) as (ts & m' & E' & Hi' & Hs' & Hl & Hr & Hts & Hp & Hev & Hb); [by eapply calm_steady|by rewrite Hb1|].
    exists ts, m'. unfold bind. rewrite E. rewrite (filter_cons_False _ e es) by (by rewrite Hv).
    assert (board_after (board m) e = board m) as -> by (by destruct e). rewrite <-Hb1, <-Hw1, <-Hp1, <-Er1.
    replace (mon_start_time (monitor m)) with (mon_start_time (monitor m1)) by apply (calm_start _ _ Hc1).
    split_and!; [exact E'|done|done|done|done| |done| |done].
    + eapply Forall_impl; [exact Hts|]. intros t (j & Hj & ->). exists j. by rewrite Er1 in Hj.
    + rewrite Hev, (calm_events _ _ Hc1). cbn [mgr_events upd eta_SimpleEventManager]. rewrite <-app_assoc. f_equal. by rewrite <-filter_app.
Qed.

(** ** Restarts *)

(** The reports of executions, process by process: within a process the count does not go down, and
    a new process starts below the last report of the one before. *)
Fixpoint restarts (before : option Z) (ss : list (list Z)) : Prop :=
  match ss with
  | [] => True
  | s :: ss =>
    s ≠ [] ∧ Sorted Z.le s ∧ (∀ l c, before = Some l → head s = Some c → (c < l)%Z) ∧ restarts (last s) ss
  end.
Definition final_count (s : list Z) : Z := default 0%Z (last s).
Definition total_of (ss : list (list Z)) : Z := foldr (λ s acc, final_count s + acc)%Z 0%Z ss.
Definition reports (es : list Event) : list Z :=
  omap (λ e, match e with UpdateExecStats _ n => Some n | _ => None end) es.
Lemma count_reports b es : b_executions (foldl board_after b es) = foldl executions_after (b_executions b) (reports es).
Proof. revert b. induction es as [|e es IH]; intros b; [done|]. cbn [foldl]. rewrite IH. by destruct e. Qed.

(** The reports cut where the count goes down. *)
Fixpoint runs (l : list Z) : list (list Z) :=
  match l with
  | [] => []
  | n :: l =>
    match runs l with
    | (b :: s) :: ss => if (n <=? b)%Z then (n :: b :: s) :: ss else [n] :: (b :: s) :: ss
    | ss => [n] :: ss
    end
  end.

Lemma sorted_first_last c s : Sorted Z.le (c :: s) → (c ≤ final_count (c :: s))%Z.
Proof.
  revert c. induction s as [|b s IH]; intros c Hs; [done|]. apply Sorted_inv in Hs as [Hs Hcb%HdRel_inv].
  etrans; [exact Hcb|]. apply (IH b Hs).
Qed.

Lemma count_session p a s : (0 ≤ p)%Z → (0 ≤ a)%Z → Sorted Z.le (a :: s) → (p + final_count (a :: s) ≤ u64_max)%Z →
  foldl executions_after ((p + a)%Z, p) s = ((p + final_count (a :: s))%Z, p).
Proof.
  revert a. induction s as [|b s IH]; intros a Hp Ha Hs Hm; [done|].
  apply Sorted_inv in Hs as [Hs Hab%HdRel_inv]. cbn [foldl].
  pose proof (sorted_first_last b s Hs) as Hb.
  change (final_count (a :: b :: s)) with (final_count (b :: s)) in *.
  assert (executions_after ((p + a)%Z, p) b = ((p + b)%Z, p)) as ->; [|by apply IH; [lia..|done|lia]].
  unfold executions_after, executions_after. cbn [fst snd]. rewrite (wrap64_small (p + b)) by (unfold is_u64; lia).
  assert ((p + b <? p + a) = false)%Z as -> by (apply Z.ltb_ge; lia). by rewrite wrap64_small by (unfold is_u64; lia).
Qed.

Lemma final_count_nonneg s : Forall (λ n, 0 ≤ n)%Z s → (0 ≤ final_count s)%Z.
Proof.
  intros HF. unfold final_count. destruct (last s) as [x|] eqn:E; [|done]. apply last_Some_elem_of in E.
  rewrite Forall_forall in HF. by apply HF.
Qed.

Lemma total_nonneg ss : Forall (Forall (λ n, 0 ≤ n)%Z) ss → (0 ≤ total_of ss)%Z.
Proof.
  induction 1 as [|s ss Hs _ IH]; [done|]. change (total_of (s :: ss)) with (final_count s + total_of ss)%Z.
  pose proof (final_count_nonneg s Hs). lia.
Qed.

Lemma count_restarts ss p l : (0 ≤ p)%Z → (0 ≤ l)%Z → Forall (Forall (λ n, 0 ≤ n)%Z) ss → restarts (Some l) ss →
  (p + l + total_of ss ≤ u64_max)%Z → (foldl executions_after ((p + l)%Z, p) (concat ss)).1 = (p + l + total_of ss)%Z.
Proof.
  revert p l. induction ss as [|s ss IH]; intros p l Hp Hl HF Hr Hm; [cbn; lia|].
  apply Forall_cons in HF as [Hs HF]. destruct Hr as (Hne & Hsort & Hlow & Hr). change (total_of (s :: ss)) with (final_count s + total_of ss)%Z in *.
  pose proof (total_nonneg ss HF). destruct s as [|c s]; [done|]. specialize (Hlow l c eq_refl eq_refl).
  apply Forall_cons in Hs as [Hc Hs]. pose proof (sorted_first_last c s Hsort) as Hcl.
  cbn [concat app foldl]. rewrite foldl_app.
  assert (executions_after ((p + l)%Z, p) c = ((p + l + c)%Z, (p + l)%Z)) as ->.
  { unfold executions_after, executions_after. cbn [fst snd]. rewrite (wrap64_small (p + c)) by (unfold is_u64; lia).
    assert ((p + c <? p + l) = true)%Z as -> by (apply Z.ltb_lt; lia). by rewrite wrap64_small by (unfold is_u64; lia). }
  rewrite (count_session (p + l) c s) by (lia || done). 
  rewrite IH; [lia|lia|lia|done| |lia]. cbn [restarts] in Hr. unfold final_count. by destruct (last (c :: s)) eqn:E; [|by apply last_None in E].
Qed.

Lemma runs_ok l : concat (runs l) = l ∧ Forall (λ s, s ≠ []) (runs l) ∧ ∀ before, (∀ p c, before = Some p → head l = Some c → (c < p)%Z) → restarts before (runs l).
Proof.
  induction l as [|n l (IH1 & IH2 & IH3)]; [done|]. cbn [runs].
  destruct (runs l) as [|[|b s] ss] eqn:El; [..|].
  - cbn in IH1. subst l. cbn. split; [done|]. split; [by repeat constructor|]. intros before Hb. split_and!; [done|by repeat constructor|done|done].
  - by apply Forall_cons in IH2 as [? _].
  - cbn in IH1. subst l. apply Forall_cons in IH2 as [_ IH2]. destruct (Z.leb_spec n b) as [Hle|Hlt].
    + cbn. split; [done|]. split; [by constructor|]. intros before Hb. destruct (IH3 None) as (_ & Hs & _ & Hr); [done|].
      split_and!; [done| |done|done]. constructor; [done|by constructor].
    + cbn. split; [done|]. split; [by repeat constructor|]. intros before Hb.
      split; [done|]. split; [by repeat constructor|]. split; [done|]. apply (IH3 (Some n)). by intros p c [= <-] [= <-].
Qed.

(** The executions after the reports of processes that each start below the one before. *)
Lemma count_total ss : Forall (Forall (λ n, 0 ≤ n)%Z) ss → restarts None ss → (total_of ss ≤ u64_max)%Z →
  (foldl executions_after (0, 0)%Z (concat ss)).1 = total_of ss.
Proof.
  intros Hnn Hss Hm. destruct ss as [|s ss]; [done|]. apply Forall_cons in Hnn as [Hn Hnn]. destruct Hss as (Hne & Hsort & _ & Hss).
  change (total_of (s :: ss)) with (final_count s + total_of ss)%Z in *. pose proof (total_nonneg ss Hnn). pose proof (final_count_nonneg s Hn).
  destruct s as [|c s]; [done|]. apply Forall_cons in Hn as [Hc0 Hn].
  assert (Sorted Z.le (0%Z :: c :: s)) as Hs0 by (constructor; [done|by constructor]).
  cbn [concat]. rewrite foldl_app. change (0%Z, 0%Z) with ((0 + 0)%Z, 0%Z). rewrite (count_session 0 0 (c :: s)) by (done || (change (final_count (0%Z :: c :: s)) with (final_count (c :: s)); lia)).
  change (final_count (0%Z :: c :: s)) with (final_count (c :: s)).
  rewrite count_restarts; [lia|lia|lia|done| |lia].
  unfold final_count. by destruct (last (c :: s)) eqn:El; [|by apply last_None in El].
Qed.

(** C29. The event manager, while the clock is not set back behind the start of the monitor, never fails, and what it prints is exact:
    every visible event gets one status line, with the sizes of corpus and objectives last reported, the executions,
    and times read from the clock while it ran; every message of BOFuzz is shown exactly once, right below the line of the event that
    brought it, and nothing else is printed.  Requests to stop are kept for the client, and nothing else is.  When the clock
    stands before the start of the monitor, a visible event makes it panic. *)
Theorem manager_run m es : mgr_inv m → board_small (board m) → Forall fits es →
  (steady m → ∃ ts m', fire_all es m = (Ok (), m') ∧ mgr_inv m' ∧ length ts = length (seen_events es) ∧ Forall (read_in m m') ts ∧
    printed m' = printed m ++ screen (mon_start_time (monitor m)) (window m) (board m) es ts ∧
    mgr_events m' = mgr_events m ++ stops es ∧ board m' = foldl board_after (board m) es) ∧
  (∀ e, visible e = true → (∀ k, readings m ≤ k → (time_at k < mon_start_time (monitor m))%Z) → (mgr_fire e m).1 = Panic).
Proof.
  intros Hi Hs HF. split.
  - intros Hst. destruct (fire_all_ok es m Hi Hst Hs HF) as (ts & m' & E & Hi' & Hs' & Hl & _ & Hts & Hp & Hev & Hb). by exists ts, m'.
  - intros e Hv Hback. pose proof (broker_panics e m Hi Hv Hback) as Hp. unfold mgr_fire, bind.
    destruct (handle_in_broker e m) as [[] m']; done.
Qed.

(** C30. The executions shown: the reports are cut where the count goes down, which is how a client that was restarted without
    its state is told from one that goes on, and the last counts of the pieces are added up. *)
Theorem executions_add_up m es : mgr_inv m → steady m → clients m = [] → Forall fits es → (total_of (runs (reports es)) ≤ u64_max)%Z →
  ∃ m', fire_all es m = (Ok (), m') ∧ (b_executions (board m')).1 = total_of (runs (reports es)).
Proof.
  intros Hi Hst Hc HF Hm. assert (board m = mkBoard 0 0 (0, 0)%Z) as Hb0 by (unfold board, client_of; by rewrite Hc).
  destruct (fire_all_ok es m Hi Hst) as (ts & m' & E & _ & _ & _ & _ & _ & _ & _ & Hb); [by rewrite Hb0|done|].
  exists m'. split; [done|]. rewrite Hb, count_reports, Hb0. destruct (runs_ok (reports es)) as (Hcat & _ & Hr).
  rewrite <-Hcat at 1. apply count_total; [|by apply Hr|done].
  apply Forall_forall. intros s Hin. apply Forall_forall. intros n Hn.
  assert (n ∈ reports es) as Hre by (rewrite <-Hcat; apply list_elem_of_In, in_concat; exists s; by rewrite <-!list_elem_of_In).
  unfold reports in Hre. apply list_elem_of_omap in Hre as (e & He & Heq). rewrite Forall_forall in HF. specialize (HF e He).
  destruct e; simplify_eq. destruct HF. lia.
Qed.

(** ** The client *)

(** The events kept for the client are requests to stop; all are taken. *)
Lemma process_ok (w : Session) : mgr_inv (ses_mgr w) → ∃ w',
  process w = (Ok (length (mgr_events (ses_mgr w))), w') ∧ mgr_inv (ses_mgr w') ∧ mgr_events (ses_mgr w') = [] ∧
  printed (ses_mgr w') = printed (ses_mgr w) ∧
  ses_state w' = (ses_state w) <| stop_requested := stop_requested (ses_state w) || negb (bool_decide (mgr_events (ses_mgr w) = [])) |>.
Proof.
  intros Hi. assert (∀ evs w0, Forall (eq Stop) evs → process_loop evs w0 =
    (Ok (), mkSession ((ses_mgr w0) <| mgr_events := [] |>)
       ((ses_state w0) <| stop_requested := stop_requested (ses_state w0) || negb (bool_decide (evs = [])) |>))) as Hloop.
  { clear. intros evs w0 HF. revert w0. induction HF as [|e evs <- _ IH]; intros [m0 s0]; cbn [process_loop].
    - cbn. rewrite orb_false_r. f_equal. f_equal. by destruct s0.
    - unfold bind at 1, on_mgr at 1, modify at 1. unfold bind at 1, on_ses at 1. cbn [handle_in_client modify]. rewrite IH.
      f_equal. f_equal. destruct s0; cbn. by rewrite orb_true_r. }
  unfold process. rewrite bind_gets. unfold bind. rewrite Hloop by (by apply Forall_reverse, (inv_events _ Hi)).
  eexists. split; [reflexivity|]. destruct Hi. split_and!; [by split|done|done|].
  assert (bool_decide (reverse (mgr_events (ses_mgr w)) = []) = bool_decide (mgr_events (ses_mgr w) = [])) as ->; [|done].
  apply bool_decide_ext. rewrite <-reverse_nil at 1. split; [by intros ?%(inj reverse)|by intros ->].
Qed.

(** Progress is reported when the last report is older than the limit, and not before: one line, with the executions
    of the state. *)
Lemma progress_ok (w : Session) timeout : mgr_inv (ses_mgr w) → steady (ses_mgr w) → board_small (board (ses_mgr w)) →
  is_u64 (executions (ses_state w)) → ∃ w', std_maybe_report_progress timeout w = (Ok (), w') ∧
  mgr_inv (ses_mgr w') ∧ is_Some (last_report_time (ses_state w')) ∧
  match last_report_time (ses_state w) with
  | Some t =>
    if (timeout <? Z.max 0 (time_at (readings (ses_mgr w)) - t))%Z then
      (∃ st, printed (ses_mgr w') = printed (ses_mgr w) ++ [st]) ∧
      b_executions (board (ses_mgr w')) = executions_after (b_executions (board (ses_mgr w))) (executions (ses_state w))
    else printed (ses_mgr w') = printed (ses_mgr w) ∧ ses_state w' = ses_state w
  | None => printed (ses_mgr w') = printed (ses_mgr w)
  end.
Proof.
  intros Hi Hst Hb Hx. assert (∀ m, mgr_inv m → mgr_inv (m <| readings := S (readings m) |>)) as Htick by (intros m []; by split).
  unfold std_maybe_report_progress. rewrite bind_gets. destruct (last_report_time (ses_state w)) as [t|] eqn:Et.
  - unfold bind at 1, on_mgr at 1, read_clock at 1. case_match eqn:El.
    + set (m1 := (ses_mgr w) <| readings := S (readings (ses_mgr w)) |>).
      set (m2 := m1 <| readings := S (readings m1) |>).
      destruct (fire_visible (UpdateExecStats (time_at (readings m1)) (executions (ses_state w))) m2) as (i & m' & E & Hi' & _ & _ & _ & _ & Hp & _ & Ht);
        [by apply Htick, Htick|intros k Hk; apply Hst; cbn in Hk; lia|done|done|done|].
      unfold std_report_progress. rewrite bind_gets. unfold bind at 1, on_mgr at 1, read_clock at 1.
      cbn [ses_mgr upd eta_Session ses_state]. fold m1. fold m2. unfold bind at 1, on_mgr at 1. cbn [ses_mgr upd eta_Session]. rewrite E.
      eexists. split; [reflexivity|]. cbn. split_and!; [done|done|by eexists|exact (f_equal b_executions Ht)].
    + eexists. split; [reflexivity|]. cbn. rewrite Et. split_and!; [by apply Htick|done|done|done].
  - eexists. split; [reflexivity|]. cbn. split_and!; [by apply Htick|done|done].
Qed.
End ManagerFacts.

(** ** Reading the messages back *)

Section Messages.
Definition kv (k : string) (v : chars) : chars := to_chars k ++ "="%char :: v.
Definition unspaced (l : chars) : Prop := Forall (λ c, is_whitespace c = false) l.

Lemma word_unspaced l : word l → unspaced l.
Proof. intros HF. eapply Forall_impl; [exact HF|]. intros c Hc. unfold plain in Hc. by destruct (is_whitespace c). Qed.

Lemma word_no c l : plain c = false → word l → contains c l = false.
Proof.
  intros Hc HF. unfold contains. apply not_true_iff_false. rewrite existsb_exists. intros (x & Hx & ->%Ascii.eqb_eq).
  unfold word in HF. rewrite Forall_forall in HF. rewrite <-list_elem_of_In in Hx. specialize (HF _ Hx). cbn in HF. congruence.
Qed.

Lemma split_once_at sep k v : contains sep k = false → split_once sep (k ++ sep :: v) = Some (k, v).
Proof.
  induction k as [|c k IH]; cbn [app split_once].
  - by rewrite Ascii.eqb_refl.
  - unfold contains. cbn [existsb]. intros [H1 H2]%orb_false_iff. rewrite Ascii.eqb_sym, H1. by rewrite IH.
Qed.

Lemma split_once_none sep k : contains sep k = false → split_once sep k = None.
Proof.
  induction k as [|c k IH]; [done|]. unfold contains. cbn [existsb split_once]. intros [H1 H2]%orb_false_iff.
  rewrite Ascii.eqb_sym, H1. by rewrite IH.
Qed.

Lemma trim_space l : trim (" "%char :: l) = trim l.
Proof. done. Qed.

Lemma feed_seg {A} (set : chars → chars → A → A) k v segs out : word k → unspaced v →
  feed set ((k ++ "="%char :: v) :: segs) out = feed set segs (set k v out) ∧
  feed set ((" "%char :: k ++ "="%char :: v) :: segs) out = feed set segs (set k v out).
Proof.
  intros Hk Hv. cbn [feed]. rewrite trim_space. assert (trim (k ++ "="%char :: v) = k ++ "="%char :: v) as ->.
  { apply trim_id, Forall_app. split; [by apply word_unspaced|]. by constructor. }
  unfold split_kv. rewrite split_once_at by (by apply word_no). cbn [mbind option_bind].
  by rewrite !trim_id by (done || by apply word_unspaced).
Qed.

Lemma feed_word {A} (set : chars → chars → A → A) w segs out : word w → feed set (w :: segs) out = None.
Proof.
  intros Hw. cbn [feed]. rewrite trim_id by (by apply word_unspaced). unfold split_kv. by rewrite split_once_none by (by apply word_no).
Qed.

Lemma strip_start_no c l : contains c l = false → strip_start c l = l.
Proof. destruct l as [|c' l]; [done|]. unfold contains. cbn [existsb strip_start]. intros [H1 _]%orb_false_iff. by rewrite Ascii.eqb_sym, H1. Qed.

Lemma parse_num_show d x : parse_num (show_f64 d x) = reread d x.
Proof.
  unfold parse_num, trim_end_matches. rewrite strip_start_no, reverse_involutive, parse_f64_show; [done|].
  apply word_no; [done|]. apply Forall_reverse, word_f64.
Qed.

Lemma parse_u64_show z : is_u64 z → parse_u64 (show_Z z) = z.
Proof. intros Hz. unfold parse_u64. by rewrite parse_uint_show. Qed.

Lemma parse_bool_show (b : bool) : parse_bool (to_chars (if b then "true" else "false")) = b.
Proof. by destruct b. Qed.
Lemma word_bool (b : bool) : word (to_chars (if b then "true" else "false")).
Proof. destruct b; repeat constructor. Qed.

(** The parts of the vector in a message of the accounting stage: its numbers up to the limit, and dots for the others. *)
Definition vec_parts (v : list f64) (maxn : nat) : list chars :=
  match take maxn v with [] => [[]] | l => show_f64 3 <$> l end ++ (if maxn <? length v then [to_chars "..."] else []).
Fixpoint close_last (suf : chars) (ws : list chars) : list chars :=
  match ws with
  | [] => []
  | [w] => [w ++ suf]
  | w :: ws => w :: close_last suf ws
  end.

Lemma join_cons sep w ws : ws ≠ [] → join sep (w :: ws) = w ++ sep :: join sep ws.
Proof. by destruct ws. Qed.
Lemma close_last_ne suf ws : ws ≠ [] → close_last suf ws ≠ [].
Proof. by destruct ws as [|? []]. Qed.
Lemma join_close sep suf ws : ws ≠ [] → join sep (close_last suf ws) = join sep ws ++ suf.
Proof.
  induction ws as [|w ws IH]; [done|]. intros _. destruct ws as [|w' ws]; [done|].
  change (close_last suf (w :: w' :: ws)) with (w :: close_last suf (w' :: ws)).
  rewrite !join_cons by (done || by apply close_last_ne). rewrite IH by done. by rewrite <-app_assoc.
Qed.
Lemma join_prefix sep pre w ws : join sep ((pre ++ w) :: ws) = pre ++ join sep (w :: ws).
Proof. destruct ws; cbn; [done|]. by rewrite <-app_assoc. Qed.
Lemma join_app sep ws ws' : ws ≠ [] → ws' ≠ [] → join sep (ws ++ ws') = join sep ws ++ sep :: join sep ws'.
Proof.
  induction ws as [|w ws IH]; [done|]. intros _ Hne. destruct ws as [|w' ws].
  - cbn [app]. by rewrite join_cons.
  - change ((w :: w' :: ws) ++ ws') with (w :: ((w' :: ws) ++ ws')). rewrite !join_cons by done. rewrite <-app_assoc. cbn [app].
    do 2 f_equal. by apply IH.
Qed.
Lemma join_with_one sep ws : join_with [sep] ws = join sep ws.
Proof.
  induction ws as [|w ws IH]; [done|]. destruct ws as [|w' ws]; [done|].
  change (join_with [sep] (w :: w' :: ws)) with (w ++ sep :: join_with [sep] (w' :: ws)). rewrite IH. done.
Qed.

Lemma vec_text v maxn :
  render (fmt_vec_short v maxn) = "["%char :: join "," (vec_parts v maxn) ++ to_chars "](len=" ++ show_Z (Z.of_nat (length v)) ++ [")"%char].
Proof.
  assert (join "," (match take maxn v with [] => [[]] | l => show_f64 3 <$> l end) =
    join_with [","%char] (map render_arg (AFloat 3 <$> take (Nat.min (length v) maxn) v))) as Hj.
  { rewrite join_with_one. assert (take (Nat.min (length v) maxn) v = take maxn v) as ->.
    { destruct (decide (length v ≤ maxn)); [by rewrite Nat.min_l, !take_ge by lia|by rewrite Nat.min_r by lia]. }
    destruct (take maxn v); [done|]. f_equal. by rewrite <-(map_map (AFloat 3) render_arg). }
  unfold fmt_vec_short, vec_parts. assert ((Nat.min (length v) maxn <? length v) = (maxn <? length v)) as ->.
  { apply eq_true_iff_eq. rewrite !Nat.ltb_lt. lia. }
  destruct (maxn <? length v).
  - rewrite join_app by (done || by destruct (take maxn v)). rewrite Hj. cbn. by rewrite <-!app_assoc.
  - rewrite app_nil_r, Hj. cbn. by rewrite ?app_assoc.
Qed.

Lemma vec_parts_words v maxn : Forall word (vec_parts v maxn).
Proof.
  unfold vec_parts. apply Forall_app. split; [|by case_match; repeat constructor].
  destruct (take maxn v) as [|x l]; [by repeat constructor|]. apply Forall_fmap, Forall_forall. intros y _. apply word_f64.
Qed.

(** A list of numbers is cut at its commas: the first part follows the key, the last one holds the
    length, and every part between them makes the parser give up. *)
Lemma feed_vector {A} (set : chars → chars → A → A) k w ws suf v segs out :
  word k → Forall word (w :: ws) → word suf → unspaced v →
  feed set (close_last (suf ++ "="%char :: v) ((" "%char :: k ++ "="%char :: "["%char :: w) :: ws) ++ segs) out =
  match ws with
  | [] => feed set segs (set k ("["%char :: w ++ suf ++ "="%char :: v) out)
  | [w'] => feed set segs (set (w' ++ suf) v (set k ("["%char :: w) out))
  | _ => None
  end.
Proof.
  intros Hk [Hw Hws]%Forall_cons Hsuf Hv. pose proof (word_unspaced _ Hw) as Uw. pose proof (word_unspaced _ Hsuf) as Us.
  assert (unspaced ("["%char :: w)) as Uw' by by constructor.
  destruct ws as [|w1 ws]; cbn [close_last app].
  - rewrite <-app_assoc. cbn [app].
    apply feed_seg; [done|]. constructor; [done|]. repeat (apply Forall_app; split); try done. by constructor.
  - rewrite (proj2 (feed_seg set k ("["%char :: w) _ _ Hk Uw')). apply Forall_cons in Hws as [Hw1 Hws]. destruct ws as [|w2 ws]; cbn [close_last app].
    + rewrite app_assoc. apply feed_seg; [|done]. by apply Forall_app.
    + by apply feed_word.
Qed.

Definition lead (b : bool) (l : chars) : chars := if b then " "%char :: l else l.
Definition wordy (k : string) : bool := forallb plain (to_chars k).
Lemma wordy_word k : wordy k = true → word (to_chars k).
Proof. unfold wordy, word. rewrite forallb_forall, Forall_forall. intros Hw c Hc. apply Hw. by apply list_elem_of_In. Qed.

Lemma contains_app c l l' : contains c (l ++ l') = contains c l || contains c l'.
Proof. apply existsb_app. Qed.

Lemma item_no_comma b k v : wordy k = true → word v → contains "," (lead b (kv k v)) = false.
Proof.
  intros Hk Hv. apply wordy_word in Hk. pose proof (word_no "," _ eq_refl Hk) as H1. pose proof (word_no "," _ eq_refl Hv) as H2.
  assert (contains "," (kv k v) = false) as H3 by (unfold kv; rewrite contains_app, H1; done). by destruct b.
Qed.

(** One item of a message. *)
Lemma peel {A} (set : chars → chars → A → A) b k v rest out : wordy k = true → word v →
  feed set (split "," (lead b (kv k v) ++ ","%char :: rest)) out = feed set (split "," rest) (set (to_chars k) v out).
Proof.
  intros Hk Hv. rewrite split_app by (by apply item_no_comma). apply wordy_word in Hk. apply word_unspaced in Hv.
  destruct b; by apply (feed_seg set (to_chars k) v).
Qed.
Lemma peel_last {A} (set : chars → chars → A → A) b k v out : wordy k = true → word v →
  feed set (split "," (lead b (kv k v))) out = Some (set (to_chars k) v out).
Proof.
  intros Hk Hv. rewrite split_word by (by apply item_no_comma). apply wordy_word in Hk. apply word_unspaced in Hv.
  destruct b; by apply (feed_seg set (to_chars k) v []).
Qed.

Lemma split_join_app sep ws rest : ws ≠ [] → Forall (λ w, contains sep w = false) ws →
  split sep (join sep ws ++ sep :: rest) = ws ++ split sep rest.
Proof.
  intros Hne HF. revert Hne. induction HF as [|w ws Hw _ IH]; [done|]. intros _. destruct ws as [|w' ws]; [by apply split_app|].
  rewrite join_cons by done. rewrite <-app_assoc. cbn [app]. rewrite split_app by done. f_equal. by apply IH.
Qed.

Lemma close_no_comma suf ws : Forall (λ w, contains "," w = false) ws → contains "," suf = false →
  Forall (λ w, contains "," w = false) (close_last suf ws).
Proof.
  intros HF Hs. induction HF as [|w ws Hw HF IH]; [done|]. destruct ws as [|w' ws].
  - constructor; [|done]. by rewrite contains_app, Hw, Hs.
  - by constructor.
Qed.

(** The item that holds the vector. *)
Lemma peel_vector {A} (set : chars → chars → A → A) k w ws suf v rest out :
  wordy k = true → Forall word (w :: ws) → word suf → word v →
  feed set (split "," (lead true (kv k ("["%char :: join "," (w :: ws) ++ suf ++ "="%char :: v)) ++ ","%char :: rest)) out =
  match ws with
  | [] => feed set (split "," rest) (set (to_chars k) ("["%char :: w ++ suf ++ "="%char :: v) out)
  | [w'] => feed set (split "," rest) (set (w' ++ suf) v (set (to_chars k) ("["%char :: w) out))
  | _ => None
  end.
Proof.
  intros Hk Hw Hsuf Hv. apply wordy_word in Hk. pose proof Hw as [Hw1 Hws]%Forall_cons.
  set (ps := (" "%char :: to_chars k ++ "="%char :: "["%char :: w) :: ws).
  assert (lead true (kv k ("["%char :: join "," (w :: ws) ++ suf ++ "="%char :: v)) = join "," (close_last (suf ++ "="%char :: v) ps)) as ->.
  { rewrite join_close by done. unfold ps. change (" "%char :: to_chars k ++ "="%char :: "["%char :: w) with ((" "%char :: to_chars k) ++ "="%char :: "["%char :: w).
    replace ((" "%char :: to_chars k) ++ "="%char :: "["%char :: w) with (((" "%char :: to_chars k) ++ ["="%char; "["%char]) ++ w) by (by rewrite <-app_assoc).
    rewrite join_prefix, <-!app_assoc. done. }
  rewrite split_join_app.
  - by apply feed_vector; [..|apply word_unspaced].
  - by apply close_last_ne.
  - apply close_no_comma.
    + constructor.
      * change (contains "," (to_chars k ++ "="%char :: "["%char :: w) = false). rewrite contains_app, (word_no "," _ eq_refl Hk).
        change (contains "," w = false). by apply word_no.
      * eapply Forall_impl; [exact Hws|]. intros x Hx. by apply word_no.
    + rewrite contains_app, (word_no "," _ eq_refl Hsuf). change (contains "," v = false). by apply word_no.
Qed.

Lemma not_key k s : contains "]" k = true → contains "]" (to_chars s) = false → String.eqb (of_chars k) s = false.
Proof. intros Hk Hs. apply String.eqb_neq. intros <-. by rewrite to_of_chars, Hk in Hs. Qed.

Lemma set_feature_other k v out : contains "]" k = true → set_feature k v out = out.
Proof. intros Hk. unfold set_feature. by rewrite !(not_key k) by done. Qed.

(** The keys of the message, one by one. *)
Lemma set_feature_keys :
  (∀ v out, set_feature (to_chars "enabled") v out = out <| fi_enabled := parse_bool v |>) ∧
  (∀ v out, set_feature (to_chars "active") v out = out <| fi_active := parse_bool v |>) ∧
  (∀ v out, set_feature (to_chars "feat_exists") v out = out <| fi_feat_exists := parse_bool v |>) ∧
  (∀ v out, set_feature (to_chars "feat_mode") v out = out <| fi_feat_mode := parse_u64 v |>) ∧
  (∀ v out, set_feature (to_chars "alpha") v out = out <| fi_alpha := parse_num v |>) ∧
  (∀ v out, set_feature (to_chars "beta") v out = out <| fi_beta := parse_num v |>) ∧
  (∀ v out, set_feature (to_chars "gmin") v out = out <| fi_gmin := parse_num v |>) ∧
  (∀ v out, set_feature (to_chars "gmax") v out = out <| fi_gmax := parse_num v |>) ∧
  (∀ v out, set_feature (to_chars "use_tanh") v out = out <| fi_use_tanh := parse_bool v |>) ∧
  (∀ v out, set_feature (to_chars "active_dim") v out = out <| fi_active_dim := parse_u64 v |>) ∧
  (∀ v out, set_feature (to_chars "v_candidates_len") v out = out <| fi_v_candidates_len := parse_u64 v |>) ∧
  (∀ v out, set_feature (to_chars "current_v") v out = out <| fi_current_v := v |>) ∧
  (∀ v out, set_feature (to_chars "feat0") v out = out <| fi_feat0 := parse_num v |>) ∧
  (∀ v out, set_feature (to_chars "factor") v out = out <| fi_factor := parse_num v |>) ∧
  (∀ v out, set_feature (to_chars "mode") v out = out) ∧
  (∀ v out, set_feature (to_chars "simplex_sum") v out = out) ∧
  (∀ v out, set_feature (to_chars "weight") v out = out).
Proof. split_and!; reflexivity. Qed.

Lemma features_fill a1 a2 a3 a4 a5 a6 a7 a8 a9 a10 a11 a12 a13 a14 a15 a16 a17 :
  fill false (to_chars "enabled={}, active={}, feat_mode={}, feat_exists={}, mode={:?}, alpha={:.2}, beta={:.2}, gmin={:.2}, gmax={:.2}, use_tanh={}, active_dim={}, v_candidates_len={}, current_v={}, simplex_sum={:.6}, feat0={:.3}, weight={:.3}, factor={:.3}")
    [a1; a2; a3; a4; a5; a6; a7; a8; a9; a10; a11; a12; a13; a14; a15; a16; a17] =
  lead false (kv "enabled" a1) ++ ","%char ::
    lead true (kv "active" a2) ++ ","%char ::
    lead true (kv "feat_mode" a3) ++ ","%char ::
    lead true (kv "feat_exists" a4) ++ ","%char ::
    lead true (kv "mode" a5) ++ ","%char ::
    lead true (kv "alpha" a6) ++ ","%char ::
    lead true (kv "beta" a7) ++ ","%char ::
    lead true (kv "gmin" a8) ++ ","%char ::
    lead true (kv "gmax" a9) ++ ","%char ::
    lead true (kv "use_tanh" a10) ++ ","%char ::
    lead true (kv "active_dim" a11) ++ ","%char ::
    lead true (kv "v_candidates_len" a12) ++ ","%char ::
    lead true (kv "current_v" a13) ++ ","%char ::
    lead true (kv "simplex_sum" a14) ++ ","%char ::
    lead true (kv "feat0" a15) ++ ","%char ::
    lead true (kv "weight" a16) ++ ","%char ::
    lead true (kv "factor" a17).
Proof. rewrite <-(app_nil_r a17) at 2. reflexivity. Qed.

Lemma vec_parts_length v maxn :
  length (vec_parts v maxn) = Nat.max 1 (Nat.min maxn (length v)) + (if maxn <? length v then 1 else 0).
Proof.
  unfold vec_parts. rewrite length_app. f_equal; [|by case_match].
  rewrite <-length_take. by destruct (take maxn v) as [|x l]; [|cbn; rewrite length_fmap].
Qed.

(** What the reader keeps of the vector. *)
Definition vector_read (v : list f64) (maxn : nat) : chars :=
  match vec_parts v maxn with
  | [_] => render (fmt_vec_short v maxn)
  | w :: _ => "["%char :: w
  | [] => []
  end.
End Messages.

(** C36. A message of the accounting stage is understood exactly when its vector is shown in at most two
    parts; then the numbers are those of the message, rounded as printed, except that the
    weight is never read (its key is not the one the reader knows) and of a vector in two parts only the
    first one is kept. *)
Theorem features_info_exact s mode weight factor :
  is_u64 (Z.of_nat (get_feat_mode s)) → is_u64 (Z.of_nat (get_active_dim s)) → is_u64 (Z.of_nat (length (get_v_candidates s))) →
  let v := get_current_weight_vec s in
  let dim := get_active_dim s in
  let p := get_factor_params s in
  parse_features_info (render (features_summary s mode weight factor)) =
  if 3 <=? Nat.max 1 (Nat.min dim (length v)) + (if dim <? length v then 1 else 0) then None
  else Some (mkFeaturesInfo (get_features_enabled s) (get_features_active s) (get_feat_exists s) (Z.of_nat (get_feat_mode s))
    (reread 2 (fp_alpha p)) (reread 2 (fp_beta p)) (reread 2 (fp_gmin p)) (reread 2 (fp_gmax p)) (fp_use_tanh p)
    (Z.of_nat dim) (Z.of_nat (length (get_v_candidates s))) (vector_read v dim) (reread 3 (get_feat0 s)) f0 (reread 3 factor)).
Proof.
  intros Hm Hd Hc v dim p. rewrite <-vec_parts_length. unfold features_summary. fold v dim p. cbn [render map]. rewrite features_fill.
  assert (∀ l, strip_prefix_bracket (lead false (kv "enabled" (render_arg (ABool (get_features_enabled s)))) ++ l) =
    Some (lead false (kv "enabled" (render_arg (ABool (get_features_enabled s)))) ++ l)) as Hstrip by done.
  unfold parse_features_info. rewrite Hstrip. cbn [mbind option_bind]. cbn [render_arg].
  assert (word (to_chars (mode_name mode))) as Hmode by (destruct mode; repeat constructor).
  rewrite !peel by first [done|apply word_bool|apply word_Z|apply word_f64|exact Hmode].
  rewrite vec_text. pose proof (vec_parts_words v dim) as Hw. unfold vector_read. rewrite vec_text.
  destruct (vec_parts v dim) as [|w ws] eqn:Ep.
  { unfold vec_parts in Ep. by destruct (take dim v). }
  change (to_chars "](len=" ++ show_Z (Z.of_nat (length v)) ++ [")"%char]) with
    (to_chars "](len" ++ "="%char :: (show_Z (Z.of_nat (length v)) ++ [")"%char])).
  assert (word (show_Z (Z.of_nat (length v)) ++ [")"%char])) as Hlen by (apply Forall_app; split; [apply word_Z|by repeat constructor]).
  rewrite peel_vector by first [done|by repeat constructor]. destruct ws as [|w' [|w'' ws]]; [| |done]; cbn [length Nat.leb].
  - rewrite !peel, peel_last by first [done|apply word_f64]. f_equal. destruct set_feature_keys as (-> & -> & -> & -> & -> & -> & -> & -> & -> & -> & -> & -> & -> & -> & -> & -> & ->).
    cbn -[parse_num parse_u64 parse_bool show_f64 show_Z to_chars reread Z.of_nat of_chars].
    by rewrite !parse_num_show, !parse_u64_show, !parse_bool_show by done.
  - rewrite !peel, peel_last by first [done|apply word_f64]. rewrite (set_feature_other (w' ++ _)) by (by rewrite contains_app, orb_true_r).
    f_equal. destruct set_feature_keys as (-> & -> & -> & -> & -> & -> & -> & -> & -> & -> & -> & -> & -> & -> & -> & -> & ->).
    cbn -[parse_num parse_u64 parse_bool show_f64 show_Z to_chars reread Z.of_nat of_chars].
    by rewrite !parse_num_show, !parse_u64_show, !parse_bool_show by done.
Qed.

Lemma set_tpe_keys :
  (∀ v out, set_tpe (to_chars "trials") v out = out <| ti_trials := parse_u64 v |>) ∧
  (∀ v out, set_tpe (to_chars "corpus") v out = out <| ti_corpus := parse_u64 v |>) ∧
  (∀ v out, set_tpe (to_chars "active_dim") v out = out <| ti_active_dim := parse_u64 v |>) ∧
  (∀ v out, set_tpe (to_chars "bw") v out = out <| ti_bw := parse_num v |>) ∧
  (∀ v out, set_tpe (to_chars "gamma") v out = out <| ti_gamma := parse_num v |>) ∧
  (∀ v out, set_tpe (to_chars "samples") v out = out <| ti_samples := parse_u64 v |>) ∧
  (∀ v out, set_tpe (to_chars "phase") v out = out) ∧
  (∀ v out, set_tpe (to_chars "reward_edges") v out = out) ∧
  (∀ v out, set_tpe (to_chars "edges") v out = out) ∧
  (∀ v out, set_tpe (to_chars "simplex_sum") v out = out) ∧
  (∀ v out, set_tpe (to_chars "credits_sum") v out = out) ∧
  (∀ v out, set_tpe (to_chars "pending_iteration") v out = out) ∧
  (∀ v out, set_tpe (to_chars "active_iteration") v out = out).
Proof. split_and!; reflexivity. Qed.

Lemma window_fill a1 a2 a3 a4 a5 a6 a7 a8 a9 a10 a11 a12 a13 :
  fill false (to_chars "phase={:?}, reward_edges={:.1}, edges={}, trials={}, corpus={}, active_dim={}, simplex_sum={:.6}, credits_sum={:.3}, bw={:.3}, gamma={:.3}, samples={}, pending_iteration={:?}, active_iteration={:?}")
    [a1; a2; a3; a4; a5; a6; a7; a8; a9; a10; a11; a12; a13] =
  lead false (kv "phase" a1) ++ ","%char ::
    lead true (kv "reward_edges" a2) ++ ","%char ::
    lead true (kv "edges" a3) ++ ","%char ::
    lead true (kv "trials" a4) ++ ","%char ::
    lead true (kv "corpus" a5) ++ ","%char ::
    lead true (kv "active_dim" a6) ++ ","%char ::
    lead true (kv "simplex_sum" a7) ++ ","%char ::
    lead true (kv "credits_sum" a8) ++ ","%char ::
    lead true (kv "bw" a9) ++ ","%char ::
    lead true (kv "gamma" a10) ++ ","%char ::
    lead true (kv "samples" a11) ++ ","%char ::
    lead true (kv "pending_iteration" a12) ++ ","%char ::
    lead true (kv "active_iteration" a13).
Proof. rewrite <-(app_nil_r a13) at 2. reflexivity. Qed.

Lemma word_debug_opt o : word (render_arg (debug_opt o)).
Proof.
  destruct o as [x|]; [|by repeat constructor].
  change (word (to_chars "Some(" ++ show_Z x ++ [")"%char])). repeat (apply Forall_app; split); [by repeat constructor|apply word_Z|by repeat constructor].
Qed.

(** The reports of the TPE stage are always understood, but the reader looks for the keys of an older
    format: of the report on a window it finds the sizes and the parameters, and of any report
    neither the reward nor the coverage, nor the text of the phase: the line shows zeros in their place. *)
Theorem tpe_info_exact w meta reward edges last_vec :
  is_u64 (Z.of_nat (length (trials (tpe_state w)))) → is_u64 (Z.of_nat (InMemory.count (corpus (st w)))) →
  is_u64 (Z.of_nat (get_active_dim (st w))) → is_u64 (Z.of_nat (samples (tpe_params w))) →
  parse_tpe_info (render (window_message w meta reward edges last_vec)) =
    Some (TpeInfo_default <| ti_trials := Z.of_nat (length (trials (tpe_state w))) |>
      <| ti_corpus := Z.of_nat (InMemory.count (corpus (st w))) |> <| ti_active_dim := Z.of_nat (get_active_dim (st w)) |>
      <| ti_bw := reread 3 (bw (tpe_params w)) |> <| ti_gamma := reread 3 (gamma (tpe_params w)) |>
      <| ti_samples := Z.of_nat (samples (tpe_params w)) |>) ∧
  Forall (λ m, parse_tpe_info (render m) = Some TpeInfo_default) [explore_message; started_message; published_message].
Proof.
  intros H1 H2 H3 H4. split; [|repeat constructor; vm_compute; reflexivity].
  unfold window_message. cbn [render map]. rewrite window_fill.
  set (ph := render_arg (AStr (debug_phase (get_phase (st w))))).
  assert (word ph) as Hph by (unfold ph; destruct (get_phase (st w)); repeat constructor).
  assert (∀ l, strip_prefix_bracket (lead false (kv "phase" ph) ++ l) = Some (lead false (kv "phase" ph) ++ l)) as Hstrip by done.
  unfold parse_tpe_info. rewrite Hstrip. cbn [mbind option_bind]. pose proof word_debug_opt as Hopt.
  set (o1 := render_arg (debug_opt _)). set (o2 := render_arg (debug_opt _)). assert (word o1 ∧ word o2) as [Ho1 Ho2] by (split; apply Hopt).
  cbn [render_arg]. rewrite !peel, peel_last by first [done|apply word_Z|apply word_f64].
  destruct set_tpe_keys as (-> & -> & -> & -> & -> & -> & -> & -> & -> & -> & -> & -> & ->). f_equal.
  cbn -[parse_num parse_u64 show_f64 show_Z reread Z.of_nat]. by rewrite !parse_num_show, !parse_u64_show by done.
Qed.

(** ** Concrete runs *)

Definition demo_simple_manager : SimpleEventManager := mkSimpleManager (mkCustomMonitor 0 false []) [] [] 0.

Lemma demo_manager_inv : mgr_inv demo_simple_manager.
Proof. split; [by left|done|done]. Qed.
Lemma demo_manager_steady : steady (H := demo_stopwatch) demo_simple_manager.
Proof. intros k _. unfold time_at. cbn. lia. Qed.

(** A testcase, a message and a request to stop; the clock shows a thousandth of a millisecond more at each reading. *)
Lemma manager_run_witness :
  let es := [NewTestcase [] None ExitOk 1 0; UpdateUserStats "tpe-info" (mkUserStats (StatString explore_message) AggNone); Stop] in
  ∃ t1 t2 m', fire_all (H := demo_stopwatch) (H0 := toy_env) es demo_simple_manager = (Ok (), m') ∧
    printed m' = [status_text 0 0 t1 (mkBoard 1 0 (0, 0)%Z) (NewTestcase [] None ExitOk 1 0);
      status_text 0 0 t2 (mkBoard 1 0 (0, 0)%Z) (UpdateUserStats "tpe-info" (mkUserStats (StatString explore_message) AggNone));
      tpe_line explore_message] ∧
    mgr_events m' = [Stop] ∧ b_corpus (board m') = 1%Z.
Proof.
  intros es. destruct (manager_run (H := demo_stopwatch) (H0 := toy_env) demo_simple_manager es demo_manager_inv) as [Hrun _].
  - by repeat split.
  - repeat constructor; by vm_compute.
  - destruct (Hrun demo_manager_steady) as (ts & m' & E & _ & Hl & _ & Hp & Hev & Hb).
    destruct ts as [|t1 [|t2 [|]]]; try done. exists t1, t2, m'. by rewrite Hp, Hev, Hb.
Defined.

(** Two processes, of 70 and 30 executions; and two that report 10 and then 30, which are taken for one. *)
Lemma executions_add_up_witness :
  (∃ m', fire_all (H := demo_stopwatch) (H0 := toy_env)
      [UpdateExecStats 0 50; UpdateExecStats 0 70; UpdateExecStats 0 10; UpdateExecStats 0 30] demo_simple_manager = (Ok (), m') ∧
    (b_executions (board m')).1 = 100%Z) ∧
  (∃ m', fire_all (H := demo_stopwatch) (H0 := toy_env) [UpdateExecStats 0 10; UpdateExecStats 0 30] demo_simple_manager = (Ok (), m') ∧
    (b_executions (board m')).1 = 30%Z).
Proof.
  split.
  - apply (executions_add_up (H := demo_stopwatch) (H0 := toy_env) demo_simple_manager
      [UpdateExecStats 0 50; UpdateExecStats 0 70; UpdateExecStats 0 10; UpdateExecStats 0 30] demo_manager_inv demo_manager_steady);
      [done|repeat constructor; by vm_compute|by vm_compute].
  - apply (executions_add_up (H := demo_stopwatch) (H0 := toy_env) demo_simple_manager
      [UpdateExecStats 0 10; UpdateExecStats 0 30] demo_manager_inv demo_manager_steady);
      [done|repeat constructor; by vm_compute|by vm_compute].
Defined.

(** With three active features the message is not understood. *)
Definition demo_three : State := set_current_weight_vec [f_half; f_half; f0]
  (set_schema_info 4 (sc_features demo_schema) [true; true] (sc_features demo_schema) (empty_state (RomuDuoJr.with_seed 1))).

Lemma features_info_exact_witness :
  parse_features_info (render (features_summary demo_three Path f1 f2)) = None ∧
  is_Some (parse_features_info (render (features_summary demo_state Path f1 f2))).
Proof.
  split.
  - rewrite (features_info_exact demo_three Path f1 f2) by (by vm_compute). by vm_compute.
  - rewrite (features_info_exact demo_state Path f1 f2) by (by vm_compute). eexists. by vm_compute.
Defined.

Lemma tpe_info_exact_witness :
  ∃ p, parse_tpe_info (render (window_message demo_stage TpeIterationMeta_default (of_Z 12) 34 [f_half])) = Some p ∧
    ti_reward p = f0 ∧ ti_cov p = f0.
Proof.
  destruct (tpe_info_exact demo_stage TpeIterationMeta_default (of_Z 12) 34 [f_half]) as [-> _]; [by vm_compute..|]. by eexists.
Defined.
