(* ===== verification/Restart.v ===== *)
(** * Restart: how a fuzzer survives the death of its process

    [libafl_bolts/src/staterestore.rs], the shared page through which a dying process hands its state to the
    next one, and the restarting event manager of [libafl/src/events/simple.rs], whose parent process
    decides after each child whether there is to be another.

    The theorems: what is saved is what is restored, on the page or in a file, and a save that fails leaves nothing
    behind ([save_restore]); over a whole chain of processes each one starts with exactly what its
    predecessor saved ([restart_chain]); and when a request to exit outlives a reset ([exit_outlives_reset]). *)

From Stdlib Require Import ZArith Lia Ascii.
From S2P Require Import Prelude Float64 Metadata State Mutations Str Files Calibrate Monitor.

(** [postcard]: serialization of a type, and what it promises. *)
Class Postcard (A : Type) := { to_allocvec : A → outcome Error bytes; from_bytes : bytes → outcome Error A }.
Class PostcardLaws {A : Type} (P : Postcard A) := {
  postcard_back : ∀ a b, to_allocvec a = Ok b → from_bytes b = Ok a;
}.

(** The hash that names a file in the temporary directory. *)
Class TempDir := { hash_state : bytes → u64 }.

Definition string_bytes (s : string) : bytes := (λ c, to_u8 (Z.of_nat (nat_of_ascii c))) <$> to_chars s.

(** [b"LIBAFL_EXIT_NOW\0"] *)
Definition EXITING_MAGIC : bytes := string_bytes "LIBAFL_EXIT_NOW" ++ [Byte.x00].

(** The page: a flag, a length, and what follows them up to its end. *)
Record StateShMemContent := mkContent { is_disk : bool; buf_len : usize; buf : bytes }.
#[global] Instance eta_StateShMemContent : Eta StateShMemContent := λ r, mkContent (is_disk r) (buf_len r) (buf r).
(** [size_of::<StateShMemContent>()] *)
Definition size_of_content : usize := 16.

(** The page, and the files in the temporary directory. *)
Record StateRestorer := mkRestorer { content : StateShMemContent; temp_dir : Files }.
#[global] Instance eta_StateRestorer : Eta StateRestorer := λ r, mkRestorer (content r) (temp_dir r).

Section Restorer.
Context `{Faults} `{TempDir} `{Postcard string}.
Abbreviation R A := (M StateRestorer A).

Definition mapsize (r : StateRestorer) : usize := size_of_content + length (buf (content r)).

Definition buf_len_checked (shmem_size : usize) (c : StateShMemContent) : outcome Error usize :=
  if shmem_size <? size_of_content + buf_len c then
    Err (illegal_state "Stored buf_len is larger than the shared map! Shared data corrupted? Expected {} bytes max, but got {} (buf_len {})"
      [ANat shmem_size; ANat (size_of_content + buf_len c); ANat (buf_len c)])
  else Ok (buf_len c).

(** The bytes a length stands for; past the end of the page there are none. *)
Definition bytes_of_content (c : StateShMemContent) (n : usize) : outcome Error bytes :=
  if n <=? length (buf c) then Ok (take n (buf c)) else Panic.

Definition tmpfile (shmem_size : usize) (c : StateShMemContent) : outcome Error (option string) :=
  if is_disk c then
    let? n := buf_len_checked shmem_size c in
    let? b := bytes_of_content c n in
    let? filename := from_bytes b in
    Ok (Some filename)
  else Ok None.

Definition has_content (r : StateRestorer) : bool := 0 <? buf_len (content r).

(** [copy_nonoverlapping] to the page; a copy past its end is undefined behaviour. *)
Definition copy_to_buf (b : bytes) (c : StateShMemContent) : outcome Error StateShMemContent :=
  if length b <=? length (buf c) then Ok (c <| buf := b ++ drop (length b) (buf c) |>) else Panic.

Definition on_disk {A} (m : ME IoError Files A) : R A :=
  with_err io_error (zoom temp_dir (λ f r, r <| temp_dir := f |>) m).

Definition state_filename (serialized : bytes) : string :=
  of_chars (hex_digits 16 (hash_state (drop (length serialized - 4096) serialized))) +:+ ".libafl_state".

Definition put (b : bytes) (to_file : bool) : R () :=
  c <- gets content ;;
  c <- lift (copy_to_buf b c) ;;
  modify (λ r, r <| content := c <| buf_len := length b |> <| is_disk := to_file |> |>).

Definition save {A} `{Postcard A} (state : A) : R () :=
  full <- gets has_content ;;
  if full : bool then throw (illegal_state "Trying to save state to a non-empty state map" [])
  else
    serialized <- lift (to_allocvec state) ;;
    size <- gets mapsize ;;
    if size <? size_of_content + length serialized then
      let filename := state_filename serialized in
      on_disk (create filename) ;;;
      on_disk (write_all filename serialized) ;;;
      filename_buf <- lift (to_allocvec filename) ;;
      if size <? length filename_buf then
        throw (illegal_state "The state restorer map is too small to fit anything, even the filename!" [])
      else put filename_buf true
    else put serialized false.

Definition reset : R () :=
  file <- gets (λ r, tmpfile (mapsize r) (content r)) ;;
  match file with Ok (Some name) => ignore (on_disk (remove_file name)) | _ => ret () end ;;;
  modify (λ r, r <| content := (content r) <| is_disk := false |> <| buf_len := 0 |> |>).

(** The assertion is that the page can hold the mark. *)
Definition send_exiting : R () :=
  reset ;;;
  size <- gets mapsize ;;
  if size <? size_of_content + length EXITING_MAGIC then panic
  else
    c <- gets content ;;
    c <- lift (copy_to_buf EXITING_MAGIC c) ;;
    modify (λ r, r <| content := c <| buf_len := length EXITING_MAGIC |> |>).

Definition wants_to_exit (r : StateRestorer) : outcome Error bool :=
  if mapsize r <? size_of_content + length EXITING_MAGIC then Panic
  else Ok (bool_decide (take (length EXITING_MAGIC) (buf (content r)) = EXITING_MAGIC)).

Definition restore {A} `{Postcard A} : R (option A) :=
  full <- gets has_content ;;
  if negb full then ret None
  else
    c <- gets content ;;
    size <- gets mapsize ;;
    n <- lift (buf_len_checked size c) ;;
    b <- lift (bytes_of_content c n) ;;
    if bool_decide (b = EXITING_MAGIC) then throw (illegal_state "Trying to restore a state after send_exiting was called." [])
    else
      state <- (if is_disk c then
                  filename <- lift (from_bytes b) ;;
                  file_content <- on_disk (read_file filename) ;;
                  (if length file_content =? 0 then throw (illegal_state "Could not restore state from file {}" [AStr filename])
                   else ret file_content)
                else ret b) ;;
      deserialized <- lift (from_bytes state) ;;
      ret (Some deserialized).
End Restorer.

(** ** The restarting manager

    What a process saves: the state, and the start and the numbers of the monitor. *)
Section Launch.
Context `{Faults} `{TempDir} `{Postcard string} {St : Type} `{Postcard (St * Duration * list ClientStats)}.
(** [HasCurrentStageId::on_restart] of the state. *)
Context (state_on_restart : St → St).
Abbreviation Snapshot := (St * Duration * list ClientStats)%type.

(** [on_restart], called by the handler of a crash or a timeout. *)
Definition mgr_on_restart (state : St) (mon : CustomMonitor) : M StateRestorer () :=
  let state := state_on_restart state in
  reset ;;; save (state, mon_start_time mon, client_stats mon).

(** What a new process starts with. *)
Definition resume (mon : CustomMonitor) : M StateRestorer (option St * CustomMonitor) :=
  restored <- restore (A := Snapshot) ;;
  match restored with
  | None => ret (None, mon)
  | Some (state, start_time, clients_stats) =>
    reset ;;;
    ret (Some state, mon <| mon_start_time := start_time |> <| client_stats := clients_stats |>)
  end.

(** How a process ends: it dies and its handler runs, it shuts down in order, or it is killed. *)
Inductive ChildEnd := Died (state : St) (mon : CustomMonitor) | Exited | Killed.
Definition CTRL_C_EXIT : Z := 100.

(** The processes: what the [n]th does from its start on, and its exit status. *)
Context (child : nat → option St * CustomMonitor → ChildEnd * Z).

Definition child_process (n : nat) (mon : CustomMonitor) : M StateRestorer (option (option St * CustomMonitor) * Z) := λ r,
  match resume mon r with
  | (Ok start, r) =>
    let '(how, status) := child n start in
    match how with
    | Died state mon => let '(_, r) := mgr_on_restart state mon r in (Ok (Some start, status), r)
    | Exited => let '(_, r) := send_exiting r in (Ok (Some start, status), r)
    | Killed => (Ok (Some start, status), r)
    end
  | (_, r) => (Ok (None, 1%Z), r)
  end.

(** The loop of the parent, for at most [fuel] children; with what each child started from. *)
Fixpoint launch (fuel : nat) (ctr : nat) (mon : CustomMonitor) (r : StateRestorer) :
    outcome Error () * list (option (option St * CustomMonitor)) * StateRestorer :=
  match fuel with
  | O => (Ok (), [], r)
  | S fuel =>
    match child_process ctr mon r with
    | (Ok (start, status), r) =>
      let '(res, starts, r') :=
        match (if (status =? CTRL_C_EXIT)%Z then Ok true else wants_to_exit r) with
        | Ok true => (Err ShuttingDown, [], r)
        | Ok false => if negb (has_content r) then (Panic, [], r) else launch fuel (S ctr) mon r
        | Err e => (Err e, [], r)
        | Panic => (Panic, [], r)
        end in
      (res, start :: starts, r')
    | (Err e, r) => (Err e, [], r)
    | (Panic, r) => (Panic, [], r)
    end
  end.
End Launch.

(** ** The page keeps what is saved *)

Section Facts.
Context `{FL : Faults} `{TD : TempDir} `{PS : Postcard string, !PostcardLaws PS}.
(** The page can hold the name of a file and the mark. *)
Definition roomy (r : StateRestorer) : Prop :=
  length EXITING_MAGIC ≤ length (buf (content r)) ∧
  ∀ b name, to_allocvec (state_filename b) = Ok name → 0 < length name ≤ length (buf (content r)).
(** The name of a file is not the mark, and can be written. *)
Context (named : ∀ b, ∃ name, to_allocvec (state_filename b) = Ok name ∧ take (length EXITING_MAGIC) name ≠ EXITING_MAGIC ∧ length EXITING_MAGIC ≤ length name).

Definition marked (r : StateRestorer) : Prop := take (length EXITING_MAGIC) (buf (content r)) = EXITING_MAGIC.

(** The serialized bytes are on the page, or in the file it names. *)
Definition carries (r : StateRestorer) (b : bytes) : Prop :=
  b ≠ [] ∧ buf_len (content r) ≤ length (buf (content r)) ∧ 0 < buf_len (content r) ∧
  let p := take (buf_len (content r)) (buf (content r)) in
  if is_disk (content r) then ∃ name, from_bytes p = Ok (name : string) ∧ fs_map (temp_dir r) !! name = Some b ∧ p ≠ EXITING_MAGIC
  else p = b.

Lemma put_ok b on_disk r : length b ≤ length (buf (content r)) →
  put b on_disk r = (Ok (), r <| content := mkContent on_disk (length b) (b ++ drop (length b) (buf (content r))) |>).
Proof.
  intros Hl. unfold put. rewrite bind_gets. unfold copy_to_buf. assert ((length b <=? length (buf (content r))) = true) as -> by by apply Nat.leb_le.
  rewrite bind_lift. done.
Qed.

Lemma put_length b r : length b ≤ length (buf (content r)) → length (b ++ drop (length b) (buf (content r))) = length (buf (content r)).
Proof. intros. rewrite length_app, length_drop. lia. Qed.

Lemma bind_on_disk {A B} (m : ME IoError Files A) (k : A → M StateRestorer B) r :
  bind (on_disk m) k r = match m (temp_dir r) with
                         | (Ok a, f) => k a (r <| temp_dir := f |>)
                         | (Err e, f) => (Err (io_error e), r <| temp_dir := f |>)
                         | (Panic, f) => (Panic, r <| temp_dir := f |>)
                         end.
Proof. unfold bind, on_disk, with_err, zoom. by destruct (m (temp_dir r)) as [[a|e|] f]. Qed.

(** Saving to an empty page: the state is there, or, after a fault of the disk, nothing. *)
Lemma save_cases {A} `{PA : Postcard A} (x : A) b r : roomy r → has_content r = false → to_allocvec x = Ok b → b ≠ [] →
  (∃ r', save x r = (Ok (), r') ∧ carries r' b ∧ length (buf (content r')) = length (buf (content r)) ∧
    (length EXITING_MAGIC ≤ length b → take (length EXITING_MAGIC) b ≠ EXITING_MAGIC → ¬ marked r')) ∨
  ((∃ n, disk_fault n ≠ None) ∧ ∃ e r', save x r = (Err e, r') ∧ content r' = content r).
Proof.
  intros [Hmag Hroom] Hempty Hx Hb. unfold save. rewrite bind_gets, Hempty. cbv iota. rewrite Hx, bind_lift, bind_gets. unfold mapsize.
  destruct (Nat.ltb_spec (size_of_content + length (buf (content r))) (size_of_content + length b)) as [Hbig|Hsmall].
  - destruct (named b) as (name & Hn & Hnm & Hnl). destruct (Hroom b name Hn) as [Hpos Hle].
    rewrite bind_on_disk. unfold create, io_op. destruct (disk_fault (fs_ticks (temp_dir r))) as [e|] eqn:Hf1.
    { right. split; [by eexists; rewrite Hf1|by eexists _, _]. }
    rewrite bind_on_disk. unfold write_all, io_op. cbn [temp_dir upd eta_StateRestorer fs_map fs_ticks]. destruct (disk_fault (S _)) as [e|] eqn:Hf2.
    { right. split; [by eexists; rewrite Hf2|by eexists _, _]. }
    rewrite Hn, bind_lift. assert ((size_of_content + length (buf (content r)) <? length name) = false) as -> by (apply Nat.ltb_ge; lia).
    left. rewrite put_ok by (cbn; done). eexists. split; [reflexivity|]. cbn [content temp_dir upd eta_StateRestorer is_disk buf_len buf].
    split; [|split; [cbn; by rewrite put_length|]].
    + split; [done|]. split; [cbn; rewrite put_length; done|]. split; [done|]. cbn. exists (state_filename b).
      rewrite take_app_le, take_ge by done. split; [by apply postcard_back|]. split; [by rewrite lookup_insert_eq|].
      intros E. apply Hnm. rewrite E at 1. by rewrite take_ge.
    + intros _ _. unfold marked. cbn. rewrite take_app_le by done. done.
  - left. assert (length b ≤ length (buf (content r))) as Hle by lia. rewrite put_ok by done. eexists. split; [reflexivity|]. cbn.
    split; [|split; [by rewrite put_length|]].
    + split; [done|]. cbn. rewrite put_length by done. split; [done|]. split; [by destruct b; cbn; [|lia]|]. by rewrite take_app_le, take_ge by done.
    + intros Hl Hne. unfold marked. cbn. by rewrite take_app_le by done.
Qed.

(** A page that carries a state gives it back. *)
Lemma restore_ok {A} `{PA : Postcard A, !PostcardLaws PA} (x : A) b r : carries r b → to_allocvec x = Ok b → b ≠ EXITING_MAGIC →
  disk_fault (fs_ticks (temp_dir r)) = None → ∃ r', restore r = (Ok (Some x), r') ∧ content r' = content r.
Proof.
  intros (Hb & Hle & Hpos & Hc) Hx Hne Hf0. unfold restore. rewrite bind_gets. unfold has_content. assert ((0 <? buf_len (content r)) = true) as -> by by apply Nat.ltb_lt.
  cbn [negb]. rewrite !bind_gets. unfold buf_len_checked, mapsize.
  assert ((size_of_content + length (buf (content r)) <? size_of_content + buf_len (content r)) = false) as -> by (apply Nat.ltb_ge; lia).
  rewrite bind_lift. unfold bytes_of_content. assert ((buf_len (content r) <=? length (buf (content r))) = true) as -> by by apply Nat.leb_le.
  rewrite bind_lift. destruct (is_disk (content r)).
  - destruct Hc as (name & Hn & Hf & Hm). rewrite bool_decide_false by done. rewrite Hn. eexists.
    match goal with |- bind ?m _ r = _ ∧ _ => assert (m r = (Ok b, r <| temp_dir := mkFiles (fs_map (temp_dir r)) (S (fs_ticks (temp_dir r))) |>)) as Em end.
    { rewrite bind_lift, bind_on_disk. unfold read_file, io_op. rewrite Hf0, Hf. by destruct b. }
    unfold bind at 1. rewrite Em.
    by rewrite (postcard_back _ _ Hx), bind_lift.
  - rewrite Hc, bool_decide_false by done. exists r. change (ret b) with (lift (S := StateRestorer) (Ok (E := Error) b)). by rewrite bind_lift, (postcard_back _ _ Hx).
Qed.
Lemma restore_nothing {A} `{PA : Postcard A} r : has_content r = false → restore (A := A) r = (Ok None, r).
Proof. intros He. unfold restore. by rewrite bind_gets, He. Qed.

Lemma reset_ok r : ∃ r', reset r = (Ok (), r') ∧ has_content r' = false ∧ buf (content r') = buf (content r) ∧ is_disk (content r') = false.
Proof. unfold reset. rewrite bind_gets. destruct (tmpfile _ _) as [[name|]| |]; (eexists; split; [reflexivity|]); [|done..].
  unfold has_content, ignore, on_disk, with_err, zoom. cbn. by destruct (remove_file name (temp_dir r)).
Qed.

Lemma roomy_same r r' : length (buf (content r')) = length (buf (content r)) → roomy r → roomy r'.
Proof. unfold roomy. by intros ->. Qed.

(** C17. What is saved is restored, whether it fits the page or goes to a file; when the disk fails, the save is an error
    and the next process finds nothing rather than a part of a state. *)
Theorem save_restore {A} `{PA : Postcard A, !PostcardLaws PA} (x : A) b r : roomy r → has_content r = false →
  to_allocvec x = Ok b → b ≠ [] → b ≠ EXITING_MAGIC →
  ∃ res r', save x r = (res, r') ∧
    match res with
    | Ok _ => disk_fault (fs_ticks (temp_dir r')) = None → (restore r').1 = Ok (Some x)
    | Err _ => (∃ n, disk_fault n ≠ None) ∧ (restore (A := A) r').1 = Ok None
    | Panic => False
    end.
Proof.
  intros Hr He Hx Hb Hm. destruct (save_cases x b r Hr He Hx Hb) as [(r' & E & Hc & _)|(Hf & e & r' & E & Ec)].
  - exists (Ok ()), r'. split; [done|]. intros Hf. by destruct (restore_ok x b r' Hc Hx Hm Hf) as (r'' & -> & _).
  - exists (Err e), r'. split; [done|]. split; [done|]. by rewrite restore_nothing by (by unfold has_content; rewrite Ec).
Qed.

Lemma send_exiting_marks r : length EXITING_MAGIC ≤ length (buf (content r)) → ∃ r', send_exiting r = (Ok (), r') ∧
  ∀ r'', buf (content r'') = buf (content r') → wants_to_exit r'' = Ok true.
Proof.
  intros Hl. destruct (reset_ok r) as (r0 & E0 & _ & Eb & _). unfold send_exiting, bind at 1. rewrite E0, bind_gets. unfold mapsize. rewrite Eb.
  assert ((size_of_content + length (buf (content r)) <? size_of_content + length EXITING_MAGIC) = false) as Hlt by (apply Nat.ltb_ge; lia).
  rewrite Hlt, bind_gets. unfold copy_to_buf. rewrite Eb. assert ((length EXITING_MAGIC <=? length (buf (content r))) = true) as -> by by apply Nat.leb_le.
  rewrite bind_lift. eexists. split; [reflexivity|]. cbn [content buf upd eta_StateRestorer eta_StateShMemContent].
  intros r' E'. unfold wants_to_exit, mapsize. rewrite E', put_length by done. rewrite Hlt.
  by rewrite take_app_le, take_ge, bool_decide_true by done.
Qed.

(** The mark of an orderly exit is not taken back by a reset: the parent would still take it for a request,
    although the page is empty. *)
Theorem exit_outlives_reset r : length EXITING_MAGIC ≤ length (buf (content r)) →
  ∃ r1 r2, send_exiting r = (Ok (), r1) ∧ wants_to_exit r1 = Ok true ∧ reset r1 = (Ok (), r2) ∧ has_content r2 = false ∧
    wants_to_exit r2 = Ok true.
Proof.
  intros Hl. destruct (send_exiting_marks r Hl) as (r1 & E1 & Hw). destruct (reset_ok r1) as (r2 & E2 & Hc2 & Eb2 & _).
  exists r1, r2. split; [done|]. split; [by apply Hw|]. split; [done|]. split; [done|]. by apply Hw.
Qed.
End Facts.

(** ** A chain of processes *)

Section Chain.
Context `{FL : Faults} `{TD : TempDir} `{PS : Postcard string, !PostcardLaws PS} {St : Type} `{PA : Postcard (St * Duration * list ClientStats), !PostcardLaws PA}.
Context (state_on_restart : St → St) (child : nat → option St * CustomMonitor → ChildEnd (St := St) * Z).
Context (no_fault : ∀ n, disk_fault n = None).
Context (named : ∀ b, ∃ name, to_allocvec (state_filename b) = Ok name ∧ take (length EXITING_MAGIC) name ≠ EXITING_MAGIC ∧ length EXITING_MAGIC ≤ length name).
(** What a process dies with can be written, is more than a few bytes, and does not begin with the mark. *)
Context (storable : ∀ n start s m status, child n start = (Died s m, status) → ∃ b,
  to_allocvec (state_on_restart s, mon_start_time m, client_stats m) = Ok b ∧
  length EXITING_MAGIC ≤ length b ∧ take (length EXITING_MAGIC) b ≠ EXITING_MAGIC).

(** What the processes would do if the state were handed over by itself: the first begins anew, the others where
    the one before them died. *)
Fixpoint chain (fuel ctr : nat) (mon : CustomMonitor) (start : option St * CustomMonitor) : outcome Error () * list (option St * CustomMonitor) :=
  match fuel with
  | O => (Ok (), [])
  | S fuel =>
    let '(how, status) := child ctr start in
    let '(res, starts) :=
      if (status =? CTRL_C_EXIT)%Z then (Err ShuttingDown, [])
      else match how with
           | Died s m => chain fuel (S ctr) mon (Some (state_on_restart s),
                           mon <| mon_start_time := mon_start_time m |> <| client_stats := client_stats m |>)
           | Exited => (Err ShuttingDown, [])
           | Killed => (Panic, [])
           end in
    (res, start :: starts)
  end.

(** The page holds what the next process is to start with. *)
Definition resumable (mon : CustomMonitor) (start : option St * CustomMonitor) (r : StateRestorer) : Prop :=
  roomy r ∧ ¬ marked r ∧
  (has_content r = false ∧ start = (None, mon) ∨
   ∃ s t stats b, carries r b ∧ to_allocvec (s, t, stats) = Ok b ∧ b ≠ EXITING_MAGIC ∧
     start = (Some s, mon <| mon_start_time := t |> <| client_stats := stats |>)).

Lemma resume_ok mon start r : resumable mon start r →
  ∃ r', resume mon r = (Ok start, r') ∧ has_content r' = false ∧ roomy r' ∧ ¬ marked r'.
Proof.
  intros (Hr & Hm & [[He ->]|(s & t & stats & b & Hc & Hx & Hne & ->)]); unfold resume, bind.
  - exists r. by rewrite restore_nothing.
  - destruct (restore_ok _ _ _ Hc Hx Hne (no_fault _)) as (r0 & -> & E0). destruct (reset_ok r0) as (r' & E & He & Eb & _). rewrite E.
    exists r'. split; [done|]. split; [done|]. rewrite E0 in Eb. split; [by eapply roomy_same; [by rewrite Eb|]|]. unfold marked. by rewrite Eb.
Qed.

(** A process that dies with its handler running leaves its state for the next. *)
Lemma on_restart_ok n start s m status r mon : child n start = (Died s m, status) → roomy r → ∃ r', mgr_on_restart state_on_restart s m r = (Ok (), r') ∧ has_content r' = true ∧
  resumable mon (Some (state_on_restart s), mon <| mon_start_time := mon_start_time m |> <| client_stats := client_stats m |>) r'.
Proof.
  intros Hch Hr. unfold mgr_on_restart. destruct (reset_ok r) as (r0 & E0 & He & Eb & _). unfold bind. rewrite E0.
  set (x := (state_on_restart s, mon_start_time m, client_stats m)). destruct (storable _ _ _ _ _ Hch) as (b & Hx & Hl & Hm).
  assert (b ≠ [] ∧ b ≠ EXITING_MAGIC) as [Hb Hne].
  { split; intros ->; [cbn in Hl; lia|]. apply Hm. by rewrite take_ge. }
  destruct (save_cases named x b r0) as [(r' & E & Hc & Hlen & Hmk)|([k Hf] & _)]; [by eapply roomy_same; [by rewrite Eb|]|done|done|done| |by rewrite no_fault in Hf].
  exists r'. split; [done|]. destruct Hc as (Hb0 & Hle & Hpos & Hc). split; [by apply Nat.ltb_lt|]. split; [by eapply roomy_same; [|exact Hr]; rewrite Hlen, Eb|].
  split; [by apply Hmk|]. right. by exists (state_on_restart s), (mon_start_time m), (client_stats m), b.
Qed.

Lemma wants_ok r : roomy r → wants_to_exit r = Ok (bool_decide (marked r)).
Proof. intros [Hl _]. unfold wants_to_exit, mapsize. by destruct (Nat.ltb_spec (size_of_content + length (buf (content r))) (size_of_content + length EXITING_MAGIC)); [lia|]. Qed.

(** C16. The restarting manager is as good as handing the state over directly: each process starts exactly with the state, the start time
    and the numbers its predecessor died with, and the parent stops when one exits in order, gives up when
    one is killed without having saved, and goes on otherwise. *)
Theorem restart_chain fuel ctr mon start r : resumable mon start r →
  (launch state_on_restart child fuel ctr mon r).1 = ((chain fuel ctr mon start).1, Some <$> (chain fuel ctr mon start).2).
Proof.
  revert ctr start r. induction fuel as [|fuel IH]; intros ctr start r Hres; [done|]. cbn [launch chain]. unfold child_process.
  destruct (resume_ok mon start r Hres) as (r1 & E & He & Hr & Hm). rewrite E. destruct (child ctr start) as [how status] eqn:Hch.
  destruct how as [s m| |].
  - destruct (on_restart_ok _ _ s m _ r1 mon Hch Hr) as (r2 & E2 & Hc2 & Hres2). rewrite E2. destruct (status =? CTRL_C_EXIT)%Z; [done|].
    rewrite wants_ok by apply Hres2. rewrite bool_decide_false by apply Hres2. rewrite Hc2. cbn [negb]. specialize (IH (S ctr) _ r2 Hres2).
    destruct (launch state_on_restart child fuel (S ctr) mon r2) as [[res starts] r3]. cbn [fst] in IH.
    destruct (chain fuel (S ctr) mon _) as [res' starts']. cbn [fst snd] in IH. by injection IH as -> ->.
  - destruct (send_exiting_marks r1 (proj1 Hr)) as (r2 & E2 & Hw). rewrite E2. by destruct (status =? CTRL_C_EXIT)%Z; [|rewrite Hw].
  - destruct (status =? CTRL_C_EXIT)%Z; [done|]. rewrite wants_ok, bool_decide_false by done. by rewrite He.
Qed.
End Chain.

(** ** A concrete page *)

Module RestartDemo.
Definition toy_string_ser (s : string) : bytes := Byte.x1d :: String.list_byte_of_string s.
#[local] Instance toy_string : Postcard string := {
  to_allocvec s := Ok (toy_string_ser s);
  from_bytes b := match b with [] => Err (Serialize (fmt "" [])) | _ :: l => Ok (String.string_of_list_byte l) end;
}.
#[local] Instance toy_string_laws : PostcardLaws toy_string.
Proof. constructor. intros a b [= <-]. cbn. by rewrite String.string_of_list_byte_of_string. Qed.

(** A small state, with a monitor that was started at 7 and has no clients yet. *)
Definition toy_ser (s : nat) : bytes := replicate 16 Byte.x02 ++ replicate s Byte.x01.
#[local] Instance toy_state : Postcard (nat * Duration * list ClientStats) := {
  to_allocvec x := match x with (s, t, []) => if (t =? 7)%Z then Ok (toy_ser s) else Err (Serialize (fmt "" [])) | _ => Err (Serialize (fmt "" [])) end;
  from_bytes b := Ok (length b - 16, 7%Z, []);
}.
#[local] Instance toy_state_laws : PostcardLaws toy_state.
Proof.
  constructor. intros [[s t] [|c l]] b; [|done]. cbn [to_allocvec toy_state]. destruct (Z.eqb_spec t 7) as [->|]; [|done]. intros [= <-].
  unfold from_bytes, toy_state, toy_ser. rewrite length_app, !length_replicate. do 3 f_equal. lia.
Qed.

#[local] Instance toy_temp : TempDir := { hash_state _ := 48879%Z }.
#[local] Instance toy_faults : Faults := { disk_fault _ := None; disk_partial _ := 0 }.
Definition toy_page : StateRestorer := mkRestorer (mkContent false 0 (replicate 40 Byte.x00)) (mkFiles ∅ 0).
Definition toy_monitor : CustomMonitor := mkCustomMonitor 7 true [].

Lemma toy_named b : ∃ name, to_allocvec (state_filename b) = Ok name ∧ take (length EXITING_MAGIC) name ≠ EXITING_MAGIC ∧ length EXITING_MAGIC ≤ length name.
Proof. eexists. split; [reflexivity|]. split; [by vm_compute|]. vm_compute. lia. Qed.
Lemma toy_roomy : roomy toy_page.
Proof. split; [vm_compute; lia|]. intros b name [= <-]. vm_compute. lia. Qed.
Lemma toy_empty : ¬ marked toy_page.
Proof. by vm_compute. Qed.

(** One state that fits the page of 40 bytes, and one of 66 bytes that goes to a file. *)
Lemma save_restore_witness : (restore (A := nat * Duration * list ClientStats) (save (3, 7%Z, []) toy_page).2).1 = Ok (Some (3, 7%Z, [])) ∧
  is_disk (content (save (50, 7%Z, []) toy_page).2) = true ∧
  (restore (A := nat * Duration * list ClientStats) (save (50, 7%Z, []) toy_page).2).1 = Ok (Some (50, 7%Z, [])).
Proof.
  destruct (save_restore (PA := toy_state) toy_named (3, 7%Z, []) (toy_ser 3) toy_page toy_roomy eq_refl ltac:(reflexivity) ltac:(done) ltac:(by vm_compute)) as (res1 & r1 & E1 & H1).
  destruct (save_restore (PA := toy_state) toy_named (50, 7%Z, []) (toy_ser 50) toy_page toy_roomy eq_refl ltac:(reflexivity) ltac:(done) ltac:(by vm_compute)) as (res2 & r2 & E2 & H2).
  rewrite E1, E2. cbn [snd]. destruct res1 as [[]| |]; [|by destruct H1 as [[n Hn] _]; destruct Hn|done]. destruct res2 as [[]| |]; [|by destruct H2 as [[n Hn] _]; destruct Hn|done].
  split; [by apply H1|]. split; [|by apply H2]. change r2 with (Ok () (E := Error), r2).2. rewrite <- E2. by vm_compute.
Defined.

Lemma exit_outlives_reset_witness : wants_to_exit (reset (send_exiting toy_page).2).2 = Ok true.
Proof.
  destruct (exit_outlives_reset toy_page ltac:(vm_compute; lia)) as (r1 & r2 & E1 & _ & E2 & _ & Hw). rewrite E1. cbn [snd]. rewrite E2. exact Hw.
Defined.

(** Two processes die, the third exits. *)
Definition toy_child (n : nat) (start : option nat * CustomMonitor) : ChildEnd (St := nat) * Z :=
  if n <? 2 then (Died (default 0 start.1 + 20) toy_monitor, 134%Z) else (Exited, 0%Z).
Lemma toy_storable n start s m status : toy_child n start = (Died s m, status) → ∃ b,
  to_allocvec (s, mon_start_time m, client_stats m) = Ok b ∧ length EXITING_MAGIC ≤ length b ∧ take (length EXITING_MAGIC) b ≠ EXITING_MAGIC.
Proof. unfold toy_child. destruct (n <? 2); [|done]. intros [= <- <- _]. eexists. split; [reflexivity|]. split; [vm_compute; lia|by vm_compute]. Qed.

Lemma restart_chain_witness :
  (launch id toy_child 5 0 toy_monitor toy_page).1 = (Err ShuttingDown, [Some (None, toy_monitor); Some (Some 20, toy_monitor); Some (Some 40, toy_monitor)]).
Proof.
  rewrite (restart_chain (FL := toy_faults) (PA := toy_state) id toy_child (λ _, eq_refl) toy_named toy_storable 5 0 toy_monitor (None, toy_monitor) toy_page
    (conj toy_roomy (conj toy_empty (or_introl (conj eq_refl eq_refl))))). reflexivity.
Defined.
End RestartDemo.
