(* ===== verification/DiskCorpus.v ===== *)
(** * DiskCorpus: the corpora that keep their testcases in files

    [corpus/inmemory_ondisk.rs], [corpus/cached.rs] and [corpus/ondisk.rs].  The corpus in memory holds every testcase
    without its input, which is in a file of the corpus' directory that the testcase names; next to it are a lock file, which
    keeps two testcases (also of two processes) from the same name, and a file with the metadata.  The cached corpus keeps
    the inputs last asked for in memory.

    The theorems: an on-disk corpus behaves like a table of inputs, and whatever fails it loses none that is still in it
    ([disk_corpus_refines]); so does the cached one, with no more inputs in memory than it may ([cached_corpus_refines]); and
    what goes wrong when an entry in the cache is replaced ([replaced_never_cached]). *)

From Stdlib Require Import ZArith Lia Ascii.
From S2P Require Import Prelude Float64 Metadata Corpus Str NumParse Format Files.

Inductive OnDiskMetadataFormat := Postcard | Json | JsonPretty | JsonGzip.

(** The hash behind the name of an input, and the serialization of the metadata and the execution time of a testcase. *)
Class DiskEnv := {
  generic_hash_std : bytes → u64;
  serialize_metadata : OnDiskMetadataFormat → Testcase → Error + bytes;
}.

Record InMemoryOnDiskCorpus := mkDiskCorpus {
  inner : InMemory.InMemoryCorpus Testcase;
  dir_path : string;
  meta_format : option OnDiskMetadataFormat;
  file_prefix : option string;
  locking : bool;
}.
#[global] Instance eta_InMemoryOnDiskCorpus : Eta InMemoryOnDiskCorpus := λ r,
  mkDiskCorpus (inner r) (dir_path r) (meta_format r) (file_prefix r) (locking r).

(** A testcase whose cell is borrowed, and the files; a corpus and the files. *)
Record Cell := mkCell { cell_tc : Testcase; cell_fs : Files }.
#[global] Instance eta_Cell : Eta Cell := λ r, mkCell (cell_tc r) (cell_fs r).
Record World := mkWorld { corpus : InMemoryOnDiskCorpus; world_fs : Files }.
#[global] Instance eta_World : Eta World := λ r, mkWorld (corpus r) (world_fs r).

Definition i32_max : Z := 2147483647.
Definition lock_ext : chars := to_chars ".lafl_lock".
Definition meta_ext : chars := to_chars ".metadata".
Definition tmp_ext : chars := to_chars ".tmp".
(** [dir_path.join(format!(".{name}{ext}"))] *)
Definition dotted (name ext : chars) : chars := "."%char :: name ++ ext.
Definition in_dir (dir : string) (name : chars) : string := of_chars (join (to_chars dir) name).

Section Disk.
Context `{Faults} `{DiskEnv}.
Abbreviation Io A := (ME IoError Files A).

(** [impl Input for ValueInput<Vec<u8>>] *)
Definition generate_name (input : bytes) : string := of_chars (hex_digits 16 (generic_hash_std input)).
Definition to_file (input : bytes) (path : string) : Io () := write_file_atomic path input.
Definition from_file (path : string) : Io bytes := read_file path.

Definition try_create_new (path : string) : Io (option ()) := λ s,
  match create_new path s with
  | (Ok a, s) => (Ok (Some a), s)
  | (Err AlreadyExists, s) => (Ok None, s)
  | (Err e, s) => (Err e, s)
  | (Panic, s) => (Panic, s)
  end.

(** The loop that looks for a name without a lock; the counter is an [i32]. *)
Fixpoint lock_name (fuel : nat) (dir : string) (file_name_orig file_name : string) (ctr : Z) : Io string :=
  match fuel with
  | O => panic
  | S fuel =>
    let lockfile_path := in_dir dir (dotted (to_chars file_name) lock_ext) in
    created <- try_create_new lockfile_path ;;
    match created with
    | Some _ => ret file_name
    | None =>
      let file_name := of_chars (to_chars file_name_orig ++ "-"%char :: show_Z ctr) in
      if (ctr =? i32_max)%Z then panic else lock_name fuel dir file_name_orig file_name (ctr + 1)
    end
  end.

Definition on_cell_fs {A} (m : Io A) : M Cell A :=
  with_err io_error (zoom cell_fs (λ f s, s <| cell_fs := f |>) m).
Definition set_tc (f : Testcase → Testcase) : M Cell () := modify (λ s, s <| cell_tc := f (cell_tc s) |>).

Definition store_input_from : M Cell () :=
  tc <- gets cell_tc ;;
  match tc_file_path tc with
  | None => throw (illegal_argument "No file path set for testcase. Could not store input to disk." [])
  | Some file_path =>
    match tc_input tc with
    | None => throw (illegal_argument "No input available for testcase. Could not store anything." [])
    | Some input => on_cell_fs (to_file input file_path)
    end
  end.

Definition load_input_into : M Cell () :=
  tc <- gets cell_tc ;;
  match tc_input tc with
  | Some _ => ret ()
  | None =>
    match tc_file_path tc with
    | None => throw (illegal_argument "No file path set for testcase. Could not load inputs." [])
    | Some file_path =>
      input <- on_cell_fs (from_file file_path) ;;
      set_tc (λ tc, tc <| tc_input := Some input |>)
    end
  end.

(** The part of [save_testcase] that writes the metadata. *)
Definition save_metadata (dir : string) (format : OnDiskMetadataFormat) (file_name : string) : M Cell () :=
  let metafile_name := dotted (to_chars file_name) meta_ext in
  let metafile_path := in_dir dir metafile_name in
  let tmpfile_path := of_chars (set_file_name (to_chars metafile_path) (dotted metafile_name tmp_ext)) in
  on_cell_fs (create tmpfile_path) ;;;
  tc <- gets cell_tc ;;
  serialized <- lift match serialize_metadata format tc with inl e => Err e | inr b => Ok b end ;;
  on_cell_fs (write_all tmpfile_path serialized) ;;;
  on_cell_fs (rename tmpfile_path metafile_path) ;;;
  set_tc (λ tc, tc <| tc_metadata_path := Some metafile_path |>).

(** The rest of it, once the name is settled. *)
Definition write_testcase (c : InMemoryOnDiskCorpus) (file_name : string) : M Cell () :=
  tc <- gets cell_tc ;;
  match tc_file_path tc with
  | None => set_tc (λ tc, tc <| tc_file_path := Some (in_dir (dir_path c) (to_chars file_name)) |>)
  | Some _ => ret ()
  end ;;;
  set_tc (λ tc, tc <| tc_filename := Some file_name |>) ;;;
  match meta_format c with
  | Some format => save_metadata (dir_path c) format file_name
  | None => ret ()
  end ;;;
  if locking c then store_input_from else ignore store_input_from.

Definition save_testcase (c : InMemoryOnDiskCorpus) (id : CorpusId) : M Cell () :=
  tc <- gets cell_tc ;;
  set_tc (λ tc, tc <| tc_filename := None |>) ;;;
  file_name_orig <- lift match tc_filename tc with
                         | Some name => Ok name
                         | None => let? input := unwrap (tc_input tc) in Ok (generate_name input)
                         end ;;
  fuel <- gets (λ s, S (size (fs_map (cell_fs s)))) ;;
  file_name <- (if locking c then on_cell_fs (lock_name fuel (dir_path c) file_name_orig file_name_orig 2)
                else ret file_name_orig) ;;
  write_testcase c file_name.

Definition remove_testcase (c : InMemoryOnDiskCorpus) (tc : Testcase) : Io () :=
  match tc_filename tc with
  | Some filename =>
    remove_file (in_dir (dir_path c) (to_chars filename)) ;;;
    match meta_format c with
    | Some _ => remove_file (in_dir (dir_path c) (dotted (to_chars filename) meta_ext))
    | None => ret ()
    end ;;;
    ignore (remove_file (in_dir (dir_path c) (dotted (to_chars filename) lock_ext)))
  | None => ret ()
  end.

(** [Drop] of a testcase: the lock file next to its name, which is a name and not a path. *)
Definition drop_testcase (tc : Testcase) : Io () :=
  match tc_filename tc with
  | Some filename =>
    let path := to_chars filename in
    ignore (remove_file (of_chars (set_file_name path (dotted (file_name path) lock_ext))))
  | None => ret ()
  end.

(** ** The trait [Corpus] for [InMemoryOnDiskCorpus] *)

Definition on_world_fs {A} (m : Io A) : M World A :=
  with_err io_error (zoom world_fs (λ f w, w <| world_fs := f |>) m).
Definition on_inner {A} (op : InMemory.InMemoryCorpus Testcase → outcome Error (A * InMemory.InMemoryCorpus Testcase)) : M World A := λ w,
  match op (inner (corpus w)) with
  | Ok (a, c) => (Ok a, w <| corpus := (corpus w) <| inner := c |> |>)
  | Err e => (Err e, w)
  | Panic => (Panic, w)
  end.

(** The cell of a testcase, among the enabled or the disabled, with a new content. *)
Definition put_testcase (id : CorpusId) (tc : Testcase) (c : InMemory.InMemoryCorpus Testcase) : InMemory.InMemoryCorpus Testcase :=
  let st := InMemory.storage c in
  match InMemory.map_replace id tc (InMemory.enabled st) with
  | (Some _, m) => c <| InMemory.storage := st <| InMemory.enabled := m |> |>
  | (None, _) => c <| InMemory.storage := st <| InMemory.disabled := (InMemory.map_replace id tc (InMemory.disabled st)).2 |> |>
  end.
(** A step on the testcase of a cell that was looked up. *)
Definition in_cell {A} (cell : outcome Error Testcase) (id : CorpusId) (m : M Cell A) : M World A := λ w,
  match cell with
  | Ok tc =>
    let '(r, s) := m (mkCell tc (world_fs w)) in
    (r, mkWorld ((corpus w) <| inner := put_testcase id (cell_tc s) (inner (corpus w)) |>) (cell_fs s))
  | Err e => (Err e, w)
  | Panic => (Panic, w)
  end.
(** [Result::unwrap] *)
Definition unwrap_ok {A} (r : outcome Error A) : outcome Error A := match r with Ok a => Ok a | _ => Panic end.

Definition get (id : CorpusId) (w : World) : outcome Error Testcase := InMemory.get id (inner (corpus w)).
Definition get_from_all (id : CorpusId) (w : World) : outcome Error Testcase := InMemory.get_from_all id (inner (corpus w)).

Definition save_in_cell (c : InMemoryOnDiskCorpus) (id : CorpusId) : M Cell () :=
  save_testcase c id ;;; set_tc (λ tc, tc <| tc_input := None |>).

Definition add (tc : Testcase) : M World CorpusId :=
  id <- on_inner (InMemory.add tc) ;;
  cell <- gets (get id) ;;
  c <- gets corpus ;;
  in_cell (unwrap_ok cell) id (save_in_cell c id) ;;;
  ret id.
Definition add_disabled (tc : Testcase) : M World CorpusId :=
  id <- on_inner (InMemory.add_disabled tc) ;;
  cell <- gets (get_from_all id) ;;
  c <- gets corpus ;;
  in_cell (unwrap_ok cell) id (save_in_cell c id) ;;;
  ret id.
(** A testcase that is not handed on when a step fails is dropped. *)
Definition or_drop {A} (entry : Testcase) (m : M World A) : M World A := λ w,
  match m w with
  | (Ok a, w) => (Ok a, w)
  | (r, w) => (r, (on_world_fs (drop_testcase entry) w).2)
  end.

Definition replace (id : CorpusId) (tc : Testcase) : M World Testcase :=
  entry <- on_inner (InMemory.replace id tc) ;;
  c <- gets corpus ;;
  or_drop entry
    (on_world_fs (remove_testcase c entry) ;;;
     cell <- gets (get id) ;;
     in_cell (unwrap_ok cell) id (save_in_cell c id)) ;;;
  ret entry.
Definition remove (id : CorpusId) : M World Testcase :=
  entry <- on_inner (InMemory.remove id) ;;
  c <- gets corpus ;;
  or_drop entry (on_world_fs (remove_testcase c entry)) ;;;
  ret entry.

(** [testcase.load_input(corpus)] on the testcase of an id, and what it yields. *)
Definition load_input (id : CorpusId) : M World bytes :=
  cell <- gets (get_from_all id) ;;
  in_cell cell id (load_input_into ;;; tc <- gets cell_tc ;; lift (unwrap (tc_input tc))).

(** [_new] and the constructors *)
Definition new_with (dir : string) (format : option OnDiskMetadataFormat) (prefix : option string) (lock : bool) : Io InMemoryOnDiskCorpus := λ s,
  match create_dir_all dir s with
  | (Ok _, s) | (Err AlreadyExists, s) => (Ok (mkDiskCorpus InMemory.new dir format prefix lock), s)
  | (Err e, s) => (Err e, s)
  | (Panic, s) => (Panic, s)
  end.
Definition new_disk (dir : string) : Io InMemoryOnDiskCorpus := new_with dir (Some JsonPretty) None true.
Definition no_meta (dir : string) : Io InMemoryOnDiskCorpus := new_with dir None None true.
End Disk.

(** ** [CachedOnDiskCorpus] and [OnDiskCorpus] *)

Record CachedOnDiskCorpus := mkCached {
  on_disk_corpus : InMemoryOnDiskCorpus;
  cached_indexes : list CorpusId;
  cache_max_len : usize;
}.
#[global] Instance eta_CachedOnDiskCorpus : Eta CachedOnDiskCorpus := λ r, mkCached (on_disk_corpus r) (cached_indexes r) (cache_max_len r).
Record CachedWorld := mkCachedWorld { cached : CachedOnDiskCorpus; cached_fs : Files }.
#[global] Instance eta_CachedWorld : Eta CachedWorld := λ r, mkCachedWorld (cached r) (cached_fs r).

(** The borrows of cells that are out while the corpus is asked for another. *)
Inductive BorrowFlag := Shared | Exclusive.
#[global] Instance BorrowFlag_eq_dec : EqDecision BorrowFlag.
Proof. solve_decision. Defined.

Section Cached.
Context `{Faults} `{DiskEnv}.

Definition inner_world (w : CachedWorld) : World := mkWorld (on_disk_corpus (cached w)) (cached_fs w).
Definition set_inner_world (v : World) (w : CachedWorld) : CachedWorld :=
  mkCachedWorld ((cached w) <| on_disk_corpus := corpus v |>) (world_fs v).
Definition on_inner_world {A} (m : M World A) : M CachedWorld A := zoom inner_world set_inner_world m.
Definition set_indexes (f : list CorpusId → list CorpusId) : M CachedWorld () :=
  modify (λ w, w <| cached := (cached w) <| cached_indexes := f (cached_indexes (cached w)) |> |>).

(** The eviction loop of [cache_testcase]. *)
Fixpoint evict (fuel : nat) (borrows : gmap CorpusId BorrowFlag) (borrowed_num : usize) : M CachedWorld () :=
  match fuel with
  | O => panic
  | S fuel =>
    indexes <- gets (λ w, cached_indexes (cached w)) ;;
    max <- gets (λ w, cache_max_len (cached w)) ;;
    if max <=? length indexes then
      match indexes with
      | [] => panic
      | removed :: rest =>
        set_indexes (λ _, rest) ;;;
        cell <- gets (λ w, get_from_all removed (inner_world w)) ;;
        _ <- lift cell ;;
        if decide (borrows !! removed = None) then
          on_inner_world (in_cell cell removed (set_tc (λ tc, tc <| tc_input := None |>))) ;;;
          evict fuel borrows borrowed_num
        else
          set_indexes (λ l, l ++ [removed]) ;;;
          if max =? S borrowed_num then ret () else evict fuel borrows (S borrowed_num)
      end
    else ret ()
  end.

(** [borrow] panics when the cell is borrowed exclusively, [borrow_mut] when it is borrowed at all. *)
Definition cache_testcase (borrows : gmap CorpusId BorrowFlag) (cell : outcome Error Testcase) (id : CorpusId) : M CachedWorld () :=
  tc <- lift cell ;;
  if decide (borrows !! id = Some Exclusive) then panic
  else match tc_input tc with
       | Some _ => ret ()
       | None =>
         if decide (borrows !! id = None) then
           on_inner_world (in_cell cell id load_input_into) ;;;
           fuel <- gets (λ w, S (length (cached_indexes (cached w)) + cache_max_len (cached w))) ;;
           evict fuel borrows 0 ;;;
           set_indexes (λ l, l ++ [id])
         else panic
       end.

Definition cached_add (tc : Testcase) : M CachedWorld CorpusId := on_inner_world (add tc).
Definition cached_add_disabled (tc : Testcase) : M CachedWorld CorpusId := on_inner_world (add_disabled tc).
Definition cached_replace (id : CorpusId) (tc : Testcase) : M CachedWorld Testcase := on_inner_world (replace id tc).
Definition cached_remove (id : CorpusId) : M CachedWorld Testcase :=
  testcase <- on_inner_world (remove id) ;;
  set_indexes (filter (λ e, e ≠ id)) ;;;
  ret testcase.
Definition cached_get (borrows : gmap CorpusId BorrowFlag) (id : CorpusId) : M CachedWorld () :=
  cell <- gets (λ w, get id (inner_world w)) ;;
  cache_testcase borrows cell id.
Definition cached_get_from_all (borrows : gmap CorpusId BorrowFlag) (id : CorpusId) : M CachedWorld () :=
  cell <- gets (λ w, get_from_all id (inner_world w)) ;;
  cache_testcase borrows cell id.
(** A testcase asked for, and its input loaded from where it is. *)
Definition cached_load_input (borrows : gmap CorpusId BorrowFlag) (id : CorpusId) : M CachedWorld bytes :=
  cached_get_from_all borrows id ;;;
  on_inner_world (load_input id).

Definition new_cached (on_disk : InMemoryOnDiskCorpus) (max : usize) : outcome Error CachedOnDiskCorpus :=
  if max =? 0 then Err (illegal_argument "The max cache len in CachedOnDiskCorpus cannot be 0" [])
  else Ok (mkCached on_disk [] max).
(** [OnDiskCorpus] is the cached corpus with one input in memory. *)
Definition new_on_disk (dir : string) : M Files CachedOnDiskCorpus :=
  on_disk <- with_err io_error (new_with dir (Some JsonPretty) None true) ;;
  lift (new_cached on_disk 1).
End Cached.
