(* ===== verification/DiskFacts.v ===== *)
(** * DiskFacts: what the corpora on disk promise

    The names of a corpus' files do not clash ([path_inj]); the loop for a free name ends ([lock_name_spec]); then the
    simulation of a table of inputs by the corpus and its files, [disk_corpus_refines]. *)

From Stdlib Require Import ZArith Lia Ascii.
From S2P Require Import Prelude Float64 Metadata Corpus Str NumParse Format Files DiskCorpus.
Import InMemoryFacts.

(** ** The names of the files of a testcase *)

Inductive Kind := KFile | KLock | KMeta | KMetaTmp | KTmp.
#[global] Instance Kind_eq_dec : EqDecision Kind.
Proof. solve_decision. Defined.
Definition name_of (k : Kind) (n : chars) : chars :=
  match k with
  | KFile => n
  | KLock => dotted n lock_ext
  | KMeta => dotted n meta_ext
  | KMetaTmp => dotted (dotted n meta_ext) tmp_ext
  | KTmp => dotted n tmp_ext
  end.
(** A name as [generate_name] makes them: not hidden, and not a path. *)
Definition plain (f : string) : Prop := to_chars f ≠ [] ∧ head (to_chars f) ≠ Some "."%char ∧ slash ∉ to_chars f.

Lemma dotted_no_slash n ext : slash ∉ n → slash ∉ ext → slash ∉ dotted n ext.
Proof. unfold dotted. intros Hn He. rewrite not_elem_of_cons, not_elem_of_app. done. Qed.
Lemma ext_no_slash : slash ∉ lock_ext ∧ slash ∉ meta_ext ∧ slash ∉ tmp_ext.
Proof. split_and!; apply (bool_decide_unpack _); by vm_compute. Qed.
Lemma name_of_no_slash k n : slash ∉ n → slash ∉ name_of k n.
Proof.
  intros Hn. destruct ext_no_slash as (Hl & Hm & Ht). by destruct k; cbn; [|repeat apply dotted_no_slash..].
Qed.

Definition last_char (k : Kind) : ascii := match k with KLock => "k" | KMeta => "a" | _ => "p" end.
Lemma name_of_last k n : k ≠ KFile → last (name_of k n) = Some (last_char k).
Proof.
  assert (∀ m e x, last e = Some x → last (dotted m e) = Some x) as Hd.
  { intros m e x Hx. unfold dotted. rewrite app_comm_cons, last_app, Hx. done. }
  intros Hk. destruct k; [done|..]; by apply Hd.
Qed.
Lemma name_of_head k n : k ≠ KFile → head (name_of k n) = Some "."%char.
Proof. by destruct k. Qed.

Lemma dotted_inj n n' ext : dotted n ext = dotted n' ext → n = n'.
Proof. unfold dotted. intros [= E]. by apply app_inv_tail in E. Qed.

Lemma name_of_inj k k' f f' : plain f → plain f' → name_of k (to_chars f) = name_of k' (to_chars f') → k = k' ∧ to_chars f = to_chars f'.
Proof.
  intros (_ & Hh & _) (_ & Hh' & _) E.
  assert (k = KFile ↔ k' = KFile) as Hkk.
  { split; intros ->; [destruct (decide (k' = KFile)) as [|Hk]|destruct (decide (k = KFile)) as [|Hk]]; try done; exfalso.
    - apply Hh. cbn in E. rewrite E. by apply name_of_head.
    - apply Hh'. cbn in E. rewrite <- E. by apply name_of_head. }
  destruct (decide (k = KFile)) as [->|Hk]; [rewrite (proj1 Hkk eq_refl) in *; done|].
  assert (k' ≠ KFile) as Hk' by tauto.
  assert (last_char k = last_char k') as Hl by (pose proof (name_of_last k (to_chars f) Hk); pose proof (name_of_last k' (to_chars f') Hk'); congruence).
  destruct k, k'; try done; (split; [done|]) || exfalso; repeat apply dotted_inj in E; try done.
  - apply Hh'. by rewrite <- E.
  - apply Hh. by rewrite E.
Qed.

(** ** Names that the loop tries *)

(** The [i]th name for a testcase. *)
Definition nth_name (orig : string) (i : nat) : string :=
  match i with O => orig | S _ => of_chars (to_chars orig ++ "-"%char :: show_Z (Z.of_nat (S i))) end.

Lemma show_Z_inj a b : (0 ≤ a)%Z → (0 ≤ b)%Z → show_Z a = show_Z b → a = b.
Proof.
  intros Ha Hb E. pose proof (parse_uint_show (Z.max a b) a ltac:(lia)) as H1.
  pose proof (parse_uint_show (Z.max a b) b ltac:(lia)) as H2. rewrite E in H1. congruence.
Qed.
Lemma show_Z_no_slash a : (0 ≤ a)%Z → slash ∉ show_Z a.
Proof.
  intros Ha. unfold show_Z. assert ((a <? 0) = false)%Z as -> by (apply Z.ltb_ge; lia).
  destruct (show_nat_spec a Ha) as (HF & _). intros Hin. rewrite Forall_forall in HF. by destruct (HF _ Hin).
Qed.

Lemma nth_name_inj orig i j : nth_name orig i = nth_name orig j → i = j.
Proof.
  intros E. destruct i as [|i], j as [|j]; cbn [nth_name] in E; [done|..].
  - exfalso. apply (f_equal (λ s, length (to_chars s))) in E. rewrite to_of_chars, length_app in E. cbn in E. lia.
  - exfalso. apply (f_equal (λ s, length (to_chars s))) in E. rewrite to_of_chars, length_app in E. cbn in E. lia.
  - apply of_chars_inj, app_inv_head in E. injection E as E. apply show_Z_inj in E; lia.
Qed.
Lemma nth_name_plain orig i : plain orig → plain (nth_name orig i).
Proof.
  intros (Hne & Hh & Hs). destruct i as [|i]; [done|]. unfold plain, nth_name. rewrite to_of_chars.
  destruct (to_chars orig) as [|c l]; [done|]. split_and!; [done|done|].
  rewrite not_elem_of_app. split; [done|]. rewrite not_elem_of_cons. split; [by intros [=]|]. apply show_Z_no_slash. lia.
Qed.

Lemma hex_char_ok x : hex_char (x mod 16) ≠ slash ∧ hex_char (x mod 16) ≠ "."%char.
Proof.
  pose proof (Z.mod_pos_bound x 16 ltac:(lia)) as Hx. set (d := (x mod 16)%Z) in *. clearbody d.
  assert (∃ n, d = Z.of_nat n ∧ n < 16) as (n & -> & Hn) by (exists (Z.to_nat d); lia).
  do 16 (destruct n as [|n]; [by vm_compute|]). lia.
Qed.
Lemma hex_digits_ok n x : Forall (λ c, c ≠ slash ∧ c ≠ "."%char) (hex_digits n x) ∧ length (hex_digits n x) = n.
Proof.
  revert x. induction n as [|n IH]; intros x; cbn [hex_digits]; [done|]. destruct (IH (x / 16)%Z) as [HF Hl].
  rewrite Forall_app, Forall_singleton, length_app, Hl. split; [|cbn; lia]. split; [done|]. apply hex_char_ok.
Qed.
Lemma generate_name_plain `{DiskEnv} input : plain (generate_name input).
Proof.
  unfold plain, generate_name. rewrite to_of_chars. destruct (hex_digits_ok 16 (generic_hash_std input)) as [HF Hl].
  destruct (hex_digits 16 _) as [|c l]; [done|]. apply Forall_cons in HF as [[Hc Hd] HF]. split_and!; [done|cbn; congruence|].
  rewrite not_elem_of_cons. split; [congruence|]. intros Hin. rewrite Forall_forall in HF. by destruct (HF _ Hin).
Qed.

Section Paths.
Context `{FL : Faults} `{DE : DiskEnv} (dir : string) (dir_ne : to_chars dir ≠ []).

Definition path (k : Kind) (f : string) : string := in_dir dir (name_of k (to_chars f)).

Lemma path_inj k k' f f' : plain f → plain f' → path k f = path k' f' → k = k' ∧ f = f'.
Proof.
  intros Hf Hf' E. apply of_chars_inj, join_inj in E; [|done|by apply name_of_no_slash, Hf|by apply name_of_no_slash, Hf'].
  apply name_of_inj in E as [-> E]; [|done..]. split; [done|]. by rewrite <- (of_to_chars f), <- (of_to_chars f'), E.
Qed.

(** The files of a name. *)
Definition own (f : string) (q : string) : Prop := ∃ k, q = path k f.
Lemma own_other f g k : plain f → plain g → g ≠ f → ¬ own f (path k g).
Proof. intros Hf Hg Hne [k' E]. by apply path_inj in E as [_ ->]. Qed.

(** Names that are all locked: there are no more of them than files. *)
Lemma locked_le orig i (m : gmap string bytes) : plain orig → (∀ j, j < i → is_Some (m !! path KLock (nth_name orig j))) → i ≤ size m.
Proof.
  intros Ho Hl. rewrite <- size_dom. set (X := list_to_set ((λ j, path KLock (nth_name orig j)) <$> seq 0 i) : gset string).
  assert (size X = i) as HX.
  { unfold X. rewrite size_list_to_set; [by rewrite length_fmap, length_seq|]. apply NoDup_fmap_2_strong; [|apply NoDup_seq].
    intros a b _ _ E. apply path_inj in E as [_ E]; [|by apply nth_name_plain..]. by apply nth_name_inj in E. }
  rewrite <- HX at 1. apply subseteq_size. intros q Hq. unfold X in Hq. apply elem_of_list_to_set, list_elem_of_fmap in Hq as (j & -> & Hj).
  apply elem_of_dom, Hl. apply elem_of_seq in Hj. lia.
Qed.

(** The loop settles on a name without a lock and takes it, unless the disk fails. *)
Lemma lock_name_loop orig s i fuel : plain orig → fuel + i = S (size (fs_map s)) → (Z.of_nat (size (fs_map s)) < i32_max - 1)%Z →
  (∀ j, j < i → is_Some (fs_map s !! path KLock (nth_name orig j))) →
  ∃ r s', lock_name fuel dir orig (nth_name orig i) (Z.of_nat (i + 2)) s = (r, s') ∧
    match r with
    | Ok f => plain f ∧ fs_map s !! path KLock f = None ∧ fs_map s' = <[path KLock f := []]> (fs_map s)
    | Err _ => (∃ n, disk_fault n ≠ None) ∧ fs_map s' = fs_map s
    | Panic => False
    end.
Proof.
  intros Ho. revert s i. induction fuel as [|fuel IH]; intros s i Hfuel Hsmall Hlocked.
  { pose proof (locked_le orig i _ Ho Hlocked). lia. }
  cbn [lock_name]. fold (path KLock (nth_name orig i)). unfold bind, try_create_new, create_new, io_op.
  change (in_dir dir (dotted (to_chars (nth_name orig i)) lock_ext)) with (path KLock (nth_name orig i)).
  destruct (disk_fault (fs_ticks s)) as [e|] eqn:Hf.
  { eexists _, _. split; [reflexivity|]. split; [by eexists; rewrite Hf|done]. }
  destruct (fs_map s !! path KLock (nth_name orig i)) as [b|] eqn:Hm.
  - assert (∀ j, j < S i → is_Some (fs_map s !! path KLock (nth_name orig j))) as Hlocked'.
    { intros j Hj. destruct (decide (j = i)) as [->|]; [by rewrite Hm|]. apply Hlocked. lia. }
    pose proof (locked_le orig (S i) _ Ho Hlocked') as Hle.
    assert ((Z.of_nat (i + 2) =? i32_max)%Z = false) as -> by (apply Z.eqb_neq; lia).
    destruct (IH (mkFiles (fs_map s) (S (fs_ticks s))) (S i)) as (r & s' & E & Hr); [cbn; lia|done|done|].
    replace (Z.of_nat (i + 2) + 1)%Z with (Z.of_nat (S i + 2)) by lia.
    replace (of_chars (to_chars orig ++ "-"%char :: show_Z (Z.of_nat (i + 2)))) with (nth_name orig (S i)) by (cbn [nth_name]; do 4 f_equal; lia).
    exists r, s'. split; [exact E|]. by destruct r.
  - eexists _, _. split; [reflexivity|]. split; [by apply nth_name_plain|]. done.
Qed.

Lemma lock_name_spec orig s : plain orig → (Z.of_nat (size (fs_map s)) < i32_max - 1)%Z →
  ∃ r s', lock_name (S (size (fs_map s))) dir orig orig 2 s = (r, s') ∧
    match r with
    | Ok f => plain f ∧ fs_map s !! path KLock f = None ∧ fs_map s' = <[path KLock f := []]> (fs_map s)
    | Err _ => (∃ n, disk_fault n ≠ None) ∧ fs_map s' = fs_map s
    | Panic => False
    end.
Proof. intros Ho Hs. apply (lock_name_loop orig s 0 _ Ho); [lia|done|lia]. Qed.

(** ** Writing the files of a testcase *)

Definition fault_free : Prop := (∀ n, disk_fault n = None) ∧ ∀ format tc, ∃ b, serialize_metadata format tc = inr b.

Lemma path_ne k k' f : plain f → k ≠ k' → path k f ≠ path k' f.
Proof. intros Hf Hk E. by apply path_inj in E as [-> _]. Qed.
Lemma tmp_path f : plain f →
  of_chars (set_file_name (to_chars (path KFile f)) ("."%char :: file_name (to_chars (path KFile f)) ++ to_chars ".tmp")) = path KTmp f.
Proof.
  intros (_ & _ & Hs). unfold path, in_dir. rewrite to_of_chars, file_name_join, set_file_name_join; [done|done|done| |done|done].
  apply (name_of_no_slash KTmp _ Hs).
Qed.
Lemma metatmp_path f : plain f →
  of_chars (set_file_name (to_chars (path KMeta f)) (dotted (dotted (to_chars f) meta_ext) tmp_ext)) = path KMetaTmp f.
Proof.
  intros (_ & _ & Hs). unfold path, in_dir. rewrite to_of_chars, set_file_name_join; [done|done|by apply (name_of_no_slash KMeta)|by apply (name_of_no_slash KMetaTmp)].
Qed.

(** An input written in one piece, or not at all. *)
Lemma to_file_spec f b s : plain f → ∃ r s', to_file b (path KFile f) s = (r, s') ∧ only (λ q, q = path KFile f ∨ q = path KTmp f) s s' ∧
  match r with
  | Ok _ => fs_map s' !! path KFile f = Some b ∧ fs_map s' !! path KTmp f = None
  | Err _ => ¬ ((∀ n, disk_fault n = None) ∧ fs_map s !! path KTmp f = None)
  | Panic => False
  end.
Proof.
  intros Hf. destruct (to_file b (path KFile f) s) as [r s'] eqn:E. exists r, s'. split; [done|]. split.
  { assert (keeps (only (λ q, q = path KFile f ∨ q = path KTmp f)) (to_file b (path KFile f))) as Hk.
    { unfold to_file, write_file_atomic. rewrite tmp_path by done. auto 10 with keeps typeclass_instances. }
    specialize (Hk s). by rewrite E in Hk. }
  pose proof (path_ne KFile KTmp f Hf ltac:(done)) as Hne.
  unfold to_file, write_file_atomic in E. rewrite tmp_path in E by done. unfold bind, create_new, write_all, rename, io_op in E.
  cbn [fs_map fs_ticks] in E. destruct (disk_fault (fs_ticks s)) as [w|] eqn:F1.
  { injection E as <- <-. intros [Hff _]. by rewrite Hff in F1. }
  destruct (fs_map s !! path KTmp f) eqn:Et.
  { injection E as <- <-. by intros [_ ?]. }
  cbn [fs_map fs_ticks] in E. destruct (disk_fault (S (fs_ticks s))) as [w|] eqn:F2.
  { injection E as <- <-. intros [Hff _]. by rewrite Hff in F2. }
  cbn [fs_map fs_ticks] in E. destruct (disk_fault (S (S (fs_ticks s)))) as [w|] eqn:F3.
  { injection E as <- <-. intros [Hff _]. by rewrite Hff in F3. }
  rewrite lookup_insert_eq in E. injection E as <- <-. cbn [fs_map]. split; [by rewrite lookup_insert_eq|].
  by rewrite lookup_insert_ne, lookup_delete_eq by done.
Qed.

Lemma bind_cell_fs {A B} (m : ME IoError Files A) (k : A → M Cell B) s :
  bind (on_cell_fs m) k s = match m (cell_fs s) with
                            | (Ok a, f) => k a (s <| cell_fs := f |>)
                            | (Err e, f) => (Err (io_error e), s <| cell_fs := f |>)
                            | (Panic, f) => (Panic, s <| cell_fs := f |>)
                            end.
Proof. unfold bind, on_cell_fs, with_err, zoom. by destruct (m (cell_fs s)) as [[a|e|] f]. Qed.
Lemma bind_set_tc {B} f (k : () → M Cell B) s : bind (set_tc f) k s = k () (s <| cell_tc := f (cell_tc s) |>).
Proof. done. Qed.

(** The steps on a cell that change certain files only. *)
Definition cell_only (p : string → Prop) (s s' : Cell) : Prop := only p (cell_fs s) (cell_fs s').
#[local] Instance cell_only_preorder p : PreOrder (cell_only p).
Proof. unfold cell_only. split; [by intros s q|]. intros a b c H1 H2. by etrans. Qed.
Lemma keeps_cell_fs {A} p (m : ME IoError Files A) : keeps (only p) m → keeps (cell_only p) (on_cell_fs m).
Proof. intros Hm s. specialize (Hm (cell_fs s)). unfold on_cell_fs, with_err, zoom. by destruct (m (cell_fs s)). Qed.
Lemma keeps_set_tc p f : keeps (cell_only p) (set_tc f).
Proof. by intros s q. Qed.
#[local] Hint Resolve keeps_cell_fs keeps_set_tc : keeps.

(** What the name of a testcase and its input are does not change. *)
Definition same_names (tc tc' : Testcase) : Prop :=
  tc_input tc' = tc_input tc ∧ tc_filename tc' = tc_filename tc ∧ tc_file_path tc' = tc_file_path tc.

Lemma save_metadata_spec format f s : plain f → ∃ r s', save_metadata dir format f s = (r, s') ∧
  cell_only (λ q, q = path KMeta f ∨ q = path KMetaTmp f) s s' ∧ same_names (cell_tc s) (cell_tc s') ∧
  match r with
  | Ok _ => is_Some (fs_map (cell_fs s') !! path KMeta f)
  | Err _ => ¬ fault_free
  | Panic => False
  end.
Proof.
  intros Hf. destruct (save_metadata dir format f s) as [r s'] eqn:E. exists r, s'. split; [done|].
  unfold save_metadata in E. change (in_dir dir (dotted (to_chars f) meta_ext)) with (path KMeta f) in E.
  rewrite metatmp_path in E by done. split.
  { match type of E with ?m s = _ => assert (keeps (cell_only (λ q, q = path KMeta f ∨ q = path KMetaTmp f)) m) as Hk
      by auto 20 with keeps typeclass_instances end.
    specialize (Hk s). by rewrite E in Hk. }
  rewrite bind_cell_fs in E. unfold create, io_op in E. destruct (disk_fault (fs_ticks (cell_fs s))) as [w|] eqn:F1.
  { injection E as <- <-. split; [done|]. intros [Hff _]. by rewrite Hff in F1. }
  rewrite bind_gets in E. destruct (serialize_metadata format _) as [e|b] eqn:Es.
  { injection E as <- <-. split; [done|]. intros [_ Hser]. destruct (Hser format (cell_tc s)) as [b Hb].
    change (serialize_metadata format (cell_tc s) = inl e) in Es. congruence. }
  rewrite bind_lift, bind_cell_fs in E. unfold write_all, io_op in E. cbn [cell_fs upd eta_Cell fs_map fs_ticks] in E.
  destruct (disk_fault (S _)) as [w|] eqn:F2.
  { injection E as <- <-. split; [done|]. intros [Hff _]. by rewrite Hff in F2. }
  rewrite bind_cell_fs in E. unfold rename, io_op in E. cbn [cell_fs upd eta_Cell fs_map fs_ticks] in E.
  destruct (disk_fault (S (S _))) as [w|] eqn:F3.
  { injection E as <- <-. split; [done|]. intros [Hff _]. by rewrite Hff in F3. }
  rewrite lookup_insert_eq in E. injection E as <- <-. split; [done|]. cbn [cell_fs upd eta_Cell fs_map]. rewrite lookup_insert_eq. done.
Qed.

Context (c : InMemoryOnDiskCorpus) (c_dir : dir_path c = dir) (c_locking : locking c = true).

(** The files of a saved testcase. *)
Definition stored (m : gmap string bytes) (f : string) (b : bytes) : Prop :=
  m !! path KFile f = Some b ∧ (meta_format c ≠ None → is_Some (m !! path KMeta f)).

Lemma metadata_step f s : plain f → ∃ r s', match meta_format c with Some format => save_metadata (dir_path c) format f | None => ret () end s = (r, s') ∧
  cell_only (λ q, q = path KMeta f ∨ q = path KMetaTmp f) s s' ∧ same_names (cell_tc s) (cell_tc s') ∧
  match r with
  | Ok _ => meta_format c ≠ None → is_Some (fs_map (cell_fs s') !! path KMeta f)
  | Err _ => ¬ fault_free
  | Panic => False
  end.
Proof.
  intros Hf. destruct (meta_format c) as [format|]; [|by exists (Ok ()), s]. rewrite c_dir.
  destruct (save_metadata_spec format f s Hf) as (r & s' & E & Ho & Hn & Hr). exists r, s'. split; [done|]. by destruct r.
Qed.

Lemma write_testcase_spec f b s : plain f → tc_input (cell_tc s) = Some b → tc_file_path (cell_tc s) = None →
  ∃ r s', write_testcase c f s = (r, s') ∧ cell_only (λ q, own f q ∧ q ≠ path KLock f) s s' ∧
    tc_input (cell_tc s') = Some b ∧ tc_filename (cell_tc s') = Some f ∧ tc_file_path (cell_tc s') = Some (path KFile f) ∧
    match r with
    | Ok _ => stored (fs_map (cell_fs s')) f b ∧ fs_map (cell_fs s') !! path KTmp f = None
    | Err _ => ¬ (fault_free ∧ fs_map (cell_fs s) !! path KTmp f = None)
    | Panic => False
    end.
Proof.
  intros Hf Hi Hp. unfold write_testcase. rewrite bind_gets, Hp, bind_set_tc, bind_set_tc.
  set (s0 := _ <| cell_tc := _ |>). destruct (metadata_step f s0 Hf) as (r1 & s1 & E1 & Ho1 & (Hi1 & Hn1 & Hp1) & Hr1).
  assert (tc_input (cell_tc s1) = Some b) as Hib by by rewrite Hi1.
  assert (tc_filename (cell_tc s1) = Some f) as Hnf by by rewrite Hn1.
  assert (tc_file_path (cell_tc s1) = Some (path KFile f)) as Hpf by (rewrite Hp1; unfold path; by rewrite <- c_dir).
  assert (cell_only (λ q, own f q ∧ q ≠ path KLock f) s s1) as Ho1'.
  { change (cell_only (λ q, own f q ∧ q ≠ path KLock f) s0 s1). intros q Hq. apply Ho1. intros [-> | ->]; apply Hq.
    - split; [by eexists|by apply path_ne].
    - split; [by eexists|by apply path_ne]. }
  unfold bind. rewrite E1. destruct r1 as [[]|e1|]; [|exists (Err e1), s1; split_and!; try done; by intros [? _]|done].
  rewrite c_locking. unfold store_input_from. rewrite bind_gets, Hpf, Hib.
  destruct (to_file_spec f b (cell_fs s1) Hf) as (r2 & s2 & E2 & Ho2 & Hr2). unfold on_cell_fs, with_err, zoom. rewrite E2.
  eexists _, _. split; [reflexivity|]. cbn [cell_tc cell_fs upd eta_Cell]. split_and!; [|done..|].
  - etrans; [exact Ho1'|]. intros q Hq. apply Ho2. intros [-> | ->]; apply Hq; (split; [by eexists|by apply path_ne]).
  - destruct r2 as [[]|e2|]; cbn [map_err]; [| |done].
    + destruct Hr2 as [Hfile Htmp]. split; [|done]. split; [done|]. intros Hm. cbn [cell_fs upd eta_Cell]. rewrite Ho2; [by apply Hr1|].
      by intros [E|E]; apply path_inj in E as [? _].
    + intros [Hff Ht]. apply Hr2. split; [apply Hff|]. rewrite (Ho1 (path KTmp f)); [done|]. by intros [E|E]; apply path_inj in E as [? _].
Qed.

(** A testcase that can be added. *)
Definition fresh (tc : Testcase) (b : bytes) : Prop :=
  tc_input tc = Some b ∧ tc_file_path tc = None ∧ ∀ f, tc_filename tc = Some f → plain f.

(** Saving: a name that no testcase has, whose files alone change; or the disk fails before there is a name. *)
Lemma save_testcase_spec id b s : fresh (cell_tc s) b → (Z.of_nat (size (fs_map (cell_fs s))) < i32_max - 1)%Z →
  ∃ r s', save_testcase c id s = (r, s') ∧ tc_input (cell_tc s') = Some b ∧
    (tc_filename (cell_tc s') = None ∧ fs_map (cell_fs s') = fs_map (cell_fs s) ∧ (∃ e, r = Err e) ∧ ¬ fault_free ∨
     ∃ f, plain f ∧ tc_filename (cell_tc s') = Some f ∧ tc_file_path (cell_tc s') = Some (path KFile f) ∧
       fs_map (cell_fs s) !! path KLock f = None ∧ cell_only (own f) s s' ∧ is_Some (fs_map (cell_fs s') !! path KLock f) ∧
       match r with
       | Ok _ => stored (fs_map (cell_fs s')) f b ∧ fs_map (cell_fs s') !! path KTmp f = None
       | Err _ => ¬ (fault_free ∧ fs_map (cell_fs s) !! path KTmp f = None)
       | Panic => False
       end).
Proof.
  intros (Hi & Hp & Hn) Hsmall. unfold save_testcase. rewrite bind_gets, bind_set_tc, Hi.
  assert (∃ orig, match tc_filename (cell_tc s) with Some name => Ok name | None => let? input := unwrap (Some b) in Ok (generate_name input) end = Ok (E := Error) orig ∧ plain orig)
    as (orig & -> & Horig).
  { destruct (tc_filename (cell_tc s)) as [n|]; eexists; (split; [reflexivity|]); [by apply Hn|apply generate_name_plain]. }
  rewrite bind_lift, bind_gets, c_locking, c_dir, bind_cell_fs. cbn [cell_fs upd eta_Cell].
  destruct (lock_name_spec orig (cell_fs s) Horig Hsmall) as (r1 & s1 & E1 & Hr1). rewrite E1.
  destruct r1 as [f|e|]; [|eexists _, _; split; [reflexivity|]; split; [done|]; left; split_and!; [done|apply Hr1|by eexists|]|done].
  2:{ intros [Hff _]. destruct Hr1 as [[n Hf] _]. by rewrite Hff in Hf. }
  destruct Hr1 as (Hf & Hfree & Hlock). 
  match goal with |- context [write_testcase c f ?x] => destruct (write_testcase_spec f b x Hf Hi Hp) as (r2 & s2 & E2 & Ho & Hi2 & Hn2 & Hp2 & Hr2) end.
  exists r2, s2. split; [exact E2|]. split; [done|]. right. exists f. cbn [cell_fs upd eta_Cell] in Hr2.
  assert (∀ k, k ≠ KLock → fs_map s1 !! path k f = fs_map (cell_fs s) !! path k f) as Hs1.
  { intros k Hk. rewrite Hlock. apply lookup_insert_ne. by apply path_ne. }
  split_and!; try done.
  - intros q Hq. rewrite Ho by (by intros [? _]). cbn [cell_fs upd eta_Cell]. rewrite Hlock. apply lookup_insert_ne. intros <-. apply Hq. by eexists.
  - rewrite Ho by (by intros [_ ?]). cbn [cell_fs upd eta_Cell]. rewrite Hlock, lookup_insert_eq. done.
  - destruct r2; [done| |done]. by rewrite Hs1 in Hr2.
Qed.
End Paths.

(** ** The corpus in memory as a table *)

Section View.
Implicit Types (c : InMemory.InMemoryCorpus Testcase) (id : CorpusId).

(** An entry and whether it is enabled. *)
Definition view c id : option (bool * Testcase) :=
  match InMemory.map_get id (InMemory.enabled (InMemory.storage c)) with
  | Some tc => Some (true, tc)
  | None => (λ tc, (false, tc)) <$> InMemory.map_get id (InMemory.disabled (InMemory.storage c))
  end.
Definition next_id c : CorpusId := InMemory.progressive_id (InMemory.storage c).
Record good c : Prop := {
  good_wf : cwf c;
  good_disjoint : ∀ id, InMemory.map_get id (InMemory.enabled (InMemory.storage c)) = None ∨
                        InMemory.map_get id (InMemory.disabled (InMemory.storage c)) = None;
}.

Lemma map_get_bound bound (m : InMemory.StorageMap Testcase) id : wf bound m → bound ≤ id → InMemory.map_get id m = None.
Proof.
  intros W Hb. unfold InMemory.map_get. destruct (InMemory.map m !! id) eqn:E; [|done].
  assert (id ∈ InMemory.keys m) as Hin by (eapply wf_lookup; [exact W|by eexists]). apply (wf_bound _ _ W) in Hin. lia.
Qed.
Lemma good_new : good InMemory.new.
Proof. split; [apply cwf_new|]. intros id. left. unfold InMemory.map_get. cbn. by rewrite lookup_empty. Qed.
Lemma view_new id : view InMemory.new id = None.
Proof. unfold view, InMemory.map_get. cbn. by rewrite lookup_empty. Qed.

Lemma view_free c : good c → view c (next_id c) = None.
Proof. intros [[We Wd] _]. unfold view. by rewrite !(map_get_bound _ _ _ We), (map_get_bound _ _ _ Wd). Qed.

Lemma get_view c id : InMemory.get id c = match view c id with Some (true, tc) => Ok tc | _ => Err (key_not_found "Index {id} not found" [ANat id]) end.
Proof. unfold InMemory.get, view. destruct (InMemory.map_get id _); [done|]. by destruct (InMemory.map_get id _). Qed.
Lemma get_from_all_view c id :
  InMemory.get_from_all id c = match view c id with Some (_, tc) => Ok tc | _ => Err (key_not_found "Index {id} not found" [ANat id]) end.
Proof. unfold InMemory.get_from_all, view. destruct (InMemory.map_get id _); [done|]. by destruct (InMemory.map_get id _). Qed.

(** What an operation leaves: a table that differs in one place. *)
Definition changed c c' (id : CorpusId) (v : option (bool * Testcase)) : Prop :=
  good c' ∧ next_id c' = next_id c ∧ ∀ x, view c' x = if decide (x = id) then v else view c x.

Lemma view_add c tc : good c → ∃ c', InMemory.add tc c = Ok (next_id c, c') ∧ good c' ∧ next_id c' = S (next_id c) ∧
  ∀ x, view c' x = if decide (x = next_id c) then Some (true, tc) else view c x.
Proof.
  intros G. pose proof G as [[We Wd] Hd]. unfold InMemory.add, InMemory.insert_inner. cbn -[InMemory.map_push].
  destruct (wf_push _ _ tc We) as (m' & Hm & W' & Hk & Hg & Hg'). fold (next_id c) in *.
  match goal with |- context [InMemory.map_push ?a ?b ?x] => change (InMemory.map_push a b x) with (InMemory.map_push (next_id c) tc (InMemory.enabled (InMemory.storage c))) end.
  rewrite Hm. eexists. split; [reflexivity|].
  assert (InMemory.map_get (next_id c) (InMemory.disabled (InMemory.storage c)) = None) as Hfree by by eapply map_get_bound.
  split; [split|split; [done|]].
  - split; [exact W'|]. eapply wf_mono; [|exact Wd]. cbn. lia.
  - intros x. cbn. destruct (decide (x = next_id c)) as [->|Hx]; [by right|]. rewrite Hg' by done. apply Hd.
  - intros x. unfold view. cbn. case_decide as Hx; [subst x; by rewrite Hg|]. by rewrite Hg' by done.
Qed.

Lemma view_add_disabled c tc : good c → ∃ c', InMemory.add_disabled tc c = Ok (next_id c, c') ∧ good c' ∧ next_id c' = S (next_id c) ∧
  ∀ x, view c' x = if decide (x = next_id c) then Some (false, tc) else view c x.
Proof.
  intros G. pose proof G as [[We Wd] Hd]. unfold InMemory.add_disabled, InMemory.insert_inner. cbn -[InMemory.map_push].
  destruct (wf_push _ _ tc Wd) as (m' & Hm & W' & Hk & Hg & Hg'). fold (next_id c) in *.
  match goal with |- context [InMemory.map_push ?a ?b ?x] => change (InMemory.map_push a b x) with (InMemory.map_push (next_id c) tc (InMemory.disabled (InMemory.storage c))) end.
  rewrite Hm. eexists. split; [reflexivity|].
  assert (InMemory.map_get (next_id c) (InMemory.enabled (InMemory.storage c)) = None) as Hfree by by eapply map_get_bound.
  split; [split|split; [done|]].
  - split; [|exact W']. eapply wf_mono; [|exact We]. cbn. lia.
  - intros x. cbn. destruct (decide (x = next_id c)) as [->|Hx]; [by left|]. rewrite Hg' by done. apply Hd.
  - intros x. unfold view. cbn. case_decide as Hx; [subst x; rewrite Hfree; by rewrite Hg|]. by rewrite Hg' by done.
Qed.

(** The content of a cell in a map. *)
Lemma wf_map_replace bound (m : InMemory.StorageMap Testcase) id tc old : wf bound m → InMemory.map_get id m = Some old →
  ∃ m', InMemory.map_replace id tc m = (Some old, m') ∧ wf bound m' ∧
    ∀ x, InMemory.map_get x m' = if decide (x = id) then Some tc else InMemory.map_get x m.
Proof.
  intros W Hg. unfold InMemory.map_get in Hg. unfold InMemory.map_replace.
  destruct (InMemory.map m !! id) as [it|] eqn:E; [|done]. injection Hg as <-. eexists. split; [reflexivity|].
  destruct W as [W1 W2 W3 W4 W5 W6]. split; [split; try done; cbn|].
  - intros i x Hx. destruct (W3 i x Hx) as (it' & Hit' & Hp & Hn). destruct (decide (x = id)) as [->|].
    + rewrite lookup_insert_eq. simplify_eq. eauto.
    + rewrite lookup_insert_ne by done. eauto.
  - intros x. destruct (decide (x = id)) as [->|]; [intros _; apply W4; by rewrite E|]. rewrite lookup_insert_ne by done. apply W4.
  - intros x. unfold InMemory.map_get. cbn. case_decide as Hx; [subst; by rewrite lookup_insert_eq|]. by rewrite lookup_insert_ne.
Qed.
Lemma map_replace_none (m : InMemory.StorageMap Testcase) id tc : InMemory.map_get id m = None → InMemory.map_replace id tc m = (None, m).
Proof. unfold InMemory.map_get, InMemory.map_replace. by destruct (InMemory.map m !! id). Qed.

Lemma view_put c id b old tc : good c → view c id = Some (b, old) → changed c (put_testcase id tc c) id (Some (b, tc)).
Proof.
  intros [[We Wd] Hd] Hv. unfold view in Hv. unfold put_testcase.
  destruct (InMemory.map_get id (InMemory.enabled (InMemory.storage c))) as [t|] eqn:Ee.
  - injection Hv as <- <-. destruct (wf_map_replace _ _ _ tc _ We Ee) as (m' & -> & W' & Hg).
    split; [split; [split; [exact W'|exact Wd]|]|split; [done|]].
    + intros x. cbn. rewrite Hg. case_decide as Hx; [subst|apply Hd]. destruct (Hd id); [congruence|by right].
    + intros x. unfold view. cbn. rewrite Hg. by case_decide.
  - rewrite (map_replace_none _ _ _ Ee). destruct (InMemory.map_get id (InMemory.disabled (InMemory.storage c))) as [t|] eqn:Ed; [|done].
    injection Hv as <- <-. destruct (wf_map_replace _ _ _ tc _ Wd Ed) as (m' & -> & W' & Hg).
    split; [split; [split; [exact We|exact W']|]|split; [done|]].
    + intros x. cbn. rewrite Hg. case_decide as Hx; [subst; by left|apply Hd].
    + intros x. unfold view. cbn. rewrite Hg. case_decide as Hx; [subst; by rewrite Ee|done].
Qed.

Lemma view_replace c id tc : good c →
  match view c id with
  | Some (true, old) => ∃ c', InMemory.replace id tc c = Ok (old, c') ∧ changed c c' id (Some (true, tc))
  | _ => InMemory.replace id tc c = Err (key_not_found "Index {id} not found, could not replace." [ANat id])
  end.
Proof.
  intros G. pose proof G as [[We Wd] Hd]. unfold view. unfold InMemory.replace.
  destruct (InMemory.map_get id (InMemory.enabled (InMemory.storage c))) as [t|] eqn:Ee.
  - pose proof (view_put c id true t tc G) as Hp. unfold put_testcase in Hp.
    destruct (wf_map_replace _ _ _ tc _ We Ee) as (m' & Em & _). rewrite Em in *. eexists. split; [reflexivity|]. apply Hp.
    unfold view. by rewrite Ee.
  - rewrite (map_replace_none _ _ _ Ee). by destruct (InMemory.map_get id (InMemory.disabled _)); cbn.
Qed.

Lemma view_remove c id : good c →
  match view c id with
  | Some (_, old) => ∃ c', InMemory.remove id c = Ok (old, c') ∧ changed c c' id None
  | None => InMemory.remove id c = Err (key_not_found "Index {id} not found" [ANat id])
  end.
Proof.
  intros [[We Wd] Hd]. unfold view, InMemory.remove.
  destruct (InMemory.map_get id (InMemory.enabled (InMemory.storage c))) as [t|] eqn:Ee.
  - destruct (wf_remove _ _ _ _ We Ee) as (m' & -> & W' & _ & Hg). eexists. split; [reflexivity|].
    split; [split; [split; [exact W'|exact Wd]|]|split; [done|]].
    + intros x. cbn. rewrite Hg. case_decide; [by left|apply Hd].
    + intros x. unfold view. cbn. rewrite Hg. case_decide as Hx; [subst|done]. destruct (Hd id) as [?|Hn]; [congruence|by rewrite Hn].
  - assert (InMemory.map_remove id (InMemory.enabled (InMemory.storage c)) = Ok (None, InMemory.enabled (InMemory.storage c))) as ->.
    { unfold InMemory.map_remove. unfold InMemory.map_get in Ee. by destruct (InMemory.map _ !! id). }
    cbn [obind fst]. destruct (InMemory.map_get id (InMemory.disabled (InMemory.storage c))) as [t|] eqn:Ed; cbn [fmap option_fmap option_map].
    + destruct (wf_remove _ _ _ _ Wd Ed) as (m' & -> & W' & _ & Hg). eexists. split; [reflexivity|].
      split; [split; [split; [exact We|exact W']|]|split; [done|]].
      * intros x. cbn. rewrite Hg. case_decide; [by right|apply Hd].
      * intros x. unfold view. cbn. rewrite Hg. case_decide as Hx; [subst; by rewrite Ee|done].
    + unfold InMemory.map_remove. unfold InMemory.map_get in Ed. by destruct (InMemory.map _ !! id).
Qed.
End View.

(** ** The corpus on disk and a table of inputs *)

(** What the corpus is for: a table of inputs, enabled or not, under ids that are never reused. *)
Record Table := mkTable { t_next : CorpusId; t_items : gmap CorpusId (bool * bytes) }.

Inductive Op := OpAdd (tc : Testcase) | OpAddDisabled (tc : Testcase) | OpReplace (id : CorpusId) (tc : Testcase) | OpRemove (id : CorpusId) | OpLoad (id : CorpusId).
Inductive Res := RId (id : CorpusId) | RDone | RInput (b : bytes).

Definition table_add (enabled : bool) (tc : Testcase) (t : Table) : outcome Error Res * Table :=
  match tc_input tc with
  | Some b => (Ok (RId (t_next t)), mkTable (S (t_next t)) (<[t_next t := (enabled, b)]> (t_items t)))
  | None => (Panic, t)
  end.
Definition table_step (op : Op) (t : Table) : outcome Error Res * Table :=
  match op with
  | OpAdd tc => table_add true tc t
  | OpAddDisabled tc => table_add false tc t
  | OpReplace id tc =>
    match t_items t !! id, tc_input tc with
    | Some (true, _), Some b => (Ok RDone, mkTable (t_next t) (<[id := (true, b)]> (t_items t)))
    | Some (true, _), None => (Panic, t)
    | _, _ => (Err (key_not_found "Index {id} not found, could not replace." [ANat id]), t)
    end
  | OpRemove id =>
    match t_items t !! id with
    | Some _ => (Ok RDone, mkTable (t_next t) (delete id (t_items t)))
    | None => (Err (key_not_found "Index {id} not found" [ANat id]), t)
    end
  | OpLoad id =>
    match t_items t !! id with
    | Some (_, b) => (Ok (RInput b), t)
    | None => (Err (key_not_found "Index {id} not found" [ANat id]), t)
    end
  end.

(** The same on the corpus; a testcase that is taken out is dropped. *)
Definition disk_step `{Faults} `{DiskEnv} (op : Op) : M World Res :=
  match op with
  | OpAdd tc => id <- add tc ;; ret (RId id)
  | OpAddDisabled tc => id <- add_disabled tc ;; ret (RId id)
  | OpReplace id tc => entry <- replace id tc ;; on_world_fs (drop_testcase entry) ;;; ret RDone
  | OpRemove id => entry <- remove id ;; on_world_fs (drop_testcase entry) ;;; ret RDone
  | OpLoad id => b <- load_input id ;; ret (RInput b)
  end.

(** The testcases that come from outside have an input, no file yet, and no name or a plain one. *)
Definition op_ok (op : Op) : Prop :=
  match op with
  | OpAdd tc | OpAddDisabled tc => ∃ b, fresh tc b
  | OpReplace _ tc => (∃ b, fresh tc b) ∧ tc_filename tc = None
  | _ => True
  end.

Section Sim.
Context `{FL : Faults} `{DE : DiskEnv} (dir : string) (dir_ne : to_chars dir ≠ []).
Context (c0 : InMemoryOnDiskCorpus) (c_dir : dir_path c0 = dir) (c_locking : locking c0 = true).
Abbreviation path := (path dir).
Abbreviation stored := (stored dir c0).

(** A testcase has the lock of its name, and its input is in memory or in its file. *)
Definition entry_ok (m : gmap string bytes) (tc : Testcase) (i : bytes) : Prop :=
  (∀ f, tc_filename tc = Some f → plain f ∧ tc_file_path tc = Some (path KFile f) ∧ is_Some (m !! path KLock f)) ∧
  (tc_input tc = Some i ∨ tc_input tc = None ∧ ∃ f, tc_filename tc = Some f ∧ m !! path KFile f = Some i).

Record Rel (P : CorpusId → Prop) (w : World) (t : Table) : Prop := {
  rel_conf : corpus w = c0 <| inner := inner (corpus w) |>;
  rel_good : good (inner (corpus w));
  rel_next : next_id (inner (corpus w)) = t_next t;
  rel_dom : ∀ id, fst <$> view (inner (corpus w)) id = fst <$> t_items t !! id;
  rel_entry : ∀ id b tc i, P id → view (inner (corpus w)) id = Some (b, tc) → t_items t !! id = Some (b, i) → entry_ok (fs_map (world_fs w)) tc i;
  rel_names : ∀ id id' b b' tc tc' f, P id → P id' → view (inner (corpus w)) id = Some (b, tc) → view (inner (corpus w)) id' = Some (b', tc') →
    tc_filename tc = Some f → tc_filename tc' = Some f → id = id';
  rel_tmp : fault_free → ∀ f, plain f → fs_map (world_fs w) !! path KTmp f = None;
  rel_stored : fault_free → ∀ id b tc i, P id → view (inner (corpus w)) id = Some (b, tc) → t_items t !! id = Some (b, i) →
    ∃ f, tc_filename tc = Some f ∧ stored (fs_map (world_fs w)) f i;
}.

Lemma rel_view P w t id : Rel P w t →
  match view (inner (corpus w)) id, t_items t !! id with
  | Some (b, tc), Some (b', i) => b = b'
  | None, None => True
  | _, _ => False
  end.
Proof. clear dir_ne. intros R. pose proof (rel_dom _ _ _ R id) as Hd. destruct (view _ id) as [[b tc]|], (t_items t !! id) as [[b' i]|]; cbn in Hd; by simplify_eq. Qed.
Lemma rel_plain P w t id b tc f : Rel P w t → P id → view (inner (corpus w)) id = Some (b, tc) → tc_filename tc = Some f → plain f.
Proof.
  intros R HP Hv Hf. pose proof (rel_view _ _ _ id R) as Hd. rewrite Hv in Hd. destruct (t_items t !! id) as [[b' i]|] eqn:Ht; [subst b'|done].
  destruct (rel_entry _ _ _ R id b tc i HP Hv Ht) as [Hn _]. by destruct (Hn f Hf).
Qed.

Lemma rel_fixed P w t : Rel P w t → dir_path (corpus w) = dir ∧ locking (corpus w) = true ∧
  ∀ m f b, DiskFacts.stored dir (corpus w) m f b ↔ stored m f b.
Proof. intros R. by rewrite (rel_conf _ _ _ R). Qed.

(** Files of other names may change. *)
Lemma rel_frame P w t fs : Rel P w t →
  (∀ id b tc g, P id → view (inner (corpus w)) id = Some (b, tc) → tc_filename tc = Some g → ∀ k, fs_map fs !! path k g = fs_map (world_fs w) !! path k g) →
  (fault_free → ∀ g, plain g → fs_map fs !! path KTmp g = None) →
  Rel P (mkWorld (corpus w) fs) t.
Proof.
  intros R Hk Ht. split; cbn [corpus world_fs]; try apply R; [|exact Ht|].
  - intros id b tc i HP Hv Hi. destruct (rel_entry _ _ _ R id b tc i HP Hv Hi) as [Hn Hin]. split.
    + intros f Hf. destruct (Hn f Hf) as (? & ? & ?). by rewrite (Hk id b tc f HP Hv Hf).
    + destruct Hin as [?|[? (f & Hf & Hfile)]]; [by left|right]. split; [done|]. exists f. split; [done|]. by rewrite (Hk id b tc f HP Hv Hf).
  - intros Hff id b tc i HP Hv Hi. destruct (rel_stored _ _ _ R Hff id b tc i HP Hv Hi) as (f & Hf & Hfile & Hmeta). exists f. split; [done|].
    split; rewrite !(Hk id b tc f HP Hv Hf); done.
Qed.

(** A cell gets a new content, and the files of its new name change; the others are as before. *)
Lemma rel_put w t id b old tc i fs : Rel (λ x, x ≠ id) w t → view (inner (corpus w)) id = Some (b, old) → t_items t !! id = Some (b, i) →
  entry_ok (fs_map fs) tc i →
  (∀ f, tc_filename tc = Some f → ∀ x b' tc', x ≠ id → view (inner (corpus w)) x = Some (b', tc') → tc_filename tc' ≠ Some f) →
  (∀ x b' tc' g, x ≠ id → view (inner (corpus w)) x = Some (b', tc') → tc_filename tc' = Some g → ∀ k, fs_map fs !! path k g = fs_map (world_fs w) !! path k g) →
  (fault_free → (∀ g, plain g → fs_map fs !! path KTmp g = None) ∧ ∃ f, tc_filename tc = Some f ∧ stored (fs_map fs) f i) →
  Rel (λ _, True) (mkWorld ((corpus w) <| inner := put_testcase id tc (inner (corpus w)) |>) fs) t.
Proof.
  intros R Hv Hi He Hnames Hframe Hclean.
  pose proof (rel_frame _ _ _ fs R Hframe (λ Hff, proj1 (Hclean Hff))) as R'.
  destruct (view_put _ _ _ _ tc (rel_good _ _ _ R) Hv) as (G' & Hnext & Hview).
  split; cbn [corpus world_fs inner upd eta_InMemoryOnDiskCorpus].
  - by rewrite (rel_conf _ _ _ R).
  - exact G'.
  - rewrite Hnext. apply (rel_next _ _ _ R).
  - intros x. rewrite Hview. case_decide as Hx; [subst x; by rewrite Hi|]. apply (rel_dom _ _ _ R).
  - intros x b1 tc1 i1 _ Hv1 Hi1. rewrite Hview in Hv1. case_decide as Hx; [by simplify_eq|]. by eapply (rel_entry _ _ _ R').
  - intros x y b1 b2 tc1 tc2 f _ _ Hv1 Hv2 Hf1 Hf2. rewrite Hview in Hv1, Hv2. destruct (decide (x = id)) as [Hx|Hx], (decide (y = id)) as [Hy|Hy]; simplify_eq; [done|..].
    + by destruct (Hnames f Hf1 y b2 tc2 Hy Hv2).
    + by destruct (Hnames f Hf2 x b1 tc1 Hx Hv1).
    + by eapply (rel_names _ _ _ R).
  - intros Hff. apply Hclean, Hff.
  - intros Hff x b1 tc1 i1 _ Hv1 Hi1. rewrite Hview in Hv1. case_decide as Hx; [simplify_eq; apply Hclean, Hff|]. by eapply (rel_stored _ _ _ R').
Qed.

(** Saving the testcase of a cell: afterwards the corpus is whole again, also when the disk failed. *)
Lemma rel_save w t id b tc i : Rel (λ x, x ≠ id) w t → view (inner (corpus w)) id = Some (b, tc) → t_items t !! id = Some (b, i) → fresh tc i →
  (Z.of_nat (size (fs_map (world_fs w))) < i32_max - 1)%Z →
  ∃ r w', in_cell (Ok tc) id (save_in_cell (corpus w) id) w = (r, w') ∧ Rel (λ _, True) w' t ∧
    match r with
    | Ok _ => ∃ tc', view (inner (corpus w')) id = Some (b, tc') ∧ tc_input tc' = None
    | Err _ => ¬ fault_free
    | Panic => False
    end ∧ (∀ x, x ≠ id → view (inner (corpus w')) x = view (inner (corpus w)) x).
Proof.
  intros R Hv Hi Hfresh Hsmall. unfold in_cell, save_in_cell. destruct (rel_fixed _ _ _ R) as (Hdir & Hlk & Hst0).
  destruct (save_testcase_spec dir dir_ne (corpus w) Hdir Hlk id i (mkCell tc (world_fs w)) Hfresh Hsmall) as (r & s & E & Hin & Hcase).
  assert (∀ tc', view (put_testcase id tc' (inner (corpus w))) id = Some (b, tc')) as Hvid.
  { intros tc'. destruct (view_put _ _ _ _ tc' (rel_good _ _ _ R) Hv) as (_ & _ & ->). by rewrite decide_True. }
  assert (∀ tc' x, x ≠ id → view (put_testcase id tc' (inner (corpus w))) x = view (inner (corpus w)) x) as Hvx.
  { intros tc' x Hx. destruct (view_put _ _ _ _ tc' (rel_good _ _ _ R) Hv) as (_ & _ & ->). by rewrite decide_False. }
  unfold bind. rewrite E. destruct Hcase as [(Hn & Hfs & [e ->] & Hff)|(f & Hf & Hn & Hp & Hfree & Honly & Hlock & Hr)].
  { eexists _, _. split; [reflexivity|]. split; [|split; [done|by intros; apply Hvx]].
    eapply (rel_put w t id b tc (cell_tc s) i (cell_fs s)); try done.
    - split; [by rewrite Hn|by left].
    - by rewrite Hn.
    - intros. by rewrite Hfs. }
  assert (∀ x b' tc', x ≠ id → view (inner (corpus w)) x = Some (b', tc') → tc_filename tc' ≠ Some f) as Hother.
  { intros x b' tc' Hx Hvx' Hnx. pose proof (rel_view _ _ _ x R) as Hd. rewrite Hvx' in Hd.
    destruct (t_items t !! x) as [[b1 i1]|] eqn:Hix; [subst b1|done].
    destruct (rel_entry _ _ _ R x b' tc' i1 Hx Hvx' Hix) as [Hl _]. destruct (Hl f Hnx) as (_ & _ & Hl'). cbn in Hfree. rewrite Hfree in Hl'. by destruct Hl'. }
  assert (∀ x b' tc' g, x ≠ id → view (inner (corpus w)) x = Some (b', tc') → tc_filename tc' = Some g → ∀ k, fs_map (cell_fs s) !! path k g = fs_map (world_fs w) !! path k g) as Hframe.
  { intros x b' tc' g Hx Hvx' Hnx k. apply Honly. apply own_other; [done|done|exact (rel_plain _ _ _ _ _ _ _ R Hx Hvx' Hnx)|]. intros ->. by destruct (Hother x b' tc'). }
  assert (fault_free → ∀ g, plain g → g ≠ f → fs_map (cell_fs s) !! path KTmp g = None) as Htmp.
  { intros Hff g Hg Hgf. rewrite (Honly (path KTmp g)) by by apply own_other. by apply (rel_tmp _ _ _ R Hff). }
  assert (∀ tc', tc_filename tc' = Some f → tc_file_path tc' = Some (path KFile f) → ∀ g, tc_filename tc' = Some g → plain g ∧ tc_file_path tc' = Some (path KFile g) ∧ is_Some (fs_map (cell_fs s) !! path KLock g)) as Hentry.
  { intros tc' Hn' Hp' g Hg. rewrite Hn' in Hg. by injection Hg as <-. }
  destruct r as [[]|e|]; [| |done]; (eexists _, _; split; [reflexivity|]; split; [|split; [|by intros; apply Hvx]]).
  - destruct Hr as [Hst%Hst0 Ht]. eapply (rel_put w t id b tc _ i (cell_fs s)); try done.
    + split; [by apply Hentry|]. right. split; [done|]. exists f. split; [done|]. apply Hst.
    + intros g Hg. cbn in Hg. rewrite Hn in Hg. by injection Hg as <-.
    + intros Hff. split; [|by exists f]. intros g Hg. destruct (decide (g = f)) as [->|]; [done|by apply Htmp].
  - eexists. split; [apply Hvid|]. done.
  - assert (¬ fault_free) as Hff by (intros Hff; apply Hr; split; [done|]; by apply (rel_tmp _ _ _ R Hff)).
    eapply (rel_put w t id b tc _ i (cell_fs s)); try done.
    + split; [by apply Hentry|by left].
    + intros g Hg. rewrite Hn in Hg. by injection Hg as <-.
  - intros Hff. apply Hr. split; [done|]. by apply (rel_tmp _ _ _ R Hff).
Qed.

(** Removing the files of a testcase. *)
Definition shrinks (s s' : Files) : Prop := size (fs_map s') ≤ size (fs_map s).
#[local] Instance shrinks_preorder : PreOrder shrinks.
Proof. unfold shrinks. split; [by intros s|]. intros a b c ? ?. lia. Qed.
Lemma keeps_remove_shrinks p : keeps shrinks (remove_file p).
Proof.
  intros s. unfold remove_file, io_op, shrinks. destruct (disk_fault _); [done|]. destruct (fs_map s !! p) eqn:E; [|done]. cbn.
  rewrite map_size_delete, E. cbn. lia.
Qed.
#[local] Hint Resolve keeps_remove_shrinks : keeps.

Lemma remove_file_ok p s b : disk_fault (fs_ticks s) = None → fs_map s !! p = Some b → remove_file p s = (Ok (), mkFiles (delete p (fs_map s)) (S (fs_ticks s))).
Proof. intros Hf Hp. unfold remove_file, io_op. by rewrite Hf, Hp. Qed.

Lemma remove_testcase_spec c entry f s : dir_path c = dir → tc_filename entry = Some f → plain f → ∃ r s', remove_testcase c entry s = (r, s') ∧
  only (λ q, own dir f q ∧ q ≠ path KTmp f) s s' ∧ shrinks s s' ∧ r ≠ Panic ∧ (∀ b, DiskFacts.stored dir c (fs_map s) f b → (∀ n, disk_fault n = None) → r = Ok ()).
Proof.
  intros Hdir Hn Hf. destruct (remove_testcase c entry s) as [r s'] eqn:E. exists r, s'. split; [done|].
  unfold remove_testcase in E. rewrite Hn, Hdir in E.
  change (in_dir dir (to_chars f)) with (path KFile f) in E. change (in_dir dir (dotted (to_chars f) meta_ext)) with (path KMeta f) in E.
  change (in_dir dir (dotted (to_chars f) lock_ext)) with (path KLock f) in E.
  assert (∀ k, k ≠ KTmp → own dir f (path k f) ∧ path k f ≠ path KTmp f) as Hown by (intros k Hk; split; [by eexists|by apply path_ne]).
  split_and!.
  - match type of E with ?m s = _ => assert (keeps (only (λ q, own dir f q ∧ q ≠ path KTmp f)) m) as Hk end.
    { apply keeps_bind; [apply _|by apply keeps_remove_file, Hown|intros _]. apply keeps_bind; [apply _| |intros _; apply keeps_ignore; [apply _|by apply keeps_remove_file, Hown]].
      destruct (meta_format c); [by apply keeps_remove_file, Hown|apply keeps_ret, _]. }
    specialize (Hk s). by rewrite E in Hk.
  - match type of E with ?m s = _ => assert (keeps shrinks m) as Hk end.
    { destruct (meta_format c); auto 10 with keeps typeclass_instances. }
    specialize (Hk s). by rewrite E in Hk.
  - unfold bind, remove_file, io_op, ignore, ret in E. intros ->. repeat (case_match; simplify_eq).
  - intros b [Hfile Hmeta] Hff. unfold bind at 1 in E. rewrite (remove_file_ok _ _ b) in E by done. unfold bind at 1 in E.
    destruct (meta_format c) as [format|]; [|unfold ret, ignore in E; by simplify_eq].
    destruct Hmeta as [b' Hb']; [done|]. rewrite (remove_file_ok _ _ b') in E; [unfold ignore in E; by simplify_eq|apply Hff|].
    cbn. by rewrite lookup_delete_ne by by apply path_ne.
Qed.

(** The name of an entry that is no longer in the corpus. *)
Definition unnamed (P : CorpusId → Prop) (w : World) (entry : Testcase) : Prop :=
  ∀ f, tc_filename entry = Some f → plain f ∧ ∀ x b tc, P x → view (inner (corpus w)) x = Some (b, tc) → tc_filename tc ≠ Some f.

Lemma rel_remove_files P w t entry : Rel P w t → unnamed P w entry →
  ∃ r w', on_world_fs (remove_testcase (corpus w) entry) w = (r, w') ∧ corpus w' = corpus w ∧ Rel P w' t ∧ shrinks (world_fs w) (world_fs w') ∧ r ≠ Panic ∧
    ((∀ f, tc_filename entry = Some f → ∃ b, stored (fs_map (world_fs w)) f b) → fault_free → r = Ok ()).
Proof.
  intros R Hu. destruct (rel_fixed _ _ _ R) as (Hdir & _ & Hst). unfold on_world_fs, with_err, zoom.
  destruct (tc_filename entry) as [f|] eqn:Hn.
  - destruct (Hu f Hn) as [Hf Hothers]. destruct (remove_testcase_spec (corpus w) entry f (world_fs w) Hdir Hn Hf) as (r & s & E & Honly & Hshr & Hp & Hok).
    rewrite E. eexists _, _. split; [reflexivity|]. split; [done|]. split; [|split; [done|split; [by destruct r|]]].
    + apply (rel_frame P w t s R).
      * intros id b tc g HP Hv Hg k. apply Honly. intros [Hown _]. revert Hown.
        apply own_other; [done|done|exact (rel_plain _ _ _ _ _ _ _ R HP Hv Hg)|]. intros ->. by destruct (Hothers id b tc HP Hv).
      * intros Hff g Hg. rewrite Honly; [by apply (rel_tmp _ _ _ R Hff)|]. intros [[k Hk] Hne]. apply path_inj in Hk as [<- ->]; done.
    + intros Hs Hff. destruct (Hs f eq_refl) as [b Hb]. by rewrite (Hok b (proj2 (Hst _ _ _) Hb) (proj1 Hff)).
  - unfold remove_testcase. rewrite Hn. exists (Ok ()), w. split; [by destruct w|]. split_and!; try done.
Qed.

(** The lock that is dropped is not one of the directory. *)
Lemma rel_drop P w t entry : Rel P w t → (∀ f, tc_filename entry = Some f → plain f) →
  ∃ w', on_world_fs (drop_testcase entry) w = (Ok (), w') ∧ corpus w' = corpus w ∧ Rel P w' t.
Proof.
  intros R Hpl. unfold on_world_fs, with_err, zoom, drop_testcase. destruct (tc_filename entry) as [f|] eqn:Hn; [|exists w; split; [by destruct w|done]].
  destruct (Hpl f eq_refl) as (_ & _ & Hs). unfold set_file_name, file_name. rewrite split_path_plain by done. cbn [fst snd app].
  set (q := of_chars (dotted (to_chars f) lock_ext)). set (s := (remove_file q (world_fs w)).2).
  assert (only (λ p, p = q) (world_fs w) s) as Honly by (apply keeps_remove_file; done).
  assert (∀ k g, plain g → fs_map s !! path k g = fs_map (world_fs w) !! path k g) as Hframe.
  { intros k g Hg. apply Honly. intros E. apply (f_equal to_chars) in E. unfold q, DiskFacts.path, in_dir in E. rewrite !to_of_chars in E.
    destruct (name_of_no_slash KLock _ Hs). cbn [name_of]. rewrite <- E. apply join_slash; [done|]. apply name_of_no_slash, Hg. }
  exists (mkWorld (corpus w) s). split; [done|]. split; [done|]. apply rel_frame; [done| |].
  - intros id b tc g HP Hv Hg k. apply Hframe. exact (rel_plain _ _ _ _ _ _ _ R HP Hv Hg).
  - intros Hff g Hg. rewrite Hframe by done. by apply (rel_tmp _ _ _ R Hff).
Qed.

(** ** The operations *)

(** The result is that of the table, or the disk failed. *)
Definition as_table {A} (r res : outcome Error A) : Prop := r = res ∨ ∃ e, r = Err e ∧ ¬ fault_free.

(** Entering a testcase whose cell is new or was emptied. *)
Lemma rel_enter w w' t t' id b tc i : Rel (λ _, True) w t → corpus w' = (corpus w) <| inner := inner (corpus w') |> → world_fs w' = world_fs w →
  good (inner (corpus w')) → next_id (inner (corpus w')) = t_next t' → t_items t' = <[id := (b, i)]> (t_items t) →
  (∀ x, view (inner (corpus w')) x = if decide (x = id) then Some (b, tc) else view (inner (corpus w)) x) →
  Rel (λ x, x ≠ id) w' t'.
Proof.
  intros R Hc Hfs G Hnext Hitems Hview. split; try done.
  - rewrite Hc. by rewrite (rel_conf _ _ _ R).
  - intros x. rewrite Hview, Hitems. case_decide as Hx; [subst; by rewrite lookup_insert_eq|]. rewrite lookup_insert_ne by done. apply (rel_dom _ _ _ R).
  - intros x b1 tc1 i1 Hx Hv Hi. rewrite Hview, decide_False in Hv by done. rewrite Hitems, lookup_insert_ne in Hi by done. rewrite Hfs. by eapply (rel_entry _ _ _ R).
  - intros x y b1 b2 tc1 tc2 f Hx Hy Hv1 Hv2. rewrite Hview, decide_False in Hv1 by done. rewrite Hview, decide_False in Hv2 by done. by eapply (rel_names _ _ _ R).
  - rewrite Hfs. apply (rel_tmp _ _ _ R).
  - intros Hff x b1 tc1 i1 Hx Hv Hi. rewrite Hview, decide_False in Hv by done. rewrite Hitems, lookup_insert_ne in Hi by done. rewrite Hfs. by eapply (rel_stored _ _ _ R Hff).
Qed.

(** How an addition ends, enabled or not. *)
Lemma rel_add_cell w w1 t id b tc i : Rel (λ _, True) w t → fresh tc i → (Z.of_nat (size (fs_map (world_fs w))) < i32_max - 1)%Z →
  w1 = w <| corpus := (corpus w) <| inner := inner (corpus w1) |> |> → good (inner (corpus w1)) → id = t_next t → next_id (inner (corpus w1)) = S id →
  (∀ x, view (inner (corpus w1)) x = if decide (x = id) then Some (b, tc) else view (inner (corpus w)) x) →
  ∃ r w', in_cell (Ok tc) id (save_in_cell (corpus w1) id) w1 = (r, w') ∧ Rel (λ _, True) w' (table_add b tc t).2 ∧ as_table r (Ok ()) ∧
    (r = Ok () → ∀ x b' tc', view (inner (corpus w')) x = Some (b', tc') → tc_input tc' ≠ None → view (inner (corpus w)) x = Some (b', tc')).
Proof.
  intros R Hfresh Hsmall Hw1 G Hid Hnext Hview. set (t' := (table_add b tc t).2).
  assert (t' = mkTable (S id) (<[id := (b, i)]> (t_items t))) as Ht' by (unfold t', table_add; rewrite (proj1 Hfresh); by subst id).
  assert (Rel (λ x, x ≠ id) w1 t') as R1.
  { eapply (rel_enter w w1 t t' id b tc i); try done; rewrite ?Ht'; try done; by rewrite Hw1. }
  destruct (rel_save w1 t' id b tc i R1) as (r & w' & E & R' & Hr & Hx); [by rewrite Hview, decide_True|by rewrite Ht'; apply lookup_insert_eq|done|by rewrite Hw1|].
  exists r, w'. split; [done|]. split; [done|]. split; [destruct r as [[]|e|]; [by left|right; by eexists|done]|].
  intros -> x b' tc' Hv Hin. destruct (decide (x = id)) as [->|Hne].
  - destruct Hr as (tc1 & Hv1 & Hi1). congruence.
  - rewrite Hx, Hview, decide_False in Hv by done. done.
Qed.

Definition in_memory (w : World) (x : CorpusId) : Prop := ∃ b tc, view (inner (corpus w)) x = Some (b, tc) ∧ tc_input tc ≠ None.
Definition small (w : World) : Prop := (Z.of_nat (size (fs_map (world_fs w))) < i32_max - 1)%Z.
(** What may be in memory after an operation: what was, but for an entry that was replaced, and what was loaded. *)
Definition memory_after (op : Op) (r : outcome Error Res) (w w' : World) : Prop := ∀ x, in_memory w' x →
  in_memory w x ∧ (r = Ok RDone → ∀ tc, op ≠ OpReplace x tc) ∨ op = OpLoad x.
Lemma memory_other op r w w' : (∀ x tc, op ≠ OpReplace x tc) → (∀ x, in_memory w' x → in_memory w x ∨ op = OpLoad x) → memory_after op r w w'.
Proof. intros Hop Hm x Hx. destruct (Hm x Hx) as [?|?]; [left|by right]. split; [done|]. intros _ tc. apply Hop. Qed.
(** What an operation on the corpus does. *)
Definition simulates (op : Op) (m : M World Res) : Prop := ∀ w t, Rel (λ _, True) w t → small w →
  ∃ r w', m w = (r, w') ∧ Rel (λ _, True) w' (table_step op t).2 ∧ as_table r (table_step op t).1 ∧
    (fault_free → memory_after op r w w').

(** Both additions: the entry in memory, then its files. *)
Lemma add_run b tc i (op : InMemory.InMemoryCorpus Testcase → outcome Error (CorpusId * InMemory.InMemoryCorpus Testcase)) (lookup : CorpusId → World → outcome Error Testcase) w t c' :
  let id := next_id (inner (corpus w)) in
  Rel (λ _, True) w t → small w → fresh tc i → op (inner (corpus w)) = Ok (id, c') → good c' → next_id c' = S id →
  (∀ x, view c' x = if decide (x = id) then Some (b, tc) else view (inner (corpus w)) x) →
  lookup id (w <| corpus := (corpus w) <| inner := c' |> |>) = Ok tc →
  ∃ r w', (id <- on_inner op ;; cell <- gets (lookup id) ;; c <- gets corpus ;; in_cell (unwrap_ok cell) id (save_in_cell c id) ;;; ret id) w = (r, w') ∧
    Rel (λ _, True) w' (table_add b tc t).2 ∧ as_table (obind r (λ id, Ok (RId id))) (table_add b tc t).1 ∧ (fault_free → ∀ x, in_memory w' x → in_memory w x).
Proof.
  intros id R Hsmall Hfresh Ea G Hnext Hview Hl. set (w1 := w <| corpus := (corpus w) <| inner := c' |> |>) in *.
  destruct (rel_add_cell w w1 t id b tc i R Hfresh Hsmall eq_refl G (rel_next _ _ _ R) Hnext Hview) as (r & w' & E & R' & Hr & Hmem).
  unfold bind at 1, on_inner. rewrite Ea, bind_gets, bind_gets. fold w1. rewrite Hl. unfold unwrap_ok, bind. rewrite E.
  assert ((table_add b tc t).1 = Ok (RId id)) as -> by (unfold table_add; rewrite (proj1 Hfresh); unfold id; by rewrite (rel_next _ _ _ R)).
  destruct Hr as [->|(e & -> & Hff)]; (eexists _, _; split; [reflexivity|]; split; [done|]).
  - split; [by left|]. intros _ x (b' & tc' & Hv & Hi). exists b', tc'. split; [|done]. by apply Hmem.
  - split; [right; by eexists|]. by intros.
Qed.
Lemma bind_res {A B} (m : M World A) (g : A → B) w r w' : m w = (r, w') → (a <- m ;; ret (g a)) w = (obind r (λ a, Ok (g a)), w').
Proof. intros E. unfold bind. rewrite E. by destruct r. Qed.

Lemma add_simulates tc : op_ok (OpAdd tc) → simulates (OpAdd tc) (disk_step (OpAdd tc)).
Proof.
  intros [i Hfresh] w t R Hsmall. destruct (view_add _ tc (rel_good _ _ _ R)) as (c' & Ea & G & Hnext & Hview).
  destruct (add_run true tc i (InMemory.add tc) get w t c' R Hsmall Hfresh Ea G Hnext Hview) as (r & w' & E & R' & Hr & Hmem).
  { unfold get. rewrite get_view. cbn [corpus inner upd eta_World eta_InMemoryOnDiskCorpus]. by rewrite Hview, decide_True. }
  eexists _, w'. split; [apply (bind_res _ RId _ _ _ E)|]. split; [done|]. split; [done|]. intros Hff. apply memory_other; [done|]. intros x Hx. left. by apply Hmem.
Qed.
Lemma add_disabled_simulates tc : op_ok (OpAddDisabled tc) → simulates (OpAddDisabled tc) (disk_step (OpAddDisabled tc)).
Proof.
  intros [i Hfresh] w t R Hsmall. destruct (view_add_disabled _ tc (rel_good _ _ _ R)) as (c' & Ea & G & Hnext & Hview).
  destruct (add_run false tc i (InMemory.add_disabled tc) get_from_all w t c' R Hsmall Hfresh Ea G Hnext Hview) as (r & w' & E & R' & Hr & Hmem).
  { unfold get_from_all. rewrite get_from_all_view. cbn [corpus inner upd eta_World eta_InMemoryOnDiskCorpus]. by rewrite Hview, decide_True. }
  eexists _, w'. split; [apply (bind_res _ RId _ _ _ E)|]. split; [done|]. split; [done|]. intros Hff. apply memory_other; [done|]. intros x Hx. left. by apply Hmem.
Qed.

Lemma rel_weaken (P Q : CorpusId → Prop) w t : (∀ x, Q x → P x) → Rel P w t → Rel Q w t.
Proof.
  intros HPQ R. split; try apply R.
  - intros id b tc i HQ. apply (rel_entry _ _ _ R), HPQ, HQ.
  - intros id id' b b' tc tc' f HQ HQ'. apply (rel_names _ _ _ R); by apply HPQ.
  - intros Hff id b tc i HQ. apply (rel_stored _ _ _ R Hff), HPQ, HQ.
Qed.

(** A cell whose content keeps its names, with the files as they were. *)
Lemma rel_cell w t id b tc tc' i s : Rel (λ _, True) w t → view (inner (corpus w)) id = Some (b, tc) → t_items t !! id = Some (b, i) → fs_map s = fs_map (world_fs w) →
  tc_filename tc' = tc_filename tc → tc_file_path tc' = tc_file_path tc →
  (tc_input tc' = Some i ∨ tc_input tc' = None ∧ ∃ f, tc_filename tc = Some f ∧ fs_map s !! path KFile f = Some i) →
  Rel (λ _, True) (mkWorld ((corpus w) <| inner := put_testcase id tc' (inner (corpus w)) |>) s) t.
Proof.
  intros R Hv Hi Hs Hn Hp Hin. destruct (rel_entry _ _ _ R id b tc i I Hv Hi) as [Hnames _].
  apply (rel_put w t id b tc tc' i s); [by eapply rel_weaken; [|exact R]|done|done|..].
  - split; [|by rewrite Hn]. intros f Hf. rewrite Hn in Hf. rewrite Hp, Hs. by apply Hnames.
  - intros f Hf x b' tc1 Hx Hv' Hf'. rewrite Hn in Hf. apply Hx. by eapply (rel_names _ _ _ R).
  - intros. by rewrite Hs.
  - intros Hff. rewrite Hn, Hs. split; [by apply (rel_tmp _ _ _ R Hff)|]. by eapply (rel_stored _ _ _ R Hff).
Qed.

(** Loading the input of a testcase into its cell. *)
Lemma load_cell w t id b tc i : Rel (λ _, True) w t → view (inner (corpus w)) id = Some (b, tc) → t_items t !! id = Some (b, i) →
  ∃ r s, load_input_into (mkCell tc (world_fs w)) = (r, s) ∧ fs_map (cell_fs s) = fs_map (world_fs w) ∧
    tc_filename (cell_tc s) = tc_filename tc ∧ tc_file_path (cell_tc s) = tc_file_path tc ∧
    match r with
    | Ok _ => tc_input (cell_tc s) = Some i
    | Err _ => ¬ fault_free ∧ tc_input (cell_tc s) = None ∧ ∃ f, tc_filename tc = Some f ∧ fs_map (cell_fs s) !! path KFile f = Some i
    | Panic => False
    end.
Proof.
  intros R Hv Hi. destruct (rel_entry _ _ _ R id b tc i I Hv Hi) as [Hnames Hin]. unfold load_input_into. rewrite bind_gets. cbn [cell_tc].
  destruct Hin as [Hin|[Hin (f & Hf & Hfile)]]; rewrite Hin; [by exists (Ok ()), (mkCell tc (world_fs w))|].
  destruct (Hnames f Hf) as (_ & Hp & _). rewrite Hp, bind_cell_fs. unfold from_file, read_file, io_op. cbn [cell_fs].
  destruct (disk_fault (fs_ticks (world_fs w))) as [e|] eqn:Hfault.
  - eexists _, _. split; [reflexivity|]. split_and!; try done; [|by exists f]. intros [Hff _]. by rewrite Hff in Hfault.
  - rewrite Hfile. eexists _, _. split; [reflexivity|]. done.
Qed.

Lemma view_after_put w t id b tc tc' x : Rel (λ _, True) w t → view (inner (corpus w)) id = Some (b, tc) →
  view (put_testcase id tc' (inner (corpus w))) x = if decide (x = id) then Some (b, tc') else view (inner (corpus w)) x.
Proof. intros R Hv. by destruct (view_put _ _ _ _ tc' (rel_good _ _ _ R) Hv) as (_ & _ & ->). Qed.

Lemma load_simulates id : simulates (OpLoad id) (disk_step (OpLoad id)).
Proof.
  intros w t R Hsmall. cbn [disk_step table_step]. pose proof (rel_view _ _ _ id R) as Hd.
  destruct (load_input id w) as [r0 w0] eqn:E0. rewrite (bind_res (load_input id) RInput w r0 w0 E0). unfold load_input in E0. rewrite bind_gets in E0.
  unfold get_from_all in E0. rewrite get_from_all_view in E0.
  destruct (view (inner (corpus w)) id) as [[b tc]|] eqn:Hv; destruct (t_items t !! id) as [[b' i]|] eqn:Hi; try done.
  2:{ injection E0 as <- <-. eexists _, _. split; [reflexivity|]. split; [done|]. split; [by left|]. intros _. apply memory_other; [done|]. intros x Hx. by left. }
  subst b'. destruct (load_cell w t id b tc i R Hv Hi) as (r & s & E & Hs & Hn & Hp & Hr).
  unfold in_cell, bind in E0. rewrite E in E0.
  assert (Rel (λ _, True) (mkWorld ((corpus w) <| inner := put_testcase id (cell_tc s) (inner (corpus w)) |>) (cell_fs s)) t) as R'.
  { apply (rel_cell w t id b tc (cell_tc s) i (cell_fs s)); try done. destruct r as [[]|e|]; [by left|right; by destruct Hr as (_ & ? & ?)|done]. }
  assert (∀ w', corpus w' = (corpus w) <| inner := put_testcase id (cell_tc s) (inner (corpus w)) |> → ∀ x, in_memory w' x → in_memory w x ∨ OpLoad id = OpLoad x) as Hmem.
  { intros w' Hw' x (b1 & tc1 & Hv1 & Hi1). destruct (decide (x = id)) as [->|Hx]; [by right|]. left. exists b1, tc1. split; [|done].
    rewrite Hw' in Hv1. cbn [inner upd eta_InMemoryOnDiskCorpus] in Hv1. by rewrite (view_after_put w t id b tc _ x R Hv), decide_False in Hv1. }
  destruct r as [[]|e|]; [| |done].
  - unfold gets, lift in E0. rewrite Hr in E0. injection E0 as <- <-. eexists _, _. split; [reflexivity|]. split; [done|]. split; [by left|].
    intros _. apply memory_other; [done|]. by apply Hmem.
  - injection E0 as <- <-. eexists _, _. split; [reflexivity|]. split; [done|]. split; [right; exists e; split; [done|apply Hr]|]. intros _. apply memory_other; [done|]. by apply Hmem.
Qed.

(** An entry that was taken out has a name of its own. *)
Lemma taken_unnamed w t id b tc : Rel (λ _, True) w t → view (inner (corpus w)) id = Some (b, tc) →
  ∀ w' (P : CorpusId → Prop), (∀ x, P x → x ≠ id ∧ view (inner (corpus w')) x = view (inner (corpus w)) x ∨ view (inner (corpus w')) x = None) → unnamed P w' tc.
Proof.
  intros R Hv w' P HP f Hf. split; [exact (rel_plain _ _ _ _ _ _ _ R I Hv Hf)|]. intros x b1 tc1 HPx Hv1 Hf1.
  destruct (HP x HPx) as [[Hx Hvx]|Hvx]; [|congruence]. rewrite Hvx in Hv1. apply Hx. by eapply (rel_names _ _ _ R).
Qed.
Lemma taken_stored w t id b tc : Rel (λ _, True) w t → view (inner (corpus w)) id = Some (b, tc) → fault_free →
  ∀ f, tc_filename tc = Some f → ∃ i, stored (fs_map (world_fs w)) f i.
Proof.
  intros R Hv Hff f Hf. pose proof (rel_view _ _ _ id R) as Hd. rewrite Hv in Hd. destruct (t_items t !! id) as [[b' i]|] eqn:Hi; [subst b'|done].
  destruct (rel_stored _ _ _ R Hff id b tc i I Hv Hi) as (f' & Hf' & Hst). exists i. congruence.
Qed.

Lemma or_drop_fails {A} entry (m : M World A) w r w1 P t : m w = (r, w1) → (∀ a, r ≠ Ok a) → Rel P w1 t → (∀ f, tc_filename entry = Some f → plain f) →
  ∃ w2, or_drop entry m w = (r, w2) ∧ corpus w2 = corpus w1 ∧ Rel P w2 t.
Proof.
  intros E Hr R Hpl. unfold or_drop. rewrite E. destruct (rel_drop P w1 t entry R Hpl) as (w2 & E2 & Hc & R2). rewrite E2.
  exists w2. destruct r as [a|e|]; [by destruct (Hr a)|done..].
Qed.

Lemma rel_delete w w1 t id : Rel (λ _, True) w t → corpus w1 = (corpus w) <| inner := inner (corpus w1) |> → world_fs w1 = world_fs w →
  changed (inner (corpus w)) (inner (corpus w1)) id None → Rel (λ _, True) w1 (mkTable (t_next t) (delete id (t_items t))).
Proof.
  intros R Hc Hfs (G & Hnext & Hview). split; cbn [t_next t_items]; try done.
  - rewrite Hc. by rewrite (rel_conf _ _ _ R).
  - rewrite Hnext. apply (rel_next _ _ _ R).
  - intros x. rewrite Hview. case_decide as Hx; [subst; by rewrite lookup_delete_eq|]. rewrite lookup_delete_ne by done. apply (rel_dom _ _ _ R).
  - intros x b tc i _ Hv Hi. rewrite Hview in Hv. case_decide as Hx; [done|]. rewrite lookup_delete_ne in Hi by done. rewrite Hfs. by eapply (rel_entry _ _ _ R).
  - intros x y b b' tc tc' f _ _ Hv Hv' Hf Hf'. rewrite Hview in Hv, Hv'. destruct (decide (x = id)), (decide (y = id)); try done. by eapply (rel_names _ _ _ R).
  - rewrite Hfs. apply (rel_tmp _ _ _ R).
  - intros Hff x b tc i _ Hv Hi. rewrite Hview in Hv. case_decide as Hx; [done|]. rewrite lookup_delete_ne in Hi by done. rewrite Hfs. by eapply (rel_stored _ _ _ R Hff).
Qed.

Lemma remove_simulates id : simulates (OpRemove id) (disk_step (OpRemove id)).
Proof.
  intros w t R Hsmall. cbn [disk_step table_step]. unfold remove. pose proof (rel_view _ _ _ id R) as Hd. pose proof (view_remove _ id (rel_good _ _ _ R)) as Hrm.
  unfold bind at 1 2, on_inner. destruct (view (inner (corpus w)) id) as [[b tc]|] eqn:Hv; destruct (t_items t !! id) as [[b' i]|] eqn:Hi; try done.
  2:{ rewrite Hrm. eexists _, _. split; [reflexivity|]. split; [done|]. split; [by left|]. intros _. apply memory_other; [done|]. intros x Hx. by left. }
  destruct Hrm as (c' & Erm & Hch). rewrite Erm. set (w1 := w <| corpus := (corpus w) <| inner := c' |> |>).
  pose proof (rel_delete w w1 t id R eq_refl eq_refl Hch) as R1.
  assert (unnamed (λ _, True) w1 tc) as Hu.
  { eapply (taken_unnamed w t id b tc R Hv). intros x _. destruct Hch as (_ & _ & Hview). change (inner (corpus w1)) with c'. rewrite Hview. case_decide; [by right|by left]. }
  destruct (rel_remove_files _ w1 _ tc R1 Hu) as (r & w2 & E & Hc2 & R2 & _ & Hp & Hok). rewrite bind_gets. unfold bind at 1.
  assert (∀ w', corpus w' = corpus w1 → ∀ x, in_memory w' x → in_memory w x ∨ OpRemove id = OpLoad x) as Hmem.
  { intros w' Hw' x (b1 & tc1 & Hv1 & Hi1). left. exists b1, tc1. split; [|done]. rewrite Hw' in Hv1. change (inner (corpus w1)) with c' in Hv1.
    destruct Hch as (_ & _ & Hview). rewrite Hview in Hv1. by case_decide. }
  assert (∀ f, tc_filename tc = Some f → plain f) as Hpl by (intros f Hf; exact (rel_plain _ _ _ _ _ _ _ R I Hv Hf)).
  destruct r as [[]|e|]; [| |done].
  - unfold or_drop. rewrite E. unfold ret at 1. destruct (rel_drop _ w2 _ tc R2 Hpl) as (w3 & E3 & Hc3 & R3). unfold bind. rewrite E3.
    eexists _, _. split; [reflexivity|]. split; [done|]. split; [by left|]. intros _. apply memory_other; [done|]. apply Hmem. congruence.
  - destruct (or_drop_fails tc _ w1 _ w2 _ _ E ltac:(done) R2 Hpl) as (w3 & E3 & Hc3 & R3). fold w1. rewrite E3.
    eexists _, _. split; [reflexivity|]. split; [done|]. split.
    + right. exists e. split; [done|]. intros Hff. by discriminate (Hok (λ f Hf, taken_stored w t id b tc R Hv Hff f Hf) Hff).
    + intros _. apply memory_other; [done|]. apply Hmem. congruence.
Qed.

(** An entry that was never saved still has its input. *)
Lemma rel_unsaved w t id b tc i : Rel (λ x, x ≠ id) w t → view (inner (corpus w)) id = Some (b, tc) → t_items t !! id = Some (b, i) →
  tc_filename tc = None → tc_input tc = Some i → ¬ fault_free → Rel (λ _, True) w t.
Proof.
  intros R Hv Hi Hn Hin Hff. split; try apply R; try done.
  - intros x b1 tc1 i1 _ Hv1 Hi1. destruct (decide (x = id)) as [->|Hx]; [|by eapply (rel_entry _ _ _ R)]. simplify_eq. split; [by rewrite Hn|by left].
  - intros x y b1 b2 tc1 tc2 f _ _ Hv1 Hv2 Hf1 Hf2. destruct (decide (x = id)) as [->|Hx]; [congruence|]. destruct (decide (y = id)) as [->|Hy]; [congruence|].
    exact (rel_names _ _ _ R x y b1 b2 tc1 tc2 f Hx Hy Hv1 Hv2 Hf1 Hf2).
Qed.

(** The part of [replace] after the testcase was exchanged. *)
Lemma replace_files w1 t id old tc i : Rel (λ x, x ≠ id) w1 t → small w1 → view (inner (corpus w1)) id = Some (true, tc) → t_items t !! id = Some (true, i) →
  fresh tc i → tc_filename tc = None → unnamed (λ x, x ≠ id) w1 old → (fault_free → ∀ f, tc_filename old = Some f → ∃ b, stored (fs_map (world_fs w1)) f b) →
  ∃ r w', (on_world_fs (remove_testcase (corpus w1) old) ;;; cell <- gets (get id) ;; in_cell (unwrap_ok cell) id (save_in_cell (corpus w1) id)) w1 = (r, w') ∧
    Rel (λ _, True) w' t ∧ as_table r (Ok ()) ∧ (r = Ok () → ∀ x, in_memory w' x → x ≠ id ∧ in_memory w1 x).
Proof.
  intros R Hsmall Hv Hi Hfresh Hn Hu Hst. destruct (rel_remove_files _ w1 t old R Hu) as (r & w2 & E & Hc2 & R2 & Hshr & Hp & Hok).
  unfold bind at 1. rewrite E. destruct r as [[]|e|]; [| |done].
  - rewrite bind_gets. unfold get. rewrite get_view, Hc2, Hv. cbn [unwrap_ok]. rewrite <- Hc2.
    destruct (rel_save w2 t id true tc i R2) as (r & w' & E' & R' & Hr & Hx); [by rewrite Hc2|done|done|unfold small, shrinks in *; lia|].
    rewrite E'. exists r, w'. split; [done|]. split; [done|]. split; [destruct r as [[]|e|]; [by left|right; by eexists|done]|].
    intros -> x (b1 & tc1 & Hv1 & Hi1). destruct (decide (x = id)) as [->|Hne].
    + destruct Hr as (tc2 & Hv2 & Hi2). congruence.
    + split; [done|]. rewrite Hx, Hc2 in Hv1 by done. by exists b1, tc1.
  - assert (¬ fault_free) as Hff by (intros Hff; by discriminate (Hok (Hst Hff) Hff)). eexists _, _. split; [reflexivity|].
    split; [eapply (rel_unsaved w2 t id true tc i); try done; [by rewrite Hc2|apply Hfresh]|]. split; [right; by eexists|done].
Qed.

Lemma replace_simulates id tc : op_ok (OpReplace id tc) → simulates (OpReplace id tc) (disk_step (OpReplace id tc)).
Proof.
  intros [[i Hfresh] Hn] w t R Hsmall. cbn [disk_step table_step]. unfold replace. pose proof (rel_view _ _ _ id R) as Hd.
  pose proof (view_replace _ id tc (rel_good _ _ _ R)) as Hrp. unfold bind at 1 2, on_inner. rewrite (proj1 Hfresh).
  destruct (view (inner (corpus w)) id) as [[b old]|] eqn:Hv; destruct (t_items t !! id) as [[b' i0]|] eqn:Hi; try done.
  2:{ rewrite Hrp. eexists _, _. split; [reflexivity|]. split; [done|]. split; [by left|]. intros _ x Hx. left. split; [done|]. by intros [=]. }
  subst b'. destruct b. 2:{ rewrite Hrp. eexists _, _. split; [reflexivity|]. split; [done|]. split; [by left|]. intros _ x Hx. left. split; [done|]. by intros [=]. }
  destruct Hrp as (c' & Erp & G & Hnext & Hview). rewrite Erp. set (w1 := w <| corpus := (corpus w) <| inner := c' |> |>). set (t' := mkTable _ _).
  assert (Rel (λ x, x ≠ id) w1 t') as R1.
  { eapply (rel_enter w w1 t t' id true tc i); try done. change (inner (corpus w1)) with c'. rewrite Hnext. apply (rel_next _ _ _ R). }
  destruct (replace_files w1 t' id old tc i R1) as (r & w2 & E & R2 & Hr & Hmem); [done| |by apply lookup_insert_eq|done|done| | |].
  { change (inner (corpus w1)) with c'. by rewrite Hview, decide_True. }
  { eapply (taken_unnamed w t id true old R Hv). intros x Hx. left. split; [done|]. change (inner (corpus w1)) with c'. by rewrite Hview, decide_False. }
  { intros Hff. exact (taken_stored w t id true old R Hv Hff). }
  assert (∀ f, tc_filename old = Some f → plain f) as Hpl by (intros f Hf; exact (rel_plain _ _ _ _ _ _ _ R I Hv Hf)).
  rewrite bind_gets. unfold bind at 1. fold w1. destruct Hr as [->|(e & -> & Hff)].
  - unfold or_drop. rewrite E. unfold ret at 1. destruct (rel_drop _ w2 _ old R2 Hpl) as (w3 & E3 & Hc3 & R3). unfold bind. rewrite E3.
    eexists _, _. split; [reflexivity|]. split; [done|]. split; [by left|]. intros _ x (b1 & tc1 & Hv1 & Hi1). left.
    destruct (Hmem eq_refl x) as (Hx & b2 & tc2 & Hv2 & Hi2); [exists b1, tc1; by rewrite <- Hc3|].
    split; [|by intros _ tc' [= Hx' _]]. exists b2, tc2. change (inner (corpus w1)) with c' in Hv2. by rewrite Hview, decide_False in Hv2.
  - destruct (or_drop_fails old _ w1 _ w2 _ _ E ltac:(done) R2 Hpl) as (w3 & E3 & Hc3 & R3). rewrite E3.
    eexists _, _. split; [reflexivity|]. split; [done|]. split; [right; by eexists|]. by intros.
Qed.

Lemma disk_step_simulates op : op_ok op → simulates op (disk_step op).
Proof. destruct op; [apply add_simulates|apply add_disabled_simulates|apply replace_simulates|intros _; apply remove_simulates|intros _; apply load_simulates]. Qed.

(** The corpora that operations lead to, from an empty one in a directory without left-over temporary files;
    locks and files of others may be there. *)
Inductive reachable : World → Table → Prop :=
| reach_new fs : (∀ f, plain f → fs_map fs !! path KTmp f = None) → reachable (mkWorld (c0 <| inner := InMemory.new |>) fs) (mkTable 0 ∅)
| reach_step w t op : reachable w t → op_ok op → small w → reachable (disk_step op w).2 (table_step op t).2.

Lemma reachable_rel w t : reachable w t → Rel (λ _, True) w t.
Proof.
  induction 1 as [fs Hfs|w t op _ R Hop Hs].
  - split; cbn [corpus inner upd eta_InMemoryOnDiskCorpus world_fs t_next t_items]; try done. apply good_new.
  - destruct (disk_step_simulates op Hop w t R Hs) as (r & w' & -> & R' & _). exact R'.
Qed.

(** The input of an entry is in memory, or in the file the testcase names. *)
Definition holds_input (w : World) (tc : Testcase) (i : bytes) : Prop :=
  tc_input tc = Some i ∨ tc_input tc = None ∧ ∃ p, tc_file_path tc = Some p ∧ fs_map (world_fs w) !! p = Some i.

Lemma rel_holds w t id b i : Rel (λ _, True) w t → t_items t !! id = Some (b, i) → ∃ tc, view (inner (corpus w)) id = Some (b, tc) ∧ holds_input w tc i.
Proof.
  intros R Hi. pose proof (rel_view _ _ _ id R) as Hd. rewrite Hi in Hd. destruct (view _ id) as [[b' tc]|] eqn:Hv; [subst b'|done].
  exists tc. split; [done|]. destruct (rel_entry _ _ _ R id b tc i I Hv Hi) as [Hn [?|[Hin (f & Hf & Hfile)]]]; [by left|right].
  split; [done|]. destruct (Hn f Hf) as (_ & Hp & _). by exists (path KFile f).
Qed.

(** C14. A corpus on disk is a table of inputs: from any state that operations lead to, also ones that failed, the next operation does not
    panic and gives the table's result, or fails because the disk or the serialization does; and every input that is in the
    table is then in the memory of its testcase or complete in its file. *)
Theorem disk_corpus_refines w t op : reachable w t → op_ok op → small w →
  as_table (disk_step op w).1 (table_step op t).1 ∧
  ∀ id b i, t_items (table_step op t).2 !! id = Some (b, i) →
    ∃ tc, view (inner (corpus (disk_step op w).2)) id = Some (b, tc) ∧ holds_input (disk_step op w).2 tc i.
Proof.
  intros Hr Hop Hs. destruct (disk_step_simulates op Hop w t (reachable_rel w t Hr) Hs) as (r & w' & -> & R' & Hres & _).
  split; [exact Hres|]. intros id b i. by apply rel_holds.
Qed.
End Sim.

(** ** Two testcases with the same hash *)

Module DiskDemo.
#[local] Instance toy_faults : Faults := { disk_fault _ := None; disk_partial _ := 0 }.
#[local] Instance toy_disk : DiskEnv := { generic_hash_std _ := 48879%Z; serialize_metadata _ _ := inr [Byte.x7b; Byte.x7d] }.
Definition toy_corpus : InMemoryOnDiskCorpus := mkDiskCorpus InMemory.new "corpus" (Some JsonPretty) None true.
Definition toy_world : World := mkWorld toy_corpus (mkFiles ∅ 0).
Definition input_a : bytes := [Byte.x61].
Definition input_b : bytes := [Byte.x62; Byte.x62].
Definition two_added : World := (disk_step (OpAdd (Testcase_new input_b)) (disk_step (OpAdd (Testcase_new input_a)) toy_world).2).2.
Definition two_inputs : Table := mkTable 2 (<[1 := (true, input_b)]> {[0 := (true, input_a)]}).

Lemma toy_fresh b : op_ok (OpAdd (Testcase_new b)).
Proof. by exists b. Qed.
Lemma toy_reachable : reachable "corpus" toy_corpus two_added two_inputs.
Proof.
  unfold two_added. change two_inputs with (table_step (OpAdd (Testcase_new input_b)) (table_step (OpAdd (Testcase_new input_a)) (mkTable 0 ∅)).2).2.
  apply reach_step; [apply reach_step|apply toy_fresh|by vm_compute]; [apply (reach_new "corpus" toy_corpus)|apply toy_fresh|by vm_compute].
  intros f _. apply lookup_empty.
Qed.

(** The second gets another name, and is loaded from its own file; the first can still be removed. *)
Lemma disk_corpus_refines_witness : (disk_step (OpLoad 1) two_added).1 = Ok (RInput input_b) ∧ (disk_step (OpRemove 0) two_added).1 = Ok RDone ∧
  (λ v, tc_filename v.2) <$> view (inner (corpus two_added)) 1 = Some (Some "000000000000beef-2").
Proof.
  assert (∀ op, op_ok op → as_table (disk_step op two_added).1 (table_step op two_inputs).1) as Hop.
  { intros op Hop. apply (disk_corpus_refines "corpus" ltac:(done) toy_corpus eq_refl eq_refl two_added two_inputs op toy_reachable Hop). by vm_compute. }
  assert (fault_free (DE := toy_disk)) as Hff by (split; [done|]; intros; by eexists).
  split_and!; [by destruct (Hop (OpLoad 1) I) as [->|(e & _ & [])]|by destruct (Hop (OpRemove 0) I) as [->|(e & _ & [])]|by vm_compute].
Defined.
End DiskDemo.
