(* ===== verification/DiskCache.v ===== *)
(** * DiskCache: what the corpus with a cache promises

    [CachedOnDiskCorpus] of [corpus/cached.rs]: the eviction loop ends and leaves room ([evict_spec]); the corpus is still the table
    of inputs of [DiskFacts] and keeps to the size of its cache ([cached_corpus_refines]); an input is there when asked for,
    but not when its entry was replaced while it was in the cache ([get_loads], [replaced_never_cached]). *)

From Stdlib Require Import ZArith Lia Ascii.
From S2P Require Import Prelude Float64 Metadata Corpus Str NumParse Format Files DiskCorpus DiskFacts.
Import InMemoryFacts.

(** The operations on the cached corpus, with the borrows that are out. *)
Definition cached_step `{Faults} `{DiskEnv} (borrows : gmap CorpusId BorrowFlag) (op : Op) : M CachedWorld Res :=
  match op with
  | OpAdd tc => id <- cached_add tc ;; ret (RId id)
  | OpAddDisabled tc => id <- cached_add_disabled tc ;; ret (RId id)
  | OpReplace id tc => entry <- cached_replace id tc ;; on_inner_world (on_world_fs (drop_testcase entry)) ;;; ret RDone
  | OpRemove id => entry <- cached_remove id ;; on_inner_world (on_world_fs (drop_testcase entry)) ;;; ret RDone
  | OpLoad id => b <- cached_load_input borrows id ;; ret (RInput b)
  end.

Section Cache.
Context `{FL : Faults} `{DE : DiskEnv} (dir : string) (dir_ne : to_chars dir ≠ []).
Context (c0 : InMemoryOnDiskCorpus) (c_dir : dir_path c0 = dir) (c_locking : locking c0 = true) (no_fault : fault_free).
Abbreviation Rel := (Rel dir c0 (λ _, True)).

Lemma inner_set_world v w : inner_world (set_inner_world v w) = v.
Proof. by destruct v. Qed.
Lemma bind_inner_world {A B} (m : M World A) (k : A → M CachedWorld B) w r v : m (inner_world w) = (Ok r, v) →
  bind (on_inner_world m) k w = k r (set_inner_world v w).
Proof. intros E. unfold bind, on_inner_world, zoom. by rewrite E. Qed.

(** Taking the input of an entry out of memory. *)
Lemma evict_cell w t id b tc : Rel w t → view (inner (corpus w)) id = Some (b, tc) →
  ∃ w', in_cell (Ok tc) id (set_tc (λ tc, tc <| tc_input := None |>)) w = (Ok (), w') ∧ Rel w' t ∧
    (∀ x, view (inner (corpus w')) x = if decide (x = id) then Some (b, tc <| tc_input := None |>) else view (inner (corpus w)) x).
Proof.
  intros R Hv. pose proof (rel_view _ _ _ _ _ id R) as Hd. rewrite Hv in Hd. destruct (t_items t !! id) as [[b' i]|] eqn:Hi; [subst b'|done].
  eexists. split; [reflexivity|]. split; [|intros x; by apply (view_after_put dir c0 w t id b tc _ x R Hv)].
  apply (rel_cell dir c0 w t id b tc _ i (world_fs w)); try done. right. split; [done|].
  destruct (rel_stored _ _ _ _ _ R no_fault id b tc i I Hv Hi) as (f & Hf & Hst & _). by exists f.
Qed.

(** The loop makes room for one more input unless too many cells are borrowed; what it does not evict stays. *)
Lemma evict_spec fuel borrows bn w t : let max := cache_max_len (cached w) in
  Rel (inner_world w) t → (∀ x, x ∈ cached_indexes (cached w) → is_Some (t_items t !! x)) → bn < max →
  length (cached_indexes (cached w)) + (max - bn) < fuel →
  ∃ w', evict fuel borrows bn w = (Ok (), w') ∧ Rel (inner_world w') t ∧ cache_max_len (cached w') = max ∧
    (∀ x, x ∈ cached_indexes (cached w') → x ∈ cached_indexes (cached w)) ∧
    (∀ x, in_memory (inner_world w') x → in_memory (inner_world w) x ∧ (x ∈ cached_indexes (cached w) → x ∈ cached_indexes (cached w'))) ∧
    (∀ x, x ∉ cached_indexes (cached w) → view (inner (corpus (inner_world w'))) x = view (inner (corpus (inner_world w))) x) ∧
    (borrows = ∅ → length (cached_indexes (cached w')) < max).
Proof.
  revert bn w. induction fuel as [|fuel IH]; intros bn w max R Hin Hbn Hfuel; [lia|]. cbn [evict]. rewrite !bind_gets. fold max.
  destruct (Nat.leb_spec max (length (cached_indexes (cached w)))) as [Hfull|Hroom].
  2:{ exists w. split_and!; try done. }
  destruct (cached_indexes (cached w)) as [|removed rest] eqn:Ec; [cbn in Hfull; lia|].
  unfold set_indexes at 1. rewrite bind_modify, bind_gets. set (w1 := w <| cached := _ |>).
  change (inner_world w1) with (inner_world w). unfold get_from_all. rewrite get_from_all_view.
  pose proof (rel_view _ _ _ _ _ removed R) as Hd. destruct (Hin removed) as [[b i] Hi]; [by left|]. rewrite Hi in Hd.
  destruct (view (inner (corpus (inner_world w))) removed) as [[b' tc]|] eqn:Hv; [subst b'|done]. rewrite bind_lift. cbn [length] in *.
  case_decide as Hb.
  - destruct (evict_cell _ t removed b tc R Hv) as (v & E & Rv & Hview).
    rewrite (bind_inner_world _ _ _ () v) by exact E. set (w2 := set_inner_world v w1).
    assert (inner_world w2 = v) as Ew2 by apply inner_set_world.
    destruct (IH bn w2) as (w' & E' & R' & Hmax & Hsub & Hmem & Hview' & Hlen); [by rewrite Ew2|intros x Hx; apply Hin; by right|done|change (cached_indexes (cached w2)) with rest; change (cache_max_len (cached w2)) with max; lia|].
    rewrite Ew2 in Hmem, Hview'. change (cached_indexes (cached w2)) with rest in *. change (cache_max_len (cached w2)) with max in *.
    exists w'. split_and!; try done.
    + intros x Hx. right. by apply Hsub.
    + intros x Hx. destruct (Hmem x Hx) as [(b1 & tc1 & Hv1 & Hi1) Hc]. rewrite Hview in Hv1. case_decide as Hxr; [by injection Hv1 as <- <-|].
      split; [by exists b1, tc1|]. rewrite elem_of_cons. intros [?|?]; [done|by apply Hc].
    + intros x Hx. apply not_elem_of_cons in Hx as [Hxr Hx]. rewrite Hview', Hview, decide_False by done. done.
  - unfold set_indexes. rewrite bind_modify. set (w2 := w1 <| cached := _ |>).
    assert (cached_indexes (cached w2) = rest ++ [removed]) as Ec2 by done.
    destruct (Nat.eqb_spec max (S bn)) as [Hm|Hm].
    + exists w2. split_and!; try done.
      * intros x. rewrite Ec2. set_solver.
      * intros x Hx. split; [done|]. rewrite Ec2. set_solver.
      * intros ->. by rewrite lookup_empty in Hb.
    + destruct (IH (S bn) w2) as (w' & E' & R' & Hmax & Hsub & Hmem & Hview' & Hlen); [done| |change (cache_max_len (cached w2)) with max; lia| |].
      * intros x Hx. apply Hin. rewrite Ec2 in Hx. set_solver.
      * rewrite Ec2, length_app. change (cache_max_len (cached w2)) with max. cbn. lia.
      * rewrite Ec2 in *. change (cache_max_len (cached w2)) with max in *. exists w'. split_and!; try done.
        -- intros x Hx. apply Hsub in Hx. set_solver.
        -- intros x Hx. destruct (Hmem x Hx) as [Hx1 Hx2]. split; [done|]. intros. apply Hx2. set_solver.
        -- intros x Hx. apply Hview'. set_solver.
Qed.

(** The inputs in memory are those the cache knows of, and it knows of entries only. *)
Record CRel (w : CachedWorld) (t : Table) : Prop := {
  crel_disk : Rel (inner_world w) t;
  crel_known : ∀ x, in_memory (inner_world w) x → x ∈ cached_indexes (cached w);
  crel_entry : ∀ x, x ∈ cached_indexes (cached w) → is_Some (t_items t !! x);
  crel_room : 1 ≤ cache_max_len (cached w);
}.
Definition fits (w : CachedWorld) : Prop := length (cached_indexes (cached w)) ≤ cache_max_len (cached w).

Lemma load_cell_ok w t id b tc i : Rel w t → view (inner (corpus w)) id = Some (b, tc) → t_items t !! id = Some (b, i) →
  ∃ w', in_cell (Ok tc) id load_input_into w = (Ok (), w') ∧ Rel w' t ∧
    (∀ x, x ≠ id → view (inner (corpus w')) x = view (inner (corpus w)) x) ∧ ∃ tc', view (inner (corpus w')) id = Some (b, tc') ∧ tc_input tc' = Some i.
Proof.
  intros R Hv Hi. destruct (load_cell dir c0 w t id b tc i R Hv Hi) as (r & s & E & Hs & Hn & Hp & Hr).
  destruct r as [[]|e|]; [|by destruct Hr|done]. unfold in_cell. rewrite E. eexists. split; [reflexivity|].
  split; [apply (rel_cell dir c0 w t id b tc _ i (cell_fs s)); try done; by left|].
  split; [intros x Hx; cbn; by rewrite (view_after_put dir c0 w t id b tc _ x R Hv), decide_False|].
  exists (cell_tc s). split; [|done]. cbn. by rewrite (view_after_put dir c0 w t id b tc _ id R Hv), decide_True.
Qed.

(** Asking for a testcase. *)
Lemma cache_testcase_spec borrows w t id b tc i : CRel w t → view (inner (corpus (inner_world w))) id = Some (b, tc) → t_items t !! id = Some (b, i) → borrows !! id = None →
  ∃ w', cache_testcase borrows (Ok tc) id w = (Ok (), w') ∧ CRel w' t ∧ id ∈ cached_indexes (cached w') ∧ cache_max_len (cached w') = cache_max_len (cached w) ∧
    (borrows = ∅ → fits w → fits w') ∧ (id ∉ cached_indexes (cached w) → in_memory (inner_world w') id) ∧
    (borrows = ∅ → tc_input tc = None → id ∈ cached_indexes (cached w) → cache_max_len (cached w) = 1 → ¬ in_memory (inner_world w') id ∧ cached_indexes (cached w') = [id]).
Proof.
  intros [R Hknown Hentry Hroom] Hv Hi Hb. unfold cache_testcase. rewrite bind_lift, decide_False by by rewrite Hb.
  destruct (tc_input tc) as [j|] eqn:Hin.
  { exists w. assert (in_memory (inner_world w) id) as Hm by (exists b, tc; by rewrite Hin). split_and!; try done. by apply Hknown. }
  rewrite decide_True by done. destruct (load_cell_ok _ t id b tc i R Hv Hi) as (v & E & Rv & Hother & tc' & Hvid & Hinid).
  rewrite (bind_inner_world _ _ _ () v) by exact E. rewrite bind_gets. set (w1 := set_inner_world v w).
  assert (inner_world w1 = v) as Ew1 by apply inner_set_world.
  destruct (evict_spec (S (length (cached_indexes (cached w1)) + cache_max_len (cached w1))) borrows 0 w1 t) as (w2 & E2 & R2 & Hmax & Hsub & Hmem & Hview & Hlen);
    [by rewrite Ew1|done|done|lia|].
  unfold bind at 1. rewrite E2. eexists. split; [reflexivity|]. set (w3 := w2 <| cached := _ |>).
  change (inner_world w3) with (inner_world w2). assert (cached_indexes (cached w3) = cached_indexes (cached w2) ++ [id]) as Ec by done.
  change (cached_indexes (cached w1)) with (cached_indexes (cached w)) in *. change (cache_max_len (cached w1)) with (cache_max_len (cached w)) in *.
  split_and!.
  - split; [done| | |change (cache_max_len (cached w3)) with (cache_max_len (cached w2)); by rewrite Hmax].
    + intros x Hx. rewrite Ec. apply elem_of_app. destruct (decide (x = id)) as [->|Hx']; [right; by apply list_elem_of_singleton|left].
      destruct (Hmem x Hx) as [(b1 & tc1 & Hv1 & Hi1) Hc]. apply Hc, Hknown. exists b1, tc1. split; [|done]. by rewrite Ew1, Hother in Hv1.
    + intros x Hx. rewrite Ec in Hx. apply elem_of_app in Hx as [Hx|Hx%list_elem_of_singleton]; [by apply Hentry, Hsub|subst x; by rewrite Hi].
  - rewrite Ec. apply elem_of_app. right. by apply list_elem_of_singleton.
  - exact Hmax.
  - intros Hbe _. unfold fits. rewrite Ec, length_app. specialize (Hlen Hbe). change (cache_max_len (cached w3)) with (cache_max_len (cached w2)). cbn. lia.
  - intros Hid. exists b, tc'. rewrite Hview, Ew1 by done. by rewrite Hinid.
  - intros Hbe _ Hid H1. specialize (Hlen Hbe). assert (cached_indexes (cached w2) = []) as Enil by (apply nil_length_inv; lia).
    split; [|by rewrite Ec, Enil]. intros Hm. destruct (Hmem id Hm) as [_ Hc]. specialize (Hc Hid). rewrite Enil in Hc. by apply not_elem_of_nil in Hc.
Qed.

Lemma load_input_ok w t id b i : Rel w t → t_items t !! id = Some (b, i) →
  ∃ w', load_input id w = (Ok i, w') ∧ Rel w' t ∧ ∀ x, in_memory w' x → in_memory w x ∨ x = id.
Proof.
  intros R Hi. pose proof (rel_view _ _ _ _ _ id R) as Hd. rewrite Hi in Hd. destruct (view (inner (corpus w)) id) as [[b' tc]|] eqn:Hv; [subst b'|done].
  destruct (load_cell_ok w t id b tc i R Hv Hi) as (w' & E & R' & Hother & tc' & Hv' & Hin).
  unfold load_input. rewrite bind_gets. unfold get_from_all. rewrite get_from_all_view, Hv. unfold in_cell in E |- *. unfold bind.
  destruct (load_input_into (mkCell tc (world_fs w))) as [[[]|e|] s]; [|done..]. injection E as <-.
  cbn [corpus inner upd eta_InMemoryOnDiskCorpus] in Hv', Hother. rewrite (view_after_put dir c0 w t id b tc _ id R Hv), decide_True in Hv' by done.
  injection Hv' as <-. unfold gets, lift. rewrite Hin. eexists. split; [reflexivity|]. split; [done|].
  intros x (b1 & tc1 & Hv1 & Hi1). destruct (decide (x = id)) as [|Hx]; [by right|left]. exists b1, tc1. split; [|done]. rewrite <- Hother by done. exact Hv1.
Qed.

(** Asking and loading. *)
Lemma cached_load_spec borrows w t id b i : CRel w t → t_items t !! id = Some (b, i) → borrows !! id = None →
  ∃ w', cached_load_input borrows id w = (Ok i, w') ∧ CRel w' t ∧ cache_max_len (cached w') = cache_max_len (cached w) ∧ (borrows = ∅ → fits w → fits w').
Proof.
  intros C Hi Hb. pose proof (rel_view _ _ _ _ _ id (crel_disk _ _ C)) as Hd. rewrite Hi in Hd.
  destruct (view (inner (corpus (inner_world w))) id) as [[b' tc]|] eqn:Hv; [subst b'|done].
  destruct (cache_testcase_spec borrows w t id b tc i C Hv Hi Hb) as (w1 & E1 & C1 & Hid & Hmax & Hfits & _).
  unfold cached_load_input, cached_get_from_all, bind at 1. rewrite bind_gets. unfold get_from_all. rewrite get_from_all_view, Hv, E1.
  destruct (load_input_ok _ t id b i (crel_disk _ _ C1) Hi) as (v & Ev & Rv & Hmem). unfold on_inner_world, zoom. rewrite Ev.
  eexists. split; [reflexivity|]. destruct C1 as [R1 Hknown Hentry Hroom]. split; [|done]. split; rewrite ?inner_set_world; try done.
  intros x Hx. destruct (Hmem x Hx) as [?| ->]; [by apply Hknown|done].
Qed.

(** ** The cached corpus is the table too *)

Lemma on_inner_bind {A B} (m : M World A) (k : A → M World B) w :
  on_inner_world (bind m k) w = bind (on_inner_world m) (λ a, on_inner_world (k a)) w.
Proof.
  unfold on_inner_world, zoom, bind. destruct (m (inner_world w)) as [[a|e|] v]; [|done..]. rewrite inner_set_world. by destruct (k a v).
Qed.
Lemma on_inner_ret {A} (a : A) w : on_inner_world (ret a) w = ret a w.
Proof. unfold on_inner_world, zoom, ret. by destruct w as [[? ? ?] ?]. Qed.
Lemma bind_ext {A B} (m : M CachedWorld A) (k k' : A → M CachedWorld B) w : (∀ a w, k a w = k' a w) → bind m k w = bind m k' w.
Proof. intros Hk. unfold bind. by destruct (m w) as [[a|e|] v]. Qed.

(** Additions and replacements leave the cache alone. *)
Lemma cached_step_inner borrows op w : (∀ id, op ≠ OpLoad id) → (∀ id, op ≠ OpRemove id) → cached_step borrows op w = on_inner_world (disk_step op) w.
Proof.
  intros Hl Hr. destruct op as [tc|tc|id tc|id|id]; [..|by destruct (Hr id)|by destruct (Hl id)]; cbn [cached_step disk_step]; rewrite on_inner_bind.
  - apply bind_ext. intros. by rewrite on_inner_ret.
  - apply bind_ext. intros. by rewrite on_inner_ret.
  - apply bind_ext. intros a w0. rewrite on_inner_bind. apply bind_ext. intros. by rewrite on_inner_ret.
Qed.

(** The step agrees with the table, and keeps to the size of the cache when nothing is borrowed. *)
Definition cached_simulates (borrows : gmap CorpusId BorrowFlag) (op : Op) : Prop := ∀ w t, CRel w t → op_ok op → small (inner_world w) →
  (∀ id, op = OpLoad id → borrows !! id = None) →
  ∃ w', cached_step borrows op w = ((table_step op t).1, w') ∧ CRel w' (table_step op t).2 ∧ cache_max_len (cached w') = cache_max_len (cached w) ∧
    (borrows = ∅ → fits w → fits w').

Lemma no_fault_result {A} (r res : outcome Error A) : as_table r res → r = res.
Proof. by intros [?|(e & _ & [])]. Qed.

Lemma inner_op_simulates borrows op : (∀ id, op ≠ OpLoad id) → (∀ id, op ≠ OpRemove id) →
  (∀ t x, is_Some (t_items t !! x) → is_Some (t_items (table_step op t).2 !! x)) → cached_simulates borrows op.
Proof.
  intros Hl Hr Hkeep w t [R Hknown Hentry Hroom] Hop Hs _. rewrite cached_step_inner by done.
  destruct (disk_step_simulates dir dir_ne c0 c_dir c_locking op Hop _ t R Hs) as (r & v & E & Rv & Hres%no_fault_result & Hmem).
  unfold on_inner_world, zoom. rewrite E. subst r. eexists. split; [reflexivity|]. split; [|done]. split; rewrite ?inner_set_world; [done| | |done].
  - intros x Hx. destruct (Hmem no_fault x Hx) as [[? _]|?]; [by apply Hknown|by destruct (Hl x)].
  - intros x Hx. by apply Hkeep, Hentry.
Qed.

Lemma remove_op_simulates borrows id : cached_simulates borrows (OpRemove id).
Proof.
  intros w t [R Hknown Hentry Hroom] Hop Hs _.
  destruct (disk_step_simulates dir dir_ne c0 c_dir c_locking (OpRemove id) I _ t R Hs) as (r & v & E & Rv & Hres%no_fault_result & Hmem).
  subst r. cbn [cached_step disk_step table_step] in *. unfold cached_remove. unfold bind at 1 2. unfold on_inner_world at 1, zoom at 1.
  unfold bind at 1 in E. destruct (t_items t !! id) as [bi|] eqn:Hi; cbn [fst snd] in *.
  - destruct (remove id (inner_world w)) as [[entry|e|] v1]; [|done..]. unfold bind in E. destruct (on_world_fs (drop_testcase entry) v1) as [[[]|e|] v2] eqn:E2; [|done..].
    injection E as <-. unfold set_indexes. rewrite bind_modify. set (w1 := _ <| cached := _ |>). unfold ret at 1.
    rewrite (bind_inner_world _ _ w1 () v2) by (change (inner_world w1) with (inner_world (set_inner_world v1 w)); by rewrite inner_set_world).
    eexists. split; [reflexivity|]. set (w2 := set_inner_world v2 w1). assert (inner_world w2 = v2) as Ew2 by apply inner_set_world.
    assert (cached_indexes (cached w2) = filter (λ e, e ≠ id) (cached_indexes (cached w))) as Ec by done.
    split; [split|split; [done|]].
    + by rewrite Ew2.
    + intros x Hx. rewrite Ew2 in Hx. rewrite Ec. apply list_elem_of_filter. split.
      * intros ->. destruct Hx as (b1 & tc1 & Hv1 & _). pose proof (rel_view _ _ _ _ _ id Rv) as Hd. cbn [t_items] in Hd. by rewrite Hv1, lookup_delete_eq in Hd.
      * destruct (Hmem no_fault x Hx) as [[? _]|?]; [by apply Hknown|done].
    + intros x Hx. rewrite Ec in Hx. apply list_elem_of_filter in Hx as [Hne Hx]. cbn [t_items]. rewrite lookup_delete_ne by done. by apply Hentry.
    + done.
    + intros _ Hf. unfold fits in *. rewrite Ec. change (cache_max_len (cached w2)) with (cache_max_len (cached w)). etrans; [apply length_filter|done].
  - destruct (remove id (inner_world w)) as [[entry|e|] v1].
    + unfold bind in E. destruct (on_world_fs (drop_testcase entry) v1) as [[[]|e|] v2] eqn:E2; [done| |done].
      exfalso. unfold on_world_fs, with_err, zoom, drop_testcase in E2. by destruct (tc_filename entry).
    + injection E as -> ->. eexists. split; [reflexivity|]. split; [|done]. split; rewrite ?inner_set_world; try done.
      intros x Hx. destruct (Hmem no_fault x Hx) as [[? _]|?]; [by apply Hknown|done].
    + done.
Qed.

Lemma load_op_simulates borrows id : cached_simulates borrows (OpLoad id).
Proof.
  intros w t C _ _ Hb. cbn [cached_step table_step]. destruct (t_items t !! id) as [[b i]|] eqn:Hi.
  - destruct (cached_load_spec borrows w t id b i C Hi (Hb id eq_refl)) as (w' & E & C' & Hmax & Hf). unfold bind. rewrite E. by exists w'.
  - exists w. split; [|done]. pose proof (rel_view _ _ _ _ _ id (crel_disk _ _ C)) as Hd. rewrite Hi in Hd.
    unfold cached_load_input, cached_get_from_all, bind, gets, get_from_all. rewrite get_from_all_view. by destruct (view _ id) as [[b tc]|].
Qed.

Lemma cached_step_simulates borrows op : cached_simulates borrows op.
Proof.
  assert (∀ b tc t x, is_Some (t_items t !! x) → is_Some (t_items (table_add b tc t).2 !! x)) as Hadd.
  { intros b tc t x Hx. unfold table_add. destruct (tc_input tc); [|done]. cbn [snd t_items]. by apply lookup_insert_is_Some'; right. }
  destruct op as [tc|tc|id tc|id|id]; [..|apply remove_op_simulates|apply load_op_simulates]; apply inner_op_simulates; try done; intros t x Hx; cbn [table_step];
    [by apply Hadd..|].
  destruct (t_items t !! id) as [[[] i]|], (tc_input tc); try done. cbn [snd t_items]. by apply lookup_insert_is_Some'; right.
Qed.

(** The states of a cached corpus; [calm] says that nothing was ever borrowed while another testcase was asked for. *)
Inductive cached_reachable (calm : bool) (max : usize) : CachedWorld → Table → Prop :=
| creach_new c fs : new_cached (c0 <| inner := InMemory.new |>) max = Ok c → (∀ f, plain f → fs_map fs !! path dir KTmp f = None) →
    cached_reachable calm max (mkCachedWorld c fs) (mkTable 0 ∅)
| creach_step w t borrows op : cached_reachable calm max w t → op_ok op → small (inner_world w) → (∀ id, op = OpLoad id → borrows !! id = None) →
    (calm = true → borrows = ∅) → cached_reachable calm max (cached_step borrows op w).2 (table_step op t).2.

Lemma cached_reachable_rel calm max w t : cached_reachable calm max w t → CRel w t ∧ cache_max_len (cached w) = max ∧ (calm = true → fits w).
Proof.
  induction 1 as [c fs Hc Hfs|w t borrows op _ (C & Hm & Hf) Hop Hs Hb Hcalm].
  - unfold new_cached in Hc. destruct (Nat.eqb_spec max 0); [done|]. injection Hc as <-.
    split; [|split; [done|intros _; unfold fits; cbn; lia]]. split; cbn [cached cached_indexes cache_max_len]; [| |by intros x ?%not_elem_of_nil|lia].
    + apply (reachable_rel dir dir_ne c0 c_dir c_locking). by apply reach_new.
    + intros x (b & tc & Hv & _). by rewrite view_new in Hv.
  - destruct (cached_step_simulates borrows op w t C Hop Hs Hb) as (w' & -> & C' & Hm' & Hf'). split; [done|]. split; [by rewrite <- Hm|].
    intros Hc. by apply Hf'; auto.
Qed.

(** C15. A cached corpus without faults is the table as well: every operation gives the table's result, whatever is borrowed
    besides; and if nothing ever was, at most [cache_max_len] inputs are in memory at a time. *)
Theorem cached_corpus_refines calm max w t borrows op : cached_reachable calm max w t → op_ok op → small (inner_world w) →
  (∀ id, op = OpLoad id → borrows !! id = None) → (calm = true → borrows = ∅) →
  (cached_step borrows op w).1 = (table_step op t).1 ∧
  (calm = true → ∀ l, NoDup l → (∀ x, x ∈ l → in_memory (inner_world (cached_step borrows op w).2) x) → length l ≤ max).
Proof.
  intros Hr Hop Hs Hb Hcalm. destruct (cached_reachable_rel _ _ _ _ Hr) as (C & Hm & Hf).
  destruct (cached_step_simulates borrows op w t C Hop Hs Hb) as (w' & -> & C' & Hm' & Hf'). split; [done|].
  intros Hc l Hnd Hl. rewrite <- Hm, <- Hm'. etrans; [|by apply Hf'; auto]. apply submseteq_length, NoDup_submseteq; [done|].
  intros x Hx. by apply (crel_known _ _ C'), Hl.
Qed.

(** A testcase that is asked for is handed out with its input, unless the cache wrongly takes it to be in memory. *)
Theorem get_loads calm max w t id b i : cached_reachable calm max w t → t_items t !! id = Some (b, i) →
  in_memory (inner_world w) id ∨ id ∉ cached_indexes (cached w) →
  ∃ w', cached_get_from_all ∅ id w = (Ok (), w') ∧ in_memory (inner_world w') id.
Proof.
  intros Hr Hi Hid. destruct (cached_reachable_rel _ _ _ _ Hr) as (C & _ & _). pose proof (rel_view _ _ _ _ _ id (crel_disk _ _ C)) as Hd. rewrite Hi in Hd.
  destruct (view (inner (corpus (inner_world w))) id) as [[b' tc]|] eqn:Hv; [subst b'|done].
  unfold cached_get_from_all. rewrite bind_gets. unfold get_from_all. rewrite get_from_all_view, Hv. destruct Hid as [Hm|Hid].
  - exists w. split; [|done]. destruct Hm as (b1 & tc1 & Hv1 & Hin). rewrite Hv in Hv1. injection Hv1 as <- <-.
    unfold cache_testcase. rewrite bind_lift, decide_False by done. by destruct (tc_input tc).
  - destruct (cache_testcase_spec ∅ w t id b tc i C Hv Hi (lookup_empty _)) as (w1 & E1 & _ & _ & _ & _ & Hm & _). exists w1. split; [done|]. by apply Hm.
Qed.

(** An entry the cache takes to be in memory although its input is not. *)
Definition stuck (id : CorpusId) (w : CachedWorld) : Prop := ¬ in_memory (inner_world w) id ∧ cached_indexes (cached w) = [id].

Lemma get_stuck w t id i : CRel w t → cache_max_len (cached w) = 1 → t_items t !! id = Some (true, i) → stuck id w →
  ∃ w', cached_get ∅ id w = (Ok (), w') ∧ CRel w' t ∧ cache_max_len (cached w') = 1 ∧ stuck id w'.
Proof.
  intros C Hmax Hi [Hm Hc]. pose proof (rel_view _ _ _ _ _ id (crel_disk _ _ C)) as Hd. rewrite Hi in Hd.
  destruct (view (inner (corpus (inner_world w))) id) as [[b' tc]|] eqn:Hv; [subst b'|done].
  destruct (cache_testcase_spec ∅ w t id true tc i C Hv Hi (lookup_empty _)) as (w1 & E1 & C1 & _ & Hmax1 & _ & _ & Hst).
  exists w1. unfold cached_get. rewrite bind_gets. unfold get. rewrite get_view, Hv. split; [done|]. split; [done|]. split; [by rewrite Hmax1|].
  apply Hst; [done| |rewrite Hc; by left|done]. destruct (tc_input tc) eqn:Hin; [|done]. destruct Hm. exists true, tc. by rewrite Hin.
Qed.

End Cache.

(** ** An [OnDiskCorpus] with two entries *)

Module CacheDemo.
Import DiskDemo.
#[local] Existing Instance toy_faults.
#[local] Existing Instance toy_disk.

Definition cached_ops (l : list Op) (w : CachedWorld) : CachedWorld := foldl (λ w op, (cached_step ∅ op w).2) w l.
Definition table_ops (l : list Op) (t : Table) : Table := foldl (λ t op, (table_step op t).2) t l.
Definition toy_cached : CachedWorld := mkCachedWorld (mkCached toy_corpus [] 1) (mkFiles ∅ 0).
Definition toy_ops : list Op := [OpAdd (Testcase_new input_a); OpAdd (Testcase_new input_b); OpLoad 1].

Lemma toy_ff : fault_free (DE := toy_disk).
Proof. split; [done|]. intros. by eexists. Qed.
Lemma toy_cached_reachable : cached_reachable "corpus" toy_corpus true 1 (cached_ops toy_ops toy_cached) (table_ops toy_ops (mkTable 0 ∅)).
Proof.
  unfold cached_ops, table_ops, toy_ops. cbn [foldl].
  apply creach_step; [|done|by vm_compute|done|done]. apply creach_step; [|apply toy_fresh|by vm_compute|done|done].
  apply creach_step; [|apply toy_fresh|by vm_compute|done|done]. apply (creach_new "corpus" toy_corpus true 1); [done|]. intros f _. apply lookup_empty.
Qed.
Abbreviation loaded := (cached_ops toy_ops toy_cached).
Abbreviation entries := (table_ops toy_ops (mkTable 0 ∅)).

(** Loading the other entry evicts the first: with a cache of one, one input is in memory. *)
Lemma cached_corpus_refines_witness : (cached_step ∅ (OpLoad 0) loaded).1 = Ok (RInput input_a) ∧
  ∀ x y, in_memory (inner_world (cached_step ∅ (OpLoad 0) loaded).2) x → in_memory (inner_world (cached_step ∅ (OpLoad 0) loaded).2) y → x = y.
Proof.
  destruct (cached_corpus_refines "corpus" ltac:(done) toy_corpus eq_refl eq_refl toy_ff true 1 loaded entries ∅ (OpLoad 0) toy_cached_reachable I ltac:(by vm_compute) ltac:(done) ltac:(done)) as [E Hmem].
  split; [exact E|clear E]. specialize (Hmem eq_refl). revert Hmem. generalize (inner_world (cached_step ∅ (OpLoad 0) loaded).2) as v.
  intros v Hmem x y Hx Hy. destruct (decide (x = y)) as [|Hne]; [done|]. exfalso.
  assert (length [x; y] ≤ 1) as Hl; [|cbn in Hl; lia]. apply Hmem.
  - constructor; [by intros ?%list_elem_of_singleton|apply NoDup_singleton].
  - intros z Hz. apply elem_of_cons in Hz as [->|Hz]; [done|]. by apply list_elem_of_singleton in Hz as ->.
Defined.

Lemma get_loads_witness : ∃ w', cached_get_from_all ∅ 0 loaded = (Ok (), w') ∧ in_memory (inner_world w') 0.
Proof.
  apply (get_loads "corpus" ltac:(done) toy_corpus eq_refl eq_refl toy_ff true 1 loaded entries 0 true input_a toy_cached_reachable eq_refl).
  right. apply (bool_decide_unpack _). by vm_compute.
Defined.

End CacheDemo.
