(* ===== verification/DiskRename.v ===== *)
(** * DiskRename: giving a testcase of a corpus on disk another name

    [InMemoryOnDiskCorpus::rename_testcase] of [corpus/inmemory_ondisk.rs].  The theorem says what each way it can end
    leaves of the testcase and its files: a failure on the way takes the name from the testcase, and one between the two files leaves it with
    the path of a file that has moved ([rename_spec]); and in no case is the lock on the old name given back. *)

From Stdlib Require Import ZArith Lia Ascii.
From S2P Require Import Prelude Float64 Metadata Corpus Str NumParse Format Files DiskCorpus DiskFacts.

Section Rename.
Context `{Faults} `{DiskEnv}.

Definition rename_testcase (c : InMemoryOnDiskCorpus) (filename : string) : M Cell () :=
  tc <- gets cell_tc ;;
  match tc_filename tc with
  | None => throw (illegal_argument "Cannot rename testcase without name!" [])
  | Some old_filename =>
    let new_filename := filename in
    set_tc (λ tc, tc <| tc_filename := None |>) ;;;
    if bool_decide (old_filename = new_filename) then set_tc (λ tc, tc <| tc_filename := Some old_filename |>)
    else
      (if locking c then λ s,
         let new_lock_filename := dotted (to_chars new_filename) lock_ext in
         match zoom cell_fs (λ f s, s <| cell_fs := f |>) (create_new (in_dir (dir_path c) new_lock_filename)) s with
         | (Err err, s) =>
           (set_tc (λ tc, tc <| tc_filename := Some old_filename |>) ;;;
            throw (illegal_state "Unable to create lock file {} for new testcase: {}" [AStr (of_chars new_lock_filename); AStr (io_text err)])) s
         | (Ok _, s) => (Ok (), s)
         | (Panic, s) => (Panic, s)
         end
       else ret ()) ;;;
      let new_file_path := in_dir (dir_path c) (to_chars new_filename) in
      old_file_path <- lift (unwrap (tc_file_path tc)) ;;
      on_cell_fs (rename old_file_path new_file_path) ;;;
      new_metadata_path <- match tc_metadata_path tc with
                           | Some old_metadata_path =>
                             let new_metadata_path := in_dir (dir_path c) (dotted (to_chars new_filename) meta_ext) in
                             on_cell_fs (rename old_metadata_path new_metadata_path) ;;;
                             ret (Some new_metadata_path)
                           | None => ret None
                           end ;;
      set_tc (λ tc, tc <| tc_metadata_path := new_metadata_path |>) ;;;
      set_tc (λ tc, tc <| tc_filename := Some new_filename |>) ;;;
      set_tc (λ tc, tc <| tc_file_path := Some new_file_path |>)
  end.
End Rename.

Section Facts.
Context `{FL : Faults} `{DE : DiskEnv} (dir : string) (dir_ne : to_chars dir ≠ []).
Abbreviation path := (path dir).

(** A testcase with the name [f], whose input [b] and metadata [m] are in its files. *)
Record named (f : string) (b : bytes) (m : option bytes) (s : Cell) : Prop := {
  nm_name : tc_filename (cell_tc s) = Some f;
  nm_file : tc_file_path (cell_tc s) = Some (path KFile f);
  nm_meta : tc_metadata_path (cell_tc s) = (λ _, path KMeta f) <$> m;
  nm_input : fs_map (cell_fs s) !! path KFile f = Some b;
  nm_metadata : ∀ x, m = Some x → fs_map (cell_fs s) !! path KMeta f = Some x;
}.

(** Paths that differ in their kind or their name. *)
Ltac other_path := intros ?Ep; apply path_inj in Ep as [? ?]; done.
Ltac look := repeat first
  [rewrite lookup_insert_eq | rewrite lookup_insert_ne by other_path | rewrite lookup_delete_eq | rewrite lookup_delete_ne by other_path].

(** One operation on the files of a cell. *)
Lemma cell_rename s from to b : fs_map (cell_fs s) !! from = Some b →
  (∃ what, disk_fault (fs_ticks (cell_fs s)) = Some what ∧
     on_cell_fs (rename from to) s = (Err (io_error (IoFault what)), s <| cell_fs := mkFiles (fs_map (cell_fs s)) (S (fs_ticks (cell_fs s))) |>)) ∨
  on_cell_fs (rename from to) s = (Ok (), s <| cell_fs := mkFiles (<[to := b]> (delete from (fs_map (cell_fs s)))) (S (fs_ticks (cell_fs s))) |>).
Proof.
  intros Hb. unfold on_cell_fs, with_err, zoom, rename, io_op. destruct (disk_fault (fs_ticks (cell_fs s))) as [what|]; [left; by exists what|right].
  by rewrite Hb.
Qed.

(** C35. With locking on, a testcase gets the new name with all its files exactly when nobody holds the lock on that name and the disk works, and then the
    lock is taken; when it is held, or cannot be created, nothing has happened; when the disk fails later, the lock is taken but the
    name is gone from the testcase, which then points to its file, or, when the metadata was the second to move, to where the file has been.
    No outcome gives the lock on the old name back. *)
Theorem rename_spec c old new b m s : dir_path c = dir → locking c = true → plain old → plain new → old ≠ new → named old b m s →
  ∃ r s', rename_testcase c new s = (r, s') ∧ fs_map (cell_fs s') !! path KLock old = fs_map (cell_fs s) !! path KLock old ∧
    match r with
    | Ok _ => fs_map (cell_fs s) !! path KLock new = None ∧ fs_map (cell_fs s') !! path KLock new = Some [] ∧
        named new b m s' ∧ fs_map (cell_fs s') !! path KFile old = None
    | Err _ =>
      (is_Some (fs_map (cell_fs s) !! path KLock new) ∨ disk_fault (fs_ticks (cell_fs s)) ≠ None) ∧
        cell_tc s' = cell_tc s ∧ fs_map (cell_fs s') = fs_map (cell_fs s) ∨
      (disk_fault (S (fs_ticks (cell_fs s))) ≠ None ∨ disk_fault (S (S (fs_ticks (cell_fs s)))) ≠ None) ∧
        fs_map (cell_fs s) !! path KLock new = None ∧ fs_map (cell_fs s') !! path KLock new = Some [] ∧ tc_filename (cell_tc s') = None ∧ tc_file_path (cell_tc s') = Some (path KFile old) ∧
        (fs_map (cell_fs s') !! path KFile old = Some b ∨
         fs_map (cell_fs s') !! path KFile old = None ∧ fs_map (cell_fs s') !! path KFile new = Some b)
    | Panic => False
    end.
Proof.
  intros Hdir Hlock Ho Hn Hne [E1 E2 E3 Hb Hm]. destruct s as [tc [fs t]]. cbn [cell_tc cell_fs fs_map] in *.
  unfold rename_testcase. rewrite bind_gets. cbn [cell_tc]. rewrite E1, Hdir, bool_decide_false by done. unfold set_tc at 1. rewrite bind_modify, Hlock.
  change (in_dir dir (to_chars new)) with (path KFile new). change (in_dir dir (dotted (to_chars new) lock_ext)) with (path KLock new).
  change (in_dir dir (dotted (to_chars new) meta_ext)) with (path KMeta new).
  unfold bind at 1, zoom, create_new, io_op. cbn [cell_fs upd eta_Cell fs_ticks fs_map].
  destruct (disk_fault t) as [what|] eqn:Hf; [|destruct (fs !! path KLock new) as [l|] eqn:Hl].
  1,2: eexists _, _; split; [reflexivity|]; cbn; split; [done|]; left; split; [auto|]; split; [rewrite <- E1; by destruct tc|done].
  rewrite E2. cbn [unwrap]. rewrite bind_lift.
  set (s1 := (mkCell tc (mkFiles fs t)) <| cell_tc := _ |> <| cell_fs := _ |>). unfold bind at 1.
  assert (fs_map (cell_fs s1) !! path KFile old = Some b) as Hb1 by (cbn; by look).
  destruct (cell_rename s1 (path KFile old) (path KFile new) b Hb1) as [(what & Hw & ->)| ->].
  { eexists _, _. split; [reflexivity|]. cbn in Hw |- *. split; [by look|]. right. rewrite Hw. split; [by left|]. split_and!; [done|by look|done|done|left; by look]. }
  set (s2 := s1 <| cell_fs := _ |>). rewrite E3. destruct m as [x|]; cbn [fmap option_fmap option_map const].
  - specialize (Hm x eq_refl). assert (fs_map (cell_fs s2) !! path KMeta old = Some x) as Hx by (cbn; by look). unfold bind at 1. unfold bind at 1.
    destruct (cell_rename s2 (path KMeta old) (path KMeta new) x Hx) as [(what & Hw & ->)| ->].
    { eexists _, _. split; [reflexivity|]. cbn in Hw |- *. split; [by look|]. right. rewrite Hw. split; [by right|].
      split_and!; [done|by look|done|done|right; split; by look]. }
    eexists _, _. split; [reflexivity|]. cbn. split; [by look|]. split; [done|]. split; [by look|]. split; [|by look]. split; cbn; [done..|by look|]. intros y [= <-]. by look.
  - eexists _, _. split; [reflexivity|]. cbn. split; [by look|]. split; [done|]. split; [by look|]. split; [|by look]. split; cbn; [done..|by look|done].
Qed.
End Facts.

(** ** A testcase that is renamed *)

Module RenameDemo.
#[local] Instance toy_faults : Faults := { disk_fault _ := None; disk_partial _ := 0 }.
(** A disk that fails when the second file is moved. *)
#[local] Instance bad_faults : Faults := { disk_fault n := if n =? 2 then Some "input/output error" else None; disk_partial _ := 0 }.
Definition toy_corpus : InMemoryOnDiskCorpus := mkDiskCorpus InMemory.new "corpus" (Some JsonPretty) None true.
Definition toy_cell : Cell :=
  mkCell ((Testcase_new [Byte.x61]) <| tc_filename := Some "a" |> <| tc_file_path := Some "corpus/a" |> <| tc_metadata_path := Some "corpus/.a.metadata" |>)
    (mkFiles (<["corpus/a" := [Byte.x61]]> (<["corpus/.a.metadata" := []]> {["corpus/.a.lafl_lock" := []]})) 0).

Lemma toy_cell_named : named "corpus" "a" [Byte.x61] (Some []) toy_cell.
Proof. split; [done..|]. by intros x [= <-]. Qed.
Lemma toy_names_plain : plain "a" ∧ plain "b".
Proof. split; (split; [done|]; split; [done|]); apply (bool_decide_unpack _); by vm_compute. Qed.

(** The same with the lock on the new name held. *)
Definition held_cell : Cell := toy_cell <| cell_fs := mkFiles (<["corpus/.b.lafl_lock" := []]> (fs_map (cell_fs toy_cell))) 0 |>.
Lemma held_cell_named : named "corpus" "a" [Byte.x61] (Some []) held_cell.
Proof. split; [done..|]. by intros x [= <-]. Qed.

Lemma rename_spec_witness :
  named "corpus" "b" [Byte.x61] (Some []) (rename_testcase (H := toy_faults) toy_corpus "b" toy_cell).2 ∧
  tc_filename (cell_tc (rename_testcase (H := bad_faults) toy_corpus "b" toy_cell).2) = None ∧
  fs_map (cell_fs (rename_testcase (H := bad_faults) toy_corpus "b" toy_cell).2) !! "corpus/a" = None ∧
  cell_tc (rename_testcase (H := toy_faults) toy_corpus "b" held_cell).2 = cell_tc held_cell.
Proof.
  destruct (rename_spec (FL := toy_faults) "corpus" ltac:(done) toy_corpus "a" "b" [Byte.x61] (Some []) toy_cell eq_refl eq_refl
    (proj1 toy_names_plain) (proj2 toy_names_plain) ltac:(done) toy_cell_named) as (r & s' & E & _ & Hr).
  destruct (rename_spec (FL := bad_faults) "corpus" ltac:(done) toy_corpus "a" "b" [Byte.x61] (Some []) toy_cell eq_refl eq_refl
    (proj1 toy_names_plain) (proj2 toy_names_plain) ltac:(done) toy_cell_named) as (r2 & s2 & E2 & _ & Hr2).
  assert ((rename_testcase (H := toy_faults) toy_corpus "b" toy_cell).1 = Ok ()) as Hok by (vm_compute; reflexivity).
  rewrite E in Hok |- *. cbn [fst] in Hok. subst r. split; [apply Hr|]. split; [vm_compute; reflexivity|]. split; [vm_compute; reflexivity|].
  destruct (rename_spec (FL := toy_faults) "corpus" ltac:(done) toy_corpus "a" "b" [Byte.x61] (Some []) held_cell eq_refl eq_refl
    (proj1 toy_names_plain) (proj2 toy_names_plain) ltac:(done) held_cell_named) as (r3 & s3 & -> & _ & Hr3).
  destruct r3; [by destruct Hr3 as [Hn _]| |done]. by destruct Hr3 as [(_ & ? & _)|[[?|?] _]].
Defined.
End RenameDemo.
