(* ===== verification/Initial.v ===== *)
(** * Initial: loading the initial corpus

    [StdState::load_initial_inputs] and its relatives in [libafl/src/state/mod.rs]: the walk over the input directories,
    which survives a restart because the files that remain are part of the state, the evaluation of every file, and the
    division of the files among the cores.

    The theorems: the walk evaluates exactly the files below the directories, in order and each once, and what is left after an
    error is what a later call loads ([load_initial_exact]); which files the cores load between them, and which none of them
    does ([multicore_chunks]). *)

From Stdlib Require Import ZArith Lia Ascii.
From S2P Require Import Prelude Float64 FloatFacts Rands Corpus Metadata State Factor WeightRefresh MapObserver MapFeedback CreditFeedback Feedbacks TestcaseScore Weighted Minimizer Fuzzer Str NumParse Format Files.

(** What [fs::metadata] says of a path. *)
Inductive Attributes := AFile (len : Z) | ADir | ASymlink | AOther.

(** The directories: [fs::metadata], [Path::read_dir] with an answer for every entry, [canonicalize], and the reading of a
    file. *)
Class Dirs := {
  metadata : string → option Attributes;
  read_dir : string → outcome Error (list (outcome Error string));
  canonicalize : string → outcome Error string;
  read_input : string → outcome Error bytes;
}.
(** [fs::metadata] follows symbolic links. *)
Class DirsLaws (D : Dirs) := { metadata_follows : ∀ p, metadata p ≠ Some ASymlink }.

(** The components of a path: the root, the directory itself at the front, and the names; [Path::file_name] is the last one if it
    is a name, and [Path::starts_with] compares components. *)
Definition dot : chars := ["."%char].
Definition components (p : string) : list chars :=
  let parts := split slash (to_chars p) in
  (if bool_decide (head (to_chars p) = Some slash) then [[slash]] else if bool_decide (head parts = Some dot) then [dot] else []) ++
  filter (λ c, c ≠ [] ∧ c ≠ dot) parts.
Definition base_name (p : string) : option chars :=
  n ← last (components p); if bool_decide (n = [slash] ∨ n = dot ∨ n = dot ++ dot) then None else Some n.
Definition path_starts_with (p q : string) : bool := bool_decide (components q `prefix_of` components p).

(** The fields of the state that the walk uses. *)
Record LoadState := mkLoadState {
  remaining_initial_files : option (list string);
  dont_reenter : option (list string);
  multicore_inputs_processed : option bool;
}.
#[global] Instance eta_LoadState : Eta LoadState := λ r,
  mkLoadState (remaining_initial_files r) (dont_reenter r) (multicore_inputs_processed r).

(** [Vec::pop] *)
Definition pop {A} (l : list A) : option (A * list A) :=
  match reverse l with [] => None | x :: r => Some (x, reverse r) end.

(** [try_for_each(|entry| entry.map(|e| files.push(e.path())))]: the entries before the first that is an error. *)
Fixpoint push_entries (entries : list (outcome Error string)) (files : list string) : outcome Error () * list string :=
  match entries with
  | [] => (Ok (), files)
  | Ok p :: entries => push_entries entries (files ++ [p])
  | Err e :: _ => (Err e, files)
  | Panic :: _ => (Panic, files)
  end.

Section Walk.
Context `{Dirs}.
Abbreviation L A := (M LoadState A).

Definition hidden (p : string) : option bool :=
  (λ n, bool_decide (head n = Some "."%char)) <$> base_name p.

Definition set_remaining (f : list string → list string) : L () :=
  modify (λ s, s <| remaining_initial_files := f <$> remaining_initial_files s |>).

(** What a path that was taken from the list leads to: a file to load, or more to look at. *)
Definition visit (path : string) : L (option string) :=
  hid <- lift (unwrap (hidden path)) ;;
  if hid : bool then ret None
  else
    match metadata path with
    | None => ret None
    | Some (AFile len) => if (0 <? len)%Z then ret (Some path) else ret None
    | Some ADir =>
      entries <- lift (read_dir path) ;;
      files <- gets (λ s, default [] (remaining_initial_files s)) ;;
      let '(r, files) := push_entries entries files in
      set_remaining (λ _, files) ;;;
      lift r ;;;
      ret None
    | Some ASymlink =>
      path <- lift (canonicalize path) ;;
      modify (λ s, s <| dont_reenter := Some (default [] (dont_reenter s)) |>) ;;;
      reenter <- gets (λ s, existsb (path_starts_with path) (default [] (dont_reenter s))) ;;
      if reenter : bool then ret None
      else
        (if match metadata path with Some ADir => true | _ => false end
         then modify (λ s, s <| dont_reenter := (λ l, l ++ [path]) <$> dont_reenter s |>) else ret ()) ;;;
        set_remaining (λ l, l ++ [path]) ;;;
        ret None
    | Some AOther => ret None
    end.

Definition no_more : Error := IteratorEnd (fmt "No remaining files to load." []).

Fixpoint next_file (fuel : nat) : L string :=
  match fuel with
  | O => panic
  | S fuel =>
    files <- gets remaining_initial_files ;;
    match (l ← files; pop l) with
    | None => throw no_more
    | Some (path, rest) =>
      set_remaining (λ _, rest) ;;;
      found <- visit path ;;
      match found with Some path => ret path | None => next_file fuel end
    end
  end.

Definition reset_initial_files_state : L () :=
  modify (λ s, s <| remaining_initial_files := None |> <| dont_reenter := None |>).

Definition canonicalize_input_dirs (in_dirs : list string) : L () :=
  remaining <- gets remaining_initial_files ;;
  match remaining with
  | Some _ => ret ()
  | None =>
    files <- lift (mapM canonicalize in_dirs) ;;
    modify (λ s, s <| dont_reenter := Some files |> <| remaining_initial_files := Some files |>)
  end.

Fixpoint count_files (fuel : nat) (steps : nat) (count : usize) : L usize :=
  match steps with
  | O => panic
  | S steps => λ s,
    match next_file fuel s with
    | (Ok _, s) => count_files fuel steps (S count) s
    | (Err (IteratorEnd _), s) => (Ok count, s)
    | (Err e, s) => (Err e, s)
    | (Panic, s) => (Panic, s)
    end
  end.
Definition calculate_corpus_size (fuel : nat) : L usize := count_files fuel fuel 0.

(** The loop that collects the files of a core. *)
Fixpoint collect (fuel : nat) (steps : nat) (skip inputs_todo : usize) (collected : list string) : L (list string) :=
  match steps with
  | O => panic
  | S steps => λ s,
    match next_file fuel s with
    | (Ok path, s) =>
      match skip with
      | S skip => collect fuel steps skip inputs_todo collected s
      | O =>
        match inputs_todo with
        | O => (Ok collected, s)
        | S inputs_todo => collect fuel steps 0 inputs_todo (collected ++ [path]) s
        end
      end
    | (Err (IteratorEnd _), s) => (Ok collected, s)
    | (Err e, s) => (Err e, s)
    | (Panic, s) => (Panic, s)
    end
  end.

(** The part of [load_initial_inputs_multicore] that divides the files. *)
Definition divide_files (fuel : nat) (in_dirs : list string) (core_id : nat) (cores : list nat) : L () :=
  canonicalize_input_dirs in_dirs ;;;
  corpus_size <- calculate_corpus_size fuel ;;
  reset_initial_files_state ;;;
  canonicalize_input_dirs in_dirs ;;;
  (if corpus_size <? length cores then ret ()
   else
     core_index <- lift (unwrap (fst <$> list_find (eq core_id) cores)) ;;
     let chunk_size := corpus_size / length cores in
     collected_inputs <- collect fuel fuel (core_index * chunk_size) chunk_size [] ;;
     modify (λ s, s <| remaining_initial_files := Some collected_inputs |>)) ;;;
  modify (λ s, s <| multicore_inputs_processed := Some true |>).
End Walk.

(** ** Loading *)

(** The trait [Evaluator] with the manager, as loading uses them. *)
Class Evaluator (Z : Type) := {
  ev_evaluate : bytes → M Z ExecuteInputResult;
  ev_add : bytes → M Z ();
  ev_add_disabled : bytes → M Z ();
  ev_log : string → M Z ();
  ev_count : Z → usize;
}.
#[global] Instance fuzzer_evaluator `{Env} `{Target} `{Manager} `{TestcaseScore} {T F : Type} `{Scheduler T} `{Feedback F} : Evaluator (StdFuzzer T F) := {
  ev_evaluate input := r <- evaluate_input input ;; ret r.1;
  ev_add input := add_input input ;;; ret ();
  ev_add_disabled input := on_state (add_disabled_input input) ;;; ret ();
  ev_log message := on_state (fire (Log LogDebug message));
  ev_count z := InMemory.count (corpus (fst_state z));
}.

Record LoadConfig := mkLoadConfig { forced : bool; exit_on_solution : bool }.
Definition plain_config : LoadConfig := mkLoadConfig false false.

Record Loading (Z : Type) := mkLoading { ld : LoadState; evaluator : Z }.
Arguments mkLoading {Z} _ _.
Arguments ld {Z} _.
Arguments evaluator {Z} _.
#[global] Instance eta_Loading Z : Eta (Loading Z) := λ r, mkLoading (ld r) (evaluator r).

Section Load.
Context `{Dirs} {Z : Type} `{Evaluator Z}.
Abbreviation Ld A := (M (Loading Z) A).

Definition on_ld {A} (m : M LoadState A) : Ld A := zoom ld (λ s l, l <| ld := s |>) m.
Definition on_evaluator {A} (m : M Z A) : Ld A := zoom evaluator (λ z l, l <| evaluator := z |>) m.

Definition must_load_initial_inputs (l : Loading Z) : bool :=
  (ev_count (evaluator l) =? 0) ||
  match remaining_initial_files (ld l) with Some (_ :: _) => true | _ => false end.

Definition load_file (config : LoadConfig) (path : string) : M Z ExecuteInputResult :=
  match read_input path with
  | Ok input =>
    if forced config then ev_add input ;;; ret ResCorpus
    else
      res <- ev_evaluate input ;;
      (if decide (res = ResNone) then ev_add_disabled input else ret ()) ;;;
      ret res
  | Err _ => ret ResNone
  | Panic => panic
  end.

Definition loaded_message (n : usize) : string := of_chars (to_chars "Loaded " ++ show_Z (Z.of_nat n) ++ to_chars " initial testcases.").

Fixpoint load_files (fuel : nat) (steps : nat) (config : LoadConfig) : Ld () :=
  match steps with
  | O => panic
  | S steps => λ l,
    match on_ld (next_file fuel) l with
    | (Ok path, l) =>
      (res <- on_evaluator (load_file config path) ;;
       if exit_on_solution config && bool_decide (res = ResSolution)
       then throw (InvalidCorpus (fmt "Input {} resulted in a solution." [AStr path]))
       else load_files fuel steps config) l
    | (Err (IteratorEnd _), l) => (Ok (), l)
    | (Err e, l) => (Err e, l)
    | (Panic, l) => (Panic, l)
    end
  end.
Definition continue_loading_initial_inputs_custom (fuel : nat) (config : LoadConfig) : Ld () :=
  load_files fuel fuel config ;;;
  n <- gets (λ l, ev_count (evaluator l)) ;;
  on_evaluator (ev_log (loaded_message n)).

Definition load_initial_inputs_custom (fuel : nat) (config : LoadConfig) (in_dirs : list string) : Ld () :=
  on_ld (canonicalize_input_dirs in_dirs) ;;; continue_loading_initial_inputs_custom fuel config.
Definition load_initial_inputs (fuel : nat) : list string → Ld () := load_initial_inputs_custom fuel (mkLoadConfig false false).
Definition load_initial_inputs_forced (fuel : nat) : list string → Ld () := load_initial_inputs_custom fuel (mkLoadConfig true false).
Definition load_initial_inputs_disallow_solution (fuel : nat) : list string → Ld () := load_initial_inputs_custom fuel (mkLoadConfig false true).

(** Of a list of files instead of directories. *)
Definition load_initial_inputs_custom_by_filenames (fuel : nat) (config : LoadConfig) (file_list : list string) : Ld () :=
  remaining <- gets (λ l, remaining_initial_files (ld l)) ;;
  match remaining with
  | Some [] => ret ()
  | Some _ => continue_loading_initial_inputs_custom fuel config
  | None =>
    on_ld (modify (λ s, s <| remaining_initial_files := Some file_list |>)) ;;;
    continue_loading_initial_inputs_custom fuel config
  end.

Definition load_initial_inputs_by_filenames (fuel : nat) : list string → Ld () := load_initial_inputs_custom_by_filenames fuel (mkLoadConfig false false).
Definition load_initial_inputs_by_filenames_forced (fuel : nat) : list string → Ld () := load_initial_inputs_custom_by_filenames fuel (mkLoadConfig true false).

Definition load_initial_inputs_multicore (fuel : nat) (in_dirs : list string) (core_id : nat) (cores : list nat) : Ld () :=
  processed <- gets (λ l, default false (multicore_inputs_processed (ld l))) ;;
  (if processed : bool then ret () else on_ld (divide_files fuel in_dirs core_id cores)) ;;;
  continue_loading_initial_inputs_custom fuel plain_config.

Fixpoint walk_files (fuel steps : nat) (closure : string → M Z ()) : Ld () :=
  match steps with
  | O => panic
  | S steps => λ l,
    match on_ld (next_file fuel) l with
    | (Ok path, l) => (on_evaluator (closure path) ;;; walk_files fuel steps closure) l
    | (Err (IteratorEnd _), l) => (Ok (), l)
    | (Err e, l) => (Err e, l)
    | (Panic, l) => (Panic, l)
    end
  end.
Definition walk_initial_inputs (fuel : nat) (in_dirs : list string) (closure : string → M Z ()) : Ld () :=
  on_ld (canonicalize_input_dirs in_dirs) ;;;
  walk_files fuel fuel closure ;;;
  on_ld reset_initial_files_state.
End Load.

(** ** The files below a directory *)

Section Facts.
Context `{D : Dirs}.

(** [tree p fs n]: the files to load at or below [p], in the order of the walk, which looks at [n] paths for them; hidden
    and empty files and what cannot be looked up are passed over. *)
Inductive tree : string → list string → nat → Prop :=
| tree_hidden p : hidden p = Some true → tree p [] 1
| tree_gone p : hidden p = Some false → metadata p = None → tree p [] 1
| tree_other p : hidden p = Some false → metadata p = Some AOther → tree p [] 1
| tree_empty p len : hidden p = Some false → metadata p = Some (AFile len) → (len ≤ 0)%Z → tree p [] 1
| tree_file p len : hidden p = Some false → metadata p = Some (AFile len) → (0 < len)%Z → tree p [p] 1
| tree_dir p entries fs n : hidden p = Some false → metadata p = Some ADir → read_dir p = Ok (Ok <$> entries) → forest entries fs n → tree p fs (S n)
with forest : list string → list string → nat → Prop :=
| forest_nil : forest [] [] 0
| forest_snoc l p fs fs' n n' : forest l fs n → tree p fs' n' → forest (l ++ [p]) (fs' ++ fs) (n' + n).

Lemma forest_app l l' fs fs' n n' : forest l fs n → forest l' fs' n' → forest (l ++ l') (fs' ++ fs) (n' + n).
Proof.
  intros Hl Hl'. induction Hl' as [|l' p fs' fs'' n' n'' _ IH Hp]; [by rewrite app_nil_r|].
  rewrite app_assoc, <- (app_assoc fs''), <- Nat.add_assoc. by constructor.
Qed.
Lemma forest_files l : Forall (λ p, tree p [p] 1) l → forest l (reverse l) (length l).
Proof.
  intros HF. induction l as [|p l IH] using rev_ind; [constructor|]. apply Forall_app in HF as [HF Hp]. rewrite Forall_singleton in Hp.
  rewrite reverse_snoc, length_app, Nat.add_comm. apply (forest_snoc l p (reverse l) [p] (length l) 1); [by apply IH|exact Hp].
Qed.
(** Every file of the walk is one, also by itself. *)
Lemma forest_each l fs n : forest l fs n → Forall (λ p, tree p [p] 1) fs.
Proof.
  revert l fs n. fix IH 4. intros l fs n Hf. destruct Hf as [|l p fs fs' n n' Hl Hp]; [constructor|]. apply Forall_app_2; [|by eapply IH].
  destruct Hp as [p Hh|p Hh Hm|p Hh Hm|p len Hh Hm Hlen|p len Hh Hm Hlen|p es fs1 n1 Hh Hm Hr Hfs]; try constructor; [|constructor|by eapply IH].
  by apply (tree_file p len).
Qed.

Lemma pop_snoc {A} (l : list A) x : pop (l ++ [x]) = Some (x, l).
Proof. unfold pop. by rewrite reverse_snoc, reverse_involutive. Qed.
Lemma push_all es files : push_entries (Ok <$> es) files = (Ok (), files ++ es).
Proof. revert files. induction es as [|e es IH]; intros files; cbn; [by rewrite app_nil_r|]. by rewrite IH, <- app_assoc. Qed.

(** The state with another list of remaining files. *)
Definition with_files (l : list string) (s : LoadState) : LoadState := s <| remaining_initial_files := Some l |>.
Lemma with_files_same l s : remaining_initial_files s = Some l → with_files l s = s.
Proof. intros E. unfold with_files. destruct s; cbn in *. by subst. Qed.
Lemma with_files_twice l l' s : with_files l (with_files l' s) = with_files l s.
Proof. done. Qed.

Lemma next_file_step fuel l p s : next_file (S fuel) (with_files (l ++ [p]) s) =
  (found <- visit p ;; match found with Some path => ret path | None => next_file fuel end) (with_files l s).
Proof.
  cbn [next_file]. rewrite bind_gets. cbn [remaining_initial_files with_files upd eta_LoadState]. cbn [mbind option_bind]. by rewrite pop_snoc.
Qed.

Lemma next_file_spec fuel l fs n s : forest l fs n → n < fuel →
  match fs with
  | [] => next_file fuel (with_files l s) = (Err no_more, with_files [] s)
  | p :: rest => ∃ l' n', next_file fuel (with_files l s) = (Ok p, with_files l' s) ∧ forest l' rest n' ∧ n' < n
  end.
Proof.
  revert l fs n. induction fuel as [|fuel IH]; intros l fs n Hf Hn; [lia|].
  inversion Hf as [|l0 p fs0 fs' n0 n' Hl Hp]; subst; [done|]. rewrite next_file_step.
  assert (fs' = [] → n' = 1 → visit p (with_files l0 s) = (Ok None, with_files l0 s) →
    match fs' ++ fs0 with
    | [] => (found <- visit p ;; match found with Some path => ret path | None => next_file fuel end) (with_files l0 s) = (Err no_more, with_files [] s)
    | q :: rest => ∃ l' n1, (found <- visit p ;; match found with Some path => ret path | None => next_file fuel end) (with_files l0 s) = (Ok q, with_files l' s) ∧ forest l' rest n1 ∧ n1 < n' + n0
    end) as Hskip.
  { intros -> -> Ev. unfold bind. rewrite Ev. cbn [app]. pose proof (IH l0 fs0 n0 Hl ltac:(lia)) as Hrest. destruct fs0; [done|].
    destruct Hrest as (l' & n1 & ? & ? & ?). exists l', n1. split_and!; [done..|lia]. }
  destruct Hp as [p Hh|p Hh Hm|p Hh Hm|p len Hh Hm Hlen|p len Hh Hm Hlen|p es fs1 n1 Hh Hm Hr Hfs].
  - apply Hskip; [done..|]. unfold visit. rewrite Hh. cbn [unwrap]. by rewrite bind_lift.
  - apply Hskip; [done..|]. unfold visit. rewrite Hh. cbn [unwrap]. by rewrite bind_lift, Hm.
  - apply Hskip; [done..|]. unfold visit. rewrite Hh. cbn [unwrap]. by rewrite bind_lift, Hm.
  - apply Hskip; [done..|]. unfold visit. rewrite Hh. cbn [unwrap]. rewrite bind_lift, Hm. assert ((0 <? len)%Z = false) as -> by by apply Z.ltb_ge. done.
  - exists l0, n0. unfold bind, visit. rewrite Hh. cbn. rewrite Hm. assert ((0 <? len)%Z = true) as -> by by apply Z.ltb_lt. split_and!; [done..|lia].
  - assert (visit p (with_files l0 s) = (Ok None, with_files (l0 ++ es) s)) as Ev.
    { unfold visit. rewrite Hh. cbn [unwrap]. rewrite bind_lift, Hm, Hr, bind_lift, bind_gets. cbn [remaining_initial_files with_files upd eta_LoadState default]. by rewrite push_all. }
    unfold bind. rewrite Ev. pose proof (IH (l0 ++ es) (fs1 ++ fs0) (n1 + n0) (forest_app _ _ _ _ _ _ Hl Hfs) ltac:(lia)) as Hrest.
    destruct (fs1 ++ fs0); [done|]. destruct Hrest as (l' & n2 & ? & ? & ?). exists l', n2. split_and!; [done..|lia].
Qed.

(** ** Dividing the files among the cores *)

Lemma forest_length l fs n : forest l fs n → length fs ≤ n.
Proof.
  revert l fs n. fix IH 4. intros l fs n Hf. destruct Hf as [|l p fs fs' n n' Hl Hp]; [done|]. rewrite length_app. pose proof (IH _ _ _ Hl) as H1.
  assert (length fs' ≤ n') as H2; [|lia]. destruct Hp as [| | | | |p es fs1 n1 _ _ _ Hfs]; cbn; try lia. pose proof (IH _ _ _ Hfs). lia.
Qed.

Lemma count_files_spec fuel steps l fs n s c : forest l fs n → n < fuel → n < steps →
  count_files fuel steps c (with_files l s) = (Ok (c + length fs), with_files [] s).
Proof.
  intros Hf Hn. revert l fs n c Hf Hn. induction steps as [|steps IH]; intros l fs n c Hf Hn Hs; [lia|]. cbn [count_files].
  pose proof (next_file_spec fuel l fs n s Hf Hn) as Hnext. destruct fs as [|p fs]; [by rewrite Hnext, Nat.add_0_r|].
  destruct Hnext as (l1 & n1 & -> & Hf1 & Hn1). rewrite (IH l1 fs n1) by (done || lia). cbn. do 2 f_equal. lia.
Qed.

Lemma collect_spec fuel steps l fs n s skip todo acc : forest l fs n → n < fuel → n < steps →
  ∃ l', collect fuel steps skip todo acc (with_files l s) = (Ok (acc ++ take todo (drop skip fs)), with_files l' s).
Proof.
  intros Hf Hn. revert l fs n skip todo acc Hf Hn. induction steps as [|steps IH]; intros l fs n skip todo acc Hf Hn Hs; [lia|]. cbn [collect].
  pose proof (next_file_spec fuel l fs n s Hf Hn) as Hnext. destruct fs as [|p fs].
  - rewrite Hnext. exists []. by rewrite drop_nil, take_nil, app_nil_r.
  - destruct Hnext as (l1 & n1 & -> & Hf1 & Hn1). destruct skip as [|skip]; [destruct todo as [|todo]|].
    + exists l1. by rewrite app_nil_r.
    + destruct (IH l1 fs n1 0 todo (acc ++ [p]) Hf1) as (l' & E); [lia..|]. exists l'. rewrite E, <- app_assoc. done.
    + destruct (IH l1 fs n1 skip todo acc Hf1) as (l' & E); [lia..|]. by exists l'.
Qed.

Lemma take_chunk {A} (l : list A) n m : take n l ++ take m (drop n l) = take (n + m) l.
Proof. rewrite <- (take_drop n l) at 3. destruct (Nat.le_gt_cases n (length l)).
  - rewrite take_app, length_take_le, take_take, Nat.min_r by lia. do 2 f_equal. lia.
  - rewrite drop_ge, take_nil, !app_nil_r, (take_ge l n), take_ge by (rewrite ?take_ge by lia; lia). done.
Qed.
Lemma concat_chunks {A} (l : list A) chunk k : k * chunk ≤ length l →
  concat ((λ i, take chunk (drop (i * chunk) l)) <$> seq 0 k) = take (k * chunk) l.
Proof.
  induction k as [|k IH]; intros Hk; [done|]. rewrite seq_S, fmap_app, concat_app, IH by lia. cbn [fmap list_fmap concat]. rewrite app_nil_r.
  cbn [Nat.add]. rewrite take_chunk. f_equal. lia.
Qed.
(** The guard against entering a directory twice is never used: [fs::metadata] does not answer with a link. *)
Lemma reenter_unused `{!DirsLaws D} fuel : keeps (λ s s' : LoadState, dont_reenter s' = dont_reenter s) (next_file fuel).
Proof.
  assert (PreOrder (λ s s' : LoadState, dont_reenter s' = dont_reenter s)) as HP by (split; [by intros s|intros a b c E1 E2; congruence]).
  induction fuel as [|fuel IH]; cbn [next_file]; [by apply keeps_panic|]. apply keeps_bind; [done|by apply keeps_gets|intros files].
  destruct (l ← files; pop l) as [[p rest]|]; [|by apply keeps_throw]. apply keeps_bind; [done|by apply keeps_modify|intros _].
  apply keeps_bind; [done| |intros [q|]; [by apply keeps_ret|done]]. unfold visit. apply keeps_bind; [done|by apply keeps_lift|intros []]; [by apply keeps_ret|].
  destruct (metadata p) as [[len| | |]|] eqn:Em; [destruct (0 <? len)%Z; by apply keeps_ret| |by destruct (metadata_follows p)|by apply keeps_ret..].
  apply keeps_bind; [done|by apply keeps_lift|intros entries]. apply keeps_bind; [done|by apply keeps_gets|intros l]. destruct (push_entries entries l) as [r l'].
  apply keeps_bind; [done|by apply keeps_modify|intros _]. apply keeps_bind; [done|by apply keeps_lift|intros _; by apply keeps_ret].
Qed.

(** ** Loading is evaluating those files *)

Context {Z : Type} `{EV : Evaluator Z}.

(** The files of a list one after the other, up to the first error; with what is left then. *)
Fixpoint load_list (config : LoadConfig) (files : list string) (z : Z) : outcome Error () * list string * Z :=
  match files with
  | [] => (Ok (), [], z)
  | path :: files =>
    match load_file config path z with
    | (Ok res, z) =>
      if exit_on_solution config && bool_decide (res = ResSolution)
      then (Err (InvalidCorpus (fmt "Input {} resulted in a solution." [AStr path])), files, z)
      else load_list config files z
    | (Err e, z) => (Err e, files, z)
    | (Panic, z) => (Panic, files, z)
    end
  end.
(** With the message at the end. *)
Definition load_and_log (config : LoadConfig) (files : list string) (z : Z) : outcome Error () * list string * Z :=
  match load_list config files z with
  | (Ok _, rest, z) => let '(r, z) := ev_log (loaded_message (ev_count z)) z in (r, rest, z)
  | other => other
  end.

Lemma load_files_spec fuel steps config l fs n s z : forest l fs n → n < fuel → n < steps →
  ∃ l' n', load_files fuel steps config (mkLoading (with_files l s) z) =
      ((load_list config fs z).1.1, mkLoading (with_files l' s) (load_list config fs z).2) ∧
    forest l' (load_list config fs z).1.2 n' ∧ n' ≤ n.
Proof.
  intros Hf Hn. revert l fs n z Hf Hn. induction steps as [|steps IH]; intros l fs n z Hf Hn Hs; [lia|]. cbn [load_files].
  pose proof (next_file_spec fuel l fs n s Hf Hn) as Hnext. unfold on_ld, zoom. cbn [ld]. destruct fs as [|p fs].
  - rewrite Hnext. exists [], 0. split; [done|]. split; [constructor|lia].
  - destruct Hnext as (l1 & n1 & -> & Hf1 & Hn1). unfold bind, on_evaluator, zoom. cbn [evaluator upd eta_Loading load_list].
    destruct (load_file config p z) as [[res|e|] z1]; [|exists l1, n1; split_and!; [done..|lia]|exists l1, n1; split_and!; [done..|lia]].
    destruct (exit_on_solution config && bool_decide (res = ResSolution)); [exists l1, n1; split_and!; [done..|lia]|].
    destruct (IH l1 fs n1 z1 Hf1 ltac:(lia) ltac:(lia)) as (l' & n' & E & Hf' & Hn'). exists l', n'. split; [exact E|]. split; [done|lia].
Qed.

(** The files that are still to load: those that remain from an earlier call, or all below the directories. *)
Definition pending (s : LoadState) (in_dirs : list string) (fs : list string) (n : nat) : Prop :=
  match remaining_initial_files s with
  | Some l => forest l fs n
  | None => ∃ l, mapM canonicalize in_dirs = Ok l ∧ forest l fs n
  end.

(** C18. Loading evaluates exactly the files that are to load, in order and each once; and what an error leaves is what the next call, also one of
    a new process that has only the state, loads: no file is evaluated twice or left out. *)
Theorem load_initial_exact fuel config in_dirs fs n s z : pending s in_dirs fs n → n < fuel →
  let '(r, rest, z') := load_and_log config fs z in
  ∃ s' n', load_initial_inputs_custom fuel config in_dirs (mkLoading s z) = (r, mkLoading s' z') ∧ n' ≤ n ∧ ∀ in_dirs', pending s' in_dirs' rest n'.
Proof.
  intros Hp Hn.
  assert (∃ l s0, on_ld (canonicalize_input_dirs in_dirs) (mkLoading s z) = (Ok (), mkLoading (with_files l s0) z) ∧ forest l fs n) as (l & s0 & Ec & Hf).
  { unfold pending in Hp. unfold on_ld, zoom, canonicalize_input_dirs. rewrite bind_gets. cbn [ld]. destruct (remaining_initial_files s) as [l|] eqn:Er.
    - exists l, s. split; [|done]. unfold ret. by rewrite (with_files_same l s Er).
    - destruct Hp as (l & El & Hf). rewrite El, bind_lift. by exists l, (s <| dont_reenter := Some l |>). }
  destruct (load_files_spec fuel fuel config l fs n s0 z Hf Hn Hn) as (l' & n' & E & Hf' & Hn'). unfold load_and_log.
  unfold load_initial_inputs_custom, continue_loading_initial_inputs_custom, bind. rewrite Ec, E.
  destruct (load_list config fs z) as [[[[]|e|] rest] z1]; cbn [fst snd] in *; [|eexists _, n'; split; [reflexivity|]; done..].
  unfold gets, on_evaluator, zoom. cbn [evaluator]. destruct (ev_log _ z1) as [r z2]. eexists _, n'. split; [reflexivity|]. done.
Qed.

(** C19. With at least as many files as cores, each core gets as many files as there are for every core, its own block of the walk, and loads exactly
    these; together they are the files from the first on, so that as many files as the division leaves over are loaded by no core.
    With fewer files than cores, every core loads all of them. *)
Theorem multicore_chunks fuel in_dirs dirs fs n cores s : mapM canonicalize in_dirs = Ok dirs → forest dirs fs n → n < fuel →
  remaining_initial_files s = None → NoDup cores → cores ≠ [] →
  let chunk := length fs / length cores in
  let block i := take chunk (drop (i * chunk) fs) in
  (∀ i core, cores !! i = Some core → ∃ s', divide_files fuel in_dirs core cores s = (Ok (), s') ∧ multicore_inputs_processed s' = Some true ∧
     ∀ in_dirs', if length fs <? length cores then pending s' in_dirs' fs n else pending s' in_dirs' (reverse (block i)) (length (block i))) ∧
  (length cores ≤ length fs →
     concat (block <$> seq 0 (length cores)) = take (length cores * chunk) fs ∧
     length (drop (length cores * chunk) fs) = length fs mod length cores).
Proof.
  intros Ed Hf Hn Hs Hnd Hne chunk block.
  assert (length cores ≠ 0) as Hc0 by by destruct cores. pose proof (Nat.Div0.div_mod (length fs) (length cores)) as Hdm. fold chunk in Hdm.
  split; [|intros Hlen; assert (length cores * chunk ≤ length fs) as Hle by lia; split; [by apply concat_chunks|rewrite length_drop; lia]].
  intros i core Hi. unfold divide_files.
  assert (∀ s0, remaining_initial_files s0 = None → canonicalize_input_dirs in_dirs s0 = (Ok (), with_files dirs (s0 <| dont_reenter := Some dirs |>))) as Hcan.
  { intros s0 Hs0. unfold canonicalize_input_dirs. by rewrite bind_gets, Hs0, Ed, bind_lift. }
  unfold bind at 1. rewrite (Hcan s Hs). unfold bind at 1, calculate_corpus_size. rewrite (count_files_spec fuel fuel dirs fs n) by done.
  unfold reset_initial_files_state. rewrite bind_modify. unfold bind at 1. rewrite Hcan by done. set (s1 := _ <| dont_reenter := _ |>).
  cbn [Nat.add]. destruct (length fs <? length cores).
  { eexists. split; [reflexivity|]. split; [done|]. by intros in_dirs'. }
  assert (list_find (eq core) cores = Some (i, core)) as Hfind.
  { apply list_find_Some. split; [done|]. split; [done|]. intros j y Hj Hlt ->. assert (j = i) by by eapply NoDup_lookup. lia. }
  destruct (collect_spec fuel fuel dirs fs n s1 (i * chunk) chunk [] Hf Hn Hn) as (l' & E).
  rewrite Hfind. cbn [fmap option_fmap option_map fst unwrap]. unfold bind, lift. fold chunk. rewrite E. cbn [app].
  eexists. split; [reflexivity|]. split; [done|]. intros in_dirs'. unfold pending. cbn [remaining_initial_files modify upd eta_LoadState]. apply forest_files.
  apply Forall_take, Forall_drop. by eapply forest_each.
Qed.
End Facts.

(** ** A small directory *)

Module InitialDemo.
(** [/in] holds the file [a], the directory [sub] with [b] and [c], and a hidden file; [b] crashes. *)
#[local] Instance toy_dirs : Dirs := {
  metadata p := if bool_decide (p ∈ ["/in"; "/in/sub"]) then Some ADir else if bool_decide (p ∈ ["/in/a"; "/in/sub/b"; "/in/sub/c"; "/in/.x"]) then Some (AFile 3) else None;
  read_dir p := if bool_decide (p = "/in") then Ok [Ok "/in/a"; Ok "/in/sub"; Ok "/in/.x"] else if bool_decide (p = "/in/sub") then Ok [Ok "/in/sub/b"; Ok "/in/sub/c"] else Ok [];
  canonicalize p := Ok p;
  read_input p := Ok (String.list_byte_of_string p);
}.
(** An evaluator that keeps the inputs, and fails on that of [b] the first time. *)
#[local] Instance toy_evaluator : Evaluator (list bytes) := {
  ev_evaluate i := λ z, if bool_decide (i = String.list_byte_of_string "/in/sub/b" ∧ length z < 5) then (Err ShuttingDown, z ++ [i]) else (Ok ResCorpus, z ++ [i]);
  ev_add i := λ z, (Ok (), z ++ [i]);
  ev_add_disabled i := λ z, (Ok (), z);
  ev_log _ := λ z, (Ok (), z);
  ev_count z := length z;
}.
Lemma toy_file p : hidden p = Some false → metadata p = Some (AFile 3) → tree p [p] 1.
Proof. intros Hh Hm. by apply (tree_file p 3). Qed.
Lemma toy_forest : forest ["/in"] ["/in/sub/c"; "/in/sub/b"; "/in/a"] 6.
Proof.
  apply (forest_snoc [] "/in" [] ["/in/sub/c"; "/in/sub/b"; "/in/a"] 0 6); [constructor|]. apply (tree_dir "/in" ["/in/a"; "/in/sub"; "/in/.x"] _ 5); [by vm_compute..|].
  apply (forest_snoc ["/in/a"; "/in/sub"] "/in/.x" ["/in/sub/c"; "/in/sub/b"; "/in/a"] [] 4 1); [|apply tree_hidden; by vm_compute].
  apply (forest_snoc ["/in/a"] "/in/sub" ["/in/a"] ["/in/sub/c"; "/in/sub/b"] 1 3).
  - apply (forest_snoc [] "/in/a" [] ["/in/a"] 0 1); [constructor|]. apply toy_file; by vm_compute.
  - apply (tree_dir "/in/sub" ["/in/sub/b"; "/in/sub/c"] _ 2); [by vm_compute..|].
    apply (forest_snoc ["/in/sub/b"] "/in/sub/c" ["/in/sub/b"] ["/in/sub/c"] 1 1); [|apply toy_file; by vm_compute].
    apply (forest_snoc [] "/in/sub/b" [] ["/in/sub/b"] 0 1); [constructor|]. apply toy_file; by vm_compute.
Qed.
Definition toy_state : LoadState := mkLoadState None None None.

Lemma toy_pending : pending toy_state ["/in"] ["/in/sub/c"; "/in/sub/b"; "/in/a"] 6.
Proof. exists ["/in"]. split; [done|apply toy_forest]. Qed.

(** The second file fails; the next call goes on with the third. *)
Lemma load_initial_exact_witness : ∃ s', load_initial_inputs_custom 9 plain_config ["/in"] (mkLoading toy_state []) =
    (Err ShuttingDown, mkLoading s' (String.list_byte_of_string <$> ["/in/sub/c"; "/in/sub/b"])) ∧
  ∃ s'', load_initial_inputs_custom 9 plain_config ["/in"] (mkLoading s' []) = (Ok (), mkLoading s'' (String.list_byte_of_string <$> ["/in/a"])).
Proof.
  destruct (load_initial_exact 9 plain_config ["/in"] _ 6 toy_state ([] : list bytes) toy_pending ltac:(lia)) as (s' & n' & E & Hn & Hp).
  exists s'. split; [exact E|].
  destruct (load_initial_exact 9 plain_config ["/in"] _ n' s' ([] : list bytes) (Hp ["/in"]) ltac:(lia)) as (s'' & n'' & E' & _). exists s''. exact E'.
Defined.

(** Three files on two cores: one each, and the last is left out; on four cores, all three on each. *)
Lemma multicore_chunks_witness : (∃ s', divide_files 9 ["/in"] 7 [4; 7] toy_state = (Ok (), s')) ∧
  concat ((λ i, take (3 / 2) (drop (i * (3 / 2)) ["/in/sub/c"; "/in/sub/b"; "/in/a"])) <$> seq 0 2) = ["/in/sub/c"; "/in/sub/b"] ∧
  ∃ s', divide_files 9 ["/in"] 2 [0; 1; 2; 3] toy_state = (Ok (), s') ∧ pending s' [] ["/in/sub/c"; "/in/sub/b"; "/in/a"] 6.
Proof.
  destruct (multicore_chunks (D := toy_dirs) 9 ["/in"] ["/in"] _ 6 [4; 7] toy_state eq_refl toy_forest ltac:(lia) eq_refl) as [Hdiv Hcat].
  { apply (bool_decide_unpack _). by vm_compute. } { done. }
  destruct (multicore_chunks (D := toy_dirs) 9 ["/in"] ["/in"] _ 6 [0; 1; 2; 3] toy_state eq_refl toy_forest ltac:(lia) eq_refl) as [Hall _].
  { apply (bool_decide_unpack _). by vm_compute. } { done. }
  split; [destruct (Hdiv 1 7 eq_refl) as (s' & E & _); by exists s'|]. split; [apply Hcat; cbn; lia|].
  destruct (Hall 2 2 eq_refl) as (s' & E & _ & Hp). exists s'. split; [exact E|]. apply (Hp []).
Defined.
End InitialDemo.
