(* ===== verification/Generators.v ===== *)
(** * Generators: initial inputs that are made up

    [generators/mod.rs], and [generate_initial_inputs] of [state/mod.rs]: a fuzzer without input files starts with inputs
    from a generator, an iterator or a source of random bytes, each of which is evaluated.

    The theorem: a generator that is good for as many inputs is asked for exactly these, none of them fails, and the number the
    log reports is the number of inputs that were stored ([generate_initial_counts]). *)

From Stdlib Require Import ZArith Lia Ascii.
From S2P Require Import Prelude Float64 FloatFacts Rands Corpus Metadata State Factor WeightRefresh MapObserver MapFeedback CreditFeedback Feedbacks TestcaseScore Weighted Minimizer Fuzzer Mutations MOpt Mutational Str NumParse Format Files.
Import InMemoryFacts.

(** ** The trait [Generator] *)

Record GenState (G : Type) := mkGenState { gs_gen : G; gs_state : State }.
Arguments mkGenState {G} _ _.
Arguments gs_gen {G} _.
Arguments gs_state {G} _.
#[global] Instance eta_GenState G : Eta (GenState G) := λ r, mkGenState (gs_gen r) (gs_state r).

Class Generator (G : Type) := { generate : M (GenState G) bytes }.

Definition on_gs_state {G A} (m : M State A) : M (GenState G) A := zoom gs_state (λ s g, g <| gs_state := s |>) m.

(** An iterator. *)
Definition iterator_generate : M (GenState (list bytes)) bytes :=
  items <- gets gs_gen ;;
  match items with
  | input :: rest => modify (λ g, g <| gs_gen := rest |>) ;;; ret input
  | [] => throw (Empty (fmt "No more items in iterator when generating inputs" []))
  end.
#[global] Instance iterator_generator : Generator (list bytes) := { generate := iterator_generate }.

(** [(0..size).map(f).collect()] *)
Fixpoint collect_bytes (size : nat) (f : M State Byte.byte) : M State bytes :=
  match size with
  | O => ret []
  | S size => b <- f ;; bs <- collect_bytes size f ;; ret (b :: bs)
  end.

Record RandBytesGenerator := mkRandBytes { rb_min_size : usize; rb_max_size : usize }.
Definition RandBytesGenerator_new (max_size : usize) : RandBytesGenerator := mkRandBytes 1 max_size.
Definition RandBytesGenerator_generate : M (GenState RandBytesGenerator) bytes :=
  self <- gets gs_gen ;;
  on_gs_state
    (size <- rand_between (rb_min_size self) (rb_max_size self) ;;
     let size := Nat.max size 1 in
     collect_bytes size (n <- rand_below 256 ;; ret (to_u8 (Z.of_nat n)))).
#[global] Instance rand_bytes_generator : Generator RandBytesGenerator := { generate := RandBytesGenerator_generate }.

(** The printable characters, with the tab, the line feed and the quotation mark. *)
Definition printables : bytes :=
  String.list_byte_of_string "0123456789ABCDEFGHIJKLMNOPQRSTUVWXYZabcdefghijklmnopqrstuvwxyz " ++ [Byte.x09; Byte.x0a] ++
  String.list_byte_of_string "!" ++ [Byte.x22] ++ String.list_byte_of_string "#$%&'()*+,-./:;<=>?@[\]^_`{|}~".

Record RandPrintablesGenerator := mkRandPrintables { rp_min_size : usize; rp_max_size : usize }.
Definition RandPrintablesGenerator_new (max_size : usize) : RandPrintablesGenerator := mkRandPrintables 1 max_size.
Definition RandPrintablesGenerator_generate : M (GenState RandPrintablesGenerator) bytes :=
  self <- gets gs_gen ;;
  on_gs_state
    (size <- rand_between (rp_min_size self) (rp_max_size self) ;;
     let size := Nat.max size 1 in
     collect_bytes size (rand_choose printables)).
#[global] Instance rand_printables_generator : Generator RandPrintablesGenerator := { generate := RandPrintablesGenerator_generate }.

(** ** Evaluating what is generated *)

Section Generate.
Context `{Env} `{Target} `{Manager} `{TestcaseScore} {T F : Type} `{Scheduler T} `{Feedback F} {G : Type} `{Generator G}.

Record Generating := mkGenerating { gen_fuzzer : StdFuzzer T F; generator : G }.
#[global] Instance eta_Generating : Eta Generating := λ r, mkGenerating (gen_fuzzer r) (generator r).
Abbreviation Gen A := (M Generating A).

Definition on_fuzzer {A} (m : M (StdFuzzer T F) A) : Gen A := zoom gen_fuzzer (λ z w, w <| gen_fuzzer := z |>) m.
(** [generator.generate(self)] *)
Definition next_input : Gen bytes := λ w,
  let '(r, g) := generate (mkGenState (generator w) (fst_state (gen_fuzzer w))) in
  (r, mkGenerating ((gen_fuzzer w) <| fst_state := gs_state g |>) (gs_gen g)).

Fixpoint generate_loop (num : nat) (forced : bool) (added : usize) : Gen usize :=
  match num with
  | O => ret added
  | S num =>
    input <- next_input ;;
    if forced then on_fuzzer (add_input input) ;;; generate_loop num forced (S added)
    else
      res <- on_fuzzer (evaluate_input input) ;;
      generate_loop num forced (if decide (res.1 = ResNone) then added else S added)
  end.

Definition generated_message (added num : usize) : string :=
  of_chars (to_chars "Loaded " ++ show_Z (Z.of_nat added) ++ to_chars " over " ++ show_Z (Z.of_nat num) ++ to_chars " initial testcases").

Definition generate_initial_internal (num : usize) (forced : bool) : Gen () :=
  added <- generate_loop num forced 0 ;;
  on_fuzzer (on_state (fire (Log LogDebug (generated_message added num)))).
Definition generate_initial_inputs_forced (num : usize) : Gen () := generate_initial_internal num true.
Definition generate_initial_inputs (num : usize) : Gen () := generate_initial_internal num false.
End Generate.
Arguments Generating : clear implicits.
Arguments mkGenerating {T F G} _ _.
Arguments gen_fuzzer {T F G} _.
Arguments generator {T F G} _.

(** ** What a generator promises

    [gen_ready n g]: the generator is good for [n] more inputs, all with [good]; only the random numbers move. *)

Class GeneratorLaws {G} (GG : Generator G) (gen_ready : nat → G → Prop) (good : bytes → Prop) := {
  law_generate : ∀ n g s, gen_ready (S n) g → rand_inv (rand s) →
    ∃ input g' s', generate (mkGenState g s) = (Ok input, mkGenState g' s') ∧ drawn s s' ∧ gen_ready n g' ∧ good input
}.

Lemma draws_collect s0 f (Q : Byte.byte → Prop) size : draws s0 f Q →
  draws s0 (collect_bytes size f) (λ l, length l = size ∧ Forall Q l).
Proof.
  intros Hf. induction size as [|size IH]; cbn [collect_bytes]; [by apply draws_ret|].
  eapply draws_bind; [exact Hf|]. intros b Hb. eapply draws_bind; [exact IH|]. intros bs [Hl Hbs]. apply draws_ret. cbn. by rewrite Hl; auto.
Qed.

(** A random size within the limits, then as many random bytes. *)
Lemma draws_sized s0 lo hi f (Q : Byte.byte → Prop) : 0 < lo ≤ hi → (Z.of_nat hi < u64_max)%Z → draws s0 f Q →
  draws s0 (size <- rand_between lo hi ;; collect_bytes (Nat.max size 1) f) (λ l, lo ≤ length l ≤ hi ∧ Forall Q l).
Proof.
  intros [Hlo Hle] Hu Hf. eapply draws_bind; [by apply draws_between|]. intros size [Hs1 Hs2].
  eapply draws_weaken; [by apply draws_collect|]. intros l [-> HF]. split; [lia|done].
Qed.
(** From draws on the state to the step of a generator that keeps nothing else. *)
Lemma draws_generate {G} (g : G) m (Q : bytes → Prop) s : draws s m Q → rand_inv (rand s) →
  ∃ input s', on_gs_state m (mkGenState g s) = (Ok input, mkGenState g s') ∧ drawn s s' ∧ Q input.
Proof.
  intros Hm Hr. destruct (Hm s (drawn_refl s Hr)) as (a & s' & E & Hd & Hq). exists a, s'. unfold on_gs_state, zoom. cbn [gs_state]. by rewrite E.
Qed.

Definition sized (lo hi : nat) : Prop := 0 < lo ≤ hi ∧ (Z.of_nat hi < u64_max)%Z.

#[global] Instance rand_bytes_laws lo hi :
  GeneratorLaws rand_bytes_generator (λ _ g, g = mkRandBytes lo hi ∧ sized lo hi) (λ l, lo ≤ length l ≤ hi).
Proof.
  split. intros n g s [-> [Hs Hu]] Hr.
  destruct (draws_generate (mkRandBytes lo hi) _ (λ l, lo ≤ length l ≤ hi ∧ Forall (λ _, True) l) s
    (draws_sized s lo hi (n <- rand_below 256 ;; ret (to_u8 (Z.of_nat n))) (λ _, True) Hs Hu
       (draws_bind s _ _ _ _ (draws_below s 256 ltac:(lia) ltac:(done)) (λ a _, draws_ret s _ _ I))) Hr) as (input & s' & E & Hd & Hl & _).
  exists input, (mkRandBytes lo hi), s'. split_and!; [exact E|done|done|done..|apply Hl|apply Hl].
Qed.

#[global] Instance rand_printables_laws lo hi :
  GeneratorLaws rand_printables_generator (λ _ g, g = mkRandPrintables lo hi ∧ sized lo hi) (λ l, lo ≤ length l ≤ hi ∧ Forall (λ b, b ∈ printables) l).
Proof.
  split. intros n g s [-> [Hs Hu]] Hr.
  destruct (draws_generate (mkRandPrintables lo hi) _ _ s
    (draws_sized s lo hi (rand_choose printables) _ Hs Hu (draws_choose s printables ltac:(done) ltac:(done))) Hr) as (input & s' & E & Hd & Hl).
  by exists input, (mkRandPrintables lo hi), s'.
Qed.

#[global] Instance iterator_laws Q : GeneratorLaws iterator_generator (λ n l, n ≤ length l ∧ Forall Q l) Q.
Proof.
  split. intros n [|x l] s [Hn HF] Hr; [cbn in Hn; lia|]. apply Forall_cons in HF as [Hx HF].
  exists x, l, s. split; [done|]. split; [by apply drawn_refl|]. split; [|done]. split; [cbn in Hn; lia|done].
Qed.

(** ** The theorem *)

Section Facts.
Context `{Env, !EnvLaws _} `{Target, !TargetLaws _} `{Manager}.
Context `{TS : TestcaseScore} {scorable : Testcase → Prop} {cost : Testcase → f64} `{!CostLaws TS scorable cost}.
Context {T F : Type} `{B : Scheduler T} {binv : Sched T → Prop}.
Context `{!BaseLaws (scorable := scorable) (cost := cost) B binv}.
Context `{FB : Feedback F} {P : FeedbackSpec F} `{!FeedbackLaws FB P}.
Context (scorable_input : ∀ tc, is_Some (tc_input tc) → scorable tc).
Context (accepts : ∀ e, fire_result e = Ok ()) (serializes : ∀ o, ∃ b, serialize_observers o = Ok b).
Context {G : Type} {GG : Generator G} {gen_ready : nat → G → Prop} {good : bytes → Prop} `{!GeneratorLaws GG gen_ready good}.
Abbreviation fuzz_inv := (fuzz_inv (scorable := scorable) (binv := binv) (P := P)).
Abbreviation Fuzzer := (StdFuzzer T F).

Definition stored (z : Fuzzer) : nat := length (InMemory.ids (corpus (fst_state z))) + length (InMemory.ids (solutions (fst_state z))).

(** On the way from [z] to [z'] the inputs of [tried] were evaluated and [n] of them stored, with the corpus or the solutions: what was there
    still is, every entry of the corpus is an old one or one of [tried], and no coverage is lost. *)
Definition stores (n : nat) (tried : list bytes) (z z' : Fuzzer) : Prop :=
  InMemory.ids (corpus (fst_state z)) `prefix_of` InMemory.ids (corpus (fst_state z')) ∧
  InMemory.ids (solutions (fst_state z)) `prefix_of` InMemory.ids (solutions (fst_state z')) ∧
  stored z' = stored z + n ∧
  (∀ id tc, tc_at (corpus (fst_state z')) id = Some tc →
     (∃ t, tc_at (corpus (fst_state z)) id = Some t ∧ tc_input tc = tc_input t) ∨ ∃ i, tc_input tc = Some i ∧ i ∈ tried) ∧
  (∀ k, fs_cover P (fst_state z) k → fs_cover P (fst_state z') k).

Lemma stores_refl z : stores 0 [] z z.
Proof. split_and!; [done..|lia|eauto|done]. Qed.
Lemma stores_trans n m a b z1 z2 z3 : stores n a z1 z2 → stores m b z2 z3 → stores (n + m) (a ++ b) z1 z3.
Proof.
  intros (P1 & S1 & N1 & I1 & K1) (P2 & S2 & N2 & I2 & K2). split_and!; [by etrans..|lia| |auto]. intros id tc Htc.
  destruct (I2 id tc Htc) as [(t & Ht & Et)|(i & Ei & Hi)]; [|right; exists i; rewrite elem_of_app; auto].
  destruct (I1 id t Ht) as [(t' & Ht' & Et')|(i & Ei & Hi)]; [left; exists t'; split; [done|congruence]|].
  right. exists i. rewrite elem_of_app. split; [congruence|auto].
Qed.

(** How many of one input are stored. *)
Definition kept (res : ExecuteInputResult) : nat := if decide (res = ResNone) then 0 else 1.

Lemma evaluated_stores input kind z z' res oid : judged (P := P) input kind z z' res oid → grew input (fst_state z) (fst_state z') →
  stores (kept res) [input] z z'.
Proof.
  intros Hj [_ [_ Hk]]. assert (∀ id tc, tc_at (corpus (fst_state z')) id = Some tc →
    (∃ t, tc_at (corpus (fst_state z)) id = Some t ∧ tc_input tc = tc_input t) ∨ ∃ i, tc_input tc = Some i ∧ i ∈ [input]) as Hin.
  { intros id tc Htc. destruct (Hk id tc Htc) as [?|Hi]; [by left|right]. exists input. by rewrite list_elem_of_singleton. }
  unfold stores. revert Hj. unfold judged, stored, kept. cbv zeta. destruct res; [rewrite decide_True by done|rewrite decide_False by done..].
  - intros (_ & _ & _ & -> & -> & Hc). split_and!; [done..|lia|done|]. intros k. by rewrite Hc.
  - intros (_ & _ & _ & -> & Hc & id & tc & _ & -> & _). rewrite length_app. split_and!; [by eexists|done|cbn; lia|done|]. intros k ?. rewrite Hc. by left.
  - intros (_ & _ & -> & Hc & id & tc & -> & _). rewrite length_app. split_and!; [done|by eexists|cbn; lia|done|]. intros k. by rewrite Hc.
Qed.

Lemma next_input_ok n z g : fuzz_inv z → gen_ready (S n) g →
  ∃ input z' g', next_input (mkGenerating z g) = (Ok input, mkGenerating z' g') ∧ fuzz_inv z' ∧ stores 0 [] z z' ∧ gen_ready n g' ∧ good input ∧
    InMemory.count (corpus (fst_state z')) = InMemory.count (corpus (fst_state z)).
Proof.
  intros Hz Hg. assert (rand_inv (rand (fst_state z))) as Hr by apply (base_rand_inv _ (proj1 (proj1 Hz))).
  destruct (law_generate n g (fst_state z) Hg Hr) as (input & g' & s' & E & Hd & Hg' & Hgood).
  destruct (moved_drawn _ _ _ (moved_refl _ Hr) Hd) as [Hmv _]. pose proof (moved_fuzz_inv z s' Hz Hmv) as Hz'.
  exists input, (z <| fst_state := s' |>), g'. unfold next_input. cbn [generator gen_fuzzer]. rewrite E. cbn [gs_state gs_gen].
  destruct (law_part (feedback z) (fst_state z) s' (proj1 (proj2 Hz))) as (_ & Hc & _); [destruct Hd as [-> _]; done|].
  split_and!; [done|done| |done|done|by destruct Hd as [-> _]].
  unfold stores, stored. cbn [fst_state upd eta_StdFuzzer]. assert (corpus s' = corpus (fst_state z) ∧ solutions s' = solutions (fst_state z)) as [-> ->] by by destruct Hd as [-> _].
  split_and!; [done..|lia|eauto|]. intros k. by rewrite Hc.
Qed.

Lemma generate_loop_ok num : ∀ added z g, fuzz_inv z → gen_ready num g →
  (Z.of_nat (InMemory.count (corpus (fst_state z)) + num) < u64_max)%Z →
  ∃ n tried z' g', generate_loop num false added (mkGenerating z g) = (Ok (added + n), mkGenerating z' g') ∧
    fuzz_inv z' ∧ stores n tried z z' ∧ length tried = num ∧ Forall good tried.
Proof.
  induction num as [|num IH]; intros added z g Hz Hg Hcnt.
  { exists 0, [], z, g. cbn [generate_loop]. rewrite Nat.add_0_r. split_and!; [done|done|apply stores_refl|done|done]. }
  destruct (next_input_ok num z g Hz Hg) as (input & z1 & g1 & E1 & Hz1 & St1 & Hg1 & Hgood & Ec).
  destruct (evaluate_ok scorable_input accepts serializes input true z1 Hz1) as (kind & e & c & d & res & oid & z2 & _ & Hrun & Hz2 & _ & _ & Hj & Hg2); [lia|].
  pose proof (evaluated_stores _ _ _ _ _ _ Hj Hg2) as St2. assert (kept res ≤ 1) as Hkept by (unfold kept; case_decide; lia).
  destruct (IH (added + kept res) z2 g1 Hz2 Hg1) as (n & tried & z' & g' & E & Hz' & St & Hn & HF).
  { assert (length (InMemory.ids (corpus (fst_state z2))) ≤ S (length (InMemory.ids (corpus (fst_state z1))))) as Hle.
    { destruct St2 as (_ & HS & HN & _). apply prefix_length in HS. unfold stored in HN. lia. }
    destruct Hz1 as ([_ (C1 & _)] & _), Hz2 as ([_ (C2 & _)] & _). cbn in C1, C2. rewrite <- Ec in Hcnt. rewrite !count_ids in * by done. lia. }
  exists (kept res + n), (input :: tried), z', g'. split_and!; [|done| |cbn; lia|by constructor].
  - cbn [generate_loop]. unfold bind at 1. rewrite E1. unfold bind, on_fuzzer, zoom. cbn [gen_fuzzer upd eta_Generating].
    unfold evaluate_input, evaluate_input_events. rewrite Hrun. cbn [fst]. rewrite Nat.add_assoc, <- E.
    unfold kept. case_decide; rewrite ?Nat.add_0_r, ?Nat.add_1_r; done.
  - apply (stores_trans 0 (kept res + n) [] (input :: tried) z z1 z'); [done|]. by apply (stores_trans _ _ [input] tried z1 z2 z').
Qed.

(** Generating the initial inputs never fails as long as the generator has them: as many as asked for are evaluated, all of them good
    inputs; the fuzzer is in order afterwards, what was stored still is, every entry of the corpus is an old one or one of these inputs, and
    the log reports exactly the number of inputs that were stored. *)
Theorem generate_initial_counts num z g : fuzz_inv z → gen_ready num g →
  (Z.of_nat (InMemory.count (corpus (fst_state z)) + num) < u64_max)%Z →
  ∃ n tried z' g', generate_initial_inputs num (mkGenerating z g) = (Ok (), mkGenerating z' g') ∧ fuzz_inv z' ∧ stores n tried z z' ∧
    length tried = num ∧ Forall good tried ∧
    last (events (fst_state z')) = Some (Log LogDebug (generated_message n num)).
Proof.
  intros Hz Hg Hcnt. destruct (generate_loop_ok num 0 z g Hz Hg Hcnt) as (n & tried & z1 & g1 & E & Hz1 & St & Hn & HF).
  unfold generate_initial_inputs, generate_initial_internal, bind. rewrite E. unfold on_fuzzer, zoom, on_state, fire. cbn [gen_fuzzer]. rewrite accepts.
  eexists n, tried, _, g1. split; [reflexivity|]. pose proof (proj2 (proj2 (proj2 Hz1))) as [Hs Ho].
  split; [by apply (fuzz_inv_frame z1 _ (observers z1) Hz1)|]. destruct St as (P1 & S1 & N1 & I1 & K1).
  destruct (law_part (feedback z1) (fst_state z1) ((fst_state z1) <| events := events (fst_state z1) ++ [Log LogDebug (generated_message (0 + n) num)] |>) (proj1 (proj2 Hz1)))
    as (_ & Hc & _); [done|].
  split; [split_and!; [exact P1|exact S1|exact N1|exact I1|]|split_and!; [done..|]].
  - intros k Hk. apply Hc. by apply K1.
  - cbn [fst_state events upd eta_StdFuzzer]. by rewrite last_snoc.
Qed.
End Facts.

(** ** Three inputs: one is new, one reaches nothing new, one crashes *)

#[local] Existing Instance toy_env.

Definition demo_inputs : list bytes := [[Byte.x01]; [Byte.x05]; [Byte.xff]].
Abbreviation demo_generate := (generate_initial_inputs (H := toy_env) (H0 := demo_target) (H1 := demo_manager) (H2 := LenTimeMulTestcaseScore)
  (H3 := demo_base) (H4 := EagerOrFeedback) (H5 := iterator_generator)).

Lemma generate_initial_counts_witness : ∃ z' g', demo_generate 3 (mkGenerating demo_fuzzer demo_inputs) = (Ok (), mkGenerating z' g') ∧
  last (events (fst_state z')) = Some (Log LogDebug "Loaded 2 over 3 initial testcases") ∧
  length (InMemory.ids (corpus (fst_state z'))) + length (InMemory.ids (solutions (fst_state z'))) = 2.
Proof.
  destruct (generate_initial_counts (TS := LenTimeMulTestcaseScore) (cost := len_time_cost) (BaseLaws0 := demo_base_laws)
    (FeedbackLaws0 := bofuzz_laws demo_accepts) (H0 := demo_target) (H1 := demo_manager) (GeneratorLaws0 := iterator_laws (λ _, True))
    demo_scorable demo_accepts demo_serializes 3 demo_fuzzer demo_inputs demo_fuzz_inv) as (n & tried & z' & g' & Hrun & _ & (_ & _ & Hn & _) & _ & _ & Hlog).
  - split; [cbn; lia|by repeat constructor].
  - vm_compute. reflexivity.
  - exists z', g'. split; [exact Hrun|]. unfold stored in Hn.
    assert (stored (gen_fuzzer (demo_generate 3 (mkGenerating demo_fuzzer demo_inputs)).2) = 2) as H2 by (vm_compute; reflexivity).
    rewrite Hrun in H2. cbn [snd gen_fuzzer] in H2. unfold stored in H2. split; [|exact H2].
    rewrite Hlog. assert (n = 2) as -> by (rewrite H2 in Hn; change (2 = 0 + n) in Hn; lia). vm_compute. reflexivity.
Defined.

