(* ===== verification/System.v ===== *)
(** * System: the feature scheduler as a whole

    The parts of [feature_sched] that share the fuzzer state, as one transition system: the TPE stage (its decision to run, and its
    run), the worker thread (which finishes or dies), the two feedbacks that run on an interesting testcase, and the accounting stage;
    between them the rest of the fuzzer (scheduler, calibration, mutation, corpus) changes the state in any way that leaves the feature
    scheduler's own metadata alone, and what its steps return is not part of the system.  The steps interleave in any order, which includes
    runs of the accounting stage that its [should_restart] never lets happen ([Stages]). *)

From Stdlib Require Import ZArith Lia.
From S2P Require Import Prelude Float64 FloatFacts Rands Corpus Metadata State FrontierSets MaskSelection FeaturesMap Factor WeightRefresh MapObserver CreditFeedback AccountingStage Tpe TpeFacts TpeSpec RuntimeData TpeStage TpeStageFacts TpeStageSafe.

Import InMemoryFacts CreditFacts.

(** ** The coverage part of the state, which the TPE stage only reads *)

Definition same_cov (s s' : State) : Prop :=
  m_explore s' = m_explore s ∧ m_runtime s' = m_runtime s ∧ m_frontier s' = m_frontier s ∧
  m_acfg s' = m_acfg s.
Definition wcov (w w' : World) : Prop := same_cov (st w) (st w').

#[global] Instance same_cov_preorder : PreOrder same_cov.
Proof.
  split; [by intros s|]. intros s1 s2 s3 H12 H23. unfold same_cov in *. naive_solver congruence.
Qed.
#[global] Instance wcov_preorder : PreOrder wcov.
Proof. split; [by intros w|]. intros w1 w2 w3. unfold wcov. apply transitivity. Qed.

Section Coverage.
Context `{Libm} `{Env} `{JsonOut}.

Lemma cov_io op : keeps same_cov (io op).
Proof. intros s. unfold io. by destruct (io_fail (ticks s)). Qed.
Lemma cov_change id f : keeps same_cov (change_testcase id f).
Proof. intros s. unfold change_testcase. by destruct (InMemory.update _ _ _). Qed.
Lemma cov_apply_v v it : keeps same_cov (apply_v_to_features v it).
Proof. intros s. rewrite apply_v_run. destruct (negb _); [done|]. by destruct (normalize_simplex_eps v). Qed.
Lemma cov_install schema mask : keeps same_cov (install_committed_runtime_mask schema mask).
Proof.
  intros s. unfold install_committed_runtime_mask. destruct (negb _); [done|].
  destruct (forallb negb mask); [done|]. unfold bind, modify. cbn. by destruct (m_matrix s).
Qed.

Ltac cov_step :=
  first [ apply keeps_ret; apply _ | apply keeps_throw; apply _ | apply keeps_gets; apply _
        | apply keeps_lift; apply _ | apply cov_io | apply cov_change | apply keeps_with_err
        | apply keeps_if | done | by intros ? | apply keeps_modify; by intros ?
        | apply keeps_bind; [apply _| |intros ?] ].

Lemma cov_run_ops ops : keeps same_cov (run_ops ops).
Proof. induction ops as [|op ops IH]; cbn [run_ops]; repeat cov_step. Qed.

Lemma cov_export force : keeps same_cov (maybe_export_runtime_data force).
Proof.
  unfold maybe_export_runtime_data, write_atomic. repeat (apply cov_run_ops || cov_step).
Qed.

Lemma cov_publish result : keeps same_cov (publish_weight_recompute_result result).
Proof.
  assert (∀ items stats, keeps same_cov (publish_weights result items stats)) as Hw.
  { induction items as [|i items IH]; intros stats; cbn [publish_weights]; repeat cov_step. }
  assert (∀ params items, keeps same_cov (publish_factors params items)) as Hf.
  { intros params. induction items as [|i items IH]; cbn [publish_factors]; repeat cov_step. }
  unfold publish_weight_recompute_result. repeat (apply Hw || apply Hf || cov_step).
Qed.

Lemma wcov_st {A} (m : M State A) : keeps same_cov m → keeps wcov (on_st m).
Proof.
  intros Hm w. unfold wcov, on_st. specialize (Hm (st w)). by destruct (m (st w)).
Qed.

Lemma wcov_ctx {A} (m : M Ctx A) : keeps ctx_step m → keeps wcov (on_ctx m).
Proof.
  intros Hm w. unfold wcov, on_ctx. specialize (Hm (to_ctx w)). destruct (m (to_ctx w)) as [r c].
  destruct Hm as [_ [E _]]. cbn in *. by rewrite E.
Qed.

Ltac wcov_step :=
  first [ apply keeps_ret; apply _ | apply keeps_throw; apply _ | apply keeps_gets; apply _
        | apply keeps_lift; apply _
        | apply wcov_ctx; first [apply keeps_next_untried | apply keeps_suggest_next
                                | apply keeps_enqueue_inverse | apply keeps_enqueue_exact]
        | apply wcov_st; first [apply cov_export | apply cov_publish | apply cov_apply_v
                               | apply cov_install | solve [repeat cov_step]]
        | apply keeps_modify; by intros ?
        | apply keeps_if
        | apply keeps_bind; [apply _| |intros ?] ].

Lemma wcov_commit : keeps wcov commit_mask_and_tpe_initialization_before_first_tpe.
Proof.
  unfold commit_mask_and_tpe_initialization_before_first_tpe.
  wcov_step; [wcov_step|]. apply keeps_if; [by intros w|].
  do 2 (wcov_step; [wcov_step|]). wcov_step; [|by intros w].
  destruct (vm_mode a); unfold commit_full, commit_explicit, commit_auto_credit; repeat (wcov_step || case_match).
Qed.

(** A run of the TPE stage leaves the credits, the frontier and the control flow alone. *)
Lemma wcov_perform : keeps wcov perform.
Proof.
  unfold perform, perform_explore, perform_pending, perform_active, perform_locked, poll_pending,
    activate, close_window, report, report_trials, explore_done.
  wcov_step; [wcov_step|]. wcov_step; [wcov_step|]. wcov_step; [wcov_step|].
  wcov_step; [apply keeps_modify; intros w; unfold recover_pending; by case_match|].
  wcov_step; [wcov_step|].
  unfold start_pending_recompute.
  case_match; repeat (apply wcov_commit || wcov_step || case_match).
Qed.
End Coverage.

(** ** What the stage relies on *)

(** A testcase takes its weights from a testcase that was there, or has none. *)
Definition weights_from (s s' : State) : Prop :=
  ∀ id tc', tc_at (corpus s') id = Some tc' →
    (tc_path_weight tc' = None ∧ tc_feature_weight tc' = None) ∨
    ∃ id0 tc, tc_at (corpus s) id0 = Some tc ∧
      tc_path_weight tc' = tc_path_weight tc ∧ tc_feature_weight tc' = tc_feature_weight tc.

(** The metadata the TPE stage owns stays, and no weight is made up. *)
Definition tame (s s' : State) : Prop :=
  quiet s s' ∧ m_history s' = m_history s ∧ m_feats s' = m_feats s ∧ m_matrix s' = m_matrix s ∧
  get_v_candidates s' = get_v_candidates s ∧ get_current_weight_vec s' = get_current_weight_vec s ∧
  get_factor_params s' = get_factor_params s ∧ weights_from s s'.

Lemma weights_from_refl s s' : corpus s' = corpus s → weights_from s s'.
Proof. intros E id tc Ht. rewrite E in Ht. right. by exists id, tc. Qed.

#[global] Instance tame_preorder : PreOrder tame.
Proof.
  split; [intros s; split_and!; try done; by apply weights_from_refl|].
  intros s1 s2 s3 (Q1 & H1 & F1 & M1 & V1 & C1 & P1 & W1) (Q2 & H2 & F2 & M2 & V2 & C2 & P2 & W2).
  split_and!; try congruence; [by etrans|]. intros id tc Ht.
  destruct (W2 id tc Ht) as [?|(id0 & tc0 & Ht0 & E1 & E2)]; [by left|]. rewrite E1, E2.
  by apply W1 in Ht0.
Qed.

Lemma tame_stage_inv w s' : tame (st w) s' → stage_inv w →
  (∀ m, m_explore s' = Some m → Forall fvalid (cr_credits m)) →
  stage_inv (w <| st := s' |>).
Proof.
  intros ((Ht & Hm & Hv & Hd & Hn & Hs & _) & Hh & Hf & Hx & Hp & Hc & Hfp & Hwf) [d [B HC]] He.
  exists d. destruct B as [[C1 C2 C3 C4 C5 C6] D [S1 S2 S3 S4 S5 S6 S7 S8 S9] R].
  assert (committed s' = committed (st w)) as Hcm.
  { unfold committed, vec_mask_runtime_meta. by rewrite Hm. }
  split.
  - split; [|done| |done].
    + split; cbn in *; [done|done|by rewrite Hd|by rewrite Hp|by rewrite Hm|done].
    + cbn [st upd eta_World]. split; unfold matrix_valid in *; rewrite ?Hh, ?Hc, ?Hs, ?Hn, ?Hf, ?Hx, ?Hfp; try done.
      intros id tc [[E1 E2]|(id0 & tc0 & [W1 W2]%S9 & E1 & E2)]%Hwf; (split; [by rewrite E1|by rewrite E2]).
  - cbn [st upd eta_World]. rewrite Hcm. destruct HC as [HC|(P & T & L & F & Hhist)]; [by left|right].
    split_and!; try done; cbn [st upd eta_World].
    + unfold get_phase, tpe_meta in *. by rewrite Ht.
    + by rewrite Hh.
Qed.

Lemma tame_worker_ok w s' : tame (st w) s' → worker_ok w → worker_ok (w <| st := s' |>).
Proof.
  intros ((Ht & _) & _). apply wabs_worker_ok. unfold wabs, get_phase, iteration_of, tpe_meta.
  cbn [st upd eta_World]. rewrite Ht. by split_and!.
Qed.

(** ** The other parts keep to it *)

Lemma change_tame id f : (∀ tc, tc_path_weight (f tc) = tc_path_weight tc ∧
                                tc_feature_weight (f tc) = tc_feature_weight tc) →
  keeps tame (change_testcase id f).
Proof.
  intros Hf s. unfold change_testcase. destruct (InMemory.update id f (corpus s)) as [c|e|] eqn:E;
    [|reflexivity..]. cbn [snd]. split_and!; try done. intros x tc' Ht. cbn [corpus upd eta_State] in Ht.
  destruct (tc_at (corpus s) id) as [tc|] eqn:Etc.
  2: { destruct (update_missing (corpus s) id f Etc) as [e He]. congruence. }
  destruct (update_ok (corpus s) id f tc Etc) as (c' & Hc' & _ & _ & _ & Hl).
  rewrite E in Hc'. injection Hc' as <-. rewrite Hl in Ht. right. case_decide.
  - simplify_eq. exists id, tc. split; [done|]. apply Hf.
  - by exists x, tc'.
Qed.

Section Parts.
Context `{Libm} `{Env} `{JsonOut}.

Lemma sancov_tame self obs tc :
  keeps tame (SancovIndexFeedback.append_metadata self obs tc) ∧
  keeps same_cov (SancovIndexFeedback.append_metadata self obs tc).
Proof.
  unfold SancovIndexFeedback.append_metadata, bind, lift, gets, modify, fire, ret.
  split; intros s; (destruct obs; [|reflexivity]); cbn; destruct (fire_result _);
    (split_and!; (done || by apply weights_from_refl)).
Qed.

Lemma read_tame id : keeps tame (read_testcase id) ∧ keeps same_cov (read_testcase id).
Proof. split; intros s; reflexivity. Qed.

Lemma accounting_tame obs :
  keeps tame (AccountingStage.perform obs) ∧ keeps same_cov (AccountingStage.perform obs).
Proof.
  split; unfold AccountingStage.perform, fill_indexes, fire;
    repeat first
      [ apply keeps_ret; apply _ | apply keeps_gets; apply _ | apply keeps_lift; apply _
      | apply read_tame | apply change_tame; by intros ? | apply cov_change
      | apply keeps_modify; intros s; split_and!; (done || by apply weights_from_refl)
      | intros s; split_and!; (done || by apply weights_from_refl)
      | apply keeps_if | apply keeps_bind; [apply _| |intros ?] | case_match ].
Qed.
End Parts.

Lemma credit_tame tc : keeps tame (FrontierCreditFeedback.append_metadata tc).
Proof.
  assert (∀ newly, keeps tame (update_frontier_meta newly)) as Hu.
  { intros newly s. destruct (update_frontier_keeps newly s) as [fm ->].
    split_and!; (done || by apply weights_from_refl). }
  unfold FrontierCreditFeedback.append_metadata.
  repeat first
    [ apply keeps_ret; apply _ | apply keeps_gets; apply _ | apply keeps_lift; apply _ | apply Hu
    | apply keeps_modify; intros ?; split_and!; (done || by apply weights_from_refl)
    | apply keeps_if | apply keeps_bind; [apply _| |intros ?] | case_match ].
Qed.

(** ** No part panics *)

Section NoPanic.
Context `{Libm} `{Env} `{JsonOut}.
Context (fire_returns : ∀ e, fire_result e ≠ Panic).

Lemma sancov_nopanic self obs tc s :
  (SancovIndexFeedback.append_metadata self obs tc s).1 ≠ Panic.
Proof.
  unfold SancovIndexFeedback.append_metadata, bind, lift, gets, modify, fire, ret.
  destruct obs; [|done]. cbn. pose proof (fire_returns) as Hf.
  match goal with |- context [fire_result ?e] => specialize (Hf e); by destruct (fire_result e) end.
Qed.

(** The bounds of the factor are in order. *)
Definition bounds_ok (s : State) : Prop :=
  fle (fp_gmin (get_factor_params s)) (fp_gmax (get_factor_params s)) = true.

Lemma compute_factor_total s tc : bounds_ok s → compute_factor (get_factor_params s) s tc ≠ Panic.
Proof.
  intros Hb. unfold compute_factor. repeat (case_match; try done).
  match goal with |- clamp ?x _ _ ≠ _ => by destruct (clamp_ok (E := Error) x _ _ Hb) as [r ->] end.
Qed.

Lemma change_bounds id f : triple bounds_ok (change_testcase id f) (λ _, bounds_ok) bounds_ok.
Proof.
  intros s Hb. unfold change_testcase, InMemory.update, ok_or. by destruct (InMemory.map _ !! id).
Qed.

Lemma read_bounds id : triple bounds_ok (read_testcase id) (λ _, bounds_ok) bounds_ok.
Proof. intros s Hb. unfold read_testcase, InMemory.get, ok_or. by destruct (InMemory.map_get id _). Qed.

Lemma accounting_triple obs :
  triple bounds_ok (AccountingStage.perform obs) (λ _, bounds_ok) bounds_ok.
Proof.
  unfold AccountingStage.perform. apply triple_bind with (λ _, bounds_ok); [by apply triple_gets|intros current].
  destruct current as [cid|]; [|by apply triple_ret].
  apply triple_bind with (λ _, bounds_ok).
  { unfold fill_indexes. eapply triple_bind; [apply read_bounds|intros entry].
    destruct (tc_sancov entry); [by apply triple_ret|].
    eapply triple_bind with (λ _, bounds_ok); [by intros s Hb; destruct obs|intros map].
    destruct (hit_indices map); [by apply triple_ret|apply change_bounds]. }
  intros ?. apply triple_bind with (λ _, bounds_ok); [by apply triple_gets|intros enabled].
  apply triple_if; [apply change_bounds|].
  apply triple_bind with (λ _, bounds_ok); [by apply triple_gets|intros feat0].
  eapply triple_bind with (λ _, bounds_ok); [by apply triple_modify|intros ?].
  eapply triple_bind with (λ p s, bounds_ok s ∧ p = get_factor_params s); [by apply triple_gets|intros p].
  eapply triple_bind with (λ _ s, bounds_ok s ∧ p = get_factor_params s).
  { intros s [Hb ->]. pose proof (read_bounds cid s Hb) as Hr.
    unfold read_testcase in *. by destruct (InMemory.get cid (corpus s)). }
  intros entry. eapply triple_bind with (λ s0 s, bounds_ok s ∧ p = get_factor_params s ∧ s0 = s).
  { apply triple_gets. naive_solver. }
  intros s0. eapply triple_bind with (λ _, bounds_ok).
  { intros s (Hb & -> & ->). unfold lift. pose proof (compute_factor_total s entry Hb).
    by destruct (compute_factor _ s entry). }
  intros factor. eapply triple_bind; [apply change_bounds|intros ?].
  apply triple_bind with (λ _, bounds_ok); [by apply triple_gets|intros mode].
  eapply triple_bind; [apply read_bounds|intros entry'].
  eapply triple_bind with (λ _, bounds_ok); [by apply triple_gets|intros s1].
  intros s Hb. unfold fire. pose proof (fire_returns) as Hf.
  match goal with |- context [fire_result ?e] => specialize (Hf e); by destruct (fire_result e) end.
Qed.

Lemma accounting_nopanic obs s : bounds_ok s → (AccountingStage.perform obs s).1 ≠ Panic.
Proof.
  intros Hb. pose proof (accounting_triple obs s Hb) as Ht.
  by destruct (AccountingStage.perform obs s) as [[]?].
Qed.
End NoPanic.

(** ** The transition system *)

Definition set_worker (k : Worker) (w : World) : World :=
  w <| stage := (stage w) <| result_rx := Some k |> |>.

Definition void {E A} (r : outcome E A) : outcome E () :=
  match r with Ok _ => Ok () | Err e => Err e | Panic => Panic end.

Section Steps.
Context `{Libm} `{Env} `{JsonOut}.

(** Who took a step: a part of the feature scheduler, with what it returned, or the rest of the fuzzer. *)
Inductive StepOf := Scheduler (r : outcome Error ()) | Rest.

Inductive sys_step (w : World) : StepOf → World → Prop :=
| sys_decides : sys_step w (Scheduler (void (TpeStage.should_restart w).1)) (TpeStage.should_restart w).2
| sys_stage : sys_step w (Scheduler (perform w).1) (perform w).2
| sys_worker_sends snapshot :
    result_rx (stage w) = Some (Running snapshot) →
    sys_step w (Scheduler (Ok ())) (set_worker (worker_step (Running snapshot)) w)
| sys_worker_dies snapshot :
    result_rx (stage w) = Some (Running snapshot) → sys_step w (Scheduler (Ok ())) (set_worker Died w)
| sys_sancov self obs tc r s' :
    SancovIndexFeedback.append_metadata self obs tc (st w) = (r, s') →
    sys_step w (Scheduler (void r)) (w <| st := s' |>)
| sys_credit tc r s' :
    FrontierCreditFeedback.append_metadata tc (st w) = (r, s') → sys_step w (Scheduler r) (w <| st := s' |>)
| sys_accounting obs r s' :
    AccountingStage.perform obs (st w) = (r, s') → sys_step w (Scheduler r) (w <| st := s' |>)
| sys_others s' : tame (st w) s' → same_cov (st w) s' → sys_step w Rest (w <| st := s' |>).

Definition reaches : World → World → Prop := rtc (λ w w', ∃ r, sys_step w r w').

Record sys_inv (w : World) : Prop := {
  sy_worker : worker_ok w;
  sy_stage : stage_inv w;
  sy_credit : credit_inv (st w);
  sy_frontier : frontier_coherent (st w);
}.

Lemma same_cov_inv s s' : same_cov s s' → credit_inv s ∧ frontier_coherent s →
  credit_inv s' ∧ frontier_coherent s'.
Proof.
  intros (E1 & E2 & E3 & E4). unfold credit_inv, frontier_coherent. by rewrite E1, E2, E3, E4.
Qed.

Lemma tame_sys_inv w s' : tame (st w) s' → credit_inv s' → frontier_coherent s' →
  sys_inv w → sys_inv (w <| st := s' |>).
Proof.
  intros Ht Hc Hf [I1 I2 I3 I4]. split; [by apply tame_worker_ok| |done|done].
  apply tame_stage_inv; [done|done|]. intros m Hm. destruct Hc as [Hc _].
  eapply Forall_impl; [by apply Hc|]. apply fnn_valid.
Qed.

Lemma cov_sys_inv w s' : tame (st w) s' → same_cov (st w) s' → sys_inv w → sys_inv (w <| st := s' |>).
Proof.
  intros Ht Hc Hi. destruct (same_cov_inv _ _ Hc) as [? ?]; [split; apply Hi|].
  by apply tame_sys_inv.
Qed.

Lemma worker_abs w snapshot k : result_rx (stage w) = Some (Running snapshot) →
  (∀ n, worker_iteration k = Some n → n = cw_iteration snapshot) →
  worker_ok w → worker_ok (set_worker k w).
Proof.
  intros Hrx Hn Hok. unfold worker_ok in *.
  change (pending_worker (stage (set_worker k w))) with (pending_worker (stage w)).
  destruct (pending_worker (stage w)); [|destruct Hok; congruence].
  destruct Hok as (P & I & k' & Hk & Hit). split_and!; [done|done|]. exists k. split; [done|].
  intros n Hk'. rewrite (Hn n Hk'). apply Hit. rewrite Hrx in Hk. by injection Hk as <-.
Qed.

Lemma worker_sys_inv w snapshot k : result_rx (stage w) = Some (Running snapshot) →
  worker_valid k → (∀ n, worker_iteration k = Some n → n = cw_iteration snapshot) →
  sys_inv w → sys_inv (set_worker k w).
Proof.
  intros Hrx Hv Hn [I1 I2 I3 I4]. split; [| |done|done].
  - by eapply worker_abs.
  - destruct I2 as [d [[C D S R] HC]]. exists d. split; [|by destruct HC; [left|right]].
    split; [by destruct C|done|done|]. by intros k' [= <-].
Qed.

Context `{!LibmLaws _}.
Context (fire_returns : ∀ e, fire_result e ≠ Panic).

Lemma stage_bounds w : stage_inv w → bounds_ok (st w).
Proof. intros [d [[_ _ S _] _]]. apply S. Qed.

Lemma sys_step_ok w r w' : sys_step w r w' → sys_inv w → r ≠ Scheduler Panic ∧ sys_inv w'.
Proof.
  intros Hstep Hi. pose proof Hi as [I1 I2 I3 I4].
  destruct Hstep as [| |snapshot Hrx|snapshot Hrx|self obs tc r s' Hr|tc r s' Hr|obs r s' Hr|s' Ht Hc].
  - split; [done|]. split; [exact I1|by apply restore_stage_inv|exact I3|exact I4].
  - pose proof (perform_triple fire_returns w I2) as Ht. pose proof (wcov_perform w) as Hc.
    pose proof (perform_worker w I1) as Hwo.
    destruct (perform w) as [r w'] eqn:E. cbn [fst snd] in *.
    destruct (same_cov_inv _ _ Hc) as [? ?]; [by split|].
    destruct r as [[]|e|]; [| |done]; (split; [done|by split]).
  - split; [done|]. eapply worker_sys_inv; [exact Hrx| | |done].
    + destruct I2 as [d [[_ _ _ R] _]]. apply R in Hrx. cbn in *.
      destruct (compute_weights_spec snapshot Hrx) as (_ & _ & _ & HF).
      eapply Forall_impl; [exact HF|]. intros x [Hx _]. by apply fnn_valid.
    + by intros n [= <-].
  - split; [done|]. by eapply worker_sys_inv.
  - pose proof (sancov_nopanic fire_returns self obs tc (st w)) as Hn.
    destruct (sancov_tame self obs tc) as [Ht Hc]. specialize (Ht (st w)). specialize (Hc (st w)).
    rewrite Hr in Hn, Ht, Hc. split; [destruct r; by intros [=]|]. by apply cov_sys_inv.
  - pose proof (credit_tame tc (st w)) as Ht. rewrite Hr in Ht.
    destruct (credit_append_ok _ _ _ _ Hr) as (Hf & Hc & _ & Hn & _); [|done|done|].
    { by destruct I2 as [d [[_ _ S _] _]]; apply S. }
    split; [by intros [= ->]|]. by apply tame_sys_inv.
  - pose proof (accounting_nopanic fire_returns obs (st w) (stage_bounds w I2)) as Hn.
    destruct (accounting_tame obs) as [Ht Hc]. specialize (Ht (st w)). specialize (Hc (st w)).
    rewrite Hr in Hn, Ht, Hc. split; [by intros [= ->]|]. by apply cov_sys_inv.
  - split; [done|]. by apply cov_sys_inv.
Qed.

(** C2. The feature scheduler as a whole is safe: from a state with usable numbers, whatever the order
    in which the stage, its worker, the feedbacks and the accounting stage take their steps, and whatever the rest of the fuzzer does
    to the rest of the state in between, none of these steps panics, the worker always works on the pending iteration, the
    credits stay non-negative, and the frontier stays the frontier of the coverage. *)
Theorem system_safe w w1 r w2 :
  sys_inv w → reaches w w1 → sys_step w1 r w2 → r ≠ Scheduler Panic ∧ sys_inv w2.
Proof.
  intros Hi Hr Hs. assert (sys_inv w1) as Hi1; [|by eapply sys_step_ok].
  clear Hs. induction Hr as [|w wm w1 [r' Hs] _ IH]; [done|]. apply IH. by eapply sys_step_ok.
Qed.

(** ** Runs of the system against the abstract machine *)

Definition machine_any (m m' : Machine) : Prop := machine_step m m' ∨ machine_recover m m'.

Lemma tame_abs w s' : tame (st w) s' → abs (w <| st := s' |>) = abs w.
Proof.
  intros ((Ht & _) & _). unfold abs, get_phase, iteration_of, tpe_meta. cbn [st stage upd eta_World].
  by rewrite Ht.
Qed.

Lemma step_tame w r w' : sys_step w r w' →
  w' = (perform w).2 ∨ w' = stage_restore w ∨
  (∃ snapshot k, result_rx (stage w) = Some (Running snapshot) ∧ w' = set_worker k w ∧
     ∀ n, worker_iteration k = Some n → n = cw_iteration snapshot) ∨
  ∃ s', w' = w <| st := s' |> ∧ tame (st w) s'.
Proof.
  intros [| |snapshot Hrx|snapshot Hrx|self obs tc r' s' Hr|tc r' s' Hr|obs r' s' Hr|s' Ht Hc].
  - right. by left.
  - by left.
  - right. right. left. eexists _, _. split_and!; [done|done|]. by intros n [= <-].
  - right. right. left. by eexists _, _.
  - right. right. right. exists s'. split; [done|]. destruct (sancov_tame self obs tc) as [Ht _].
    specialize (Ht (st w)). by rewrite Hr in Ht.
  - right. right. right. exists s'. split; [done|]. pose proof (credit_tame tc (st w)) as Ht. by rewrite Hr in Ht.
  - right. right. right. exists s'. split; [done|]. destruct (accounting_tame obs) as [Ht _].
    specialize (Ht (st w)). by rewrite Hr in Ht.
  - right. right. right. by exists s'.
Qed.

Lemma sys_step_abs w r w' : sys_step w r w' → worker_ok w →
  worker_ok w' ∧ rtc machine_any (abs w) (abs w').
Proof.
  intros Hs Hok. destruct (step_tame w r w' Hs) as [->|[->|[(sn & k & Hrx & -> & Hn)|(s' & -> & Ht)]]].
  - destruct (perform w) as [r' w1] eqn:E. destruct (perform_abs w r' w1 E Hok) as (Hok' & m & Hrec & Hgo).
    cbn [snd]. split; [done|]. transitivity m.
    + destruct Hrec as [->|Hrec]; [reflexivity|]. apply rtc_once. by right.
    + destruct Hgo as [->|Hgo]; [reflexivity|]. apply rtc_once. by left.
  - split; [exact Hok|]. reflexivity.
  - split; [by eapply worker_abs|]. reflexivity.
  - split; [by apply tame_worker_ok|]. by rewrite tame_abs.
Qed.

Lemma machine_any_iter m m' : rtc machine_any m m' → is_u64 (mc_iteration m) →
  (mc_iteration m ≤ mc_iteration m')%Z ∧ is_u64 (mc_iteration m').
Proof.
  induction 1 as [|m m1 m' Hs _ IH]; intros Hu; [split; [lia|done]|].
  assert ((mc_iteration m ≤ mc_iteration m1)%Z ∧ is_u64 (mc_iteration m1)) as [Hle Hu1].
  { destruct Hs as [Hs|Hs]; destruct Hs; cbn in *; unfold is_u64, sat_add in *; lia. }
  destruct (IH Hu1). split; [lia|done].
Qed.

(** C3. Every run of the system, with all parts interleaved, is a run of the abstract machine of phases
    and iterations; the worker works on the pending iteration throughout, and the
    iteration counter never decreases. *)
Theorem system_refines w w' :
  worker_ok w → reaches w w' →
  worker_ok w' ∧ rtc machine_any (abs w) (abs w') ∧
  (is_u64 (iteration_of (st w)) → iteration_of (st w) ≤ iteration_of (st w'))%Z.
Proof.
  intros Hok Hr. assert (worker_ok w' ∧ rtc machine_any (abs w) (abs w')) as [Hok' Ha].
  { induction Hr as [w|w wm w' [r Hs] _ IH]; [by split|].
    destruct (sys_step_abs w r wm Hs Hok) as [Hm Ha1]. destruct (IH Hm) as [? Ha2].
    split; [done|by etrans]. }
  split_and!; [done|done|]. intros Hu. by apply (machine_any_iter _ _ Ha).
Qed.

(** C4. Once the mask and the initial candidates are committed, no run of the system changes the
    mask metadata, the mask, the active features or the schema. *)
Theorem system_mask_fixed w w' :
  reaches w w' → committed (st w) = true → same_mask (st w) (st w').
Proof.
  intros Hr Hc. induction Hr as [w|w wm w' [r Hs] _ IH]; [reflexivity|].
  assert (same_mask (st w) (st wm)) as Hm.
  { destruct (step_tame w r wm Hs) as [->|[->|[(sn & k & _ & -> & _)|(s' & -> & [[_ Ht] _])]]];
      [by apply mask_fixed_perform|reflexivity|reflexivity|done]. }
  etrans; [exact Hm|]. apply IH. unfold committed, vec_mask_runtime_meta in *. by destruct Hm as [-> _].
Qed.
End Steps.

(** ** A concrete run *)

Lemma demo_sys_inv : sys_inv demo_stage.
Proof. split; [done|exact demo_stage_inv|by split|by intros ? ? _ ?]. Qed.

Lemma system_safe_witness :
  let perform := perform (H := toy_libm) (H0 := toy_env) (H1 := toy_json_out) in
  (perform (perform demo_stage).2).1 ≠ Panic ∧ sys_inv (perform (perform demo_stage).2).2.
Proof.
  cbv zeta. set (run := TpeStage.perform (H := toy_libm) (H0 := toy_env) (H1 := toy_json_out)). set (w1 := (run demo_stage).2).
  destruct (system_safe (H := toy_libm) (H0 := toy_env) (H1 := toy_json_out) ltac:(done) demo_stage w1 (Scheduler (run w1).1) (run w1).2
    demo_sys_inv ltac:(apply rtc_once; eexists; apply sys_stage) ltac:(apply sys_stage)) as [Hr Hi].
  split; [intros E; apply Hr; by rewrite E|exact Hi].
Defined.

Lemma system_refines_witness :
  let w' := (perform (H := toy_libm) (H0 := toy_env) (H1 := toy_json_out) demo_stage).2 in
  worker_ok w' ∧ rtc machine_any (abs demo_stage) (abs w').
Proof.
  cbv zeta. edestruct (system_refines (H := toy_libm) (H0 := toy_env) (H1 := toy_json_out) demo_stage)
    as (Hw & Ha & _); [done| |exact (conj Hw Ha)]. apply rtc_once. eexists. apply sys_stage.
Defined.

Lemma system_mask_fixed_witness :
  same_mask (st demo_committed)
    (st (perform (H := toy_libm) (H0 := toy_env) (H1 := toy_json_out) demo_committed).2).
Proof.
  apply (system_mask_fixed (H := toy_libm) (H0 := toy_env) (H1 := toy_json_out)); [|done].
  apply rtc_once. eexists. apply sys_stage.
Defined.
