(* ===== verification/Startup.v ===== *)
(** * Startup: the configuration of a run ([src/lib.rs] of BOFuzz)

    What happens between the command line and the fuzzing loop: the choice of the mask
    mode, the search for the input files, the checks of a resumed run, the loading of
    the feature map and of the control-flow graph, and the metadata the stages rely
    on.  [clap] is outside the model: [CliArgs] holds the values it hands over.
    [process::exit] is the result [Exit], an error returned by [fuzz] is [Failed].
    Messages to the terminal are left out. *)

From Stdlib Require Import ZArith Lia Ascii.
From S2P Require Import Prelude Float64 FloatFacts Rands Corpus Metadata State FrontierSets MaskSelection Str NumParse FeaturesMap Factor WeightRefresh MapObserver CreditFeedback Tpe TpeFacts TpeSpec RuntimeData TpeStage TpeStageFacts TpeStageSafe System.

(** ** The command line *)

Record BofuzzArgs := mkBofuzzArgs {
  ba_factor_params : FactorParams;
  ba_feat_mode : nat;
  ba_explore_time_secs : u64;
  ba_tpe_period_secs : u64;
  ba_weight_compute_mode : WeightComputeMode;
  ba_tpe_samples : usize;
  ba_tpe_gamma : f64;
  ba_tpe_bw : f64;
  ba_trials_threshold : usize;
  ba_re_tpe_threshold_secs : u64;
  ba_sancov_acfg_path : option PathBuf;
}.

Record VecMaskConfig := mkVecMaskConfig {
  vc_mode : VecMaskMode;
  vc_explicit_mask : option (list bool);
  vc_credit_top_k : usize;
}.

(** What [clap] hands over, after its own checks; a number that [libafl_main] parses
    itself is still a text. *)
Record CliArgs := mkCliArgs {
  cli_features_schema : option PathBuf;
  cli_vec_mask : option string;
  cli_credit_top_k : usize;
  cli_alpha : string;
  cli_beta : string;
  cli_gmin : string;
  cli_gmax : string;
  cli_tanh : bool;
  cli_feat_mode : nat;
  cli_weight_compute : string;
  cli_explore_time_secs : u64;
  cli_tpe_period_secs : u64;
  cli_tpe_samples : usize;
  cli_tpe_gamma : f64;
  cli_tpe_bw : f64;
  cli_trials_threshold : usize;
  cli_re_tpe_threshold_secs : u64;
  cli_sancov_acfg : option PathBuf;
}.
(** The default values. *)
Definition CliArgs_default : CliArgs :=
  mkCliArgs None None 8 "0.85" "0.6" "0.5" "2.0" false 1 "frontier" 43200 600 16 f_0_15 f_0_05 5
    3600 None.

(** A run of [main] or [fuzz] that does not reach the fuzzing loop. *)
Inductive Stop :=
| Exit (code : Z)
| Failed (e : Error).

Definition vec_mask_mode_label (mode : VecMaskMode) : string :=
  match mode with
  | Full => "full"
  | Explicit => "explicit"
  | AutoCredit => "auto-credit"
  end.

Definition selected_schema_indices_of (mask : list bool) : list usize := set_indices mask.

Definition resolve_vec_mask_config (raw_mask : option string) (credit_top_k schema_dim : usize) :
    outcome Msg VecMaskConfig :=
  match raw_mask with
  | Some mask =>
    if bool_decide (trim (to_chars mask) = to_chars "auto-credit") then
      if (credit_top_k =? 0) || (schema_dim <? credit_top_k) then
        Err (fmt "BOFuzz auto-credit error: --credit-top-k must be in 1..={} when --vec-mask auto-credit is selected"
               [ANat schema_dim])
      else Ok (mkVecMaskConfig AutoCredit None credit_top_k)
    else
      let? explicit := parse_vec_mask mask schema_dim in
      Ok (mkVecMaskConfig Explicit (Some explicit) credit_top_k)
  | None => Ok (mkVecMaskConfig Full None credit_top_k)
  end.

Definition parse_weight_compute_mode (raw : string) : outcome Msg WeightComputeMode :=
  if String.eqb raw "frontier" then Ok Frontier
  else if String.eqb raw "path" then Ok Path
  else Err (fmt "BOFuzz --weight-compute error: expected frontier|path, got {}" [AStr raw]).

(** [text.parse().unwrap()] *)
Definition parse_unwrap {E} (text : string) : outcome E f64 := unwrap (parse_f64 (to_chars text)).

Definition read_factor_params {E} (cli : CliArgs) : outcome E FactorParams :=
  let? alpha := parse_unwrap (cli_alpha cli) in
  let? beta := parse_unwrap (cli_beta cli) in
  let? gmin := parse_unwrap (cli_gmin cli) in
  let? gmax := parse_unwrap (cli_gmax cli) in
  Ok (mkFactorParams alpha beta gmin gmax (cli_tanh cli)).

Definition read_args {E} (cli : CliArgs) (mode : WeightComputeMode) : outcome E BofuzzArgs :=
  let? params := read_factor_params cli in
  Ok (mkBofuzzArgs params (cli_feat_mode cli) (cli_explore_time_secs cli) (cli_tpe_period_secs cli)
        mode (cli_tpe_samples cli) (cli_tpe_gamma cli) (cli_tpe_bw cli)
        (cli_trials_threshold cli) (cli_re_tpe_threshold_secs cli) (cli_sancov_acfg cli)).

(** ** Where the files are *)

Class Process := mkProcess {
  current_exe : option PathBuf;
  current_dir : option PathBuf;
}.

Definition path_exists (p : PathBuf) (s : State) : bool :=
  bool_decide (is_Some (files s !! path_display p)).

Definition schema_relative : PathBuf := ["static_analysis"; "features_schema.json"]%string.

(** The loop over the directories above the executable. *)
Fixpoint find_root (n : nat) (dir : PathBuf) (s : State) : option PathBuf :=
  match n with
  | O => None
  | S n =>
    if path_exists (dir ++ schema_relative) s then Some dir
    else match parent dir with
         | Some dir => find_root n dir s
         | None => None
         end
  end.

Section Files.
Context `{Process}.

Definition resolve_bofuzz_root (s : State) : option PathBuf :=
  match current_exe with
  | None => None
  | Some exe =>
    match parent exe with
    | None => None
    | Some dir =>
      match find_root 10 dir s with
      | Some dir => Some dir
      | None =>
        match current_dir with
        | Some cwd => if path_exists (cwd ++ schema_relative) s then Some cwd else None
        | None => None
        end
      end
    end
  end.

Definition default_schema_path (s : State) : option PathBuf :=
  (λ root, root ++ schema_relative) <$> resolve_bofuzz_root s.

(** [{stem}{suffix}] beside the executable. *)
Definition beside_exe (suffix : string) : option PathBuf :=
  match current_exe with
  | None => None
  | Some exe =>
    (λ stem, default ["."%string] (parent exe) ++ [(stem +:+ suffix)%string]) <$> file_stem exe
  end.
Definition default_sancov_acfg_path_from_current_exe : option PathBuf :=
  beside_exe "_sancov_acfg.json".
Definition default_features_path : option PathBuf := beside_exe "_features_map.json".

Definition choose_features_path (cli_features_path : option PathBuf) (s : State) : option PathBuf :=
  let chosen := match cli_features_path with
                | Some p => Some p
                | None => default_features_path
                end in
  match chosen with
  | Some p => if path_exists p s then Some p else None
  | None => None
  end.
End Files.

(** ** The mask of a new and of a resumed run *)

(** [runtime.effective_mask] of a new run. *)
Definition initial_mask (schema_dim : usize) (config : VecMaskConfig) : outcome Error (list bool) :=
  match vc_mode config with
  | Explicit =>
    ok_or (vc_explicit_mask config)
      (illegal_argument "BOFuzz explicit mask config missing mask" [])
  | Full | AutoCredit => Ok (replicate schema_dim true)
  end.

Definition initialize_fresh (schema : FeatureSchemaFile) (config : VecMaskConfig) :
    M State (list FeatureSpec) :=
  effective <- lift (initial_mask (length (sc_features schema)) config) ;;
  let active := compute_active_features schema effective in
  modify (set_schema_info (sc_schema_version schema) (sc_features schema) effective active) ;;;
  let runtime :=
    VecMaskRuntimeMeta_default
      <| vm_mode := vc_mode config |>
      <| credit_top_k := vc_credit_top_k config |>
      <| requested_explicit_mask := vc_explicit_mask config |>
      <| mask_committed := negb (bool_decide (vc_mode config = AutoCredit)) |>
      <| tpe_init_committed := false |>
      <| effective_mask := effective |>
      <| selected_feature_names := fs_name <$> active |>
      <| selected_schema_indices := selected_schema_indices_of effective |> in
  let runtime := if bool_decide (vc_mode config = Full)
                 then runtime <| requested_explicit_mask := None |> else runtime in
  modify (set_vec_mask_runtime_meta runtime) ;;;
  ret active.

(** The comparison of the command line with the metadata of the interrupted run. *)
Definition check_resumed (schema_dim : usize) (config : VecMaskConfig)
    (runtime : VecMaskRuntimeMeta) : outcome Error () :=
  let full_mask := replicate schema_dim true in
  match vc_mode config with
  | Full =>
    if negb (bool_decide (effective_mask runtime = full_mask)) then
      Err (illegal_state "BOFuzz resume error: full mode persisted mask is not full schema" [])
    else Ok ()
  | Explicit =>
    let? requested := ok_or (vc_explicit_mask config)
      (illegal_state "BOFuzz resume error: explicit mode requires CLI vec-mask" []) in
    if negb (bool_decide (requested_explicit_mask runtime = Some requested)) ||
       negb (bool_decide (effective_mask runtime = requested)) then
      Err (illegal_state
        "BOFuzz resume error: explicit vec-mask differs from persisted committed mask" [])
    else Ok ()
  | AutoCredit =>
    if negb (credit_top_k runtime =? vc_credit_top_k config) then
      Err (illegal_state "BOFuzz resume error: auto-credit top_k differs from persisted run" [])
    else if negb (mask_committed runtime) && negb (bool_decide (effective_mask runtime = full_mask)) then
      Err (illegal_state
        "BOFuzz resume error: pending auto-credit run is not in full-schema Explore" [])
    else Ok ()
  end.

Definition initialize_resumed (schema : FeatureSchemaFile) (config : VecMaskConfig) :
    M State (list FeatureSpec) :=
  persisted <- gets m_mask ;;
  runtime <- lift (ok_or persisted (illegal_state
    "BOFuzz resume error: missing persisted vec-mask runtime metadata" [])) ;;
  if negb (bool_decide (vm_mode runtime = vc_mode config)) then
    throw (illegal_state "BOFuzz resume error: vec-mask mode differs from persisted run" [])
  else
    lift (check_resumed (length (sc_features schema)) config runtime) ;;;
    let active := compute_active_features schema (effective_mask runtime) in
    let runtime := runtime <| selected_feature_names := fs_name <$> active |>
      <| selected_schema_indices := selected_schema_indices_of (effective_mask runtime) |> in
    modify (set_schema_info (sc_schema_version schema) (sc_features schema)
              (effective_mask runtime) active) ;;;
    modify (set_vec_mask_runtime_meta runtime) ;;;
    (if tpe_init_committed runtime then
       λ s, (validate_committed_vector_dimensions s, s)
     else ret ()) ;;;
    ret active.

Definition initialize_vec_mask_state (schema : FeatureSchemaFile) (config : VecMaskConfig)
    (is_resumed : bool) : M State (list FeatureSpec) :=
  if negb is_resumed then initialize_fresh schema config else initialize_resumed schema config.

(** ** The control-flow graph *)

Record SancovAcfgFile := mkAcfgFile {
  af_schema_version : u64;
  af_kind : string;
  af_n_sancov_sites : usize;
  af_successors : list (list usize);
  af_predecessors : list (list usize);
}.

(** [serde_json::from_str::<SancovAcfgFile>] *)
Class AcfgJson := parse_acfg : string → string + SancovAcfgFile.

(** The first node of a list that is not below [n]. *)
Fixpoint check_nodes (kind : string) (i : nat) (n : usize) (xs : list usize) : outcome Msg () :=
  match xs with
  | [] => Ok ()
  | node :: xs =>
    if n <=? node then
      Err (fmt "BOFuzz sancov ACFG error: {}[{}] contains out-of-range node {}"
             [AStr kind; ANat i; ANat node])
    else check_nodes kind i n xs
  end.
Fixpoint check_lists (kind : string) (i : nat) (n : usize) (lists : list (list usize)) :
    outcome Msg () :=
  match lists with
  | [] => Ok ()
  | xs :: lists => let? _ := check_nodes kind i n xs in check_lists kind (S i) n lists
  end.

Definition check_acfg (path : PathBuf) (file : SancovAcfgFile) (sancov_sites : usize) :
    outcome Msg SancovAcfgMeta :=
  let n := af_n_sancov_sites file in
  if negb (af_schema_version file =? 1)%Z || negb (String.eqb (af_kind file) "bofuzz-sancov-acfg-v1")
  then Err (fmt "BOFuzz sancov ACFG error: {} has unsupported schema/kind" [AStr (path_display path)])
  else if negb (n =? sancov_sites) then
    Err (fmt "BOFuzz sancov ACFG error: n_sancov_sites {} != runtime sancov sites {}"
           [ANat n; ANat sancov_sites])
  else if negb (length (af_successors file) =? n) then
    Err (fmt "BOFuzz sancov ACFG error: successors length mismatch" [])
  else if negb (length (af_predecessors file) =? n) then
    Err (fmt "BOFuzz sancov ACFG error: predecessors length mismatch" [])
  else
    let? _ := check_lists "successors" 0 n (af_successors file) in
    let? _ := check_lists "predecessors" 0 n (af_predecessors file) in
    Ok (mkAcfg 0 n (af_successors file) (af_predecessors file)).

(** ** Loading *)

Section Startup.
Context `{Env} `{Json} `{AcfgJson} `{Process}.

Definition load_sancov_acfg (path : PathBuf) (sancov_sites : usize) : ME Msg State SancovAcfgMeta :=
  s <- open_read
    (λ e, fmt "BOFuzz sancov ACFG error: cannot open {}: {}" [AStr (path_display path); AStr e])
    (λ e, fmt "BOFuzz sancov ACFG error: cannot read {}: {}" [AStr (path_display path); AStr e])
    path ;;
  file <- lift (from_sum (λ e, fmt "BOFuzz sancov ACFG error: invalid JSON in {}: {}"
                            [AStr (path_display path); AStr e]) (parse_acfg s)) ;;
  lift (check_acfg path file sancov_sites).

(** [libafl_main], from the schema to the call of [fuzz]. *)
Definition libafl_main (cli : CliArgs) :
    ME Stop State (FeatureSchemaFile * VecMaskConfig * BofuzzArgs) :=
  default_path <- gets default_schema_path ;;
  schema_path <- lift (ok_or (match cli_features_schema cli with
                              | Some p => Some p
                              | None => default_path
                              end) (Exit 1)) ;;
  schema <- with_err (λ _, Exit 1) (load_and_validate_schema schema_path) ;;
  config <- lift (map_err (λ _, Exit 1)
    (resolve_vec_mask_config (cli_vec_mask cli) (cli_credit_top_k cli) (length (sc_features schema)))) ;;
  mode <- lift (map_err (λ _, Exit 1) (parse_weight_compute_mode (cli_weight_compute cli))) ;;
  args <- lift (read_args cli mode) ;;
  ret (schema, config, args).

Definition candidate_policy (runtime_mask : VecMaskRuntimeMeta) : CandidateFilePolicy :=
  if bool_decide (vm_mode runtime_mask = AutoCredit) then IgnoreExternalFile else AllowExternalFile.

(** The candidate file in the mask metadata; a committed initialization is not touched. *)
Definition record_candidates (is_resumed : bool) (status : CandidateFileStatus)
    (m : VecMaskRuntimeMeta) : VecMaskRuntimeMeta :=
  if negb is_resumed || negb (tpe_init_committed m) then
    let m :=
      if negb is_resumed || cs_loaded status || bool_decide (candidate_file_path m = None)
      then m <| candidate_file_path := path_display <$> cs_path status |> else m in
    if bool_decide (vm_mode m = AutoCredit) then m <| candidate_file_loaded := false |>
    else if negb is_resumed || cs_loaded status then
      m <| candidate_file_loaded := cs_loaded status |>
    else m
  else m.

(** The feature map of a run that has one: its weights and its active matrix. *)
Definition load_features_of (p : PathBuf) (schema : FeatureSchemaFile) (sancov_sites : usize)
    (active : list FeatureSpec) (is_resumed : bool) :
    ME Stop State (list f64 * gmap string (list f64)) :=
  canonical_map <- with_err (λ _, Exit 1) (load_and_validate_feature_map p schema sancov_sites) ;;
  runtime_mask <- gets vec_mask_runtime_meta ;;
  restored_current_v <- gets (λ s, if is_resumed : bool then get_current_weight_vec s else []) ;;
  result <- with_err (λ _, Exit 1)
    (load_and_align_features_map canonical_map sancov_sites (length active) (fs_name <$> active) p
       (candidate_policy runtime_mask)) ;;
  modify (λ s, s <| m_mask := record_candidates is_resumed (lr_candidate_status result) <$> m_mask s |>) ;;;
  (if is_resumed && negb (match restored_current_v with [] => true | _ => false end)
   then modify (set_current_weight_vec restored_current_v) else ret ()) ;;;
  ret (lr_feats result, lr_active_matrix result).

(** The start of the clock and the metadata of the features. *)
Definition install_features (pending : option (list f64 * gmap string (list f64)))
    (sancov_sites : usize) (mode : WeightComputeMode) (is_resumed : bool) : ME Stop State () :=
  start <- gets get_fuzz_start ;;
  (if negb is_resumed || (start =? 0)%Z then with_err Failed set_fuzz_start else ret ()) ;;;
  modify (λ s, match pending with
               | Some (feats, matrix) =>
                 s <| m_feats := Some feats |> <| m_matrix := Some (mkFeaturesMatrix matrix sancov_sites) |>
               | None => s
               end) ;;;
  modify (set_feat_exists (bool_decide (is_Some pending))) ;;;
  modify (λ s, s <| m_weight_mode := Some mode |>) ;;;
  modify (λ s, s <| m_tpe := Some (default TpeIterationMeta_default (m_tpe s)) |>).

(** The graph is needed for the frontier weights of an enabled run. *)
Definition install_acfg (args : BofuzzArgs) (has_feats : bool) (sancov_sites : usize) :
    ME Stop State () :=
  if has_feats && negb (ba_feat_mode args =? 0) &&
     bool_decide (ba_weight_compute_mode args = Frontier) then
    acfg_path <- lift (ok_or (match ba_sancov_acfg_path args with
                              | Some p => Some p
                              | None => default_sancov_acfg_path_from_current_exe
                              end)
      (Failed (illegal_argument "BOFuzz sancov ACFG error: cannot derive default path" []))) ;;
    acfg <- with_err (λ _, Exit 1) (load_sancov_acfg acfg_path sancov_sites) ;;
    modify (λ s, s <| m_acfg := Some acfg |>)
  else ret ().

(** After the mask is chosen: the parameters, the files and the metadata. *)
Definition configure (args : BofuzzArgs) (schema : FeatureSchemaFile) (active : list FeatureSpec)
    (cli_features_path : option PathBuf) (runtime_data_output_path : PathBuf)
    (sancov_sites : usize) (is_resumed : bool) : ME Stop State () :=
  modify (λ s, s <| m_export := Some (mkExport (path_display runtime_data_output_path) 0) |>) ;;;
  modify (set_alpha_init (fp_alpha (ba_factor_params args))) ;;;
  modify (set_factor_params (ba_factor_params args)) ;;;
  chosen_path <- gets (choose_features_path cli_features_path) ;;
  pending <- match chosen_path with
             | Some p => r <- load_features_of p schema sancov_sites active is_resumed ;; ret (Some r)
             | None => ret None
             end ;;
  install_features pending sancov_sites (ba_weight_compute_mode args) is_resumed ;;;
  install_acfg args (bool_decide (is_Some pending)) sancov_sites ;;;
  modify (set_feat_mode (ba_feat_mode args)) ;;;
  modify (set_explore_time (ba_explore_time_secs args)) ;;;
  modify (set_tpe_period (ba_tpe_period_secs args)).

(** The part of [fuzz] that prepares the state of the feature scheduler. *)
Definition startup (args : BofuzzArgs) (schema : FeatureSchemaFile) (config : VecMaskConfig)
    (cli_features_path : option PathBuf) (runtime_data_output_path : PathBuf)
    (sancov_sites : usize) (is_resumed : bool) : ME Stop State () :=
  active <- with_err Failed (initialize_vec_mask_state schema config is_resumed) ;;
  configure args schema active cli_features_path runtime_data_output_path sancov_sites is_resumed.

(** The stage that [fuzz] builds after the startup. *)
Definition tpe_params_of (args : BofuzzArgs) (s : State) : TpeParams :=
  mkTpeParams (ba_tpe_gamma args) (ba_tpe_samples args) (ba_tpe_bw args)
    (from_secs (get_tpe_period s)) (ba_trials_threshold args)
    (from_secs (ba_re_tpe_threshold_secs args)).
Definition build_stage (args : BofuzzArgs) (rng : StdRand) (s : State) : World :=
  mkWorld (stage_new (tpe_params_of args s) "edges" rng) s.
End Startup.

(** ** The command line *)

(** What the rest of the startup relies on. *)
Definition config_ok (dim : usize) (config : VecMaskConfig) : Prop :=
  match vc_mode config with
  | Full => vc_explicit_mask config = None
  | Explicit => ∃ mask, vc_explicit_mask config = Some mask ∧ length mask = dim ∧ true ∈ mask
  | AutoCredit => vc_explicit_mask config = None ∧ 1 ≤ vc_credit_top_k config ≤ dim
  end.

Lemma resolve_config_ok raw k dim config :
  resolve_vec_mask_config raw k dim = Ok config → config_ok dim config.
Proof.
  unfold resolve_vec_mask_config. destruct raw as [mask|]; [|by intros [= <-]].
  case_bool_decide as Ha.
  - destruct (Nat.eqb_spec k 0), (Nat.ltb_spec dim k); try done. intros [= <-]. split; [done|]. cbn. lia.
  - intros Hc. inv_ok. eexists. split; [done|]. by eapply parse_vec_mask_sound.
Qed.

Lemma initial_mask_ok dim config : config_ok dim config → dim ≠ 0 →
  ∃ mask, initial_mask dim config = Ok mask ∧ length mask = dim ∧ true ∈ mask.
Proof.
  unfold config_ok, initial_mask. intros Hc Hd.
  assert (length (replicate dim true) = dim ∧ true ∈ replicate dim true) as Hr.
  { rewrite length_replicate. split; [done|]. destruct dim; [done|]. by left. }
  destruct (vc_mode config); [by eexists| |by eexists].
  destruct Hc as (mask & -> & ?). by exists mask.
Qed.

Lemma count_true_elem mask : true ∈ mask → count_true mask ≠ 0.
Proof.
  intros Hm. apply forallb_negb_count. apply not_true_iff_false. intros Hf.
  rewrite forallb_forall in Hf. apply list_elem_of_In in Hm. by specialize (Hf _ Hm).
Qed.

(** ** The control-flow graph *)

Record acfg_file_ok (file : SancovAcfgFile) (sites : usize) : Prop := {
  ao_version : af_schema_version file = 1%Z;
  ao_kind : af_kind file = "bofuzz-sancov-acfg-v1"%string;
  ao_sites : af_n_sancov_sites file = sites;
  ao_successors : length (af_successors file) = sites ∧
    Forall (Forall (λ node, node < sites)) (af_successors file);
  ao_predecessors : length (af_predecessors file) = sites ∧
    Forall (Forall (λ node, node < sites)) (af_predecessors file);
}.

Lemma check_nodes_ok kind i n xs :
  (check_nodes kind i n xs = Ok () ↔ Forall (λ node, node < n) xs) ∧ check_nodes kind i n xs ≠ Panic.
Proof.
  induction xs as [|x xs IH]; cbn [check_nodes]; [done|]. rewrite Forall_cons.
  destruct (Nat.leb_spec n x); [|naive_solver lia]. split; [|done]. split; [done|]. lia.
Qed.

Lemma check_lists_ok kind i n ls :
  (check_lists kind i n ls = Ok () ↔ Forall (Forall (λ node, node < n)) ls) ∧
  check_lists kind i n ls ≠ Panic.
Proof.
  revert i. induction ls as [|xs ls IH]; intros i; cbn [check_lists]; [done|]. rewrite Forall_cons.
  destruct (check_nodes_ok kind i n xs) as [<- Hn].
  destruct (check_nodes kind i n xs) as [[]|e|]; cbn [obind]; [|naive_solver|done].
  destruct (IH (S i)) as [<- ?]. naive_solver.
Qed.

Lemma check_acfg_total path file sites : check_acfg path file sites ≠ Panic.
Proof.
  unfold check_acfg. cbv zeta. repeat (case_match; [done|]).
  destruct (check_lists_ok "successors" 0 (af_n_sancov_sites file) (af_successors file)) as [_ Hs].
  destruct (check_lists _ _ _ (af_successors file)); [|done|done]. cbn [obind].
  destruct (check_lists_ok "predecessors" 0 (af_n_sancov_sites file) (af_predecessors file)) as [_ Hp].
  by destruct (check_lists _ _ _ (af_predecessors file)).
Qed.

(** The control-flow graph is accepted exactly when it has the supported version and kind, one
    list of successors and one of predecessors for every site of the program under test, and
    only nodes in range; it is taken over as it is, and every other file is an error. *)
Theorem check_acfg_exact path file sites :
  (∀ meta, check_acfg path file sites = Ok meta ↔
     acfg_file_ok file sites ∧ meta = mkAcfg 0 sites (af_successors file) (af_predecessors file)) ∧
  (¬ acfg_file_ok file sites → ∃ e, check_acfg path file sites = Err e).
Proof.
  assert (∀ meta, check_acfg path file sites = Ok meta ↔
     acfg_file_ok file sites ∧ meta = mkAcfg 0 sites (af_successors file) (af_predecessors file)) as Hiff.
  { intros meta. unfold check_acfg. cbv zeta.
    destruct (Z.eqb_spec (af_schema_version file) 1), (String.eqb_spec (af_kind file) "bofuzz-sancov-acfg-v1");
      cbn [negb orb]; try (split; [done|]; by intros [[] ?]).
    destruct (Nat.eqb_spec (af_n_sancov_sites file) sites) as [<-|]; cbn [negb];
      [|split; [done|]; by intros [[] ?]].
    destruct (Nat.eqb_spec (length (af_successors file)) (af_n_sancov_sites file)); cbn [negb];
      [|split; [done|]; intros [[? ? ? [? ?] [? ?]] ?]; congruence].
    destruct (Nat.eqb_spec (length (af_predecessors file)) (af_n_sancov_sites file)); cbn [negb];
      [|split; [done|]; intros [[? ? ? [? ?] [? ?]] ?]; congruence].
    destruct (check_lists_ok "successors" 0 (af_n_sancov_sites file) (af_successors file)) as [Hs Hsn].
    destruct (check_lists_ok "predecessors" 0 (af_n_sancov_sites file) (af_predecessors file)) as [Hp Hpn].
    destruct (check_lists "successors" _ _ _) as [[]|err|]; cbn [obind]; [| |done].
    2: { split; [done|]. intros [[_ _ _ [_ ?] _] _]. by apply Hs in H. }
    destruct (check_lists "predecessors" _ _ _) as [[]|err|]; cbn [obind]; [| |done].
    2: { split; [done|]. intros [[_ _ _ _ [_ ?]] _]. by apply Hp in H. }
    split; [intros [= <-]; split; [|done]; split; naive_solver|]. by intros [_ ->]. }
  split; [done|]. intros Hno. pose proof (check_acfg_total path file sites).
  destruct (check_acfg path file sites) as [meta|e|]; [|by eexists|done].
  exfalso. apply Hno. by apply (Hiff meta).
Qed.

(** ** A new run *)

(** The state [StdState::new] makes, as far as the scheduler looks. *)
Record new_state (s : State) : Prop := {
  ns_globals : m_globals s = None;
  ns_tpe : m_tpe s = None;
  ns_history : m_history s = None;
  ns_frontier : m_frontier s = None;
  ns_credits : m_explore s = None ∧ m_runtime s = None;
  ns_feats : m_feats s = None ∧ m_matrix s = None;
  ns_corpus : corpus s = InMemory.new;
}.

(** The state of a new run during the startup, once the mask is chosen. *)
Record booting (schema : FeatureSchemaFile) (mask : list bool) (p : FactorParams) (s : State) :
    Prop := {
  bo_schema : get_schema_features s = sc_features schema;
  bo_mask : get_vec_mask s = mask;
  bo_names : get_active_feature_names s = fs_name <$> compute_active_features schema mask;
  bo_dim : get_active_dim s = count_true mask;
  bo_current : get_current_weight_vec s = [];
  bo_pool : Forall (candidate_ok (count_true mask)) (get_v_candidates s);
  bo_params : get_factor_params s = p;
  bo_runtime : ∃ m, m_mask s = Some m ∧ tpe_init_committed m = false ∧ effective_mask m = mask ∧
                 normalized_credit_init_v m = [];
  bo_tpe : m_tpe s = None ∨ m_tpe s = Some TpeIterationMeta_default;
  bo_unused : m_history s = None ∧ m_frontier s = None ∧ m_explore s = None ∧ m_runtime s = None;
  bo_matrix : matrix_valid s;
  bo_feats : Forall fvalid (default [] (m_feats s));
  bo_corpus : corpus s = InMemory.new;
}.

Section NewRun.
Context (schema : FeatureSchemaFile) (config : VecMaskConfig).
Context (schema_nonempty : sc_features schema ≠ []).
Context (config_accepted : config_ok (length (sc_features schema)) config).

Lemma initialize_fresh_triple :
  triple new_state (initialize_fresh schema config)
    (λ active s, ∃ mask, length mask = length (sc_features schema) ∧ true ∈ mask ∧
       active = compute_active_features schema mask ∧ booting schema mask FactorParams_default s)
    (λ _, True).
Proof.
  intros s [G T Hh F [C1 C2] [F1 F2] Co]. unfold initialize_fresh, bind at 1, lift.
  destruct (initial_mask_ok (length (sc_features schema)) config config_accepted)
    as (mask & Hmask & Hl & Ht); [by destruct (sc_features schema)|].
  rewrite Hmask. exists mask. split_and!; [done|done|done|].
  assert (globals s = FeatureGlobalsMeta_default) as Hg by (unfold globals; by rewrite G).
  split; cbn; unfold get_current_weight_vec, get_v_candidates, get_factor_params; cbn;
    rewrite ?Hg; try done.
  - by rewrite compute_active_length.
  - eexists. split; [done|]. by case_bool_decide.
  - by left.
  - unfold matrix_valid. cbn. by rewrite F2.
  - by rewrite F1.
Qed.

Lemma booting_pool mask p s s' : booting schema mask p s → pool_load s s' →
  Forall (candidate_ok (count_true mask)) (get_v_candidates s') → booting schema mask p s'.
Proof.
  intros [B1 B2 B3 B4 B5 B6 B7 B8 B9 B10 B11 B12 B13] [G E] HF.
  unfold matrix_valid, get_schema_features, get_vec_mask, get_active_feature_names, get_active_dim,
    get_current_weight_vec, get_factor_params in *.
  split; unfold matrix_valid, get_schema_features, get_vec_mask, get_active_feature_names,
    get_active_dim, get_current_weight_vec, get_factor_params; rewrite ?G; try done;
    rewrite E; done.
Qed.
End NewRun.

Section NoPanic.
Context `{Env} `{Json}.

Lemma check_values_total spec i l : check_values spec i l ≠ Panic.
Proof. revert i. induction l as [|v l IH]; intros i; cbn [check_values]; [done|]. by repeat case_match. Qed.

Lemma as_f64_list_total spec i l : as_f64_list spec i l ≠ Panic.
Proof.
  revert i. induction l as [|v l IH]; intros i; cbn [as_f64_list]; [done|].
  destruct (as_f64 v); [|done]. cbn [ok_or obind]. specialize (IH (S i)).
  by destruct (as_f64_list spec (S i) l).
Qed.

Lemma resolve_map_key_Some map spec k : resolve_map_key map spec = Some k → is_Some (map !! k).
Proof.
  unfold resolve_map_key. case_bool_decide; [by intros [= <-]|].
  destruct (fs_aliases spec) as [al|]; [|done]. intros Hk%head_Some_elem_of.
  by apply list_elem_of_filter in Hk as [? _].
Qed.

Lemma load_features_total map specs acc : load_features map specs acc ≠ Panic.
Proof.
  revert acc. induction specs as [|spec specs IH]; intros [m el]; cbn [load_features]; [done|].
  enough (load_feature map spec (m, el) ≠ Panic) as Hn.
  { destruct (load_feature map spec (m, el)); [apply IH|done|done]. }
  unfold load_feature. destruct (resolve_map_key map spec) as [k|] eqn:Ek; [|done].
  cbn [ok_or obind]. destruct (resolve_map_key_Some _ _ _ Ek) as [v ->]. cbn [unwrap obind].
  destruct (as_array v) as [vals|]; [|done]. pose proof (as_f64_list_total spec 0 vals).
  destruct (as_f64_list spec 0 vals) as [arr|e|]; [|done|done]. cbn [obind].
  pose proof (check_values_total spec 0 arr). destruct (check_values spec 0 arr); [|done|done].
  cbn [obind]. by repeat case_match.
Qed.

Lemma validate_map_total map schema sites : validate_feature_map map schema sites ≠ Panic.
Proof.
  unfold validate_feature_map. case_bool_decide; [done|].
  assert (∀ l, check_keys (allowed_keys schema) l ≠ Panic) as Hk.
  { intros l. induction l as [|k l IH]; cbn [check_keys]; [done|]. by repeat case_match. }
  specialize (Hk (hash_order (map_to_list map).*1)). destruct (check_keys _ _); [|done|done].
  cbn [obind]. pose proof (load_features_total map (sc_features schema) (∅, None)).
  destruct (load_features _ _ _) as [[m el]|e|]; [|done|done]. cbn [obind]. by repeat case_match.
Qed.

(** Reading a file only counts ticks, and does not panic. *)
Lemma open_read_ticks {E} (f g : string → E) p s :
  ∃ r k, open_read f g p s = (r, s <| ticks := k |>) ∧ r ≠ Panic.
Proof. unfold open_read. repeat case_match; by eexists _, _. Qed.

Lemma open_read_triple {E} (P : State → Prop) (f g : string → E) p :
  (∀ s k, P s → P (s <| ticks := k |>)) →
  triple P (open_read f g p) (λ _, P) (λ _, True).
Proof.
  intros HP s Hs. destruct (open_read_ticks f g p s) as (r & k & -> & Hr).
  specialize (HP s k Hs). by destruct r.
Qed.

Lemma check_candidates_total d i l : check_candidates d i l ≠ Panic.
Proof.
  revert i. induction l as [|c l IH]; intros i; cbn [check_candidates]; [done|].
  destruct (negb _); [done|].
  assert (∀ j v, check_candidate i j v ≠ Panic) as Hc.
  { intros j v. revert j. induction v as [|x v IHv]; intros j; cbn [check_candidate]; [done|].
    by repeat case_match. }
  specialize (Hc 0 c). destruct (check_candidate i 0 c); [|done|done]. cbn [obind].
  assert (normalize_simplex_eps c ≠ Panic) as Hn.
  { unfold normalize_simplex_eps. destruct c as [|x c]; [done|].
    assert (∀ v sum out, simplex_loop v sum out ≠ Panic) as Hs.
    { intros v. induction v as [|y v IHv]; intros sum out; cbn [simplex_loop]; [done|]. by repeat case_match. }
    specialize (Hs (x :: c) f0 []). destruct (simplex_loop _ _ _) as [[sum out]|e|]; [|done|done].
    cbn [obind]. by case_match. }
  destruct (normalize_simplex_eps c); [|done|done]. cbn [obind].
  specialize (IH (S i)). by destruct (check_candidates d (S i) l).
Qed.

Lemma ensure_candidates_total path d policy s : (ensure_v_candidates_for path d policy s).1 ≠ Panic.
Proof.
  enough (triple (λ _, True) (ensure_v_candidates_for path d policy) (λ _ _, True) (λ _, True)) as Ht.
  { specialize (Ht s I). by destruct (ensure_v_candidates_for path d policy s) as [[]?]. }
  unfold ensure_v_candidates_for. destruct policy; [|by apply triple_ret].
  apply triple_bind with (λ _ _, True); [by apply triple_gets|]. intros [|c cs]; [|by apply triple_ret].
  destruct (_ <$> _) as [cp|].
  2: { apply triple_bind with (λ _ _, True); [by apply triple_modify|]. intros ?. by apply triple_ret. }
  apply triple_bind with (λ _ _, True); [by apply triple_gets|]. intros [|].
  2: { apply triple_bind with (λ _ _, True); [by apply triple_modify|]. intros ?. by apply triple_ret. }
  apply triple_bind with (λ _ _, True).
  - apply triple_with_err. unfold load_candidates_from. apply triple_bind with (λ _ _, True).
    { by apply open_read_triple. }
    intros text. apply triple_bind with (λ _ _, True).
    { apply triple_lift_value; [|done|done]. unfold from_sum. by destruct (parse_candidates text). }
    intros [|c l]; [by apply triple_throw|]. apply triple_lift_value; [apply check_candidates_total|done|done].
  - intros fc. apply triple_bind with (λ _ _, True); [by apply triple_modify|]. intros ?. by apply triple_ret.
Qed.
End NoPanic.

Section StartupFacts.
Context `{Env} `{Json} `{AcfgJson} `{Process} `{!JsonLaws _}.
Context (schema : FeatureSchemaFile) (mask : list bool).
Context (mask_length : length mask = length (sc_features schema)) (mask_true : true ∈ mask).
Context (schema_small : small (length (sc_features schema))).

Abbreviation active := (compute_active_features schema mask).

Lemma active_dim : length active = count_true mask.
Proof. by apply compute_active_length. Qed.
Lemma active_small : count_true mask ≠ 0 ∧ small (count_true mask).
Proof.
  split; [by apply count_true_elem|]. pose proof (count_true_le mask). unfold small in *. lia.
Qed.

(** Loading and aligning keeps a booting state and gives valid numbers. *)
Lemma load_align_triple map sites path policy p : map_valid map →
  triple (booting schema mask p)
    (load_and_align_features_map map sites (length active) (fs_name <$> active) path policy)
    (λ r s, booting schema mask p s ∧ Forall fvalid (lr_feats r) ∧ map_valid (lr_active_matrix r))
    (λ _, True).
Proof.
  intros Hm. unfold load_and_align_features_map. rewrite active_dim.
  apply triple_bind with (λ _ s, booting schema mask p s).
  { intros s Hb. pose proof (ensure_candidates_total path (count_true mask) policy s) as Hn.
    pose proof (ensure_candidates_frame path (count_true mask) policy s) as Hf.
    destruct (ensure_v_candidates_for path (count_true mask) policy s) as [[st|e|] s'] eqn:Er; [|done|done].
    destruct (ensure_candidates_ok _ _ _ _ _ _ Er (bo_pool _ _ _ _ Hb)) as [HF _].
    by eapply booting_pool. }
  intros status. apply triple_bind with (λ cands s, booting schema mask p s ∧ cands = get_v_candidates s).
  { by apply triple_gets. }
  intros cands s [Hb ->]. unfold bind, modify, ret. cbn [lr_feats lr_active_matrix].
  destruct active_small as [_ Hs]. pose proof (filter_active_valid map (fs_name <$> active) Hm) as Hf.
  split; [|split; [|done]].
  - destruct Hb. by split.
  - apply align_Forall; [done|]. eapply Forall_impl; [apply combine_fin_nn; [done| |]|].
    + destruct (bo_pool _ _ _ _ Hb) as [|v vs Hv _]; cbn; [|by eapply candidate_ok_valid].
      eapply Forall_impl; [by apply equal_simplex_unit|]. intros x [Hx _]. by apply fnn_valid.
    + rewrite length_fmap, active_dim. done.
    + intros x [Hx _]. by apply fnn_valid.
Qed.

Lemma booting_ticks p s k : booting schema mask p s → booting schema mask p (s <| ticks := k |>).
Proof. intros []. by split. Qed.

Lemma load_features_triple p sites path :
  triple (booting schema mask p) (load_features_of path schema sites active false)
    (λ r s, booting schema mask p s ∧ Forall fvalid r.1 ∧ map_valid r.2) (λ _, True).
Proof.
  unfold load_features_of. apply triple_bind with (λ map s, booting schema mask p s ∧ map_valid map).
  { apply triple_with_err. unfold load_and_validate_feature_map.
    apply triple_bind with (λ _, booting schema mask p).
    { apply open_read_triple. intros s k. apply booting_ticks. }
    intros text. apply triple_bind with (λ _, booting schema mask p).
    { apply triple_lift_value; [|done|done]. unfold from_sum. by destruct (parse_map text). }
    intros map. apply triple_lift_value; [apply validate_map_total| |done].
    intros m s Hm Hb. split; [done|]. by eapply validate_map_valid. }
  intros map. apply triple_bind with (λ _ s, booting schema mask p s ∧ map_valid map); [by apply triple_gets|].
  intros runtime. apply triple_bind with (λ v s, (booting schema mask p s ∧ map_valid map) ∧ v = []).
  { by apply triple_gets. }
  intros restored. apply triple_bind with (λ r s, booting schema mask p s ∧ Forall fvalid (lr_feats r) ∧
    map_valid (lr_active_matrix r)).
  { apply triple_with_err. intros s [[Hb Hm] _]. by apply load_align_triple. }
  intros r. apply triple_bind with (λ _ s, booting schema mask p s ∧ Forall fvalid (lr_feats r) ∧
    map_valid (lr_active_matrix r)).
  { apply triple_modify. intros s [Hb ?]. split; [|done]. destruct Hb as [B1 B2 B3 B4 B5 B6 B7 (m & B8 & B8')].
    split; try done. exists (record_candidates false (lr_candidate_status r) m). cbn. rewrite B8.
    split; [done|]. unfold record_candidates. cbn. by repeat case_match. }
  intros ?. apply triple_bind with (λ _ s, booting schema mask p s ∧ Forall fvalid (lr_feats r) ∧
    map_valid (lr_active_matrix r)); [by apply triple_ret|]. intros ?. by apply triple_ret.
Qed.

Lemma install_features_triple p pending sites mode :
  (∀ r, pending = Some r → Forall fvalid r.1 ∧ map_valid r.2) →
  triple (booting schema mask p) (install_features pending sites mode false)
    (λ _, booting schema mask p) (λ _, True).
Proof.
  intros Hr s Hb. unfold install_features, bind, gets, with_err, set_fuzz_start, now_ms, modify. cbn.
  destruct Hb as [B1 B2 B3 B4 B5 B6 B7 B8 B9 B10 B11 B12 B13].
  destruct pending as [[feats matrix]|]; split; cbn; try done.
  - right. by destruct B9 as [-> | ->].
  - intros mx [= <-]. cbn. by apply (Hr _ eq_refl).
  - by apply (Hr _ eq_refl).
  - right. by destruct B9 as [-> | ->].
Qed.

Lemma install_acfg_triple p args has_feats sites :
  triple (booting schema mask p) (install_acfg args has_feats sites)
    (λ _, booting schema mask p) (λ _, True).
Proof.
  unfold install_acfg. apply triple_if; [|by apply triple_ret].
  apply triple_bind with (λ _, booting schema mask p).
  { apply triple_lift_value; [by destruct (match ba_sancov_acfg_path args with Some _ => _ | None => _ end)|done|done]. }
  intros path. apply triple_bind with (λ _, booting schema mask p).
  { apply triple_with_err. unfold load_sancov_acfg. apply triple_bind with (λ _, booting schema mask p).
    { apply open_read_triple. intros s k. apply booting_ticks. }
    intros text. apply triple_bind with (λ _, booting schema mask p).
    { apply triple_lift_value; [|done|done]. unfold from_sum. by destruct (parse_acfg text). }
    intros file. apply triple_lift_value; [apply check_acfg_total|done|done]. }
  intros acfg. apply triple_modify. intros s []. by split.
Qed.

Lemma configure_triple args p path out sites :
  triple (booting schema mask p) (configure args schema active path out sites false)
    (λ _, booting schema mask (ba_factor_params args)) (λ _, True).
Proof.
  unfold configure. apply triple_bind with (λ _, booting schema mask p).
  { apply triple_modify. intros s []. by split. }
  intros ?. apply triple_bind with (λ _, booting schema mask p).
  { apply triple_modify. intros s []. by split. }
  intros ?. apply triple_bind with (λ _, booting schema mask (ba_factor_params args)).
  { apply triple_modify. intros s []. by split. }
  clear p. set (p := ba_factor_params args).
  intros ?. apply triple_bind with (λ _, booting schema mask p); [by apply triple_gets|].
  intros chosen. apply triple_bind with (λ pending s, booting schema mask p s ∧
    ∀ r, pending = Some r → Forall fvalid r.1 ∧ map_valid r.2).
  { destruct chosen as [q|]; [|by apply triple_ret]. eapply triple_bind; [apply load_features_triple|].
    intros r. apply triple_ret. intros s [? ?]. split; [done|]. by intros r' [= <-]. }
  intros pending. apply triple_bind with (λ _, booting schema mask p).
  { intros s [Hb Hr]. by apply install_features_triple. }
  intros ?. apply triple_bind with (λ _, booting schema mask p); [apply install_acfg_triple|].
  intros ?. apply triple_bind with (λ _, booting schema mask p).
  { apply triple_modify. intros s []. by split. }
  intros ?. apply triple_bind with (λ _, booting schema mask p).
  { apply triple_modify. intros s []. by split. }
  intros ?. apply triple_modify. intros s []. by split.
Qed.

(** A started run satisfies the invariant of the system, with any parameters for the optimizer
    that have a usable bandwidth. *)
Lemma booting_sys_inv p args rng s : booting schema mask p s → params_ok p → rand_inv rng →
  fvalid (ba_tpe_bw args) → sys_inv (build_stage args rng s).
Proof.
  intros [B1 B2 B3 B4 B5 B6 B7 (m & Bm & Bc & Be & Bn) B9 (Bh & Bf & Bx & Br) B11 B12 B13] Hp Hr Hbw.
  destruct active_small as [Hne Hsm]. split.
  - by split.
  - exists (count_true mask). split.
    + split.
      * split; cbn; try done.
        -- split; cbn; [constructor|lia|by left|by left].
        -- intros m' Hm'. rewrite Bm in Hm'. injection Hm' as <-. by rewrite Bn.
      * done.
      * split; cbn; rewrite ?Bh, ?Bx, ?B1, ?B3, ?B7; try done.
        -- left. done.
        -- by rewrite length_fmap, active_dim.
        -- rewrite B13. by intros id tc.
      * done.
    + right. split_and!; try done; cbn; [|by rewrite Bh].
      unfold get_phase, tpe_meta. by destruct B9 as [-> | ->].
  - split; cbn; by rewrite ?Bx, ?Br.
  - intros acfg fm _. cbn. by rewrite Bf.
Qed.
End StartupFacts.

(** ** What the startup promises *)

Section Promises.
Context `{Libm} `{Env} `{JsonOut} `{Json} `{AcfgJson} `{Process}.
Context `{!LibmLaws _} `{!JsonLaws _}.
Context (fire_returns : ∀ e, fire_result e ≠ Panic).

Lemma startup_triple args schema config path out sites :
  sc_features schema ≠ [] → small (length (sc_features schema)) →
  config_ok (length (sc_features schema)) config →
  triple new_state (startup args schema config path out sites false)
    (λ _ s, ∃ mask, length mask = length (sc_features schema) ∧ true ∈ mask ∧
       booting schema mask (ba_factor_params args) s) (λ _, True).
Proof.
  intros Hne Hs Hc. unfold startup.
  eapply triple_bind; [by apply triple_with_err, initialize_fresh_triple|].
  intros active s (mask & Hl & Ht & -> & Hb).
  pose proof (configure_triple schema mask Hl Ht Hs args _ path out sites s Hb) as Hc'.
  destruct (configure _ _ _ _ _ _ _ s) as [[[]|e|] s']; [|done|done]. by exists mask.
Qed.

(** C1. A new campaign from the command line to any of its states, when the mask argument was accepted, the factor parameters are in
    order (gmin not above gmax, no NaN), the bandwidth is a number, there are features but fewer than 2^53, and the event manager does
    not panic: the startup itself does not panic, and once it succeeds, no step of the TPE stage, its worker, the two feedbacks or the
    accounting stage ever panics, in any order and whatever the rest of the fuzzer does to the rest of the state in between; the system
    invariant holds all the way. *)
Theorem campaign_safe args schema raw k config path out sites rng s0 r0 s :
  startup args schema config path out sites false s0 = (r0, s) → new_state s0 →
  resolve_vec_mask_config raw k (length (sc_features schema)) = Ok config →
  sc_features schema ≠ [] → small (length (sc_features schema)) →
  params_ok (ba_factor_params args) → fvalid (ba_tpe_bw args) → rand_inv rng →
  r0 ≠ Panic ∧
  (r0 = Ok () → sys_inv (build_stage args rng s) ∧
     ∀ w r w', reaches (build_stage args rng s) w → sys_step w r w' → r ≠ Scheduler Panic ∧ sys_inv w').
Proof.
  intros Hrun Hnew Hcfg Hne Hs Hp Hbw Hrng. apply resolve_config_ok in Hcfg.
  pose proof (startup_triple args schema config path out sites Hne Hs Hcfg s0 Hnew) as Ht.
  rewrite Hrun in Ht. destruct r0 as [[]|e|]; [|done|done]. split; [done|]. intros _.
  destruct Ht as (mask & Hl & Hm & Hb).
  assert (sys_inv (build_stage args rng s)) as Hi by by eapply booting_sys_inv.
  split; [done|]. intros w r w' Hr Hstep.
  assert (sys_inv w) as Hw.
  { clear -Hi Hr fire_returns LibmLaws0. induction Hr as [w|w1 w2 w3 [r Hs] _ IH]; [done|].
    apply IH. by eapply sys_step_ok in Hs as [_ ?]. }
  by eapply sys_step_ok.
Qed.
End Promises.

Lemma renamed_mask m names ix :
  let m' := m <| selected_feature_names := names |> <| selected_schema_indices := ix |> in
  effective_mask m' = effective_mask m ∧ vm_mode m' = vm_mode m ∧
  mask_committed m' = mask_committed m ∧ tpe_init_committed m' = tpe_init_committed m.
Proof. done. Qed.

(** The last steps of a resume. *)
Lemma resumed_tail v fs active m s r s' :
  (modify (set_schema_info v fs (effective_mask m) active) ;;;
   modify (set_vec_mask_runtime_meta m) ;;;
   (if tpe_init_committed m then λ s, (validate_committed_vector_dimensions s, s) else ret ()) ;;;
   ret active) s = (Ok r, s') →
  r = active ∧ m_mask s' = Some m ∧ get_vec_mask s' = effective_mask m ∧
  get_active_dim s' = length active ∧ get_active_feature_names s' = fs_name <$> active ∧
  (tpe_init_committed m = true → dims_ok s').
Proof.
  rewrite !bind_modify.
  set (s1 := set_vec_mask_runtime_meta _ _).
  assert (m_mask s1 = Some m ∧ get_vec_mask s1 = effective_mask m ∧
    get_active_dim s1 = length active ∧ get_active_feature_names s1 = fs_name <$> active)
    as (? & ? & ? & ?) by done.
  clearbody s1. intros Hrun.
  assert (s' = s1 ∧ r = active ∧ (tpe_init_committed m = true → dims_ok s1)) as (-> & -> & Hd).
  { apply bind_Ok_inv in Hrun as ([] & s2 & Hv & Hrun). injection Hrun as <- <-.
    destruct (tpe_init_committed m).
    - injection Hv as Hv <-. by apply validate_dims_iff in Hv.
    - by injection Hv as <-. }
  split_and!; assumption || reflexivity.
Qed.

(** C39. A run can only be resumed with the mask it was started with: another mode is an error, and so are, by mode, a
    persisted mask that is not the full one, an explicit mask that is not the persisted one, and in auto-credit mode (only there) another top-k; each
    leaves the state as it was.  An accepted resume keeps the mask and its commit flags, and the active features are again
    those of the mask. *)
Theorem resume_keeps_mask schema config s r s' :
  initialize_vec_mask_state schema config true s = (r, s') →
  (∀ m, m_mask s = Some m →
     (vm_mode m ≠ vc_mode config ∨
      (vc_mode config = Full ∧ effective_mask m ≠ replicate (length (sc_features schema)) true) ∨
      (vc_mode config = Explicit ∧ Some (effective_mask m) ≠ vc_explicit_mask config) ∨
      (vc_mode config = AutoCredit ∧ credit_top_k m ≠ vc_credit_top_k config)) →
     (∃ e, r = Err e) ∧ s' = s) ∧
  (∀ active, r = Ok active →
     ∃ m m', m_mask s = Some m ∧ m_mask s' = Some m' ∧
       effective_mask m' = effective_mask m ∧ vm_mode m' = vm_mode m ∧
       mask_committed m' = mask_committed m ∧ tpe_init_committed m' = tpe_init_committed m ∧
       active = compute_active_features schema (effective_mask m) ∧
       get_vec_mask s' = effective_mask m ∧ get_active_dim s' = length active ∧
       get_active_feature_names s' = fs_name <$> active ∧
       (tpe_init_committed m = true → dims_ok s')).
Proof.
  cbn [initialize_vec_mask_state negb]. unfold initialize_vec_mask_state. cbn [negb].
  unfold initialize_resumed. unfold bind at 1, gets at 1. intros Hrun.
  destruct (m_mask s) as [m|] eqn:Em; cbn [ok_or] in Hrun; unfold bind at 1, lift at 1 in Hrun.
  2: { injection Hrun as <- <-. split; [done|]. done. }
  case_bool_decide as Hmode; cbn [negb] in Hrun.
  2: { unfold throw in Hrun. injection Hrun as <- <-. split; [|done]. intros m' [= <-] _. by split; [eexists|]. }
  unfold bind at 1, lift at 1 in Hrun.
  destruct (check_resumed (length (sc_features schema)) config m) as [[]|e|] eqn:Ec.
  2: { injection Hrun as <- <-. split; [|done]. intros m' [= <-] _. by split; [eexists|]. }
  2: { exfalso. unfold check_resumed in Ec. destruct (vc_mode config), (vc_explicit_mask config); cbn in Ec;
         by repeat case_match. }
  split.
  - intros m' [= <-] Hbad. exfalso. unfold check_resumed in Ec.
    destruct Hbad as [Hbad|[[Hm Hbad]|[[Hm Hbad]|[Hm Hbad]]]]; [done|rewrite Hm in Ec..].
    + by case_bool_decide.
    + destruct (vc_explicit_mask config) as [q|]; [|done]. cbn in Ec.
      repeat case_bool_decide; cbn in Ec; naive_solver.
    + destruct (Nat.eqb_spec (credit_top_k m) (vc_credit_top_k config)); [done|]. by cbn in Ec.
  - intros active ->. cbv zeta in Hrun. revert Hrun.
    set (fs := compute_active_features _ _). set (ix := selected_schema_indices_of _).
    pose proof (renamed_mask m (fs_name <$> fs) ix) as (R1 & R2 & R3 & R4).
    intros Hrun. apply resumed_tail in Hrun as (-> & Hm' & Hv & Ha & Hn & Hd).
    rewrite R1 in Hv. rewrite R4 in Hd. eexists m, _. split; [done|]. split; [exact Hm'|].
    split_and!; assumption || reflexivity.
Qed.

(** ** A concrete campaign

    Two features over two sites, an explicit mask, and the control-flow graph of a loop. *)

Definition toy_acfg : AcfgJson := λ _,
  inr (mkAcfgFile 1 "bofuzz-sancov-acfg-v1" 2 [[1]; [0]] [[1]; [0]]).
Definition toy_process : Process := mkProcess None None.
Definition demo_args : BofuzzArgs :=
  mkBofuzzArgs FactorParams_default 1 43200 600 Frontier 16 f_0_15 f_0_05 5 3600
    (Some ["t_acfg.json"]%string).
Definition demo_config : VecMaskConfig := mkVecMaskConfig Explicit (Some [true; true]) 8.
Definition demo_disk : State := (empty_state (RomuDuoJr.with_seed 1))
  <| files := {["t_features_map.json" := "{}"; "t_acfg.json" := "{}"]}%string |>.
Abbreviation demo_start := (startup (H := toy_env) (H0 := toy_json) (H1 := toy_acfg) (H2 := toy_process)
    demo_args demo_schema demo_config (Some ["t_features_map.json"]%string)
    ["out"; "runtime.json"]%string 2).

Definition loaded (o : outcome Stop () * State) : bool :=
  match o.1 with Ok _ => true | _ => false end && bool_decide (is_Some (m_matrix o.2)) &&
  bool_decide (is_Some (m_acfg o.2)).
Lemma demo_started : loaded (demo_start false demo_disk) = true.
Proof. vm_compute. reflexivity. Qed.

(** The features and the graph are loaded, and the first pass of the stage does not panic. *)
Lemma campaign_safe_witness :
  let w := build_stage demo_args (RomuDuoJr.with_seed 7) (demo_start false demo_disk).2 in
  let w1 := (perform (H := toy_libm) (H0 := toy_env) (H1 := toy_json_out) w).2 in
  (demo_start false demo_disk).1 = Ok () ∧ is_Some (m_matrix (st w)) ∧ is_Some (m_acfg (st w)) ∧
  (perform (H := toy_libm) (H0 := toy_env) (H1 := toy_json_out) w1).1 ≠ Panic.
Proof.
  cbv zeta. pose proof demo_started as Hd. revert Hd.
  destruct (demo_start false demo_disk) as [r0 s] eqn:E.
  unfold loaded. cbn [fst snd]. rewrite !andb_true_iff, !bool_decide_eq_true.
  intros [[Ho Hm] Ha]. destruct r0 as [[]|e|]; [|done|done].
  split_and!; [done..|].
  destruct (campaign_safe (H := toy_libm) (H0 := toy_env) (H1 := toy_json_out) (H2 := toy_json)
    (H3 := toy_acfg) (H4 := toy_process) (λ e, ltac:(done)) demo_args demo_schema (Some "11"%string) 8
    demo_config (Some ["t_features_map.json"]%string) ["out"; "runtime.json"]%string 2
    (RomuDuoJr.with_seed 7) demo_disk (Ok ()) s E) as [_ Hsafe]; clear E.
  - by split.
  - vm_compute. reflexivity.
  - done.
  - unfold small. simpl. lia.
  - exact default_params_ok.
  - done.
  - by apply std_rand_seeded.
  - destruct (Hsafe eq_refl) as [_ Hstep].
    edestruct Hstep as [Hr _]; [|apply sys_stage|intros Ep; apply Hr; rewrite Ep; reflexivity].
    apply rtc_once. eexists. apply sys_stage.
Defined.

(** The mask of the same campaign is resumed, and any other is refused. *)
Definition demo_begun : State := (initialize_vec_mask_state demo_schema demo_config false demo_disk).2.
Lemma demo_begun_mask :
  (∃ m, m_mask demo_begun = Some m ∧ effective_mask m = [true; true] ∧ vm_mode m = Explicit) ∧
  ∃ active, (initialize_vec_mask_state demo_schema demo_config true demo_begun).1 = Ok active.
Proof.
  split; [|eexists; vm_compute; reflexivity].
  eexists. split; [vm_compute; reflexivity|]. done.
Qed.

Lemma resume_keeps_mask_witness :
  (∃ active s', initialize_vec_mask_state demo_schema demo_config true demo_begun = (Ok active, s') ∧
     get_vec_mask s' = [true; true] ∧ length active = 2) ∧
  (∃ e, initialize_vec_mask_state demo_schema (mkVecMaskConfig Full None 8) true demo_begun =
          (Err e, demo_begun)).
Proof.
  destruct demo_begun_mask as ((m & Hm & He & Hv) & active & Hr). revert Hm Hr.
  generalize demo_begun. intros s Hm Hr. split.
  - destruct (initialize_vec_mask_state demo_schema demo_config true s) as [r s'] eqn:Er.
    cbn [fst] in Hr. subst r.
    destruct (resume_keeps_mask _ _ _ _ _ Er) as [_ Hok].
    destruct (Hok active eq_refl) as (m0 & _ & Hm0 & _ & _ & _ & _ & _ & -> & Hg & _).
    rewrite Hm in Hm0. injection Hm0 as <-. rewrite He in Hg |- *. by eexists _, s'.
  - destruct (initialize_vec_mask_state demo_schema (mkVecMaskConfig Full None 8) true s) as [r s'] eqn:Er.
    destruct (resume_keeps_mask _ _ _ _ _ Er) as [Hbad _].
    destruct (Hbad m Hm) as [[e ->] ->]; [left; by rewrite Hv|by exists e].
Defined.
